(* ===== verification/_CoqProject ===== *)
-Q . S2P
Prelude.v
Text.v
Bytes.v
Expression.v
ExpressionEval.v
ExpressionParse.v
Domain.v
Artifacts.v
ArtifactMatch.v
StrictYaml.v
YamlTree.v
PipelineIr.v
Compiler.v
CompileSchema.v
Canonical.v
CanonicalReads.v
CanonicalParameters.v
Instantiate.v
Recompile.v
CanonicalStages.v
CanonicalAccept.v
CanonicalUnique.v
Components.v
ComponentExpansion.v
ComponentReceipts.v
ComponentLedger.v
ComponentSpec.v
ComponentIdentity.v
DagContract.v
DagGraph.v
DagMatrix.v
DagNormal.v
WorkspaceSnapshot.v
WorkspaceFiles.v
StoreTables.v
AuditChain.v
AuditHistory.v
ScheduleCalendar.v
CronMeaning.v
WorkspaceStore.v
DagRuntime.v
TriggerTables.v
TriggerValidation.v
TriggerSchedule.v
TriggerIngress.v
TriggerDeliveries.v
TriggerTransfer.v
Sequential.v
Scheduler.v
Attempts.v
WorkspaceChain.v
Lifecycle.v
StoreFrames.v
TriggerMoves.v
TriggerEffects.v
TriggerHistory.v
TriggerLedger.v
TriggerSlots.v
TriggerClaims.v
TriggerReplay.v
TriggerAudit.v
TriggerCatchUp.v
TriggerAnchor.v
AttemptMoves.v
LeaseRefinement.v
History.v
NodeTurns.v
NodeHistory.v
NodeOperations.v
NodeReachable.v
NodeFlow.v
DagAdvance.v
StoreTyped.v
Claims.v
WorkspaceExamples.v
AuditExamples.v
TriggerExamples.v
ComponentExamples.v
StoreExamples.v
StoreFindings.v
