(* ===== verification/Prelude.v ===== *)
(** * McLoving: a verification library for the CI/CD controller core

    McLoving is a continuous-integration controller in Rust. A pipeline is
    written in a strict subset of YAML, compiled to an intermediate
    representation with canonical bytes and a digest, and admitted as a build: a
    graph of nodes in PostgreSQL, each with numbered attempts. Agents claim
    queued attempts under a fenced lease, run them, and publish an outcome; the
    controller advances the graph, cancels, retries and reconciles. Builds start
    from triggers: webhooks, schedules, other pipelines and remote calls are
    accepted as deliveries, claimed by a worker and admitted together with their
    graph, and every change is a record of the tenant's audit chain. This library
    translates that core into executable definitions and proves it correct.

    ** Conventions

    Strings are byte strings ([string]); [str] functions of Rust are in
    [Text.v], byte orders and [BTreeMap] as a sorted association list ([bmap])
    in [Bytes.v]. Integers are [Z] with the width checks of the source written
    out. Fallible code returns [result E A] ([Ok]/[Err]) in the monad of this
    file: [x ← e; k] is [let x = e?], [check b e] an early return. Code that is
    not in the repository is a parameter, a class in scope of the definitions
    that use it: [External] (SHA-256, base64, UUIDs, with the laws
    [ExternalLaws]), [YamlParser] (the YAML event parser), [DagExternal] (JSON
    sizes, URLs), [Postgres] (a hash and a text conversion of the database),
    [WorkspaceJson] and [WorkspaceValues] (serde_json on the workspace types),
    bundled as [WorkspaceTransfer] with the laws [WorkspaceTransferLaws],
    [AuditJson] (what a jsonb column reads back, with [AuditJsonLaws]),
    [Md5Hash], [TriggerHex] (the hex crate, with [TriggerHexLaws]) and
    [CivilTime] (the database's civil time of an instant in a zone).
    Loops that are not structural carry fuel; the theorems on them say that the
    fuel given is enough, so that running out of it never happens:
    [parse_expression] (fuel from the source length), [pattern_matches] (its
    own budget), [advance_blocked_nodes] (one round per node),
    [expand_component] (one level more than the catalog has packages),
    [receipt_parent] (the length of the path), [range_bits] ([STEP_FUEL] is more
    than the values of any field or the steps to a wrap-around), [hash_next]
    ([2 ^ DRAW_DEPTH] draws, more than the generator can reject in a row).

    ** Expressions and pipelines (src/crates/pipeline-ir)

    - [Expression.v], [ExpressionEval.v], [ExpressionParse.v]: expression.rs.
      The evaluator refines a big-step semantics, does not leak secret
      parameters and is total; a result is the value of the expression in exact
      arithmetic, which overflow never wraps; printing and parsing are inverse.
    - [StrictYaml.v], [YamlTree.v]: strict_yaml.rs. The tree builder accepts
      exactly the events of the trees within the limits.
    - [PipelineIr.v], [Compiler.v], [CompileSchema.v]: model.rs. The compiler
      chooses the least schema version that fits and never materializes a
      secret.
    - [Canonical.v], [CanonicalReads.v], [CanonicalParameters.v],
      [CanonicalStages.v], [CanonicalAccept.v], [CanonicalUnique.v]:
      canonical.rs. Every valid pipeline's bytes are accepted by the independent
      reader, and equal digests mean equal pipelines. The validator bounds every
      string but the ids of connector mappings; the two theorems state the bound
      they need on them ([mapping_ids_within]), the reader's 16 KiB and the
      encoder's 32-bit lengths.
    - [Instantiate.v], [Recompile.v]: re-instantiating a compiled pipeline with
      other inputs gives what compiling the source with them gives.
    - [Components.v]: components.rs. [ComponentExpansion.v] gives the unfolding
      of an invocation as a relation and shows that [expand] computes it;
      [ComponentReceipts.v] and [ComponentLedger.v] that the pipeline and the
      ledger it assembles pass their validation; [ComponentSpec.v] when an
      invocation expands, that it always returns, and that later registrations
      change nothing; [ComponentIdentity.v] that references and digests are
      exact. [ComponentExamples.v]: witnesses.

    ** The domain vocabulary (src/crates/domain)

    - [Domain.v]: lib.rs, cache_intent.rs, input_intent.rs, source_intent.rs,
      notifications.rs. [Artifacts.v], [ArtifactMatch.v]: artifacts.rs, with the
      glob matcher against the language of its patterns.
    - [WorkspaceSnapshot.v]: workspace.rs; the validator accepts exactly the
      sorted, bounded trees. [WorkspaceFiles.v]:
      src/crates/agent-runtime/src/executor/workspace_transfer.rs over a file
      system of inodes; capturing is exact, and a seeded workspace is captured
      as the snapshot it was seeded from.

    ** Builds in the store (src/crates/controller-store)

    - [DagContract.v], [DagGraph.v], [DagMatrix.v], [DagNormal.v]: the contract
      of a build in dag.rs. Validation accepts exactly the bounded acyclic
      graphs, the matrix is the product of its axes, and the normalized contract
      does not depend on the order of the nodes.
    - [StoreTables.v]: the tables of one tenant as a record [Db] of finite maps,
      UPDATE statements as functions on it, and the triggers of migration 18.
      [DagRuntime.v], [Scheduler.v], [Attempts.v]: the transactions of dag.rs,
      scheduler.rs, affinity.rs and lib.rs as functions
      [... -> Db -> result StoreError (A * Db)]; an error is a rollback, the
      clock and fresh identifiers are arguments.
    - [Lifecycle.v]: histories, the steps of any number of controllers, agents
      and operators; each transaction is one step, as the locks of the source
      make it. [cause] names why an attempt may change and [may] which operation
      may cause it. [StoreFrames.v], [AttemptMoves.v]: what each step does to an
      attempt, with its cause. [LeaseRefinement.v]: the attempts table refines the
      TLA+ specification src/formal/tla/AttemptLease.tla, action by action: each
      transaction takes only the actions it is [entitled] to, under the agent, the
      fence and the epoch it names. Publications carry the authority of the lease,
      and resending one is harmless.
    - [History.v], [NodeTurns.v], [NodeHistory.v], [NodeOperations.v],
      [NodeReachable.v]: in every reachable state a node has at most one live
      attempt, its newest, and its status agrees with it. [NodeFlow.v]: without
      operator retries an open node waits for queued work, a lease, an attempt left
      for reconciliation, or a cancelled node that has an outcome and was left in
      reconciliation.
      [DagAdvance.v]: the loop that advances a graph ends at the reference
      closure. [Claims.v]: a claim, with the builds of orphaned workspaces it fails
      on its way, and explanations are exact.
    - [WorkspaceStore.v]: workspace.rs of the store, the workspace columns of a
      build. [Sequential.v]: sequential.rs; an accepted layout is one chain of
      single-step nodes, its stages and steps numbered by position.
      [WorkspaceChain.v]: the history of a build whose steps ended plainly is the
      one the reader accepts. [StoreTyped.v]: the workspace columns of every
      reachable state are well typed.
    - [WorkspaceExamples.v], [StoreExamples.v], [StoreFindings.v]: computed
      trees and histories, as witnesses and as counterexamples to what comments
      and documents say.

    ** Audit, schedules and triggers (src/crates/controller-store)

    - [AuditChain.v], [AuditHistory.v]: audit.rs, the tenant's chain as the list
      of its events with the head row. Every history verifies, pages cover the
      chain, and a head identifies the events before it up to a SHA-256
      collision.
    - [ScheduleCalendar.v], [CronMeaning.v]: schedule_calendar.rs. An expression
      matches a civil time exactly when its fields name it; parsing always
      returns.
    - [TriggerTables.v], [TriggerValidation.v], [TriggerSchedule.v],
      [TriggerIngress.v], [TriggerDeliveries.v], [TriggerTransfer.v]:
      trigger_ingress.rs over the tables and guards of migrations 28, 38 and 42, a
      record [TriggerDb] that holds the store and the audit chain too. Each
      reading of the clock and each fresh identifier is an argument, so readings
      may be in any order.
    - [TriggerMoves.v], [TriggerEffects.v], [TriggerHistory.v]: what each
      operation may do; the machine [delivery_move] of one delivery, whose moves
      are by events that carry the worker, the fence and the clock of a call; and
      the histories of all operations and of the rest of the store, as steps
      [trigger_step] and as runs [trigger_run] over the events of their calls.
      [TriggerLedger.v], [TriggerSlots.v], [TriggerClaims.v]: the ledger
      implements the machine on the events of its calls and is well formed, slots
      fire once, stale workers are fenced, admission is exclusive.
      [TriggerReplay.v]: redelivery changes nothing where the input can be
      compared with what was stored, due work can be claimed. [TriggerAudit.v]:
      every row names the record of its own making in the chain. [TriggerCatchUp.v]: a schedule fires only its latest due
      slot. [TriggerAnchor.v]: an anchor identifies one transfer.
    - [AuditExamples.v], [TriggerExamples.v]: computed chains and histories, as
      witnesses and as counterexamples.

    ** Not modelled

    The rest of the store (logs, objects, credentials, identities, roles,
    discovery, read models), the HTTP API, agent processes, network and
    file-system adapters, and the migration and qualification tools: they are
    I/O around PostgreSQL, HTTP, git and the operating system. Row-level
    security and privileges are not modelled: a [Db] is one tenant's view, and a
    statement runs. Row locks appear only as [SKIP LOCKED] sets; transactions are
    atomic, and the runner of schedules is a sequence of them. *)

From stdpp Require Import base gmap sets list strings pretty.
From Stdlib Require Import ZArith Lia.

(** ** The error monad: Rust's [Result<A, E>] and the [?] operator. *)

Inductive result (E A : Type) : Type :=
| Ok (a : A)
| Err (e : E).

Arguments Ok {E A} a.
Arguments Err {E A} e.

#[export] Instance result_ret E : MRet (result E) := fun A a => Ok a.

#[export] Instance result_bind E : MBind (result E) :=
  fun A B f r => match r with Ok a => f a | Err e => Err e end.

#[export] Instance result_fmap E : FMap (result E) :=
  fun A B f r => match r with Ok a => Ok (f a) | Err e => Err e end.

(** [map_err f r]: [Result::map_err]. *)
Definition map_err {E F A} (f : E -> F) (r : result E A) : result F A :=
  match r with Ok a => Ok a | Err e => Err (f e) end.

(** [ok_or o e]: [Option::ok_or]. *)
Definition ok_or {E A} (o : option A) (e : E) : result E A :=
  match o with Some a => Ok a | None => Err e end.

Definition is_ok {E A} (r : result E A) : bool :=
  match r with Ok _ => true | Err _ => false end.

(** [check b e]: the guard [if b { return Err(e) }]. *)
Definition check {E} (b : bool) (e : E) : result E () :=
  if b then Err e else Ok tt.

(** [try_for f l]: a [for] loop over [l] whose body may return early. *)
Fixpoint try_for {E A} (f : A -> result E ()) (l : list A) : result E () :=
  match l with
  | [] => Ok tt
  | x :: l => f x ;; try_for f l
  end.

(** [try_for_enum i f l]: the same loop over [l.iter().enumerate()], the first
    element having index [i]. *)
Fixpoint try_for_enum {E A} (i : nat) (f : nat -> A -> result E ()) (l : list A) :
    result E () :=
  match l with
  | [] => Ok tt
  | x :: l => f i x ;; try_for_enum (S i) f l
  end.

(** [try_fold f s l]: a loop that threads state [s] and may return early. *)
Fixpoint try_fold {E A S} (f : S -> A -> result E S) (s : S) (l : list A) :
    result E S :=
  match l with
  | [] => Ok s
  | x :: l => s ← f s x; try_fold f s l
  end.

(** ** Machine integers. A [w]-bit value is a [Z]; wrap-around, saturation and
    checked arithmetic are written out where the code uses them. *)

Definition u16_max : Z := 65535.
Definition u32_max : Z := 4294967295.
Definition u64_max : Z := 18446744073709551615.
Definition usize_max : Z := u64_max.
Definition i32_min : Z := -2147483648.
Definition i32_max : Z := 2147483647.
Definition i64_min : Z := -9223372036854775808.
Definition i64_max : Z := 9223372036854775807.

Definition in_i32 (z : Z) : bool := (i32_min <=? z)%Z && (z <=? i32_max)%Z.
Definition in_i64 (z : Z) : bool := (i64_min <=? z)%Z && (z <=? i64_max)%Z.
Definition in_u64 (z : Z) : bool := (0 <=? z)%Z && (z <=? u64_max)%Z.
Definition in_u16 (z : Z) : bool := (0 <=? z)%Z && (z <=? u16_max)%Z.

(** [usize::saturating_add(1)] and friends. *)
Definition sat_add (a b : Z) : Z := Z.min (a + b) usize_max.
Definition sat_sub (a b : Z) : Z := Z.max (a - b) 0.
Definition sat_mul (a b : Z) : Z := Z.min (a * b) usize_max.
(** [i64::checked_add] and [usize::checked_add]. *)
Definition checked_add_i64 (a b : Z) : option Z :=
  if in_i64 (a + b) then Some (a + b)%Z else None.
Definition checked_add_usize (a b : Z) : option Z :=
  if (a + b <=? usize_max)%Z then Some (a + b)%Z else None.
(** Two's complement wrap-around of a 32-bit signed value. *)
Definition wrap_i32 (z : Z) : Z := ((z + 2147483648) mod 4294967296 - 2147483648)%Z.

(** ** Lengths as the code has them: [usize], hence [Z]. *)
Definition llen {A} (l : list A) : Z := Z.of_nat (length l).
Definition slen (s : string) : Z := Z.of_nat (String.length s).

#[global] Arguments String.append !_ _ : simpl nomatch.

(** ** Tactics *)

(** Invert an equation [x ← r; k = Ok v] (and the guards) step by step. *)
Ltac inv_ok_step :=
  match goal with
  | H : Ok _ = Ok _ |- _ => injection H as H; try subst
  | H : Err _ = Ok _ |- _ => discriminate H
  | H : Ok _ = Err _ |- _ => discriminate H
  | H : Err _ = Err _ |- _ => injection H as H; try subst
  | H : context [mbind ?f ?r] |- _ =>
      unfold mbind, result_bind in H
  | H : context [check ?b _] |- _ =>
      unfold check in H
  | H : match ?r with Ok _ => _ | Err _ => _ end = _ |- _ =>
      let E := fresh "Hr" in destruct r eqn:E
  | H : (if ?b then _ else _) = _ |- _ =>
      let E := fresh "Hb" in destruct b eqn:E
  end.
Ltac inv_ok := repeat inv_ok_step.

(** Turn boolean connectives and comparisons in the context into [Prop]. *)
Ltac bool_prop :=
  repeat match goal with
  | H : _ && _ = true |- _ => apply andb_true_iff in H; destruct H
  | H : _ || _ = false |- _ => apply orb_false_iff in H; destruct H
  | H : negb _ = true |- _ => apply negb_true_iff in H
  | H : negb _ = false |- _ => apply negb_false_iff in H
  | H : (_ <=? _)%Z = true |- _ => apply Z.leb_le in H
  | H : (_ <=? _)%Z = false |- _ => apply Z.leb_gt in H
  | H : (_ <? _)%Z = true |- _ => apply Z.ltb_lt in H
  | H : (_ <? _)%Z = false |- _ => apply Z.ltb_ge in H
  | H : (_ =? _)%Z = true |- _ => apply Z.eqb_eq in H
  | H : (_ =? _)%Z = false |- _ => apply Z.eqb_neq in H
  | H : (_ =? _)%string = true |- _ => apply String.eqb_eq in H
  | H : (_ =? _)%string = false |- _ => apply String.eqb_neq in H
  end.

(** ** Generic lemmas *)

Lemma bind_ok {E A B} (f : A -> result E B) (r : result E A) (b : B) :
  (r ≫= f) = Ok b <-> exists a, r = Ok a /\ f a = Ok b.
Proof.
  unfold mbind, result_bind. destruct r; naive_solver.
Qed.

Lemma bind_err {E A B} (f : A -> result E B) (r : result E A) (e : E) :
  (r ≫= f) = Err e <-> r = Err e \/ exists a, r = Ok a /\ f a = Err e.
Proof.
  unfold mbind, result_bind. destruct r; naive_solver.
Qed.

Lemma check_ok {E} b (e : E) u : check b e = Ok u <-> b = false.
Proof. unfold check. destruct b, u; naive_solver. Qed.

Lemma guard_ok {E A} b (e : E) (r : result E A) v :
  (check b e ;; r) = Ok v <-> b = false /\ r = Ok v.
Proof. unfold check. destruct b; cbn; naive_solver. Qed.

Lemma seq_ok {E A} (u : result E ()) (r : result E A) v :
  (u ;; r) = Ok v <-> u = Ok tt /\ r = Ok v.
Proof. destruct u as [[]|]; cbn; naive_solver. Qed.

Lemma try_for_ok {E A} (f : A -> result E ()) (l : list A) :
  try_for f l = Ok tt <-> Forall (fun x => f x = Ok tt) l.
Proof.
  induction l as [|x l IH]; simpl; [done|].
  rewrite bind_ok, Forall_cons. setoid_rewrite IH.
  split; [intros ([] & ? & ?); done | intros [? ?]; exists tt; done].
Qed.

Lemma try_for_enum_ok {E A} (f : nat -> A -> result E ()) (l : list A) i :
  try_for_enum i f l = Ok tt <->
  (forall k x, l !! k = Some x -> f (i + k)%nat x = Ok tt).
Proof.
  revert i. induction l as [|x l IH]; intros i; simpl; [done|].
  rewrite bind_ok. setoid_rewrite IH. split.
  - intros ([] & H0 & H) [|k] y Hy; simplify_eq/=.
    + by rewrite Nat.add_0_r.
    + rewrite <- Nat.add_succ_comm. by apply H.
  - intros H. exists tt. split.
    + rewrite <- (Nat.add_0_r i). by apply H.
    + intros k y Hy. rewrite Nat.add_succ_comm. by apply H.
Qed.

Lemma try_fold_app {E A S} (f : S -> A -> result E S) s l1 l2 :
  try_fold f s (l1 ++ l2) = (try_fold f s l1 ≫= fun s' => try_fold f s' l2).
Proof.
  revert s. induction l1 as [|x l1 IH]; intros s; simpl; [done|].
  unfold mbind at 1 2 3, result_bind. destruct (f s x); [apply IH|done].
Qed.

Lemma map_err_ok {E F A} (g : E -> F) (r : result E A) a :
  map_err g r = Ok a <-> r = Ok a.
Proof. destruct r; naive_solver. Qed.

(** Every error of [r] satisfies [P]. *)
Definition errs_in {E A} (P : E -> Prop) (r : result E A) : Prop := forall e, r = Err e -> P e.

Lemma errs_ok {E A} (P : E -> Prop) (a : A) : errs_in P (Ok a).
Proof. done. Qed.

Lemma errs_err {E A} (P : E -> Prop) e : P e -> errs_in (A := A) P (Err e).
Proof. by intros H e' [= <-]. Qed.

Lemma errs_bind {E A B} (P : E -> Prop) (f : A -> result E B) (r : result E A) :
  errs_in P r -> (forall a, r = Ok a -> errs_in P (f a)) -> errs_in P (r ≫= f).
Proof. intros Hr Hf e [H|(a & Ha & H)]%bind_err; [by apply Hr|by eapply Hf]. Qed.

Lemma errs_check {E} (P : E -> Prop) b e : P e -> errs_in P (check b e).
Proof. unfold check. by intros H e'; destruct b; intros [= <-]. Qed.

Lemma errs_map_err {E F A} (P : F -> Prop) (g : E -> F) (r : result E A) :
  errs_in (fun e => P (g e)) r -> errs_in P (map_err g r).
Proof. intros H e. destruct r; [done|]. intros [= <-]. by apply H. Qed.

Lemma errs_ok_or {E A} (P : E -> Prop) (o : option A) e : P e -> errs_in P (ok_or o e).
Proof. destruct o; [done|]. apply errs_err. Qed.

Lemma errs_try_for {E A} (P : E -> Prop) (f : A -> result E ()) l :
  (forall x, errs_in P (f x)) -> errs_in P (try_for f l).
Proof. intros Hf. induction l as [|x l IH]; cbn [try_for]; [done|]. by apply errs_bind. Qed.

Lemma errs_try_fold {E A S} (P : E -> Prop) (f : S -> A -> result E S) s l :
  (forall s x, errs_in P (f s x)) -> errs_in P (try_fold f s l).
Proof.
  intros Hf. revert s. induction l as [|x l IH]; intros s; cbn [try_fold]; [done|].
  by apply errs_bind.
Qed.

Lemma existsb_ext {A} (f g : A -> bool) l :
  (forall x, f x = g x) -> existsb f l = existsb g l.
Proof. intros H. induction l as [|x l IH]; simpl; [done|]. by rewrite H, IH. Qed.

Lemma existsb_none {A} (f : A -> bool) l :
  (forall x, x ∈ l -> f x = false) -> existsb f l = false.
Proof.
  induction l as [|x l IH]; intros H; simpl; [done|].
  rewrite (H x) by left. apply IH. intros y Hy. apply H. by right.
Qed.

Lemma usize_max_pos : (0 < usize_max)%Z.
Proof. reflexivity. Qed.

Lemma slen_nonneg s : (0 <= slen s)%Z.
Proof. unfold slen. lia. Qed.

Lemma llen_nonneg {A} (l : list A) : (0 <= llen l)%Z.
Proof. unfold llen. lia. Qed.

Lemma string_length_app (s1 s2 : string) :
  String.length (s1 +:+ s2) = (String.length s1 + String.length s2)%nat.
Proof. induction s1 as [|c s1 IH]; simpl; [done|]. by rewrite IH. Qed.

Lemma slen_app s1 s2 : slen (s1 +:+ s2) = (slen s1 + slen s2)%Z.
Proof. unfold slen. rewrite string_length_app. lia. Qed.

Lemma llen_app {A} (l1 l2 : list A) : llen (l1 ++ l2) = (llen l1 + llen l2)%Z.
Proof. unfold llen. rewrite length_app. lia. Qed.

Lemma llen_cons {A} (x : A) l : llen (x :: l) = (llen l + 1)%Z.
Proof. unfold llen. simpl. lia. Qed.

Lemma sat_add_lt a b m :
  (0 <= a)%Z -> (0 <= b)%Z -> (m < usize_max)%Z ->
  (sat_add a b <= m)%Z <-> (a + b <= m)%Z.
Proof. unfold sat_add. lia. Qed.

Lemma sat_add_mono a b : (0 <= b)%Z -> (a <= usize_max)%Z -> (a <= sat_add a b)%Z.
Proof. unfold sat_add. lia. Qed.

Create HintDb mcl.
#[export] Hint Resolve slen_nonneg llen_nonneg : mcl.

(** Walk through a computation whose errors all satisfy a predicate. *)
Ltac errs_step :=
  match goal with
  | |- errs_in _ (Ok _) => apply errs_ok
  | |- errs_in _ (Err _) => apply errs_err
  | |- errs_in _ (check _ _) => apply errs_check
  | |- errs_in _ (map_err _ _) => apply errs_map_err
  | |- errs_in _ (ok_or _ _) => apply errs_ok_or
  | |- errs_in _ (try_for _ _) => apply errs_try_for; intros ?
  | |- errs_in _ (try_fold _ _ _) => apply errs_try_fold; intros ? ?
  | |- errs_in _ (_ ≫= _) => apply errs_bind; [|intros ? ?]
  | |- errs_in _ (if ?b then _ else _) => destruct b
  | |- errs_in _ (match ?x with _ => _ end) => destruct x eqn:?
  end.
Ltac errs_solve := cbv zeta; repeat (errs_step; cbv beta zeta); try done; try (by intros ? ?).
