(* ===== verification/Text.v ===== *)
(** * Rust strings

    A Rust [&str] or [String] is a UTF-8 byte sequence; here a [string], whose
    characters are the bytes.  This file gives the part of [core::str],
    [u8] and [char] the modelled code uses, byte for byte, and the lemmas the
    other files share about it. *)

From stdpp Require Import base list strings pretty.
From Stdlib Require Import Ascii ZArith Lia.
From S2P Require Import Prelude.

Open Scope Z_scope.

(** ** Bytes *)

Definition byte_val (c : ascii) : Z := Z.of_N (N_of_ascii c).

Definition in_range (lo hi : Z) (c : ascii) : bool :=
  (lo <=? byte_val c) && (byte_val c <=? hi).

Definition is_ascii_digit (c : ascii) : bool := in_range 48 57 c.
Definition is_ascii_lowercase (c : ascii) : bool := in_range 97 122 c.
Definition is_ascii_uppercase (c : ascii) : bool := in_range 65 90 c.
Definition is_ascii_alphabetic (c : ascii) : bool :=
  is_ascii_lowercase c || is_ascii_uppercase c.
Definition is_ascii_alphanumeric (c : ascii) : bool :=
  is_ascii_alphabetic c || is_ascii_digit c.
Definition is_ascii_control (c : ascii) : bool :=
  in_range 0 31 c || (byte_val c =? 127).
(** [u8::is_ascii_whitespace]: space, tab, line feed, form feed, return. *)
Definition is_ascii_whitespace (c : ascii) : bool :=
  (byte_val c =? 32) || (byte_val c =? 9) || (byte_val c =? 10)
  || (byte_val c =? 12) || (byte_val c =? 13).
(** The pattern [b'0'..=b'9' | b'a'..=b'f']. *)
Definition is_lower_hex (c : ascii) : bool := is_ascii_digit c || in_range 97 102 c.

Definition one_of (l : list ascii) (c : ascii) : bool :=
  existsb (Ascii.eqb c) l.

(** [s.bytes().all(f)] and [s.bytes().any(f)]. *)
Fixpoint all_bytes (f : ascii -> bool) (s : string) : bool :=
  match s with
  | EmptyString => true
  | String c s => f c && all_bytes f s
  end.
Definition any_bytes (f : ascii -> bool) (s : string) : bool :=
  negb (all_bytes (fun c => negb (f c)) s).

(** ** Searching and splitting *)

Definition is_empty (s : string) : bool :=
  match s with EmptyString => true | _ => false end.

Fixpoint strip_prefix (p s : string) : option string :=
  match p, s with
  | EmptyString, _ => Some s
  | String a p, String b s => if Ascii.eqb a b then strip_prefix p s else None
  | String _ _, EmptyString => None
  end.

Definition starts_with (p s : string) : bool :=
  match strip_prefix p s with Some _ => true | None => false end.

Fixpoint srev_app (s acc : string) : string :=
  match s with
  | EmptyString => acc
  | String c s => srev_app s (String c acc)
  end.
Definition srev (s : string) : string := srev_app s EmptyString.

(** [str::strip_suffix], [str::ends_with]. *)
Definition strip_suffix (p s : string) : option string :=
  srev <$> strip_prefix (srev p) (srev s).
Definition ends_with (p s : string) : bool :=
  match strip_suffix p s with Some _ => true | None => false end.

(** [s.contains(p)] for a string pattern. *)
Fixpoint contains_str (p s : string) : bool :=
  starts_with p s ||
  match s with
  | EmptyString => false
  | String _ s => contains_str p s
  end.

(** [s.contains(c)] for a character pattern. *)
Definition contains_char (c : ascii) (s : string) : bool := any_bytes (Ascii.eqb c) s.

(** [s.split_once(c)]: around the first [c]. *)
Fixpoint split_once (c : ascii) (s : string) : option (string * string) :=
  match s with
  | EmptyString => None
  | String a s =>
      if Ascii.eqb a c then Some (EmptyString, s)
      else match split_once c s with
           | Some (l, r) => Some (String a l, r)
           | None => None
           end
  end.

(** [s.rsplit_once(p)] for a string pattern: around the last occurrence. *)
Fixpoint rsplit_once (p s : string) : option (string * string) :=
  match s with
  | EmptyString => (fun r => (EmptyString, r)) <$> strip_prefix p s
  | String a t =>
      match rsplit_once p t with
      | Some (l, r) => Some (String a l, r)
      | None => (fun r => (EmptyString, r)) <$> strip_prefix p s
      end
  end.

(** [s.split(c)]: never empty. *)
Fixpoint split_char (c : ascii) (s : string) : list string :=
  match s with
  | EmptyString => [EmptyString]
  | String a s =>
      if Ascii.eqb a c then EmptyString :: split_char c s
      else match split_char c s with
           | [] => [String a EmptyString]
           | w :: ws => String a w :: ws
           end
  end.

(** [s.split_ascii_whitespace()]: the maximal non-blank runs. *)
Fixpoint ascii_words_go (cur : string) (s : string) : list string :=
  match s with
  | EmptyString => if is_empty cur then [] else [srev cur]
  | String a s =>
      if is_ascii_whitespace a then
        if is_empty cur then ascii_words_go EmptyString s
        else srev cur :: ascii_words_go EmptyString s
      else ascii_words_go (String a cur) s
  end.
Definition split_ascii_whitespace (s : string) : list string :=
  ascii_words_go EmptyString s.

Fixpoint sconcat (l : list string) : string :=
  match l with
  | [] => EmptyString
  | s :: l => s +:+ sconcat l
  end.

(** [l.join(sep)]. *)
Fixpoint sjoin (sep : string) (l : list string) : string :=
  match l with
  | [] => EmptyString
  | [s] => s
  | s :: l => s +:+ sep +:+ sjoin sep l
  end.

Fixpoint srepeat (c : ascii) (n : nat) : string :=
  match n with O => EmptyString | S n => String c (srepeat c n) end.

(** ** Characters *)

(** Bytes of the character a lead byte starts. *)
Definition utf8_width (c : ascii) : nat :=
  if byte_val c <? 128 then 1%nat
  else if byte_val c <? 224 then 2%nat
  else if byte_val c <? 240 then 3%nat
  else 4%nat.

Definition is_cont (c : ascii) : bool := in_range 128 191 c.

(** [core::str::from_utf8(..).is_ok()]: the well-formed byte sequences of
    RFC 3629 (no overlong form, no surrogate, nothing above U+10FFFF). *)
Fixpoint utf8_valid (s : string) : bool :=
  match s with
  | EmptyString => true
  | String a s1 =>
      if byte_val a <? 128 then utf8_valid s1
      else match s1 with
      | EmptyString => false
      | String b s2 =>
          if in_range 194 223 a then is_cont b && utf8_valid s2
          else match s2 with
          | EmptyString => false
          | String c s3 =>
              if byte_val a =? 224 then in_range 160 191 b && is_cont c && utf8_valid s3
              else if in_range 225 236 a || in_range 238 239 a then
                is_cont b && is_cont c && utf8_valid s3
              else if byte_val a =? 237 then in_range 128 159 b && is_cont c && utf8_valid s3
              else match s3 with
              | EmptyString => false
              | String d s4 =>
                  (if byte_val a =? 240 then in_range 144 191 b
                   else if in_range 241 243 a then is_cont b
                   else if byte_val a =? 244 then in_range 128 143 b
                   else false)
                  && is_cont c && is_cont d && utf8_valid s4
              end
          end
      end
  end.

(** [s.chars()], each character as its UTF-8 bytes. *)
Fixpoint chars (s : string) : list string :=
  match s with
  | EmptyString => []
  | String a s1 =>
      match utf8_width a, s1 with
      | 1%nat, _ => String a "" :: chars s1
      | _, EmptyString => [String a ""]
      | 2%nat, String b s2 => String a (String b "") :: chars s2
      | _, String b EmptyString => [String a (String b "")]
      | 3%nat, String b (String c s3) => String a (String b (String c "")) :: chars s3
      | _, String b (String c EmptyString) => [String a (String b (String c ""))]
      | _, String b (String c (String d s4)) =>
          String a (String b (String c (String d ""))) :: chars s4
      end
  end.

(** The code point of one character. *)
Definition code_point (ch : string) : Z :=
  match ch with
  | String a "" => byte_val a
  | String a (String b "") => Z.land (byte_val a) 31 * 64 + Z.land (byte_val b) 63
  | String a (String b (String c "")) =>
      Z.land (byte_val a) 15 * 4096 + Z.land (byte_val b) 63 * 64 + Z.land (byte_val c) 63
  | String a (String b (String c (String d ""))) =>
      Z.land (byte_val a) 7 * 262144 + Z.land (byte_val b) 63 * 4096
      + Z.land (byte_val c) 63 * 64 + Z.land (byte_val d) 63
  | _ => -1
  end.

(** [char::is_whitespace]: the Unicode White_Space property. *)
Definition char_is_whitespace (ch : string) : bool :=
  let c := code_point ch in
  ((9 <=? c) && (c <=? 13)) || (c =? 32) || (c =? 133) || (c =? 160)
  || (c =? 5760) || ((8192 <=? c) && (c <=? 8202)) || (c =? 8232) || (c =? 8233)
  || (c =? 8239) || (c =? 8287) || (c =? 12288).

(** [char::is_control]: the general category Cc. *)
Definition char_is_control (ch : string) : bool :=
  let c := code_point ch in
  ((0 <=? c) && (c <=? 31)) || ((127 <=? c) && (c <=? 159)).

Fixpoint drop_while {A} (f : A -> bool) (l : list A) : list A :=
  match l with
  | [] => []
  | x :: l' => if f x then drop_while f l' else l
  end.

(** [s.trim()]. *)
Definition trim (s : string) : string :=
  sconcat (rev (drop_while char_is_whitespace
                 (rev (drop_while char_is_whitespace (chars s))))).

(** ** Numbers *)

Definition digit_val (c : ascii) : Z := byte_val c - 48.

Fixpoint digits_val (acc : Z) (s : string) : Z :=
  match s with
  | EmptyString => acc
  | String c s => digits_val (acc * 10 + digit_val c) s
  end.

(** The value [s.parse::<iN>()] denotes before the range check: an optional
    sign and at least one decimal digit. *)
Definition parse_signed (s : string) : option Z :=
  let digits neg t :=
    if is_empty t || negb (all_bytes is_ascii_digit t) then None
    else Some (if neg : bool then - digits_val 0 t else digits_val 0 t) in
  match s with
  | String "-" t => digits true t
  | String "+" t => digits false t
  | _ => digits false s
  end.

Definition parse_i64 (s : string) : option Z :=
  z ← parse_signed s; if in_i64 z then Some z else None.
Definition parse_i32 (s : string) : option Z :=
  z ← parse_signed s; if in_i32 z then Some z else None.

(** [format!("{n}")] of an unsigned number. *)
Definition fmt_z (z : Z) : string := pretty z.
Definition fmt_nat (n : nat) : string := pretty n.
Definition dquote : ascii := "034".
(** [format!("{s:?}")]: the escapes of [Debug] on ASCII; characters above ASCII
    stand for themselves. *)
Definition hex_lower (z : Z) : ascii :=
  ascii_of_N (Z.to_N (if z <? 10 then z + 48 else z + 87)).
Definition debug_byte (c : ascii) : string :=
  let b := byte_val c in
  let esc (d : ascii) := String "092" (String d "") in
  if b =? 34 then esc dquote
  else if b =? 92 then esc "092"%char
  else if b =? 0 then esc "0"%char
  else if b =? 9 then esc "t"%char
  else if b =? 10 then esc "n"%char
  else if b =? 13 then esc "r"%char
  else if (b <? 32) || (b =? 127) then
    esc "u"%char +:+ String "{" ""
    +:+ (if b <? 16 then String (hex_lower b) ""
         else String (hex_lower (b / 16)) (String (hex_lower (b mod 16)) ""))
    +:+ String "}" ""
  else String c "".
Fixpoint debug_bytes (s : string) : string :=
  match s with
  | EmptyString => EmptyString
  | String c s => debug_byte c +:+ debug_bytes s
  end.
Definition fmt_debug (s : string) : string :=
  String dquote (debug_bytes s +:+ String dquote "").

(** [&s[n..]]. *)
Fixpoint sdrop (n : nat) (s : string) : string :=
  match n, s with
  | O, _ => s
  | S n, String _ s => sdrop n s
  | S _, EmptyString => EmptyString
  end.

(** The length of the longest prefix satisfying [f]: how far the loop
    [while self.peek().is_some_and(f) { self.offset += 1 }] runs. *)
Fixpoint span_len (f : ascii -> bool) (s : string) : nat :=
  match s with
  | EmptyString => O
  | String c s => if f c then S (span_len f s) else O
  end.

Fixpoint stake (n : nat) (s : string) : string :=
  match n, s with
  | O, _ => EmptyString
  | S n, String c s => String c (stake n s)
  | S _, EmptyString => EmptyString
  end.

(** Characters that need a name. *)
Definition backslash : ascii := "092".
Definition newline : ascii := "010".
Definition carriage_return : ascii := "013".
Definition tab : ascii := "009".

Definition schar (c : ascii) : string := String c EmptyString.

#[global] Arguments byte_val : simpl never.
#[global] Arguments in_range : simpl never.
#[global] Arguments is_ascii_digit : simpl never.
#[global] Arguments is_cont : simpl never.
#[global] Arguments utf8_width : simpl never.

(** ** Lemmas *)

Lemma sapp_nil_r (s : string) : s +:+ "" = s.
Proof. induction s as [|c s IH]; simpl; [done|]. by rewrite IH. Qed.

Lemma existsb_eqb (x : string) l : existsb (String.eqb x) l = true <-> x ∈ l.
Proof.
  rewrite existsb_exists. setoid_rewrite <- list_elem_of_In.
  split; [intros (y & Hy & ->%String.eqb_eq); done|].
  intros H. exists x. by rewrite String.eqb_refl.
Qed.

Lemma existsb_eqb_false (x : string) l : existsb (String.eqb x) l = false <-> x ∉ l.
Proof. rewrite <- not_true_iff_false, existsb_eqb. done. Qed.

Lemma sapp_assoc (a b c : string) : (a +:+ b) +:+ c = a +:+ (b +:+ c).
Proof. induction a as [|x a IH]; simpl; [done|]. by rewrite IH. Qed.

Lemma all_bytes_app f a b : all_bytes f (a +:+ b) = all_bytes f a && all_bytes f b.
Proof. induction a as [|c a IH]; simpl; [done|]. by rewrite IH, andb_assoc. Qed.

Lemma all_bytes_impl (f g : ascii -> bool) s :
  (forall c, f c = true -> g c = true) -> all_bytes f s = true -> all_bytes g s = true.
Proof.
  intros H. induction s as [|c s IH]; simpl; [done|].
  rewrite !andb_true_iff. intros [? ?]. auto.
Qed.

Lemma strip_prefix_app p s : strip_prefix p (p +:+ s) = Some s.
Proof. induction p as [|c p IH]; simpl; [done|]. by rewrite Ascii.eqb_refl. Qed.

Lemma strip_prefix_Some p s t : strip_prefix p s = Some t <-> s = p +:+ t.
Proof.
  split; [|intros ->; apply strip_prefix_app].
  revert s. induction p as [|c p IH]; intros [|b s]; simpl; [by intros [= ->]..|done|].
  destruct (Ascii.eqb_spec c b) as [->|]; [|done]. intros H. by rewrite (IH _ H).
Qed.

Lemma byte_val_range c : 0 <= byte_val c <= 255.
Proof.
  unfold byte_val. pose proof (N_ascii_bounded c). lia.
Qed.

Lemma byte_val_inj c d : byte_val c = byte_val d -> c = d.
Proof.
  unfold byte_val. intros H%N2Z.inj.
  by rewrite <- (ascii_N_embedding c), <- (ascii_N_embedding d), H.
Qed.

Lemma sdrop_length n s : String.length (sdrop n s) = (String.length s - n)%nat.
Proof. revert s. induction n as [|n IH]; intros [|c s]; simpl; auto. Qed.

Lemma sdrop_app a b : sdrop (String.length a) (a +:+ b) = b.
Proof. by induction a. Qed.

Lemma stake_app a b : stake (String.length a) (a +:+ b) = a.
Proof. induction a as [|c a IH]; simpl; [by destruct b|]. by rewrite IH. Qed.

Lemma span_len_app f a b c :
  all_bytes f a = true -> f b = false -> span_len f (a +:+ String b c) = String.length a.
Proof.
  intros Ha Hb. induction a as [|x a IH]; simpl in *; [by rewrite Hb|].
  apply andb_true_iff in Ha as [-> Ha]. by rewrite IH.
Qed.

(** *** Decimal numbers *)

Lemma pretty_N_char_digit n :
  (n < 10)%N ->
  is_ascii_digit (pretty_N_char n) = true /\ digit_val (pretty_N_char n) = Z.of_N n.
Proof.
  intros H. destruct n as [|p]; [done|].
  do 4 (destruct p as [p|p|]; try (by exfalso; lia); try done).
Qed.

Lemma pretty_N_go_digits n s :
  all_bytes is_ascii_digit (pretty_N_go n s) = all_bytes is_ascii_digit s /\
  digits_val 0 (pretty_N_go n s) = digits_val (Z.of_N n) s.
Proof.
  revert s. induction (N.lt_wf_0 n) as [n _ IH]; intros s.
  destruct (decide (n = 0%N)) as [->|Hn]; [by rewrite pretty_N_go_0|].
  rewrite pretty_N_go_step by lia.
  destruct (IH (n / 10)%N) with (s := String (pretty_N_char (n mod 10)) s) as [-> ->].
  { apply N.div_lt; lia. }
  destruct (pretty_N_char_digit (n mod 10)) as [Hd Hv]; [by apply N.mod_lt|].
  simpl. rewrite Hd, Hv. split; [done|]. f_equal.
  pose proof (N.div_mod n 10). lia.
Qed.

Lemma pretty_N_digits n :
  all_bytes is_ascii_digit (pretty n) = true /\ digits_val 0 (pretty n) = Z.of_N n /\
  pretty n <> "".
Proof.
  unfold pretty, pretty_N. case_decide as Hn; [by subst|].
  destruct (pretty_N_go_digits n "") as [-> ->]. repeat split.
  rewrite pretty_N_go_step by lia.
  assert (forall k s, s <> "" -> pretty_N_go k s <> "") as Hne; [|by apply Hne].
  clear. intros k. induction (N.lt_wf_0 k) as [k _ IH]; intros s Hs.
  destruct (decide (k = 0%N)) as [->|Hk]; [by rewrite pretty_N_go_0|].
  rewrite pretty_N_go_step by lia. apply IH; [apply N.div_lt; lia|done].
Qed.

Lemma fmt_z_cases z :
  (0 <= z /\ fmt_z z = pretty (Z.to_N z)) \/
  (z < 0 /\ fmt_z z = "-" +:+ pretty (Z.to_N (- z))).
Proof. destruct z; [left|left|right]; split; (lia || done). Qed.

Lemma parse_signed_digits s :
  s <> "" -> all_bytes is_ascii_digit s = true -> parse_signed s = Some (digits_val 0 s).
Proof.
  intros Hs Hd. destruct s as [|c s]; [done|]. unfold parse_signed.
  assert (forall t, is_empty t || negb (all_bytes is_ascii_digit t) = false ->
    (if is_empty t || negb (all_bytes is_ascii_digit t) then None
     else Some (digits_val 0 t)) = Some (digits_val 0 t)) as Hg by (by intros t ->).
  simpl in Hd. apply andb_true_iff in Hd as [Hc Hd].
  destruct c as [[] [] [] [] [] [] [] []]; try discriminate Hc;
    apply Hg; simpl; by rewrite Hd.
Qed.

(** Formatting a number and parsing it back is the identity. *)
Lemma parse_signed_fmt_z z : parse_signed (fmt_z z) = Some z.
Proof.
  destruct (fmt_z_cases z) as [[Hz ->]|[Hz ->]].
  - destruct (pretty_N_digits (Z.to_N z)) as (Hd & Hv & Hne).
    rewrite parse_signed_digits by done. f_equal. lia.
  - destruct (pretty_N_digits (Z.to_N (- z))) as (Hd & Hv & Hne).
    simpl. rewrite Hd, Hv. destruct (pretty (Z.to_N (- z))); [done|]. simpl. f_equal. lia.
Qed.

Lemma parse_i64_fmt_z z : in_i64 z = true -> parse_i64 (fmt_z z) = Some z.
Proof. intros H. unfold parse_i64. rewrite parse_signed_fmt_z. simpl. by rewrite H. Qed.

Lemma parse_i32_fmt_z z : in_i32 z = true -> parse_i32 (fmt_z z) = Some z.
Proof. intros H. unfold parse_i32. rewrite parse_signed_fmt_z. simpl. by rewrite H. Qed.

(** *** Characters *)

Definition is_high (c : ascii) : bool := 128 <=? byte_val c.
#[global] Arguments is_high : simpl never.

(** A character of more than one byte: all its bytes are high, it is one
    element of [chars] and it keeps what follows well-formed. *)
Record multibyte (ch : string) : Prop := {
  multibyte_high : all_bytes is_high ch = true;
  multibyte_ne : ch <> "";
  multibyte_chars t : chars (ch +:+ t) = ch :: chars t;
  multibyte_valid t : utf8_valid (ch +:+ t) = utf8_valid t
}.

Lemma is_cont_high c : is_cont c = true -> is_high c = true.
Proof. unfold is_cont, is_high, in_range. intros; bool_prop. apply Z.leb_le. lia. Qed.

Lemma in_range_true lo hi c : in_range lo hi c = true <-> lo <= byte_val c <= hi.
Proof. unfold in_range. rewrite andb_true_iff, !Z.leb_le. done. Qed.

Lemma in_range_high lo hi c : 128 <= lo -> in_range lo hi c = true -> is_high c = true.
Proof. intros ? ?%in_range_true. apply Z.leb_le. lia. Qed.

Lemma multibyte_2 a b :
  in_range 194 223 a = true -> is_cont b = true -> multibyte (String a (String b "")).
Proof.
  intros Ha Hb. pose proof Ha as Ha'. apply in_range_true in Ha'.
  split; [|done|intros t; simpl|intros t; simpl].
  - simpl. rewrite (in_range_high 194 223 a) by (lia || done). by rewrite is_cont_high.
  - unfold utf8_width. destruct (Z.ltb_spec (byte_val a) 128); [lia|].
    destruct (Z.ltb_spec (byte_val a) 224); [done|lia].
  - destruct (Z.ltb_spec (byte_val a) 128); [lia|]. by rewrite Ha, Hb.
Qed.

Lemma multibyte_3 a b c :
  224 <= byte_val a <= 239 -> is_cont c = true ->
  (if byte_val a =? 224 then in_range 160 191 b
   else if in_range 225 236 a || in_range 238 239 a then is_cont b
   else in_range 128 159 b) = true ->
  multibyte (String a (String b (String c ""))).
Proof.
  intros Ha Hc Hb. assert (is_high b = true) as Hbh.
  { repeat case_match; solve [by apply is_cont_high | eapply in_range_high; [|eassumption]; lia]. }
  assert (in_range 194 223 a = false) as Hn.
  { apply not_true_iff_false. rewrite in_range_true. lia. }
  split; [|done|intros t; simpl|intros t; simpl].
  - simpl. rewrite Hbh, (is_cont_high c) by done. unfold is_high.
    by rewrite (proj2 (Z.leb_le 128 (byte_val a))) by lia.
  - unfold utf8_width. destruct (Z.ltb_spec (byte_val a) 128); [lia|].
    destruct (Z.ltb_spec (byte_val a) 224); [lia|].
    destruct (Z.ltb_spec (byte_val a) 240); [done|lia].
  - destruct (Z.ltb_spec (byte_val a) 128); [lia|]. rewrite Hn.
    destruct (byte_val a =? 224) eqn:E; [by rewrite Hb, Hc|].
    destruct (in_range 225 236 a || in_range 238 239 a) eqn:E2; [by rewrite Hb, Hc|].
    destruct (Z.eqb_spec (byte_val a) 237); [by rewrite Hb, Hc|].
    apply Z.eqb_neq in E. apply orb_false_iff in E2 as [E1%not_true_iff_false E2%not_true_iff_false].
    rewrite in_range_true in E1, E2. lia.
Qed.

Lemma multibyte_4 a b c d :
  240 <= byte_val a -> is_cont c = true -> is_cont d = true ->
  (if byte_val a =? 240 then in_range 144 191 b
   else if in_range 241 243 a then is_cont b
   else if byte_val a =? 244 then in_range 128 143 b
   else false) = true ->
  multibyte (String a (String b (String c (String d "")))).
Proof.
  intros Ha Hc Hd Hb. assert (is_high b = true) as Hbh.
  { repeat case_match;
      solve [done | by apply is_cont_high | eapply in_range_high; [|eassumption]; lia]. }
  assert (forall lo hi, hi < 240 -> in_range lo hi a = false) as Hn.
  { intros lo hi ?. apply not_true_iff_false. rewrite in_range_true. lia. }
  split; [|done|intros t; simpl|intros t; simpl].
  - simpl. rewrite Hbh, (is_cont_high c), (is_cont_high d) by done. unfold is_high.
    by rewrite (proj2 (Z.leb_le 128 (byte_val a))) by lia.
  - unfold utf8_width. destruct (Z.ltb_spec (byte_val a) 128); [lia|].
    destruct (Z.ltb_spec (byte_val a) 224); [lia|].
    destruct (Z.ltb_spec (byte_val a) 240); [lia|done].
  - destruct (Z.ltb_spec (byte_val a) 128); [lia|]. rewrite !Hn by lia.
    destruct (Z.eqb_spec (byte_val a) 224); [lia|].
    destruct (Z.eqb_spec (byte_val a) 237); [lia|]. simpl. by rewrite Hb, Hc, Hd.
Qed.

Lemma utf8_ind (P : string -> Prop) :
  P "" ->
  (forall a s, byte_val a < 128 -> utf8_valid s = true -> P s -> P (String a s)) ->
  (forall ch s, multibyte ch -> utf8_valid s = true -> P s -> P (ch +:+ s)) ->
  forall s, utf8_valid s = true -> P s.
Proof.
  intros H0 H1 H2 s. remember (String.length s) as n eqn:En.
  revert s En. induction (lt_wf n) as [n _ IH]. intros s -> Hs.
  assert (forall ch t, s = ch +:+ t -> multibyte ch -> utf8_valid t = true -> P s) as Hstep.
  { intros ch t -> Hm Ht. apply H2; [done..|]. eapply IH; [|done..].
    rewrite string_length_app. pose proof (multibyte_ne _ Hm). destruct ch; simpl; [done|lia]. }
  destruct s as [|a s]; [done|]. cbn in Hs.
  destruct (Z.ltb_spec (byte_val a) 128).
  { apply H1; [done..|]. eapply (IH (String.length s)); [simpl; lia|done..]. }
  destruct s as [|b s]; [done|]. destruct (in_range 194 223 a) eqn:Ea.
  { bool_prop. apply (Hstep (String a (String b "")) s); [done|by apply multibyte_2|done]. }
  destruct s as [|c s]; [done|].
  destruct (Z.eqb_spec (byte_val a) 224) as [E|E].
  { bool_prop. apply (Hstep (String a (String b (String c ""))) s);
      [done| |done].
    apply multibyte_3; [lia|done|]. by rewrite E. }
  destruct (in_range 225 236 a || in_range 238 239 a) eqn:E2.
  { bool_prop. apply (Hstep (String a (String b (String c ""))) s);
      [done| |done].
    apply multibyte_3; [|done|].
    - apply orb_true_iff in E2. rewrite !in_range_true in E2. lia.
    - rewrite (proj2 (Z.eqb_neq _ _) E), E2. done. }
  destruct (Z.eqb_spec (byte_val a) 237) as [E3|E3].
  { apply andb_true_iff in Hs as [[? ?]%andb_true_iff ?].
    apply (Hstep (String a (String b (String c ""))) s); [done| |done].
    apply multibyte_3; [lia|done|]. by rewrite (proj2 (Z.eqb_neq _ _) E), E2. }
  destruct s as [|d s]; [done|]. bool_prop.
  apply (Hstep (String a (String b (String c (String d "")))) s);
    [done| |done].
  apply multibyte_4; [|done..].
  repeat case_match; bool_prop; rewrite ?in_range_true in *; (lia || done).
Qed.
