(* ===== verification/Bytes.v ===== *)
(** * Byte strings

    Big-endian integers ([to_be_bytes] and [from_be_bytes]), the byte order of
    [str] and the ordered maps built on it ([BTreeMap<String, V>], here a list
    sorted by key), and uniquely readable encodings: the combinators behind
    every framed byte string the code writes or hashes. *)

From stdpp Require Import base gmap list strings.
From Stdlib Require Import Ascii ZArith Lia Sorted.
From S2P Require Import Prelude Text.

Open Scope Z_scope.

(** ** Big-endian integers *)

Definition byte_of (z : Z) : ascii := ascii_of_N (Z.to_N (z mod 256)).

(** The [n] bytes of [z], most significant first; [z] is taken modulo [256^n]. *)
Fixpoint be_bytes (n : nat) (z : Z) : string :=
  match n with
  | O => EmptyString
  | S n => String (byte_of (z / 256 ^ Z.of_nat n)) (be_bytes n z)
  end.

Fixpoint be_val_go (acc : Z) (s : string) : Z :=
  match s with
  | EmptyString => acc
  | String c s => be_val_go (acc * 256 + byte_val c) s
  end.
Definition be_val (s : string) : Z := be_val_go 0 s.

(** [i64::to_be_bytes] and [i64::from_be_bytes]: two's complement. *)
Definition i64_bytes (z : Z) : string := be_bytes 8 (z mod 2 ^ 64).
Definition i64_val (s : string) : Z :=
  let v := be_val s in if 2 ^ 63 <=? v then v - 2 ^ 64 else v.

(** A length-prefixed field: [(len as u64).to_be_bytes()] and the bytes. *)
Definition framed (s : string) : string := be_bytes 8 (slen s) +:+ s.

(** ** The order of [str]: bytewise, lexicographic *)

Fixpoint str_ltb (a b : string) : bool :=
  match a, b with
  | _, EmptyString => false
  | EmptyString, String _ _ => true
  | String x a, String y b =>
      (byte_val x <? byte_val y) || ((byte_val x =? byte_val y) && str_ltb a b)
  end.

(** [a >= b]. *)
Definition str_geb (a b : string) : bool := negb (str_ltb a b).

(** ** [BTreeMap<String, V>] as the list of its entries in key order *)

Definition bmap (V : Type) : Type := list (string * V).

Definition str_lt (a b : string) : Prop := str_ltb a b = true.

(** The representation invariant: keys strictly increasing. *)
Definition bmap_wf {V} (m : bmap V) : Prop := Sorted str_lt m.*1.

Fixpoint bget {V} (k : string) (m : bmap V) : option V :=
  match m with
  | [] => None
  | (k', v) :: m => if String.eqb k' k then Some v else bget k m
  end.

Definition bcontains {V} (k : string) (m : bmap V) : bool :=
  match bget k m with Some _ => true | None => false end.

(** [BTreeMap::insert]: replaces the value of an equal key. *)
Fixpoint binsert {V} (k : string) (v : V) (m : bmap V) : bmap V :=
  match m with
  | [] => [(k, v)]
  | (k', v') :: m' =>
      if String.eqb k' k then (k, v) :: m'
      else if str_ltb k k' then (k, v) :: m
      else (k', v') :: binsert k v m'
  end.

(** [BTreeMap::remove]: the map without the key. *)
Fixpoint bdelete {V} (k : string) (m : bmap V) : bmap V :=
  match m with
  | [] => []
  | (k', v') :: m' => if String.eqb k' k then m' else (k', v') :: bdelete k m'
  end.

(** ** Uniquely readable encodings *)

(** [unique_code dom enc]: on [dom], an encoding followed by anything tells the
    value and where it ends. *)
Definition unique_code {A} (dom : A -> Prop) (enc : A -> string) : Prop :=
  forall x y s t, dom x -> dom y -> enc x +:+ s = enc y +:+ t -> x = y /\ s = t.

(** Encoding of a sequence whose length is written elsewhere. *)
Definition enc_all {A} (enc : A -> string) (l : list A) : string := sconcat (enc <$> l).

(** ** Lemmas: integers *)

Lemma byte_val_of z : byte_val (byte_of z) = z mod 256.
Proof.
  unfold byte_val, byte_of. pose proof (Z.mod_pos_bound z 256 ltac:(lia)).
  rewrite N_ascii_embedding; lia.
Qed.

Lemma be_bytes_length n z : String.length (be_bytes n z) = n.
Proof. induction n; simpl; auto. Qed.

Lemma be_val_go_app acc a b : be_val_go acc (a +:+ b) = be_val_go (be_val_go acc a) b.
Proof. revert acc. induction a as [|c a IH]; intros acc; simpl; auto. Qed.

Lemma be_val_go_be_bytes n acc z :
  0 <= z -> be_val_go acc (be_bytes n z) = acc * 256 ^ Z.of_nat n + z mod 256 ^ Z.of_nat n.
Proof.
  intros Hz. revert acc. induction n as [|n IH]; intros acc.
  { simpl. rewrite Z.mod_1_r. lia. }
  cbn [be_bytes be_val_go]. rewrite IH, byte_val_of.
  rewrite Nat2Z.inj_succ, Z.pow_succ_r by lia.
  assert (0 < 256 ^ Z.of_nat n) by (apply Z.pow_pos_nonneg; lia).
  rewrite (Z.mul_comm 256), Z.rem_mul_r by lia. lia.
Qed.

(** Reading back what was written, within the width. *)
Lemma be_val_be_bytes n z : 0 <= z < 256 ^ Z.of_nat n -> be_val (be_bytes n z) = z.
Proof.
  intros Hz. unfold be_val. rewrite be_val_go_be_bytes by lia. rewrite Z.mod_small by lia. lia.
Qed.

Lemma be_bytes_inj n x y :
  0 <= x < 256 ^ Z.of_nat n -> 0 <= y < 256 ^ Z.of_nat n ->
  be_bytes n x = be_bytes n y -> x = y.
Proof. intros Hx Hy H. by rewrite <- (be_val_be_bytes n x), <- (be_val_be_bytes n y), H. Qed.

Lemma i64_val_bytes z : in_i64 z = true -> i64_val (i64_bytes z) = z.
Proof.
  unfold in_i64, i64_min, i64_max. intros; bool_prop. unfold i64_val, i64_bytes.
  pose proof (Z.mod_pos_bound z (2 ^ 64) ltac:(lia)).
  rewrite be_val_be_bytes by (change (256 ^ Z.of_nat 8) with (2 ^ 64); lia).
  destruct (decide (0 <= z)).
  - rewrite Z.mod_small by lia. by rewrite (proj2 (Z.leb_gt _ _)) by lia.
  - replace (z mod 2 ^ 64) with (z + 2 ^ 64).
    2:{ apply Z.mod_unique with (-1); lia. }
    rewrite (proj2 (Z.leb_le _ _)) by lia. lia.
Qed.

(** ** Lemmas: the order of strings *)

Lemma str_ltb_irrefl a : str_ltb a a = false.
Proof.
  induction a as [|c a IH]; simpl; [done|]. rewrite IH, Z.ltb_irrefl, andb_false_r. done.
Qed.

Lemma str_ltb_trans a b c : str_ltb a b = true -> str_ltb b c = true -> str_ltb a c = true.
Proof.
  revert b c. induction a as [|x a IH]; intros [|y b] [|z c]; simpl; try done.
  rewrite !orb_true_iff, !andb_true_iff, !Z.ltb_lt, !Z.eqb_eq. intros [?|[E ?]] [?|[E' ?]].
  - left. lia.
  - left. lia.
  - left. lia.
  - right. split; [lia|]. by eapply IH.
Qed.

#[export] Instance str_lt_trans : Transitive str_lt.
Proof. intros a b c. apply str_ltb_trans. Qed.

Lemma str_ltb_total a b : str_ltb a b = false -> str_ltb b a = false -> a = b.
Proof.
  revert b. induction a as [|x a IH]; intros [|y b]; simpl; try done.
  rewrite !orb_false_iff, !andb_false_iff, !Z.ltb_ge, !Z.eqb_neq.
  intros [? [?|?]] [? [?|?]]; try lia. f_equal; [apply byte_val_inj; lia|by apply IH].
Qed.

Lemma str_lt_ne a b : str_lt a b -> a <> b.
Proof. intros H ->. unfold str_lt in H. by rewrite str_ltb_irrefl in H. Qed.

(** ** Lemmas: ordered maps *)

Lemma sorted_head_lt a l b : Sorted str_lt (a :: l) -> b ∈ l -> str_lt a b.
Proof.
  intros H. apply Sorted_StronglySorted in H; [|intros ? ? ?; apply str_lt_trans].
  apply StronglySorted_inv in H as [_ H]. rewrite Forall_forall in H.
  intros Hb. by apply H.
Qed.

Lemma bmap_wf_cons {V} k (v : V) m : bmap_wf ((k, v) :: m) -> bmap_wf m.
Proof. intros H. by inversion H. Qed.

Lemma bget_elem {V} k (v : V) m : bget k m = Some v -> (k, v) ∈ m.
Proof.
  induction m as [|[k' v'] m IH]; simpl; [done|].
  destruct (String.eqb_spec k' k) as [->|]; [intros [= ->]; left|]. right. by apply IH.
Qed.

Lemma bget_None {V} k (m : bmap V) : bget k m = None <-> k ∉ m.*1.
Proof.
  induction m as [|[k' v'] m IH]; simpl; [set_solver|].
  destruct (String.eqb_spec k' k) as [->|]; [set_solver|]. rewrite IH. set_solver.
Qed.

(** In a well-formed map the entries are the lookups. *)
Lemma bget_wf {V} k (v : V) m : bmap_wf m -> (k, v) ∈ m <-> bget k m = Some v.
Proof.
  intros Hwf. split; [|apply bget_elem].
  induction m as [|[k' v'] m IH]; [set_solver|].
  rewrite elem_of_cons. intros [[= -> ->]|Hin]; simpl; [by rewrite String.eqb_refl|].
  assert (str_lt k' k) as Hlt.
  { eapply sorted_head_lt; [exact Hwf|]. apply list_elem_of_fmap. by exists (k, v). }
  apply str_lt_ne in Hlt. rewrite (proj2 (String.eqb_neq _ _)) by done.
  apply IH; [by eapply bmap_wf_cons|done].
Qed.

Lemma bget_binsert {V} k k' (v : V) m :
  bmap_wf m -> bget k' (binsert k v m) = if String.eqb k k' then Some v else bget k' m.
Proof.
  intros Hwf. induction m as [|[a b] m IH]; simpl; [done|].
  destruct (String.eqb_spec a k) as [->|Hne].
  { simpl. by destruct (String.eqb_spec k k'). }
  destruct (str_ltb k a) eqn:E; simpl.
  { done. }
  destruct (String.eqb_spec a k') as [->|]; [by rewrite (proj2 (String.eqb_neq _ _)) by congruence|].
  apply IH. by eapply bmap_wf_cons.
Qed.

Lemma bget_bdelete {V} k k' (m : bmap V) :
  bmap_wf m -> bget k' (bdelete k m) = if String.eqb k k' then None else bget k' m.
Proof.
  intros Hwf. induction m as [|[a b] m IH]; simpl; [by destruct (k =? k')%string|].
  destruct (String.eqb_spec a k) as [->|Hne].
  - destruct (String.eqb_spec k k') as [->|]; [|done].
    apply bget_None. intros Hin.
    apply (str_lt_ne k' k'); [|done]. by eapply sorted_head_lt.
  - simpl. rewrite IH by (by eapply bmap_wf_cons).
    destruct (String.eqb_spec a k'); [|done].
    destruct (String.eqb_spec k k'); [congruence|done].
Qed.

Lemma bmap_wf_nodup {V} (m : bmap V) : bmap_wf m -> NoDup m.*1.
Proof.
  unfold bmap_wf. intros H. apply Sorted_StronglySorted in H; [|intros ? ? ?; apply str_lt_trans].
  induction H as [|a l Hs IH Ha]; constructor; [|done].
  intros Hin. rewrite Forall_forall in Ha. by apply (str_lt_ne a a); [apply Ha|].
Qed.

Lemma bmap_wf_cons_iff {V} k (v : V) m :
  bmap_wf ((k, v) :: m) <-> bmap_wf m /\ forall k', k' ∈ m.*1 -> str_lt k k'.
Proof.
  split.
  - intros H. split; [by eapply bmap_wf_cons|]. intros k' Hin. by eapply sorted_head_lt.
  - intros [H Hlt]. unfold bmap_wf. rewrite fmap_cons. constructor; [done|].
    destruct m as [|[k' v'] m]; constructor. apply Hlt. rewrite fmap_cons. by left.
Qed.

Lemma binsert_keys {V} k (v : V) m k' : k' ∈ (binsert k v m).*1 -> k' = k \/ k' ∈ m.*1.
Proof.
  induction m as [|[a b] m IH]; cbn [binsert].
  - rewrite fmap_cons. set_solver.
  - destruct (String.eqb_spec a k) as [->|]; [rewrite !fmap_cons; set_solver|].
    destruct (str_ltb k a); rewrite !fmap_cons; set_solver.
Qed.

Lemma binsert_wf {V} k (v : V) m : bmap_wf m -> bmap_wf (binsert k v m).
Proof.
  induction m as [|[a b] m IH]; cbn [binsert]; intros Hw.
  { apply bmap_wf_cons_iff. split; [done|]. set_solver. }
  pose proof Hw as [Hm Hlt]%bmap_wf_cons_iff.
  destruct (String.eqb_spec a k) as [->|Hne]; [by apply bmap_wf_cons_iff|].
  destruct (str_ltb k a) eqn:E; apply bmap_wf_cons_iff; (split; [by auto|]).
  - intros k'. rewrite fmap_cons. intros [->|Hin]%elem_of_cons; [done|].
    eapply str_lt_trans; [exact E|by apply Hlt].
  - intros k' [->|Hin]%binsert_keys; [|by apply Hlt].
    destruct (str_ltb a k) eqn:E'; [done|]. exfalso. by apply Hne, str_ltb_total.
Qed.

Lemma bdelete_keys {V} k (m : bmap V) k' : k' ∈ (bdelete k m).*1 -> k' ∈ m.*1.
Proof.
  induction m as [|[a b] m IH]; cbn [bdelete]; [done|].
  destruct (String.eqb_spec a k); rewrite !fmap_cons; set_solver.
Qed.

Lemma bdelete_wf {V} k (m : bmap V) : bmap_wf m -> bmap_wf (bdelete k m).
Proof.
  induction m as [|[a b] m IH]; cbn [bdelete]; [done|].
  intros [Hm Hlt]%bmap_wf_cons_iff. destruct (String.eqb_spec a k); [done|].
  apply bmap_wf_cons_iff. split; [by apply IH|]. intros k' Hin. by apply Hlt, (bdelete_keys k).
Qed.

(** Two well-formed maps with the same lookups are equal. *)
Lemma bmap_ext {V} (m1 m2 : bmap V) :
  bmap_wf m1 -> bmap_wf m2 -> (forall k, bget k m1 = bget k m2) -> m1 = m2.
Proof.
  revert m2. induction m1 as [|[k1 v1] m1 IH]; intros [|[k2 v2] m2] H1 H2 He.
  - done.
  - specialize (He k2). simpl in He. by rewrite String.eqb_refl in He.
  - specialize (He k1). simpl in He. by rewrite String.eqb_refl in He.
  - apply bmap_wf_cons_iff in H1 as [H1 L1], H2 as [H2 L2].
    assert (k1 = k2) as ->.
    { pose proof (He k1) as E1. pose proof (He k2) as E2. simpl in E1, E2.
      rewrite String.eqb_refl in E1, E2.
      destruct (String.eqb_spec k2 k1) as [|Hne]; [done|].
      rewrite (proj2 (String.eqb_neq _ _)) in E2 by congruence.
      symmetry in E1. apply bget_elem in E1, E2.
      assert (str_lt k2 k1) as A by (apply L2, list_elem_of_fmap; by exists (k1, v1)).
      assert (str_lt k1 k2) as B by (apply L1, list_elem_of_fmap; by exists (k2, v2)).
      exfalso. apply (str_lt_ne k1 k1); [by eapply str_lt_trans|done]. }
    pose proof (He k2) as E. simpl in E. rewrite String.eqb_refl in E. injection E as ->.
    f_equal. apply IH; [done..|]. intros k. specialize (He k). simpl in He.
    destruct (String.eqb_spec k2 k) as [->|]; [|done].
    rewrite !(proj2 (bget_None _ _)); [done|intros Hin..]; apply (str_lt_ne k k); auto.
Qed.

(** ** Lemmas: uniquely readable encodings *)

Lemma sapp_inj_length a b s t :
  String.length a = String.length b -> a +:+ s = b +:+ t -> a = b /\ s = t.
Proof.
  revert b. induction a as [|x a IH]; intros [|y b]; simpl; try done.
  intros [= Hl] [= -> H]. destruct (IH b Hl H) as [-> ->]. done.
Qed.

Lemma sapp_inj (a s t : string) : a +:+ s = a +:+ t -> s = t.
Proof. induction a as [|c a IH]; [done|]. intros [= H]. auto. Qed.

Lemma sapp_inv_tail a b t : a +:+ t = b +:+ t -> a = b.
Proof.
  intros E. assert (String.length a = String.length b) as El.
  { apply (f_equal String.length) in E. rewrite !string_length_app in E. lia. }
  by apply (sapp_inj_length _ _ _ _ El) in E as [-> _].
Qed.

Lemma unique_code_inj {A} (dom : A -> Prop) enc x y :
  unique_code dom enc -> dom x -> dom y -> enc x = enc y -> x = y.
Proof.
  intros H Hx Hy E. apply (H x y "" "" Hx Hy). by rewrite E.
Qed.

Lemma unique_be_bytes n : unique_code (fun z => 0 <= z < 256 ^ Z.of_nat n) (be_bytes n).
Proof.
  intros x y s t Hx Hy H. apply sapp_inj_length in H as [H ->]; [|by rewrite !be_bytes_length].
  split; [|done]. by apply be_bytes_inj in H.
Qed.

Lemma unique_i64 : unique_code (fun z => in_i64 z = true) i64_bytes.
Proof.
  intros x y s t Hx Hy H. unfold i64_bytes in H.
  apply sapp_inj_length in H as [H ->]; [|by rewrite !be_bytes_length].
  split; [|done]. rewrite <- (i64_val_bytes x), <- (i64_val_bytes y) by done.
  unfold i64_bytes. by rewrite H.
Qed.

(** A value made of two encodings, the second depending on the first. *)
Lemma unique_pair {A B C} (f : C -> A) (g : C -> B) domA domB (encA : A -> string)
    (encB : A -> B -> string) (dom : C -> Prop) :
  (forall x y, f x = f y -> g x = g y -> x = y) ->
  (forall x, dom x -> domA (f x)) -> (forall x, dom x -> domB (f x) (g x)) ->
  unique_code domA encA -> (forall a, unique_code (domB a) (encB a)) ->
  unique_code dom (fun x => encA (f x) +:+ encB (f x) (g x)).
Proof.
  intros Hinj HA HB UA UB x y s t Hx Hy H. rewrite !sapp_assoc in H.
  apply UA in H as [Ef H]; [|by auto..]. rewrite <- Ef in H.
  apply (UB (f x)) in H as [Eg ->]; [|by auto|rewrite Ef; auto]. auto.
Qed.

Lemma unique_iso {A B} (f : B -> A) dom (enc : A -> string) :
  (forall x y, f x = f y -> x = y) -> unique_code dom enc ->
  unique_code (fun x => dom (f x)) (fun x => enc (f x)).
Proof. intros Hf U x y s t Hx Hy H. apply U in H as [E ->]; [|done..]. auto. Qed.

Lemma unique_weaken {A} (dom dom' : A -> Prop) enc :
  (forall x, dom' x -> dom x) -> unique_code dom enc -> unique_code dom' enc.
Proof. intros Hd U x y s t Hx Hy H. apply (U x y s t); auto. Qed.

Lemma unique_ext {A} (dom : A -> Prop) (e1 e2 : A -> string) :
  (forall x, dom x -> e1 x = e2 x) -> unique_code dom e1 -> unique_code dom e2.
Proof. intros He U x y s t Hx Hy H. rewrite <- !He in H by done. by apply U. Qed.

(** Sequences of one length. *)
Lemma unique_enc_all {A} (dom : A -> Prop) enc n :
  unique_code dom enc ->
  unique_code (fun l => length l = n /\ Forall dom l) (enc_all enc).
Proof.
  intros U. induction n as [|n IH].
  { intros [|? ?] [|? ?] s t [Hx _] [Hy _]; simpl in *; naive_solver. }
  intros [|x l] [|y k] s t [Hx Fx] [Hy Fy]; simplify_eq/=.
  apply Forall_cons in Fx as [? ?], Fy as [? ?].
  unfold enc_all. cbn [fmap list_fmap sconcat]. rewrite !sapp_assoc.
  intros E. apply U in E as [-> E]; [|done..].
  apply (IH l k) in E as [-> ->]; done.
Qed.

(** Sequences that end where the text ends. *)
Lemma unique_enc_all_end {A} (dom : A -> Prop) enc l k :
  unique_code dom enc -> (forall x, enc x <> "") -> Forall dom l -> Forall dom k ->
  enc_all enc l = enc_all enc k -> l = k.
Proof.
  intros U Hne Hl. revert k. induction Hl as [|x l Hx Hl IH]; intros [|y k] Hk;
    unfold enc_all in *; cbn [fmap list_fmap sconcat]; [done|..].
  - intros E. specialize (Hne y). by destruct (enc y).
  - intros E. specialize (Hne x). by destruct (enc x).
  - apply Forall_cons in Hk as [? ?]. intros E. apply U in E as [-> E]; [|done..].
    f_equal. by apply IH.
Qed.
