(* ===== verification/Expression.v ===== *)
(** * The bounded expression language (crates/pipeline-ir/src/expression.rs)

    Typed parameter values, the expression tree, its resource limits, the lexer,
    the recursive-descent parser, the structural validator and the evaluator
    with secret taint.  A parser step that would index past the token vector is
    the value [Panic]; a recursion that runs out of fuel is [Diverge]; the
    theorems show neither is ever produced. *)

From stdpp Require Import base gmap list strings pretty.
From Stdlib Require Import Ascii ZArith Lia.
From S2P Require Import Prelude Text.

Open Scope Z_scope.

(** ** Data *)

Inductive ParameterValue : Type :=
| PBool (b : bool)
| PInteger (z : Z)
| PString (s : string).

#[export] Instance ParameterValue_eq_dec : EqDecision ParameterValue.
Proof. solve_decision. Defined.

Definition type_name (v : ParameterValue) : string :=
  match v with
  | PBool _ => "boolean"
  | PInteger _ => "integer"
  | PString _ => "string"
  end.

Inductive Expression : Type :=
| Literal (v : ParameterValue)
| EParameter (name : string)
| Not (e : Expression)
| Equal (l r : Expression)
| NotEqual (l r : Expression)
| And (l r : Expression)
| Or (l r : Expression)
| Add (l r : Expression).

#[export] Instance Expression_eq_dec : EqDecision Expression.
Proof. solve_decision. Defined.

Record ExpressionLimits := {
  max_source_bytes : Z;
  max_nodes : Z;
  max_depth : Z;
  max_string_bytes : Z;
  max_operations : Z
}.

Definition default_limits : ExpressionLimits := {|
  max_source_bytes := 16 * 1024;
  max_nodes := 128;
  max_depth := 16;
  max_string_bytes := 4 * 1024;
  max_operations := 128
|}.

Inductive ExpressionErrorCode : Type :=
| SourceLimit
| Syntax
| UnknownContext
| NodeLimit
| DepthLimit
| StringLimit
| OperationLimit
| MissingParameter
| TypeMismatch
| IntegerOverflow.

#[export] Instance ExpressionErrorCode_eq_dec : EqDecision ExpressionErrorCode.
Proof. solve_decision. Defined.

(** [{:?}] of the derived [Debug]: the variant's name. *)
Definition code_name (c : ExpressionErrorCode) : string :=
  match c with
  | SourceLimit => "SourceLimit"
  | Syntax => "Syntax"
  | UnknownContext => "UnknownContext"
  | NodeLimit => "NodeLimit"
  | DepthLimit => "DepthLimit"
  | StringLimit => "StringLimit"
  | OperationLimit => "OperationLimit"
  | MissingParameter => "MissingParameter"
  | TypeMismatch => "TypeMismatch"
  | IntegerOverflow => "IntegerOverflow"
  end.

Record ExpressionError := ExprError {
  err_code : ExpressionErrorCode;
  err_offset : Z;
  err_message : string
}.

#[export] Instance ExpressionError_eq_dec : EqDecision ExpressionError.
Proof. solve_decision. Defined.

(** [impl Display for ExpressionError]. *)
Definition expression_error_display (e : ExpressionError) : string :=
  code_name (err_code e) +:+ " at byte " +:+ fmt_z (err_offset e) +:+ ": "
  +:+ err_message e.

Record EvaluatedValue := Evaluated {
  ev_value : ParameterValue;
  ev_secret : bool
}.

#[export] Instance EvaluatedValue_eq_dec : EqDecision EvaluatedValue.
Proof. solve_decision. Defined.

(** ** Structural validation *)

Definition depth_message (lim : ExpressionLimits) : string :=
  "expression depth exceeds " +:+ fmt_z (max_depth lim).
Definition node_message (lim : ExpressionLimits) : string :=
  "expression node count exceeds " +:+ fmt_z (max_nodes lim).
Definition string_message (lim : ExpressionLimits) : string :=
  "expression string exceeds " +:+ fmt_z (max_string_bytes lim) +:+ " bytes".
Definition operation_message (lim : ExpressionLimits) : string :=
  "expression operation count exceeds " +:+ fmt_z (max_operations lim).

Definition is_parameter_byte (c : ascii) : bool :=
  is_ascii_alphanumeric c || one_of ["_"; "-"]%char c.

Definition validate_parameter_name (name : string) : result ExpressionError () :=
  check (is_empty name || negb (all_bytes is_parameter_byte name))
    (ExprError Syntax 0
      "parameter name must contain only ASCII letters, digits, underscore, or hyphen").

(** The inner [walk] of [validate_expression]; the two [&mut usize] counters are
    threaded as the pair (nodes, operations). *)
Fixpoint walk (e : Expression) (lim : ExpressionLimits) (depth : Z) (st : Z * Z) :
    result ExpressionError (Z * Z) :=
  check (max_depth lim <? depth) (ExprError DepthLimit 0 (depth_message lim)) ;;
  let nodes := sat_add (fst st) 1 in
  check (max_nodes lim <? nodes) (ExprError NodeLimit 0 (node_message lim)) ;;
  let st := (nodes, snd st) in
  let bump (st : Z * Z) := (fst st, sat_add (snd st) 1) in
  st ← match e with
       | Literal (PString value) =>
           check (max_string_bytes lim <? slen value)
             (ExprError StringLimit 0 (string_message lim)) ;;
           Ok st
       | Literal _ => Ok st
       | EParameter name => validate_parameter_name name ;; Ok st
       | Not value => walk value lim (depth + 1) (bump st)
       | Equal l r | NotEqual l r | And l r | Or l r | Add l r =>
           st ← walk l lim (depth + 1) (bump st);
           walk r lim (depth + 1) st
       end;
  check (max_operations lim <? snd st)
    (ExprError OperationLimit 0 (operation_message lim)) ;;
  Ok st.

Definition validate_expression (e : Expression) (lim : ExpressionLimits) :
    result ExpressionError () :=
  walk e lim 0 (0, 0) ;; Ok tt.

(** ** Tokens and lexer *)

Inductive TokenKind : Type :=
| TBool (b : bool)
| TInteger (z : Z)
| TString (s : string)
| TParameter (name : string)
| TNot
| TEqual
| TNotEqual
| TAnd
| TOr
| TAdd
| TLeftParen
| TRightParen
| TEnd.

#[export] Instance TokenKind_eq_dec : EqDecision TokenKind.
Proof. solve_decision. Defined.

Record Token := MkToken { kind : TokenKind; offset : Z }.

(** What a run of the lexer or parser may end in besides a value. *)
Inductive fault : Type :=
| Fail (e : ExpressionError)
| Panic
| Diverge.

Definition fail {A} (c : ExpressionErrorCode) (o : Z) (m : string) : result fault A :=
  Err (Fail (ExprError c o m)).

(** [Lexer::integer]: [rest] is [self.remaining()] and [start] the offset; the
    result is the value and the number of bytes consumed. *)
Definition lex_integer (start : Z) (rest : string) : result fault (Z * nat) :=
  let sign := match rest with String "-" _ => 1%nat | _ => O end in
  let digits := span_len is_ascii_digit (sdrop sign rest) in
  if Nat.eqb digits 0 then
    fail Syntax start "minus must be followed by an integer"
  else
    match parse_i64 (stake (sign + digits) rest) with
    | Some z => Ok (z, (sign + digits)%nat)
    | None =>
        fail IntegerOverflow start "integer literal is outside signed 64-bit range"
    end.

(** The character an escape denotes. *)
Definition unescape (ch : string) : option string :=
  if String.eqb ch (schar dquote) then Some (schar dquote)
  else if String.eqb ch (schar backslash) then Some (schar backslash)
  else if String.eqb ch "n" then Some (schar newline)
  else if String.eqb ch "r" then Some (schar carriage_return)
  else if String.eqb ch "t" then Some (schar tab)
  else None.

(** The loop of [Lexer::string] over the remaining characters: [start] is the
    offset of the opening quote, [off] the current offset, [value] the text so
    far.  Returns the text and the offset after the closing quote. *)
Fixpoint lex_string_loop (lim : ExpressionLimits) (start off : Z) (value : string)
    (cs : list string) : result fault (string * Z) :=
  match cs with
  | [] => fail Syntax start "unterminated string literal"
  | character :: cs =>
      let off := off + slen character in
      if String.eqb character (schar dquote) then Ok (value, off)
      else if String.eqb character (schar backslash) then
        match cs with
        | [] => fail Syntax off "unterminated string escape"
        | escaped :: cs =>
            let off := off + slen escaped in
            match unescape escaped with
            | Some c =>
                if max_string_bytes lim <? slen (value +:+ c) then
                  fail StringLimit start (string_message lim)
                else lex_string_loop lim start off (value +:+ c) cs
            | None => fail Syntax (off - slen escaped) "unsupported string escape"
            end
        end
      else if String.eqb character (schar newline)
              || String.eqb character (schar carriage_return) then
        fail Syntax (off - slen character)
          "literal newline is not allowed in expression strings"
      else if max_string_bytes lim <? slen (value +:+ character) then
        fail StringLimit start (string_message lim)
      else lex_string_loop lim start off (value +:+ character) cs
  end.

(** [Lexer::string]: [rest] starts at the opening quote. *)
Definition lex_string (lim : ExpressionLimits) (start : Z) (rest : string) :
    result fault (string * nat) :=
  '(value, off) ← lex_string_loop lim start (start + 1) EmptyString (chars (sdrop 1 rest));
  Ok (value, Z.to_nat (off - start)).

Definition is_identifier_byte (c : ascii) : bool :=
  is_ascii_alphanumeric c || one_of ["_"; "-"; "."]%char c.

(** [Lexer::identifier]. *)
Definition lex_identifier (start : Z) (rest : string) : result fault (TokenKind * nat) :=
  let n := span_len is_identifier_byte rest in
  let identifier := stake n rest in
  if String.eqb identifier "true" then Ok (TBool true, n)
  else if String.eqb identifier "false" then Ok (TBool false, n)
  else match strip_prefix "parameters." identifier with
  | None =>
      fail UnknownContext start "only the parameters.<name> context is available"
  | Some name =>
      match validate_parameter_name name with
      | Ok _ => Ok (TParameter name, n)
      | Err e => fail (err_code e) start (err_message e)
      end
  end.

(** One iteration's [match byte] of [Lexer::tokenize]: the token kind and the
    number of bytes it takes. *)
Definition lex_token (lim : ExpressionLimits) (off : Z) (rest : string) (byte : ascii) :
    result fault (TokenKind * nat) :=
  if Ascii.eqb byte "(" then Ok (TLeftParen, 1%nat)
  else if Ascii.eqb byte ")" then Ok (TRightParen, 1%nat)
  else if Ascii.eqb byte "+" then Ok (TAdd, 1%nat)
  else if Ascii.eqb byte "!" && starts_with "!=" rest then Ok (TNotEqual, 2%nat)
  else if Ascii.eqb byte "!" then Ok (TNot, 1%nat)
  else if Ascii.eqb byte "=" && starts_with "==" rest then Ok (TEqual, 2%nat)
  else if Ascii.eqb byte "&" && starts_with "&&" rest then Ok (TAnd, 2%nat)
  else if Ascii.eqb byte "|" && starts_with "||" rest then Ok (TOr, 2%nat)
  else if Ascii.eqb byte dquote then
    '(s, n) ← lex_string lim off rest; Ok (TString s, n)
  else if Ascii.eqb byte "-" || is_ascii_digit byte then
    '(z, n) ← lex_integer off rest; Ok (TInteger z, n)
  else if is_ascii_alphabetic byte || Ascii.eqb byte "_" then lex_identifier off rest
  else fail Syntax off "unexpected expression token".

Definition token_capacity (lim : ExpressionLimits) : Z :=
  sat_add (sat_mul (max_nodes lim) 3) 1.

(** The loop of [Lexer::tokenize]; [rest] is [self.remaining()] at offset [off]
    and [count] is [tokens.len()]. *)
Fixpoint tokenize_loop (fuel : nat) (lim : ExpressionLimits) (off : Z) (rest : string)
    (count : Z) : result fault (list Token) :=
  match fuel with
  | O => Err Diverge
  | S fuel =>
      let w := span_len is_ascii_whitespace rest in
      let off := off + Z.of_nat w in
      let rest := sdrop w rest in
      match rest with
      | EmptyString => Ok [MkToken TEnd off]
      | String byte _ =>
          '(k, n) ← lex_token lim off rest byte;
          let count := count + 1 in
          if token_capacity lim <? count then
            fail NodeLimit off "expression token count exceeds bounded parser capacity"
          else
            tokens ← tokenize_loop fuel lim (off + Z.of_nat n) (sdrop n rest) count;
            Ok (MkToken k off :: tokens)
      end
  end.

(** [Lexer::new(source, limits).tokenize()]: every iteration but the last
    consumes a byte, so [source.len() + 1] iterations are enough. *)
Definition tokenize (source : string) (lim : ExpressionLimits) : result fault (list Token) :=
  tokenize_loop (S (String.length source)) lim 0 source 0.

(** ** Parser *)

Record Parser := MkParser {
  tokens : list Token;
  index : nat;
  limits : ExpressionLimits;
  nodes : Z;
  operations : Z
}.

Definition parser_new (ts : list Token) (lim : ExpressionLimits) : Parser :=
  MkParser ts 0 lim 0 0.

(** [self.current()]: [&self.tokens[self.index]], a panic out of range. *)
Definition current (p : Parser) : result fault Token :=
  ok_or (tokens p !! index p) Panic.

Definition advance (p : Parser) : result fault (Token * Parser) :=
  token ← current p;
  Ok (token, MkParser (tokens p) (S (index p)) (limits p) (nodes p) (operations p)).

(** [Err(self.error(message))]. *)
Definition parser_error {A} (p : Parser) (message : string) : result fault A :=
  token ← current p; fail Syntax (offset token) message.

Definition node (p : Parser) (e : Expression) (depth : Z) :
    result fault (Expression * Parser) :=
  if max_depth (limits p) <? depth then
    token ← current p; fail DepthLimit (offset token) (depth_message (limits p))
  else
    let p := MkParser (tokens p) (index p) (limits p) (sat_add (nodes p) 1) (operations p) in
    if max_nodes (limits p) <? nodes p then
      token ← current p; fail NodeLimit (offset token) (node_message (limits p))
    else Ok (e, p).

Definition operation (p : Parser) : result fault Parser :=
  let p := MkParser (tokens p) (index p) (limits p) (nodes p) (sat_add (operations p) 1) in
  if max_operations (limits p) <? operations p then
    token ← current p; fail OperationLimit (offset token) (operation_message (limits p))
  else Ok p.

Definition ensure_depth (p : Parser) (depth : Z) : result fault () :=
  if max_depth (limits p) <? depth then
    token ← current p; fail DepthLimit (offset token) (depth_message (limits p))
  else Ok tt.

Definition or_op (k : TokenKind) : option (Expression -> Expression -> Expression) :=
  match k with TOr => Some Or | _ => None end.
Definition and_op (k : TokenKind) : option (Expression -> Expression -> Expression) :=
  match k with TAnd => Some And | _ => None end.
Definition equality_op (k : TokenKind) : option (Expression -> Expression -> Expression) :=
  match k with TEqual => Some Equal | TNotEqual => Some NotEqual | _ => None end.
Definition add_op (k : TokenKind) : option (Expression -> Expression -> Expression) :=
  match k with TAdd => Some Add | _ => None end.

(** The loop the four binary levels share:
    [while current is an operator { advance; operation; right = operand;
    expression = node(op(expression, right)) }]. *)
Fixpoint chain_loop (fuel : nat)
    (op : TokenKind -> option (Expression -> Expression -> Expression))
    (operand : Parser -> Z -> result fault (Expression * Parser))
    (e : Expression) (p : Parser) (depth : Z) : result fault (Expression * Parser) :=
  match fuel with
  | O => Err Diverge
  | S fuel =>
      token ← current p;
      match op (kind token) with
      | None => Ok (e, p)
      | Some constructor =>
          '(_, p) ← advance p;
          p ← operation p;
          '(rhs, p) ← operand p depth;
          '(e, p) ← node p (constructor e rhs) depth;
          chain_loop fuel op operand e p depth
      end
  end.

Fixpoint parse_or (fuel : nat) (p : Parser) (depth : Z) {struct fuel} :
    result fault (Expression * Parser) :=
  match fuel with
  | O => Err Diverge
  | S fuel =>
      '(e, p) ← parse_and fuel p depth;
      chain_loop fuel or_op (parse_and fuel) e p depth
  end
with parse_and (fuel : nat) (p : Parser) (depth : Z) {struct fuel} :
    result fault (Expression * Parser) :=
  match fuel with
  | O => Err Diverge
  | S fuel =>
      '(e, p) ← parse_equality fuel p depth;
      chain_loop fuel and_op (parse_equality fuel) e p depth
  end
with parse_equality (fuel : nat) (p : Parser) (depth : Z) {struct fuel} :
    result fault (Expression * Parser) :=
  match fuel with
  | O => Err Diverge
  | S fuel =>
      '(e, p) ← parse_add fuel p depth;
      chain_loop fuel equality_op (parse_add fuel) e p depth
  end
with parse_add (fuel : nat) (p : Parser) (depth : Z) {struct fuel} :
    result fault (Expression * Parser) :=
  match fuel with
  | O => Err Diverge
  | S fuel =>
      '(e, p) ← parse_unary fuel p depth;
      chain_loop fuel add_op (parse_unary fuel) e p depth
  end
with parse_unary (fuel : nat) (p : Parser) (depth : Z) {struct fuel} :
    result fault (Expression * Parser) :=
  match fuel with
  | O => Err Diverge
  | S fuel =>
      ensure_depth p depth ;;
      token ← current p;
      match kind token with
      | TNot =>
          '(_, p) ← advance p;
          p ← operation p;
          '(value, p) ← parse_unary fuel p (depth + 1);
          node p (Not value) depth
      | _ => parse_primary fuel p depth
      end
  end
with parse_primary (fuel : nat) (p : Parser) (depth : Z) {struct fuel} :
    result fault (Expression * Parser) :=
  match fuel with
  | O => Err Diverge
  | S fuel =>
      ensure_depth p depth ;;
      '(token, p) ← advance p;
      match kind token with
      | TBool value => node p (Literal (PBool value)) depth
      | TInteger value => node p (Literal (PInteger value)) depth
      | TString value => node p (Literal (PString value)) depth
      | TParameter name => node p (EParameter name) depth
      | TLeftParen =>
          '(value, p) ← parse_or fuel p depth;
          close ← current p;
          match kind close with
          | TRightParen => '(_, p) ← advance p; Ok (value, p)
          | _ => parser_error p "expected closing parenthesis"
          end
      | _ => fail Syntax (offset token) "expected expression value"
      end
  end.

(** Calls between two consumed tokens are at most six deep and a loop ends on
    the token that is no operator, so eight units of fuel per token suffice. *)
Definition parse_fuel (ts : list Token) : nat := 8 * (length ts + 1).

Definition lift_fault {A} (r : result ExpressionError A) : result fault A :=
  map_err Fail r.

(** [Parser::parse]. *)
Definition parse (p : Parser) : result fault Expression :=
  '(e, p) ← parse_or (parse_fuel (tokens p)) p 0;
  token ← current p;
  match kind token with
  | TEnd => lift_fault (validate_expression e (limits p)) ;; Ok e
  | _ => parser_error p "unexpected trailing expression token"
  end.

Definition parse_expression (source : string) (lim : ExpressionLimits) :
    result fault Expression :=
  if max_source_bytes lim <? slen source then
    fail SourceLimit (max_source_bytes lim)
      ("expression source exceeds " +:+ fmt_z (max_source_bytes lim) +:+ " bytes")
  else
    ts ← tokenize source lim;
    parse (parser_new ts lim).

(** ** Evaluator *)

Definition type_mismatch (operator expected actual : string) : ExpressionError :=
  ExprError TypeMismatch 0 (operator +:+ " expected " +:+ expected +:+ ", found " +:+ actual).

(** [Evaluator::operation]: the counter is the evaluator's only state. *)
Definition eval_operation (lim : ExpressionLimits) (ops : Z) : result ExpressionError Z :=
  let ops := sat_add ops 1 in
  check (max_operations lim <? ops) (ExprError OperationLimit 0 (operation_message lim)) ;;
  Ok ops.

Definition is_bool (v : ParameterValue) : bool :=
  match v with PBool _ => true | _ => false end.

(** The value of [+]. *)
Definition add_values (lim : ExpressionLimits) (l r : ParameterValue) :
    result ExpressionError ParameterValue :=
  match l, r with
  | PInteger l, PInteger r =>
      match checked_add_i64 l r with
      | Some z => Ok (PInteger z)
      | None =>
          Err (ExprError IntegerOverflow 0 "integer addition overflowed signed 64-bit range")
      end
  | PString l, PString r =>
      match checked_add_usize (slen l) (slen r) with
      | None => Err (ExprError StringLimit 0 "expression string length overflow")
      | Some length =>
          check (max_string_bytes lim <? length)
            (ExprError StringLimit 0 (string_message lim)) ;;
          Ok (PString (l +:+ r))
      end
  | l, r => Err (type_mismatch "+" (type_name l) (type_name r))
  end.

Fixpoint evaluate (parameters : gmap string EvaluatedValue) (lim : ExpressionLimits)
    (e : Expression) (depth : Z) (ops : Z) : result ExpressionError (EvaluatedValue * Z) :=
  check (max_depth lim <? depth) (ExprError DepthLimit 0 (depth_message lim)) ;;
  match e with
  | Literal value => Ok (Evaluated value false, ops)
  | EParameter name =>
      value ← ok_or (parameters !! name)
        (ExprError MissingParameter 0
          ("parameter " +:+ fmt_debug name +:+ " is not defined"));
      match ev_value value with
      | PString s =>
          check (max_string_bytes lim <? slen s)
            (ExprError StringLimit 0 (string_message lim)) ;;
          Ok (value, ops)
      | _ => Ok (value, ops)
      end
  | Not value =>
      ops ← eval_operation lim ops;
      '(value, ops) ← evaluate parameters lim value (depth + 1) ops;
      match ev_value value with
      | PBool b => Ok (Evaluated (PBool (negb b)) (ev_secret value), ops)
      | v => Err (type_mismatch "!" "boolean" (type_name v))
      end
  | Equal l r | NotEqual l r =>
      ops ← eval_operation lim ops;
      '(lhs, ops) ← evaluate parameters lim l (depth + 1) ops;
      '(rhs, ops) ← evaluate parameters lim r (depth + 1) ops;
      check (negb (String.eqb (type_name (ev_value lhs)) (type_name (ev_value rhs))))
        (type_mismatch "equality" (type_name (ev_value lhs)) (type_name (ev_value rhs))) ;;
      let equal := bool_decide (ev_value lhs = ev_value rhs) in
      let value := match e with Equal _ _ => equal | _ => negb equal end in
      Ok (Evaluated (PBool value) (ev_secret lhs || ev_secret rhs), ops)
  | And l r | Or l r =>
      ops ← eval_operation lim ops;
      '(lhs, ops) ← evaluate parameters lim l (depth + 1) ops;
      '(rhs, ops) ← evaluate parameters lim r (depth + 1) ops;
      match ev_value lhs, ev_value rhs with
      | PBool lb, PBool rb =>
          let value := match e with And _ _ => lb && rb | _ => lb || rb end in
          Ok (Evaluated (PBool value) (ev_secret lhs || ev_secret rhs), ops)
      | lv, rv =>
          Err (type_mismatch "boolean operator" "boolean"
                (if negb (is_bool lv) then type_name lv else type_name rv))
      end
  | Add l r =>
      ops ← eval_operation lim ops;
      '(lhs, ops) ← evaluate parameters lim l (depth + 1) ops;
      '(rhs, ops) ← evaluate parameters lim r (depth + 1) ops;
      value ← add_values lim (ev_value lhs) (ev_value rhs);
      Ok (Evaluated value (ev_secret lhs || ev_secret rhs), ops)
  end.

Definition evaluate_expression (e : Expression) (parameters : gmap string EvaluatedValue)
    (lim : ExpressionLimits) : result ExpressionError EvaluatedValue :=
  validate_expression e lim ;;
  '(v, _) ← evaluate parameters lim e 0 0;
  Ok v.
