(* ===== verification/ExpressionEval.v ===== *)
(** * Evaluation of expressions: reference semantics, taint, bounds

    The evaluator of [Expression.v] carries a depth and an operation counter;
    [denote] is the same language without them.  The theorems relate the two,
    show that the secret flag of a result is exact, that an unflagged result
    does not depend on any secret value, and that a result is the value of
    the expression in exact arithmetic, or an error where that leaves the bounds. *)

From stdpp Require Import base gmap list strings.
From Stdlib Require Import ZArith Lia.
From S2P Require Import Prelude Text Expression.

Open Scope Z_scope.

(** ** Reference semantics *)

Definition denote_bool2 (op : bool -> bool -> bool) (l r : EvaluatedValue) :
    result ExpressionError EvaluatedValue :=
  match ev_value l, ev_value r with
  | PBool lb, PBool rb => Ok (Evaluated (PBool (op lb rb)) (ev_secret l || ev_secret r))
  | lv, rv =>
      Err (type_mismatch "boolean operator" "boolean"
            (if negb (is_bool lv) then type_name lv else type_name rv))
  end.

Definition denote_equality (neg : bool) (l r : EvaluatedValue) :
    result ExpressionError EvaluatedValue :=
  check (negb (String.eqb (type_name (ev_value l)) (type_name (ev_value r))))
    (type_mismatch "equality" (type_name (ev_value l)) (type_name (ev_value r))) ;;
  Ok (Evaluated (PBool (xorb neg (bool_decide (ev_value l = ev_value r))))
        (ev_secret l || ev_secret r)).

(** Strict, left-to-right, total: what an expression means in a context. *)
Fixpoint denote (ctx : gmap string EvaluatedValue) (lim : ExpressionLimits)
    (e : Expression) : result ExpressionError EvaluatedValue :=
  match e with
  | Literal v => Ok (Evaluated v false)
  | EParameter name =>
      v ← ok_or (ctx !! name)
        (ExprError MissingParameter 0
          ("parameter " +:+ fmt_debug name +:+ " is not defined"));
      match ev_value v with
      | PString s =>
          check (max_string_bytes lim <? slen s)
            (ExprError StringLimit 0 (string_message lim)) ;; Ok v
      | _ => Ok v
      end
  | Not a =>
      v ← denote ctx lim a;
      match ev_value v with
      | PBool b => Ok (Evaluated (PBool (negb b)) (ev_secret v))
      | w => Err (type_mismatch "!" "boolean" (type_name w))
      end
  | Equal a b => l ← denote ctx lim a; r ← denote ctx lim b; denote_equality false l r
  | NotEqual a b => l ← denote ctx lim a; r ← denote ctx lim b; denote_equality true l r
  | And a b => l ← denote ctx lim a; r ← denote ctx lim b; denote_bool2 andb l r
  | Or a b => l ← denote ctx lim a; r ← denote ctx lim b; denote_bool2 orb l r
  | Add a b =>
      l ← denote ctx lim a;
      r ← denote ctx lim b;
      v ← add_values lim (ev_value l) (ev_value r);
      Ok (Evaluated v (ev_secret l || ev_secret r))
  end.

(** The value of an expression in mathematics: integers and strings of any size,
    and no value where the types do not fit. *)
Definition exact_node (e : Expression) (l r : ParameterValue) : option ParameterValue :=
  match e, l, r with
  | Equal _ _, _, _ =>
      if String.eqb (type_name l) (type_name r) then Some (PBool (bool_decide (l = r))) else None
  | NotEqual _ _, _, _ =>
      if String.eqb (type_name l) (type_name r) then Some (PBool (bool_decide (l <> r))) else None
  | And _ _, PBool x, PBool y => Some (PBool (x && y))
  | Or _ _, PBool x, PBool y => Some (PBool (x || y))
  | Add _ _, PInteger x, PInteger y => Some (PInteger (x + y))
  | Add _ _, PString x, PString y => Some (PString (x +:+ y))
  | _, _, _ => None
  end.

Fixpoint exact_value (ctx : gmap string EvaluatedValue) (e : Expression) : option ParameterValue :=
  match e with
  | Literal v => Some v
  | EParameter name => ev_value <$> ctx !! name
  | Not a => match exact_value ctx a with Some (PBool b) => Some (PBool (negb b)) | _ => None end
  | Equal a b | NotEqual a b | And a b | Or a b | Add a b =>
      match exact_value ctx a, exact_value ctx b with
      | Some l, Some r => exact_node e l r
      | _, _ => None
      end
  end.

Fixpoint subexpressions (e : Expression) : list Expression :=
  e :: match e with
       | Literal _ | EParameter _ => []
       | Not a => subexpressions a
       | Equal a b | NotEqual a b | And a b | Or a b | Add a b =>
           subexpressions a ++ subexpressions b
       end.

(** Size measures of the tree. *)
Fixpoint op_count (e : Expression) : Z :=
  match e with
  | Literal _ | EParameter _ => 0
  | Not a => 1 + op_count a
  | Equal a b | NotEqual a b | And a b | Or a b | Add a b => 1 + op_count a + op_count b
  end.

Fixpoint node_count (e : Expression) : Z :=
  match e with
  | Literal _ | EParameter _ => 1
  | Not a => 1 + node_count a
  | Equal a b | NotEqual a b | And a b | Or a b | Add a b =>
      1 + node_count a + node_count b
  end.

Fixpoint height (e : Expression) : Z :=
  match e with
  | Literal _ | EParameter _ => 0
  | Not a => 1 + height a
  | Equal a b | NotEqual a b | And a b | Or a b | Add a b =>
      1 + Z.max (height a) (height b)
  end.

(** The parameters an expression reads. *)
Fixpoint refs (e : Expression) : list string :=
  match e with
  | Literal _ => []
  | EParameter n => [n]
  | Not a => refs a
  | Equal a b | NotEqual a b | And a b | Or a b | Add a b => refs a ++ refs b
  end.

(** Literals a validated expression may hold, names it may read. *)
Definition value_bounded (lim : ExpressionLimits) (v : ParameterValue) : Prop :=
  match v with
  | PBool _ => True
  | PInteger z => in_i64 z = true
  | PString s => slen s <= max_string_bytes lim
  end.

(** The value of an expression, if it has one, is in bounds. *)
Definition fits (ctx : gmap string EvaluatedValue) (lim : ExpressionLimits) (e : Expression) : Prop :=
  forall v, exact_value ctx e = Some v -> value_bounded lim v.

(** A sum beyond the 64-bit range. *)
Definition overflows (ctx : gmap string EvaluatedValue) (e : Expression) : Prop :=
  exists a b x y, e = Add a b /\ exact_value ctx a = Some (PInteger x)
    /\ exact_value ctx b = Some (PInteger y) /\ in_i64 (x + y) = false.

(** What a result says of an expression. *)
Definition exactly (ctx : gmap string EvaluatedValue) (lim : ExpressionLimits) (e : Expression)
    (r : result ExpressionError EvaluatedValue) : Prop :=
  match r with
  | Ok v => exact_value ctx e = Some (ev_value v) /\ Forall (fits ctx lim) (subexpressions e)
  | Err er =>
      (exact_value ctx e = None \/ ~ Forall (fits ctx lim) (subexpressions e))
      /\ (err_code er = IntegerOverflow -> Exists (overflows ctx) (subexpressions e))
  end.

Fixpoint leaves_ok (lim : ExpressionLimits) (e : Expression) : Prop :=
  match e with
  | Literal (PString s) => slen s <= max_string_bytes lim
  | Literal _ => True
  | EParameter n => validate_parameter_name n = Ok tt
  | Not a => leaves_ok lim a
  | Equal a b | NotEqual a b | And a b | Or a b | Add a b =>
      leaves_ok lim a /\ leaves_ok lim b
  end.

(** Integer literals are [i64] values (a typing fact of the Rust tree). *)
Fixpoint literals_i64 (e : Expression) : Prop :=
  match e with
  | Literal (PInteger z) => in_i64 z = true
  | Literal _ | EParameter _ => True
  | Not a => literals_i64 a
  | Equal a b | NotEqual a b | And a b | Or a b | Add a b =>
      literals_i64 a /\ literals_i64 b
  end.

(** Two contexts a public observer cannot tell apart: the same names, the same
    secret flags, and the same values wherever the flag is off. *)
Definition low_equivalent (c1 c2 : gmap string EvaluatedValue) : Prop :=
  forall n, match c1 !! n, c2 !! n with
            | Some v1, Some v2 =>
                ev_secret v1 = ev_secret v2 /\ (ev_secret v1 = false -> v1 = v2)
            | None, None => True
            | _, _ => False
            end.

(** ** Lemmas on validation *)

Lemma op_count_nonneg e : 0 <= op_count e.
Proof. induction e; simpl; lia. Qed.

Lemma node_count_pos e : 1 <= node_count e.
Proof. induction e; simpl; lia. Qed.

Lemma height_nonneg e : 0 <= height e.
Proof. induction e; simpl; lia. Qed.

#[export] Hint Resolve op_count_nonneg node_count_pos height_nonneg : mcl.

(** The binary constructors, treated once. *)
Inductive binary : (Expression -> Expression -> Expression) -> Prop :=
| bin_eq : binary Equal
| bin_ne : binary NotEqual
| bin_and : binary And
| bin_or : binary Or
| bin_add : binary Add.

Lemma expression_ind' (P : Expression -> Prop) :
  (forall v, P (Literal v)) ->
  (forall n, P (EParameter n)) ->
  (forall a, P a -> P (Not a)) ->
  (forall c a b, binary c -> P a -> P b -> P (c a b)) ->
  forall e, P e.
Proof.
  intros HL HP HN HB e. induction e; auto;
    (eapply HB; [constructor|assumption|assumption]).
Qed.

Lemma walk_binary c a b lim d n o :
  binary c ->
  walk (c a b) lim d (n, o) =
  (check (max_depth lim <? d) (ExprError DepthLimit 0 (depth_message lim)) ;;
   check (max_nodes lim <? sat_add n 1) (ExprError NodeLimit 0 (node_message lim)) ;;
   st ← walk a lim (d + 1) (sat_add n 1, sat_add o 1);
   st ← walk b lim (d + 1) st;
   check (max_operations lim <? snd st)
     (ExprError OperationLimit 0 (operation_message lim)) ;;
   Ok st).
Proof.
  intros Hc. destruct Hc; simpl; unfold mbind, result_bind, check;
    repeat (case_match; simplify_eq); done.
Qed.

Lemma binary_measures c a b :
  binary c ->
  op_count (c a b) = 1 + op_count a + op_count b /\
  node_count (c a b) = 1 + node_count a + node_count b /\
  height (c a b) = 1 + Z.max (height a) (height b) /\
  refs (c a b) = refs a ++ refs b.
Proof. by destruct 1. Qed.

(** What a successful walk establishes, and the counters it returns. *)
Lemma walk_ok e lim d n o st :
  0 <= n <= usize_max -> 0 <= o <= usize_max ->
  walk e lim d (n, o) = Ok st ->
  st = (Z.min (n + node_count e) usize_max, Z.min (o + op_count e) usize_max) /\
  d + height e <= max_depth lim /\
  snd st <= max_operations lim /\ fst st <= max_nodes lim /\
  leaves_ok lim e.
Proof.
  revert d n o st. induction e as [v|nm|a IH|c a b Hc IHa IHb] using expression_ind';
    intros d n o st Hn Ho Hw.
  - simpl in Hw. unfold sat_add in Hw. inv_ok; bool_prop;
    destruct v; inv_ok; bool_prop; simpl in *; repeat split; f_equal; lia.
  - simpl in Hw. unfold sat_add in Hw. inv_ok; bool_prop; simpl in *.
    repeat match goal with x : () |- _ => destruct x end.
    repeat split; try f_equal; try lia. done.
  - simpl in Hw. inv_ok. bool_prop.
    pose proof (node_count_pos a). pose proof (op_count_nonneg a).
    unfold sat_add in *. simpl in *.
    match goal with H : walk a _ _ _ = Ok _ |- _ => apply IH in H; [|lia|lia] end.
    destruct_and!. simplify_eq/=. repeat split; try f_equal; try lia. done.
  - rewrite (walk_binary _ _ _ _ _ _ _ Hc) in Hw. inv_ok. bool_prop.
    pose proof (node_count_pos a). pose proof (op_count_nonneg a).
    pose proof (node_count_pos b). pose proof (op_count_nonneg b).
    unfold sat_add in *.
    match goal with H : walk a _ _ _ = Ok _ |- _ => apply IHa in H; [|lia|lia] end.
    destruct_and!. subst.
    match goal with H : walk b _ _ _ = Ok _ |- _ => apply IHb in H; [|lia|lia] end.
    destruct (binary_measures c a b Hc) as (-> & -> & -> & _).
    destruct_and!. subst. simpl in *.
    repeat split; try f_equal; try lia.
    destruct Hc; done.
Qed.

(** The converse: nothing but the limits and the leaves can make it fail. *)
Lemma walk_complete e lim d n o :
  0 <= n -> 0 <= o ->
  d + height e <= max_depth lim ->
  n + node_count e <= max_nodes lim -> o + op_count e <= max_operations lim ->
  max_nodes lim <= usize_max -> max_operations lim <= usize_max ->
  leaves_ok lim e ->
  walk e lim d (n, o) = Ok (n + node_count e, o + op_count e).
Proof.
  revert d n o. induction e as [v|nm|a IH|c a b Hc IHa IHb] using expression_ind';
    intros d n o Hn Ho Hd Hnn Hoo Hmn Hmo Hl.
  - simpl in *. unfold sat_add, check.
    rewrite (Z.min_l (n + 1)) by lia.
    destruct (Z.ltb_spec (max_depth lim) d); [lia|].
    destruct (Z.ltb_spec (max_nodes lim) (n + 1)); [lia|].
    destruct v; simpl; rewrite ?Z.add_0_r in *;
      repeat (case_match; bool_prop; simpl in *; try lia); done.
  - simpl in *. unfold sat_add, check. rewrite Hl.
    rewrite (Z.min_l (n + 1)) by lia.
    destruct (Z.ltb_spec (max_depth lim) d); [lia|].
    destruct (Z.ltb_spec (max_nodes lim) (n + 1)); [lia|].
    simpl. rewrite ?Z.add_0_r in *.
    destruct (Z.ltb_spec (max_operations lim) o); [lia|]. done.
  - simpl in *. pose proof (height_nonneg a). pose proof (node_count_pos a).
    pose proof (op_count_nonneg a). unfold sat_add, check.
    rewrite (Z.min_l (n + 1)), (Z.min_l (o + 1)) by lia.
    destruct (Z.ltb_spec (max_depth lim) d); [lia|].
    destruct (Z.ltb_spec (max_nodes lim) (n + 1)); [lia|].
    simpl. rewrite IH by (auto; lia). simpl.
    destruct (Z.ltb_spec (max_operations lim) (o + 1 + op_count a)); [lia|].
    simpl. do 2 f_equal; lia.
  - rewrite (walk_binary _ _ _ _ _ _ _ Hc).
    destruct (binary_measures c a b Hc) as (Eo & En & Eh & _).
    assert (leaves_ok lim a /\ leaves_ok lim b) as [Hla Hlb] by (destruct Hc; done).
    rewrite Eo, En, Eh in *.
    pose proof (node_count_pos a). pose proof (op_count_nonneg a).
    pose proof (node_count_pos b). pose proof (op_count_nonneg b).
    pose proof (height_nonneg a). pose proof (height_nonneg b).
    unfold sat_add, check. rewrite (Z.min_l (n + 1)), (Z.min_l (o + 1)) by lia.
    destruct (Z.ltb_spec (max_depth lim) d); [lia|].
    destruct (Z.ltb_spec (max_nodes lim) (n + 1)); [lia|]. simpl.
    rewrite IHa by (auto; lia). simpl. rewrite IHb by (auto; lia). simpl.
    destruct (Z.ltb_spec (max_operations lim) (o + 1 + op_count a + op_count b)); [lia|].
    simpl. do 2 f_equal; lia.
Qed.

(** ** Lemmas on evaluation *)

(** The meaning of a binary node on the values of its operands. *)
Definition combine_values (lim : ExpressionLimits) (e : Expression) (l r : EvaluatedValue) :
    result ExpressionError EvaluatedValue :=
  match e with
  | Equal _ _ => denote_equality false l r
  | NotEqual _ _ => denote_equality true l r
  | And _ _ => denote_bool2 andb l r
  | Or _ _ => denote_bool2 orb l r
  | _ =>
      v ← add_values lim (ev_value l) (ev_value r);
      Ok (Evaluated v (ev_secret l || ev_secret r))
  end.

Lemma denote_binary c a b ctx lim :
  binary c ->
  denote ctx lim (c a b) =
  (l ← denote ctx lim a; r ← denote ctx lim b; combine_values lim (c a b) l r).
Proof. by destruct 1. Qed.

Lemma evaluate_binary c a b ctx lim d o :
  binary c ->
  evaluate ctx lim (c a b) d o =
  (check (max_depth lim <? d) (ExprError DepthLimit 0 (depth_message lim)) ;;
   ops ← eval_operation lim o;
   '(l, ops) ← evaluate ctx lim a (d + 1) ops;
   '(r, ops) ← evaluate ctx lim b (d + 1) ops;
   v ← combine_values lim (c a b) l r;
   Ok (v, ops)).
Proof.
  intros Hc. destruct Hc; simpl;
    unfold mbind, result_bind, check, denote_equality, denote_bool2, xorb;
    repeat (case_match; simplify_eq/=); try done;
    match goal with |- context [negb ?b] => by destruct b end.
Qed.

(** On a tree within the limits the counters never fire and the evaluator is
    the reference semantics. *)
Lemma evaluate_denote e ctx lim d o :
  0 <= o <= usize_max ->
  d + height e <= max_depth lim ->
  Z.min (o + op_count e) usize_max <= max_operations lim ->
  evaluate ctx lim e d o =
  (v ← denote ctx lim e; Ok (v, Z.min (o + op_count e) usize_max)).
Proof.
  revert d o. induction e as [v|nm|a IH|c a b Hc IHa IHb] using expression_ind';
    intros d o Ho Hd Hops.
  - simpl in *. unfold check. destruct (Z.ltb_spec (max_depth lim) d); [lia|]. simpl.
    rewrite Z.min_l by lia. by rewrite Z.add_0_r.
  - simpl in *. unfold check. destruct (Z.ltb_spec (max_depth lim) d); [lia|]. simpl.
    rewrite Z.min_l by lia. rewrite Z.add_0_r.
    destruct (ctx !! nm) as [[[] ?]|]; simpl; repeat case_match; done.
  - simpl in *. pose proof (height_nonneg a). pose proof (op_count_nonneg a).
    unfold eval_operation, sat_add, check.
    destruct (Z.ltb_spec (max_depth lim) d); [lia|]. simpl.
    destruct (Z.ltb_spec (max_operations lim) (Z.min (o + 1) usize_max)); [lia|]. simpl.
    rewrite IH by lia.
    replace (Z.min (Z.min (o + 1) usize_max + op_count a) usize_max)
      with (Z.min (o + (1 + op_count a)) usize_max) by lia.
    destruct (denote ctx lim a) as [[[] ?]|]; done.
  - rewrite (evaluate_binary _ _ _ _ _ _ _ Hc), (denote_binary _ _ _ _ _ Hc).
    destruct (binary_measures c a b Hc) as (Eo & _ & Eh & _). rewrite Eo, Eh in *.
    pose proof (op_count_nonneg a). pose proof (op_count_nonneg b).
    pose proof (height_nonneg a). pose proof (height_nonneg b).
    unfold eval_operation, sat_add, check.
    destruct (Z.ltb_spec (max_depth lim) d); [lia|]. simpl.
    destruct (Z.ltb_spec (max_operations lim) (Z.min (o + 1) usize_max)); [lia|]. simpl.
    rewrite IHa by lia. destruct (denote ctx lim a) as [l|]; simpl; [|done].
    rewrite IHb by lia. destruct (denote ctx lim b) as [r|]; simpl; [|done].
    destruct (combine_values _ _ _ _); simpl; [|done]. do 2 f_equal. lia.
Qed.

(** The secret flag of a combined value is the disjunction of the operands'. *)
Lemma combine_secret c a b lim l r v :
  binary c -> combine_values lim (c a b) l r = Ok v ->
  ev_secret v = ev_secret l || ev_secret r.
Proof.
  intros Hc. destruct Hc; simpl; unfold denote_equality, denote_bool2;
    intros; repeat (case_match; simplify_eq/=); inv_ok; done.
Qed.

Definition secret_in (ctx : gmap string EvaluatedValue) (n : string) : bool :=
  match ctx !! n with Some v => ev_secret v | None => false end.

Lemma denote_taint ctx lim e v :
  denote ctx lim e = Ok v -> ev_secret v = existsb (secret_in ctx) (refs e).
Proof.
  revert v. induction e as [w|nm|a IH|c a b Hc IHa IHb] using expression_ind';
    intros v Hv.
  - simpl in *. by inv_ok.
  - simpl in *. unfold secret_in. rewrite orb_false_r.
    destruct (ctx !! nm) as [[[] ?]|]; simpl in *; inv_ok; done.
  - simpl in *. inv_ok. case_match; inv_ok. simpl. by apply IH.
  - rewrite (denote_binary _ _ _ _ _ Hc) in Hv.
    destruct (binary_measures c a b Hc) as (_ & _ & _ & ->). rewrite existsb_app.
    inv_ok. erewrite combine_secret by eauto. f_equal; auto.
Qed.

Lemma denote_ext ctx1 ctx2 lim e :
  (forall n, n ∈ refs e -> ctx1 !! n = ctx2 !! n) ->
  denote ctx1 lim e = denote ctx2 lim e.
Proof.
  induction e as [w|nm|a IH|c a b Hc IHa IHb] using expression_ind'; intros Hr.
  - done.
  - simpl. rewrite (Hr nm) by (simpl; set_solver). done.
  - simpl. rewrite IH by done. done.
  - rewrite !(denote_binary _ _ _ _ _ Hc).
    destruct (binary_measures c a b Hc) as (_ & _ & _ & E). rewrite E in Hr.
    rewrite IHa, IHb by (intros; apply Hr; set_solver). done.
Qed.

Lemma exact_binary c a b ctx :
  binary c ->
  exact_value ctx (c a b) = (l ← exact_value ctx a; r ← exact_value ctx b; exact_node (c a b) l r).
Proof. destruct 1; cbn; by destruct (exact_value ctx a), (exact_value ctx b). Qed.

Lemma subexpressions_binary c a b :
  binary c -> subexpressions (c a b) = c a b :: subexpressions a ++ subexpressions b.
Proof. by destruct 1. Qed.

(** A binary node returns the mathematical value where that is in bounds, and
    nothing else; it reports overflow for sums out of range only. *)
Lemma combine_exact c a b lim l r :
  binary c -> max_string_bytes lim <= usize_max ->
  match combine_values lim (c a b) l r with
  | Ok v => exact_node (c a b) (ev_value l) (ev_value r) = Some (ev_value v)
            /\ value_bounded lim (ev_value v)
  | Err er =>
      (forall v, exact_node (c a b) (ev_value l) (ev_value r) = Some v -> ~ value_bounded lim v)
      /\ (err_code er = IntegerOverflow -> exists x y, c = Add /\ ev_value l = PInteger x
            /\ ev_value r = PInteger y /\ in_i64 (x + y) = false)
  end.
Proof.
  intros Hc Hm. destruct l as [l sl], r as [r sr].
  destruct Hc, l as [lb|x|s], r as [rb|y|t]; cbn; unfold denote_equality, denote_bool2, check; cbn;
    try (split; [done|done]); try (split; [by intros ? [= <-]|done]);
    try (split; [|done]; by repeat case_bool_decide).
  - unfold checked_add_i64. destruct (in_i64 (x + y)) eqn:E; cbn; [done|].
    split; [by intros ? [= <-]; cbn; rewrite E|]. eauto 10.
  - unfold checked_add_usize. destruct (Z.leb_spec (slen s + slen t) usize_max); cbn.
    + destruct (Z.ltb_spec (max_string_bytes lim) (slen s + slen t)); cbn; rewrite <- ?slen_app in *;
        [|done]. split; [|done]. intros ? [= <-]. cbn. lia.
    + split; [|done]. intros ? [= <-]. cbn. rewrite slen_app. lia.
Qed.

(** An error below a node is an error of the node, for the same reasons. *)
Lemma exactly_below ctx lim e e' er :
  (exact_value ctx e = None -> exact_value ctx e' = None) ->
  subexpressions e ⊆ subexpressions e' ->
  exactly ctx lim e (Err er) -> exactly ctx lim e' (Err er).
Proof.
  intros Hn Hsub [Hbad Hov]. split.
  - destruct Hbad as [?|Hbad]; [by left; auto|right]. intros Hall. apply Hbad.
    rewrite Forall_forall in *. auto.
  - intros (x & Hx & Ho)%Hov%Exists_exists. apply Exists_exists. eauto.
Qed.

Lemma exactly_node ctx lim e v l :
  subexpressions e = e :: l -> Forall (fits ctx lim) l ->
  exact_value ctx e = Some (ev_value v) -> value_bounded lim (ev_value v) -> exactly ctx lim e (Ok v).
Proof.
  intros Hs Hl He Hv. split; [done|]. rewrite Hs. constructor; [|done].
  intros w. rewrite He. by intros [= <-].
Qed.

(** The reference semantics gives the mathematical value. *)
Lemma denote_exactly e ctx lim :
  literals_i64 e ->
  (forall n w z, ctx !! n = Some w -> ev_value w = PInteger z -> in_i64 z = true) ->
  max_string_bytes lim <= usize_max -> leaves_ok lim e -> exactly ctx lim e (denote ctx lim e).
Proof.
  intros Hlit Hctx Hm. revert Hlit.
  induction e as [w|nm|a IH|c a b Hc IHa IHb] using expression_ind'; intros Hlit Hl.
  - eapply exactly_node; [done|constructor|done|]. by destruct w.
  - cbn [denote]. destruct (ctx !! nm) as [w|] eqn:E; cbn [ok_or mbind result_bind].
    2: { split; [left; cbn; by rewrite E|done]. }
    assert (exact_value ctx (EParameter nm) = Some (ev_value w)) as Ew by (cbn; by rewrite E).
    destruct (ev_value w) as [x|z|s] eqn:Ev;
      [eapply exactly_node; [done|constructor|by rewrite Ev|by rewrite Ev]
      |eapply exactly_node; [done|constructor|by rewrite Ev|rewrite Ev; by eapply Hctx]|].
    unfold check. destruct (Z.ltb_spec (max_string_bytes lim) (slen s)); cbn [mbind result_bind].
    + split; [right|done]. intros Hf%Forall_inv. specialize (Hf _ Ew). cbn in Hf. lia.
    + eapply exactly_node; [done|constructor|by rewrite Ev|by rewrite Ev].
  - cbn [denote]. specialize (IH Hlit Hl). destruct (denote ctx lim a) as [v|er]; cbn [mbind result_bind].
    2: { eapply exactly_below, IH; [by cbn; intros ->|cbn; set_solver]. }
    destruct IH as [Ha Hf]. destruct (ev_value v) as [x|x|x] eqn:Ev;
      try (split; [by left; cbn; rewrite Ha|done]).
    eapply exactly_node; [done|done|by cbn; rewrite Ha|done].
  - assert (literals_i64 a /\ literals_i64 b) as [La Lb] by by destruct Hc.
    assert (leaves_ok lim a /\ leaves_ok lim b) as [Va Vb] by by destruct Hc.
    rewrite (denote_binary _ _ _ _ _ Hc). specialize (IHa La Va). specialize (IHb Lb Vb).
    pose proof (exact_binary c a b ctx Hc) as Ee. pose proof (subexpressions_binary c a b Hc) as Es.
    destruct (denote ctx lim a) as [l|er]; cbn [mbind result_bind].
    2: { eapply exactly_below, IHa; [by rewrite Ee; intros ->|rewrite Es; set_solver]. }
    destruct IHa as [Ha Fa]. destruct (denote ctx lim b) as [r|er]; cbn [mbind result_bind].
    2: { eapply exactly_below, IHb; [by rewrite Ee, Ha; intros ->|rewrite Es; set_solver]. }
    destruct IHb as [Hb Fb]. rewrite Ha, Hb in Ee. cbn in Ee.
    pose proof (combine_exact c a b lim l r Hc Hm) as Hcomb.
    destruct (combine_values lim (c a b) l r) as [v|er].
    + destruct Hcomb as [Hv Hbd]. eapply exactly_node; [done|by apply Forall_app|by rewrite Ee|done].
    + destruct Hcomb as [Hbad Hov]. split.
      * destruct (exact_node _ _ _) as [v|] eqn:En; [right|by left; rewrite Ee].
        rewrite Es. intros Hf%Forall_inv. by apply (Hbad v), Hf.
      * intros (x & y & -> & Hx & Hy & Hr)%Hov. rewrite Es. left.
        exists a, b, x, y. by rewrite Ha, Hb, Hx, Hy.
Qed.

(** ** Properties *)

Lemma validate_walk e lim :
  validate_expression e lim = Ok tt <-> exists st, walk e lim 0 (0, 0) = Ok st.
Proof.
  unfold validate_expression. rewrite bind_ok. naive_solver.
Qed.

(** After a successful walk the evaluator runs without its counters. *)
Lemma evaluate_after_walk e ctx lim st :
  walk e lim 0 (0, 0) = Ok st ->
  exists o, evaluate ctx lim e 0 0 = (v ← denote ctx lim e; Ok (v, o)).
Proof.
  pose proof usize_max_pos. intros Hw.
  apply walk_ok in Hw as (-> & Hd & Hops & _); [|lia..].
  eexists. apply evaluate_denote; [lia|lia|exact Hops].
Qed.

(** C37. Evaluating an expression is validating its shape and then giving it its
    meaning: on every input the evaluator returns exactly what the counter-free
    reference semantics returns, the first error of the same left-to-right
    order included, so the evaluator's own depth and operation limits never
    reject a validated expression. *)
Theorem evaluate_expression_refines e ctx lim :
  evaluate_expression e ctx lim = (validate_expression e lim ;; denote ctx lim e).
Proof.
  unfold evaluate_expression, validate_expression.
  destruct (walk e lim 0 (0, 0)) as [st|] eqn:Hw; [|done].
  destruct (evaluate_after_walk e ctx lim st Hw) as [o ->].
  by destruct (denote ctx lim e).
Qed.

Lemma evaluate_expression_ok e ctx lim v :
  evaluate_expression e ctx lim = Ok v ->
  validate_expression e lim = Ok tt /\ denote ctx lim e = Ok v.
Proof.
  unfold evaluate_expression, validate_expression.
  destruct (walk e lim 0 (0, 0)) as [st|] eqn:Hw; [|done].
  destruct (evaluate_after_walk e ctx lim st Hw) as [o ->].
  destruct (denote ctx lim e); [|done]. intros Hv. split; [done|].
  by injection Hv as ->.
Qed.

Lemma evaluate_expression_err e ctx lim er :
  evaluate_expression e ctx lim = Err er ->
  validate_expression e lim = Err er \/
  (validate_expression e lim = Ok tt /\ denote ctx lim e = Err er).
Proof.
  unfold evaluate_expression, validate_expression.
  destruct (walk e lim 0 (0, 0)) as [st|] eqn:Hw; [|intros [= ->]; by left].
  destruct (evaluate_after_walk e ctx lim st Hw) as [o ->].
  destruct (denote ctx lim e); [done|]. intros Hv. right. split; [done|]. by injection Hv as ->.
Qed.

Lemma validated_leaves e lim : validate_expression e lim = Ok tt -> leaves_ok lim e.
Proof.
  intros [st Hw]%validate_walk.
  apply walk_ok in Hw as (_ & _ & _ & _ & Hl); [done|pose proof usize_max_pos; lia..].
Qed.

Lemma evaluate_expression_intro e ctx lim v :
  validate_expression e lim = Ok tt -> denote ctx lim e = Ok v ->
  evaluate_expression e ctx lim = Ok v.
Proof.
  intros [st Hw]%validate_walk Hv. unfold evaluate_expression, validate_expression.
  rewrite Hw. destruct (evaluate_after_walk e ctx lim st Hw) as [o E].
  change (mbind ?f (Ok ?x)) with (f x). rewrite E, Hv. done.
Qed.

Lemma evaluate_taint e ctx lim v :
  evaluate_expression e ctx lim = Ok v -> ev_secret v = existsb (secret_in ctx) (refs e).
Proof. intros [_ Hden]%evaluate_expression_ok. by eapply denote_taint. Qed.

Lemma evaluate_low e c1 c2 lim v :
  evaluate_expression e c1 lim = Ok v -> ev_secret v = false -> low_equivalent c1 c2 ->
  evaluate_expression e c2 lim = Ok v.
Proof.
  intros Hev Hpub Hlow. pose proof (evaluate_taint _ _ _ _ Hev) as Ht.
  apply evaluate_expression_ok in Hev as [Hval Hden]. apply evaluate_expression_intro; [done|].
  rewrite <- Hden. symmetry. apply denote_ext. intros n Hn.
  rewrite Hpub in Ht. specialize (Hlow n).
  assert (secret_in c1 n = false) as Hs.
  { destruct (secret_in c1 n) eqn:E; [|done].
    assert (existsb (secret_in c1) (refs e) = true) by
      (apply existsb_exists; exists n; by rewrite <- list_elem_of_In).
    congruence. }
  unfold secret_in in Hs. destruct (c1 !! n), (c2 !! n); try done.
  f_equal. by apply Hlow.
Qed.

(** Secrets do not leak into unflagged results: the secret flag of a result
    is on exactly when the expression reads some secret parameter, and a result
    whose flag is off is the result in every context that differs only in the
    values of secret parameters. *)
Theorem evaluate_noninterference e c1 lim v :
  evaluate_expression e c1 lim = Ok v ->
  ev_secret v = existsb (secret_in c1) (refs e) /\
  (ev_secret v = false ->
   forall c2, low_equivalent c1 c2 -> evaluate_expression e c2 lim = Ok v).
Proof.
  intros Hev. split; [by eapply evaluate_taint|]. intros Hpub c2 Hlow. by eapply evaluate_low.
Qed.

Lemma evaluate_noninterference_witness :
  evaluate_expression (EParameter "x") {["x" := Evaluated (PInteger 4) false;
      "k" := Evaluated (PString "hunter2") true]} default_limits
  = Ok (Evaluated (PInteger 4) false) /\
  evaluate_expression (EParameter "x") {["x" := Evaluated (PInteger 4) false;
      "k" := Evaluated (PString "other") true]} default_limits
  = Ok (Evaluated (PInteger 4) false).
Proof.
  assert (evaluate_expression (EParameter "x") {["x" := Evaluated (PInteger 4) false;
      "k" := Evaluated (PString "hunter2") true]} default_limits
    = Ok (Evaluated (PInteger 4) false)) as H by (vm_compute; reflexivity).
  split; [exact H|].
  refine (proj2 (evaluate_noninterference _ _ _ _ H) eq_refl _ _).
  intros n. destruct (decide (n = "x")) as [->|]; [vm_compute; auto|].
  destruct (decide (n = "k")) as [->|]; [by vm_compute|].
  rewrite (lookup_insert_ne _ "x"), (lookup_insert_ne _ "x") by congruence.
  by rewrite !lookup_singleton_ne by congruence.
Defined.

(** C40. Arithmetic is exact: with [i64] literals and parameters, an expression
    has a result if and only if it is valid, its types fit and the mathematical
    value of every subexpression, in integers and strings of any size, is an
    [i64] or a string within [max_string_bytes]; the result is then that
    mathematical value.  The overflow error is returned only where the exact sum
    of two operands leaves the 64-bit range: nothing ever wraps. *)
Theorem evaluate_bounded e ctx lim :
  literals_i64 e ->
  (forall n w z, ctx !! n = Some w -> ev_value w = PInteger z -> in_i64 z = true) ->
  max_string_bytes lim <= usize_max ->
  match evaluate_expression e ctx lim with
  | Ok v =>
      validate_expression e lim = Ok tt /\ exact_value ctx e = Some (ev_value v)
      /\ Forall (fits ctx lim) (subexpressions e)
  | Err er =>
      validate_expression e lim = Err er
      \/ ((exact_value ctx e = None \/ ~ Forall (fits ctx lim) (subexpressions e))
          /\ (err_code er = IntegerOverflow -> Exists (overflows ctx) (subexpressions e)))
  end.
Proof.
  intros Hlit Hctx Hm.
  pose proof (fun Hv => denote_exactly e ctx lim Hlit Hctx Hm (validated_leaves e lim Hv)) as Hd.
  destruct (evaluate_expression e ctx lim) as [v|er] eqn:E.
  - apply evaluate_expression_ok in E as [Hv E]. specialize (Hd Hv). rewrite E in Hd. by destruct Hd.
  - apply evaluate_expression_err in E as [?|[Hv E]]; [by left|right].
    specialize (Hd Hv). by rewrite E in Hd.
Qed.

Lemma evaluate_bounded_witness :
  exact_value {["n" := Evaluated (PInteger 4) true]} (Add (Literal (PInteger 3)) (EParameter "n"))
  = Some (PInteger 7).
Proof.
  refine (proj1 (proj2 (evaluate_bounded (Add (Literal (PInteger 3)) (EParameter "n"))
    {["n" := Evaluated (PInteger 4) true]} default_limits _ _ _))).
  - vm_compute. auto.
  - intros n w z Hn Hw. apply lookup_singleton_Some in Hn as [_ <-].
    injection Hw as <-. reflexivity.
  - vm_compute. discriminate.
Defined.

(** Validation is exact: for limits below the machine maximum an expression
    is accepted if and only if its height, node count and operation count are
    within the limits and every leaf is a bounded literal or a well-formed
    parameter name. *)
Theorem validate_expression_exact e lim :
  max_nodes lim < usize_max -> max_operations lim < usize_max ->
  validate_expression e lim = Ok tt <->
  height e <= max_depth lim /\ node_count e <= max_nodes lim /\
  op_count e <= max_operations lim /\ leaves_ok lim e.
Proof.
  intros Hn Ho. rewrite validate_walk. split.
  - intros [st Hw]. apply walk_ok in Hw as (-> & Hd & H1 & H2 & Hl);
      [|pose proof usize_max_pos; lia..].
    simpl in *. repeat split; (lia || done).
  - intros (? & ? & ? & ?). eexists. apply walk_complete; (lia || done).
Qed.

Lemma validate_expression_exact_witness :
  validate_expression (Not (EParameter "flag")) default_limits = Ok tt.
Proof.
  apply (validate_expression_exact (Not (EParameter "flag")) default_limits);
    vm_compute; auto. repeat split; discriminate.
Defined.
