(* ===== verification/ExpressionParse.v ===== *)
(** * The expression parser: totality and the print/parse round trip

    The lexer and the recursive-descent parser of [Expression.v] carry fuel and
    index into a token vector.  Here: no source text makes them run out of fuel
    or index out of range, and the text of every valid expression, printed with
    the fewest parentheses the grammar's precedence and left associativity need,
    parses back to that expression. *)

From stdpp Require Import base gmap list strings pretty.
From Stdlib Require Import Ascii ZArith Lia.
From S2P Require Import Prelude Text Expression ExpressionEval.

Open Scope Z_scope.

(** [safe r P]: [r] is an ordinary error or a value satisfying [P]; never a
    panic, never out of fuel. *)
Definition safe {A} (r : result fault A) (P : A -> Prop) : Prop :=
  match r with
  | Ok a => P a
  | Err (Fail _) => True
  | Err _ => False
  end.

(** ** Precedence printer *)

(** Binding strength of an expression's outermost constructor, from [||] (0) to
    the operands of [!] (4) and primaries (5). *)
Definition level (e : Expression) : nat :=
  match e with
  | Or _ _ => 0
  | And _ _ => 1
  | Equal _ _ | NotEqual _ _ => 2
  | Add _ _ => 3
  | Not _ => 4
  | _ => 5
  end.

(** The tokens of [e] in a position that accepts expressions of at least the
    binding strength [l]. *)
Fixpoint print_tokens (l : nat) (e : Expression) : list TokenKind :=
  let body :=
    match e with
    | Literal (PBool b) => [TBool b]
    | Literal (PInteger z) => [TInteger z]
    | Literal (PString s) => [TString s]
    | EParameter name => [TParameter name]
    | Not a => TNot :: print_tokens 4 a
    | Or a b => print_tokens 0 a ++ TOr :: print_tokens 1 b
    | And a b => print_tokens 1 a ++ TAnd :: print_tokens 2 b
    | Equal a b => print_tokens 2 a ++ TEqual :: print_tokens 3 b
    | NotEqual a b => print_tokens 2 a ++ TNotEqual :: print_tokens 3 b
    | Add a b => print_tokens 3 a ++ TAdd :: print_tokens 4 b
    end in
  if (level e <? l)%nat then TLeftParen :: body ++ [TRightParen] else body.

(** String literals: the four bytes that cannot stand for themselves. *)
Fixpoint escape (s : string) : string :=
  match s with
  | EmptyString => EmptyString
  | String c s =>
      (if Ascii.eqb c dquote then String backslash (schar dquote)
       else if Ascii.eqb c backslash then String backslash (schar backslash)
       else if Ascii.eqb c newline then String backslash "n"
       else if Ascii.eqb c carriage_return then String backslash "r"
       else schar c) +:+ escape s
  end.

Definition render (k : TokenKind) : string :=
  match k with
  | TBool true => "true"
  | TBool false => "false"
  | TInteger z => fmt_z z
  | TString s => String dquote (escape s +:+ schar dquote)
  | TParameter name => "parameters." +:+ name
  | TNot => "!"
  | TEqual => "=="
  | TNotEqual => "!="
  | TAnd => "&&"
  | TOr => "||"
  | TAdd => "+"
  | TLeftParen => "("
  | TRightParen => ")"
  | TEnd => ""
  end.

(** Every token followed by one space. *)
Fixpoint render_all (ks : list TokenKind) : string :=
  match ks with
  | [] => ""
  | k :: ks => render k +:+ String " " (render_all ks)
  end.

Definition print_expression (e : Expression) : string := render_all (print_tokens 0 e).

(** The Rust type invariants of literals: strings are UTF-8, integers [i64]. *)
Fixpoint literals_wf (e : Expression) : Prop :=
  match e with
  | Literal (PString s) => utf8_valid s = true
  | Literal (PInteger z) => in_i64 z = true
  | Literal (PBool _) | EParameter _ => True
  | Not a => literals_wf a
  | Equal a b | NotEqual a b | And a b | Or a b | Add a b => literals_wf a /\ literals_wf b
  end.

(** ** Totality of the lexer *)

Lemma safe_bind {A B} (r : result fault A) (f : A -> result fault B) P Q :
  safe r P -> (forall a, P a -> safe (f a) Q) -> safe (r ≫= f) Q.
Proof. destruct r as [a|[e| |]]; simpl; auto. Qed.

Lemma safe_impl {A} (r : result fault A) (P Q : A -> Prop) :
  safe r P -> (forall a, P a -> Q a) -> safe r Q.
Proof. destruct r as [a|[e| |]]; simpl; auto. Qed.

Lemma lex_string_loop_safe lim start off value cs :
  safe (lex_string_loop lim start off value cs) (fun '(_, off') => off < off').
Proof.
  remember (length cs) as n eqn:En. revert off value cs En.
  induction (lt_wf n) as [n _ IH]. intros off value [|ch cs] ->; simpl; [done|].
  pose proof (slen_nonneg ch). destruct (String.eqb_spec ch (schar dquote)) as [->|].
  { simpl. unfold slen; simpl; lia. }
  destruct (String.eqb_spec ch (schar backslash)) as [->|].
  - destruct cs as [|esc cs]; [done|]. pose proof (slen_nonneg esc).
    destruct (unescape esc) as [c|]; [|done]. destruct (_ <? _); [done|].
    eapply safe_impl; [eapply (IH (length cs)); [simpl; lia|done]|].
    intros [? ?]. simpl in *. lia.
  - destruct (_ || _); [done|]. destruct (_ <? _); [done|].
    eapply safe_impl; [eapply (IH (length cs)); [simpl; lia|done]|].
    intros [? ?]. simpl. lia.
Qed.

Lemma lex_token_safe lim off b rest :
  safe (lex_token lim off (String b rest) b) (fun '(_, n) => (0 < n)%nat).
Proof.
  unfold lex_token.
  repeat (match goal with |- context [if ?c then _ else _] => destruct c eqn:? end;
    [try (simpl; lia)|]).
  - eapply safe_bind with (P := fun '(_, n) => (0 < n)%nat); [|intros [? ?]; done].
    eapply safe_bind; [apply lex_string_loop_safe|]. intros [v o]. simpl. lia.
  - eapply safe_bind with (P := fun '(_, n) => (0 < n)%nat); [|intros [? ?]; done].
    unfold lex_integer. destruct (Nat.eqb_spec (span_len is_ascii_digit
      (sdrop match String b rest with String "-" _ => 1%nat | _ => O end (String b rest))) 0);
      [done|].
    destruct (parse_i64 _); simpl; [lia|done].
  - unfold lex_identifier. cbn [span_len].
    assert (is_identifier_byte b = true) as ->.
    { unfold is_identifier_byte, is_ascii_alphanumeric.
      match goal with H : _ || Ascii.eqb b "_" = true |- _ =>
        apply orb_true_iff in H as [Hb|Hb] end; [by rewrite Hb|].
      by apply Ascii.eqb_eq in Hb as ->. }
    repeat case_match; simpl; (lia || done).
  - done.
Qed.

Definition ends_in_end (ts : list Token) : Prop :=
  exists o, last ts = Some (MkToken TEnd o).

Lemma tokenize_loop_safe fuel lim off rest count :
  (String.length rest < fuel)%nat ->
  safe (tokenize_loop fuel lim off rest count) ends_in_end.
Proof.
  revert off rest count. induction fuel as [|fuel IH]; intros off rest count Hf; [lia|].
  cbn [tokenize_loop].
  pose proof (sdrop_length (span_len is_ascii_whitespace rest) rest) as Hl.
  destruct (sdrop (span_len is_ascii_whitespace rest) rest) as [|b rest'] eqn:E.
  { by eexists. }
  eapply safe_bind; [apply lex_token_safe|]. intros [k n] Hn.
  destruct (_ <? _); [done|].
  eapply safe_bind; [apply IH|].
  - rewrite sdrop_length. simpl in *. lia.
  - intros ts [o Ho]. exists o. destruct ts; [done|]. exact Ho.
Qed.

Lemma tokenize_safe source lim : safe (tokenize source lim) ends_in_end.
Proof. apply tokenize_loop_safe. lia. Qed.

(** ** Totality of the parser *)

Section Totality.

Variable lim0 : ExpressionLimits.

(** The parser's index is in range, the last token is [TEnd] and the limits are
    the ones it was made with. *)
Definition parser_wf (p : Parser) : Prop :=
  (index p < length (tokens p))%nat /\ ends_in_end (tokens p) /\ limits p = lim0.

Definition rem (p : Parser) : nat := length (tokens p) - index p.

(** A parsing step from [p]: it keeps the parser well-formed and consumes. *)
Definition consumes (p : Parser) (r : result fault (Expression * Parser)) : Prop :=
  safe r (fun '(_, p') => parser_wf p' /\ (rem p' < rem p)%nat).

Lemma parser_wf_rem p : parser_wf p -> (0 < rem p)%nat.
Proof. unfold parser_wf, rem. lia. Qed.

Lemma advance_wf p :
  parser_wf p ->
  exists t, current p = Ok t /\ (kind t <> TEnd ->
    parser_wf (MkParser (tokens p) (S (index p)) (limits p) (nodes p) (operations p))).
Proof.
  intros (Hi & [o Ho] & Hlim). unfold current.
  destruct (lookup_lt_is_Some_2 _ _ Hi) as [t Ht]. exists t. rewrite Ht.
  split; [done|]. intros Hk. split; [|split; [by exists o|done]]. simpl.
  destruct (decide (S (index p) < length (tokens p))%nat); [done|].
  rewrite last_lookup in Ho. replace (Init.Nat.pred _) with (index p) in Ho by lia.
  rewrite Ht in Ho. injection Ho as ->. done.
Qed.

Lemma current_fail_safe {A} p c (m : string) (P : A -> Prop) :
  parser_wf p -> safe (token ← current p; fail c (offset token) m) P.
Proof. intros Hp. destruct (advance_wf p Hp) as (t & -> & _). done. Qed.

Lemma node_safe p e d :
  parser_wf p ->
  safe (node p e d) (fun '(_, p') => parser_wf p' /\ rem p' = rem p).
Proof.
  intros Hp. unfold node. destruct (_ <? _); [by apply current_fail_safe|].
  destruct (_ <? _); [by apply current_fail_safe|]. done.
Qed.

Lemma operation_safe p :
  parser_wf p -> safe (operation p) (fun p' => parser_wf p' /\ rem p' = rem p).
Proof.
  intros Hp. unfold operation. destruct (_ <? _); [by apply current_fail_safe|]. done.
Qed.

Lemma ensure_depth_safe p d : parser_wf p -> safe (ensure_depth p d) (fun _ => True).
Proof.
  intros Hp. unfold ensure_depth. destruct (_ <? _); [by apply current_fail_safe|]. done.
Qed.

Lemma rem_advance p :
  (index p < length (tokens p))%nat ->
  (rem (MkParser (tokens p) (S (index p)) (limits p) (nodes p) (operations p)) < rem p)%nat.
Proof. unfold rem. simpl. lia. Qed.

Lemma chain_loop_safe R op operand :
  op TEnd = None ->
  (forall p d, parser_wf p -> (rem p < R)%nat -> consumes p (operand p d)) ->
  forall fuel e p d, parser_wf p -> (rem p < R)%nat -> (rem p < fuel)%nat ->
  safe (chain_loop fuel op operand e p d)
    (fun '(_, p') => parser_wf p' /\ (rem p' <= rem p)%nat).
Proof.
  intros Hop Hor fuel. induction fuel as [|fuel IH]; intros e p d Hp HR Hf; [lia|].
  cbn [chain_loop]. unfold advance. destruct (advance_wf p Hp) as (t & -> & Ht).
  simpl. destruct (op (kind t)) as [c|] eqn:E; [|done]. simpl.
  assert (kind t <> TEnd) as Hk by (intros Hk; rewrite Hk in E; congruence).
  pose proof (rem_advance p (proj1 Hp)).
  eapply safe_bind; [apply operation_safe; auto|]. intros p1 [Hp1 Hr1].
  eapply safe_bind; [apply Hor; [done|lia]|]. intros [rhs p2] [Hp2 Hr2].
  eapply safe_bind; [by apply node_safe|]. intros [e' p3] [Hp3 Hr3].
  eapply safe_impl; [apply IH; [done|lia..]|]. intros [e4 p4] [? ?]. split; [done|lia].
Qed.

(** A binary level is safe when its operand level is. *)
Lemma level_safe op operand fuel e p p1 d :
  op TEnd = None -> parser_wf p1 -> (rem p1 < rem p)%nat -> (rem p <= fuel)%nat ->
  (forall q d, parser_wf q -> (rem q < rem p)%nat -> consumes q (operand q d)) ->
  consumes p (chain_loop fuel op operand e p1 d).
Proof.
  intros Hop Hp1 Hr Hf Hor.
  eapply safe_impl; [eapply (chain_loop_safe (rem p)); eauto; lia|].
  intros [e' p'] [? ?]. split; [done|lia].
Qed.

Lemma parse_levels_safe fuel p d :
  parser_wf p ->
  ((7 * rem p + 6 <= fuel)%nat -> consumes p (parse_or fuel p d)) /\
  ((7 * rem p + 5 <= fuel)%nat -> consumes p (parse_and fuel p d)) /\
  ((7 * rem p + 4 <= fuel)%nat -> consumes p (parse_equality fuel p d)) /\
  ((7 * rem p + 3 <= fuel)%nat -> consumes p (parse_add fuel p d)) /\
  ((7 * rem p + 2 <= fuel)%nat -> consumes p (parse_unary fuel p d)) /\
  ((7 * rem p + 1 <= fuel)%nat -> consumes p (parse_primary fuel p d)).
Proof.
  revert p d. induction fuel as [|fuel IH]; intros p d Hp; [lia|].
  pose proof (parser_wf_rem p Hp). destruct (advance_wf p Hp) as (t & Ec & Ht).
  pose proof (rem_advance p (proj1 Hp)) as Hadv.
  cbn [parse_or parse_and parse_equality parse_add parse_unary parse_primary].
  repeat split; intros Hf.
  1-4: eapply safe_bind; [apply IH; [done|lia]|]; intros [e p1] [Hp1 Hr1];
    (apply level_safe; [done|done|lia|lia|]);
    intros q d' Hq Hrq; apply IH; [done|lia].
  - eapply safe_bind; [by apply ensure_depth_safe|]. intros _ _. unfold advance.
    rewrite Ec. simpl. destruct (decide (kind t = TNot)) as [E|E].
    + rewrite E in *. simpl. eapply safe_bind; [by apply operation_safe, Ht|].
      intros p1 [Hp1 Hr1]. eapply safe_bind; [apply IH; [done|lia]|].
      intros [e p2] [Hp2 Hr2]. eapply safe_impl; [by apply node_safe|].
      intros [? ?] [? ?]. split; [done|lia].
    + replace (match kind t with TNot => _ | _ => _ end) with (parse_primary fuel p d)
        by (destruct (kind t); done). apply IH; [done|lia].
  - eapply safe_bind; [by apply ensure_depth_safe|]. intros _ _. unfold advance.
    rewrite Ec. simpl.
    destruct (kind t) eqn:Ek; try done;
      try (eapply safe_impl; [apply node_safe, Ht; done|]; intros [? ?] [? ?]; split; [done|lia]).
    eapply safe_bind; [apply IH; [by apply Ht|lia]|]. intros [e p2] [Hp2 Hr2].
    destruct (advance_wf p2 Hp2) as (t2 & Ec2 & Ht2).
    pose proof (rem_advance p2 (proj1 Hp2)). unfold parser_error.
    rewrite Ec2. simpl. destruct (kind t2) eqn:E2; try done.
    split; [by apply Ht2|]. simpl in *. lia.
Qed.

End Totality.

(** ** Fuel is monotone *)

(** [approx r1 r2]: [r1] ran out of fuel or is [r2]. *)
Definition approx {A} (r1 r2 : result fault A) : Prop := r1 = Err Diverge \/ r1 = r2.

Lemma approx_refl {A} (r : result fault A) : approx r r.
Proof. by right. Qed.

Lemma approx_bind {A B} (r1 r2 : result fault A) (f1 f2 : A -> result fault B) :
  approx r1 r2 -> (forall a, approx (f1 a) (f2 a)) -> approx (r1 ≫= f1) (r2 ≫= f2).
Proof. intros [->| ->] Hf; [by left|]. destruct r2; simpl; [apply Hf|by right]. Qed.

#[local] Hint Resolve approx_refl : core.

Lemma chain_loop_approx op o1 o2 :
  (forall p d, approx (o1 p d) (o2 p d)) ->
  forall f1 f2 e p d, (f1 <= f2)%nat ->
  approx (chain_loop f1 op o1 e p d) (chain_loop f2 op o2 e p d).
Proof.
  intros Ho f1. induction f1 as [|f1 IH]; intros f2 e p d Hf; [by left|].
  destruct f2 as [|f2]; [lia|]. cbn [chain_loop].
  apply approx_bind; [done|]. intros t. destruct (op (kind t)) as [c|]; [|done].
  apply approx_bind; [done|]. intros [? p1]. apply approx_bind; [done|]. intros p2.
  apply approx_bind; [done|]. intros [rhs p3]. apply approx_bind; [done|].
  intros [e' p4]. apply IH. lia.
Qed.

(** The six mutually recursive levels, by binding strength. *)
Definition parse_at (l : nat) : nat -> Parser -> Z -> result fault (Expression * Parser) :=
  match l with
  | 0%nat => parse_or
  | 1%nat => parse_and
  | 2%nat => parse_equality
  | 3%nat => parse_add
  | 4%nat => parse_unary
  | _ => parse_primary
  end.

Definition op_at (l : nat) : TokenKind -> option (Expression -> Expression -> Expression) :=
  match l with
  | 0%nat => or_op
  | 1%nat => and_op
  | 2%nat => equality_op
  | 3%nat => add_op
  | _ => fun _ => None
  end.

Lemma parse_at_chain l fuel p d :
  (l < 4)%nat ->
  parse_at l (S fuel) p d =
  ('(e, p1) ← parse_at (S l) fuel p d;
   chain_loop fuel (op_at l) (parse_at (S l) fuel) e p1 d).
Proof. intros Hl. do 4 (destruct l as [|l]; [done|]). lia. Qed.

Lemma parse_at_approx f1 f2 l p d :
  (f1 <= f2)%nat -> approx (parse_at l f1 p d) (parse_at l f2 p d).
Proof.
  revert f2 l p d. induction f1 as [|f1 IH]; intros f2 l p d Hf.
  { left. by do 5 (destruct l as [|l]; [done|]). }
  destruct f2 as [|f2]; [lia|]. assert (f1 <= f2)%nat as Hf' by lia.
  destruct (decide (l < 4)%nat) as [Hl|Hl].
  { rewrite !parse_at_chain by done. apply approx_bind; [by apply IH|].
    intros [e p1]. apply chain_loop_approx; [|done]. intros. by apply IH. }
  destruct (decide (l = 4%nat)) as [->|Hl4].
  - cbn [parse_at parse_unary]. apply approx_bind; [done|]. intros _.
    apply approx_bind; [done|]. intros t.
    destruct (kind t); try apply (IH f2 5%nat); try done.
    apply approx_bind; [done|]. intros [? p1]. apply approx_bind; [done|]. intros p2.
    apply approx_bind; [by apply (IH f2 4%nat)|]. by intros [? ?].
  - assert (parse_at l = parse_primary) as -> by (by do 5 (destruct l as [|l]; [lia|])).
    cbn [parse_primary]. apply approx_bind; [done|]. intros _.
    apply approx_bind; [done|]. intros [t p1]. destruct (kind t); try done.
    apply approx_bind; [by apply (IH f2 0%nat)|]. by intros [? ?].
Qed.

(** ** Parsing printed tokens *)

(** The parser moved over [n] tokens, [k] nodes and [o] operations. *)
Definition after (p : Parser) (n : nat) (k o : Z) : Parser :=
  MkParser (tokens p) (index p + n) (limits p) (nodes p + k) (operations p + o).

Definition ahead (p : Parser) (ks : list TokenKind) : Prop :=
  kind <$> drop (index p) (tokens p) = ks.

(** [e] stays within the limits when parsed from [p] at depth [d]. *)
Definition fits (p : Parser) (d : Z) (e : Expression) : Prop :=
  0 <= nodes p /\ 0 <= operations p /\
  nodes p + node_count e <= max_nodes (limits p) < usize_max /\
  operations p + op_count e <= max_operations (limits p) < usize_max /\
  d + height e <= max_depth (limits p).

(** What follows does not continue an expression of binding strength [l]. *)
Definition follows (l : nat) (ks : list TokenKind) : Prop :=
  match ks with
  | [] => False
  | k :: _ => forall l', (l <= l')%nat -> op_at l' k = None
  end.

Definition parses (l : nat) (p : Parser) (d : Z) (r : Expression * Parser) : Prop :=
  exists N, forall f, (N <= f)%nat -> parse_at l f p d = Ok r.

Definition chains (l : nat) (e : Expression) (p : Parser) (d : Z)
    (r : Expression * Parser) : Prop :=
  exists N, forall f g, (N <= f)%nat -> (N <= g)%nat ->
    chain_loop f (op_at l) (parse_at (S l) g) e p d = Ok r.

Definition past (l : nat) (e : Expression) (p : Parser) : Parser :=
  after p (length (print_tokens l e)) (node_count e) (op_count e).

(** At level [l] the printed [e] parses to [e] when nothing continues it. *)
Definition printed (l : nat) (e : Expression) : Prop :=
  forall p d ks, ahead p (print_tokens l e ++ ks) -> fits p d e -> follows l ks ->
  parses l p d (e, past l e p).

(** The same with more operators of level [l] to come. *)
Definition printed_prefix (l : nat) (e : Expression) : Prop :=
  forall p d ks r, ahead p (print_tokens l e ++ ks) -> fits p d e -> follows (S l) ks ->
  chains l e (past l e p) d r -> parses l p d r.

Lemma after_after p n1 n2 k1 k2 o1 o2 :
  after (after p n1 k1 o1) n2 k2 o2 = after p (n1 + n2) (k1 + k2) (o1 + o2).
Proof. unfold after. simpl. f_equal; lia. Qed.

Lemma ahead_after p ks1 ks2 n k o :
  ahead p (ks1 ++ ks2) -> n = length ks1 -> ahead (after p n k o) ks2.
Proof.
  unfold ahead. simpl. intros H ->. rewrite <- drop_drop, fmap_drop, H.
  by rewrite drop_app_length.
Qed.

Lemma ahead_current p k ks :
  ahead p (k :: ks) -> exists t, current p = Ok t /\ kind t = k.
Proof.
  unfold ahead, current. intros H.
  destruct (drop (index p) (tokens p)) as [|t ts] eqn:E; [done|].
  exists t. rewrite <- (Nat.add_0_r (index p)), <- lookup_drop, E.
  by simplify_eq/=.
Qed.

Lemma ahead_advance p k ks :
  ahead p (k :: ks) ->
  exists t, advance p = Ok (t, after p 1 0 0) /\ kind t = k.
Proof.
  intros H. destruct (ahead_current p k ks H) as (t & Ht & Hk). exists t. split; [|done].
  unfold advance. rewrite Ht. simpl. do 2 f_equal. unfold after. f_equal; lia.
Qed.

Lemma node_ok p e d :
  0 <= nodes p -> nodes p + 1 <= max_nodes (limits p) < usize_max ->
  d <= max_depth (limits p) ->
  node p e d = Ok (e, after p 0 1 0).
Proof.
  intros H0 H1 H2. unfold node, sat_add. rewrite (proj2 (Z.ltb_ge _ _)) by done.
  rewrite (Z.min_l (nodes p + 1)) by lia. simpl.
  rewrite (proj2 (Z.ltb_ge _ _)) by lia. do 2 f_equal. unfold after. f_equal; lia.
Qed.

Lemma operation_ok p :
  0 <= operations p -> operations p + 1 <= max_operations (limits p) < usize_max ->
  operation p = Ok (after p 0 0 1).
Proof.
  intros H0 H1. unfold operation, sat_add.
  rewrite (Z.min_l (operations p + 1)) by lia. simpl.
  rewrite (proj2 (Z.ltb_ge _ _)) by lia. f_equal. unfold after. f_equal; lia.
Qed.

Lemma ensure_depth_ok p d : d <= max_depth (limits p) -> ensure_depth p d = Ok tt.
Proof. intros H. unfold ensure_depth. by rewrite (proj2 (Z.ltb_ge _ _)) by done. Qed.

Lemma print_binary c a b :
  binary c ->
  exists l tok, (l < 4)%nat /\ level (c a b) = l /\ op_at l tok = Some c /\
    (forall l', (l < l')%nat -> op_at l' tok = None) /\
    print_tokens l (c a b) = print_tokens l a ++ tok :: print_tokens (S l) b.
Proof.
  destruct 1; [exists 2%nat, TEqual|exists 2%nat, TNotEqual|exists 1%nat, TAnd
    |exists 0%nat, TOr|exists 3%nat, TAdd]; repeat split;
    (lia || done || (intros l' Hl; do 4 (destruct l' as [|l']; [lia || done|]); done)).
Qed.

(** Away from its own level an expression prints the same one level up. *)
Lemma print_tokens_S l e :
  level e <> l -> print_tokens l e = print_tokens (S l) e.
Proof.
  intros Hl. destruct e; simpl in *;
    repeat match goal with |- context [(?x <? ?y)%nat] => destruct (Nat.ltb_spec x y) end;
    (lia || done).
Qed.

Lemma follows_S l ks : follows l ks -> follows (S l) ks.
Proof. destruct ks; simpl; [done|]. intros H l' ?. apply H. lia. Qed.

Lemma printed_prefix_down l e :
  (l < 4)%nat -> level e <> l -> printed (S l) e -> printed_prefix l e.
Proof.
  intros Hl He HP p d ks r Ha Hf Hk [N HN].
  unfold past in HN. rewrite print_tokens_S in Ha, HN by done.
  destruct (HP p d ks Ha Hf Hk) as [M HM]. exists (S (N `max` M)). intros [|f] Hfuel; [lia|].
  rewrite parse_at_chain by done. rewrite HM by lia. apply HN; lia.
Qed.

Lemma printed_of_prefix l e : (l < 4)%nat -> printed_prefix l e -> printed l e.
Proof.
  intros Hl HK p d ks Ha Hf Hk. eapply HK; [done..|by apply follows_S|].
  destruct ks as [|k ks]; [done|]. exists 1%nat. intros [|f] g Hf1 _; [lia|].
  cbn [chain_loop]. unfold past.
  destruct (ahead_current (past l e p) k ks) as (t & Et & Ek).
  { by eapply ahead_after. }
  fold (past l e p). rewrite Et. simpl. rewrite Ek, (Hk l) by lia. done.
Qed.

Lemma printed_down l e : (l < 4)%nat -> level e <> l -> printed (S l) e -> printed l e.
Proof. intros. by apply printed_of_prefix, printed_prefix_down. Qed.

(** From level 5 down to any level above [k] that is not the expression's own. *)
Lemma printed_paren e :
  (level e < 5)%nat -> printed 0 e -> printed 5 e.
Proof.
  intros Hl H0 p d ks Ha Hf Hk.
  assert (print_tokens 5 e = TLeftParen :: print_tokens 0 e ++ [TRightParen]) as Ep.
  { destruct e; simpl in *; (lia || done). }
  rewrite Ep in Ha. simpl in Ha. rewrite <- app_assoc in Ha. simpl in Ha.
  destruct (ahead_advance p _ _ Ha) as (t & Et & Ek).
  assert (ahead (after p 1 0 0) (print_tokens 0 e ++ TRightParen :: ks)) as Ha1.
  { by eapply (ahead_after p [TLeftParen]). }
  destruct (H0 (after p 1 0 0) d (TRightParen :: ks)) as [N HN]; [done| | |].
  { unfold fits in *. simpl. lia. }
  { intros l' _. by do 4 (destruct l' as [|l']; [done|]). }
  exists (S N). intros [|f] Hfuel; [lia|]. cbn [parse_at parse_primary].
  pose proof (height_nonneg e).
  rewrite ensure_depth_ok by (unfold fits in *; lia). simpl. rewrite Et. simpl. rewrite Ek.
  change (parse_or f) with (parse_at 0 f). rewrite HN by lia. simpl.
  assert (ahead (past 0 e (after p 1 0 0)) (TRightParen :: ks)) as Ha2.
  { by eapply ahead_after. }
  destruct (ahead_current _ _ _ Ha2) as (t2 & Et2 & Ek2).
  destruct (ahead_advance _ _ _ Ha2) as (t3 & Et3 & _).
  rewrite Et2. simpl. rewrite Ek2, Et3. simpl. do 2 f_equal.
  unfold past. rewrite !after_after, Ep. simpl. rewrite length_app. simpl.
  f_equal; lia.
Qed.

Lemma printed_unary e : level e <> 4%nat -> printed 5 e -> printed 4 e.
Proof.
  intros He HP p d ks Ha Hf Hk. pose proof Ha as Ha'. unfold past.
  rewrite print_tokens_S in Ha |- * by done.
  destruct (HP p d ks Ha Hf) as [N HN]; [by apply follows_S|].
  exists (S N). intros [|f] Hfuel; [lia|]. cbn [parse_at parse_unary].
  pose proof (height_nonneg e).
  rewrite ensure_depth_ok by (unfold fits in *; lia). simpl.
  destruct (print_tokens 5 e ++ ks) as [|k0 ks0] eqn:E0; [destruct ks; [done|]|].
  { by apply app_eq_nil in E0 as [_ ?]. }
  destruct (ahead_current p k0 ks0 Ha) as (t & Et & Ek). rewrite Et. simpl.
  assert (kind t <> TNot) as Hn.
  { rewrite Ek. destruct e as [[]| | | | | | |]; simpl in *; congruence. }
  replace (match kind t with TNot => _ | _ => _ end) with (parse_primary f p d)
    by (destruct (kind t); done).
  apply (HN f). lia.
Qed.

(** All levels follow from the expression's own. *)
Definition printable (e : Expression) : Prop :=
  (forall l, (l <= 5)%nat -> printed l e) /\ (forall l, (l < 4)%nat -> printed_prefix l e).

Lemma printed_below l k e :
  (l + k <= 4)%nat -> (level e < l \/ l + k <= level e)%nat ->
  printed (l + k) e -> printed l e.
Proof.
  revert l. induction k as [|k IH]; intros l Hk He HP; [by rewrite Nat.add_0_r in HP|].
  apply printed_down; [lia..|]. apply IH; [lia..|]. by rewrite Nat.add_succ_comm.
Qed.

Lemma printable_intro e :
  printed (level e) e -> ((level e < 4)%nat -> printed_prefix (level e) e) -> printable e.
Proof.
  intros HP HK.
  assert (level e <= 5)%nat as Hle by (destruct e; simpl; lia).
  assert (printed 5 e) as H5.
  { destruct (decide (level e = 5%nat)) as [E|E]; [by rewrite E in HP|].
    apply printed_paren; [lia|].
    apply (printed_below 0 (level e)); [lia..|done]. }
  assert (printed 4 e) as H4.
  { destruct (decide (level e = 4%nat)) as [E|E]; [by rewrite E in HP|].
    by apply printed_unary. }
  assert (forall l, (l <= 5)%nat -> printed l e) as Hall.
  { intros l Hl. destruct (decide (l = 5%nat)) as [->|]; [done|].
    destruct (decide (l <= level e)%nat).
    - destruct (decide (level e = 5%nat)).
      + apply (printed_below l (4 - l)); [lia..|]. by replace (l + (4 - l))%nat with 4%nat by lia.
      + apply (printed_below l (level e - l)); [lia..|].
        by replace (l + (level e - l))%nat with (level e) by lia.
    - apply (printed_below l (4 - l)); [lia..|]. by replace (l + (4 - l))%nat with 4%nat by lia. }
  split; [done|]. intros l Hl. destruct (decide (level e = l)) as [<-|]; [by apply HK|].
  apply printed_prefix_down; [done..|]. apply Hall. lia.
Qed.

Lemma printed_leaf e k :
  node_count e = 1 -> op_count e = 0 -> print_tokens 5 e = [k] ->
  (forall f p t d, kind t = k -> current p = Ok t -> ensure_depth p d = Ok tt ->
    parse_primary (S f) p d = ('(_, p1) ← advance p; node p1 e d)) ->
  printed 5 e.
Proof.
  intros Hn Ho Ep Hparse p d ks Ha Hf Hk. rewrite Ep in Ha.
  destruct (ahead_current _ _ _ Ha) as (t & Et & Ek).
  destruct (ahead_advance _ _ _ Ha) as (t' & Et' & _).
  pose proof (height_nonneg e). unfold fits in Hf.
  exists 1%nat. intros [|f] Hfuel; [lia|]. cbn [parse_at].
  rewrite (Hparse f p t d) by (done || apply ensure_depth_ok; lia).
  rewrite Et'. simpl. rewrite node_ok by (simpl; lia).
  unfold past. rewrite after_after, Ep, Hn, Ho. done.
Qed.

Lemma printable_leaf e k :
  level e = 5%nat ->
  node_count e = 1 -> op_count e = 0 -> print_tokens 5 e = [k] ->
  (forall f p t d, kind t = k -> current p = Ok t -> ensure_depth p d = Ok tt ->
    parse_primary (S f) p d = ('(_, p1) ← advance p; node p1 e d)) ->
  printable e.
Proof.
  intros Hl. intros. apply printable_intro; rewrite Hl; [|lia]. by eapply printed_leaf.
Qed.

Lemma printable_literal v : printable (Literal v).
Proof.
  destruct v; (eapply printable_leaf; [done..|]); intros f p t d Hk Ec Ed;
    cbn [parse_primary]; rewrite Ed; unfold advance; rewrite Ec; simpl; by rewrite Hk.
Qed.

Lemma printable_parameter n : printable (EParameter n).
Proof.
  eapply printable_leaf; [done..|]. intros f p t d Hk Ec Ed.
  cbn [parse_primary]; rewrite Ed; unfold advance; rewrite Ec; simpl; by rewrite Hk.
Qed.

Lemma printable_not a : printable a -> printable (Not a).
Proof.
  intros [HP _]. apply printable_intro; [|simpl; lia]. simpl level.
  intros p d ks Ha Hf Hk. simpl in Ha.
  destruct (ahead_current _ _ _ Ha) as (t & Et & Ek).
  destruct (ahead_advance _ _ _ Ha) as (t' & Et' & _).
  pose proof (height_nonneg a). pose proof (op_count_nonneg a).
  pose proof (node_count_pos a). unfold fits in Hf. simpl in Hf.
  destruct (HP 4%nat ltac:(lia) (after p 1 0 1) (d + 1) ks) as [N HN].
  { by eapply (ahead_after p [TNot]). }
  { unfold fits. simpl. lia. }
  { done. }
  exists (S N). intros [|f] Hfuel; [lia|]. cbn [parse_at parse_unary].
  rewrite ensure_depth_ok by lia. simpl. rewrite Et. simpl. rewrite Ek, Et'. simpl.
  rewrite operation_ok by (simpl; lia). simpl. rewrite after_after. simpl.
  change (parse_unary f) with (parse_at 4 f). rewrite HN by lia. simpl.
  rewrite node_ok by (simpl; lia). unfold past. rewrite !after_after. simpl.
  do 3 f_equal; lia.
Qed.

Lemma printable_binary c a b :
  binary c -> printable a -> printable b -> printable (c a b).
Proof.
  intros Hc [_ HKa] [HPb _].
  destruct (print_binary c a b Hc) as (l & tok & Hl & Hlev & Hop & Hnop & Ep).
  destruct (binary_measures c a b Hc) as (Eo & En & Eh & _).
  assert (printed_prefix l (c a b)) as HK.
  { intros p d ks r Ha Hf Hk [N HN]. unfold fits in Hf. rewrite Eo, En, Eh in Hf.
    pose proof (op_count_nonneg a). pose proof (node_count_pos a).
    pose proof (op_count_nonneg b). pose proof (node_count_pos b).
    pose proof (height_nonneg a). pose proof (height_nonneg b).
    rewrite Ep, <- app_assoc in Ha. simpl in Ha.
    assert (ahead (past l a p) (tok :: print_tokens (S l) b ++ ks)) as Ha1
      by (by eapply ahead_after).
    destruct (ahead_current _ _ _ Ha1) as (t & Et & Ek).
    destruct (ahead_advance _ _ _ Ha1) as (t' & Et' & _).
    destruct (HPb (S l) ltac:(lia) (after (past l a p) 1 0 1) d ks) as [M HM].
    { by eapply (ahead_after _ [tok]). }
    { unfold fits. simpl. lia. }
    { done. }
    eapply (HKa l Hl p d _ r Ha); [unfold fits; lia|intros l' ?; apply Hnop; lia|].
    exists (S (N `max` M)). intros [|f] g Hf1 Hg1; [lia|]. cbn [chain_loop].
    rewrite Et. simpl. rewrite Ek, Hop, Et'. simpl.
    rewrite operation_ok by (simpl; lia). simpl. rewrite after_after. simpl.
    rewrite HM by lia. simpl. rewrite node_ok by (simpl; lia). simpl.
    rewrite <- (HN f g) by lia. f_equal.
    unfold past. rewrite !after_after, Ep, Eo, En, length_app. simpl.
    f_equal; lia. }
  apply printable_intro; rewrite Hlev; [by apply printed_of_prefix|done].
Qed.

Lemma printable_all e : printable e.
Proof.
  induction e as [v|n|a IH|c a b Hc IHa IHb] using expression_ind'.
  - apply printable_literal.
  - apply printable_parameter.
  - by apply printable_not.
  - by apply printable_binary.
Qed.

(** ** Lexing rendered tokens *)

Definition token_wf (lim : ExpressionLimits) (k : TokenKind) : Prop :=
  match k with
  | TInteger z => in_i64 z = true
  | TString s => utf8_valid s = true /\ slen s <= max_string_bytes lim
  | TParameter name => validate_parameter_name name = Ok tt
  | TEnd => False
  | _ => True
  end.

Lemma chars_ascii a s : byte_val a < 128 -> chars (String a s) = schar a :: chars s.
Proof.
  intros Ha. simpl. unfold utf8_width. by rewrite (proj2 (Z.ltb_lt _ _) Ha).
Qed.

Lemma escape_high ch s : all_bytes is_high ch = true -> escape (ch +:+ s) = ch +:+ escape s.
Proof.
  induction ch as [|c ch IH]; simpl; [done|]. intros [Hc Hr]%andb_true_iff.
  apply Z.leb_le in Hc. rewrite IH by done.
  assert (forall d, byte_val d < 128 -> Ascii.eqb c d = false) as Hne.
  { intros d Hd. apply Ascii.eqb_neq. intros ->. lia. }
  by rewrite !Hne by done.
Qed.

Lemma multibyte_eqb ch a :
  multibyte ch -> byte_val a < 128 -> String.eqb ch (schar a) = false.
Proof.
  intros Hm Ha. apply String.eqb_neq. intros ->. pose proof (multibyte_high _ Hm) as Hh.
  simpl in Hh. rewrite andb_true_r in Hh. apply Z.leb_le in Hh. lia.
Qed.

(** The loop step on a character that stands for itself. *)
Lemma lex_string_plain lim start off value ch cs :
  String.eqb ch (schar dquote) = false -> String.eqb ch (schar backslash) = false ->
  String.eqb ch (schar newline) = false -> String.eqb ch (schar carriage_return) = false ->
  slen value + slen ch <= max_string_bytes lim ->
  lex_string_loop lim start off value (ch :: cs) =
  lex_string_loop lim start (off + slen ch) (value +:+ ch) cs.
Proof.
  intros E1 E2 E3 E4 Hl. cbn [lex_string_loop]. rewrite E1, E2, E3, E4. simpl.
  rewrite slen_app. by rewrite (proj2 (Z.ltb_ge _ _)) by lia.
Qed.

(** The loop step on an escape sequence. *)
Lemma lex_string_escape lim start off value esc c s :
  byte_val esc < 128 -> unescape (schar esc) = Some c ->
  slen value + slen c <= max_string_bytes lim ->
  lex_string_loop lim start off value (chars (String backslash (String esc s))) =
  lex_string_loop lim start (off + 2) (value +:+ c) (chars s).
Proof.
  intros He Hc Hl. rewrite !chars_ascii by done. cbn [lex_string_loop].
  rewrite Hc, slen_app. rewrite (proj2 (Z.ltb_ge _ _)) by lia.
  replace (off + slen (schar backslash) + slen (schar esc)) with (off + 2)
    by (unfold slen; simpl; lia). done.
Qed.

Lemma schar_eqb a b : String.eqb (schar a) (schar b) = Ascii.eqb a b.
Proof. unfold schar. simpl. by destruct (Ascii.eqb a b). Qed.

Lemma lex_string_loop_print lim start s : utf8_valid s = true ->
  forall off value rest, slen value + slen s <= max_string_bytes lim ->
  lex_string_loop lim start off value (chars (escape s +:+ String dquote rest)) =
  Ok (value +:+ s, off + slen (escape s) + 1).
Proof.
  revert s. refine (utf8_ind _ _ _ _); [|intros a s Ha Hs' IH|intros ch s Hm Hs' IH];
    intros off value rest Hl.
  - simpl. rewrite sapp_nil_r. do 2 f_equal. unfold slen. simpl. lia.
  - change (String a s) with (schar a +:+ s) in *. rewrite slen_app in Hl.
    pose proof (slen_nonneg s). change (slen (schar a)) with 1 in Hl.
    cbn [escape String.append schar].
    destruct (Ascii.eqb_spec a dquote) as [->|N1];
      [|destruct (Ascii.eqb_spec a backslash) as [->|N2];
        [|destruct (Ascii.eqb_spec a newline) as [->|N3];
          [|destruct (Ascii.eqb_spec a carriage_return) as [->|N4]]]].
    1-4: rewrite !sapp_assoc; cbn [String.append schar];
      erewrite lex_string_escape by (done || reflexivity || (change (slen (schar _)) with 1; lia));
      rewrite IH by (done || (rewrite slen_app; change (slen (schar _)) with 1; lia));
      rewrite sapp_assoc; do 2 f_equal; unfold slen; simpl; lia.
    rewrite sapp_assoc. cbn [String.append schar]. rewrite chars_ascii by done.
    rewrite lex_string_plain by (rewrite ?schar_eqb; (by apply Ascii.eqb_neq)
      || (change (slen (schar a)) with 1; lia)).
    rewrite IH by (done || (rewrite slen_app; change (slen (schar a)) with 1; lia)).
    rewrite sapp_assoc. do 2 f_equal; unfold slen; simpl; lia.
  - rewrite slen_app in Hl. pose proof (slen_nonneg s).
    rewrite escape_high by apply Hm. rewrite !sapp_assoc, multibyte_chars by done.
    rewrite lex_string_plain by (by apply multibyte_eqb || lia).
    rewrite IH by (done || (rewrite slen_app; lia)).
    rewrite sapp_assoc, slen_app. do 2 f_equal. lia.
Qed.

Lemma lex_string_print lim off s rest :
  utf8_valid s = true -> slen s <= max_string_bytes lim ->
  lex_string lim off (render (TString s) +:+ rest) =
  Ok (s, String.length (render (TString s))).
Proof.
  intros Hs Hl. unfold lex_string. cbn [render String.append sdrop]. rewrite sapp_assoc.
  cbn [String.append schar].
  rewrite lex_string_loop_print by (done || (unfold slen in *; simpl; lia)).
  simpl. do 2 f_equal. unfold slen. rewrite string_length_app. simpl. lia.
Qed.

(** What the rendered decimal starts with and how it is cut off. *)
Lemma lex_integer_print off z rest :
  in_i64 z = true ->
  lex_integer off (fmt_z z +:+ String " " rest) = Ok (z, String.length (fmt_z z)).
Proof.
  intros Hz. pose proof (parse_i64_fmt_z z Hz) as Hp. revert Hp. unfold lex_integer.
  destruct (fmt_z_cases z) as [[Hs ->]|[Hs ->]];
    match goal with |- context [pretty ?n] =>
      destruct (pretty_N_digits n) as (Hd & _ & Hne); set (t := pretty n) in * end;
    intros Hp.
  - assert (match t +:+ String " " rest with String "-" _ => 1%nat | _ => O end = O) as ->.
    { destruct t as [|c t]; [done|]. simpl in Hd. apply andb_true_iff in Hd as [Hd _].
      by destruct c as [[] [] [] [] [] [] [] []]. }
    simpl. rewrite span_len_app by done.
    destruct (Nat.eqb_spec (String.length t) 0); [by destruct t|].
    by rewrite stake_app, Hp.
  - simpl. rewrite span_len_app by done.
    destruct (Nat.eqb_spec (String.length t) 0); [by destruct t|].
    rewrite stake_app. simpl in Hp. by rewrite Hp.
Qed.

Lemma validate_parameter_name_ok name :
  validate_parameter_name name = Ok tt <->
  name <> "" /\ all_bytes is_parameter_byte name = true.
Proof.
  unfold validate_parameter_name. rewrite check_ok, orb_false_iff, negb_false_iff.
  destruct name; naive_solver.
Qed.

Lemma parameter_identifier_byte c :
  is_parameter_byte c = true -> is_identifier_byte c = true.
Proof.
  unfold is_parameter_byte, is_identifier_byte, one_of. simpl.
  rewrite !orb_true_iff. naive_solver.
Qed.

Lemma lex_identifier_print off name rest :
  validate_parameter_name name = Ok tt ->
  lex_identifier off ("parameters." +:+ name +:+ String " " rest) =
  Ok (TParameter name, String.length ("parameters." +:+ name)).
Proof.
  intros Hv. pose proof Hv as [Hne Hb]%validate_parameter_name_ok.
  unfold lex_identifier. rewrite <- sapp_assoc, span_len_app, stake_app; [|..|done].
  - assert (forall s t, ("parameters." +:+ s =? String "t" t)%string = false) as Ht by done.
    assert (forall s t, ("parameters." +:+ s =? String "f" t)%string = false) as Hf by done.
    rewrite Ht, Hf, strip_prefix_app, Hv. done.
  - rewrite all_bytes_app. apply andb_true_iff. split; [done|].
    eapply all_bytes_impl; [|done]. apply parameter_identifier_byte.
Qed.

Lemma lex_token_integer lim off b rest :
  Ascii.eqb b "-" || is_ascii_digit b = true ->
  lex_token lim off rest b = ('(z, n) ← lex_integer off rest; Ok (TInteger z, n)).
Proof.
  intros Hb. unfold lex_token. rewrite Hb.
  by destruct b as [[] [] [] [] [] [] [] []].
Qed.

Lemma fmt_z_head z :
  exists b t, fmt_z z = String b t /\ Ascii.eqb b "-" || is_ascii_digit b = true.
Proof.
  destruct (fmt_z_cases z) as [[Hs ->]|[Hs ->]]; [|by eexists _, _].
  destruct (pretty_N_digits (Z.to_N z)) as (Hd & _ & Hne).
  destruct (pretty (Z.to_N z)) as [|b t]; [done|]. exists b, t. split; [done|].
  simpl in Hd. apply andb_true_iff in Hd as [-> _]. apply orb_true_r.
Qed.

(** A rendered token starts with a byte the lexer dispatches on and is lexed
    back whole. *)
Lemma lex_token_print lim off k rest :
  token_wf lim k ->
  exists b t, render k = String b t /\ is_ascii_whitespace b = false /\
    lex_token lim off (render k +:+ String " " rest) b = Ok (k, String.length (render k)).
Proof.
  intros Hk. destruct k as [[]|z|s|n| | | | | | | | |]; [| | | | | | | | | | | | |done].
  1-2,6-13: by eexists _, _.
  - destruct (fmt_z_head z) as (b & t & E & Hb). exists b, t. split; [done|]. split.
    + by destruct b as [[] [] [] [] [] [] [] []].
    + rewrite lex_token_integer by done. simpl render. by rewrite lex_integer_print.
  - exists dquote. eexists. repeat split. destruct Hk as [Hs Hl].
    unfold lex_token. cbn -[lex_string render].
    change (Ascii.eqb dquote dquote) with true. cbv iota.
    by rewrite lex_string_print.
  - exists "p"%char. eexists. repeat split. cbn -[lex_identifier].
    pose proof (lex_identifier_print off n rest Hk) as E. simpl in E. by rewrite E.
Qed.

Lemma span_whitespace b t : is_ascii_whitespace b = false ->
  span_len is_ascii_whitespace (String b t) = 0%nat /\
  span_len is_ascii_whitespace (String " " (String b t)) = 1%nat.
Proof. intros H. simpl. by rewrite H. Qed.

Lemma tokenize_loop_print lim ks fuel off count ws :
  Forall (token_wf lim) ks -> ws = "" \/ ws = " " ->
  count + llen ks <= token_capacity lim ->
  (String.length (render_all ks) < fuel)%nat ->
  exists ts, tokenize_loop fuel lim off (ws +:+ render_all ks) count = Ok ts /\
    kind <$> ts = ks ++ [TEnd].
Proof.
  revert fuel off count ws. induction ks as [|k ks IH];
    intros [|fuel] off count ws Hk Hws Hc Hf; try lia; cbn [tokenize_loop].
  { simpl render_all. rewrite sapp_nil_r. destruct Hws as [-> | ->]; by eexists. }
  apply Forall_cons in Hk as [Hk Hks]. rewrite llen_cons in Hc.
  cbn [render_all] in *. set (off' := off + Z.of_nat (String.length ws)).
  destruct (lex_token_print lim off' k (render_all ks) Hk) as (b & t & Er & Hb & Hlex).
  destruct (span_whitespace b (t +:+ String " " (render_all ks)) Hb) as [S0 S1].
  assert (span_len is_ascii_whitespace (ws +:+ render k +:+ String " " (render_all ks))
    = String.length ws) as -> by (rewrite Er; by destruct Hws as [-> | ->]).
  rewrite sdrop_app. fold off'. rewrite Er in *. cbn [String.append] in *.
  rewrite Hlex. simpl mbind. pose proof (llen_nonneg ks).
  rewrite (proj2 (Z.ltb_ge _ _)) by lia.
  change (String b (t +:+ String " " (render_all ks)))
    with (String b t +:+ String " " (render_all ks)). rewrite sdrop_app.
  match goal with |- context [tokenize_loop fuel lim ?o] =>
    destruct (IH fuel o (count + 1) " ") as (ts & Ets & Hts); [done|by right|lia| |] end.
  { simpl in Hf. rewrite string_length_app in Hf. simpl in Hf. lia. }
  simpl String.append in Ets. rewrite Ets. simpl. eexists. split; [done|].
  by rewrite fmap_cons, Hts.
Qed.

Lemma print_tokens_wf lim l e :
  literals_wf e -> leaves_ok lim e -> Forall (token_wf lim) (print_tokens l e).
Proof.
  revert l. induction e as [v|n|a IH|c a b Hc IHa IHb] using expression_ind'; intros l Hw Hl.
  - destruct v; simpl; case_match; by repeat constructor.
  - simpl in *. case_match; by repeat constructor.
  - specialize (IH 4%nat Hw Hl). cbn [print_tokens].
    case_match; [apply Forall_cons; split; [done|]|constructor; [done|done]].
    apply Forall_app. split; [by constructor|by repeat constructor].
  - assert (literals_wf a /\ literals_wf b) as [? ?] by (by destruct Hc).
    assert (leaves_ok lim a /\ leaves_ok lim b) as [? ?] by (by destruct Hc).
    destruct Hc; cbn [print_tokens];
      case_match; rewrite ?Forall_cons, ?Forall_app, ?Forall_cons; repeat split; auto.
Qed.

Lemma print_tokens_length_body e l :
  llen (print_tokens l e) <= (if (level e <? l)%nat then 3 else 1) + 3 * (node_count e - 1).
Proof.
  revert l. induction e as [v|n|a IH|c a b Hc IHa IHb] using expression_ind'; intros l.
  - destruct v; simpl; repeat case_match; unfold llen; simpl; lia.
  - simpl; repeat case_match; unfold llen; simpl; lia.
  - cbn [print_tokens node_count]. specialize (IH 4%nat). unfold llen in *.
    destruct (level (Not a) <? l)%nat, (level a <? 4)%nat;
      cbn [length]; rewrite ?length_app; cbn [length]; lia.
  - assert (exists l1 l2 tok, print_tokens l (c a b) =
      let body := print_tokens l1 a ++ tok :: print_tokens l2 b in
      if (level (c a b) <? l)%nat then TLeftParen :: body ++ [TRightParen] else body)
      as (l1 & l2 & tok & ->) by (destruct Hc; by eexists _, _, _).
    destruct (binary_measures c a b Hc) as (_ & -> & _). cbv zeta.
    specialize (IHa l1). specialize (IHb l2). unfold llen in *.
    destruct (level (c a b) <? l)%nat, (level a <? l1)%nat, (level b <? l2)%nat;
      cbn [length]; rewrite ?length_app; cbn [length]; rewrite ?length_app; cbn [length]; lia.
Qed.

Lemma print_tokens_length l e : llen (print_tokens l e) <= 3 * node_count e.
Proof. pose proof (print_tokens_length_body e l). case_match; lia. Qed.

(** The fuel [parse] passes is enough to find what any fuel finds. *)
Lemma parse_or_adequate lim p d r :
  parser_wf lim p -> parses 0 p d r -> parse_or (parse_fuel (tokens p)) p d = Ok r.
Proof.
  intros Hp [N HN].
  destruct (parse_at_approx (parse_fuel (tokens p)) (N `max` parse_fuel (tokens p)) 0 p d)
    as [Hdiv|Heq]; [lia| |].
  - destruct (parse_levels_safe lim (parse_fuel (tokens p)) p d Hp) as [Hsafe _].
    simpl in Hdiv. unfold consumes in Hsafe. rewrite Hdiv in Hsafe. exfalso.
    apply Hsafe. unfold rem, parse_fuel. lia.
  - simpl in Heq. rewrite Heq. apply (HN _). lia.
Qed.

(** ** Properties *)

(** Parsing is total: on every source text and under every limits the lexer
    and parser return a validated expression or an ordinary error.  They never
    index past the token vector and never run out of the fuel the model gives
    them, so the code's loops and recursion terminate. *)
Theorem parse_expression_total source lim :
  (exists e, parse_expression source lim = Ok e /\ validate_expression e lim = Ok tt) \/
  (exists err, parse_expression source lim = Err (Fail err)).
Proof.
  assert (safe (parse_expression source lim) (fun e => validate_expression e lim = Ok tt)) as H.
  { unfold parse_expression. destruct (_ <? _); [done|].
    eapply safe_bind; [apply tokenize_safe|]. intros ts Hts. unfold parse, parser_new.
    assert (parser_wf lim (MkParser ts 0 lim 0 0)) as Hwf.
    { split; [|done]. destruct Hts as [o Ho]. destruct ts; simpl in *; [done|lia]. }
    eapply safe_bind;
      [apply (parse_levels_safe lim); [done|]; unfold rem, parse_fuel; simpl; lia|].
    intros [e p] [Hp _]. destruct (advance_wf _ _ Hp) as (t & Et & _).
    unfold parser_error. rewrite Et. simpl. destruct (kind t); try done.
    rewrite (proj2 (proj2 Hp)). by destruct (validate_expression e lim) as [[]|] eqn:E. }
  destruct (parse_expression source lim) as [e|[err| |]]; eauto; done.
Qed.

(** C38. Round trip: the text of a valid expression, printed with only the
    parentheses that precedence ([||], [&&], [==] and [!=], [+], [!]) and left
    associativity need, parses back to the same expression, provided the text
    fits the source limit. *)
Theorem parse_print e lim :
  validate_expression e lim = Ok tt -> literals_wf e ->
  3 * max_nodes lim < usize_max -> max_operations lim < usize_max ->
  slen (print_expression e) <= max_source_bytes lim ->
  parse_expression (print_expression e) lim = Ok e.
Proof.
  intros Hv Hw Hn Ho Hs. pose proof Hv as [st Hwalk]%validate_walk.
  pose proof (node_count_pos e). pose proof usize_max_pos.
  apply walk_ok in Hwalk as (-> & Hd & Hops & Hnodes & Hl); [|lia..]. simpl in Hops, Hnodes.
  unfold parse_expression. rewrite (proj2 (Z.ltb_ge _ _)) by done.
  destruct (tokenize_loop_print lim (print_tokens 0 e)
    (S (String.length (print_expression e))) 0 0 "") as (ts & Ets & Hts).
  { by apply print_tokens_wf. }
  { by left. }
  { pose proof (print_tokens_length 0 e). unfold token_capacity, sat_add, sat_mul. lia. }
  { unfold print_expression. lia. }
  change (tokenize (print_expression e) lim = Ok ts) in Ets. rewrite Ets. simpl.
  destruct (printable_all e) as [HP _].
  destruct (HP 0%nat ltac:(lia) (parser_new ts lim) 0 [TEnd]) as [N HN].
  { unfold ahead. simpl. by rewrite drop_0. }
  { unfold fits. simpl. lia. }
  { intros l' _. by do 4 (destruct l' as [|l']; [done|]). }
  assert (ends_in_end ts) as Hend.
  { pose proof (tokenize_safe (print_expression e) lim) as Hsafe. by rewrite Ets in Hsafe. }
  unfold parse. rewrite (parse_or_adequate lim _ _ (e, past 0 e (parser_new ts lim))).
  - destruct (ahead_current (past 0 e (parser_new ts lim)) TEnd []) as (t & Et & Ek).
    { eapply (ahead_after _ (print_tokens 0 e)); [|done]. unfold ahead. by rewrite drop_0. }
    simpl. rewrite Et. simpl. by rewrite Ek, Hv.
  - split; [|done]. destruct Hend as [o Hlast]. destruct ts; simpl in *; [done|lia].
  - by exists N.
Qed.

Lemma parse_print_witness :
  parse_expression (print_expression
    (Or (Not (Equal (EParameter "a") (Literal (PInteger (-3)))))
        (Equal (EParameter "b") (Add (Literal (PString "x")) (EParameter "c")))))
    default_limits =
  Ok (Or (Not (Equal (EParameter "a") (Literal (PInteger (-3)))))
         (Equal (EParameter "b") (Add (Literal (PString "x")) (EParameter "c")))).
Proof.
  apply parse_print; [vm_compute; reflexivity|vm_compute; auto|reflexivity|reflexivity|].
  vm_compute. discriminate.
Defined.
