(* ===== verification/Domain.v ===== *)
(** * The shared domain vocabulary (crates/domain)

    Scheduling capabilities, digest-pinned container images, and the bounded
    intents a pipeline may hold: cache, input and checkout steps, notification
    targets.  Hashing, Base64 and UUID text come from third-party crates: they
    are the fields of [External], an argument of every definition that calls
    them. *)

From stdpp Require Import base gmap list strings.
From Stdlib Require Import Ascii ZArith Lia.
From S2P Require Import Prelude Text Bytes.

Open Scope Z_scope.

(** ** Third-party code *)

(** [sha2::Sha256::digest], [base64 STANDARD.encode/decode],
    [Uuid::parse_str] (the 16 bytes) and [Uuid::to_string]. *)
Class External := {
  sha256 : string -> string;
  b64_encode : string -> string;
  b64_decode : string -> option string;
  uuid_parse : string -> option string;
  uuid_to_string : string -> string
}.

(** What their documentation promises. *)
Class ExternalLaws (X : External) : Prop := {
  sha256_length m : String.length (sha256 m) = 32%nat;
  b64_decode_encode m : b64_decode (b64_encode m) = Some m;
  uuid_parse_length s u : uuid_parse s = Some u -> String.length u = 16%nat;
  uuid_parse_to_string u : String.length u = 16%nat -> uuid_parse (uuid_to_string u) = Some u
}.

(** [format!("{:x}", digest)]: two lowercase hexadecimal digits per byte. *)
Fixpoint hex_of (s : string) : string :=
  match s with
  | EmptyString => EmptyString
  | String c s =>
      String (hex_lower (byte_val c / 16)) (String (hex_lower (byte_val c mod 16)) (hex_of s))
  end.

(** ** Capabilities (lib.rs, [capability]) *)

Definition PLATFORM_CAPABILITY_PREFIX : string := "platform:".
Definition SUPPORTED_PLATFORMS : list string := ["linux"; "windows"].
Definition DEFAULT_PLATFORM : string := "linux".
Definition EMBEDDED_WORKER_DISABLED_SENTINEL : string := "disabled".

Definition platform_capability (platform : string) : string :=
  PLATFORM_CAPABILITY_PREFIX +:+ platform.

Definition is_supported_platform (platform : string) : bool :=
  existsb (String.eqb platform) SUPPORTED_PLATFORMS.

Inductive EmbeddedWorkerCapabilities : Type :=
| Disabled
| Schedulable (declared : list string).

Inductive EmbeddedWorkerCapabilityError : Type :=
| EmptyDeclaration
| DisableSentinelNotAlone (declared : list string)
| NoSchedulablePlatform (declared : list string)
| UnsupportedPlatform (capability platform : string).

(** The loop over the closed [platform:] namespace. *)
Definition check_platform_token (capability : string) :
    result EmbeddedWorkerCapabilityError () :=
  match strip_prefix PLATFORM_CAPABILITY_PREFIX capability with
  | Some platform =>
      check (negb (is_supported_platform platform)) (UnsupportedPlatform capability platform)
  | None => Ok tt
  end.

Definition classify_embedded_worker_capabilities (declared : list string) :
    result EmbeddedWorkerCapabilityError EmbeddedWorkerCapabilities :=
  if (llen declared =? 0) then Err EmptyDeclaration
  else if existsb (String.eqb EMBEDDED_WORKER_DISABLED_SENTINEL) declared then
    if llen declared =? 1 then Ok Disabled
    else Err (DisableSentinelNotAlone declared)
  else
    try_for check_platform_token declared ;;
    if existsb (fun platform => existsb (String.eqb (platform_capability platform)) declared)
         SUPPORTED_PLATFORMS
    then Ok (Schedulable declared)
    else Err (NoSchedulablePlatform declared).

(** ** Container images (lib.rs, [container]) *)

Definition MAX_IMAGE_REFERENCE_BYTES : Z := 512.

Definition host_like (component : string) : bool :=
  negb (is_empty component) &&
  all_bytes (fun b => is_ascii_lowercase b || is_ascii_digit b || one_of ["."; "-"]%char b)
    component.

Definition path_like (component : string) : bool :=
  negb (is_empty component) &&
  all_bytes (fun b => is_ascii_lowercase b || is_ascii_digit b || one_of ["."; "-"; "_"]%char b)
    component.

(** The name before the digest: [host_ok && ..]. *)
Definition image_name_ok (name : string) : bool :=
  match split_char "/" name with
  | [] => false
  | first :: rest =>
      let no_rest := match rest with [] => true | _ => false end in
      let looks_like_registry := contains_char "." first || String.eqb first "localhost" in
      let host_ok :=
        match split_once ":" first with
        | Some (host, port) =>
            negb no_rest && host_like host && negb (is_empty port)
            && all_bytes is_ascii_digit port
        | None =>
            if looks_like_registry then negb no_rest && host_like first else path_like first
        end in
      host_ok && negb (ends_with "/" name) && forallb path_like rest
  end.

Definition is_digest_pinned_image (reference : string) : bool :=
  if is_empty reference || (MAX_IMAGE_REFERENCE_BYTES <? slen reference) then false
  else match split_once "@" reference with
  | None => false
  | Some (name, digest) =>
      match strip_prefix "sha256:" digest with
      | None => false
      | Some hex =>
          if negb (slen hex =? 64) || negb (all_bytes is_lower_hex hex) then false
          else image_name_ok name
      end
  end.

(** ** Cache intents (cache_intent.rs) *)

Definition MAX_CACHE_CONTENT_BYTES : Z := 12 * 1024.
Definition CACHE_CAPABILITY : string := "sealed-cache-v1".

Inductive CacheOperation : Type := CacheRead | CachePublish.

#[export] Instance CacheOperation_eq_dec : EqDecision CacheOperation.
Proof. solve_decision. Defined.

Record CacheIntentSpec := {
  ci_mapping_id : string;
  ci_mapping_digest : string;
  ci_operation : CacheOperation;
  ci_logical_key_sha256 : string;
  ci_input_sha256 : string;
  ci_content_base64 : option string;
  ci_timeout_seconds : Z
}.

Record CacheIntentError := CacheErr { cache_error : string }.
Definition cache_error_display (e : CacheIntentError) : string :=
  "invalid bounded cache intent or authority: " +:+ cache_error e.

Definition canonical_sha256 (value : string) : bool :=
  (slen value =? 64) && all_bytes is_lower_hex value.

Definition is_mapping_byte (b : ascii) : bool :=
  is_ascii_alphanumeric b || one_of ["-"; "_"; "."]%char b.

Definition canonical_mapping_id (value : string) : bool :=
  negb (is_empty value) && (slen value <=? 128) && all_bytes is_mapping_byte value.

(** [digest.strip_prefix("sha256:").is_some_and(canonical_sha256)]. *)
Definition sha256_reference (digest : string) : bool :=
  match strip_prefix "sha256:" digest with
  | Some hex => canonical_sha256 hex
  | None => false
  end.

Definition nul : string := schar "000".

(** The bytes the binding capability hashes. *)
Definition cache_binding_preimage (mapping_id mapping_digest : string)
    (operation : CacheOperation) : string :=
  "mcloving.cache-binding-capability/v1" +:+ nul +:+ framed mapping_id
  +:+ framed mapping_digest
  +:+ be_bytes 1 (match operation with CacheRead => 1 | CachePublish => 2 end).

Definition cache_binding_capability `{External} (mapping_id mapping_digest : string)
    (operation : CacheOperation) : result CacheIntentError string :=
  if negb (canonical_mapping_id mapping_id) || negb (sha256_reference mapping_digest)
  then Err (CacheErr "mapping capability identity")
  else Ok ("sealed-cache-binding-v1-"
           +:+ hex_of (sha256 (cache_binding_preimage mapping_id mapping_digest operation))).

Definition decoded_content `{External} (i : CacheIntentSpec) :
    result CacheIntentError (option string) :=
  match ci_operation i, ci_content_base64 i with
  | CacheRead, None => Ok None
  | CachePublish, Some encoded =>
      if 16 * 1024 <? slen encoded then Err (CacheErr "content bound")
      else match b64_decode encoded with
      | None => Err (CacheErr "base64")
      | Some bytes =>
          if (MAX_CACHE_CONTENT_BYTES <? slen bytes)
             || negb (String.eqb (b64_encode bytes) encoded)
          then Err (CacheErr "noncanonical or oversized content")
          else Ok (Some bytes)
      end
  | _, _ => Err (CacheErr "content presence does not match operation")
  end.

Definition cache_intent_validate `{External} (i : CacheIntentSpec) :
    result CacheIntentError () :=
  check (negb (canonical_mapping_id (ci_mapping_id i))) (CacheErr "mapping identifier") ;;
  check (negb (sha256_reference (ci_mapping_digest i))
         || negb (canonical_sha256 (ci_logical_key_sha256 i))
         || negb (canonical_sha256 (ci_input_sha256 i))) (CacheErr "digest") ;;
  check (negb ((1 <=? ci_timeout_seconds i) && (ci_timeout_seconds i <=? 60)))
    (CacheErr "timeout") ;;
  decoded_content i ;;
  Ok tt.

Record CacheWorkContext := {
  organization_id : string;
  project_id : string;
  pipeline_id : string;
  build_id : string;
  node_id : string;
  attempt_id : string;
  fence_token : Z
}.

(** The body of the loop of [CacheWorkContext::validate]. *)
Definition check_work_identity `{External} (value : string) : result CacheIntentError () :=
  match uuid_parse value with
  | None => Err (CacheErr "work identity")
  | Some id =>
      check (all_bytes (Ascii.eqb "000") id || negb (String.eqb (uuid_to_string id) value))
        (CacheErr "noncanonical work identity")
  end.

Definition work_context_validate `{External} (c : CacheWorkContext) :
    result CacheIntentError () :=
  try_for check_work_identity
    [organization_id c; project_id c; pipeline_id c; build_id c; node_id c; attempt_id c] ;;
  check (fence_token c =? 0) (CacheErr "fence").

(** The bytes an assignment digest hashes: domain tag, seven framed fields, fence. *)
Definition assignment_preimage (tag execution_spec_json : string) (c : CacheWorkContext) :
    string :=
  tag +:+ nul +:+ framed (organization_id c) +:+ framed (project_id c)
  +:+ framed (pipeline_id c) +:+ framed (build_id c) +:+ framed (node_id c)
  +:+ framed (attempt_id c) +:+ framed execution_spec_json +:+ be_bytes 8 (fence_token c).

Definition cache_assignment_digest `{External} (execution_spec_json : string)
    (c : CacheWorkContext) : string :=
  sha256 (assignment_preimage "mcloving.cache-assignment/v1" execution_spec_json c).

(** ** Input intents (input_intent.rs) *)

Definition INPUT_CAPABILITY : string := "sealed-input-v1".

Record InputIntentSpec := {
  ii_mapping_id : string;
  ii_mapping_digest : string;
  ii_timeout_seconds : Z
}.

Record InputIntentError := InputErr { input_error : string }.
Definition input_error_display (e : InputIntentError) : string :=
  "invalid bounded input intent or authority: " +:+ input_error e.

Definition input_intent_validate (i : InputIntentSpec) : result InputIntentError () :=
  check (negb (canonical_mapping_id (ii_mapping_id i))) (InputErr "mapping identifier") ;;
  check (negb (sha256_reference (ii_mapping_digest i))) (InputErr "digest") ;;
  check (negb ((1 <=? ii_timeout_seconds i) && (ii_timeout_seconds i <=? 60)))
    (InputErr "timeout").

Definition input_binding_preimage (mapping_id mapping_digest : string) : string :=
  "mcloving.input-binding-capability/v1" +:+ nul +:+ framed mapping_id
  +:+ framed mapping_digest.

Definition input_binding_capability `{External} (mapping_id mapping_digest : string) :
    result InputIntentError string :=
  if negb (canonical_mapping_id mapping_id) || negb (sha256_reference mapping_digest)
  then Err (InputErr "mapping capability identity")
  else Ok ("sealed-input-binding-v1-"
           +:+ hex_of (sha256 (input_binding_preimage mapping_id mapping_digest))).

Definition input_assignment_digest `{External} (execution_spec_json : string)
    (c : CacheWorkContext) : string :=
  sha256 (assignment_preimage "mcloving.input-assignment/v1" execution_spec_json c).

(** [bytes[i] = f(bytes[i])]. *)
Fixpoint update_byte (i : nat) (f : Z -> Z) (s : string) : string :=
  match s, i with
  | EmptyString, _ => EmptyString
  | String c s, O => String (byte_of (f (byte_val c))) s
  | String c s, S i => String c (update_byte i f s)
  end.

(** The 16 bytes of the UUIDv8. *)
Definition input_capture_id `{External} (assignment_digest : string) : string :=
  let digest := sha256 ("mcloving.input-capture-id/v1" +:+ nul +:+ assignment_digest) in
  let bytes := stake 16 digest in
  let bytes := update_byte 6 (fun b => Z.lor (Z.land b 15) 128) bytes in
  update_byte 8 (fun b => Z.lor (Z.land b 63) 128) bytes.

(** ** Checkout steps (source_intent.rs) *)

Definition SOURCE_CAPABILITY : string := "sealed-source-v1".
Definition MAX_REFERENCE_BYTES : Z := 256.
Definition MAX_DESTINATION_BYTES : Z := 64.
Definition MAX_CHECKOUT_TIMEOUT_SECONDS : Z := 3600.
Definition RESERVED_DESTINATIONS : list string := ["spool"].

Record CheckoutStepSpec := {
  co_mapping_id : string;
  co_mapping_digest : string;
  co_reference : string;
  co_commit : string;
  co_destination : string;
  co_timeout_seconds : Z
}.

Record SourceIntentError := SourceErr { source_error : string }.
Definition source_error_display (e : SourceIntentError) : string :=
  "invalid bounded checkout step or authority: " +:+ source_error e.

Definition source_binding_preimage (mapping_id mapping_digest : string) : string :=
  "mcloving.source-binding-capability/v1" +:+ nul +:+ framed mapping_id
  +:+ framed mapping_digest.

Definition source_binding_capability `{External} (mapping_id mapping_digest : string) :
    result SourceIntentError string :=
  if negb (canonical_mapping_id mapping_id) || negb (sha256_reference mapping_digest)
  then Err (SourceErr "mapping capability identity")
  else Ok ("sealed-source-binding-v1-"
           +:+ hex_of (sha256 (source_binding_preimage mapping_id mapping_digest))).

(** [byte <= b' ' || byte == 0x7f || ..contains(&byte)]. *)
Definition is_reference_forbidden (b : ascii) : bool :=
  (byte_val b <=? 32) || (byte_val b =? 127)
  || one_of ["~"; "^"; ":"; "?"; "*"; "["; backslash]%char b.

Definition is_valid_reference (reference : string) : bool :=
  starts_with "refs/" reference
  && (slen reference <=? MAX_REFERENCE_BYTES)
  && negb (ends_with "/" reference)
  && negb (ends_with "." reference)
  && negb (ends_with ".lock" reference)
  && negb (contains_str ".." reference)
  && negb (contains_str "@{" reference)
  && negb (contains_str "//" reference)
  && negb (any_bytes is_reference_forbidden reference).

Definition is_object_id (value : string) : bool :=
  ((slen value =? 40) || (slen value =? 64)) && all_bytes is_lower_hex value.

Definition is_valid_destination (value : string) : bool :=
  negb (is_empty value)
  && (slen value <=? MAX_DESTINATION_BYTES)
  && negb (starts_with "." value)
  && all_bytes is_mapping_byte value
  && negb (existsb (String.eqb value) RESERVED_DESTINATIONS).

Definition checkout_validate (c : CheckoutStepSpec) : result SourceIntentError () :=
  check (negb (canonical_mapping_id (co_mapping_id c))) (SourceErr "mapping identifier") ;;
  check (negb (sha256_reference (co_mapping_digest c))) (SourceErr "digest") ;;
  check (negb (is_valid_reference (co_reference c))) (SourceErr "reference") ;;
  check (negb (is_object_id (co_commit c))) (SourceErr "commit") ;;
  check (negb (is_valid_destination (co_destination c))) (SourceErr "destination") ;;
  check (negb ((1 <=? co_timeout_seconds c)
               && (co_timeout_seconds c <=? MAX_CHECKOUT_TIMEOUT_SECONDS)))
    (SourceErr "timeout").

(** ** Notification targets (notifications.rs) *)

Definition MAX_NOTIFY_TARGETS : Z := 8.
Definition MAX_STATUS_CONTEXT_BYTES : Z := 255.
Definition DEFAULT_STATUS_CONTEXT : string := "mcloving".
Definition MAX_DELIVERY_ATTEMPTS : Z := 12.
Definition MAX_RECONCILIATION_ATTEMPTS : Z := 12.

Inductive NotifyTarget : Type :=
| GithubStatus (mapping_id commit context : string) (repository : option string)
| Webhook (mapping_id : string).

#[export] Instance NotifyTarget_eq_dec : EqDecision NotifyTarget.
Proof. solve_decision. Defined.

Record NotifyTargetError := NotifyErr { notify_error : string }.
Definition notify_error_display (e : NotifyTargetError) : string :=
  "invalid notification target: " +:+ notify_error e.

Definition notify_mapping_id (t : NotifyTarget) : string :=
  match t with GithubStatus m _ _ _ | Webhook m => m end.

Definition notify_kind (t : NotifyTarget) : string :=
  match t with GithubStatus _ _ _ _ => "github_status" | Webhook _ => "webhook" end.

Definition is_commit_id (value : string) : bool :=
  (7 <=? slen value) && (slen value <=? 128) && all_bytes is_lower_hex value.

Definition is_status_context (value : string) : bool :=
  negb (is_empty value) && (slen value <=? MAX_STATUS_CONTEXT_BYTES)
  && String.eqb (trim value) value && all_bytes (in_range 32 126) value.

Definition is_repository_part (part : string) : bool :=
  (1 <=? slen part) && (slen part <=? 100) && negb (starts_with "." part)
  && all_bytes (fun b => is_ascii_alphanumeric b || one_of ["."; "_"; "-"]%char b) part.

Definition is_repository_identity (value : string) : bool :=
  match split_once "/" value with
  | None => false
  | Some (owner, name) => forallb is_repository_part [owner; name]
  end.

Definition notify_validate (t : NotifyTarget) : result NotifyTargetError () :=
  check (negb (canonical_mapping_id (notify_mapping_id t))) (NotifyErr "mapping identifier") ;;
  match t with
  | GithubStatus _ commit context repository =>
      check (negb (is_commit_id commit))
        (NotifyErr "commit must be 7 to 128 lowercase hexadecimal digits") ;;
      check (negb (is_status_context context))
        (NotifyErr "context must be 1 to 255 printable ASCII characters without leading or trailing whitespace") ;;
      match repository with
      | Some repository =>
          check (negb (is_repository_identity repository))
            (NotifyErr "repository must be owner/name")
      | None => Ok tt
      end
  | Webhook _ => Ok tt
  end.

Definition validate_targets (targets : list NotifyTarget) : result NotifyTargetError () :=
  check (MAX_NOTIFY_TARGETS <? llen targets) (NotifyErr "too many notification targets") ;;
  try_for notify_validate targets.

(** ** Lemmas *)

Definition u64_len (s : string) : Prop := slen s < 2 ^ 64.

Lemma unique_framed : unique_code u64_len framed.
Proof.
  intros x y s t Hx Hy H. unfold framed in H. rewrite !sapp_assoc in H.
  pose proof (slen_nonneg x). pose proof (slen_nonneg y). unfold u64_len in *.
  apply (unique_be_bytes 8) in H as [El H]; [|change (256 ^ Z.of_nat 8) with (2 ^ 64); lia..].
  apply sapp_inj_length in H; [done|]. unfold slen in El. lia.
Qed.

Definition sha256_collision `{External} : Prop :=
  exists m1 m2, m1 <> m2 /\ sha256 m1 = sha256 m2.

Lemma sha256_eq_or_collision `{External} m1 m2 :
  sha256 m1 = sha256 m2 -> m1 = m2 \/ sha256_collision.
Proof. intros E. destruct (decide (m1 = m2)); [by left|]. right. by exists m1, m2. Qed.

(** The fields fit the [u64] length prefixes and the fence is a [u64]. *)
Definition assignment_wf (spec : string) (c : CacheWorkContext) : Prop :=
  Forall u64_len [organization_id c; project_id c; pipeline_id c; build_id c; node_id c;
    attempt_id c; spec] /\ in_u64 (fence_token c) = true.

Lemma assignment_preimage_inj tag s1 c1 s2 c2 :
  assignment_wf s1 c1 -> assignment_wf s2 c2 ->
  assignment_preimage tag s1 c1 = assignment_preimage tag s2 c2 -> s1 = s2 /\ c1 = c2.
Proof.
  intros [F1 U1] [F2 U2] E. unfold assignment_preimage in E.
  rewrite !Forall_cons in F1, F2. destruct_and!.
  apply sapp_inj_length in E as [_ E]; [|done].
  apply sapp_inj_length in E as [_ E]; [|done].
  repeat (apply unique_framed in E as [? E]; [|done..]).
  unfold in_u64, u64_max in *. bool_prop.
  apply (be_bytes_inj 8) in E; [|change (256 ^ Z.of_nat 8) with (2 ^ 64); lia..].
  destruct c1, c2; simpl in *; subst. done.
Qed.

Lemma hex_lower_inj x y :
  0 <= x < 16 -> 0 <= y < 16 -> hex_lower x = hex_lower y -> x = y.
Proof.
  unfold hex_lower. intros Hx Hy E.
  apply (f_equal N_of_ascii) in E. destruct (Z.ltb_spec x 10), (Z.ltb_spec y 10);
    rewrite !N_ascii_embedding in E by lia; lia.
Qed.

Lemma hex_of_inj a b : hex_of a = hex_of b -> a = b.
Proof.
  revert b. induction a as [|x a IH]; intros [|y b]; simpl; try done.
  intros [= E1 E2 E]. pose proof (byte_val_range x). pose proof (byte_val_range y).
  apply hex_lower_inj in E1; [|split; [apply Z.div_pos|apply Z.div_lt_upper_bound]; lia..].
  apply hex_lower_inj in E2; [|apply Z.mod_pos_bound; lia..].
  f_equal; [|by apply IH]. apply byte_val_inj.
  rewrite (Z.div_mod (byte_val x) 16), (Z.div_mod (byte_val y) 16); lia.
Qed.

Lemma canonical_mapping_id_u64 s : canonical_mapping_id s = true -> u64_len s.
Proof. unfold canonical_mapping_id, u64_len. intros; bool_prop. lia. Qed.

Lemma sha256_reference_u64 s : sha256_reference s = true -> u64_len s.
Proof.
  unfold sha256_reference, canonical_sha256, u64_len.
  destruct (strip_prefix "sha256:" s) as [hex|] eqn:E; [|done].
  apply strip_prefix_Some in E as ->. intros; bool_prop. rewrite slen_app.
  change (slen "sha256:") with 7. lia.
Qed.

Lemma split_char_ne c s : split_char c s <> [].
Proof. destruct s as [|a s]; simpl; [done|]. by repeat case_match. Qed.

Lemma split_char_none c s : contains_char c s = false -> split_char c s = [s].
Proof.
  unfold contains_char, any_bytes. rewrite negb_false_iff.
  induction s as [|a s IH]; simpl; [done|]. intros [Ha Hs]%andb_true_iff.
  rewrite negb_true_iff, Ascii.eqb_neq in Ha.
  rewrite (proj2 (Ascii.eqb_neq _ _)) by congruence. by rewrite IH.
Qed.

Lemma contains_char_false c f s :
  f c = false -> all_bytes f s = true -> contains_char c s = false.
Proof.
  intros Hc Hs. unfold contains_char, any_bytes. rewrite negb_false_iff.
  eapply all_bytes_impl; [|exact Hs]. intros d Hd. rewrite negb_true_iff, Ascii.eqb_neq.
  congruence.
Qed.

Lemma split_once_spec c s :
  match split_once c s with
  | Some (l, r) => s = l +:+ String c r /\ contains_char c l = false
  | None => contains_char c s = false
  end.
Proof.
  unfold contains_char, any_bytes. induction s as [|a s IH]; simpl; [done|].
  destruct (Ascii.eqb_spec a c) as [->|Hne]; [done|].
  assert (Ascii.eqb c a = false) as E by (apply Ascii.eqb_neq; congruence).
  destruct (split_once c s) as [[l r]|]; simpl; rewrite E; simpl; [|done].
  destruct IH as [-> ?]. done.
Qed.

Lemma path_like_no_colon s : path_like s = true -> contains_char ":" s = false.
Proof. unfold path_like. intros; bool_prop. eapply contains_char_false; [|eassumption]. done. Qed.

Lemma check_platform_token_ok capability :
  check_platform_token capability = Ok tt <->
  forall platform, capability = platform_capability platform -> platform ∈ SUPPORTED_PLATFORMS.
Proof.
  unfold check_platform_token, platform_capability.
  destruct (strip_prefix PLATFORM_CAPABILITY_PREFIX capability) as [p|] eqn:E.
  - apply strip_prefix_Some in E as ->. rewrite check_ok, negb_false_iff.
    unfold is_supported_platform. rewrite existsb_eqb. split; [|by auto].
    intros Hp q Hq. by apply sapp_inj_length in Hq as [_ ->].
  - split; [|done]. intros _ p ->. by rewrite strip_prefix_app in E.
Qed.

(** ** Properties *)

(** Assignment digests bind the assignment: two equal digests come from the
    same execution payload and the same work context (build, node, attempt and
    fence included), and a cache digest never equals an input digest, unless
    SHA-256 itself collides. *)
Theorem assignment_digest_binds `{External} s1 c1 s2 c2 :
  assignment_wf s1 c1 -> assignment_wf s2 c2 ->
  (cache_assignment_digest s1 c1 = cache_assignment_digest s2 c2 ->
     (s1 = s2 /\ c1 = c2) \/ sha256_collision) /\
  (input_assignment_digest s1 c1 = input_assignment_digest s2 c2 ->
     (s1 = s2 /\ c1 = c2) \/ sha256_collision) /\
  (cache_assignment_digest s1 c1 = input_assignment_digest s2 c2 -> sha256_collision).
Proof.
  intros W1 W2. repeat split; intros [E|?]%sha256_eq_or_collision; auto.
  - left. by eapply assignment_preimage_inj.
  - left. by eapply assignment_preimage_inj.
  - discriminate E.
Qed.

(** The stand-in for the third-party crates used by the examples: hashing and
    Base64 are the identity, UUID text is the text itself. *)
#[local] Instance example_external : External := {|
  sha256 m := m; b64_encode m := m; b64_decode m := Some m;
  uuid_parse s := if Nat.eqb (String.length s) 16 then Some s else None;
  uuid_to_string u := u |}.

Definition example_context : CacheWorkContext :=
  Build_CacheWorkContext "org" "project" "pipeline" "build" "node" "attempt" 3.

Lemma assignment_digest_binds_witness :
  ("{}" = "{}" /\ example_context = example_context) \/ sha256_collision.
Proof.
  assert (assignment_wf "{}" example_context) as W.
  { split; [|reflexivity]. repeat constructor. }
  destruct (assignment_digest_binds "{}" example_context "{}" example_context W W) as (B & _).
  apply B. vm_compute. reflexivity.
Defined.

(** Binding capability tokens are exact: a token an agent advertises for one
    deployment binding is the token of no other binding of the same kind, and
    the three kinds never share a token, unless SHA-256 itself collides. *)
Theorem binding_capability_exact `{External} m1 d1 o1 m2 d2 o2 t :
  cache_binding_capability m1 d1 o1 = Ok t ->
  (cache_binding_capability m2 d2 o2 = Ok t ->
     (m1 = m2 /\ d1 = d2 /\ o1 = o2) \/ sha256_collision) /\
  input_binding_capability m2 d2 <> Ok t /\
  source_binding_capability m2 d2 <> Ok t.
Proof.
  unfold cache_binding_capability, input_binding_capability, source_binding_capability.
  destruct (negb (canonical_mapping_id m1) || _) eqn:Hb1; [done|]. intros [= <-].
  apply orb_false_iff in Hb1 as [Hm1%negb_false_iff Hd1%negb_false_iff]. repeat split.
  - destruct (negb (canonical_mapping_id m2) || _) eqn:Hb2; [done|]. intros [= E].
    apply orb_false_iff in Hb2 as [Hm2%negb_false_iff Hd2%negb_false_iff].
    apply hex_of_inj in E. destruct (sha256_eq_or_collision _ _ E) as [P|?]; [left|by right].
    unfold cache_binding_preimage in P.
    apply sapp_inj_length in P as [_ P]; [|done]. apply sapp_inj_length in P as [_ P]; [|done].
    apply unique_framed in P as [-> P]; [|by apply canonical_mapping_id_u64..].
    apply unique_framed in P as [-> P]; [|by apply sha256_reference_u64..].
    destruct o1, o2; done.
  - destruct (_ || _); [done|]. intros [= E].
  - destruct (_ || _); [done|]. intros [= E].
Qed.

Definition example_digest : string := "sha256:" +:+ srepeat "a" 64.

Lemma binding_capability_exact_witness :
  input_binding_capability "cache.main" example_digest <>
  Ok ("sealed-cache-binding-v1-" +:+
      hex_of (cache_binding_preimage "cache.main" example_digest CacheRead)).
Proof.
  apply (binding_capability_exact "cache.main" example_digest CacheRead
           "cache.main" example_digest CacheRead).
  vm_compute. reflexivity.
Defined.

(** Only untagged digest references name a container image: an accepted
    reference is [name@sha256:hex] with 64 lowercase hexadecimal digits, the name
    holds no [@] and its last path component holds no colon, so no tag. *)
Theorem digest_pinned_image_untagged reference :
  is_digest_pinned_image reference = true ->
  exists name hex component,
    reference = name +:+ "@sha256:" +:+ hex /\ canonical_sha256 hex = true /\
    contains_char "@" name = false /\
    last (split_char "/" name) = Some component /\ component <> "" /\
    contains_char ":" component = false.
Proof.
  unfold is_digest_pinned_image, image_name_ok.
  destruct (_ || _); [done|]. pose proof (split_once_spec "@" reference) as Hs.
  destruct (split_once "@" reference) as [[name digest]|]; [|done].
  destruct Hs as [-> Hat]. destruct (strip_prefix "sha256:" digest) as [hex|] eqn:Ep; [|done].
  apply strip_prefix_Some in Ep as ->.
  destruct (_ || _) eqn:Eh; [done|]. bool_prop. intros Hn.
  exists name, hex. assert (canonical_sha256 hex = true) as Hhex.
  { apply andb_true_iff. split; [by apply Z.eqb_eq|done]. }
  assert (exists c, last (split_char "/" name) = Some c /\ path_like c = true)
    as (c & Hlast & Hc).
  { destruct (split_char "/" name) as [|first rest] eqn:Es; [done|].
    apply andb_true_iff in Hn as [[Hhost _]%andb_true_iff Hrest].
    destruct rest as [|r rest].
    - exists first. split; [done|]. repeat case_match; simpl in Hhost; congruence.
    - destruct (last (r :: rest)) as [c|] eqn:El; [|by apply last_None in El].
      exists c. split; [done|]. rewrite forallb_forall in Hrest. apply Hrest.
      apply list_elem_of_In. by apply last_Some_elem_of. }
  exists c. repeat split; [done..| |by apply path_like_no_colon].
  intros ->. discriminate Hc.
Qed.

Lemma digest_pinned_image_untagged_witness :
  exists name hex component,
    "registry.local:5000/team/tool@" +:+ example_digest = name +:+ "@sha256:" +:+ hex /\
    canonical_sha256 hex = true /\ contains_char "@" name = false /\
    last (split_char "/" name) = Some component /\ component <> "" /\
    contains_char ":" component = false.
Proof. apply digest_pinned_image_untagged. vm_compute. reflexivity. Defined.

(** A checkout cannot leave its workspace slot: a valid destination is one
    path component under both separators, is none of [.], [..] and the agent's
    own [spool], and holds no control or shell byte. *)
Theorem destination_is_one_component value :
  is_valid_destination value = true ->
  split_char "/" value = [value] /\ split_char backslash value = [value] /\
  value <> "" /\ value <> "." /\ value <> ".." /\ value <> "spool" /\
  all_bytes is_mapping_byte value = true.
Proof.
  unfold is_valid_destination. intros H. bool_prop.
  assert (forall c, is_mapping_byte c = false -> split_char c value = [value]) as Hsplit.
  { intros c Hc. apply split_char_none. by eapply contains_char_false. }
  repeat split; [by apply Hsplit|by apply Hsplit|..|done]; by intros ->.
Qed.

Lemma destination_is_one_component_witness :
  split_char "/" "src-main" = ["src-main"] /\ split_char backslash "src-main" = ["src-main"] /\
  "src-main" <> "" /\ "src-main" <> "." /\ "src-main" <> ".." /\ "src-main" <> "spool" /\
  all_bytes is_mapping_byte "src-main" = true.
Proof. apply destination_is_one_component. reflexivity. Defined.

(** The embedded worker starts only on a declaration that can claim work: it
    schedules exactly the nonempty lists without the disable sentinel in which
    every [platform:] token names a supported platform and at least one does. *)
Theorem embedded_worker_schedulable declared :
  classify_embedded_worker_capabilities declared = Ok (Schedulable declared) <->
  EMBEDDED_WORKER_DISABLED_SENTINEL ∉ declared /\
  (forall platform, platform_capability platform ∈ declared -> platform ∈ SUPPORTED_PLATFORMS) /\
  (exists platform, platform ∈ SUPPORTED_PLATFORMS /\ platform_capability platform ∈ declared).
Proof.
  unfold classify_embedded_worker_capabilities.
  rewrite <- existsb_eqb_false.
  assert ((exists p, p ∈ SUPPORTED_PLATFORMS /\ platform_capability p ∈ declared) <->
    existsb (fun p => existsb (String.eqb (platform_capability p)) declared)
      SUPPORTED_PLATFORMS = true) as ->.
  { rewrite existsb_exists. setoid_rewrite existsb_eqb. setoid_rewrite list_elem_of_In.
    done. }
  assert ((forall p, platform_capability p ∈ declared -> p ∈ SUPPORTED_PLATFORMS) <->
    try_for check_platform_token declared = Ok tt) as ->.
  { rewrite try_for_ok, Forall_forall. setoid_rewrite check_platform_token_ok. naive_solver. }
  destruct declared as [|d ds]; [simpl; naive_solver|].
  rewrite llen_cons. pose proof (llen_nonneg ds).
  rewrite (proj2 (Z.eqb_neq _ _)) by lia.
  destruct (existsb (String.eqb EMBEDDED_WORKER_DISABLED_SENTINEL) (d :: ds)).
  { case_match; naive_solver. }
  destruct (try_for check_platform_token (d :: ds)) as [[]|]; simpl; [|naive_solver].
  case_match; naive_solver.
Qed.
