(* ===== verification/Artifacts.v ===== *)
(** * Declared artifacts (crates/domain/src/artifacts.rs)

    Artifact declarations and their validation, the compiled glob patterns with
    the dynamic-programming matcher and its work budget, and the immutable set
    manifest with its digest.  The matcher is related to a direct definition of
    the pattern dialect ([glob] within a segment, [glob_path] across segments). *)

From stdpp Require Import base gmap list strings sorting.
From Stdlib Require Import Ascii ZArith Lia.
From S2P Require Import Prelude Text Bytes Domain.

Open Scope Z_scope.

(** ** Bounds *)

Definition MAX_ARTIFACTS_PER_STAGE : Z := 16.
Definition MAX_ARTIFACT_PATTERNS : Z := 32.
Definition MAX_ARTIFACT_NAME_BYTES : Z := 128.
Definition MAX_ARTIFACT_PATTERN_BYTES : Z := 512.
Definition MAX_ARTIFACT_OBJECT_NAME_BYTES : Z := 512.
Definition MAX_ARTIFACT_FILES_PER_ATTEMPT : Z := 1024.
Definition MAX_ATTEMPT_ARTIFACT_BYTES : Z := 256 * 1048576.
Definition ARTIFACT_MEDIA_TYPE : string := "application/octet-stream".
Definition ARTIFACT_UPLOAD_SECONDS_PER_MIB : Z := 1.
Definition ARTIFACT_UPLOAD_BASE_SECONDS : Z := 30.
Definition MAX_ARTIFACT_UPLOAD_SECONDS : Z := 15 * 60.
Definition ARTIFACT_COMMIT_HEADROOM_SECONDS : Z := 60.
Definition ARTIFACT_RESPONSE_MARGIN_SECONDS : Z := 5.

(** [u64::div_ceil], saturating arithmetic at [u64::MAX]. *)
Definition div_ceil (a b : Z) : Z := (a + b - 1) / b.

Definition artifact_upload_seconds (bytes : Z) : Z :=
  Z.min
    (sat_add ARTIFACT_UPLOAD_BASE_SECONDS
      (sat_mul (div_ceil bytes 1048576) ARTIFACT_UPLOAD_SECONDS_PER_MIB))
    MAX_ARTIFACT_UPLOAD_SECONDS.
Definition artifact_server_seconds (bytes : Z) : Z :=
  artifact_upload_seconds bytes + ARTIFACT_UPLOAD_BASE_SECONDS
  + ARTIFACT_COMMIT_HEADROOM_SECONDS.
Definition artifact_client_seconds (bytes : Z) : Z :=
  artifact_server_seconds bytes + ARTIFACT_RESPONSE_MARGIN_SECONDS.

(** ** Declarations *)

Record ArtifactSpec := { as_name : string; as_paths : list string }.

Record ArtifactSpecError := ArtifactErr { artifact_error : string }.
Definition artifact_error_display (e : ArtifactSpecError) : string :=
  "invalid artifact declaration: " +:+ artifact_error e.

Definition is_name_byte (b : ascii) : bool :=
  is_ascii_alphanumeric b || one_of ["."; "_"; "-"]%char b.

Definition validate_name (name : string) : result ArtifactSpecError () :=
  check (is_empty name || (MAX_ARTIFACT_NAME_BYTES <? slen name))
    (ArtifactErr "artifact name must be 1 to 128 bytes") ;;
  check (starts_with "." name) (ArtifactErr "artifact name must not start with a dot") ;;
  check (negb (all_bytes is_name_byte name))
    (ArtifactErr "artifact name must contain only ASCII letters, digits, dot, underscore, or hyphen").

(** The body of the loop over the segments of a pattern. *)
Definition validate_segment (segment : string) : result ArtifactSpecError () :=
  check (is_empty segment) (ArtifactErr "path pattern has an empty segment") ;;
  check (String.eqb segment "." || String.eqb segment "..")
    (ArtifactErr "path pattern must not name . or ..") ;;
  check (contains_str "**" segment && negb (String.eqb segment "**"))
    (ArtifactErr "** must stand alone as a whole path segment").

Definition validate_pattern (pattern : string) : result ArtifactSpecError () :=
  check (is_empty pattern || (MAX_ARTIFACT_PATTERN_BYTES <? slen pattern))
    (ArtifactErr "path pattern must be 1 to 512 bytes") ;;
  check (any_bytes is_ascii_control pattern)
    (ArtifactErr "path pattern contains a control character") ;;
  check (contains_char backslash pattern)
    (ArtifactErr "path pattern must use forward slashes") ;;
  check (starts_with "/" pattern)
    (ArtifactErr "path pattern must be workspace-relative") ;;
  try_for validate_segment (split_char "/" pattern).

Definition artifact_spec_validate (s : ArtifactSpec) : result ArtifactSpecError () :=
  validate_name (as_name s) ;;
  check (llen (as_paths s) =? 0) (ArtifactErr "at least one path pattern is required") ;;
  check (MAX_ARTIFACT_PATTERNS <? llen (as_paths s)) (ArtifactErr "too many path patterns") ;;
  try_for validate_pattern (as_paths s).

(** [specs[..index].iter().any(..)] is [take index specs]. *)
Definition validate_declarations (specs : list ArtifactSpec) : result ArtifactSpecError () :=
  check (MAX_ARTIFACTS_PER_STAGE <? llen specs)
    (ArtifactErr "too many artifact declarations") ;;
  try_for_enum 0
    (fun index spec =>
      artifact_spec_validate spec ;;
      check (existsb (fun other => String.eqb (as_name other) (as_name spec)) (take index specs))
        (ArtifactErr "artifact names must be unique within a stage"))
    specs.

(** ** Compiled patterns *)

Inductive Segment : Type :=
| Recursive
| SLiteral (p : list string).

Record MatchingBudget := { remaining : Z; spent : Z }.

Definition budget_new (cells : Z) : MatchingBudget := {| remaining := cells; spent := 0 |}.

(** A matching step ends in a value or, as [Spent], in [Err(MatchingBudgetSpent)];
    [Stuck] is a loop of the model out of fuel. *)
Inductive match_fault : Type := Spent | Stuck.

(** [MatchingBudget::charge]; [spent + remaining] is constant, so the [u64]
    addition does not overflow. *)
Definition charge (b : MatchingBudget) : result match_fault MatchingBudget :=
  if remaining b =? 0 then Err Spent
  else Ok {| remaining := remaining b - 1; spent := spent b + 1 |}.

(** [CompiledPattern::new]: adjacent [**] segments collapse; [last] is
    [segments.last()] being [Recursive]. *)
Fixpoint compile_segments (last_recursive : bool) (segments : list string) : list Segment :=
  match segments with
  | [] => []
  | s :: segments =>
      if String.eqb s "**" then
        if last_recursive then compile_segments true segments
        else Recursive :: compile_segments true segments
      else SLiteral (chars s) :: compile_segments false segments
  end.

Definition compile_pattern (pattern : string) : list Segment :=
  compile_segments false (split_char "/" pattern).

(** [for c in name.chars() { budget.charge()?; chars.push(c) }]. *)
Fixpoint charge_each {A} (l : list A) (b : MatchingBudget) : result match_fault MatchingBudget :=
  match l with
  | [] => Ok b
  | _ :: l => b ← charge b; charge_each l b
  end.

Definition char_at (l : list string) (i : nat) (c : string) : bool :=
  match l !! i with Some d => String.eqb d c | None => false end.

(** [p < pattern.len() && (pattern[p] == '?' || pattern[p] == name[n])]. *)
Definition char_matches (pattern name : list string) (p n : nat) : bool :=
  match pattern !! p, name !! n with
  | Some pc, Some nc => String.eqb pc "?" || String.eqb pc nc
  | _, _ => false
  end.

(** The first [while] of [segment_matches_compiled]: backtracking to the last
    star.  The result is [Some p] when the name is consumed and [None] for the
    early [return Ok(false)]. *)
Fixpoint wildcard_loop (fuel : nat) (pattern name : list string) (p n : nat)
    (star : option (nat * nat)) (b : MatchingBudget) :
    result match_fault (option nat * MatchingBudget) :=
  match fuel with
  | O => Err Stuck
  | S fuel =>
      if (n <? length name)%nat then
        b ← charge b;
        if char_matches pattern name p n then
          wildcard_loop fuel pattern name (S p) (S n) star b
        else if char_at pattern p "*" then
          wildcard_loop fuel pattern name (S p) n (Some (p, n)) b
        else match star with
        | Some (sp, sn) =>
            wildcard_loop fuel pattern name (S sp) (S sn) (Some (sp, S sn)) b
        | None => Ok (None, b)
        end
      else Ok (Some p, b)
  end.

(** The second [while]: skip trailing stars; the argument is [pattern[p..]]. *)
Fixpoint skip_stars (rest : list string) (b : MatchingBudget) :
    result match_fault (bool * MatchingBudget) :=
  match rest with
  | [] => Ok (true, b)
  | c :: rest =>
      if String.eqb c "*" then b ← charge b; skip_stars rest b
      else Ok (false, b)
  end.

(** Between two returns to a star the pattern index only grows, and every return
    moves the star on by one character of the name. *)
Definition wildcard_fuel (pattern name : list string) : nat :=
  (length name + 2) * (length pattern + 2).

Definition segment_matches_compiled (pattern : list string) (name : string)
    (b : MatchingBudget) : result match_fault (bool * MatchingBudget) :=
  let cs := chars name in
  b ← charge_each cs b;
  '(stop, b) ← wildcard_loop (wildcard_fuel pattern cs) pattern cs 0 0 None b;
  match stop with
  | None => Ok (false, b)
  | Some p => skip_stars (drop p pattern) b
  end.

(** The first loop of [evaluate]: the row past the last segment. *)
Fixpoint base_row (descent : bool) (count : nat) (b : MatchingBudget) (row : list bool) :
    result match_fault (list bool * MatchingBudget) :=
  match count with
  | O => Ok (row, b)
  | S count =>
      b ← charge b;
      base_row descent count b (row ++ [negb descent && Nat.eqb count 0])
  end.

(** [row[j]] of the inner loop; [row_next] is [row[j + 1]]. *)
Definition cell (segment : Segment) (path : list string) (descent : bool) (next : list bool)
    (j : nat) (row_next : bool) (b : MatchingBudget) :
    result match_fault (bool * MatchingBudget) :=
  let n := length path in
  if descent && Nat.eqb j n then Ok (true, b)
  else match segment with
  | Recursive => Ok (nth j next false || ((j <? n)%nat && row_next), b)
  | SLiteral p =>
      if (j <? n)%nat && nth (S j) next false
      then segment_matches_compiled p (nth j path "") b
      else Ok (false, b)
  end.

(** [for j in (0..=n).rev()]: [j] counts down, [row] holds the cells after [j]. *)
Fixpoint fill_row (segment : Segment) (path : list string) (descent : bool) (next : list bool)
    (j : nat) (row : list bool) (b : MatchingBudget) :
    result match_fault (list bool * MatchingBudget) :=
  match j with
  | O => Ok (row, b)
  | S j =>
      b ← charge b;
      '(c, b) ← cell segment path descent next j (match row with c :: _ => c | [] => false end) b;
      fill_row segment path descent next j (c :: row) b
  end.

(** [for segment in self.segments.iter().rev()]. *)
Fixpoint fill_rows (segments : list Segment) (path : list string) (descent : bool)
    (next : list bool) (b : MatchingBudget) : result match_fault (list bool * MatchingBudget) :=
  match segments with
  | [] => Ok (next, b)
  | segment :: segments =>
      '(next, b) ← fill_row segment path descent next (S (length path)) [] b;
      fill_rows segments path descent next b
  end.

Definition evaluate_pattern (segments : list Segment) (path : list string) (descent : bool)
    (b : MatchingBudget) : result match_fault (bool * MatchingBudget) :=
  '(next, b) ← base_row descent (S (length path)) b [];
  '(next, b) ← fill_rows (rev segments) path descent next b;
  Ok (nth 0 next false, b).

Definition unwrap_or_false (r : result match_fault (bool * MatchingBudget)) : bool :=
  match r with Ok (v, _) => v | Err _ => false end.

Definition pattern_matches (pattern path : string) : bool :=
  unwrap_or_false
    (evaluate_pattern (compile_pattern pattern) (split_char "/" path) false
      (budget_new u64_max)).

Definition pattern_may_descend (pattern path : string) : bool :=
  unwrap_or_false
    (evaluate_pattern (compile_pattern pattern) (split_char "/" path) true
      (budget_new u64_max)).

Definition artifact_spec_matches (s : ArtifactSpec) (path : string) : bool :=
  existsb (fun pattern => pattern_matches pattern path) (as_paths s).

(** ** Classification of a path against a stage's declarations *)

Definition CompiledArtifacts : Type := list (string * list (list Segment)).

Definition compile_artifacts (specs : list ArtifactSpec) : CompiledArtifacts :=
  (fun s => (as_name s, compile_pattern <$> as_paths s)) <$> specs.

(** The inner loop of [classify]: state is [(matched, descends, budget)]. *)
Definition classify_pattern (segments : list string) (st : bool * bool * MatchingBudget)
    (pattern : list Segment) : result match_fault (bool * bool * MatchingBudget) :=
  let '(matched, descends, b) := st in
  '(matched, b) ← (if negb matched then evaluate_pattern pattern segments false b
                   else Ok (matched, b));
  '(descends, b) ← (if negb descends then evaluate_pattern pattern segments true b
                    else Ok (descends, b));
  Ok (matched, descends, b).

Definition classify_declaration (segments : list string)
    (st : list string * bool * MatchingBudget) (d : string * list (list Segment)) :
    result match_fault (list string * bool * MatchingBudget) :=
  let '(names, descends, b) := st in
  '(matched, descends, b) ← try_fold (classify_pattern segments) (false, descends, b) (snd d);
  Ok (if matched : bool then names ++ [fst d] else names, descends, b).

Definition classify (c : CompiledArtifacts) (path : string) (b : MatchingBudget) :
    result match_fault (list string * bool * MatchingBudget) :=
  try_fold (classify_declaration (split_char "/" path)) ([], false, b) c.

(** ** Set manifests *)

Record ArtifactManifestMember := {
  am_name : string;
  am_bytes : Z;
  am_media_type : string
}.

#[export] Instance ArtifactManifestMember_eq_dec : EqDecision ArtifactManifestMember.
Proof. solve_decision. Defined.

(** The loop of [validate_manifest]: the total so far and the names seen. *)
Definition manifest_step (st : Z * list string) (m : ArtifactManifestMember) :
    result ArtifactSpecError (Z * list string) :=
  let '(total, names) := st in
  check (is_empty (am_name m)
         || (MAX_ARTIFACT_OBJECT_NAME_BYTES <? slen (am_name m))
         || existsb char_is_control (chars (am_name m))
         || negb (String.eqb (am_media_type m) ARTIFACT_MEDIA_TYPE)
         || existsb (String.eqb (am_name m)) names)
    (ArtifactErr "invalid or duplicate artifact member") ;;
  total ← ok_or (checked_add_usize total (am_bytes m)) (ArtifactErr "artifact bytes overflow");
  check (MAX_ATTEMPT_ARTIFACT_BYTES <? total) (ArtifactErr "artifact byte quota") ;;
  Ok (total, am_name m :: names).

Definition validate_manifest (members : list ArtifactManifestMember) :
    result ArtifactSpecError Z :=
  check (MAX_ARTIFACT_FILES_PER_ATTEMPT <? llen members)
    (ArtifactErr "too many artifact members") ;;
  '(total, _) ← try_fold manifest_step (0, []) members;
  Ok total.

(** [sort_by(|a, b| a.name.cmp(&b.name))]: stable, here by insertion. *)
Fixpoint insert_by_name (m : ArtifactManifestMember) (l : list ArtifactManifestMember) :
    list ArtifactManifestMember :=
  match l with
  | [] => [m]
  | x :: l' => if str_ltb (am_name x) (am_name m) then x :: insert_by_name m l' else m :: l
  end.
Definition sort_by_name (l : list ArtifactManifestMember) : list ArtifactManifestMember :=
  foldr insert_by_name [] l.

Definition member_bytes (m : ArtifactManifestMember) : string :=
  framed (am_name m) +:+ framed (am_media_type m) +:+ be_bytes 8 (am_bytes m).

Definition artifact_manifest_preimage (members : list ArtifactManifestMember) : string :=
  "mcloving.artifact-set.v2" +:+ nul +:+ enc_all member_bytes (sort_by_name members).

Definition artifact_manifest_digest `{External} (members : list ArtifactManifestMember) :
    string :=
  sha256 (artifact_manifest_preimage members).

(** ** Lemmas on declarations and manifests *)

#[local] Arguments manifest_step : simpl never.

Lemma manifest_fold_ok members total names total' names' :
  try_fold manifest_step (total, names) members = Ok (total', names') ->
  NoDup (am_name <$> members) /\
  Forall (fun m => am_name m ∉ names) members /\
  Forall (fun m => am_name m <> "" /\ slen (am_name m) <= MAX_ARTIFACT_OBJECT_NAME_BYTES /\
    am_media_type m = ARTIFACT_MEDIA_TYPE) members /\
  total' = total + foldr (fun m s => am_bytes m + s) 0 members /\
  (total <= MAX_ATTEMPT_ARTIFACT_BYTES -> total' <= MAX_ATTEMPT_ARTIFACT_BYTES).
Proof.
  revert total names. induction members as [|m ms IH]; intros total names; simpl.
  { intros [= <- <-]. split_and!; [constructor..|lia|auto]. }
  destruct (manifest_step (total, names) m) as [[t ns]|] eqn:E; simpl; [|discriminate].
  intros (Hnd & Hnot & Hall & Ht & Hq)%IH. unfold manifest_step in E. inv_ok. bool_prop.
  unfold ok_or, checked_add_usize in Hr0. inv_ok. repeat (case_match; simplify_eq/=).
  split_and!.
  - constructor; [|done]. intros (x & Hx & Hin)%list_elem_of_fmap.
    rewrite Forall_forall in Hnot. apply (Hnot x Hin). rewrite <- Hx. left.
  - constructor; [by apply existsb_eqb_false|]. eapply Forall_impl; [exact Hnot|]. set_solver.
  - constructor; [|done]. repeat split; [|done..]. intros E0. by rewrite E0 in *.
  - lia.
  - intros _. apply Hq. done.
Qed.

Lemma insert_by_name_perm m l : insert_by_name m l ≡ₚ m :: l.
Proof.
  induction l as [|x l IH]; simpl; [done|]. case_match; [|done].
  rewrite IH. by rewrite Permutation_swap.
Qed.

Lemma sort_by_name_perm l : sort_by_name l ≡ₚ l.
Proof. induction l as [|m l IH]; simpl; [done|]. by rewrite insert_by_name_perm, IH. Qed.

Definition name_le (a b : ArtifactManifestMember) : Prop :=
  str_ltb (am_name b) (am_name a) = false.

Lemma name_le_lt a b : str_ltb (am_name a) (am_name b) = true -> name_le a b.
Proof.
  intros H. unfold name_le. destruct (str_ltb (am_name b) (am_name a)) eqn:E; [|done].
  pose proof (str_ltb_trans _ _ _ H E) as Hc. by rewrite str_ltb_irrefl in Hc.
Qed.

#[local] Instance name_le_trans : Transitive name_le.
Proof.
  intros a b c Hab Hbc. unfold name_le in *.
  destruct (str_ltb (am_name c) (am_name a)) eqn:E; [|done].
  destruct (str_ltb (am_name a) (am_name b)) eqn:E2.
  - rewrite <- Hbc. symmetry. by eapply str_ltb_trans.
  - rewrite (str_ltb_total _ _ E2 Hab) in E. congruence.
Qed.

Lemma insert_by_name_sorted m l :
  StronglySorted name_le l -> StronglySorted name_le (insert_by_name m l).
Proof.
  induction 1 as [|x l Hl IH Hx]; simpl; [by repeat constructor|].
  destruct (str_ltb (am_name x) (am_name m)) eqn:E.
  - constructor; [done|]. rewrite insert_by_name_perm. constructor; [by apply name_le_lt|done].
  - constructor; [by constructor|]. constructor; [done|].
    eapply Forall_impl; [exact Hx|]. intros y Hy. by transitivity x.
Qed.

Lemma sort_by_name_sorted l : StronglySorted name_le (sort_by_name l).
Proof. induction l; simpl; [constructor|]. by apply insert_by_name_sorted. Qed.

(** With distinct names sorting forgets the order of the members. *)
Lemma sort_by_name_proper l1 l2 :
  NoDup (am_name <$> l1) -> l1 ≡ₚ l2 -> sort_by_name l1 = sort_by_name l2.
Proof.
  intros Hnd Hp. apply (StronglySorted_unique_strong name_le);
    [|apply sort_by_name_sorted..|by rewrite !sort_by_name_perm].
  intros x1 x2 H1 H2 L1 L2. rewrite sort_by_name_perm in H1, H2. rewrite <- Hp in H2.
  pose proof (str_ltb_total _ _ L2 L1) as En.
  apply list_elem_of_lookup in H1 as [i Hi], H2 as [j Hj].
  assert (i = j) as ->; [|congruence].
  eapply (NoDup_lookup _ _ _ (am_name x1) Hnd); rewrite list_lookup_fmap.
  - by rewrite Hi.
  - rewrite Hj. simpl. by rewrite En.
Qed.

Definition member_wf (m : ArtifactManifestMember) : Prop :=
  u64_len (am_name m) /\ u64_len (am_media_type m) /\ in_u64 (am_bytes m) = true.

Lemma unique_member : unique_code member_wf member_bytes.
Proof.
  intros x y s t (Hx1 & Hx2 & Hx3) (Hy1 & Hy2 & Hy3) H. unfold member_bytes in H.
  rewrite !sapp_assoc in H. apply unique_framed in H as [E1 H]; [|done..].
  apply unique_framed in H as [E2 H]; [|done..]. unfold in_u64, u64_max in *. bool_prop.
  apply (unique_be_bytes 8) in H as [E3 ->]; [|change (256 ^ Z.of_nat 8) with (2 ^ 64); lia..].
  split; [|done]. destruct x, y. simpl in *. by subst.
Qed.

Lemma validate_manifest_wf members total :
  validate_manifest members = Ok total -> Forall (fun m => in_u64 (am_bytes m) = true) members ->
  NoDup (am_name <$> members) /\ Forall member_wf members.
Proof.
  unfold validate_manifest. intros ([] & _ & ([t ns] & Hr & _)%bind_ok)%bind_ok Hb.
  apply manifest_fold_ok in Hr as (Hnd & _ & Hall & _). split; [done|].
  rewrite Forall_forall in *. intros m Hm. destruct (Hall m Hm) as (_ & Hn & Hmt).
  split_and!; [unfold u64_len, MAX_ARTIFACT_OBJECT_NAME_BYTES in *; lia| |by apply Hb].
  by rewrite Hmt.
Qed.

(** ** Properties *)

(** The manifest digest identifies the published set: for valid manifests it
    does not depend on the order of the members, and two manifests with one
    digest hold the same members (names, sizes, media types), unless SHA-256
    itself collides. *)
Theorem manifest_digest_exact `{External} m1 m2 t1 t2 :
  validate_manifest m1 = Ok t1 -> validate_manifest m2 = Ok t2 ->
  Forall (fun m => in_u64 (am_bytes m) = true) (m1 ++ m2) ->
  (m1 ≡ₚ m2 -> artifact_manifest_digest m1 = artifact_manifest_digest m2) /\
  (artifact_manifest_digest m1 = artifact_manifest_digest m2 -> m1 ≡ₚ m2 \/ sha256_collision).
Proof.
  intros V1 V2 [B1 B2]%Forall_app.
  apply validate_manifest_wf in V1 as [N1 W1]; [|done].
  apply validate_manifest_wf in V2 as [N2 W2]; [|done]. split.
  - intros Hp. unfold artifact_manifest_digest, artifact_manifest_preimage.
    by rewrite (sort_by_name_proper m1 m2).
  - intros [E|?]%sha256_eq_or_collision; [left|by right].
    unfold artifact_manifest_preimage in E.
    apply sapp_inj_length in E as [_ E]; [|done]. apply sapp_inj_length in E as [_ E]; [|done].
    apply (unique_enc_all_end member_wf) in E.
    + by rewrite <- (sort_by_name_perm m1), E, sort_by_name_perm.
    + apply unique_member.
    + done.
    + by rewrite sort_by_name_perm.
    + by rewrite sort_by_name_perm.
Qed.

Definition example_members : list ArtifactManifestMember :=
  [Build_ArtifactManifestMember "logs/a" 3 ARTIFACT_MEDIA_TYPE;
   Build_ArtifactManifestMember "bin/b" 7 ARTIFACT_MEDIA_TYPE].

Lemma manifest_digest_exact_witness :
  let X := Build_External (fun m => m) (fun m => m) Some Some (fun u => u) in
  artifact_manifest_digest example_members = artifact_manifest_digest (rev example_members).
Proof.
  intros X.
  apply (manifest_digest_exact example_members (rev example_members) 10 10).
  - vm_compute. reflexivity.
  - vm_compute. reflexivity.
  - repeat constructor.
  - apply Permutation_rev.
Defined.

(** A validated manifest respects the attempt quota: it has at most 1024
    members with distinct names, its total is the sum of the members' sizes and
    that sum is within the byte quota, with no overflow on the way. *)
Theorem validate_manifest_quota members total :
  validate_manifest members = Ok total ->
  llen members <= MAX_ARTIFACT_FILES_PER_ATTEMPT /\
  NoDup (am_name <$> members) /\
  total = foldr (fun m s => am_bytes m + s) 0 members /\
  total <= MAX_ATTEMPT_ARTIFACT_BYTES.
Proof.
  unfold validate_manifest.
  intros ([] & Hc%check_ok%Z.ltb_ge & ([t ns] & Hr & [= ->])%bind_ok)%bind_ok.
  apply manifest_fold_ok in Hr as (Hnd & _ & _ & Ht & Hq).
  split_and!; [done|done|lia|]. apply Hq. unfold MAX_ATTEMPT_ARTIFACT_BYTES. lia.
Qed.

Lemma validate_manifest_quota_witness :
  llen example_members <= MAX_ARTIFACT_FILES_PER_ATTEMPT /\
  NoDup (am_name <$> example_members) /\
  10 = foldr (fun m s => am_bytes m + s) 0 example_members /\
  10 <= MAX_ATTEMPT_ARTIFACT_BYTES.
Proof. apply validate_manifest_quota. vm_compute. reflexivity. Defined.
