(* ===== verification/ArtifactMatch.v ===== *)
(** * The artifact matcher implements the pattern dialect

    [glob] and [glob_path] say what a pattern means.  The compiled matcher of
    [Artifacts.v] (backtracking to the last star inside a segment, a table of
    rows across segments, one shared budget) returns exactly that, for names
    without a literal star, whenever the budget covers the work; and descent
    into a directory is allowed exactly when some path below it can match. *)

From stdpp Require Import base gmap list strings.
From Stdlib Require Import Ascii ZArith Lia.
From S2P Require Import Prelude Text Bytes Domain Artifacts.

Open Scope Z_scope.

(** ** The pattern dialect *)

(** [glob p n]: within a segment, [*] matches any run of characters and [?]
    exactly one. *)
Fixpoint glob (p : list string) : list string -> bool :=
  match p with
  | [] => fun n => match n with [] => true | _ => false end
  | c :: p =>
      if String.eqb c "*" then
        fix star (n : list string) : bool :=
          glob p n || match n with [] => false | _ :: n => star n end
      else fun n =>
        match n with
        | [] => false
        | d :: n => (String.eqb c "?" || String.eqb c d) && glob p n
        end
  end.

(** Across segments, [**] matches zero or more whole segments. *)
Fixpoint glob_path (segments : list Segment) : list string -> bool :=
  match segments with
  | [] => fun path => match path with [] => true | _ => false end
  | Recursive :: segments =>
      fix rec (path : list string) : bool :=
        glob_path segments path || match path with [] => false | _ :: path => rec path end
  | SLiteral p :: segments => fun path =>
      match path with
      | [] => false
      | s :: path => glob p (chars s) && glob_path segments path
      end
  end.

(** Whether something below [path] may match. *)
Fixpoint glob_descend (segments : list Segment) : list string -> bool :=
  match segments with
  | [] => fun _ => false
  | Recursive :: segments =>
      fix rec (path : list string) : bool :=
        match path with
        | [] => true
        | _ :: path' => glob_descend segments path || rec path'
        end
  | SLiteral p :: segments => fun path =>
      match path with
      | [] => true
      | s :: path => glob p (chars s) && glob_descend segments path
      end
  end.

(** The segments of a pattern as written, adjacent [**] kept. *)
Definition raw_segments (segments : list string) : list Segment :=
  (fun s => if String.eqb s "**" then Recursive else SLiteral (chars s)) <$> segments.

Definition dialect_matches (pattern path : string) : bool :=
  glob_path (raw_segments (split_char "/" pattern)) (split_char "/" path).

(** Some path strictly below [path] is named by the pattern. *)
Definition matches_below (pattern : string) (path : list string) : Prop :=
  exists below, below <> [] /\
    glob_path (raw_segments (split_char "/" pattern)) (path ++ below) = true.

(** A path component without a literal star. *)
Definition starless (s : string) : Prop := Forall (fun c => c <> "*") (chars s).

(** [costs m k Q]: with a budget of [k] cells [m] yields a value satisfying [Q]
    and spends at most [k]; with less it may also report the budget spent, and
    nothing else can happen. *)
Definition costs {A} (m : MatchingBudget -> result match_fault (A * MatchingBudget)) (k : Z)
    (Q : A -> Prop) : Prop :=
  forall b, 0 <= remaining b ->
  match m b with
  | Ok (a, b') => Q a /\ 0 <= remaining b' /\ remaining b - k <= remaining b' /\
      remaining b' + spent b' = remaining b + spent b
  | Err Spent => remaining b < k
  | Err Stuck => False
  end.

(** ** Lemmas on [costs] *)

Lemma costs_ret {A} (a : A) k (Q : A -> Prop) : 0 <= k -> Q a -> costs (fun b => Ok (a, b)) k Q.
Proof. intros Hk Hq b Hb. simpl. lia || split_and!; (lia || done). Qed.

Lemma costs_bind {A B} (m : MatchingBudget -> result match_fault (A * MatchingBudget))
    (f : A -> MatchingBudget -> result match_fault (B * MatchingBudget)) k1 k2 k P Q :
  costs m k1 P -> (forall a, P a -> costs (f a) k2 Q) -> 0 <= k2 -> k1 + k2 <= k ->
  costs (fun b => '(a, b) ← m b; f a b) k Q.
Proof.
  intros Hm Hf Hk2 Hk b Hb. specialize (Hm b Hb). destruct (m b) as [[a b1]|[]]; simpl; [|lia|done].
  destruct Hm as (Ha & Hb1 & Hle & Hs). specialize (Hf a Ha b1 Hb1).
  destruct (f a b1) as [[c b2]|[]]; [|lia|done]. destruct Hf as (? & ? & ? & ?).
  split_and!; (lia || done).
Qed.

Lemma costs_charge {A} (f : MatchingBudget -> result match_fault (A * MatchingBudget)) k k' Q :
  costs f k Q -> 0 <= k -> k + 1 <= k' -> costs (fun b => b ← charge b; f b) k' Q.
Proof.
  intros Hf Hk Hk' b Hb. unfold charge. destruct (Z.eqb_spec (remaining b) 0); simpl; [lia|].
  specialize (Hf {| remaining := remaining b - 1; spent := spent b + 1 |}). simpl in Hf.
  specialize (Hf ltac:(lia)).
  destruct (f _) as [[a b']|[]]; [|lia|done]. destruct Hf as (? & ? & ? & ?).
  split_and!; (lia || done).
Qed.

Lemma costs_weaken {A} (m : MatchingBudget -> result match_fault (A * MatchingBudget))
    k k' (P Q : A -> Prop) :
  costs m k P -> k <= k' -> (forall a, P a -> Q a) -> costs m k' Q.
Proof.
  intros Hm Hk HPQ b Hb. specialize (Hm b Hb). destruct (m b) as [[a b1]|[]]; [|lia|done].
  destruct Hm as (? & ? & ? & ?). split_and!; [by apply HPQ|lia..].
Qed.

(** ** Lemmas on [glob] *)

Lemma glob_star p n : glob ("*" :: p) n = glob p n || match n with [] => false | _ :: n => glob ("*" :: p) n end.
Proof. by destruct n. Qed.

Lemma glob_star_iff p n : glob ("*" :: p) n = true <-> exists k, glob p (drop k n) = true.
Proof.
  induction n as [|c n IH]; rewrite glob_star.
  - rewrite orb_false_r. split; [intros H; by exists 0%nat|]. intros [k Hk]. by rewrite drop_nil in Hk.
  - rewrite orb_true_iff, IH. split.
    + intros [H|[k Hk]]; [by exists 0%nat|by exists (S k)].
    + intros [[|k] Hk]; [by left|right; by exists k].
Qed.

(** A star matches more in front of what it matches. *)
Lemma glob_star_drop p n k : glob ("*" :: p) (drop k n) = true -> glob ("*" :: p) n = true.
Proof. rewrite !glob_star_iff. intros [j Hj]. exists (k + j)%nat. by rewrite <- drop_drop. Qed.

Lemma glob_char c p d n :
  c <> "*" -> glob (c :: p) (d :: n) = (String.eqb c "?" || String.eqb c d) && glob p n.
Proof. intros Hc. simpl. by rewrite (proj2 (String.eqb_neq _ _)) by done. Qed.

Lemma glob_char_nil c p : c <> "*" -> glob (c :: p) [] = false.
Proof. intros Hc. simpl. by rewrite (proj2 (String.eqb_neq _ _)) by done. Qed.

(** A starless prefix consumes exactly its length. *)
Lemma glob_fixed w t n :
  Forall (fun c => c <> "*") w ->
  glob (w ++ t) n = true -> (length w <= length n)%nat /\ glob t (drop (length w) n) = true.
Proof.
  intros Hw. revert n. induction Hw as [|c w Hc Hw IH]; intros [|d n] H.
  - simpl in *. split; [lia|done].
  - simpl in *. split; [lia|done].
  - simpl app in H. by rewrite glob_char_nil in H.
  - simpl app in H. rewrite glob_char in H by done. apply andb_true_iff in H as [_ H].
    apply IH in H as [? ?]. simpl. split; [lia|done].
Qed.

(** ** The backtracking loop *)

Section Wildcard.

Context (P N : list string).
Hypothesis Hstarless : Forall (fun c => c <> "*") N.

(** What the loop keeps true.  With a star at [sp], the pattern between the star
    and [p] is a starless run [w] matched against the name from [sn] to [n]. *)
Definition wildcard_inv (p n : nat) (star : option (nat * nat)) : Prop :=
  (p <= length P)%nat /\ (n <= length N)%nat /\
  match star with
  | None => glob P N = glob (drop p P) (drop n N)
  | Some (sp, sn) => exists w,
      (sn <= n)%nat /\ (sp < p)%nat /\
      Forall (fun c => c <> "*") w /\ length w = (n - sn)%nat /\
      drop (S sp) P = w ++ drop p P /\
      (forall t, glob (w ++ t) (drop sn N) = glob t (drop n N)) /\
      glob P N = glob ("*" :: drop (S sp) P) (drop sn N)
  end.

Definition wildcard_measure (p : nat) (star : option (nat * nat)) : Z :=
  match star with
  | None => (llen N + 1) * (llen P + 1)
  | Some (_, sn) => (llen N - Z.of_nat sn) * (llen P + 1)
  end + (llen P - Z.of_nat p).

Lemma char_matches_true p n :
  char_matches P N p n = true ->
  exists c d, P !! p = Some c /\ N !! n = Some d /\ c <> "*" /\
    String.eqb c "?" || String.eqb c d = true.
Proof.
  unfold char_matches. destruct (P !! p) as [c|] eqn:Ep; [|done].
  destruct (N !! n) as [d|] eqn:En; [|done]. intros H. exists c, d.
  split_and!; [done..| |done]. intros ->. rewrite Forall_forall in Hstarless.
  apply list_elem_of_lookup_2, Hstarless in En.
  apply orb_true_iff in H as [H|H]; [done|]. apply String.eqb_eq in H. congruence.
Qed.

(** Neither a match nor a star: the rest of the pattern fails here. *)
Lemma char_mismatch p n :
  (n < length N)%nat -> char_matches P N p n = false -> char_at P p "*" = false ->
  glob (drop p P) (drop n N) = false.
Proof.
  unfold char_matches, char_at. intros Hn Hm Hs.
  destruct (lookup_lt_is_Some_2 N n Hn) as [d Hd]. rewrite Hd in Hm.
  rewrite (drop_S _ _ _ Hd). destruct (P !! p) as [c|] eqn:Ep.
  - rewrite (drop_S _ _ _ Ep), glob_char by (by apply String.eqb_neq). by rewrite Hm.
  - rewrite drop_ge by (by apply lookup_ge_None). done.
Qed.

Lemma wildcard_inv_match p n star :
  wildcard_inv p n star -> char_matches P N p n = true -> wildcard_inv (S p) (S n) star.
Proof.
  intros (Hp & Hn & Hi) (c & d & Ec & Ed & Hc & Hcd)%char_matches_true.
  apply lookup_lt_Some in Ec as Hp'. apply lookup_lt_Some in Ed as Hn'.
  assert (forall t, glob (c :: t) (drop n N) = glob t (drop (S n) N)) as Hstep.
  { intros t. rewrite (drop_S _ _ _ Ed), glob_char by done. by rewrite Hcd. }
  split_and!; [lia..|]. destruct star as [[sp sn]|].
  - destruct Hi as (w & Hsn & Hsp & Hw & Hl & Hd & Hm & Hg). exists (w ++ [c]).
    split_and!; [lia|lia| | | | |done].
    + apply Forall_app. split; [done|by constructor].
    + rewrite length_app. simpl. lia.
    + rewrite Hd, (drop_S _ _ _ Ec), <- app_assoc. done.
    + intros t. rewrite <- app_assoc. simpl. by rewrite Hm, Hstep.
  - rewrite Hi, (drop_S _ _ _ Ec). by rewrite Hstep.
Qed.

Lemma wildcard_inv_star p n star :
  wildcard_inv p n star -> P !! p = Some "*" -> wildcard_inv (S p) n (Some (p, n)).
Proof.
  intros (Hp & Hn & Hi) Ec. apply lookup_lt_Some in Ec as Hp'.
  split_and!; [lia..|]. exists []. split_and!; [lia|lia|constructor|simpl; lia|done|done|].
  rewrite <- (drop_S _ _ _ Ec). destruct star as [[sp sn]|]; [|done].
  destruct Hi as (w & Hsn & Hsp & Hw & Hl & Hd & Hm & Hg). rewrite Hg, Hd.
  apply eq_true_iff_eq. rewrite glob_star_iff. split.
  - intros [k Hk]. apply glob_fixed in Hk as [_ Hk]; [|done]. rewrite (drop_S _ _ _ Ec) in *.
    rewrite !drop_drop in Hk. apply (glob_star_drop _ _ k). rewrite drop_drop.
    etransitivity; [|exact Hk]. do 2 f_equal. lia.
  - intros H. exists 0%nat. by rewrite drop_0, Hm.
Qed.

Lemma wildcard_inv_retry p n sp sn :
  wildcard_inv p n (Some (sp, sn)) -> (n < length N)%nat ->
  glob (drop p P) (drop n N) = false -> wildcard_inv (S sp) (S sn) (Some (sp, S sn)).
Proof.
  intros (Hp & Hn & w & Hsn & Hsp & Hw & Hl & Hd & Hm & Hg) Hlt Hf.
  split_and!; [lia..|]. exists []. split_and!; [lia|lia|constructor|simpl; lia|done|done|].
  rewrite Hg, glob_star.
  destruct (lookup_lt_is_Some_2 N sn) as [d Ed]; [lia|]. rewrite (drop_S _ _ _ Ed).
  rewrite <- (drop_S _ _ _ Ed) at 1. rewrite Hd at 1. by rewrite Hm, Hf.
Qed.

Lemma wildcard_inv_end p n star :
  wildcard_inv p n star -> n = length N -> glob P N = glob (drop p P) [].
Proof.
  intros (Hp & Hn & Hi) ->. assert (drop (length N) N = []) as En by (apply drop_ge; lia).
  rewrite En in Hi. destruct star as [[sp sn]|]; [|done].
  destruct Hi as (w & Hsn & Hsp & Hw & Hl & Hd & Hm & Hg). rewrite Hg, Hd.
  apply eq_true_iff_eq. rewrite glob_star_iff. split.
  - intros [k Hk]. pose proof Hk as Hk'. apply glob_fixed in Hk as [Hlen Hk]; [|done].
    rewrite <- Hk. f_equal. rewrite !length_drop in Hlen. symmetry. apply length_zero_iff_nil.
    rewrite !length_drop. lia.
  - intros H. exists 0%nat. by rewrite drop_0, Hm.
Qed.

Lemma measure_nonneg p n star : wildcard_inv p n star -> 0 <= wildcard_measure p star.
Proof.
  intros (Hp & Hn & Hi). unfold wildcard_measure, llen. destruct star as [[sp sn]|]; [|nia].
  destruct Hi as (w & Hsn & _). nia.
Qed.

Lemma measure_match p star :
  wildcard_measure (S p) star + 1 = wildcard_measure p star.
Proof. unfold wildcard_measure. lia. Qed.

Lemma measure_star p n star :
  wildcard_inv p n star -> wildcard_measure (S p) (Some (p, n)) + 1 <= wildcard_measure p star.
Proof.
  intros (Hp & Hn & Hi). unfold wildcard_measure, llen. destruct star as [[sp sn]|]; [|nia].
  destruct Hi as (w & Hsn & _). nia.
Qed.

Lemma measure_retry p n sp sn :
  wildcard_inv p n (Some (sp, sn)) -> (n < length N)%nat ->
  wildcard_measure (S sp) (Some (sp, S sn)) + 1 <= wildcard_measure p (Some (sp, sn)).
Proof. intros (Hp & Hn & w & Hsn & Hsp & _) Hlt. unfold wildcard_measure, llen. nia. Qed.

Lemma wildcard_loop_costs fuel p n star :
  wildcard_inv p n star -> (wildcard_measure p star < Z.of_nat fuel) ->
  costs (wildcard_loop fuel P N p n star) (wildcard_measure p star)
    (fun stop => match stop with
      | Some p => (p <= length P)%nat /\ glob P N = glob (drop p P) []
      | None => glob P N = false
      end).
Proof.
  revert p n star. induction fuel as [|fuel IH]; intros p n star Hi Hf;
    pose proof (measure_nonneg _ _ _ Hi); [lia|].
  cbn [wildcard_loop]. destruct (Nat.ltb_spec n (length N)) as [Hn|Hn].
  2:{ apply costs_ret; [done|]. split; [apply Hi|]. eapply wildcard_inv_end; [exact Hi|].
      destruct Hi as (_ & ? & _). lia. }
  destruct (char_matches P N p n) eqn:Em.
  { pose proof (wildcard_inv_match _ _ _ Hi Em) as Hi'.
    pose proof (measure_match p star). pose proof (measure_nonneg _ _ _ Hi').
    eapply costs_charge; [apply IH; [done|lia]|lia..]. }
  destruct (char_at P p "*") eqn:Es.
  { assert (P !! p = Some "*") as Ec.
    { unfold char_at in Es. destruct (P !! p); [|done]. by apply String.eqb_eq in Es as ->. }
    pose proof (wildcard_inv_star _ _ _ Hi Ec) as Hi'.
    pose proof (measure_star _ _ _ Hi). pose proof (measure_nonneg _ _ _ Hi').
    eapply costs_charge; [apply IH; [done|lia]|lia..]. }
  pose proof (char_mismatch _ _ Hn Em Es) as Hf'. destruct star as [[sp sn]|].
  - pose proof (wildcard_inv_retry _ _ _ _ Hi Hn Hf') as Hi'.
    pose proof (measure_retry _ _ _ _ Hi Hn). pose proof (measure_nonneg _ _ _ Hi').
    eapply costs_charge; [apply IH; [done|lia]|lia..].
  - eapply costs_charge; [apply (costs_ret _ 0); [lia|]|lia|].
    + destruct Hi as (_ & _ & ->). done.
    + destruct Hi as (Hp & _ & _). unfold wildcard_measure, llen. nia.
Qed.

End Wildcard.

Lemma skip_stars_costs rest :
  costs (skip_stars rest) (llen rest) (fun v => v = glob rest []).
Proof.
  induction rest as [|c rest IH]; [by apply costs_ret|]. cbn [skip_stars].
  pose proof (llen_nonneg rest). rewrite llen_cons.
  destruct (String.eqb_spec c "*") as [->|Hc].
  - eapply costs_charge; [|exact H|lia]. eapply costs_weaken; [exact IH|lia|].
    intros v ->. rewrite glob_star, orb_false_r. done.
  - apply costs_ret; [lia|]. by rewrite glob_char_nil.
Qed.

Lemma charge_each_costs {A} (l : list A) {B} (f : MatchingBudget -> result match_fault (B * MatchingBudget)) k Q :
  costs f k Q -> 0 <= k -> costs (fun b => b ← charge_each l b; f b) (llen l + k) Q.
Proof.
  intros Hf Hk. induction l as [|x l IH]; [by eapply costs_weaken|].
  pose proof (llen_nonneg l). rewrite llen_cons. intros b Hb.
  pose proof (costs_charge _ (llen l + k) (llen l + 1 + k) Q IH ltac:(lia) ltac:(lia) b Hb) as H'.
  simpl charge_each. unfold mbind, result_bind in *. by destruct (charge b).
Qed.

(** Cells one segment against one component can cost. *)
Definition segment_cost (p : list string) (s : string) : Z :=
  (llen (chars s) + 2) * (llen p + 2).

Lemma segment_matches_costs p s :
  starless s ->
  costs (segment_matches_compiled p s) (llen (chars s) + segment_cost p s + llen p)
    (fun v => v = glob p (chars s)).
Proof.
  intros Hs. unfold segment_matches_compiled. set (N := chars s) in *.
  pose proof (llen_nonneg N). pose proof (llen_nonneg p).
  assert (0 <= segment_cost p s) by (unfold segment_cost; fold N; nia).
  rewrite <- Z.add_assoc. apply charge_each_costs; [|lia].
  eapply costs_bind; [|..|reflexivity].
  - eapply costs_weaken; [apply (wildcard_loop_costs p N Hs)|..|intros a Ha; exact Ha].
    + split_and!; [lia..|done].
    + unfold wildcard_measure, wildcard_fuel, llen. nia.
    + unfold wildcard_measure, segment_cost, llen. fold N. nia.
  - intros [q|] Ha.
    + destruct Ha as [Hq ->]. eapply costs_weaken; [apply skip_stars_costs| |done].
      unfold llen. rewrite length_drop. lia.
    + apply costs_ret; [lia|done].
  - lia.
Qed.

(** ** The table of rows *)

(** What row [segments] of the table holds at [j]. *)
Definition reference (descent : bool) (segments : list Segment) (path : list string) : bool :=
  if descent then glob_descend segments path else glob_path segments path.

Definition row_of (descent : bool) (segments : list Segment) (path : list string) : list bool :=
  (fun j => reference descent segments (drop j path)) <$> seq 0 (S (length path)).

Lemma row_of_nth descent segments path j :
  (j <= length path)%nat ->
  nth j (row_of descent segments path) false = reference descent segments (drop j path).
Proof.
  intros Hj. apply nth_lookup_Some. unfold row_of. rewrite list_lookup_fmap.
  by rewrite lookup_seq_lt by lia.
Qed.

Lemma row_of_drop descent segments path j :
  (j <= length path)%nat ->
  drop j (row_of descent segments path) =
  reference descent segments (drop j path) :: drop (S j) (row_of descent segments path).
Proof.
  intros Hj. apply drop_S. unfold row_of. rewrite list_lookup_fmap.
  by rewrite lookup_seq_lt by lia.
Qed.

Lemma row_of_length descent segments path :
  length (row_of descent segments path) = S (length path).
Proof. unfold row_of. by rewrite length_fmap, length_seq. Qed.

Lemma base_row_costs descent count row :
  costs (fun b => base_row descent count b row) (Z.of_nat count)
    (fun r => r = row ++ match count with O => [] | S k => replicate k false ++ [negb descent] end).
Proof.
  revert row. induction count as [|count IH]; intros row.
  { apply costs_ret; [lia|]. by rewrite app_nil_r. }
  cbn [base_row]. apply (costs_charge _ (Z.of_nat count)); [|lia..].
  eapply costs_weaken; [apply IH|lia|]. intros r ->. rewrite <- app_assoc. f_equal.
  destruct count as [|k]; simpl; [by rewrite andb_true_r|]. by rewrite andb_false_r.
Qed.

Lemma base_row_reference descent path :
  replicate (length path) false ++ [negb descent] = row_of descent [] path.
Proof.
  induction path as [|s path IH]; [by destruct descent|].
  unfold row_of. simpl length. rewrite <- cons_seq, fmap_cons. simpl. f_equal.
  - by destruct descent.
  - rewrite IH. unfold row_of. rewrite <- fmap_S_seq, <- list_fmap_compose. done.
Qed.

Lemma reference_recursive descent segments path :
  reference descent (Recursive :: segments) path =
  match path with
  | [] => if descent then true else reference descent segments []
  | _ :: path' => reference descent segments path || reference descent (Recursive :: segments) path'
  end.
Proof. destruct descent, path; simpl; by rewrite ?orb_false_r. Qed.

Section Rows.

Context (descent : bool) (path : list string) (C : Z).
Hypothesis Hpath : Forall starless path.
Hypothesis HC0 : 0 <= C.

(** [C] bounds the work of every literal segment on every component. *)
Definition bounded_segment (segment : Segment) : Prop :=
  match segment with
  | Recursive => True
  | SLiteral p => forall s, s ∈ path -> llen (chars s) + segment_cost p s + llen p <= C
  end.

Lemma cell_costs segment segments j row_next :
  bounded_segment segment -> (j <= length path)%nat ->
  (j < length path -> row_next = reference descent (segment :: segments) (drop (S j) path))%nat ->
  costs (cell segment path descent (row_of descent segments path) j row_next) C
    (fun v => v = reference descent (segment :: segments) (drop j path)).
Proof.
  intros Hb Hj Hnext. unfold cell.
  destruct (Nat.eqb_spec j (length path)) as [->|Hne].
  - rewrite row_of_nth, (drop_ge path) by lia. rewrite Nat.ltb_irrefl.
    destruct descent; [apply costs_ret; by destruct segment|].
    destruct segment; (apply costs_ret; [done|]); [|done].
    rewrite reference_recursive. apply orb_false_r.
  - rewrite andb_false_r. assert (j < length path)%nat as Hlt by lia.
    rewrite (proj2 (Nat.ltb_lt _ _) Hlt). rewrite !row_of_nth by lia.
    destruct (lookup_lt_is_Some_2 path j Hlt) as [s Hs].
    rewrite (drop_S _ _ _ Hs). destruct segment as [|p].
    + apply costs_ret; [done|]. rewrite Hnext by done.
      by rewrite (reference_recursive _ _ (s :: drop (S j) path)).
    + rewrite (nth_lookup_Some path j "" s) by done.
      assert (reference descent (SLiteral p :: segments) (s :: drop (S j) path) =
        glob p (chars s) && reference descent segments (drop (S j) path)) as ->
        by (by destruct descent).
      destruct (reference descent segments (drop (S j) path)); simpl.
      * rewrite andb_true_r. assert (s ∈ path) by (by eapply list_elem_of_lookup_2).
        eapply costs_weaken; [apply segment_matches_costs| |done].
        { rewrite Forall_forall in Hpath. by apply Hpath. }
        by apply Hb.
      * rewrite andb_false_r. by apply costs_ret.
Qed.

Lemma fill_row_costs segment segments j row :
  bounded_segment segment -> (j <= S (length path))%nat ->
  row = drop j (row_of descent (segment :: segments) path) ->
  costs (fill_row segment path descent (row_of descent segments path) j row)
    (Z.of_nat j * (C + 1)) (fun r => r = row_of descent (segment :: segments) path).
Proof.
  intros Hb. revert row. induction j as [|j IH]; intros row Hj ->.
  { apply costs_ret; [lia|]. by rewrite drop_0. }
  cbn [fill_row]. eapply (costs_charge _ (C + Z.of_nat j * (C + 1))); [|nia..].
  eapply (costs_bind _ _ C (Z.of_nat j * (C + 1)));
    [apply (cell_costs _ segments); [done|lia|]| |nia|reflexivity].
  - intros Hlt. rewrite row_of_drop by lia. done.
  - intros c ->. apply IH; [lia|]. by rewrite (row_of_drop _ _ _ j) by lia.
Qed.

Lemma fill_rows_costs l acc :
  Forall bounded_segment l ->
  costs (fill_rows l path descent (row_of descent acc path))
    (llen l * ((llen path + 1) * (C + 1)))
    (fun r => r = row_of descent (rev l ++ acc) path).
Proof.
  intros Hl. revert acc. induction Hl as [|segment l Hs Hl IH]; intros acc; cbn [fill_rows].
  { by apply costs_ret. }
  pose proof (llen_nonneg l). pose proof (llen_nonneg path). rewrite llen_cons.
  eapply costs_bind; [apply fill_row_costs; [done|lia|]|..].
  - rewrite drop_ge; [done|]. rewrite row_of_length. lia.
  - intros r ->. eapply costs_weaken; [apply IH|reflexivity|]. intros r ->. simpl.
    by rewrite <- app_assoc.
  - nia.
  - unfold llen. nia.
Qed.

Lemma evaluate_pattern_costs segments :
  Forall bounded_segment segments ->
  costs (evaluate_pattern segments path descent)
    ((llen segments + 1) * ((llen path + 1) * (C + 1)))
    (fun v => v = reference descent segments path).
Proof.
  intros Hs. unfold evaluate_pattern.
  pose proof (llen_nonneg segments). pose proof (llen_nonneg path).
  eapply costs_bind; [apply base_row_costs|..].
  - simpl. intros r ->. rewrite base_row_reference.
    eapply (costs_bind _ _ _ 0); [apply fill_rows_costs; by apply Forall_rev|..].
    + intros r ->. rewrite rev_involutive, app_nil_r. apply costs_ret; [done|].
      rewrite row_of_nth by lia. by rewrite drop_0.
    + done.
    + reflexivity.
  - unfold llen. rewrite length_rev. nia.
  - unfold llen. rewrite length_rev. nia.
Qed.

End Rows.

(** ** Compilation and descent *)

Lemma glob_path_recursive s path :
  glob_path (Recursive :: s) path =
  glob_path s path || match path with [] => false | _ :: path => glob_path (Recursive :: s) path end.
Proof. by destruct path. Qed.

Lemma glob_path_recursive_iff s path :
  glob_path (Recursive :: s) path = true <-> exists k, glob_path s (drop k path) = true.
Proof.
  induction path as [|c path IH]; rewrite glob_path_recursive.
  - rewrite orb_false_r. split; [intros H; by exists 0%nat|].
    intros [k Hk]. by rewrite drop_nil in Hk.
  - rewrite orb_true_iff, IH. split.
    + intros [H|[k Hk]]; [by exists 0%nat|by exists (S k)].
    + intros [[|k] Hk]; [by left|right; by exists k].
Qed.

Lemma glob_path_recursive_twice s path :
  glob_path (Recursive :: Recursive :: s) path = glob_path (Recursive :: s) path.
Proof.
  apply eq_true_iff_eq. rewrite glob_path_recursive_iff. setoid_rewrite glob_path_recursive_iff.
  split.
  - intros (k & j & H). exists (k + j)%nat. by rewrite <- drop_drop.
  - intros [k H]. exists 0%nat, k. by rewrite drop_0.
Qed.

(** [**] depends on the rest of the pattern only through what the rest matches. *)
Lemma glob_path_recursive_ext s1 s2 :
  (forall path, glob_path s1 path = glob_path s2 path) ->
  forall path, glob_path (Recursive :: s1) path = glob_path (Recursive :: s2) path.
Proof.
  intros H path. apply eq_true_iff_eq. rewrite !glob_path_recursive_iff.
  by setoid_rewrite H.
Qed.

Lemma compile_segments_meaning l :
  (forall path, glob_path (compile_segments false l) path = glob_path (raw_segments l) path) /\
  (forall path, glob_path (Recursive :: compile_segments true l) path =
    glob_path (Recursive :: raw_segments l) path).
Proof.
  induction l as [|s l [IHf IHt]]; [done|].
  cbn [compile_segments raw_segments fmap list_fmap].
  destruct (String.eqb s "**"); split; intros path.
  - apply IHt.
  - rewrite IHt. symmetry. apply glob_path_recursive_twice.
  - destruct path as [|c path]; [done|]. simpl. by rewrite IHf.
  - apply glob_path_recursive_ext. intros [|c path']; [done|]. simpl. by rewrite IHf.
Qed.

Lemma glob_self p : glob p p = true.
Proof.
  induction p as [|c p IH]; [done|]. destruct (decide (c = "*")) as [->|Hc].
  - apply glob_star_iff. by exists 1%nat.
  - rewrite glob_char by done. by rewrite String.eqb_refl, orb_true_r.
Qed.

(** Segments that come from text. *)
Definition textual (segment : Segment) : Prop :=
  match segment with Recursive => True | SLiteral p => exists s, p = chars s end.

Lemma raw_segments_textual l : Forall textual (raw_segments l).
Proof.
  apply Forall_fmap, Forall_true. intros s. simpl. case_match; simpl; [done|]. by exists s.
Qed.

Lemma glob_path_inhabited segments :
  Forall textual segments -> exists path, glob_path segments path = true.
Proof.
  induction 1 as [|segment segments Hs _ [path Hp]]; [by exists []|].
  destruct segment as [|p].
  - exists path. rewrite glob_path_recursive, Hp. done.
  - destruct Hs as [s ->]. exists (s :: path). simpl. by rewrite glob_self.
Qed.

Lemma glob_descend_iff segments path :
  Forall textual segments ->
  glob_descend segments path = true <->
  exists below, below <> [] /\ glob_path segments (path ++ below) = true.
Proof.
  intros Ht. revert path. induction Ht as [|segment segments Hs Ht IH]; intros path.
  { simpl. split; [done|]. intros (below & Hne & H). by destruct path, below. }
  destruct (glob_path_inhabited segments Ht) as [m Hm]. destruct segment as [|p].
  - induction path as [|x path IHp].
    + split; [intros _|done]. exists ("x" :: m). split; [done|].
      apply glob_path_recursive_iff. by exists 1%nat.
    + change (glob_descend (Recursive :: segments) (x :: path)) with
        (glob_descend segments (x :: path) || glob_descend (Recursive :: segments) path).
      rewrite orb_true_iff, IH, IHp. simpl app. split.
      * intros [(b & ? & H)|(b & ? & H)]; exists b; (split; [done|]);
          rewrite glob_path_recursive; apply orb_true_iff; auto.
      * intros (b & Hb & H). rewrite glob_path_recursive in H. apply orb_true_iff in H as [H|H];
          [left|right]; by exists b.
  - destruct path as [|x path].
    + split; [intros _|done]. destruct Hs as [s ->]. exists (s :: m). split; [done|]. simpl.
      by rewrite glob_self.
    + simpl. rewrite andb_true_iff, IH. setoid_rewrite andb_true_iff. naive_solver.
Qed.

Lemma compile_segments_textual flag l : Forall textual (compile_segments flag l).
Proof.
  revert flag. induction l as [|s l IH]; intros flag; simpl; [constructor|].
  repeat case_match; try constructor; simpl; eauto.
Qed.

Lemma reference_compile descent pattern path :
  reference descent (compile_pattern pattern) path = true <->
  if descent then matches_below pattern path
  else glob_path (raw_segments (split_char "/" pattern)) path = true.
Proof.
  unfold compile_pattern. destruct (compile_segments_meaning (split_char "/" pattern)) as [Hm _].
  destruct descent; simpl; [|by rewrite Hm].
  rewrite glob_descend_iff by apply compile_segments_textual. unfold matches_below.
  by setoid_rewrite Hm.
Qed.

(** ** Sizes *)

Lemma chars_length s : llen (chars s) <= slen s.
Proof.
  unfold llen, slen. remember (String.length s) as n eqn:En. revert s En.
  induction (lt_wf n) as [n _ IH]. intros s ->.
  destruct s as [|a s1]; [done|].
  assert (forall t, (String.length t < String.length (String a s1))%nat ->
    Z.of_nat (length (chars t)) <= Z.of_nat (String.length t)) as IH'
    by (intros t Ht; by apply (IH (String.length t))).
  destruct s1 as [|b [|c [|d s4]]]; simpl; repeat case_match; simpl; try lia;
    match goal with |- context [chars ?t] => specialize (IH' t); simpl in IH'; lia end.
Qed.

Lemma split_char_sizes c s :
  llen (split_char c s) <= slen s + 1 /\ Forall (fun w => slen w <= slen s) (split_char c s).
Proof.
  induction s as [|a s [IH1 IH2]]; simpl.
  { split; [done|]. by repeat constructor. }
  assert (slen (String a s) = slen s + 1) as Es by (unfold slen; simpl; lia).
  pose proof (slen_nonneg s). rewrite Es. destruct (Ascii.eqb a c).
  - rewrite llen_cons. split; [lia|]. constructor; [unfold slen; simpl; lia|].
    eapply Forall_impl; [exact IH2|]. simpl. intros; lia.
  - destruct (split_char c s) as [|w ws]; [split; [unfold llen; simpl; lia|]|].
    + repeat constructor. unfold slen in *; simpl. lia.
    + apply Forall_cons in IH2 as [Hw Hws]. rewrite llen_cons in *. split; [lia|].
      constructor; [unfold slen in *; simpl; lia|].
      eapply Forall_impl; [exact Hws|]. simpl. intros; lia.
Qed.

Lemma compile_segments_sizes flag l :
  llen (compile_segments flag l) <= llen l.
Proof.
  revert flag. induction l as [|s l IH]; intros flag; simpl; [done|]. rewrite llen_cons.
  specialize (IH true) as IH1. specialize (IH false) as IH2.
  repeat case_match; rewrite ?llen_cons; lia.
Qed.

Lemma compile_segments_literal flag l p :
  SLiteral p ∈ compile_segments flag l -> exists s, s ∈ l /\ p = chars s.
Proof.
  revert flag. induction l as [|s l IH]; intros flag; simpl; [set_solver|].
  repeat case_match; rewrite ?elem_of_cons; naive_solver set_solver.
Qed.

(** The work bound for a validated pattern on a path of at most one mebibyte. *)
Definition work_bound : Z := (1048576 + 2) * (512 + 2) + 1048576 + 512.

Lemma bounded_compile pattern path :
  slen pattern <= MAX_ARTIFACT_PATTERN_BYTES -> slen path <= 1048576 ->
  Forall (bounded_segment (split_char "/" path) work_bound) (compile_pattern pattern).
Proof.
  intros Hp Hq. apply Forall_forall. intros [|p] Hin; [done|]. intros s Hs.
  apply compile_segments_literal in Hin as (w & Hw & ->).
  destruct (split_char_sizes "/" pattern) as [_ Fp]. destruct (split_char_sizes "/" path) as [_ Fq].
  rewrite Forall_forall in Fp, Fq. specialize (Fp w Hw). specialize (Fq s Hs).
  pose proof (chars_length w). pose proof (chars_length s).
  pose proof (llen_nonneg (chars w)). pose proof (llen_nonneg (chars s)).
  unfold segment_cost, work_bound, MAX_ARTIFACT_PATTERN_BYTES in *. simpl in *. nia.
Qed.

(** Within these sizes the budget of [u64::MAX] cells is always enough. *)
Lemma evaluate_u64_max pattern path descent :
  slen pattern <= MAX_ARTIFACT_PATTERN_BYTES -> slen path <= 1048576 ->
  Forall starless (split_char "/" path) ->
  unwrap_or_false (evaluate_pattern (compile_pattern pattern) (split_char "/" path) descent
    (budget_new u64_max)) = reference descent (compile_pattern pattern) (split_char "/" path).
Proof.
  intros Hp Hq Hs.
  pose proof (evaluate_pattern_costs descent (split_char "/" path) work_bound Hs
    ltac:(done) _ (bounded_compile pattern path Hp Hq) (budget_new u64_max) ltac:(done)) as H.
  destruct (evaluate_pattern _ _ _ _) as [[v b']|[]]; [by destruct H| |done].
  exfalso. simpl in H.
  destruct (split_char_sizes "/" pattern) as [Lp _]. destruct (split_char_sizes "/" path) as [Lq _].
  pose proof (compile_segments_sizes false (split_char "/" pattern)) as Lc.
  fold (compile_pattern pattern) in Lc.
  pose proof (llen_nonneg (compile_pattern pattern)). pose proof (llen_nonneg (split_char "/" path)).
  assert ((llen (compile_pattern pattern) + 1) * ((llen (split_char "/" path) + 1) * (work_bound + 1))
    <= (513 + 1) * ((1048577 + 1) * (work_bound + 1))).
  { unfold MAX_ARTIFACT_PATTERN_BYTES in *.
    apply Z.mul_le_mono_nonneg; [lia|lia|unfold work_bound; nia|].
    apply Z.mul_le_mono_nonneg_r; [done|lia]. }
  unfold u64_max, work_bound in *. lia.
Qed.

(** ** Classification *)

(** Whatever the sizes, some bound on the work of one cell exists. *)
Lemma bounded_exists path segments :
  exists C, 0 <= C /\ Forall (bounded_segment path C) segments.
Proof.
  assert (forall p, exists C, 0 <= C /\ bounded_segment path C (SLiteral p)) as Hone.
  { intros p. induction path as [|s path' (C & HC & IH)]; [exists 0; split; [done|]; intros s Hs; set_solver|].
    exists (C + (llen (chars s) + segment_cost p s + llen p)).
    pose proof (llen_nonneg (chars s)). pose proof (llen_nonneg p).
    assert (0 <= segment_cost p s) by (unfold segment_cost; nia).
    split; [lia|]. intros s' [->|Hs']%elem_of_cons; [lia|]. specialize (IH s' Hs'). lia. }
  induction segments as [|[|p] segments (C & HC & IH)]; [by exists 0|..].
  - exists C. split; [done|]. by constructor.
  - destruct (Hone p) as (C' & HC' & Hp). exists (C + C'). split; [lia|].
    assert (forall seg D, 0 <= D -> bounded_segment path C seg -> bounded_segment path (C + D) seg)
      as Hmono by (intros [|q] D HD Hq; [done|]; intros s Hs; specialize (Hq s Hs); lia).
    constructor; [intros s Hs; specialize (Hp s Hs); lia|].
    eapply Forall_impl; [exact IH|]. auto.
Qed.

(** A finished evaluation is right and only moves cells from left to spent. *)
Lemma evaluate_pattern_ok segments path descent b v b' :
  Forall starless path -> 0 <= remaining b ->
  evaluate_pattern segments path descent b = Ok (v, b') ->
  v = reference descent segments path /\ 0 <= remaining b' /\
  remaining b' + spent b' = remaining b + spent b.
Proof.
  intros Hs Hb E. destruct (bounded_exists path segments) as (C & HC & HF).
  pose proof (evaluate_pattern_costs descent path C Hs HC segments HF b Hb) as H.
  rewrite E in H. naive_solver.
Qed.

Definition conserved (b b' : MatchingBudget) : Prop :=
  0 <= remaining b' /\ remaining b' + spent b' = remaining b + spent b.

Lemma classify_pattern_ok segments m d b pattern m' d' b' :
  Forall starless segments -> 0 <= remaining b ->
  classify_pattern segments (m, d, b) pattern = Ok (m', d', b') ->
  m' = m || reference false pattern segments /\
  d' = d || reference true pattern segments /\ conserved b b'.
Proof.
  intros Hs Hb. unfold classify_pattern, conserved. intros H.
  apply bind_ok in H as ([m1 b1] & H1 & H). apply bind_ok in H as ([d1 b2] & H2 & [= <- <- <-]).
  assert (m1 = m || reference false pattern segments /\ conserved b b1) as [-> [Hb1 Hc1]].
  { destruct m; simpl in *; [injection H1 as <- <-; done|]. by apply evaluate_pattern_ok in H1. }
  assert (d1 = d || reference true pattern segments /\ conserved b1 b2) as [-> [Hb2 Hc2]].
  { destruct d; simpl in *; [injection H2 as <- <-; done|]. by apply evaluate_pattern_ok in H2. }
  split_and!; (lia || done).
Qed.

Lemma classify_patterns_ok segments patterns m d b m' d' b' :
  Forall starless segments -> 0 <= remaining b ->
  try_fold (classify_pattern segments) (m, d, b) patterns = Ok (m', d', b') ->
  m' = m || existsb (fun p => reference false p segments) patterns /\
  d' = d || existsb (fun p => reference true p segments) patterns /\ conserved b b'.
Proof.
  intros Hs. revert m d b. induction patterns as [|p ps IH]; intros m d b Hb; cbn [try_fold].
  { intros [= <- <- <-]. rewrite !orb_false_r. done. }
  intros ([[m1 d1] b1] & H1 & H)%bind_ok.
  apply classify_pattern_ok in H1 as (-> & -> & Hb1 & Hc1); [|done..].
  apply IH in H as (-> & -> & Hb2 & Hc2); [|done]. simpl.
  rewrite !orb_assoc. split_and!; [done..|]. split; lia.
Qed.

Lemma classify_declarations_ok segments decls names d b names' d' b' :
  Forall starless segments -> 0 <= remaining b ->
  try_fold (classify_declaration segments) (names, d, b) decls = Ok (names', d', b') ->
  names' = names ++ (filter (fun x => existsb (fun p => reference false p segments) (snd x) = true) decls).*1 /\
  d' = d || existsb (fun x => existsb (fun p => reference true p segments) (snd x)) decls /\
  conserved b b'.
Proof.
  intros Hs. revert names d b.
  induction decls as [|[nm ps] decls IH]; intros names d b Hb; cbn [try_fold].
  { intros [= <- <- <-]. by rewrite app_nil_r, orb_false_r. }
  intros ([[n1 d1] b1] & H1 & H)%bind_ok. unfold classify_declaration in H1.
  apply bind_ok in H1 as ([[m1 d2] b2] & H1 & [= <- <- <-]).
  apply classify_patterns_ok in H1 as (-> & -> & Hb1 & Hc1); [|done..].
  apply IH in H as (-> & -> & Hb2 & Hc2); [|done]. simpl.
  rewrite !orb_assoc, filter_cons. split_and!; [|done|split; lia].
  simpl. destruct (existsb _ ps); simpl; by rewrite <- ?app_assoc.
Qed.

Lemma existsb_compile descent specs_paths path :
  existsb (fun p => reference descent p path) (compile_pattern <$> specs_paths) =
  existsb (fun pat => reference descent (compile_pattern pat) path) specs_paths.
Proof.
  induction specs_paths as [|x l IH]; [done|]. rewrite fmap_cons. cbn [existsb]. by rewrite IH.
Qed.

(** ** Properties *)

(** C39. The matcher implements the dialect: for a pattern within its length
    bound and a path of at most one mebibyte whose components hold no literal
    star, [pattern_matches] is exactly the meaning of the pattern; the budget of
    [u64::MAX] cells never runs out. *)
Theorem pattern_matches_dialect pattern path :
  slen pattern <= MAX_ARTIFACT_PATTERN_BYTES -> slen path <= 1048576 ->
  Forall starless (split_char "/" path) ->
  pattern_matches pattern path = dialect_matches pattern path.
Proof.
  intros Hp Hq Hs. unfold pattern_matches. rewrite evaluate_u64_max by done.
  apply eq_true_iff_eq. apply (reference_compile false).
Qed.

Lemma pattern_matches_dialect_witness :
  pattern_matches "target/**/*.log" "target/a/b/x.log" =
  dialect_matches "target/**/*.log" "target/a/b/x.log".
Proof.
  apply pattern_matches_dialect; [vm_compute; discriminate..|].
  repeat (constructor || (vm_compute; discriminate)).
Defined.

(** Descent is exact: the collector may enter a directory if and only if some
    path strictly below it is named by the pattern, so no match is missed and
    no directory without one is walked. *)
Theorem pattern_may_descend_exact pattern path :
  slen pattern <= MAX_ARTIFACT_PATTERN_BYTES -> slen path <= 1048576 ->
  Forall starless (split_char "/" path) ->
  pattern_may_descend pattern path = true <-> matches_below pattern (split_char "/" path).
Proof.
  intros Hp Hq Hs. unfold pattern_may_descend. rewrite evaluate_u64_max by done.
  apply (reference_compile true).
Qed.

Lemma pattern_may_descend_exact_witness :
  matches_below "target/**/*.log" (split_char "/" "target/a").
Proof.
  apply pattern_may_descend_exact; [vm_compute; discriminate..| |vm_compute; reflexivity].
  repeat (constructor || (vm_compute; discriminate)).
Defined.

(** Classifying a path names exactly the declarations with a matching
    pattern, in order, and permits descent exactly when some pattern does; a
    budget only ever refuses, it never changes the answer, and what it loses is
    what it counts as spent. *)
Theorem classify_exact specs path b names descends b' :
  Forall starless (split_char "/" path) -> 0 <= remaining b ->
  classify (compile_artifacts specs) path b = Ok (names, descends, b') ->
  names = as_name <$> filter (fun s => existsb (fun p => dialect_matches p path) (as_paths s) = true) specs /\
  (descends = true <-> exists s p, s ∈ specs /\ p ∈ as_paths s /\ matches_below p (split_char "/" path)) /\
  remaining b' + spent b' = remaining b + spent b.
Proof.
  intros Hs Hb H. apply classify_declarations_ok in H as (-> & -> & _ & Hc); [|done..].
  split_and!; [| |done].
  - clear. unfold compile_artifacts. rewrite app_nil_l. induction specs as [|s specs IH]; [done|].
    rewrite fmap_cons, !filter_cons. cbn [snd]. rewrite existsb_compile.
    assert (existsb (fun pat => reference false (compile_pattern pat) (split_char "/" path)) (as_paths s)
      = existsb (fun p => dialect_matches p path) (as_paths s)) as ->.
    { apply existsb_ext. intros p. apply eq_true_iff_eq, (reference_compile false). }
    case_decide; [|exact IH]. rewrite !fmap_cons. f_equal. exact IH.
  - rewrite orb_false_l, existsb_exists. unfold compile_artifacts. split.
    + intros ([nm ps] & Hin & Hx). apply list_elem_of_In, list_elem_of_fmap in Hin as (s & [= -> ->] & Hin).
      cbn [snd] in Hx. rewrite existsb_compile in Hx. apply existsb_exists in Hx as (p & Hp & Hr).
      exists s, p. split_and!; [done|by apply list_elem_of_In|]. by apply (reference_compile true).
    + intros (s & p & Hin & Hp & Hm).
      exists (as_name s, compile_pattern <$> as_paths s). split.
      * apply list_elem_of_In, list_elem_of_fmap. by exists s.
      * cbn [snd]. rewrite existsb_compile. apply existsb_exists. exists p.
        split; [by apply list_elem_of_In|]. by apply (reference_compile true).
Qed.

Lemma classify_exact_witness :
  let specs := [Build_ArtifactSpec "logs" ["target/**/*.log"]; Build_ArtifactSpec "bins" ["bin/*"]] in
  ["logs"] = as_name <$> filter (fun s =>
    existsb (fun p => dialect_matches p "target/x.log") (as_paths s) = true) specs.
Proof.
  intros specs.
  refine (proj1 (classify_exact specs "target/x.log" (budget_new 1000) ["logs"] true
    {| remaining := 908; spent := 92 |} _ _ _)).
  - repeat (constructor || (vm_compute; discriminate)).
  - vm_compute. discriminate.
  - vm_compute. reflexivity.
Defined.

(** A name that itself holds a star is where the matcher leaves the dialect:
    the compiled loop consumes the pattern's star as a literal, so [*] does not
    match the file name [*x] although it matches any run of characters. *)
Theorem literal_star_name_missed :
  pattern_matches "*" "*x" = false /\ dialect_matches "*" "*x" = true.
Proof. vm_compute. split; reflexivity. Qed.
