(* ===== verification/StrictYaml.v ===== *)
(** * Strict YAML admission (crates/pipeline-ir/src/strict_yaml.rs)

    The restricted YAML subset a pipeline source is written in: limits, the
    checks on the parser's event stream and the tree builder.  The event parser
    (the saphyr crate) is a parameter; everything McLoving does with its events
    is modelled.  The tree builder is total, keeps every admitted tree within
    the limits with distinct keys, and builds exactly the tree the events lay
    out. *)

From stdpp Require Import base gmap list strings pretty.
From Stdlib Require Import Ascii ZArith Lia.
From S2P Require Import Prelude Text.

Open Scope Z_scope.

(** ** Positions *)

Record SourceLocation := { loc_offset : Z; loc_line : Z; loc_column : Z }.
Record SourceSpan := { span_start : SourceLocation; span_end : SourceLocation }.

#[export] Instance SourceLocation_eq_dec : EqDecision SourceLocation.
Proof. solve_decision. Defined.
#[export] Instance SourceSpan_eq_dec : EqDecision SourceSpan.
Proof. solve_decision. Defined.

Definition default_location : SourceLocation := Build_SourceLocation 0 0 0.
Definition default_span : SourceSpan := Build_SourceSpan default_location default_location.
Definition span_at (location : SourceLocation) : SourceSpan := Build_SourceSpan location location.

(** ** The event parser of the saphyr crate *)

Record Marker := { marker_index : nat; marker_line : Z; marker_col : Z }.

Inductive ScalarStyle : Type := Plain | SingleQuoted | DoubleQuoted | LiteralBlock | FoldedBlock.

#[export] Instance ScalarStyle_eq_dec : EqDecision ScalarStyle.
Proof. solve_decision. Defined.

(** An anchor is a number, [0] when there is none; a tag is its text. *)
Inductive Event : Type :=
| EvNothing
| EvStreamStart
| EvStreamEnd
| EvDocumentStart
| EvDocumentEnd
| EvAlias
| EvScalar (value : string) (style : ScalarStyle) (anchor : Z) (tag : option string)
| EvSequenceStart (anchor : Z) (tag : option string)
| EvSequenceEnd
| EvMappingStart (anchor : Z) (tag : option string)
| EvMappingEnd.

Record ScanError := { scan_marker : Marker; scan_info : string }.

(** [Parser::new_from_str(source)], run to its end. *)
Class YamlParser := {
  yaml_events : string -> list (result ScanError (Event * (Marker * Marker)))
}.

(** ** Limits and errors *)

Record ParseLimits := {
  max_yaml_source_bytes : Z;
  max_yaml_nodes : Z;
  max_yaml_depth : Z;
  max_scalar_bytes : Z;
  max_mapping_entries : Z;
  max_sequence_items : Z
}.

Definition default_parse_limits : ParseLimits := {|
  max_yaml_source_bytes := 256 * 1024;
  max_yaml_nodes := 4096;
  max_yaml_depth := 32;
  max_scalar_bytes := 16 * 1024;
  max_mapping_entries := 256;
  max_sequence_items := 1024
|}.

Inductive ErrorCode : Type :=
| SourceTooLarge | SyntaxError | Directive | MultipleDocuments | AliasError | AnchorError | TagError
| EmptyScalar | ComplexKey | DuplicateKey | YamlDepthLimit | YamlNodeLimit | ScalarLimit
| MappingLimit | SequenceLimit | UnexpectedEvent.

Definition error_code_name (c : ErrorCode) : string :=
  match c with
  | SourceTooLarge => "SourceTooLarge" | SyntaxError => "Syntax" | Directive => "Directive"
  | MultipleDocuments => "MultipleDocuments" | AliasError => "Alias" | AnchorError => "Anchor"
  | TagError => "Tag" | EmptyScalar => "EmptyScalar" | ComplexKey => "ComplexKey"
  | DuplicateKey => "DuplicateKey" | YamlDepthLimit => "DepthLimit" | YamlNodeLimit => "NodeLimit"
  | ScalarLimit => "ScalarLimit" | MappingLimit => "MappingLimit"
  | SequenceLimit => "SequenceLimit" | UnexpectedEvent => "UnexpectedEvent"
  end.

Record AdmissionError := AdmitErr {
  admission_code : ErrorCode;
  admission_message : string;
  admission_span : SourceSpan
}.

Definition admission_error_display (e : AdmissionError) : string :=
  error_code_name (admission_code e) +:+ " at "
  +:+ fmt_z (loc_line (span_start (admission_span e))) +:+ ":"
  +:+ fmt_z (loc_column (span_start (admission_span e))) +:+ ": " +:+ admission_message e.

(** A refusal, or the model's recursion out of fuel. *)
Inductive yaml_fault : Type :=
| Refused (e : AdmissionError)
| OutOfFuel.

(** ** Trees *)

Inductive YamlValue : Type :=
| YNull
| YBool (b : bool)
| YInteger (z : Z)
| YString (s : string)
| YSequence (values : list SpannedValue)
| YMapping (entries : list MappingEntry)
with SpannedValue : Type :=
| Spanned (value : YamlValue) (span : SourceSpan)
with MappingEntry : Type :=
| Entry (key : string) (key_span : SourceSpan) (value : SpannedValue).

Definition sv_value (v : SpannedValue) : YamlValue := let 'Spanned value _ := v in value.
Definition sv_span (v : SpannedValue) : SourceSpan := let 'Spanned _ span := v in span.
Definition entry_key (e : MappingEntry) : string := let 'Entry key _ _ := e in key.
Definition entry_key_span (e : MappingEntry) : SourceSpan := let 'Entry _ span _ := e in span.
Definition entry_value (e : MappingEntry) : SpannedValue := let 'Entry _ _ value := e in value.

(** ** Scalars *)

Definition is_decimal_integer (value : string) : bool :=
  let digits :=
    match strip_prefix "-" value with
    | Some d => d
    | None => match strip_prefix "+" value with Some d => d | None => value end
    end in
  if is_empty digits then false
  else if (1 <? slen digits) && starts_with "0" digits then false
  else all_bytes is_ascii_digit digits.

Definition resolve_scalar (value : string) (style : ScalarStyle) (span : SourceSpan) :
    result AdmissionError YamlValue :=
  let empty := AdmitErr EmptyScalar "implicit empty scalars are not supported" span in
  if bool_decide (style = Plain) && bool_decide (span_start span = span_end span) then Err empty
  else if negb (bool_decide (style = Plain)) then Ok (YString value)
  else if is_empty value then Err empty
  else if String.eqb value "null" then Ok YNull
  else if String.eqb value "true" then Ok (YBool true)
  else if String.eqb value "false" then Ok (YBool false)
  else if is_decimal_integer value then
    match parse_i64 value with
    | Some z => Ok (YInteger z)
    | None => Err (AdmitErr SyntaxError "integer is outside the signed 64-bit range" span)
    end
  else Ok (YString value).

(** ** The tree builder *)

Inductive OwnedEvent : Type :=
| OScalar (value : string) (style : ScalarStyle)
| OSequenceStart
| OSequenceEnd
| OMappingStart
| OMappingEnd.

Record SpannedEvent := { se_event : OwnedEvent; se_span : SourceSpan }.

(** The events from [index] on, and the number of nodes. *)
Record Cursor := { cu_rest : list SpannedEvent; cu_nodes : Z }.

Definition error_here (c : Cursor) (code : ErrorCode) (message : string) : yaml_fault :=
  Refused (AdmitErr code message
    (match cu_rest c with e :: _ => se_span e | [] => default_span end)).

Definition refuse (code : ErrorCode) (message : string) (span : SourceSpan) : yaml_fault :=
  Refused (AdmitErr code message span).

(** [Cursor::parse_node] and its two loops; the accumulators are the vectors the
    loops push to. *)
Fixpoint parse_node (fuel : nat) (lim : ParseLimits) (depth : Z) (c : Cursor) :
    result yaml_fault (SpannedValue * Cursor) :=
  match fuel with
  | O => Err OutOfFuel
  | S fuel =>
      check (max_yaml_depth lim <? depth)
        (error_here c YamlDepthLimit ("nesting depth exceeds " +:+ fmt_z (max_yaml_depth lim))) ;;
      let c := {| cu_rest := cu_rest c; cu_nodes := cu_nodes c + 1 |} in
      check (max_yaml_nodes lim <? cu_nodes c)
        (error_here c YamlNodeLimit ("node count exceeds " +:+ fmt_z (max_yaml_nodes lim))) ;;
      match cu_rest c with
      | [] => Err (error_here c UnexpectedEvent "expected a YAML value")
      | event :: rest =>
          let c := {| cu_rest := rest; cu_nodes := cu_nodes c |} in
          match se_event event with
          | OScalar value style =>
              check (max_scalar_bytes lim <? slen value)
                (refuse ScalarLimit
                  ("scalar length exceeds " +:+ fmt_z (max_scalar_bytes lim) +:+ " bytes")
                  (se_span event)) ;;
              v ← map_err Refused (resolve_scalar value style (se_span event));
              Ok (Spanned v (se_span event), c)
          | OSequenceStart => sequence_loop fuel lim depth (se_span event) [] c
          | OMappingStart => mapping_loop fuel lim depth (se_span event) [] c
          | OSequenceEnd | OMappingEnd =>
              Err (refuse UnexpectedEvent "unexpected collection terminator" (se_span event))
          end
      end
  end
with sequence_loop (fuel : nat) (lim : ParseLimits) (depth : Z) (start : SourceSpan)
    (values : list SpannedValue) (c : Cursor) : result yaml_fault (SpannedValue * Cursor) :=
  match fuel with
  | O => Err OutOfFuel
  | S fuel =>
      match cu_rest c with
      | [] => Err (refuse UnexpectedEvent "unterminated sequence" start)
      | next :: rest =>
          match se_event next with
          | OSequenceEnd =>
              Ok (Spanned (YSequence values)
                    (Build_SourceSpan (span_start start) (span_end (se_span next))),
                  {| cu_rest := rest; cu_nodes := cu_nodes c |})
          | _ =>
              check (max_sequence_items lim <=? llen values)
                (refuse SequenceLimit
                  ("sequence length exceeds " +:+ fmt_z (max_sequence_items lim))
                  (se_span next)) ;;
              '(v, c) ← parse_node fuel lim (depth + 1) c;
              sequence_loop fuel lim depth start (values ++ [v]) c
          end
      end
  end
with mapping_loop (fuel : nat) (lim : ParseLimits) (depth : Z) (start : SourceSpan)
    (entries : list MappingEntry) (c : Cursor) : result yaml_fault (SpannedValue * Cursor) :=
  match fuel with
  | O => Err OutOfFuel
  | S fuel =>
      match cu_rest c with
      | [] => Err (refuse UnexpectedEvent "unterminated mapping" start)
      | next :: rest =>
          match se_event next with
          | OMappingEnd =>
              Ok (Spanned (YMapping entries)
                    (Build_SourceSpan (span_start start) (span_end (se_span next))),
                  {| cu_rest := rest; cu_nodes := cu_nodes c |})
          | _ =>
              check (max_mapping_entries lim <=? llen entries)
                (refuse MappingLimit
                  ("mapping length exceeds " +:+ fmt_z (max_mapping_entries lim))
                  (se_span next)) ;;
              '(key, c) ← parse_node fuel lim (depth + 1) c;
              match sv_value key with
              | YString key_text =>
                  check (existsb (fun e => String.eqb (entry_key e) key_text) entries)
                    (refuse DuplicateKey ("duplicate mapping key " +:+ fmt_debug key_text)
                      (sv_span key)) ;;
                  '(value, c) ← parse_node fuel lim (depth + 1) c;
                  mapping_loop fuel lim depth start
                    (entries ++ [Entry key_text (sv_span key) value]) c
              | _ =>
                  Err (refuse ComplexKey "mapping keys must be non-empty strings" (sv_span key))
              end
          end
      end
  end.

(** ** The event stream *)

(** The byte offset of every character, and of the end. *)
Fixpoint character_offsets (offset : Z) (cs : list string) : list Z :=
  match cs with
  | [] => [offset]
  | c :: cs => offset :: character_offsets (offset + slen c) cs
  end.

Definition byte_offset (offsets : list Z) (index : nat) : Z :=
  match offsets !! index with Some o => o | None => default 0 (last offsets) end.

Definition location_of (offsets : list Z) (m : Marker) : SourceLocation :=
  Build_SourceLocation (byte_offset offsets (marker_index m)) (marker_line m) (marker_col m).

Definition from_parser (offsets : list Z) (span : Marker * Marker) : SourceSpan :=
  Build_SourceSpan (location_of offsets (fst span)) (location_of offsets (snd span)).

(** [s.split_inclusive(c)]. *)
Fixpoint split_inclusive (c : ascii) (s : string) : list string :=
  match s with
  | EmptyString => []
  | String a s =>
      if Ascii.eqb a c then schar a :: split_inclusive c s
      else match split_inclusive c s with
           | [] => [schar a]
           | w :: ws => String a w :: ws
           end
  end.

Definition bom : string := String "239" (String "187" (String "191" "")).

Definition trim_start (s : string) : string := sconcat (drop_while char_is_whitespace (chars s)).

(** The lines before the first content line hold no directive. *)
Fixpoint reject_directives (line_index line_offset : Z) (ls : list string) :
    result AdmissionError () :=
  match ls with
  | [] => Ok tt
  | line :: ls =>
      let stripped := default line (strip_suffix (schar newline) line) in
      let content := default line (strip_suffix (schar carriage_return) stripped) in
      let bom_bytes := if (line_index =? 0) && starts_with bom content then 3 else 0 in
      let candidate := sdrop (Z.to_nat bom_bytes) content in
      if starts_with "%" candidate then
        Err (AdmitErr Directive "YAML directives are not supported"
          (span_at (Build_SourceLocation (line_offset + bom_bytes) (line_index + 1)
            (if 0 <? bom_bytes then 1 else 0))))
      else
        let trimmed := trim_start candidate in
        if negb (is_empty trimmed) && negb (starts_with "#" trimmed) then Ok tt
        else reject_directives (line_index + 1) (sat_add line_offset (slen line)) ls
  end.

Definition reject_anchor_or_tag (anchor : Z) (tag : option string) (span : SourceSpan) :
    result AdmissionError () :=
  check (negb (anchor =? 0)) (AdmitErr AnchorError "anchors are not supported" span) ;;
  match tag with
  | Some tag => Err (AdmitErr TagError ("tag " +:+ tag +:+ " is not supported") span)
  | None => Ok tt
  end.

(** The variables of the loop over the parser's events. *)
Record StreamState := {
  st_events : list SpannedEvent;
  st_documents : Z;
  st_nodes : Z;
  st_depth : Z
}.

(** [enforce_stream_node_limit]: the new node count. *)
Definition enforce_stream_node_limit (nodes depth : Z) (lim : ParseLimits) (span : SourceSpan) :
    result AdmissionError Z :=
  let nodes := sat_add nodes 1 in
  check (max_yaml_nodes lim <? nodes)
    (AdmitErr YamlNodeLimit ("node count exceeds " +:+ fmt_z (max_yaml_nodes lim)) span) ;;
  check (max_yaml_depth lim <? depth)
    (AdmitErr YamlDepthLimit ("nesting depth exceeds " +:+ fmt_z (max_yaml_depth lim)) span) ;;
  Ok nodes.

Definition push_event (st : StreamState) (nodes depth : Z) (e : OwnedEvent) (span : SourceSpan) :
    StreamState := {|
  st_events := st_events st ++ [Build_SpannedEvent e span];
  st_documents := st_documents st;
  st_nodes := nodes;
  st_depth := depth
|}.

Definition scan_failure (offsets : list Z) (e : ScanError) : AdmissionError :=
  AdmitErr (if contains_str "unknown anchor" (scan_info e) then AliasError else SyntaxError)
    (scan_info e) (span_at (location_of offsets (scan_marker e))).

(** The body of the loop over the parser's events. *)
Definition stream_event (lim : ParseLimits) (offsets : list Z) (st : StreamState)
    (parsed : result ScanError (Event * (Marker * Marker))) : result AdmissionError StreamState :=
  '(event, parser_span) ← map_err (scan_failure offsets) parsed;
  let span := from_parser offsets parser_span in
  match event with
  | EvNothing | EvStreamStart | EvStreamEnd | EvDocumentEnd => Ok st
  | EvDocumentStart =>
      let documents := st_documents st + 1 in
      check (1 <? documents)
        (AdmitErr MultipleDocuments "exactly one YAML document is accepted" span) ;;
      Ok {| st_events := st_events st; st_documents := documents; st_nodes := st_nodes st;
            st_depth := st_depth st |}
  | EvAlias => Err (AdmitErr AliasError "aliases are not supported" span)
  | EvScalar value style anchor tag =>
      reject_anchor_or_tag anchor tag span ;;
      nodes ← enforce_stream_node_limit (st_nodes st) (sat_add (st_depth st) 1) lim span;
      check (max_scalar_bytes lim <? slen value)
        (AdmitErr ScalarLimit
          ("scalar length exceeds " +:+ fmt_z (max_scalar_bytes lim) +:+ " bytes") span) ;;
      Ok (push_event st nodes (st_depth st) (OScalar value style) span)
  | EvSequenceStart anchor tag =>
      reject_anchor_or_tag anchor tag span ;;
      let depth := sat_add (st_depth st) 1 in
      nodes ← enforce_stream_node_limit (st_nodes st) depth lim span;
      Ok (push_event st nodes depth OSequenceStart span)
  | EvSequenceEnd =>
      Ok (push_event st (st_nodes st) (sat_sub (st_depth st) 1) OSequenceEnd span)
  | EvMappingStart anchor tag =>
      reject_anchor_or_tag anchor tag span ;;
      let depth := sat_add (st_depth st) 1 in
      nodes ← enforce_stream_node_limit (st_nodes st) depth lim span;
      Ok (push_event st nodes depth OMappingStart span)
  | EvMappingEnd =>
      Ok (push_event st (st_nodes st) (sat_sub (st_depth st) 1) OMappingEnd span)
  end.

(** Enough for every call: each event is consumed by one of two calls. *)
Definition yaml_fuel (events : list SpannedEvent) : nat := 2 * length events + 2.

(** The tree of a complete event list. *)
Definition build_tree (lim : ParseLimits) (events : list SpannedEvent) :
    result yaml_fault SpannedValue :=
  '(root, c) ← parse_node (yaml_fuel events) lim 1 {| cu_rest := events; cu_nodes := 0 |};
  check (negb (llen (cu_rest c) =? 0))
    (error_here c UnexpectedEvent "unexpected content after the root value") ;;
  Ok root.

Definition parse_strict `{YamlParser} (source : string) (lim : ParseLimits) :
    result yaml_fault SpannedValue :=
  check (max_yaml_source_bytes lim <? slen source)
    (refuse SourceTooLarge ("source exceeds " +:+ fmt_z (max_yaml_source_bytes lim) +:+ " bytes")
      default_span) ;;
  let offsets := character_offsets 0 (chars source) in
  map_err Refused (reject_directives 0 0 (split_inclusive newline source)) ;;
  st ← map_err Refused
    (try_fold (stream_event lim offsets) (Build_StreamState [] 0 0 0) (yaml_events source));
  check (negb (st_documents st =? 1) || (llen (st_events st) =? 0))
    (refuse UnexpectedEvent "exactly one non-empty YAML document is required" default_span) ;;
  build_tree lim (st_events st).
