(* ===== verification/YamlTree.v ===== *)
(** * The tree builder of strict YAML admission

    A relational description of which tree an event list lays out, and the
    proofs that [build_tree] terminates and returns exactly that tree, within
    every limit and with distinct keys. *)

From stdpp Require Import base gmap list strings pretty.
From Stdlib Require Import Ascii ZArith Lia.
From S2P Require Import Prelude Text StrictYaml.

Open Scope Z_scope.

(** ** What an event list lays out *)

(** Nodes of a tree, mapping keys included. *)
Fixpoint nodes_of (v : SpannedValue) : Z :=
  match v with
  | Spanned value _ =>
      1 + match value with
          | YSequence vs => foldr (fun v n => nodes_of v + n) 0 vs
          | YMapping es =>
              foldr (fun e n => match e with Entry _ _ v => 1 + nodes_of v + n end) 0 es
          | _ => 0
          end
  end.

Definition values_nodes (vs : list SpannedValue) : Z := foldr (fun v n => nodes_of v + n) 0 vs.
Definition entries_nodes (es : list MappingEntry) : Z :=
  foldr (fun e n => match e with Entry _ _ v => 1 + nodes_of v + n end) 0 es.

(** From the start of one event to the end of another. *)
Definition span_between (s e : SourceSpan) : SourceSpan :=
  Build_SourceSpan (span_start s) (span_end e).

(** At nesting depth [depth] the events lay out the value, within the limits. *)
Inductive lays_out (lim : ParseLimits) : Z -> list SpannedEvent -> SpannedValue -> Prop :=
| lays_scalar depth ev text style v :
    depth <= max_yaml_depth lim ->
    se_event ev = OScalar text style -> slen text <= max_scalar_bytes lim ->
    resolve_scalar text style (se_span ev) = Ok v ->
    lays_out lim depth [ev] (Spanned v (se_span ev))
| lays_sequence depth s e evs vs :
    depth <= max_yaml_depth lim -> se_event s = OSequenceStart -> se_event e = OSequenceEnd ->
    lays_values lim (depth + 1) evs vs -> llen vs <= max_sequence_items lim ->
    lays_out lim depth (s :: evs ++ [e])
      (Spanned (YSequence vs) (span_between (se_span s) (se_span e)))
| lays_mapping depth s e evs es :
    depth <= max_yaml_depth lim -> se_event s = OMappingStart -> se_event e = OMappingEnd ->
    lays_entries lim (depth + 1) evs es -> llen es <= max_mapping_entries lim ->
    NoDup (entry_key <$> es) ->
    lays_out lim depth (s :: evs ++ [e])
      (Spanned (YMapping es) (span_between (se_span s) (se_span e)))
with lays_values (lim : ParseLimits) : Z -> list SpannedEvent -> list SpannedValue -> Prop :=
| lays_no_values depth : lays_values lim depth [] []
| lays_value depth evs1 evs2 v vs :
    lays_out lim depth evs1 v -> lays_values lim depth evs2 vs ->
    lays_values lim depth (evs1 ++ evs2) (v :: vs)
with lays_entries (lim : ParseLimits) : Z -> list SpannedEvent -> list MappingEntry -> Prop :=
| lays_no_entries depth : lays_entries lim depth [] []
| lays_entry depth evs1 evs2 evs3 key span v es :
    lays_out lim depth evs1 (Spanned (YString key) span) -> lays_out lim depth evs2 v ->
    lays_entries lim depth evs3 es ->
    lays_entries lim depth (evs1 ++ evs2 ++ evs3) (Entry key span v :: es).

Scheme lays_out_ind' := Minimality for lays_out Sort Prop
  with lays_values_ind' := Minimality for lays_values Sort Prop
  with lays_entries_ind' := Minimality for lays_entries Sort Prop.
Combined Scheme lays_mutind from lays_out_ind', lays_values_ind', lays_entries_ind'.

(** Lengths are [usize] values. *)
Definition limits_wf (lim : ParseLimits) : Prop :=
  0 <= max_sequence_items lim /\ 0 <= max_mapping_entries lim.

Definition is_sequence_end (e : SpannedEvent) : bool :=
  match se_event e with OSequenceEnd => true | _ => false end.
Definition is_mapping_end (e : SpannedEvent) : bool :=
  match se_event e with OMappingEnd => true | _ => false end.

(** ** One round of each loop *)

Lemma sequence_round fuel lim depth start vs ev rest n :
  sequence_loop (S fuel) lim depth start vs (Build_Cursor (ev :: rest) n)
  = if is_sequence_end ev
    then Ok (Spanned (YSequence vs) (span_between start (se_span ev)), Build_Cursor rest n)
    else
      check (max_sequence_items lim <=? llen vs)
        (refuse SequenceLimit ("sequence length exceeds " +:+ fmt_z (max_sequence_items lim))
          (se_span ev)) ;;
      '(v, c) ← parse_node fuel lim (depth + 1) (Build_Cursor (ev :: rest) n);
      sequence_loop fuel lim depth start (vs ++ [v]) c.
Proof. unfold is_sequence_end. cbn [sequence_loop cu_rest]. by destruct (se_event ev). Qed.

Lemma mapping_round fuel lim depth start es ev rest n :
  mapping_loop (S fuel) lim depth start es (Build_Cursor (ev :: rest) n)
  = if is_mapping_end ev
    then Ok (Spanned (YMapping es) (span_between start (se_span ev)), Build_Cursor rest n)
    else
      check (max_mapping_entries lim <=? llen es)
        (refuse MappingLimit ("mapping length exceeds " +:+ fmt_z (max_mapping_entries lim))
          (se_span ev)) ;;
      '(key, c) ← parse_node fuel lim (depth + 1) (Build_Cursor (ev :: rest) n);
      match sv_value key with
      | YString key_text =>
          check (existsb (fun e => String.eqb (entry_key e) key_text) es)
            (refuse DuplicateKey ("duplicate mapping key " +:+ fmt_debug key_text)
              (sv_span key)) ;;
          '(value, c) ← parse_node fuel lim (depth + 1) c;
          mapping_loop fuel lim depth start (es ++ [Entry key_text (sv_span key) value]) c
      | _ => Err (refuse ComplexKey "mapping keys must be non-empty strings" (sv_span key))
      end.
Proof. unfold is_mapping_end. cbn [mapping_loop cu_rest]. by destruct (se_event ev). Qed.

(** ** Termination *)

(** With fuel for the events left, a call does not run out and consumes. *)
Definition runs (rest : nat) (r : result yaml_fault (SpannedValue * Cursor)) : Prop :=
  match r with
  | Ok (_, c) => (length (cu_rest c) < rest)%nat
  | Err (Refused _) => True
  | Err OutOfFuel => False
  end.

Lemma runs_check b e rest r : runs rest r -> runs rest (check b (Refused e) ;; r).
Proof. by destruct b. Qed.

Lemma runs_bind rest rest' r (f : SpannedValue * Cursor -> result yaml_fault (SpannedValue * Cursor)) :
  runs rest r -> (forall v c, (length (cu_rest c) < rest)%nat -> runs rest' (f (v, c))) ->
  runs rest' (r ≫= f).
Proof. intros Hr Hf. destruct r as [[v c]|[e|]]; simpl in *; auto. Qed.

Lemma runs_weaken rest rest' r : (rest <= rest')%nat -> runs rest r -> runs rest' r.
Proof. intros Hle. destruct r as [[v c]|[e|]]; simpl; (lia || done). Qed.

Lemma parser_runs fuel lim :
  (forall depth c, (2 * length (cu_rest c) + 1 <= fuel)%nat ->
     runs (length (cu_rest c)) (parse_node fuel lim depth c)) /\
  (forall depth start vs c, (2 * length (cu_rest c) + 2 <= fuel)%nat ->
     runs (length (cu_rest c)) (sequence_loop fuel lim depth start vs c)) /\
  (forall depth start es c, (2 * length (cu_rest c) + 2 <= fuel)%nat ->
     runs (length (cu_rest c)) (mapping_loop fuel lim depth start es c)).
Proof.
  induction fuel as [|fuel (IHn & IHs & IHm)]; [split_and!; intros; lia|]. split_and!.
  - intros depth [rest nodes] Hf. cbn [parse_node]. cbv zeta. cbn [cu_rest cu_nodes] in *.
    apply runs_check, runs_check. destruct rest as [|ev rest]; [done|]. simpl length in *.
    destruct (se_event ev); [|eapply runs_weaken; [|apply IHs; simpl; lia]; simpl; lia|done
      |eapply runs_weaken; [|apply IHm; simpl; lia]; simpl; lia|done].
    apply runs_check. destruct (resolve_scalar _ _ _); simpl; [lia|done].
  - intros depth start vs [[|ev rest] nodes] Hf; [done|]. rewrite sequence_round. simpl length in *.
    destruct (is_sequence_end ev); [simpl; lia|]. apply runs_check.
    eapply runs_bind; [apply IHn; simpl; lia|]. intros v c Hc. simpl in Hc.
    eapply runs_weaken; [|apply IHs; lia]. lia.
  - intros depth start es [[|ev rest] nodes] Hf; [done|]. rewrite mapping_round. simpl length in *.
    destruct (is_mapping_end ev); [simpl; lia|]. apply runs_check.
    eapply runs_bind; [apply IHn; simpl; lia|]. intros k c Hc. simpl in Hc.
    destruct (sv_value k); try done. apply runs_check.
    eapply runs_bind; [apply IHn; lia|]. intros v c' Hc'.
    eapply runs_weaken; [|apply IHm; lia]. lia.
Qed.

(** ** Soundness *)

(** Between two cursors [evs] was consumed and [n] nodes counted. *)
Definition consumed (lim : ParseLimits) (c : Cursor) (evs : list SpannedEvent) (n : Z) (c' : Cursor) :
    Prop :=
  cu_rest c = evs ++ cu_rest c' /\ cu_nodes c' = cu_nodes c + n /\
  cu_nodes c' <= max_yaml_nodes lim.

Lemma consumed_trans lim c evs n c' evs' n' c'' :
  consumed lim c evs n c' -> consumed lim c' evs' n' c'' ->
  consumed lim c (evs ++ evs') (n + n') c''.
Proof.
  intros (E1 & N1 & B1) (E2 & N2 & B2). split_and!; [|lia|done].
  by rewrite E1, E2, app_assoc.
Qed.

Lemma end_sequence e : is_sequence_end e = true -> se_event e = OSequenceEnd.
Proof. unfold is_sequence_end. by destruct (se_event e). Qed.
Lemma end_mapping e : is_mapping_end e = true -> se_event e = OMappingEnd.
Proof. unfold is_mapping_end. by destruct (se_event e). Qed.

(** What a loop that has read [vs] goes on to return. *)
Definition sequence_rest (lim : ParseLimits) (depth : Z) (start : SourceSpan)
    (vs : list SpannedValue) (c : Cursor) (r : SpannedValue) (c' : Cursor) : Prop :=
  exists evs ws e,
    se_event e = OSequenceEnd /\ lays_values lim (depth + 1) evs ws /\
    r = Spanned (YSequence (vs ++ ws)) (span_between start (se_span e)) /\
    llen (vs ++ ws) <= max_sequence_items lim /\
    consumed lim c (evs ++ [e]) (values_nodes ws) c'.

Definition mapping_rest (lim : ParseLimits) (depth : Z) (start : SourceSpan)
    (es : list MappingEntry) (c : Cursor) (r : SpannedValue) (c' : Cursor) : Prop :=
  exists evs fs e,
    se_event e = OMappingEnd /\ lays_entries lim (depth + 1) evs fs /\
    r = Spanned (YMapping (es ++ fs)) (span_between start (se_span e)) /\
    llen (es ++ fs) <= max_mapping_entries lim /\ NoDup (entry_key <$> (es ++ fs)) /\
    consumed lim c (evs ++ [e]) (entries_nodes fs) c'.

Lemma sequence_rest_cons lim depth start vs c evs v c1 r c' :
  lays_out lim (depth + 1) evs v -> consumed lim c evs (nodes_of v) c1 ->
  sequence_rest lim depth start (vs ++ [v]) c1 r c' -> sequence_rest lim depth start vs c r c'.
Proof.
  intros Hv Hc (evs' & ws & e & He & Hl & -> & Hn & Hc'). rewrite <- app_assoc in *.
  exists (evs ++ evs'), (v :: ws), e. split_and!; [done|by constructor|done|done|].
  rewrite <- app_assoc. by eapply consumed_trans.
Qed.

Lemma mapping_rest_cons lim depth start es c evs1 evs2 key kspan v c1 c2 r c' :
  lays_out lim (depth + 1) evs1 (Spanned (YString key) kspan) ->
  lays_out lim (depth + 1) evs2 v ->
  consumed lim c evs1 1 c1 -> consumed lim c1 evs2 (nodes_of v) c2 ->
  mapping_rest lim depth start (es ++ [Entry key kspan v]) c2 r c' ->
  mapping_rest lim depth start es c r c'.
Proof.
  intros Hk Hv Hc1 Hc2 (evs' & fs & e & He & Hl & -> & Hn & Hd & Hc'). rewrite <- app_assoc in *.
  exists (evs1 ++ evs2 ++ evs'), (Entry key kspan v :: fs), e.
  split_and!; [done|by constructor|done..|].
  pose proof (consumed_trans _ _ _ _ _ _ _ _ Hc1 (consumed_trans _ _ _ _ _ _ _ _ Hc2 Hc')) as H.
  rewrite <- !app_assoc in *. by rewrite Z.add_assoc in H.
Qed.

Lemma key_unseen es key :
  existsb (fun e => String.eqb (entry_key e) key) es = false -> key ∉ (entry_key <$> es).
Proof.
  induction es as [|e es IH]; cbn [existsb]; [set_solver|].
  intros [H%String.eqb_neq Hs]%orb_false_iff. rewrite fmap_cons. set_solver.
Qed.

Lemma scalar_one_node text style span y span' :
  resolve_scalar text style span = Ok y -> nodes_of (Spanned y span') = 1.
Proof. unfold resolve_scalar. intros H. repeat case_match; simplify_eq; done. Qed.

Lemma nodes_sequence vs span : nodes_of (Spanned (YSequence vs) span) = 1 + values_nodes vs.
Proof. done. Qed.
Lemma nodes_mapping es span : nodes_of (Spanned (YMapping es) span) = 1 + entries_nodes es.
Proof. done. Qed.

Lemma parser_sound fuel lim :
  (forall depth c v c', parse_node fuel lim depth c = Ok (v, c') -> limits_wf lim ->
     exists evs, lays_out lim depth evs v /\ consumed lim c evs (nodes_of v) c') /\
  (forall depth start vs c r c', sequence_loop fuel lim depth start vs c = Ok (r, c') ->
     limits_wf lim -> llen vs <= max_sequence_items lim -> cu_nodes c <= max_yaml_nodes lim ->
     sequence_rest lim depth start vs c r c') /\
  (forall depth start es c r c', mapping_loop fuel lim depth start es c = Ok (r, c') ->
     limits_wf lim -> llen es <= max_mapping_entries lim -> NoDup (entry_key <$> es) ->
     cu_nodes c <= max_yaml_nodes lim -> mapping_rest lim depth start es c r c').
Proof.
  induction fuel as [|fuel (IHn & IHs & IHm)]; [done|]. split_and!.
  - intros depth [rest n] v c' H Hw. cbn [parse_node cu_rest cu_nodes] in H.
    apply bind_ok in H as ([] & Hd%check_ok%Z.ltb_ge & H). cbv zeta in H. cbn [cu_rest cu_nodes] in H.
    apply bind_ok in H as ([] & Hn%check_ok%Z.ltb_ge & H).
    destruct rest as [|ev rest]; [done|]. destruct (se_event ev) eqn:Eev; try done.
    + apply bind_ok in H as ([] & Hs%check_ok%Z.ltb_ge & H).
      apply bind_ok in H as (y & Hy%map_err_ok & [= <- <-]).
      exists [ev]. split; [by econstructor|]. unfold consumed. cbn [cu_rest cu_nodes app].
      rewrite (scalar_one_node _ _ _ _ _ Hy). by split_and!.
    + apply IHs in H as (evs & ws & e & He & Hl & -> & Hlen & E & Hno & Hb);
        [|done|apply Hw|done].
      exists (ev :: evs ++ [e]). split; [by constructor|]. cbn [cu_rest cu_nodes app] in *.
      rewrite nodes_sequence. split_and!; simpl; [by rewrite E|lia|done].
    + apply IHm in H as (evs & ws & e & He & Hl & -> & Hlen & Hnd & E & Hno & Hb);
        [|done|apply Hw|constructor|done].
      exists (ev :: evs ++ [e]). split; [by constructor|]. cbn [cu_rest cu_nodes app] in *.
      rewrite nodes_mapping. split_and!; simpl; [by rewrite E|lia|done].
  - intros depth start vs [[|ev rest] n] r c' H Hw Hl Hno; [done|]. rewrite sequence_round in H.
    destruct (is_sequence_end ev) eqn:Eev.
    + injection H as <- <-. exists [], [], ev. rewrite app_nil_r.
      split_and!; [by apply end_sequence|apply lays_no_values|done|done|].
      split_and!; simpl; (done || lia).
    + apply bind_ok in H as ([] & Hc%check_ok%Z.leb_gt & H).
      apply bind_ok in H as ([v c] & Hv & H). apply IHn in Hv as (evs & Hlv & Hcv); [|done].
      eapply sequence_rest_cons; [done..|]. apply IHs; [done..| |apply Hcv].
      rewrite llen_app. unfold llen in *. simpl. lia.
  - intros depth start es [[|ev rest] n] r c' H Hw Hl Hnd Hno; [done|]. rewrite mapping_round in H.
    destruct (is_mapping_end ev) eqn:Eev.
    + injection H as <- <-. exists [], [], ev. rewrite app_nil_r.
      split_and!; [by apply end_mapping|apply lays_no_entries|done|done|done|].
      split_and!; simpl; (done || lia).
    + apply bind_ok in H as ([] & Hc%check_ok%Z.leb_gt & H).
      apply bind_ok in H as ([[k ks] c] & Hk & H). apply IHn in Hk as (evs & Hlk & Hck); [|done].
      destruct k as [| | |key| |]; try done. cbn [sv_value sv_span] in H.
      apply bind_ok in H as ([] & Hu%check_ok%key_unseen & H).
      apply bind_ok in H as ([v c2] & Hv & H). apply IHn in Hv as (evs2 & Hlv & Hcv); [|done].
      eapply mapping_rest_cons; [exact Hlk|exact Hlv|exact Hck|exact Hcv|].
      apply IHm; [done..| | |apply Hcv].
      * rewrite llen_app. unfold llen in *. simpl. lia.
      * rewrite fmap_app. apply NoDup_app. split_and!; [done|set_solver|apply NoDup_singleton].
Qed.

(** ** Completeness *)

Lemma lays_out_head lim depth evs v :
  lays_out lim depth evs v ->
  exists ev evs', evs = ev :: evs' /\ is_sequence_end ev = false /\ is_mapping_end ev = false.
Proof.
  unfold is_sequence_end, is_mapping_end.
  intros [? ev ? ? ? ? E|? ev ? ? ? ? E|? ev ? ? ? ? E]; do 2 eexists; split; try done; by rewrite E.
Qed.

Lemma nodes_pos v : 1 <= nodes_of v.
Proof.
  revert v. fix IH 1. intros [value span]. destruct value as [| | | |vs|es]; [clear IH; done..| |].
  - rewrite nodes_sequence. cut (0 <= values_nodes vs); [lia|]. unfold values_nodes.
    induction vs as [|v vs IHvs]; simpl; [done|]. pose proof (IH v). lia.
  - rewrite nodes_mapping. cut (0 <= entries_nodes es); [lia|]. unfold entries_nodes.
    induction es as [|[k ks v] es IHes]; simpl; [done|]. pose proof (IH v). lia.
Qed.

Lemma values_nodes_nonneg vs : 0 <= values_nodes vs.
Proof.
  unfold values_nodes. induction vs as [|v vs IH]; simpl; [done|]. pose proof (nodes_pos v). lia.
Qed.
Lemma entries_nodes_nonneg es : 0 <= entries_nodes es.
Proof.
  unfold entries_nodes. induction es as [|[k ks v] es IH]; simpl; [done|].
  pose proof (nodes_pos v). lia.
Qed.

Definition node_complete (lim : ParseLimits) (depth : Z) (evs : list SpannedEvent)
    (v : SpannedValue) : Prop :=
  forall fuel rest n, (2 * length (evs ++ rest) + 1 <= fuel)%nat ->
  n + nodes_of v <= max_yaml_nodes lim ->
  parse_node fuel lim depth (Build_Cursor (evs ++ rest) n)
  = Ok (v, Build_Cursor rest (n + nodes_of v)).

Definition values_complete (lim : ParseLimits) (inner : Z) (evs : list SpannedEvent)
    (vs : list SpannedValue) : Prop :=
  forall depth fuel start acc rest e n, inner = depth + 1 -> se_event e = OSequenceEnd ->
  (2 * length (evs ++ e :: rest) + 2 <= fuel)%nat ->
  n + values_nodes vs <= max_yaml_nodes lim -> llen (acc ++ vs) <= max_sequence_items lim ->
  sequence_loop fuel lim depth start acc (Build_Cursor (evs ++ e :: rest) n)
  = Ok (Spanned (YSequence (acc ++ vs)) (span_between start (se_span e)),
        Build_Cursor rest (n + values_nodes vs)).

Definition entries_complete (lim : ParseLimits) (inner : Z) (evs : list SpannedEvent)
    (es : list MappingEntry) : Prop :=
  forall depth fuel start acc rest e n, inner = depth + 1 -> se_event e = OMappingEnd ->
  (2 * length (evs ++ e :: rest) + 2 <= fuel)%nat ->
  n + entries_nodes es <= max_yaml_nodes lim -> llen (acc ++ es) <= max_mapping_entries lim ->
  NoDup (entry_key <$> (acc ++ es)) ->
  mapping_loop fuel lim depth start acc (Build_Cursor (evs ++ e :: rest) n)
  = Ok (Spanned (YMapping (acc ++ es)) (span_between start (se_span e)),
        Build_Cursor rest (n + entries_nodes es)).

Lemma node_complete_start fuel lim depth ev rest n :
  depth <= max_yaml_depth lim -> n + 1 <= max_yaml_nodes lim ->
  parse_node (S fuel) lim depth (Build_Cursor (ev :: rest) n)
  = let c := Build_Cursor rest (n + 1) in
    match se_event ev with
    | OScalar value style =>
        check (max_scalar_bytes lim <? slen value)
          (refuse ScalarLimit
            ("scalar length exceeds " +:+ fmt_z (max_scalar_bytes lim) +:+ " bytes")
            (se_span ev)) ;;
        v ← map_err Refused (resolve_scalar value style (se_span ev));
        Ok (Spanned v (se_span ev), c)
    | OSequenceStart => sequence_loop fuel lim depth (se_span ev) [] c
    | OMappingStart => mapping_loop fuel lim depth (se_span ev) [] c
    | OSequenceEnd | OMappingEnd =>
        Err (refuse UnexpectedEvent "unexpected collection terminator" (se_span ev))
    end.
Proof.
  intros Hd Hn. cbn [parse_node cu_rest cu_nodes].
  rewrite (proj2 (Z.ltb_ge (max_yaml_depth lim) depth)) by done.
  unfold check at 1. unfold mbind at 1, result_bind at 1. cbv zeta. cbn [cu_rest cu_nodes].
  by rewrite (proj2 (Z.ltb_ge (max_yaml_nodes lim) (n + 1))).
Qed.

Lemma complete_scalar lim depth ev text style v :
  depth <= max_yaml_depth lim -> se_event ev = OScalar text style ->
  slen text <= max_scalar_bytes lim -> resolve_scalar text style (se_span ev) = Ok v ->
  node_complete lim depth [ev] (Spanned v (se_span ev)).
Proof.
  intros Hd He Hs Hr [|fuel] rest n Hf Hn; [simpl in Hf; lia|].
  rewrite (scalar_one_node _ _ _ _ _ Hr) in *. simpl app. rewrite node_complete_start by lia.
  cbv zeta. rewrite He, (proj2 (Z.ltb_ge _ _)) by done. simpl. by rewrite Hr.
Qed.

Lemma complete_sequence lim depth s e evs vs :
  depth <= max_yaml_depth lim -> se_event s = OSequenceStart -> se_event e = OSequenceEnd ->
  values_complete lim (depth + 1) evs vs -> llen vs <= max_sequence_items lim ->
  node_complete lim depth (s :: evs ++ [e])
    (Spanned (YSequence vs) (span_between (se_span s) (se_span e))).
Proof.
  intros Hd Hs He IH Hl [|fuel] rest n Hf Hn; [lia|]. rewrite nodes_sequence in *.
  pose proof (values_nodes_nonneg vs). simpl app in *. rewrite <- app_assoc in *. simpl app in *.
  rewrite node_complete_start by lia. cbv zeta. rewrite Hs.
  rewrite IH by (simpl in *; done || lia). simpl app. by rewrite Z.add_assoc.
Qed.

Lemma complete_mapping lim depth s e evs es :
  depth <= max_yaml_depth lim -> se_event s = OMappingStart -> se_event e = OMappingEnd ->
  entries_complete lim (depth + 1) evs es -> llen es <= max_mapping_entries lim ->
  NoDup (entry_key <$> es) ->
  node_complete lim depth (s :: evs ++ [e])
    (Spanned (YMapping es) (span_between (se_span s) (se_span e))).
Proof.
  intros Hd Hs He IH Hl Hk [|fuel] rest n Hf Hn; [lia|]. rewrite nodes_mapping in *.
  pose proof (entries_nodes_nonneg es). simpl app in *. rewrite <- app_assoc in *. simpl app in *.
  rewrite node_complete_start by lia. cbv zeta. rewrite Hs.
  rewrite IH by (simpl in *; done || lia). simpl app. by rewrite Z.add_assoc.
Qed.

Lemma complete_value lim depth evs1 evs2 v vs :
  lays_out lim depth evs1 v -> node_complete lim depth evs1 v -> values_complete lim depth evs2 vs ->
  values_complete lim depth (evs1 ++ evs2) (v :: vs).
Proof.
  intros Hv IHv IH d fuel start acc rest e n -> He Hf Hn Hl.
  destruct (lays_out_head _ _ _ _ Hv) as (ev & evs' & -> & Hs & _).
  destruct fuel as [|fuel]; [lia|]. rewrite <- app_assoc in *. simpl app in *.
  change (values_nodes (v :: vs)) with (nodes_of v + values_nodes vs) in *.
  pose proof (values_nodes_nonneg vs). rewrite sequence_round, Hs.
  rewrite (proj2 (Z.leb_gt _ _)) by (rewrite llen_app, llen_cons in Hl;
    pose proof (llen_nonneg vs); lia).
  unfold check at 1. unfold mbind at 1, result_bind at 1.
  pose proof (IHv fuel (evs2 ++ e :: rest) n ltac:(simpl in *; lia) ltac:(lia)) as Ev.
  simpl app in Ev. rewrite Ev. unfold mbind, result_bind.
  rewrite (IH d fuel start (acc ++ [v]) rest e);
    [by rewrite <- app_assoc, Z.add_assoc|done|done| |lia|by rewrite <- app_assoc].
  simpl in Hf. rewrite length_app in Hf. lia.
Qed.

Lemma complete_entry lim depth evs1 evs2 evs3 key span v es :
  lays_out lim depth evs1 (Spanned (YString key) span) ->
  node_complete lim depth evs1 (Spanned (YString key) span) ->
  lays_out lim depth evs2 v -> node_complete lim depth evs2 v ->
  entries_complete lim depth evs3 es ->
  entries_complete lim depth (evs1 ++ evs2 ++ evs3) (Entry key span v :: es).
Proof.
  intros Hk IHk Hv IHv IH d fuel start acc rest e n -> He Hf Hn Hl Hd.
  destruct (lays_out_head _ _ _ _ Hk) as (ev & evs' & -> & _ & Hs).
  destruct fuel as [|fuel]; [lia|]. rewrite <- !app_assoc in *. simpl app in *.
  change (entries_nodes (Entry key span v :: es)) with (1 + nodes_of v + entries_nodes es) in *.
  pose proof (entries_nodes_nonneg es). pose proof (nodes_pos v).
  rewrite mapping_round, Hs.
  rewrite (proj2 (Z.leb_gt _ _)) by (rewrite llen_app, llen_cons in Hl;
    pose proof (llen_nonneg es); lia).
  unfold check at 1. unfold mbind at 1, result_bind at 1.
  pose proof (IHk fuel (evs2 ++ evs3 ++ e :: rest) n ltac:(simpl in *; lia) ltac:(simpl; lia)) as Ek.
  simpl app in Ek. rewrite Ek. unfold mbind at 1, result_bind at 1. cbn [sv_value sv_span].
  rewrite existsb_none.
  2: { intros x Hx. apply String.eqb_neq. rewrite fmap_app, fmap_cons in Hd.
       apply NoDup_app in Hd as (_ & Hd & _). intros E. apply (Hd (entry_key x)).
       - by apply list_elem_of_fmap_2.
       - rewrite E. by left. }
  unfold check at 1. unfold mbind at 1, result_bind at 1.
  simpl in Hf. rewrite !length_app in Hf.
  rewrite (IHv fuel (evs3 ++ e :: rest)) by (simpl in *; rewrite ?length_app; simpl; lia).
  unfold mbind, result_bind.
  rewrite (IH d fuel start (acc ++ [Entry key span v]) rest e); try done.
  - rewrite <- app_assoc. simpl. do 3 f_equal. lia.
  - rewrite length_app. simpl in *. lia.
  - simpl. lia.
  - by rewrite <- app_assoc.
  - by rewrite <- app_assoc.
Qed.

Lemma parser_complete lim :
  (forall depth evs v, lays_out lim depth evs v -> node_complete lim depth evs v) /\
  (forall depth evs vs, lays_values lim depth evs vs -> values_complete lim depth evs vs) /\
  (forall depth evs es, lays_entries lim depth evs es -> entries_complete lim depth evs es).
Proof.
  apply lays_mutind.
  - intros. by eapply complete_scalar.
  - intros. by apply complete_sequence.
  - intros. by apply complete_mapping.
  - intros inner depth fuel start acc rest e n -> He Hf _ Hl. destruct fuel; [lia|].
    simpl app. rewrite sequence_round. unfold is_sequence_end. rewrite He, app_nil_r.
    unfold values_nodes. simpl. by rewrite Z.add_0_r.
  - intros. by apply complete_value.
  - intros inner depth fuel start acc rest e n -> He Hf _ Hl _. destruct fuel; [lia|].
    simpl app. rewrite mapping_round. unfold is_mapping_end. rewrite He, app_nil_r.
    unfold entries_nodes. simpl. by rewrite Z.add_0_r.
  - intros. by apply complete_entry.
Qed.

Lemma build_tree_total lim events : build_tree lim events <> Err OutOfFuel.
Proof.
  unfold build_tree.
  pose proof (proj1 (parser_runs (yaml_fuel events) lim) 1 (Build_Cursor events 0)) as H.
  unfold yaml_fuel in *. specialize (H ltac:(simpl; lia)).
  destruct (parse_node _ _ _ _) as [[v c]|[e|]]; [|done|done].
  simpl. unfold mbind, result_bind. by destruct (negb _).
Qed.

Lemma build_tree_ok lim events root :
  limits_wf lim ->
  build_tree lim events = Ok root <->
  lays_out lim 1 events root /\ nodes_of root <= max_yaml_nodes lim.
Proof.
  intros Hw. unfold build_tree. split.
  - intros ([v c] & Hn & H)%bind_ok. apply bind_ok in H as ([] & Hz%check_ok & [= ->]).
    apply (proj1 (parser_sound _ _)) in Hn as (evs & Hl & E & Hno & Hb); [|done].
    apply negb_false_iff, Z.eqb_eq in Hz. destruct (cu_rest c); [|unfold llen in Hz; simpl in Hz; lia].
    simpl in *. rewrite app_nil_r in E. subst. split; [done|lia].
  - intros [Hl Hn]. apply (proj1 (parser_complete lim)) in Hl.
    specialize (Hl (yaml_fuel events) [] 0). rewrite app_nil_r in Hl.
    rewrite Hl by (unfold yaml_fuel; lia). done.
Qed.

(** What admission asks of a source and its event stream. *)
Definition admitted `{YamlParser} (source : string) (lim : ParseLimits) (st : StreamState) : Prop :=
  slen source <= max_yaml_source_bytes lim /\
  reject_directives 0 0 (split_inclusive newline source) = Ok tt /\
  try_fold (stream_event lim (character_offsets 0 (chars source))) (Build_StreamState [] 0 0 0)
    (yaml_events source) = Ok st /\
  st_documents st = 1.

(** C29. Strict YAML admission builds exactly the tree its events lay out.  It
    never runs past its recursion; and it returns a tree if and only if the
    source is within its size, has no directive, its events pass the stream
    checks as one document, and the whole event list lays that tree out with
    distinct keys and within the depth, scalar, sequence, mapping and node
    limits. *)
Theorem parse_strict_exact `{YamlParser} source lim :
  limits_wf lim ->
  parse_strict source lim <> Err OutOfFuel /\
  forall root, parse_strict source lim = Ok root <->
    exists st, admitted source lim st /\ lays_out lim 1 (st_events st) root /\
      nodes_of root <= max_yaml_nodes lim.
Proof.
  intros Hw. unfold parse_strict, admitted. split.
  - intros Hx. apply bind_err in Hx as [?|([] & _ & Hx)]; [by destruct (_ <? _)|]. cbv zeta in Hx.
    apply bind_err in Hx as [Hx|([] & _ & Hx)]; [by destruct (reject_directives _ _ _)|].
    apply bind_err in Hx as [Hx|(st & _ & Hx)]; [by destruct (try_fold _ _ _)|].
    apply bind_err in Hx as [Hx|([] & _ & Hx)]; [by destruct (_ || _)|].
    by apply build_tree_total in Hx.
  - intros root. split.
    + intros ([] & Hs%check_ok%Z.ltb_ge & Hx)%bind_ok. cbv zeta in Hx.
      apply bind_ok in Hx as ([] & Hd%map_err_ok & Hx).
      apply bind_ok in Hx as (st & Hf%map_err_ok & Hx).
      apply bind_ok in Hx as ([] & [Hn%negb_false_iff%Z.eqb_eq _]%check_ok%orb_false_iff & Hx).
      exists st. by rewrite <- build_tree_ok.
    + intros (st & (Hs & Hd & Hf & Hn) & Hl & Hno).
      apply bind_ok. exists tt. split; [by apply check_ok, Z.ltb_ge|]. cbv zeta.
      apply bind_ok. exists tt. split; [by rewrite Hd|].
      apply bind_ok. exists st. split; [by rewrite Hf|].
      apply bind_ok. exists tt. split; [|by apply build_tree_ok].
      destruct (lays_out_head _ _ _ _ Hl) as (ev & evs & -> & _).
      apply check_ok, orb_false_iff. rewrite Hn. split; [done|]. by apply Z.eqb_neq.
Qed.

(** ** Example *)

Definition example_marker (n : nat) : Marker := Build_Marker n 1 (Z.of_nat n).
Definition example_event (n m : nat) (e : Event) : result ScanError (Event * (Marker * Marker)) :=
  Ok (e, (example_marker n, example_marker m)).

(** A parser that knows one document, [{version: 1}]. *)
Definition example_parser : YamlParser := {|
  yaml_events _ := [
    example_event 0 0 EvStreamStart; example_event 0 0 EvDocumentStart;
    example_event 0 1 (EvMappingStart 0 None);
    example_event 1 8 (EvScalar "version" Plain 0 None);
    example_event 10 11 (EvScalar "1" Plain 0 None);
    example_event 11 12 EvMappingEnd; example_event 12 12 EvDocumentEnd;
    example_event 12 12 EvStreamEnd]
|}.

Definition example_tree : SpannedValue :=
  let at_ n := Build_SourceLocation n 1 n in
  Spanned (YMapping [Entry "version" (Build_SourceSpan (at_ 1) (at_ 8))
    (Spanned (YInteger 1) (Build_SourceSpan (at_ 10) (at_ 11)))])
    (Build_SourceSpan (at_ 0) (at_ 12)).

Lemma parse_strict_exact_witness :
  exists st, admitted (H := example_parser) "{version: 1}" default_parse_limits st /\
    lays_out default_parse_limits 1 (st_events st) example_tree /\ nodes_of example_tree <= 4096.
Proof.
  apply (proj2 (parse_strict_exact (H := example_parser) "{version: 1}" default_parse_limits
    ltac:(split; discriminate)) example_tree).
  vm_compute. reflexivity.
Defined.
