(* ===== verification/PipelineIr.v ===== *)
(** * The Pipeline IR and its validator (crates/pipeline-ir/src/model.rs)

    The canonical pipeline, structural validation, binding of typed parameters
    and re-instantiation of an admitted pipeline.  A [BTreeMap<String, V>] is a
    [bmap V]; the materialized fields and the expression context, which are
    only looked up, are finite maps. *)

From stdpp Require Import base gmap list strings pretty.
From Stdlib Require Import Ascii ZArith Lia.
From S2P Require Import Prelude Text Bytes Expression Domain Artifacts StrictYaml.

Open Scope Z_scope.

(** ** Bounds and schema versions *)

Definition MAX_IR_STRING_BYTES : Z := 16 * 1024.
Definition MAX_STAGES : Z := 128.
Definition MAX_STEPS : Z := 4096.
Definition MAX_PARAMETERS : Z := 128.
Definition MAX_EXPRESSION_BINDINGS : Z := 8192.

Record SchemaVersion := Schema { major : Z; minor : Z }.

#[export] Instance SchemaVersion_eq_dec : EqDecision SchemaVersion.
Proof. solve_decision. Defined.

Definition IR_V1 : SchemaVersion := Schema 1 0.
Definition IR_V1_1 : SchemaVersion := Schema 1 1.
Definition IR_V1_2 : SchemaVersion := Schema 1 2.
Definition IR_V1_3 : SchemaVersion := Schema 1 3.
Definition IR_V1_4 : SchemaVersion := Schema 1 4.
Definition IR_V1_5 : SchemaVersion := Schema 1 5.
Definition IR_V1_6 : SchemaVersion := Schema 1 6.
Definition IR_V1_7 : SchemaVersion := Schema 1 7.
Definition IR_V1_8 : SchemaVersion := Schema 1 8.
Definition IR_V1_9 : SchemaVersion := Schema 1 9.

Inductive SchemaCompatibility : Type := Compatible | ReaderTooOld | MajorMismatch.

Definition compatibility_with (self produced : SchemaVersion) : SchemaCompatibility :=
  if negb (major self =? major produced) then MajorMismatch
  else if minor self <? minor produced then ReaderTooOld
  else Compatible.

(** ** Data *)

Record CompilerIdentity := { compiler_name : string; compiler_version : string }.
Record Provenance := {
  source_id : string;
  source_sha256 : string;
  compiler : CompilerIdentity
}.

Inductive ParameterType : Type := TyBool | TyInteger | TyString.

#[export] Instance ParameterType_eq_dec : EqDecision ParameterType.
Proof. solve_decision. Defined.

Definition parameter_type_name (t : ParameterType) : string :=
  match t with TyBool => "boolean" | TyInteger => "integer" | TyString => "string" end.

Definition accepts (t : ParameterType) (v : ParameterValue) : bool :=
  match t, v with
  | TyBool, PBool _ | TyInteger, PInteger _ | TyString, PString _ => true
  | _, _ => false
  end.

Record ParameterDefinition := {
  pd_type : ParameterType;
  pd_default : option ParameterValue;
  pd_secret : bool
}.

Record ExpressionBinding := { eb_path : string; eb_expression : Expression }.

Inductive ConnectorEffectClass : Type := Idempotent | ExternallyIdempotent | NonIdempotent.
Inductive JsonFieldType : Type := JArray | JBoolean | JNull | JNumber | JObject | JString.
Inductive AmbiguityPolicy : Type := ObserveThenReconcile.
Inductive ProcessMode : Type := Direct | WindowsCmd | PowerShell.

#[export] Instance JsonFieldType_eq_dec : EqDecision JsonFieldType.
Proof. solve_decision. Defined.
#[export] Instance ProcessMode_eq_dec : EqDecision ProcessMode.
Proof. solve_decision. Defined.

Record ProcessStep := {
  ps_mode : ProcessMode;
  ps_program : string;
  ps_args : list string;
  ps_env : bmap string;
  ps_timeout_seconds : option Z;
  ps_source_span : SourceSpan
}.

Record ConnectorIntentStep := {
  cn_mapping_id : string;
  cn_mapping_digest : string;
  cn_effect_class : ConnectorEffectClass;
  cn_effect_key_template : string;
  cn_public_input_schema : bmap JsonFieldType;
  cn_protected_secret_ref_schema : bmap JsonFieldType;
  cn_expected_public_result_schema : bmap JsonFieldType;
  cn_timeout_seconds : Z;
  cn_ambiguity_policy : AmbiguityPolicy;
  cn_downstream_control_digest : string;
  cn_source_span : SourceSpan
}.

Record CacheIntentStep := { cs_intent : CacheIntentSpec; cs_source_span : SourceSpan }.
Record InputIntentStep := { is_intent : InputIntentSpec; is_source_span : SourceSpan }.
Record CheckoutStep := { ck_spec : CheckoutStepSpec; ck_source_span : SourceSpan }.

Inductive Step : Type :=
| Process (p : ProcessStep)
| ConnectorIntent (i : ConnectorIntentStep)
| CacheIntent (c : CacheIntentStep)
| InputIntent (i : InputIntentStep)
| Checkout (c : CheckoutStep).

Record Stage := {
  stage_id : string;
  stage_name : string;
  stage_image : option string;
  stage_steps : list Step;
  stage_artifacts : list ArtifactSpec;
  stage_source_span : SourceSpan
}.

Record PipelineIr := {
  schema : SchemaVersion;
  name : string;
  parameters : bmap ParameterDefinition;
  parameter_values : bmap ParameterValue;
  expressions : list ExpressionBinding;
  stages : list Stage;
  notify : list NotifyTarget;
  provenance : Provenance;
  source_span : SourceSpan
}.

Record IrValidationError := IrError { ir_path : string; ir_message : string }.

(** ** Field validators *)

Definition validate_identifier (path value : string) : result IrValidationError () :=
  check (is_empty value || negb (all_bytes is_name_byte value))
    (IrError path "must contain only ASCII letters, digits, dot, underscore, or hyphen").

Definition validate_string_length (path value : string) : result IrValidationError () :=
  check (MAX_IR_STRING_BYTES <? slen value)
    (IrError path ("string exceeds " +:+ fmt_z MAX_IR_STRING_BYTES +:+ " bytes")).

Definition validate_sha256_reference (path value : string) : result IrValidationError () :=
  match strip_prefix "sha256:" value with
  | None => Err (IrError path "expected exact sha256:<64 lowercase hex> reference")
  | Some hex =>
      check (negb (slen hex =? 64) || negb (all_bytes is_lower_hex hex))
        (IrError path "expected exact sha256:<64 lowercase hex> reference")
  end.

Definition validate_field_schema (path : string) (fields : bmap JsonFieldType) :
    result IrValidationError () :=
  check (MAX_PARAMETERS <? llen fields)
    (IrError path ("field count exceeds " +:+ fmt_z MAX_PARAMETERS)) ;;
  try_for (fun field =>
    validate_identifier (path +:+ "." +:+ fst field) (fst field) ;;
    validate_string_length (path +:+ "." +:+ fst field) (fst field)) fields.

Definition validate_parameter_value_length (path : string) (v : ParameterValue) :
    result IrValidationError () :=
  match v with
  | PString s =>
      check (max_string_bytes default_limits <? slen s)
        (IrError path ("parameter string exceeds "
                       +:+ fmt_z (max_string_bytes default_limits) +:+ " bytes"))
  | _ => Ok tt
  end.

Fixpoint validate_expression_parameters (e : Expression)
    (parameters : bmap ParameterDefinition) (path : string) : result IrValidationError () :=
  match e with
  | EParameter name =>
      match bget name parameters with
      | None =>
          Err (IrError path ("expression references undefined parameter " +:+ fmt_debug name))
      | Some definition =>
          check (pd_secret definition)
            (IrError path ("expression binding cannot materialize secret-tainted parameter "
                           +:+ fmt_debug name))
      end
  | Literal _ => Ok tt
  | Not value => validate_expression_parameters value parameters path
  | Equal l r | NotEqual l r | And l r | Or l r | Add l r =>
      validate_expression_parameters l parameters path ;;
      validate_expression_parameters r parameters path
  end.

(** ** Materialized fields *)

Definition stage_path (stage_index : nat) : string :=
  "$.stages[" +:+ fmt_nat stage_index +:+ "]".
Definition step_path (stage_index step_index : nat) : string :=
  stage_path stage_index +:+ ".steps[" +:+ fmt_nat step_index +:+ "]".
Definition process_base (stage_index step_index : nat) : string :=
  step_path stage_index step_index +:+ ".process".
Definition arg_path (base : string) (argument_index : nat) : string :=
  base +:+ ".args[" +:+ fmt_nat argument_index +:+ "]".
Definition commit_path (stage_index step_index : nat) : string :=
  step_path stage_index step_index +:+ ".checkout.commit".
Definition notify_path (index : nat) : string :=
  "$.notify[" +:+ fmt_nat index +:+ "].github_status.commit".

(** The fields one step inserts, in order. *)
Definition step_fields (stage_index step_index : nat) (s : Step) : list (string * string) :=
  match s with
  | Process p =>
      let base := process_base stage_index step_index in
      (base +:+ ".program", ps_program p)
      :: imap (fun i a => (arg_path base i, a)) (ps_args p)
      ++ ((fun kv => (base +:+ ".env." +:+ fst kv, snd kv)) <$> ps_env p)
  | Checkout c => [(commit_path stage_index step_index, co_commit (ck_spec c))]
  | _ => []
  end.

Definition stage_fields (stage_index : nat) (s : Stage) : list (string * string) :=
  concat (imap (step_fields stage_index) (stage_steps s)).

Definition notify_fields (index : nat) (t : NotifyTarget) : list (string * string) :=
  match t with
  | GithubStatus _ commit _ _ => [(notify_path index, commit)]
  | Webhook _ => []
  end.

(** Insert a list of fields in order; a later insertion replaces an earlier. *)
Definition insert_all (l : list (string * string)) (m : gmap string string) :
    gmap string string :=
  foldl (fun m kv => <[fst kv := snd kv]> m) m l.

Definition pipeline_fields (p : PipelineIr) : list (string * string) :=
  concat (imap stage_fields (stages p)) ++ concat (imap notify_fields (notify p)).

Definition expression_materialized_fields (p : PipelineIr) : gmap string string :=
  insert_all (pipeline_fields p) ∅.

(** ** Parameters and expressions *)

(** The body of the loop over [pipeline.parameters]. *)
Definition validate_parameter (values : bmap ParameterValue)
    (entry : string * ParameterDefinition) : result IrValidationError () :=
  let '(name, definition) := entry in
  let path := "$.parameters." +:+ name in
  let value_path := "$.parameter_values." +:+ name in
  validate_string_length path name ;;
  validate_identifier path name ;;
  check (contains_char "." name) (IrError path "parameter names must not contain dot") ;;
  check (pd_secret definition && match pd_default definition with Some _ => true | None => false end)
    (IrError (path +:+ ".default") "secret parameters must not declare persisted defaults") ;;
  check (match pd_default definition with
         | Some value => negb (accepts (pd_type definition) value)
         | None => false
         end)
    (IrError (path +:+ ".default")
      ("expected a " +:+ parameter_type_name (pd_type definition) +:+ " default")) ;;
  match pd_default definition with
  | Some value => validate_parameter_value_length (path +:+ ".default") value
  | None => Ok tt
  end ;;
  if pd_secret definition then
    check (bcontains name values)
      (IrError value_path "secret parameter values must not be persisted in Pipeline IR")
  else
    value ← ok_or (bget name values) (IrError value_path "public parameter value is missing");
    check (negb (accepts (pd_type definition) value))
      (IrError value_path ("expected a " +:+ parameter_type_name (pd_type definition) +:+ " value")) ;;
    validate_parameter_value_length value_path value.

Definition public_context (values : bmap ParameterValue) : gmap string EvaluatedValue :=
  list_to_map ((fun kv => (fst kv, Evaluated (snd kv) false)) <$> values).

(** The body of the loop over [pipeline.expressions]; [previous] is
    [previous_path]. *)
Definition validate_binding (definitions : bmap ParameterDefinition)
    (context : gmap string EvaluatedValue) (fields : gmap string string) (index : nat)
    (previous : option string) (b : ExpressionBinding) : result IrValidationError () :=
  let path := "$.expressions[" +:+ fmt_nat index +:+ "]" in
  validate_string_length (path +:+ ".path") (eb_path b) ;;
  check (is_empty (eb_path b))
    (IrError (path +:+ ".path") "expression binding path must not be empty") ;;
  check (match previous with Some q => str_geb q (eb_path b) | None => false end)
    (IrError (path +:+ ".path") "expression binding paths must be unique and sorted") ;;
  map_err (fun e => IrError (path +:+ ".expression") (expression_error_display e))
    (validate_expression (eb_expression b) default_limits) ;;
  validate_expression_parameters (eb_expression b) definitions path ;;
  materialized ← ok_or (fields !! eb_path b)
    (IrError (path +:+ ".path")
      "expression binding does not identify a materializable process field");
  evaluated ← map_err (fun e => IrError (path +:+ ".expression") (expression_error_display e))
    (evaluate_expression (eb_expression b) context default_limits);
  match ev_value evaluated with
  | PString value =>
      check (negb (String.eqb value materialized))
        (IrError (path +:+ ".expression")
          "expression result does not match the materialized process field")
  | _ =>
      Err (IrError (path +:+ ".expression") "expression binding must evaluate to a string")
  end.

Fixpoint validate_bindings (definitions : bmap ParameterDefinition)
    (context : gmap string EvaluatedValue) (fields : gmap string string) (index : nat)
    (previous : option string) (bs : list ExpressionBinding) : result IrValidationError () :=
  match bs with
  | [] => Ok tt
  | b :: bs =>
      validate_binding definitions context fields index previous b ;;
      validate_bindings definitions context fields (S index) (Some (eb_path b)) bs
  end.

Definition validate_parameters_and_expressions (p : PipelineIr) : result IrValidationError () :=
  check (MAX_PARAMETERS <? llen (parameters p))
    (IrError "$.parameters" ("parameter count exceeds " +:+ fmt_z MAX_PARAMETERS)) ;;
  try_for (validate_parameter (parameter_values p)) (parameters p) ;;
  match find (fun kv => negb (bcontains (fst kv) (parameters p))) (parameter_values p) with
  | Some (name, _) =>
      Err (IrError ("$.parameter_values." +:+ name) "value does not have a parameter definition")
  | None => Ok tt
  end ;;
  check (MAX_EXPRESSION_BINDINGS <? llen (expressions p))
    (IrError "$.expressions"
      ("expression binding count exceeds " +:+ fmt_z MAX_EXPRESSION_BINDINGS)) ;;
  validate_bindings (parameters p) (public_context (parameter_values p))
    (expression_materialized_fields p) 0 None (expressions p).

(** ** Stages *)

Definition is_connector (s : Step) : bool :=
  match s with ConnectorIntent _ => true | _ => false end.
Definition is_intent_step (s : Step) : bool :=
  match s with ConnectorIntent _ | CacheIntent _ | InputIntent _ => true | _ => false end.
Definition is_checkout (s : Step) : bool :=
  match s with Checkout _ => true | _ => false end.
Definition is_process_or_checkout (s : Step) : bool :=
  match s with Process _ | Checkout _ => true | _ => false end.

Definition nul_char : ascii := "000".
Definition hash_char : ascii := "#".

(** The environment entries a container step cannot carry. *)
Definition container_env_refused (kv : string * string) : bool :=
  starts_with "#" (fst kv)
  || any_bytes (one_of ["="%char; newline; nul_char]) (fst kv)
  || any_bytes (one_of [newline; nul_char]) (snd kv).

Definition validate_container_step (path : string) (step_index : nat) (s : Step) :
    result IrValidationError () :=
  match s with
  | Process p =>
      match find container_env_refused (ps_env p) with
      | Some (name, _) =>
          Err (IrError (path +:+ ".steps[" +:+ fmt_nat step_index +:+ "].process.env." +:+ name)
            "container stage environment values must be single-line without NUL and names must not begin with '#' or contain '=', newline or NUL")
      | None => Ok tt
      end
  | _ => Ok tt
  end.

Definition validate_process (minor_version : Z) (base : string) (p : ProcessStep) :
    result IrValidationError () :=
  check ((minor_version <? minor IR_V1_2) && negb (bool_decide (ps_mode p = Direct)))
    (IrError (base +:+ ".mode") "non-direct process modes require Pipeline IR v1.2") ;;
  check (is_empty (trim (ps_program p)))
    (IrError (base +:+ ".program") "program must not be empty") ;;
  validate_string_length (base +:+ ".program") (ps_program p) ;;
  check ((MAX_STEPS <? llen (ps_args p)) || (MAX_STEPS <? llen (ps_env p)))
    (IrError base ("argument and environment counts must not exceed " +:+ fmt_z MAX_STEPS)) ;;
  try_for_enum 0 (fun i argument => validate_string_length (arg_path base i) argument)
    (ps_args p) ;;
  check (existsb (fun kv => is_empty (fst kv)) (ps_env p))
    (IrError (base +:+ ".env") "environment keys must not be empty") ;;
  try_for (fun kv =>
    check (MAX_IR_STRING_BYTES <? slen (fst kv))
      (IrError (base +:+ ".env")
        ("environment key " +:+ fmt_debug (fst kv) +:+ " exceeds "
         +:+ fmt_z MAX_IR_STRING_BYTES +:+ " bytes")) ;;
    validate_string_length (base +:+ ".env") (snd kv)) (ps_env p).

Definition validate_connector (minor_version : Z) (base : string) (i : ConnectorIntentStep) :
    result IrValidationError () :=
  check (minor_version <? minor IR_V1_3)
    (IrError base "connector intents require Pipeline IR v1.3") ;;
  validate_identifier (base +:+ ".mapping_id") (cn_mapping_id i) ;;
  validate_sha256_reference (base +:+ ".mapping_digest") (cn_mapping_digest i) ;;
  check (is_empty (trim (cn_effect_key_template i)))
    (IrError (base +:+ ".effect_key_template") "effect key template must not be empty") ;;
  validate_string_length (base +:+ ".effect_key_template") (cn_effect_key_template i) ;;
  validate_field_schema (base +:+ ".public_input_schema") (cn_public_input_schema i) ;;
  validate_field_schema (base +:+ ".protected_secret_ref_schema")
    (cn_protected_secret_ref_schema i) ;;
  try_for (fun field =>
    check (negb (bool_decide (snd field = JString)))
      (IrError (base +:+ ".protected_secret_ref_schema." +:+ fst field)
        "protected secret references must be opaque strings"))
    (cn_protected_secret_ref_schema i) ;;
  validate_field_schema (base +:+ ".expected_public_result_schema")
    (cn_expected_public_result_schema i) ;;
  check ((cn_timeout_seconds i =? 0) || (86400 <? cn_timeout_seconds i))
    (IrError (base +:+ ".timeout_seconds") "timeout must be between 1 and 86400 seconds") ;;
  validate_sha256_reference (base +:+ ".downstream_control_digest")
    (cn_downstream_control_digest i).

(** The [match step] of the last loop over a stage's steps. *)
Definition validate_step `{External} (minor_version : Z) (path : string) (step_index : nat)
    (s : Step) : result IrValidationError () :=
  let at_ kind := path +:+ ".steps[" +:+ fmt_nat step_index +:+ "]." +:+ kind in
  match s with
  | Process p => validate_process minor_version (at_ "process") p
  | InputIntent i =>
      check (minor_version <? minor IR_V1_5)
        (IrError (at_ "input_intent") "input intents require Pipeline IR v1.5") ;;
      map_err (fun e => IrError (at_ "input_intent") (input_error_display e))
        (input_intent_validate (is_intent i))
  | CacheIntent c =>
      check (minor_version <? minor IR_V1_4)
        (IrError (at_ "cache_intent") "cache intents require Pipeline IR v1.4") ;;
      map_err (fun e => IrError (at_ "cache_intent") (cache_error_display e))
        (cache_intent_validate (cs_intent c))
  | Checkout c =>
      check (minor_version <? minor IR_V1_7)
        (IrError (at_ "checkout") "checkout steps require Pipeline IR v1.7") ;;
      map_err (fun e => IrError (at_ "checkout") (source_error_display e))
        (checkout_validate (ck_spec c))
  | ConnectorIntent i => validate_connector minor_version (at_ "connector_intent") i
  end.

Definition validate_stage_image (minor_version : Z) (path : string) (s : Stage) :
    result IrValidationError () :=
  match stage_image s with
  | None => Ok tt
  | Some image =>
      check (minor_version <? minor IR_V1_6)
        (IrError (path +:+ ".image") "container stages require Pipeline IR v1.6") ;;
      check (negb (is_digest_pinned_image image))
        (IrError (path +:+ ".image") "stage image must be a digest-pinned reference") ;;
      check (negb (forallb is_process_or_checkout (stage_steps s)))
        (IrError (path +:+ ".image") "a container stage may hold process and checkout steps only") ;;
      try_for_enum 0 (validate_container_step path) (stage_steps s)
  end.

Definition validate_stage_artifacts (minor_version : Z) (path : string) (s : Stage) :
    result IrValidationError () :=
  if llen (stage_artifacts s) =? 0 then Ok tt
  else
    check (minor_version <? minor IR_V1_8)
      (IrError (path +:+ ".artifacts") "declared artifacts require Pipeline IR v1.8") ;;
    map_err (fun e => IrError (path +:+ ".artifacts") (artifact_error_display e))
      (validate_declarations (stage_artifacts s)).

(** The body of the loop over the stages; [ids] are the stage IDs seen and
    [total] is [total_steps]. *)
Definition validate_stage `{External} (minor_version : Z) (stage_index : nat)
    (ids : list string) (total : Z) (s : Stage) : result IrValidationError Z :=
  let path := stage_path stage_index in
  validate_identifier (path +:+ ".id") (stage_id s) ;;
  validate_string_length (path +:+ ".id") (stage_id s) ;;
  check (existsb (String.eqb (stage_id s)) ids)
    (IrError (path +:+ ".id") "stage IDs must be unique") ;;
  check (is_empty (trim (stage_name s)))
    (IrError (path +:+ ".name") "stage name must not be empty") ;;
  validate_string_length (path +:+ ".name") (stage_name s) ;;
  check (llen (stage_steps s) =? 0)
    (IrError (path +:+ ".steps") "stage must contain at least one step") ;;
  check (existsb is_intent_step (stage_steps s) && negb (llen (stage_steps s) =? 1))
    (IrError (path +:+ ".steps")
      (if existsb is_connector (stage_steps s)
       then "a connector-intent stage must contain exactly one connector intent"
       else "a cache-intent stage must contain exactly one cache intent")) ;;
  check (1 <? llen (List.filter is_checkout (stage_steps s)))
    (IrError (path +:+ ".steps") "a stage may hold at most one checkout step") ;;
  let total := sat_add total (llen (stage_steps s)) in
  check (MAX_STEPS <? total)
    (IrError "$.stages" ("total step count exceeds " +:+ fmt_z MAX_STEPS)) ;;
  validate_stage_artifacts minor_version path s ;;
  validate_stage_image minor_version path s ;;
  try_for_enum 0 (validate_step minor_version path) (stage_steps s) ;;
  Ok total.

Fixpoint validate_stages `{External} (minor_version : Z) (stage_index : nat)
    (ids : list string) (total : Z) (ss : list Stage) : result IrValidationError () :=
  match ss with
  | [] => Ok tt
  | s :: ss =>
      total ← validate_stage minor_version stage_index ids total s;
      validate_stages minor_version (S stage_index) (stage_id s :: ids) total ss
  end.

Definition accepted_schemas : list SchemaVersion :=
  [IR_V1; IR_V1_1; IR_V1_2; IR_V1_3; IR_V1_4; IR_V1_5; IR_V1_6; IR_V1_7; IR_V1_8; IR_V1_9].

Definition validate_pipeline `{External} (p : PipelineIr) : result IrValidationError () :=
  check (negb (bool_decide (schema p ∈ accepted_schemas)))
    (IrError "$.schema" "only Pipeline IR v1.0 through v1.9 are accepted") ;;
  check (bool_decide (schema p = IR_V1)
         && (negb (llen (parameters p) =? 0) || negb (llen (parameter_values p) =? 0)
             || negb (llen (expressions p) =? 0)))
    (IrError "$.schema" "Pipeline IR v1.0 cannot contain parameter or expression fields") ;;
  validate_identifier "$.name" (name p) ;;
  validate_string_length "$.name" (name p) ;;
  validate_parameters_and_expressions p ;;
  check ((llen (stages p) =? 0) || (MAX_STAGES <? llen (stages p)))
    (IrError "$.stages" ("stage count must be between 1 and " +:+ fmt_z MAX_STAGES)) ;;
  (if llen (notify p) =? 0 then Ok tt
   else
     check (minor (schema p) <? minor IR_V1_9)
       (IrError "$.notify" "notification targets require Pipeline IR v1.9") ;;
     map_err (fun e => IrError "$.notify" (notify_error_display e))
       (validate_targets (notify p))) ;;
  validate_stages (minor (schema p)) 0 [] 0 (stages p).
