(* ===== verification/Compiler.v ===== *)
(** * The strict YAML compiler (crates/pipeline-ir/src/model.rs)

    From an admitted YAML tree to a validated pipeline: the view that takes
    fields off a mapping, the compilers of parameters, stages, steps and
    notification targets, the choice of schema version, and re-instantiation of
    a compiled pipeline with new inputs.  The vector of expression bindings the
    compilers push to is threaded by a state monad. *)

From stdpp Require Import base gmap list strings pretty.
From Stdlib Require Import Ascii ZArith Lia.
From S2P Require Import Prelude Text Bytes Expression Domain Artifacts StrictYaml PipelineIr.

Open Scope Z_scope.

(** ** Errors *)

Inductive CompileErrorCategory : Type :=
| AdmissionCategory | SchemaCategory | ExpressionCategory | IrValidationCategory.

Record CompileError := {
  compile_category : CompileErrorCategory;
  compile_path : option string;
  compile_message : string;
  compile_span : option SourceSpan
}.

(** An error, or a fault of the model in one of the two parsers. *)
Inductive compile_fault : Type :=
| Failed (e : CompileError)
| Faulted.

Definition schema_error (path message : string) : CompileError :=
  Build_CompileError SchemaCategory (Some path) message None.

Definition expression_error (path : string) (e : ExpressionError) : CompileError :=
  Build_CompileError ExpressionCategory (Some path) (expression_error_display e) None.

Definition with_span (span : SourceSpan) (e : CompileError) : CompileError :=
  Build_CompileError (compile_category e) (compile_path e) (compile_message e) (Some span).

Definition with_span_if_missing (span : SourceSpan) (e : CompileError) : CompileError :=
  match compile_span e with None => with_span span e | Some _ => e end.

Definition from_admission (f : yaml_fault) : compile_fault :=
  match f with
  | Refused e => Failed (Build_CompileError AdmissionCategory None (admission_error_display e)
                           (Some (admission_span e)))
  | OutOfFuel => Faulted
  end.

Definition from_validation (e : IrValidationError) : compile_fault :=
  Failed (Build_CompileError IrValidationCategory (Some (ir_path e)) (ir_message e) None).

Definition compile_error_display (e : CompileError) : string :=
  match compile_path e with Some path => path +:+ ": " | None => "" end +:+ compile_message e.

Definition fail_schema {A} (path message : string) : result compile_fault A :=
  Err (Failed (schema_error path message)).
Definition fail_at {A} (span : SourceSpan) (path message : string) : result compile_fault A :=
  Err (Failed (with_span span (schema_error path message))).

(** ** The mapping view *)

Record MappingView := { mv_entries : list MappingEntry; mv_path : string }.

Definition view_new (node : SpannedValue) (path : string) : result compile_fault MappingView :=
  match sv_value node with
  | YMapping entries => Ok {| mv_entries := entries; mv_path := path |}
  | _ => fail_at (sv_span node) path "expected a mapping"
  end.

(** [position] and [remove]: the first entry with the key, and the others. *)
Fixpoint take_entry (key : string) (es : list MappingEntry) :
    option (SpannedValue * list MappingEntry) :=
  match es with
  | [] => None
  | e :: es =>
      if String.eqb (entry_key e) key then Some (entry_value e, es)
      else match take_entry key es with
           | Some (v, rest) => Some (v, e :: rest)
           | None => None
           end
  end.

Definition take_key (key : string) (v : MappingView) : option SpannedValue * MappingView :=
  match take_entry key (mv_entries v) with
  | Some (value, rest) => (Some value, {| mv_entries := rest; mv_path := mv_path v |})
  | None => (None, v)
  end.

Definition field_path (v : MappingView) (key : string) : string := mv_path v +:+ "." +:+ key.

Definition required (key : string) (v : MappingView) :
    result compile_fault (SpannedValue * MappingView) :=
  match take_key key v with
  | (Some node, v) => Ok (node, v)
  | (None, v) => fail_schema (field_path v key) "required field is missing"
  end.

Definition as_string (path : string) (node : SpannedValue) : result compile_fault string :=
  match sv_value node with
  | YString s => Ok s
  | _ => fail_at (sv_span node) path "expected a string"
  end.

Definition as_integer (path : string) (node : SpannedValue) : result compile_fault Z :=
  match sv_value node with
  | YInteger z => Ok z
  | _ => fail_at (sv_span node) path "expected an integer"
  end.

Definition as_bool (path : string) (node : SpannedValue) : result compile_fault bool :=
  match sv_value node with
  | YBool b => Ok b
  | _ => fail_at (sv_span node) path "expected a boolean"
  end.

(** [u64::try_from] an [i64]. *)
Definition as_u64 (path : string) (node : SpannedValue) : result compile_fault Z :=
  z ← as_integer path node;
  if z <? 0 then fail_at (sv_span node) path "expected a non-negative integer" else Ok z.

Definition required_string (key : string) (v : MappingView) :
    result compile_fault (string * MappingView) :=
  '(node, v) ← required key v;
  s ← as_string (field_path v key) node;
  Ok (s, v).

Definition required_integer (key : string) (v : MappingView) :
    result compile_fault (Z * MappingView) :=
  '(node, v) ← required key v;
  z ← as_integer (field_path v key) node;
  Ok (z, v).

(** An optional field read by [f]. *)
Definition optional {A} (f : string -> SpannedValue -> result compile_fault A) (key : string)
    (v : MappingView) : result compile_fault (option A * MappingView) :=
  match take_key key v with
  | (None, v) => Ok (None, v)
  | (Some node, v) => a ← f (field_path v key) node; Ok (Some a, v)
  end.

Definition optional_u64 := optional as_u64.
Definition optional_string := optional as_string.
Definition optional_bool := optional as_bool.

Definition finish (v : MappingView) : result compile_fault () :=
  match mv_entries v with
  | e :: _ =>
      fail_at (entry_key_span e) (field_path v (entry_key e))
        ("unknown field " +:+ fmt_debug (entry_key e))
  | [] => Ok tt
  end.

(** ** Compilation that records expression bindings *)

Definition comp (A : Type) : Type :=
  list ExpressionBinding -> result compile_fault (A * list ExpressionBinding).

#[export] Instance comp_ret : MRet comp := fun A a es => Ok (a, es).
#[export] Instance comp_bind : MBind comp :=
  fun A B f m es => match m es with Ok (a, es) => f a es | Err e => Err e end.

Definition lift {A} (r : result compile_fault A) : comp A :=
  fun es => match r with Ok a => Ok (a, es) | Err e => Err e end.

(** [iter().enumerate().map(f).collect::<Result<Vec<_>, _>>()]. *)
Fixpoint comp_map {A B} (index : nat) (f : nat -> A -> comp B) (l : list A) : comp (list B) :=
  match l with
  | [] => mret []
  | x :: l => y ← f index x; ys ← comp_map (S index) f l; mret (y :: ys)
  end.

(** [collect::<Result<BTreeMap<_, _>, _>>()]. *)
Definition collect_map {V} (l : list (string * V)) : bmap V :=
  foldl (fun m e => binsert (fst e) (snd e) m) [] l.

Section Compile.
Context `{External}.
Variable parameters : gmap string EvaluatedValue.

Definition compile_resolved_string (node : SpannedValue) (path : string) : comp string :=
  fun es =>
    match sv_value node with
    | YString value => Ok (value, es)
    | _ =>
        let span := sv_span node in
        view ← view_new node path;
        '(source, view) ← required_string "expression" view;
        finish view ;;
        expression ← match parse_expression source default_limits with
                     | Ok e => Ok e
                     | Err (Fail e) => Err (Failed (with_span span (expression_error path e)))
                     | Err _ => Err Faulted
                     end;
        evaluated ← map_err (fun e => Failed (with_span span (expression_error path e)))
          (evaluate_expression expression parameters default_limits);
        if ev_secret evaluated then
          fail_at span path
            "secret-tainted expression values cannot be materialized into Pipeline IR"
        else match ev_value evaluated with
        | PString value =>
            if MAX_EXPRESSION_BINDINGS <=? llen es then
              fail_at span path
                ("at most " +:+ fmt_z MAX_EXPRESSION_BINDINGS
                 +:+ " expression bindings are accepted")
            else Ok (value, es ++ [Build_ExpressionBinding path expression])
        | _ => fail_at span path "process fields require an expression that evaluates to string"
        end
    end.

Definition optional_resolved_sequence (key : string) (v : MappingView) :
    comp (option (list string) * MappingView) :=
  match take_key key v with
  | (None, v) => mret (None, v)
  | (Some node, v) =>
      match sv_value node with
      | YSequence values =>
          ss ← comp_map 0 (fun index value =>
            compile_resolved_string value
              (field_path v key +:+ "[" +:+ fmt_nat index +:+ "]")) values;
          mret (Some ss, v)
      | _ => lift (fail_at (sv_span node) (field_path v key) "expected a sequence")
      end
  end.

Definition optional_resolved_mapping (key : string) (v : MappingView) :
    comp (option (bmap string) * MappingView) :=
  match take_key key v with
  | (None, v) => mret (None, v)
  | (Some node, v) =>
      match sv_value node with
      | YMapping entries =>
          kvs ← comp_map 0 (fun _ entry =>
            value ← compile_resolved_string (entry_value entry)
              (field_path v key +:+ "." +:+ entry_key entry);
            mret (entry_key entry, value)) entries;
          mret (Some (collect_map kvs), v)
      | _ => lift (fail_at (sv_span node) (field_path v key) "expected a mapping")
      end
  end.

(** [match text { ... _ => return Err(..) }] over the names of an enumeration. *)
Definition one_named {A} (names : list (string * A)) (text : string) : option A :=
  snd <$> List.find (fun n => String.eqb (fst n) text) names.

Definition compile_process (node : SpannedValue) (step_path : string) (source_span : SourceSpan) :
    comp ProcessStep :=
  let path := step_path +:+ ".process" in
  process ← lift (view_new node path);
  '(program_node, process) ← lift (required "program" process);
  program ← compile_resolved_string program_node (path +:+ ".program");
  '(args, process) ← optional_resolved_sequence "args" process;
  '(env, process) ← optional_resolved_mapping "env" process;
  '(mode, process) ← lift (optional_string "mode" process);
  mode ← lift (match mode with
               | None => Ok Direct
               | Some text =>
                   match one_named [("direct", Direct); ("windows_cmd", WindowsCmd);
                                    ("powershell", PowerShell)] text with
                   | Some m => Ok m
                   | None => fail_schema (path +:+ ".mode")
                       "expected exactly direct, windows_cmd, or powershell"
                   end
               end);
  '(timeout_seconds, process) ← lift (optional_u64 "timeout_seconds" process);
  lift (finish process) ;;
  mret (Build_ProcessStep mode program (default [] args) (default [] env) timeout_seconds
          source_span).

Definition json_field_names : list (string * JsonFieldType) :=
  [("array", JArray); ("boolean", JBoolean); ("null", JNull); ("number", JNumber);
   ("object", JObject); ("string", JString)].

(** [iter().map(f).collect::<Result<Vec<_>, _>>()]. *)
Fixpoint try_map {A B} (f : A -> result compile_fault B) (l : list A) :
    result compile_fault (list B) :=
  match l with
  | [] => Ok []
  | x :: l => y ← f x; ys ← try_map f l; Ok (y :: ys)
  end.

Definition compile_json_field (path : string) (entry : MappingEntry) :
    result compile_fault (string * JsonFieldType) :=
  let path := path +:+ "." +:+ entry_key entry in
  let span := sv_span (entry_value entry) in
  match sv_value (entry_value entry) with
  | YString kind =>
      match one_named json_field_names kind with
      | Some kind => Ok (entry_key entry, kind)
      | None => fail_at span path "expected array, boolean, null, number, object, or string"
      end
  | _ => fail_at span path "expected a string"
  end.

Definition compile_json_field_schema (node : SpannedValue) (path : string) :
    result compile_fault (bmap JsonFieldType) :=
  match sv_value node with
  | YMapping entries =>
      fields ← try_map (compile_json_field path) entries;
      Ok (collect_map fields)
  | _ => fail_at (sv_span node) path "expected a mapping"
  end.

Definition compile_connector_intent (node : SpannedValue) (step_path : string)
    (source_span : SourceSpan) : result compile_fault ConnectorIntentStep :=
  let path := step_path +:+ ".connector_intent" in
  intent ← view_new node path;
  '(mapping_id, intent) ← required_string "mapping_id" intent;
  '(mapping_digest, intent) ← required_string "mapping_digest" intent;
  '(class_name, intent) ← required_string "effect_class" intent;
  effect_class ← ok_or (one_named [("idempotent", Idempotent);
      ("externally_idempotent", ExternallyIdempotent); ("non_idempotent", NonIdempotent)] class_name)
    (Failed (schema_error (path +:+ ".effect_class")
      "expected idempotent, externally_idempotent, or non_idempotent"));
  '(effect_key_template, intent) ← required_string "effect_key_template" intent;
  '(node, intent) ← required "public_input_schema" intent;
  public_input_schema ← compile_json_field_schema node (path +:+ ".public_input_schema");
  '(node, intent) ← required "protected_secret_ref_schema" intent;
  protected_secret_ref_schema ←
    compile_json_field_schema node (path +:+ ".protected_secret_ref_schema");
  '(node, intent) ← required "expected_public_result_schema" intent;
  expected_public_result_schema ←
    compile_json_field_schema node (path +:+ ".expected_public_result_schema");
  '(timeout, intent) ← optional_u64 "timeout_seconds" intent;
  timeout_seconds ← ok_or timeout
    (Failed (schema_error (path +:+ ".timeout_seconds") "required field is missing"));
  '(policy, intent) ← required_string "ambiguity_policy" intent;
  ambiguity_policy ← ok_or (one_named [("observe_then_reconcile", ObserveThenReconcile)] policy)
    (Failed (schema_error (path +:+ ".ambiguity_policy") "expected observe_then_reconcile"));
  '(downstream_control_digest, intent) ← required_string "downstream_control_digest" intent;
  finish intent ;;
  Ok (Build_ConnectorIntentStep mapping_id mapping_digest effect_class effect_key_template
        public_input_schema protected_secret_ref_schema expected_public_result_schema
        timeout_seconds ambiguity_policy downstream_control_digest source_span).

(** [.map_err(|error| CompileError::schema(path, error.to_string()))]. *)
Definition checked_by {E} (display : E -> string) (path : string) (r : result E ()) :
    result compile_fault () :=
  map_err (fun e => Failed (schema_error path (display e))) r.

Definition compile_cache_intent (node : SpannedValue) (step_path : string)
    (source_span : SourceSpan) : result compile_fault CacheIntentStep :=
  let path := step_path +:+ ".cache_intent" in
  view ← view_new node path;
  '(mapping_id, view) ← required_string "mapping_id" view;
  '(mapping_digest, view) ← required_string "mapping_digest" view;
  '(operation_name, view) ← required_string "operation" view;
  operation ← ok_or (one_named [("read", CacheRead); ("publish", CachePublish)] operation_name)
    (Failed (schema_error path "unsupported cache operation"));
  '(logical_key_sha256, view) ← required_string "logical_key_sha256" view;
  '(input_sha256, view) ← required_string "input_sha256" view;
  '(content_base64, view) ← optional_string "content_base64" view;
  '(timeout, view) ← optional_u64 "timeout_seconds" view;
  timeout_seconds ← ok_or timeout (Failed (schema_error path "cache timeout is required"));
  finish view ;;
  let intent := Build_CacheIntentSpec mapping_id mapping_digest operation logical_key_sha256
    input_sha256 content_base64 timeout_seconds in
  checked_by cache_error_display path (cache_intent_validate intent) ;;
  Ok (Build_CacheIntentStep intent source_span).

Definition compile_input_intent (node : SpannedValue) (step_path : string)
    (source_span : SourceSpan) : result compile_fault InputIntentStep :=
  let path := step_path +:+ ".input_intent" in
  view ← view_new node path;
  '(mapping_id, view) ← required_string "mapping_id" view;
  '(mapping_digest, view) ← required_string "mapping_digest" view;
  '(timeout, view) ← optional_u64 "timeout_seconds" view;
  timeout_seconds ← ok_or timeout (Failed (schema_error path "input timeout is required"));
  finish view ;;
  let intent := Build_InputIntentSpec mapping_id mapping_digest timeout_seconds in
  checked_by input_error_display path (input_intent_validate intent) ;;
  Ok (Build_InputIntentStep intent source_span).

Definition compile_checkout (node : SpannedValue) (step_path : string)
    (source_span : SourceSpan) : comp CheckoutStep :=
  let path := step_path +:+ ".checkout" in
  view ← lift (view_new node path);
  '(mapping_id, view) ← lift (required_string "mapping_id" view);
  '(mapping_digest, view) ← lift (required_string "mapping_digest" view);
  '(reference, view) ← lift (required_string "ref" view);
  let '(commit_node, view) := take_key "commit" view in
  commit ← match commit_node with
           | Some node => compile_resolved_string node (path +:+ ".commit")
           | None => lift (fail_schema path "checkout commit is required")
           end;
  '(destination, view) ← lift (optional_string "destination" view);
  '(timeout_seconds, view) ← lift (optional_u64 "timeout_seconds" view);
  lift (finish view) ;;
  let spec := Build_CheckoutStepSpec mapping_id mapping_digest reference commit
    (default "source" destination) (default 600 timeout_seconds) in
  lift (checked_by source_error_display path (checkout_validate spec)) ;;
  mret (Build_CheckoutStep spec source_span).

(** One entry of [steps]. *)
Definition compile_step (stage_path : string) (index : nat) (node : SpannedValue) : comp Step :=
  let path := stage_path +:+ ".steps[" +:+ fmt_nat index +:+ "]" in
  let step_span := sv_span node in
  step ← lift (view_new node path);
  let '(process, step) := take_key "process" step in
  let '(connector_intent, step) := take_key "connector_intent" step in
  let '(cache_intent, step) := take_key "cache_intent" step in
  let '(input_intent, step) := take_key "input_intent" step in
  let '(checkout, step) := take_key "checkout" step in
  lift (finish step) ;;
  match process, connector_intent, cache_intent, input_intent, checkout with
  | Some node, None, None, None, None =>
      p ← compile_process node path step_span; mret (Process p)
  | None, Some node, None, None, None =>
      i ← lift (compile_connector_intent node path step_span); mret (ConnectorIntent i)
  | None, None, Some node, None, None =>
      c ← lift (compile_cache_intent node path step_span); mret (CacheIntent c)
  | None, None, None, Some node, None =>
      i ← lift (compile_input_intent node path step_span); mret (InputIntent i)
  | None, None, None, None, Some node =>
      c ← compile_checkout node path step_span; mret (Checkout c)
  | _, _, _, _, _ => lift (fail_schema path
      "exactly one of process, connector_intent, cache_intent, input_intent or checkout is required")
  end.

Definition compile_steps (node : SpannedValue) (stage_path : string) : comp (list Step) :=
  match sv_value node with
  | YSequence nodes =>
      if llen nodes =? 0 then lift (fail_schema (stage_path +:+ ".steps") "at least one step is required")
      else comp_map 0 (compile_step stage_path) nodes
  | _ => lift (fail_at (sv_span node) (stage_path +:+ ".steps") "expected a sequence")
  end.

(** A loop over [into_iter().enumerate()] that pushes to a vector. *)
Fixpoint try_map_enum {A B} (index : nat) (f : nat -> A -> result compile_fault B) (l : list A) :
    result compile_fault (list B) :=
  match l with
  | [] => Ok []
  | x :: l => y ← f index x; ys ← try_map_enum (S index) f l; Ok (y :: ys)
  end.

(** The same with the error located: [.with_span(span)]. *)
Definition checked_at {E} (display : E -> string) (span : SourceSpan) (path : string)
    (r : result E ()) : result compile_fault () :=
  map_err (fun e => Failed (with_span span (schema_error path (display e)))) r.

Definition compile_pattern_node (entry_path : string) (index : nat) (pattern : SpannedValue) :
    result compile_fault string :=
  match sv_value pattern with
  | YString s => Ok s
  | _ => fail_at (sv_span pattern) (entry_path +:+ ".paths[" +:+ fmt_nat index +:+ "]")
           "expected a string path pattern"
  end.

Definition compile_artifact (path : string) (index : nat) (node : SpannedValue) :
    result compile_fault ArtifactSpec :=
  let entry_path := path +:+ "[" +:+ fmt_nat index +:+ "]" in
  entry ← view_new node entry_path;
  '(name, entry) ← required_string "name" entry;
  '(paths_node, entry) ← required "paths" entry;
  finish entry ;;
  match sv_value paths_node with
  | YSequence patterns =>
      paths ← try_map_enum 0 (compile_pattern_node entry_path) patterns;
      let spec := Build_ArtifactSpec name paths in
      checked_at artifact_error_display (sv_span node) entry_path (artifact_spec_validate spec) ;;
      Ok spec
  | _ => fail_at (sv_span paths_node) (entry_path +:+ ".paths") "expected a sequence of path patterns"
  end.

Definition compile_artifacts_node (node : option SpannedValue) (stage_path : string) :
    result compile_fault (list ArtifactSpec) :=
  match node with
  | None => Ok []
  | Some node =>
      let path := stage_path +:+ ".artifacts" in
      match sv_value node with
      | YSequence nodes =>
          specs ← try_map_enum 0 (compile_artifact path) nodes;
          checked_at artifact_error_display (sv_span node) path (validate_declarations specs) ;;
          Ok specs
      | _ => fail_at (sv_span node) path "expected a sequence"
      end
  end.

(** The closure of [compile_stages]. *)
Definition compile_stage (index : nat) (node : SpannedValue) : comp Stage :=
  let path := stage_path index in
  stage ← lift (view_new node path);
  '(id, stage) ← lift (required_string "id" stage);
  '(name, stage) ← lift (required_string "name" stage);
  '(image, stage) ← lift (optional_string "image" stage);
  '(steps_node, stage) ← lift (required "steps" stage);
  let '(artifacts_node, stage) := take_key "artifacts" stage in
  lift (finish stage) ;;
  lift (check (match image with Some i => negb (is_digest_pinned_image i) | None => false end)
    (Failed (schema_error (path +:+ ".image")
      "stage image must be a digest-pinned reference (name@sha256:<64 hex>); tags are refused"))) ;;
  steps ← compile_steps steps_node path;
  artifacts ← lift (compile_artifacts_node artifacts_node path);
  mret (Build_Stage id name image steps artifacts (sv_span node)).

Definition locate (span : SourceSpan) (f : compile_fault) : compile_fault :=
  match f with Failed e => Failed (with_span_if_missing span e) | Faulted => Faulted end.

Definition compile_stages (node : SpannedValue) : comp (list Stage) :=
  match sv_value node with
  | YSequence nodes =>
      if llen nodes =? 0 then lift (fail_schema "$.stages" "at least one stage is required")
      else if MAX_STAGES <? llen nodes then
        lift (fail_schema "$.stages" ("at most " +:+ fmt_z MAX_STAGES +:+ " stages are accepted"))
      else fun es => map_err (locate (sv_span node)) (comp_map 0 compile_stage nodes es)
  | _ => lift (fail_at (sv_span node) "$.stages" "expected a sequence")
  end.

(** The body of the loop of [compile_notify]. *)
Definition compile_target (index : nat) (node : SpannedValue) : comp NotifyTarget :=
  let entry_path := "$.notify[" +:+ fmt_nat index +:+ "]" in
  let entry_span := sv_span node in
  match sv_value node with
  | YMapping [entry] =>
      let kind_path := entry_path +:+ "." +:+ entry_key entry in
      target ←
        (if String.eqb (entry_key entry) "github_status" then
           view ← lift (view_new (entry_value entry) kind_path);
           '(mapping_id, view) ← lift (required_string "mapping_id" view);
           '(commit_node, view) ← lift (required "commit" view);
           '(context, view) ← lift (optional_string "context" view);
           '(repository, view) ← lift (optional_string "repository" view);
           lift (finish view) ;;
           commit ← compile_resolved_string commit_node (kind_path +:+ ".commit");
           mret (GithubStatus mapping_id commit (default DEFAULT_STATUS_CONTEXT context) repository)
         else if String.eqb (entry_key entry) "webhook" then
           view ← lift (view_new (entry_value entry) kind_path);
           '(mapping_id, view) ← lift (required_string "mapping_id" view);
           lift (finish view) ;;
           mret (Webhook mapping_id)
         else lift (fail_at entry_span kind_path "expected github_status or webhook"));
      lift (checked_at notify_error_display entry_span kind_path (notify_validate target)) ;;
      mret target
  | YMapping _ =>
      lift (fail_at entry_span entry_path "expected exactly one of github_status or webhook")
  | _ => lift (fail_at entry_span entry_path "expected a mapping")
  end.

Definition compile_notify (node : option SpannedValue) : comp (list NotifyTarget) :=
  match node with
  | None => mret []
  | Some node =>
      match sv_value node with
      | YSequence nodes =>
          if MAX_NOTIFY_TARGETS <? llen nodes then
            lift (fail_at (sv_span node) "$.notify"
              ("at most " +:+ fmt_z MAX_NOTIFY_TARGETS +:+ " notification targets are accepted"))
          else comp_map 0 compile_target nodes
      | _ => lift (fail_at (sv_span node) "$.notify" "expected a sequence")
      end
  end.

End Compile.

(** ** Parameters *)

Definition compile_parameter_value (node : SpannedValue) (path : string) :
    result compile_fault ParameterValue :=
  match sv_value node with
  | YBool b => Ok (PBool b)
  | YInteger z => Ok (PInteger z)
  | YString s => Ok (PString s)
  | _ => fail_at (sv_span node) path "expected a scalar parameter value"
  end.

(** The closure of [compile_parameter_definitions]. *)
Definition compile_parameter_definition (entry : MappingEntry) :
    result compile_fault (string * ParameterDefinition) :=
  let name := entry_key entry in
  let path := "$.parameters." +:+ name in
  map_err from_validation (validate_identifier path name) ;;
  check (contains_char "." name)
    (Failed (schema_error path "parameter names must not contain dot")) ;;
  definition ← view_new (entry_value entry) path;
  '(type_name, definition) ← required_string "type" definition;
  parameter_type ← ok_or (one_named [("boolean", TyBool); ("integer", TyInteger);
                                      ("string", TyString)] type_name)
    (Failed (schema_error (path +:+ ".type") "expected exactly boolean, integer, or string"));
  '(secret, definition) ← optional_bool "secret" definition;
  let secret := default false secret in
  let '(default_node, definition) := take_key "default" definition in
  default ← match default_node with
            | Some node => v ← compile_parameter_value node (path +:+ ".default"); Ok (Some v)
            | None => Ok None
            end;
  finish definition ;;
  check (secret && match default with Some _ => true | None => false end)
    (Failed (schema_error (path +:+ ".default")
      "secret parameters must not declare persisted defaults")) ;;
  check (match default with Some v => negb (accepts parameter_type v) | None => false end)
    (Failed (schema_error (path +:+ ".default")
      ("expected a " +:+ parameter_type_name parameter_type +:+ " default"))) ;;
  Ok (name, Build_ParameterDefinition parameter_type default secret).

Definition compile_parameter_definitions (node : option SpannedValue) :
    result compile_fault (bmap ParameterDefinition) :=
  match node with
  | None => Ok []
  | Some node =>
      match sv_value node with
      | YMapping entries =>
          if MAX_PARAMETERS <? llen entries then
            fail_at (sv_span node) "$.parameters"
              ("at most " +:+ fmt_z MAX_PARAMETERS +:+ " parameters are accepted")
          else
            definitions ← try_map compile_parameter_definition entries;
            Ok (collect_map definitions)
      | _ => fail_at (sv_span node) "$.parameters" "expected a mapping"
      end
  end.

(** The loop of [bind_parameter_values]: remaining inputs, public values and
    evaluation context. *)
Record Binding := {
  bi_inputs : bmap ParameterValue;
  bi_public : bmap ParameterValue;
  bi_context : gmap string EvaluatedValue
}.

Definition bind_parameter (b : Binding) (entry : string * ParameterDefinition) :
    result compile_fault Binding :=
  let '(name, definition) := entry in
  let path := "$.parameter_values." +:+ name in
  value ← ok_or (match bget name (bi_inputs b) with
                 | Some v => Some v
                 | None => pd_default definition
                 end) (Failed (schema_error path "required parameter input is missing"));
  check (negb (accepts (pd_type definition) value))
    (Failed (schema_error path
      ("expected a " +:+ parameter_type_name (pd_type definition) +:+ " value"))) ;;
  Ok {|
    bi_inputs := bdelete name (bi_inputs b);
    bi_public := if pd_secret definition then bi_public b else binsert name value (bi_public b);
    bi_context := <[name := Evaluated value (pd_secret definition)]> (bi_context b)
  |}.

Definition bind_parameter_values (definitions : bmap ParameterDefinition)
    (inputs : bmap ParameterValue) :
    result compile_fault (bmap ParameterValue * gmap string EvaluatedValue) :=
  match List.find (fun i => negb (bcontains (fst i) definitions)) inputs with
  | Some (name, _) =>
      fail_schema ("$.parameter_values." +:+ name) "input does not have a parameter definition"
  | None =>
      b ← try_fold bind_parameter (Build_Binding inputs [] ∅) definitions;
      Ok (bi_public b, bi_context b)
  end.

(** ** The compiler *)

(** [expressions.sort_by(|l, r| l.path.cmp(&r.path))]: a stable sort. *)
Fixpoint insert_binding (b : ExpressionBinding) (l : list ExpressionBinding) :
    list ExpressionBinding :=
  match l with
  | [] => [b]
  | c :: l' => if str_ltb (eb_path c) (eb_path b) then c :: insert_binding b l' else b :: l
  end.
Definition sort_bindings (l : list ExpressionBinding) : list ExpressionBinding :=
  foldr insert_binding [] l.

Definition any_step (f : Step -> bool) (ss : list Stage) : bool :=
  existsb (fun s => existsb f (stage_steps s)) ss.

Definition is_shell_process (s : Step) : bool :=
  match s with Process p => negb (bool_decide (ps_mode p = Direct)) | _ => false end.
Definition is_cache_intent (s : Step) : bool :=
  match s with CacheIntent _ => true | _ => false end.
Definition is_input_intent (s : Step) : bool :=
  match s with InputIntent _ => true | _ => false end.

(** The schema version the compiled parts need. *)
Definition choose_schema (parameters : bmap ParameterDefinition)
    (expressions : list ExpressionBinding) (stages : list Stage) (notify : list NotifyTarget) :
    SchemaVersion :=
  if negb (llen notify =? 0) then IR_V1_9
  else if existsb (fun s => negb (llen (stage_artifacts s) =? 0)) stages then IR_V1_8
  else if any_step is_checkout stages then IR_V1_7
  else if existsb (fun s => match stage_image s with Some _ => true | None => false end) stages
  then IR_V1_6
  else if any_step is_input_intent stages then IR_V1_5
  else if any_step is_cache_intent stages then IR_V1_4
  else if any_step is_connector stages then IR_V1_3
  else if any_step is_shell_process stages then IR_V1_2
  else if (llen parameters =? 0) && (llen expressions =? 0) then IR_V1
  else IR_V1_1.

Definition COMPILER_NAME : string := "mcloving-strict-yaml".
(** [env!("CARGO_PKG_VERSION")]: the workspace version of Cargo.toml. *)
Definition CARGO_PKG_VERSION : string := "0.0.0".

(** [compile_strict_yaml_with_parameters] from the parsed root on. *)
Definition compile_root `{External} (source_id source : string) (root : SpannedValue)
    (inputs : bmap ParameterValue) : result compile_fault PipelineIr :=
  view ← view_new root "$";
  '(version, view) ← required_integer "version" view;
  check (negb (version =? major IR_V1))
    (Failed (schema_error "$.version"
      ("expected version " +:+ fmt_z (major IR_V1) +:+ ", found " +:+ fmt_z version))) ;;
  '(name, view) ← required_string "name" view;
  let '(parameters_node, view) := take_key "parameters" view in
  '(stages_node, view) ← required "stages" view;
  let '(notify_node, view) := take_key "notify" view in
  finish view ;;
  parameters ← compile_parameter_definitions parameters_node;
  '(parameter_values, context) ← bind_parameter_values parameters inputs;
  '(stages, expressions) ← compile_stages context stages_node [];
  '(notify, expressions) ← compile_notify context notify_node expressions;
  let expressions := sort_bindings expressions in
  let pipeline := {|
    schema := choose_schema parameters expressions stages notify;
    name := name;
    parameters := parameters;
    parameter_values := parameter_values;
    expressions := expressions;
    stages := stages;
    notify := notify;
    provenance := Build_Provenance source_id (sha256 source)
      (Build_CompilerIdentity COMPILER_NAME CARGO_PKG_VERSION);
    source_span := sv_span root
  |} in
  map_err from_validation (validate_pipeline pipeline) ;;
  Ok pipeline.

Definition compile_strict_yaml_with_parameters `{External} `{YamlParser} (source_id source : string)
    (limits : ParseLimits) (inputs : bmap ParameterValue) : result compile_fault PipelineIr :=
  root ← map_err from_admission (parse_strict source limits);
  compile_root source_id source root inputs.

Definition compile_strict_yaml `{External} `{YamlParser} (source_id source : string)
    (limits : ParseLimits) : result compile_fault PipelineIr :=
  compile_strict_yaml_with_parameters source_id source limits [].

(** ** Re-instantiation *)

(** The loop over [template.expressions]. *)
Definition resolve_binding (context : gmap string EvaluatedValue) (resolved : bmap string)
    (b : ExpressionBinding) : result compile_fault (bmap string) :=
  value ← map_err (fun e => Failed (expression_error (eb_path b) e))
    (evaluate_expression (eb_expression b) context default_limits);
  if ev_secret value then
    fail_schema (eb_path b)
      "secret-tainted expression values cannot be materialized into Pipeline IR"
  else match ev_value value with
  | PString value => Ok (binsert (eb_path b) value resolved)
  | _ => fail_schema (eb_path b) "process fields require an expression that evaluates to string"
  end.

(** [if let Some(value) = resolved.remove(path) { *field = value }]. *)
Definition replace_field (path field : string) (resolved : bmap string) : string * bmap string :=
  match bget path resolved with
  | Some value => (value, bdelete path resolved)
  | None => (field, resolved)
  end.

(** A loop over [iter_mut().enumerate()] that threads [resolved]. *)
Fixpoint replace_each {A} (f : nat -> A -> bmap string -> A * bmap string) (index : nat)
    (l : list A) (resolved : bmap string) : list A * bmap string :=
  match l with
  | [] => ([], resolved)
  | x :: l =>
      let '(x, resolved) := f index x resolved in
      let '(l, resolved) := replace_each f (S index) l resolved in
      (x :: l, resolved)
  end.

Definition instantiate_process (base : string) (p : ProcessStep) (resolved : bmap string) :
    ProcessStep * bmap string :=
  let '(program, resolved) := replace_field (base +:+ ".program") (ps_program p) resolved in
  let '(args, resolved) :=
    replace_each (fun i a => replace_field (arg_path base i) a) 0 (ps_args p) resolved in
  let '(env, resolved) :=
    replace_each (fun _ (kv : string * string) r =>
      let '(v, r) := replace_field (base +:+ ".env." +:+ fst kv) (snd kv) r in
      ((fst kv, v), r)) 0 (ps_env p) resolved in
  (Build_ProcessStep (ps_mode p) program args env (ps_timeout_seconds p) (ps_source_span p),
   resolved).

Definition set_commit (s : CheckoutStepSpec) (commit : string) : CheckoutStepSpec :=
  Build_CheckoutStepSpec (co_mapping_id s) (co_mapping_digest s) (co_reference s) commit
    (co_destination s) (co_timeout_seconds s).

Definition instantiate_step (stage_index step_index : nat) (s : Step) (resolved : bmap string) :
    Step * bmap string :=
  match s with
  | Process p =>
      let '(p, resolved) := instantiate_process (process_base stage_index step_index) p resolved in
      (Process p, resolved)
  | Checkout c =>
      let '(commit, resolved) :=
        replace_field (commit_path stage_index step_index) (co_commit (ck_spec c)) resolved in
      (Checkout (Build_CheckoutStep (set_commit (ck_spec c) commit) (ck_source_span c)), resolved)
  | _ => (s, resolved)
  end.

Definition instantiate_stage (stage_index : nat) (s : Stage) (resolved : bmap string) :
    Stage * bmap string :=
  let '(steps, resolved) :=
    replace_each (instantiate_step stage_index) 0 (stage_steps s) resolved in
  (Build_Stage (stage_id s) (stage_name s) (stage_image s) steps (stage_artifacts s)
     (stage_source_span s), resolved).

Definition instantiate_target (index : nat) (t : NotifyTarget) (resolved : bmap string) :
    NotifyTarget * bmap string :=
  match t with
  | GithubStatus mapping_id commit context repository =>
      let '(commit, resolved) := replace_field (notify_path index) commit resolved in
      (GithubStatus mapping_id commit context repository, resolved)
  | Webhook _ => (t, resolved)
  end.

Definition instantiate_pipeline `{External} (template : PipelineIr)
    (inputs : bmap ParameterValue) : result compile_fault PipelineIr :=
  map_err from_validation (validate_pipeline template) ;;
  '(parameter_values, context) ← bind_parameter_values (parameters template) inputs;
  resolved ← try_fold (resolve_binding context) [] (expressions template);
  let '(stages, resolved) := replace_each instantiate_stage 0 (stages template) resolved in
  let '(notify, resolved) := replace_each instantiate_target 0 (notify template) resolved in
  match resolved with
  | (path, _) :: _ =>
      fail_schema path "expression binding does not identify a materializable process field"
  | [] =>
      let pipeline := Build_PipelineIr (schema template) (name template) (parameters template)
        parameter_values (expressions template) stages notify (provenance template)
        (source_span template) in
      map_err from_validation (validate_pipeline pipeline) ;;
      Ok pipeline
  end.
