(* ===== verification/CompileSchema.v ===== *)
(** * What the compiler decides: schema version and secrecy

    The schema version of a compiled pipeline is the least one its validator
    accepts, and inputs to secret parameters never influence the result. *)

From stdpp Require Import base gmap list strings pretty.
From Stdlib Require Import Ascii ZArith Lia.
From S2P Require Import Prelude Text Bytes Expression ExpressionEval Domain Artifacts.
From S2P Require Import StrictYaml YamlTree PipelineIr Compiler.

Open Scope Z_scope.

(** The same pipeline under another schema version. *)
Definition with_schema (v : SchemaVersion) (p : PipelineIr) : PipelineIr :=
  Build_PipelineIr v (name p) (parameters p) (parameter_values p) (expressions p) (stages p)
    (notify p) (provenance p) (source_span p).

(** ** The schema version is minimal *)

Lemma existsb_elem {A} (f : A -> bool) l : existsb f l = true -> exists x, x ∈ l /\ f x = true.
Proof.
  rewrite existsb_exists. intros (x & Hx & Hf). exists x. by rewrite list_elem_of_In.
Qed.

(** What a valid stage needs of its schema version. *)
Lemma validate_stage_needs `{External} m index ids total s total' :
  validate_stage m index ids total s = Ok total' ->
  (stage_artifacts s <> [] -> 8 <= m) /\ (stage_image s <> None -> 6 <= m) /\
  (forall x, x ∈ stage_steps s ->
     (is_checkout x = true -> 7 <= m) /\ (is_input_intent x = true -> 5 <= m) /\
     (is_cache_intent x = true -> 4 <= m) /\ (is_connector x = true -> 3 <= m) /\
     (is_shell_process x = true -> 2 <= m)).
Proof.
  intros Hv. unfold validate_stage in Hv.
  do 8 (apply bind_ok in Hv as ([] & _ & Hv)). cbv zeta in Hv. apply bind_ok in Hv as ([] & _ & Hv).
  apply bind_ok in Hv as ([] & Ha & Hv). apply bind_ok in Hv as ([] & Hi & Hv).
  apply bind_ok in Hv as ([] & Hs & _). rewrite try_for_enum_ok in Hs. split_and!.
  - intros Hne. unfold validate_stage_artifacts in Ha. destruct (stage_artifacts s); [done|].
    apply bind_ok in Ha as ([] & Hm%check_ok%Z.ltb_ge & _). exact Hm.
  - intros Hne. unfold validate_stage_image in Hi. destruct (stage_image s); [|done].
    by apply bind_ok in Hi as ([] & Hm%check_ok%Z.ltb_ge & _).
  - intros x (k & Hk)%list_elem_of_lookup. specialize (Hs k x Hk). unfold validate_step in Hs.
    cbv zeta in Hs.
    destruct x as [p|i|c|i|c]; split_and!; try done; intros Hx;
      try (by apply bind_ok in Hs as ([] & Hm%check_ok%Z.ltb_ge & _)).
    unfold validate_process in Hs. apply bind_ok in Hs as ([] & Hm%check_ok & _).
    simpl in Hx. rewrite Hx, andb_true_r in Hm. by apply Z.ltb_ge in Hm.
Qed.

Lemma validate_stages_elem `{External} m index ids total ss s :
  validate_stages m index ids total ss = Ok tt -> s ∈ ss ->
  exists index ids total total', validate_stage m index ids total s = Ok total'.
Proof.
  revert index ids total. induction ss as [|a ss IH]; intros index ids total Hv Hin; [set_solver|].
  cbn [validate_stages] in Hv. apply bind_ok in Hv as (total' & Ha & Hv).
  apply elem_of_cons in Hin as [->|Hin]; eauto.
Qed.

(** What a valid pipeline needs of its schema version. *)
Lemma validate_needs `{External} p :
  validate_pipeline p = Ok tt ->
  (notify p <> [] -> 9 <= minor (schema p)) /\
  (schema p = IR_V1 -> parameters p = [] /\ expressions p = []) /\
  exists index ids total, validate_stages (minor (schema p)) index ids total (stages p) = Ok tt.
Proof.
  intros Hv. unfold validate_pipeline in Hv.
  apply bind_ok in Hv as ([] & _ & Hv). apply bind_ok in Hv as ([] & Hf%check_ok & Hv).
  do 4 (apply bind_ok in Hv as ([] & _ & Hv)). apply bind_ok in Hv as ([] & Hn & Hv). split_and!.
  - intros Hne. destruct (notify p); [done|].
    by apply bind_ok in Hn as ([] & Hm%check_ok%Z.ltb_ge & _).
  - intros E. rewrite E, bool_decide_eq_true_2 in Hf by done. cbn [andb] in Hf.
    apply orb_false_iff in Hf as [[Hf1 Hf2]%orb_false_iff Hf3].
    split; [destruct (parameters p)|destruct (expressions p)]; done.
  - eauto.
Qed.

Lemma any_step_elem f ss : any_step f ss = true ->
  exists s x, s ∈ ss /\ x ∈ stage_steps s /\ f x = true.
Proof.
  intros (s & Hs & (x & Hx & Hf)%existsb_elem)%existsb_elem. eauto 6.
Qed.

(** A pipeline that validates has at least the schema version its parts need. *)
Lemma chosen_below `{External} p :
  validate_pipeline p = Ok tt ->
  minor (choose_schema (parameters p) (expressions p) (stages p) (notify p)) <= minor (schema p).
Proof.
  intros Hv. destruct (validate_needs p Hv) as (Hn & H1 & index & ids & total & Hs).
  assert (forall s, s ∈ stages p -> exists index ids total total',
    validate_stage (minor (schema p)) index ids total s = Ok total') as Hst
    by (intros; by eapply validate_stages_elem).
  assert (forall f n, any_step f (stages p) = true ->
    (forall index ids total s total' x, validate_stage (minor (schema p)) index ids total s = Ok total' ->
       x ∈ stage_steps s -> f x = true -> n <= minor (schema p)) -> n <= minor (schema p)) as Hany.
  { intros f n (s & x & Hin & Hx & Hf)%any_step_elem Hneed.
    destruct (Hst s Hin) as (? & ? & ? & ? & Hvs). eauto. }
  pose proof Hv as Hacc. unfold validate_pipeline in Hacc.
  apply bind_ok in Hacc as ([] & Hacc%check_ok%negb_false_iff%bool_decide_eq_true & _).
  assert (0 <= minor (schema p) /\ (minor (schema p) < 1 -> schema p = IR_V1)) as [Hpos Hv1].
  { unfold accepted_schemas in Hacc. rewrite !elem_of_cons, elem_of_nil in Hacc.
    repeat destruct Hacc as [->|Hacc]; done. }
  unfold choose_schema. repeat case_match; simpl; try exact Hpos.
  - apply Hn. intros E. by rewrite E in *.
  - match goal with E : existsb _ _ = true |- _ => apply existsb_elem in E as (s & Hin & Ha) end.
    destruct (Hst s Hin) as (? & ? & ? & ? & Hvs). apply (validate_stage_needs _ _ _ _ _ _ Hvs).
    intros E. by rewrite E in Ha.
  - eapply Hany; [done|]. intros. eapply validate_stage_needs; eauto.
  - match goal with E : existsb _ _ = true |- _ => apply existsb_elem in E as (s & Hin & Ha) end.
    destruct (Hst s Hin) as (? & ? & ? & ? & Hvs). apply (validate_stage_needs _ _ _ _ _ _ Hvs).
    intros E. by rewrite E in Ha.
  - eapply Hany; [done|]. intros. eapply validate_stage_needs; eauto.
  - eapply Hany; [done|]. intros. eapply validate_stage_needs; eauto.
  - eapply Hany; [done|]. intros. eapply validate_stage_needs; eauto.
  - eapply Hany; [done|]. intros. eapply validate_stage_needs; eauto.
  - destruct (Z.lt_ge_cases (minor (schema p)) 1) as [Hlt|]; [|done].
    destruct (H1 (Hv1 Hlt)) as [E1 E2]. rewrite E1, E2 in *. done.
Qed.

Lemma compile_root_ok `{External} source_id source root inputs p :
  compile_root source_id source root inputs = Ok p ->
  validate_pipeline p = Ok tt /\
  schema p = choose_schema (parameters p) (expressions p) (stages p) (notify p).
Proof.
  unfold compile_root. intros (view & _ & Hc)%bind_ok.
  apply bind_ok in Hc as ([version view'] & _ & Hc). apply bind_ok in Hc as ([] & _ & Hc).
  apply bind_ok in Hc as ([n view2] & _ & Hc). destruct (take_key _ _) as [pn view3].
  apply bind_ok in Hc as ([sn view4] & _ & Hc). destruct (take_key _ _) as [nn view5].
  apply bind_ok in Hc as ([] & _ & Hc). apply bind_ok in Hc as (ps & _ & Hc).
  apply bind_ok in Hc as ([vs ctx] & _ & Hc). apply bind_ok in Hc as ([ss es] & _ & Hc).
  apply bind_ok in Hc as ([ns es'] & _ & Hc). cbv zeta in Hc.
  apply bind_ok in Hc as ([] & Hv%map_err_ok & [= <-]). done.
Qed.

(** C30. The compiler picks the oldest schema version that can carry the
    pipeline: what it returns is valid, and under any version the validator
    accepts it with, the version is at least the chosen one.  So a reader too
    old for a compiled pipeline could not have represented it. *)
Theorem compile_schema_minimal `{External} source_id source root inputs p :
  compile_root source_id source root inputs = Ok p ->
  validate_pipeline p = Ok tt /\
  forall v, validate_pipeline (with_schema v p) = Ok tt -> minor (schema p) <= minor v.
Proof.
  intros [Hv Hs]%compile_root_ok. split; [done|]. intros v Hw.
  rewrite Hs. exact (chosen_below _ Hw).
Qed.

(** ** Secret inputs do not matter *)

(** The outcome of a successful compilation is the same in every context that
    differs only in the values of secret parameters. *)
Definition blind {A} (m : gmap string EvaluatedValue -> comp A) : Prop :=
  forall c1 c2 es r, low_equivalent c1 c2 -> m c1 es = Ok r -> m c2 es = Ok r.

Lemma blind_const {A} (m : comp A) : blind (fun _ => m).
Proof. by intros c1 c2 es r _ Hm. Qed.

Lemma blind_bind {A B} (m : gmap string EvaluatedValue -> comp A)
    (f : gmap string EvaluatedValue -> A -> comp B) :
  blind m -> (forall a, blind (fun c => f c a)) -> blind (fun c => m c ≫= f c).
Proof.
  intros Hm Hf c1 c2 es r Hlow. unfold mbind, comp_bind.
  destruct (m c1 es) as [[a es']|] eqn:E; [|done]. rewrite (Hm c1 c2 es (a, es') Hlow E).
  by apply Hf.
Qed.

Lemma blind_map {A B} (f : gmap string EvaluatedValue -> nat -> A -> comp B) l i :
  (forall i x, blind (fun c => f c i x)) -> blind (fun c => comp_map i (f c) l).
Proof.
  intros Hf. revert i. induction l as [|x l IH]; intros i; cbn [comp_map]; [apply blind_const|].
  apply blind_bind; [apply Hf|]. intros y. apply blind_bind; [apply IH|]. intros ys. apply blind_const.
Qed.

Lemma blind_resolved_string node path : blind (fun c => compile_resolved_string c node path).
Proof.
  intros c1 c2 es r Hlow. unfold compile_resolved_string.
  destruct (sv_value node); try done;
    intros (view & Hv & Hr)%bind_ok; rewrite Hv; cbn [mbind result_bind];
    apply bind_ok in Hr as ([source view'] & Hs & Hr); rewrite Hs; cbn [mbind result_bind];
    apply bind_ok in Hr as ([] & Hf & Hr); rewrite Hf; cbn [mbind result_bind];
    apply bind_ok in Hr as (e & He & Hr); rewrite He; cbn [mbind result_bind];
    apply bind_ok in Hr as (v & Hev%map_err_ok & Hr);
    destruct (ev_secret v) eqn:Es; try done;
    rewrite (evaluate_low _ _ _ _ _ Hev Es Hlow); cbn [map_err mbind result_bind]; by rewrite ?Es.
Qed.

Ltac blind_once :=
  match goal with
  | |- blind (fun _ => ?m) => exact (blind_const m)
  | |- blind (fun c => compile_resolved_string c ?node ?path) =>
      exact (blind_resolved_string node path)
  | |- blind (fun c => comp_map ?i (@?f c) ?l) => apply (blind_map f l i); intros ? ?
  | |- blind (fun c => @?m c ≫= @?f c) => apply (blind_bind m f); [|intros ?]
  | |- blind (fun c => let '(_, _) := ?x in _) => destruct x
  | |- blind (fun c => match ?x with _ => _ end) => destruct x
  end.
Ltac blind_solve := cbv zeta; repeat (blind_once; cbv beta).

Lemma blind_process node path span : blind (fun c => compile_process c node path span).
Proof.
  unfold compile_process, optional_resolved_sequence, optional_resolved_mapping. blind_solve.
Qed.

Lemma blind_checkout node path span : blind (fun c => compile_checkout c node path span).
Proof. unfold compile_checkout. blind_solve. Qed.

Lemma blind_step `{External} stage_path i node : blind (fun c => compile_step c stage_path i node).
Proof.
  unfold compile_step. cbv zeta. apply blind_bind; [apply blind_const|]. intros v. cbv beta.
  blind_solve; apply blind_process || apply blind_checkout.
Qed.

Lemma blind_stage `{External} i node : blind (fun c => compile_stage c i node).
Proof.
  unfold compile_stage, compile_steps. blind_solve. apply blind_step.
Qed.

Lemma blind_stages `{External} node : blind (fun c => compile_stages c node).
Proof.
  unfold compile_stages. blind_solve. intros c1 c2 es r Hlow Hm%map_err_ok.
  apply map_err_ok. revert Hm. apply (blind_map (fun c => compile_stage c)); [|done].
  intros. apply blind_stage.
Qed.

Lemma blind_notify node : blind (fun c => compile_notify c node).
Proof. unfold compile_notify, compile_target. blind_solve. Qed.

(** The second inputs differ from the first only on secret parameters, for
    which they have values of the right type. *)
Definition agree_on_public (definitions : bmap ParameterDefinition) (i1 i2 : bmap ParameterValue) :
    Prop :=
  forall n d, (n, d) ∈ definitions ->
  if pd_secret d then exists v, bget n i2 = Some v /\ accepts (pd_type d) v = true
  else bget n i1 = bget n i2.

Lemma low_equivalent_insert c1 c2 n v1 v2 secret :
  low_equivalent c1 c2 -> (secret = false -> v1 = v2) ->
  low_equivalent (<[n := Evaluated v1 secret]> c1) (<[n := Evaluated v2 secret]> c2).
Proof.
  intros Hlow Hv m. destruct (decide (n = m)) as [->|].
  - rewrite !lookup_insert_eq. simpl. split; [done|]. intros E. by rewrite (Hv E).
  - rewrite !lookup_insert_ne by done. apply Hlow.
Qed.

Lemma agree_tail n d definitions i1 i2 :
  NoDup (n :: definitions.*1) -> bmap_wf i1 -> bmap_wf i2 ->
  agree_on_public ((n, d) :: definitions) i1 i2 ->
  agree_on_public definitions (bdelete n i1) (bdelete n i2).
Proof.
  intros Hn W1 W2 Ha m e Hin. specialize (Ha m e). rewrite !bget_bdelete by done.
  apply NoDup_cons in Hn as [Hn _]. rewrite (proj2 (String.eqb_neq _ _)).
  - apply Ha. by right.
  - intros ->. apply Hn, list_elem_of_fmap. by exists (m, e).
Qed.

Lemma bind_parameters_low definitions i1 i2 public c1 c2 b1 :
  NoDup definitions.*1 -> bmap_wf i1 -> bmap_wf i2 -> agree_on_public definitions i1 i2 ->
  low_equivalent c1 c2 ->
  try_fold bind_parameter (Build_Binding i1 public c1) definitions = Ok b1 ->
  exists b2, try_fold bind_parameter (Build_Binding i2 public c2) definitions = Ok b2 /\
    bi_public b2 = bi_public b1 /\ low_equivalent (bi_context b1) (bi_context b2).
Proof.
  revert i1 i2 public c1 c2. induction definitions as [|[n d] ds IH];
    intros i1 i2 public c1 c2 Hn W1 W2 Ha Hlow Hf.
  { injection Hf as <-. by eexists. }
  cbn [try_fold] in Hf. apply bind_ok in Hf as (b & Hb & Hf).
  unfold bind_parameter in Hb. cbn [bi_inputs bi_public bi_context] in Hb.
  apply bind_ok in Hb as (v1 & Hv1 & Hb). apply bind_ok in Hb as ([] & Hacc%check_ok & [= <-]).
  pose proof (Ha n d ltac:(by left)) as Hnd. rewrite fmap_cons in Hn.
  assert (exists v2, match bget n i2 with Some v => Some v | None => pd_default d end = Some v2 /\
    accepts (pd_type d) v2 = true /\ (pd_secret d = false -> v1 = v2)) as (v2 & Hv2 & Ha2 & Hp).
  { destruct (pd_secret d).
    - destruct Hnd as (v & -> & Hav). by exists v.
    - rewrite <- Hnd. exists v1. apply negb_false_iff in Hacc.
      split_and!; [|done|done]. destruct (bget n i1), (pd_default d); by simplify_eq/=. }
  pose proof (agree_tail _ _ _ _ _ Hn W1 W2 Ha) as Ht. apply NoDup_cons in Hn as [_ Hn].
  destruct (IH (bdelete n i1) (bdelete n i2) (if pd_secret d then public else binsert n v1 public)
    (<[n := Evaluated v1 (pd_secret d)]> c1) (<[n := Evaluated v2 (pd_secret d)]> c2) Hn
    ltac:(by apply bdelete_wf) ltac:(by apply bdelete_wf) Ht
    ltac:(by apply low_equivalent_insert) Hf) as (b2 & Hb2 & Hpub & Hl2).
  exists b2. split; [|done]. cbn [try_fold].
  assert (bind_parameter (Build_Binding i2 public c2) (n, d) = Ok (Build_Binding (bdelete n i2)
    (if pd_secret d then public else binsert n v1 public)
    (<[n := Evaluated v2 (pd_secret d)]> c2))) as ->; [|done].
  unfold bind_parameter. cbn [bi_inputs bi_public bi_context]. rewrite Hv2.
  cbn [ok_or mbind result_bind]. rewrite Ha2. cbn [negb check].
  destruct (pd_secret d) eqn:Es; [done|]. by rewrite <- (Hp eq_refl).
Qed.

Lemma collect_map_wf {V} (l : list (string * V)) : bmap_wf (collect_map l).
Proof.
  unfold collect_map. assert (bmap_wf (@nil (string * V))) as W by constructor.
  revert W. generalize (@nil (string * V)). induction l as [|e l IH]; intros m W; [done|].
  by apply IH, binsert_wf.
Qed.

Lemma compile_parameter_definitions_wf node definitions :
  compile_parameter_definitions node = Ok definitions -> bmap_wf definitions.
Proof.
  unfold compile_parameter_definitions. destruct node as [node|].
  - destruct (sv_value node); try done. destruct (_ <? _); [done|].
    intros (l & _ & [= <-])%bind_ok. apply collect_map_wf.
  - intros [= <-]. constructor.
Qed.

Definition keys_defined {V W} (inputs : bmap V) (definitions : bmap W) : bool :=
  forallb (fun i => bcontains (fst i) definitions) inputs.

Lemma bind_parameter_values_low definitions i1 i2 public c1 :
  bmap_wf definitions -> bmap_wf i1 -> bmap_wf i2 -> agree_on_public definitions i1 i2 ->
  keys_defined i2 definitions = true ->
  bind_parameter_values definitions i1 = Ok (public, c1) ->
  exists c2, bind_parameter_values definitions i2 = Ok (public, c2) /\ low_equivalent c1 c2.
Proof.
  intros Wd W1 W2 Ha Hk Hb. unfold bind_parameter_values in *.
  destruct (List.find _ i1) as [[]|]; [done|].
  apply bind_ok in Hb as (b1 & Hf & [= <- <-]).
  destruct (List.find _ i2) as [[m v]|] eqn:E.
  { apply List.find_some in E as [Hin Hm]. unfold keys_defined in Hk.
    rewrite forallb_forall in Hk. by rewrite (Hk _ Hin) in Hm. }
  destruct (bind_parameters_low definitions i1 i2 [] ∅ ∅ b1) as (b2 & Hb2 & Hp & Hl); try done.
  { by apply bmap_wf_nodup. }
  rewrite Hb2. cbn [mbind result_bind]. rewrite Hp. eauto.
Qed.

(** C19. The value of a secret parameter never reaches what is compiled: if a
    source compiles under some inputs, then with any other well-typed values
    for its secret parameters it compiles to exactly the same pipeline, so
    neither the pipeline nor its digest can disclose one. *)
Theorem compile_noninterference `{External} `{YamlParser} source_id source limits i1 i2 p :
  bmap_wf i1 -> bmap_wf i2 ->
  compile_strict_yaml_with_parameters source_id source limits i1 = Ok p ->
  agree_on_public (parameters p) i1 i2 -> keys_defined i2 (parameters p) = true ->
  compile_strict_yaml_with_parameters source_id source limits i2 = Ok p.
Proof.
  intros W1 W2 (root & Hroot & Hc)%bind_ok Ha Hk.
  unfold compile_strict_yaml_with_parameters. rewrite Hroot. cbn [mbind result_bind]. revert Hc.
  unfold compile_root. intros (view & -> & Hc)%bind_ok; cbn [mbind result_bind].
  apply bind_ok in Hc as ([version view'] & -> & Hc). cbn [mbind result_bind].
  apply bind_ok in Hc as ([] & -> & Hc). cbn [mbind result_bind].
  apply bind_ok in Hc as ([n view2] & -> & Hc). cbn [mbind result_bind].
  destruct (take_key _ _) as [pn view3].
  apply bind_ok in Hc as ([sn view4] & -> & Hc). cbn [mbind result_bind].
  destruct (take_key _ _) as [nn view5].
  apply bind_ok in Hc as ([] & -> & Hc). cbn [mbind result_bind].
  apply bind_ok in Hc as (ps & Hps & Hc). rewrite Hps. cbn [mbind result_bind].
  apply bind_ok in Hc as ([vs ctx] & Hb & Hc).
  apply bind_ok in Hc as ([ss es] & Hs & Hc). apply bind_ok in Hc as ([ns es'] & Hn & Hc).
  cbv zeta in Hc. apply bind_ok in Hc as ([] & Hv & [= <-]). cbn [parameters] in *.
  destruct (bind_parameter_values_low ps i1 i2 vs ctx) as (ctx2 & -> & Hlow); try done.
  { by eapply compile_parameter_definitions_wf. }
  cbn [mbind result_bind]. rewrite (blind_stages _ _ _ _ _ Hlow Hs). cbn [mbind result_bind].
  rewrite (blind_notify _ _ _ _ _ Hlow Hn). cbn [mbind result_bind]. cbv zeta.
  by rewrite Hv.
Qed.

(** ** Example *)

(** The events of a document without positions. *)
Inductive doc : Type := Scalar (s : string) | Items (l : list doc) | Fields (l : list (string * doc)).

Fixpoint doc_events (d : doc) : list Event :=
  match d with
  | Scalar s => [EvScalar s Plain 0 None]
  | Items l => EvSequenceStart 0 None :: concat (map doc_events l) ++ [EvSequenceEnd]
  | Fields l => EvMappingStart 0 None ::
      concat (map (fun kv => EvScalar (fst kv) Plain 0 None :: doc_events (snd kv)) l) ++
      [EvMappingEnd]
  end.

(** A parser that knows one document. *)
Definition doc_parser (d : doc) : YamlParser := {|
  yaml_events _ :=
    map (fun e => Ok (e, (Build_Marker 0 1 0, Build_Marker 1 1 1)))
      (EvStreamStart :: EvDocumentStart :: doc_events d ++ [EvDocumentEnd; EvStreamEnd])
|}.

(** One process step whose argument is computed from a public parameter; a
    second parameter is secret. *)
Definition release_doc : doc := Fields [
  ("version", Scalar "1"); ("name", Scalar "release");
  ("parameters", Fields [
    ("target", Fields [("type", Scalar "string"); ("default", Scalar "linux")]);
    ("token", Fields [("type", Scalar "string"); ("secret", Scalar "true")])]);
  ("stages", Items [Fields [
    ("id", Scalar "build"); ("name", Scalar "Build");
    ("steps", Items [Fields [("process", Fields [
      ("program", Scalar "make");
      ("args", Items [Fields [("expression", Scalar "parameters.target")]])])]])]])].

Definition token_inputs (token : string) : bmap ParameterValue := [("token", PString token)].

Definition compile_release (inputs : bmap ParameterValue) : result compile_fault PipelineIr :=
  compile_strict_yaml_with_parameters (H := Domain.example_external)
    (H0 := doc_parser release_doc) "release" "{...}" default_parse_limits inputs.

Definition release_pipeline : PipelineIr :=
  match compile_release (token_inputs "hunter2") with
  | Ok p => p
  | Err _ => Build_PipelineIr IR_V1 "" [] [] [] [] []
      (Build_Provenance "" "" (Build_CompilerIdentity "" ""))
      (Build_SourceSpan (Build_SourceLocation 0 0 0) (Build_SourceLocation 0 0 0))
  end.

Lemma compile_noninterference_witness :
  compile_release (token_inputs "swordfish") = Ok release_pipeline.
Proof.
  apply (compile_noninterference (H := Domain.example_external) (H0 := doc_parser release_doc)
    "release" "{...}" default_parse_limits (token_inputs "hunter2")).
  - repeat constructor.
  - repeat constructor.
  - vm_compute. reflexivity.
  - intros n d Hin. replace (parameters release_pipeline) with
      [("target", Build_ParameterDefinition TyString (Some (PString "linux")) false);
       ("token", Build_ParameterDefinition TyString None true)] in Hin by (vm_compute; reflexivity).
    rewrite !elem_of_cons, elem_of_nil in Hin.
    destruct Hin as [[= -> ->]|[[= -> ->]|[]]]; vm_compute; eauto.
  - reflexivity.
Defined.

Lemma compile_schema_minimal_witness :
  minor (schema release_pipeline) = 1 /\
  forall v, validate_pipeline (H := Domain.example_external) (with_schema v release_pipeline) = Ok tt ->
  1 <= minor v.
Proof.
  split; [vm_compute; reflexivity|].
  apply (compile_schema_minimal (H := Domain.example_external) "release" "{...}"
    (match parse_strict (H := doc_parser release_doc) "{...}" default_parse_limits with
     | Ok root => root | Err _ => example_tree end) (token_inputs "hunter2")).
  vm_compute. reflexivity.
Defined.
