(* ===== verification/Canonical.v ===== *)
(** * Canonical bytes (crates/pipeline-ir/src/canonical.rs)

    The writer that gives an admitted pipeline its deterministic bytes, and the
    independent validator that re-reads such bytes: framing, bounds, opcodes,
    ordering, UTF-8, evaluation of the expression bindings and complete
    consumption.  The writer's buffer is a string; the reader threads its
    offset into the input. *)

From stdpp Require Import base gmap list strings pretty.
From Stdlib Require Import Ascii ZArith Lia.
From S2P Require Import Prelude Text Bytes Expression Domain Artifacts PipelineIr.

Open Scope Z_scope.

Definition MAGIC : string := "MCLOVING-IR" +:+ nul.

(** ** Writer *)

Definition w_u8 (value : Z) : string := be_bytes 1 value.
Definition w_u16 (value : Z) : string := be_bytes 2 value.
(** [value as u32]: the low 32 bits. *)
Definition w_u32 (value : Z) : string := be_bytes 4 value.
Definition w_u64 (value : Z) : string := be_bytes 8 value.
Definition w_string (value : string) : string := w_u32 (slen value) +:+ value.

Definition w_bool (b : bool) : string := w_u8 (if b then 1 else 0).

Definition w_parameter_type (t : ParameterType) : string :=
  w_u8 (match t with TyBool => 1 | TyInteger => 2 | TyString => 3 end).

Definition w_process_mode (m : ProcessMode) : string :=
  w_u8 (match m with Direct => 0 | WindowsCmd => 1 | PowerShell => 2 end).

Definition w_connector_effect_class (c : ConnectorEffectClass) : string :=
  w_u8 (match c with Idempotent => 1 | ExternallyIdempotent => 2 | NonIdempotent => 3 end).

Definition json_field_opcode (t : JsonFieldType) : Z :=
  match t with
  | JArray => 1 | JBoolean => 2 | JNull => 3 | JNumber => 4 | JObject => 5 | JString => 6
  end.

Definition w_json_field (field : string * JsonFieldType) : string :=
  w_string (fst field) +:+ w_u8 (json_field_opcode (snd field)).
Definition w_json_field_schema (fields : bmap JsonFieldType) : string :=
  w_u32 (llen fields) +:+ enc_all w_json_field fields.

Definition w_ambiguity_policy (p : AmbiguityPolicy) : string :=
  w_u8 (match p with ObserveThenReconcile => 1 end).

Definition w_parameter_value (v : ParameterValue) : string :=
  match v with
  | PBool b => w_u8 1 +:+ w_bool b
  | PInteger z => w_u8 2 +:+ i64_bytes z
  | PString s => w_u8 3 +:+ w_string s
  end.

Fixpoint w_expression (e : Expression) : string :=
  match e with
  | Literal v => w_u8 1 +:+ w_parameter_value v
  | EParameter n => w_u8 2 +:+ w_string n
  | Not a => w_u8 3 +:+ w_expression a
  | Equal l r => w_u8 4 +:+ w_expression l +:+ w_expression r
  | NotEqual l r => w_u8 5 +:+ w_expression l +:+ w_expression r
  | And l r => w_u8 6 +:+ w_expression l +:+ w_expression r
  | Or l r => w_u8 7 +:+ w_expression l +:+ w_expression r
  | Add l r => w_u8 8 +:+ w_expression l +:+ w_expression r
  end.

(** [match x { Some(v) => { u8(1); f(v) }, None => u8(0) }]. *)
Definition w_option {A} (f : A -> string) (o : option A) : string :=
  match o with Some v => w_u8 1 +:+ f v | None => w_u8 0 end.

(** A [u32] count and the elements. *)
Definition w_list {A} (f : A -> string) (l : list A) : string :=
  w_u32 (llen l) +:+ enc_all f l.

Definition w_parameter (entry : string * ParameterDefinition) : string :=
  let '(name, d) := entry in
  w_string name +:+ w_parameter_type (pd_type d) +:+ w_bool (pd_secret d)
  +:+ w_option w_parameter_value (pd_default d).

Definition w_parameter_binding (entry : string * ParameterValue) : string :=
  w_string (fst entry) +:+ w_parameter_value (snd entry).

Definition w_expression_binding (b : ExpressionBinding) : string :=
  w_string (eb_path b) +:+ w_expression (eb_expression b).

Definition w_env (entry : string * string) : string :=
  w_string (fst entry) +:+ w_string (snd entry).

Definition w_process (minor_version : Z) (p : ProcessStep) : string :=
  (if 2 <=? minor_version then w_process_mode (ps_mode p) else "")
  +:+ w_string (ps_program p) +:+ w_list w_string (ps_args p) +:+ w_list w_env (ps_env p)
  +:+ w_option w_u64 (ps_timeout_seconds p).

Definition w_checkout (s : CheckoutStepSpec) : string :=
  w_string (co_mapping_id s) +:+ w_string (co_mapping_digest s) +:+ w_string (co_reference s)
  +:+ w_string (co_commit s) +:+ w_string (co_destination s) +:+ w_u64 (co_timeout_seconds s).

Definition w_cache (i : CacheIntentSpec) : string :=
  w_string (ci_mapping_id i) +:+ w_string (ci_mapping_digest i)
  +:+ w_u8 (match ci_operation i with CacheRead => 1 | CachePublish => 2 end)
  +:+ w_string (ci_logical_key_sha256 i) +:+ w_string (ci_input_sha256 i)
  +:+ w_option w_string (ci_content_base64 i) +:+ w_u64 (ci_timeout_seconds i).

Definition w_input (i : InputIntentSpec) : string :=
  w_string (ii_mapping_id i) +:+ w_string (ii_mapping_digest i)
  +:+ w_u64 (ii_timeout_seconds i).

Definition w_connector (i : ConnectorIntentStep) : string :=
  w_string (cn_mapping_id i) +:+ w_string (cn_mapping_digest i)
  +:+ w_connector_effect_class (cn_effect_class i) +:+ w_string (cn_effect_key_template i)
  +:+ w_json_field_schema (cn_public_input_schema i)
  +:+ w_json_field_schema (cn_protected_secret_ref_schema i)
  +:+ w_json_field_schema (cn_expected_public_result_schema i)
  +:+ w_u64 (cn_timeout_seconds i) +:+ w_ambiguity_policy (cn_ambiguity_policy i)
  +:+ w_string (cn_downstream_control_digest i).

Definition w_step (minor_version : Z) (s : Step) : string :=
  match s with
  | Process p => w_u8 1 +:+ w_process minor_version p
  | InputIntent i => w_u8 4 +:+ w_input (is_intent i)
  | Checkout c => w_u8 5 +:+ w_checkout (ck_spec c)
  | CacheIntent c => w_u8 3 +:+ w_cache (cs_intent c)
  | ConnectorIntent i => w_u8 2 +:+ w_connector i
  end.

Definition w_artifact (a : ArtifactSpec) : string :=
  w_string (as_name a) +:+ w_list w_string (as_paths a).

Definition w_stage (minor_version : Z) (s : Stage) : string :=
  w_string (stage_id s) +:+ w_string (stage_name s)
  +:+ (if 6 <=? minor_version then w_option w_string (stage_image s) else "")
  +:+ w_list (w_step minor_version) (stage_steps s)
  +:+ (if 8 <=? minor_version then w_list w_artifact (stage_artifacts s) else "").

Definition w_notify (t : NotifyTarget) : string :=
  match t with
  | GithubStatus mapping_id commit context repository =>
      w_u8 1 +:+ w_string mapping_id +:+ w_string commit +:+ w_string context
      +:+ w_option w_string repository
  | Webhook mapping_id => w_u8 2 +:+ w_string mapping_id
  end.

Definition w_parameter_section (p : PipelineIr) : string :=
  w_list w_parameter (parameters p) +:+ w_list w_parameter_binding (parameter_values p)
  +:+ w_list w_expression_binding (expressions p).

Definition encode_pipeline (p : PipelineIr) : string :=
  let m := minor (schema p) in
  MAGIC +:+ w_u16 (major (schema p)) +:+ w_u16 m +:+ w_string (name p)
  +:+ (if 1 <=? m then w_parameter_section p else "")
  +:+ w_list (w_stage m) (stages p)
  +:+ (if 9 <=? m then w_list w_notify (notify p) else "").

(** [PipelineIr::canonical_bytes], [semantic_digest] and its hexadecimal form. *)
Definition canonical_bytes `{External} (p : PipelineIr) : result IrValidationError string :=
  validate_pipeline p ;; Ok (encode_pipeline p).
Definition semantic_digest `{External} (p : PipelineIr) : result IrValidationError string :=
  bytes ← canonical_bytes p; Ok (sha256 bytes).
Definition semantic_digest_hex `{External} (p : PipelineIr) : result IrValidationError string :=
  digest ← semantic_digest p; Ok (hex_of digest).

(** ** Reader *)

Record CanonicalSummary := {
  sum_schema : SchemaVersion;
  sum_pipeline_name : string;
  sum_parameters : Z;
  sum_expressions : Z;
  sum_stages : Z;
  sum_steps : Z;
  sum_sha256 : string
}.

Record CanonicalError := CanonErr { ce_offset : Z; ce_message : string }.

(** The input and the offset; the result carries the new offset. *)
Definition reader (A : Type) : Type := string -> Z -> result CanonicalError (A * Z).

#[export] Instance reader_ret : MRet reader := fun A a bytes offset => Ok (a, offset).
#[export] Instance reader_bind : MBind reader :=
  fun A B f m bytes offset =>
    match m bytes offset with
    | Ok (a, offset) => f a bytes offset
    | Err e => Err e
    end.

(** [return Err(CanonicalError::new(reader.offset.saturating_sub(back), message))]. *)
Definition reject {A} (back : Z) (message : string) : reader A :=
  fun _ offset => Err (CanonErr (sat_sub offset back) message).
Definition reject_if (b : bool) (back : Z) (message : string) : reader () :=
  if b then reject back message else mret tt.

(** A domain validator: [.map_err(|error| CanonicalError::new(reader.offset, ..))?]. *)
Definition validated {E} (display : E -> string) (r : result E ()) : reader () :=
  match r with Ok _ => mret tt | Err e => reject 0 (display e) end.

Definition r_take (length : Z) : reader string :=
  fun bytes offset =>
    match checked_add_usize offset length with
    | Some end_ =>
        if end_ <=? slen bytes
        then Ok (stake (Z.to_nat length) (sdrop (Z.to_nat offset) bytes), end_)
        else Err (CanonErr offset "truncated input")
    | None => Err (CanonErr offset "truncated input")
    end.

Definition r_u8 : reader Z := b ← r_take 1; mret (be_val b).
Definition r_u16 : reader Z := b ← r_take 2; mret (be_val b).
Definition r_u32 : reader Z := b ← r_take 4; mret (be_val b).
Definition r_u64 : reader Z := b ← r_take 8; mret (be_val b).
Definition r_i64 : reader Z := b ← r_take 8; mret (i64_val b).

Definition r_count (maximum : Z) (description : string) : reader Z :=
  count ← r_u32;
  reject_if (maximum <? count) 4 (description +:+ " count exceeds limit") ;;
  mret count.

(** The UTF-8 check reports the offset where the text starts. *)
Definition r_string : reader string :=
  length ← r_count MAX_IR_STRING_BYTES "string byte";
  text ← r_take length;
  reject_if (negb (utf8_valid text)) length "string is not UTF-8" ;;
  mret text.

Definition canonical_string_after (previous : option string) (description : string) :
    reader string :=
  value ← r_string;
  reject_if (match previous with Some q => str_geb q value | None => false end) 0
    (description +:+ " names are not in canonical order") ;;
  mret value.

Definition r_bool_marker (description : string) : reader bool :=
  b ← r_u8;
  if b =? 0 then mret false
  else if b =? 1 then mret true
  else reject 1 ("invalid " +:+ description +:+ " boolean marker").

Definition r_parameter_type : reader ParameterType :=
  b ← r_u8;
  if b =? 1 then mret TyBool
  else if b =? 2 then mret TyInteger
  else if b =? 3 then mret TyString
  else reject 1 "unknown parameter type opcode".

Definition r_parameter_value : reader ParameterValue :=
  b ← r_u8;
  if b =? 1 then v ← r_bool_marker "parameter"; mret (PBool v)
  else if b =? 2 then v ← r_i64; mret (PInteger v)
  else if b =? 3 then
    v ← r_string;
    reject_if (max_string_bytes default_limits <? slen v) 0
      "parameter string exceeds expression limit" ;;
    mret (PString v)
  else reject 1 "unknown parameter value opcode".

(** The three accumulators of [Reader::expression]. *)
Record expression_state := {
  es_nodes : Z;
  es_operations : Z;
  es_references : list string
}.

Definition binary_opcode (opcode : Z) : option (Expression -> Expression -> Expression) :=
  if opcode =? 4 then Some Equal
  else if opcode =? 5 then Some NotEqual
  else if opcode =? 6 then Some And
  else if opcode =? 7 then Some Or
  else if opcode =? 8 then Some Add
  else None.

(** [Reader::expression] at depth [max_depth + 1 - levels]: no level left is the
    test [depth > limits.max_depth]. *)
Fixpoint r_expression (levels : nat) (st : expression_state) :
    reader (Expression * expression_state) :=
  match levels with
  | O => reject 0 "expression depth exceeds limit"
  | S levels =>
      let st := {| es_nodes := sat_add (es_nodes st) 1; es_operations := es_operations st;
                   es_references := es_references st |} in
      reject_if (max_nodes default_limits <? es_nodes st) 0
        "expression node count exceeds limit" ;;
      let operated := {| es_nodes := es_nodes st;
                         es_operations := sat_add (es_operations st) 1;
                         es_references := es_references st |} in
      opcode ← r_u8;
      '(e, st) ←
        (if opcode =? 1 then v ← r_parameter_value; mret (Literal v, st)
         else if opcode =? 2 then
           n ← r_string;
           mret (EParameter n,
                 {| es_nodes := es_nodes st; es_operations := es_operations st;
                    es_references := n :: es_references st |})
         else if opcode =? 3 then
           '(a, st) ← r_expression levels operated;
           mret (Not a, st)
         else match binary_opcode opcode with
         | Some constructor =>
             '(l, st) ← r_expression levels operated;
             '(r, st) ← r_expression levels st;
             mret (constructor l r, st)
         | None => reject 1 "unknown expression opcode"
         end);
      reject_if (max_operations default_limits <? es_operations st) 0
        "expression operation count exceeds limit" ;;
      mret (e, st)
  end.

Definition expression_levels : nat := Z.to_nat (max_depth default_limits) + 1.

(** [for i in 0..count { body }] with the loop's state. *)
Fixpoint r_for {S} (index count : nat) (body : nat -> S -> reader S) (s : S) : reader S :=
  match count with
  | O => mret s
  | Datatypes.S count => s ← body index s; r_for (Datatypes.S index) count body s
  end.

Definition value_type (v : ParameterValue) : ParameterType :=
  match v with PBool _ => TyBool | PInteger _ => TyInteger | PString _ => TyString end.

Definition is_parameter_identifier (value : string) : bool :=
  negb (is_empty value) && all_bytes is_parameter_byte value.
Definition is_mapping_identifier (value : string) : bool :=
  negb (is_empty value) && all_bytes is_name_byte value.

(** Rejects at the offset where the text starts. *)
Definition r_sha256_reference (value : string) : reader () :=
  reject_if (negb (sha256_reference value)) (slen value) "invalid sha256 reference".

(** *** Parameters and expressions *)

Notation definitions_map := (gmap string (ParameterType * bool)).

Definition is_some {A} (o : option A) : bool := match o with Some _ => true | None => false end.

(** One parameter definition; the state is the previous name and the definitions. *)
Definition r_parameter (_ : nat) (st : option string * definitions_map) :
    reader (option string * definitions_map) :=
  let '(previous, definitions) := st in
  name ← canonical_string_after previous "parameter";
  reject_if (negb (is_parameter_identifier name)) (slen name) "invalid parameter identifier" ;;
  parameter_type ← r_parameter_type;
  secret ← r_bool_marker "secret";
  marker ← r_u8;
  default ← (if marker =? 0 then mret None
             else if marker =? 1 then v ← r_parameter_value; mret (Some v)
             else reject 1 "invalid parameter default marker");
  reject_if (secret && is_some default) 0 "secret parameter contains a persisted default" ;;
  reject_if (match default with
             | Some v => negb (bool_decide (value_type v = parameter_type))
             | None => false
             end) 0
    "parameter default type does not match its definition" ;;
  mret (Some name, <[name := (parameter_type, secret)]> definitions).

Definition r_value (definitions : definitions_map) (_ : nat)
    (st : option string * gmap string EvaluatedValue) :
    reader (option string * gmap string EvaluatedValue) :=
  let '(previous, context) := st in
  name ← canonical_string_after previous "parameter value";
  value ← r_parameter_value;
  match definitions !! name with
  | None => reject 0 "parameter value has no definition"
  | Some (parameter_type, secret) =>
      reject_if secret 0 "secret parameter value is persisted in canonical IR" ;;
      reject_if (negb (bool_decide (value_type value = parameter_type))) 0
        "parameter value type does not match its definition" ;;
      mret (Some name, <[name := Evaluated value false]> context)
  end.

(** Every public definition is bound. *)
Definition unbound_public (definitions : definitions_map)
    (context : gmap string EvaluatedValue) : bool :=
  existsb (fun d => negb (snd (snd d)) && negb (is_some (context !! fst d)))
    (map_to_list definitions).

Definition r_binding (definitions : definitions_map) (_ : nat)
    (st : option string * list (string * Expression)) :
    reader (option string * list (string * Expression)) :=
  let '(previous, bindings) := st in
  path ← canonical_string_after previous "expression path";
  '(expression, es) ← r_expression expression_levels (Build_expression_state 0 0 []);
  reject_if (existsb (fun r => negb (is_some (definitions !! r))) (es_references es)) 0
    "expression references an undefined parameter" ;;
  reject_if (existsb (fun r => match definitions !! r with
                               | Some (_, secret) => secret
                               | None => false
                               end) (es_references es)) 0
    "expression materializes a secret-tainted parameter" ;;
  mret (Some path, bindings ++ [(path, expression)]).

(** What the parameter section leaves: the two counts, the context, the bindings. *)
Definition r_parameter_section :
    reader (Z * Z * gmap string EvaluatedValue * list (string * Expression)) :=
  parameters ← r_count MAX_PARAMETERS "parameter";
  '(_, definitions) ← r_for 0 (Z.to_nat parameters) r_parameter (None, ∅);
  value_count ← r_count MAX_PARAMETERS "parameter value";
  '(_, context) ← r_for 0 (Z.to_nat value_count) (r_value definitions) (None, ∅);
  reject_if (unbound_public definitions context) 0
    "public parameter definition has no bound value" ;;
  expressions ← r_count MAX_EXPRESSION_BINDINGS "expression binding";
  '(_, bindings) ← r_for 0 (Z.to_nat expressions) (r_binding definitions) (None, []);
  mret (parameters, expressions, context, bindings).

(** *** Stages and steps *)

Notation fields_map := (gmap string string).

Definition r_image (minor_version : Z) : reader bool :=
  if 6 <=? minor_version then
    marker ← r_u8;
    if marker =? 0 then mret false
    else if marker =? 1 then
      image ← r_string;
      reject_if (negb (is_digest_pinned_image image)) (slen image)
        "stage image is not digest-pinned" ;;
      mret true
    else reject 1 "invalid stage image marker"
  else mret false.

Definition r_argument (base : string) (index : nat) (fields : fields_map) : reader fields_map :=
  value ← r_string;
  mret (<[arg_path base index := value]> fields).

Definition r_env (base : string) (_ : nat) (st : option string * fields_map) :
    reader (option string * fields_map) :=
  let '(previous, fields) := st in
  key ← canonical_string_after previous "environment";
  value ← r_string;
  mret (Some key, <[base +:+ ".env." +:+ key := value]> fields).

Definition r_process (minor_version : Z) (base : string) (fields : fields_map) :
    reader fields_map :=
  (if 2 <=? minor_version then
     mode ← r_u8;
     reject_if (negb (mode <=? 2)) 1 "invalid process mode"
   else mret tt) ;;
  program ← r_string;
  let fields := <[base +:+ ".program" := program]> fields in
  arguments ← r_count MAX_STEPS "argument";
  fields ← r_for 0 (Z.to_nat arguments) (r_argument base) fields;
  environment ← r_count MAX_STEPS "environment entry";
  '(_, fields) ← r_for 0 (Z.to_nat environment) (r_env base) (None, fields);
  marker ← r_u8;
  (if marker =? 0 then mret tt
   else if marker =? 1 then _ ← r_u64; mret tt
   else reject 1 "invalid timeout presence marker") ;;
  mret fields.

Definition r_checkout (path : string) (checkouts : Z) (fields : fields_map) :
    reader fields_map :=
  reject_if (0 <? checkouts) 0 "a stage may hold at most one checkout step" ;;
  mapping_id ← r_string;
  mapping_digest ← r_string;
  reference ← r_string;
  commit ← r_string;
  destination ← r_string;
  timeout_seconds ← r_u64;
  validated source_error_display
    (checkout_validate (Build_CheckoutStepSpec mapping_id mapping_digest reference commit
      destination timeout_seconds)) ;;
  mret (<[path := commit]> fields).

Definition r_input (stage_steps : Z) : reader () :=
  reject_if (negb (stage_steps =? 1)) 0 "input intent stage must contain exactly one step" ;;
  mapping_id ← r_string;
  mapping_digest ← r_string;
  timeout_seconds ← r_u64;
  validated input_error_display
    (input_intent_validate (Build_InputIntentSpec mapping_id mapping_digest timeout_seconds)).

Definition r_cache `{External} (stage_steps : Z) : reader () :=
  reject_if (negb (stage_steps =? 1)) 0 "cache intent stage must contain exactly one step" ;;
  mapping_id ← r_string;
  mapping_digest ← r_string;
  opcode ← r_u8;
  operation ← (if opcode =? 1 then mret CacheRead
               else if opcode =? 2 then mret CachePublish
               else reject 0 "invalid cache operation");
  logical_key_sha256 ← r_string;
  input_sha256 ← r_string;
  marker ← r_u8;
  content_base64 ← (if marker =? 0 then mret None
                    else if marker =? 1 then v ← r_string; mret (Some v)
                    else reject 0 "invalid cache content marker");
  timeout_seconds ← r_u64;
  validated cache_error_display
    (cache_intent_validate (Build_CacheIntentSpec mapping_id mapping_digest operation
      logical_key_sha256 input_sha256 content_base64 timeout_seconds)).

Definition r_schema_field (description : string) (strings_only : bool) (_ : nat)
    (previous : option string) : reader (option string) :=
  name ← canonical_string_after previous description;
  reject_if (negb (is_mapping_identifier name)) 0
    ("invalid " +:+ description +:+ " field name") ;;
  field_type ← r_u8;
  reject_if (negb ((1 <=? field_type) && (field_type <=? 6))
             || (strings_only && negb (field_type =? 6))) 1
    ("invalid " +:+ description +:+ " field type") ;;
  mret (Some name).

Definition r_schema (description : string) (strings_only : bool) : reader () :=
  fields ← r_count MAX_PARAMETERS description;
  _ ← r_for 0 (Z.to_nat fields) (r_schema_field description strings_only) None;
  mret tt.

Definition r_connector (stage_steps : Z) : reader () :=
  reject_if (negb (stage_steps =? 1)) 1 "connector intent stage must contain exactly one step" ;;
  mapping_id ← r_string;
  reject_if (negb (is_mapping_identifier mapping_id)) (slen mapping_id)
    "invalid connector mapping identifier" ;;
  mapping_digest ← r_string;
  r_sha256_reference mapping_digest ;;
  effect_class ← r_u8;
  reject_if (negb ((1 <=? effect_class) && (effect_class <=? 3))) 1
    "invalid connector effect class" ;;
  template ← r_string;
  reject_if (is_empty (trim template)) 0 "empty connector effect key template" ;;
  r_schema "public input" false ;;
  r_schema "protected secret reference" true ;;
  r_schema "public result" false ;;
  timeout ← r_u64;
  reject_if ((timeout =? 0) || (86400 <? timeout)) 8 "invalid connector timeout" ;;
  policy ← r_u8;
  reject_if (negb (policy =? 1)) 1 "invalid ambiguity policy" ;;
  downstream ← r_string;
  r_sha256_reference downstream.

(** One step; the state is the materialized fields and [checkouts_in_stage]. *)
Definition r_step `{External} (minor_version : Z) (container_stage : bool) (stage_index : nat)
    (stage_steps : Z) (step_index : nat) (st : fields_map * Z) : reader (fields_map * Z) :=
  let '(fields, checkouts) := st in
  kind ← r_u8;
  reject_if (container_stage && negb ((kind =? 1) || (kind =? 5))) 1
    "a container stage may hold process and checkout steps only" ;;
  if kind =? 1 then
    fields ← r_process minor_version (process_base stage_index step_index) fields;
    mret (fields, checkouts)
  else if (kind =? 5) && (7 <=? minor_version) then
    fields ← r_checkout (commit_path stage_index step_index) checkouts fields;
    mret (fields, checkouts + 1)
  else if (kind =? 4) && (5 <=? minor_version) then
    r_input stage_steps ;; mret (fields, checkouts)
  else if (kind =? 3) && (4 <=? minor_version) then
    r_cache stage_steps ;; mret (fields, checkouts)
  else if (kind =? 2) && (3 <=? minor_version) then
    r_connector stage_steps ;; mret (fields, checkouts)
  else reject 1 "unknown step opcode".

Definition r_pattern (_ : nat) (paths : list string) : reader (list string) :=
  p ← r_string; mret (paths ++ [p]).

Definition r_artifact (_ : nat) (specs : list ArtifactSpec) : reader (list ArtifactSpec) :=
  name ← r_string;
  patterns ← r_count MAX_ARTIFACT_PATTERNS "artifact path pattern";
  paths ← r_for 0 (Z.to_nat patterns) r_pattern [];
  mret (specs ++ [Build_ArtifactSpec name paths]).

Definition r_artifacts (minor_version : Z) : reader () :=
  if 8 <=? minor_version then
    declared ← r_count MAX_ARTIFACTS_PER_STAGE "artifact";
    specs ← r_for 0 (Z.to_nat declared) r_artifact [];
    validated artifact_error_display (validate_declarations specs)
  else mret tt.

(** One stage; the state is the total number of steps and the fields. *)
Definition r_stage `{External} (minor_version : Z) (stage_index : nat) (st : Z * fields_map) :
    reader (Z * fields_map) :=
  let '(steps, fields) := st in
  _ ← r_string;
  _ ← r_string;
  container_stage ← r_image minor_version;
  stage_steps ← r_count MAX_STEPS "step";
  steps ← (match checked_add_usize steps stage_steps with
           | Some count =>
               if count <=? MAX_STEPS then mret count
               else reject 0 "total step count exceeds limit"
           | None => reject 0 "total step count exceeds limit"
           end);
  '(fields, _) ← r_for 0 (Z.to_nat stage_steps)
    (r_step minor_version container_stage stage_index stage_steps) (fields, 0);
  r_artifacts minor_version ;;
  mret (steps, fields).

(** *** Notification targets *)

Definition r_target (index : nat) (st : list NotifyTarget * fields_map) :
    reader (list NotifyTarget * fields_map) :=
  let '(targets, fields) := st in
  opcode ← r_u8;
  if opcode =? 1 then
    mapping_id ← r_string;
    commit ← r_string;
    context ← r_string;
    marker ← r_u8;
    repository ← (if marker =? 0 then mret None
                  else if marker =? 1 then v ← r_string; mret (Some v)
                  else reject 1 "invalid notification repository marker");
    mret (targets ++ [GithubStatus mapping_id commit context repository],
          <[notify_path index := commit]> fields)
  else if opcode =? 2 then
    mapping_id ← r_string;
    mret (targets ++ [Webhook mapping_id], fields)
  else reject 1 "unknown notification target opcode".

Definition r_notify (minor_version : Z) (fields : fields_map) : reader fields_map :=
  if 9 <=? minor_version then
    declared ← r_count MAX_NOTIFY_TARGETS "notification target";
    '(targets, fields) ← r_for 0 (Z.to_nat declared) r_target ([], fields);
    validated notify_error_display (validate_targets targets) ;;
    mret fields
  else mret fields.

(** *** The whole document *)

Definition check_binding (context : gmap string EvaluatedValue) (fields : fields_map)
    (binding : string * Expression) : reader () :=
  let '(path, expression) := binding in
  match fields !! path with
  | None => reject 0 "expression path does not identify a materializable process field"
  | Some materialized =>
      match evaluate_expression expression context default_limits with
      | Err e => reject 0 (expression_error_display e)
      | Ok evaluated =>
          match ev_value evaluated with
          | PString value =>
              reject_if (negb (String.eqb value materialized)) 0
                "expression result does not match the materialized process field"
          | _ => reject 0 "expression binding must evaluate to a string"
          end
      end
  end.

Fixpoint r_each {A} (f : A -> reader ()) (l : list A) : reader () :=
  match l with
  | [] => mret tt
  | x :: l => f x ;; r_each f l
  end.

(** [if reader.offset != bytes.len()]. *)
Definition r_finish : reader () :=
  fun bytes offset =>
    if offset =? slen bytes then Ok (tt, offset)
    else Err (CanonErr offset "trailing bytes after canonical document").

Definition r_magic : reader () :=
  magic ← r_take (slen MAGIC);
  if String.eqb magic MAGIC then mret tt
  else (fun _ _ => Err (CanonErr 0 "invalid magic")).

(** The summary; its digest is of the whole input. *)
Definition r_summary `{External} (version : SchemaVersion) (pipeline_name : string)
    (parameters expressions stages steps : Z) : reader CanonicalSummary :=
  fun bytes offset =>
    Ok (Build_CanonicalSummary version pipeline_name parameters expressions stages steps
          (sha256 bytes), offset).

Definition r_document `{External} : reader CanonicalSummary :=
  r_magic ;;
  major_version ← r_u16;
  minor_version ← r_u16;
  reject_if (negb (major_version =? 1) || (9 <? minor_version)) 4
    "unsupported Pipeline IR schema" ;;
  pipeline_name ← r_string;
  '(parameters, expressions, context, bindings) ←
    (if 1 <=? minor_version then r_parameter_section else mret (0, 0, ∅, []));
  stages ← r_count MAX_STAGES "stage";
  '(steps, fields) ← r_for 0 (Z.to_nat stages) (r_stage minor_version) (0, ∅);
  fields ← r_notify minor_version fields;
  r_each (check_binding context fields) bindings ;;
  r_finish ;;
  r_summary (Schema major_version minor_version) pipeline_name parameters expressions stages steps.

Definition validate_canonical_bytes `{External} (bytes : string) :
    result CanonicalError CanonicalSummary :=
  '(summary, _) ← r_document bytes 0;
  Ok summary.
