(* ===== verification/CanonicalReads.v ===== *)
(** * Reading back what the writer wrote

    The relation between a reader of [Canonical.v] and the bytes it consumes,
    with one lemma per primitive, for counted loops and for expressions. *)

From stdpp Require Import base gmap list strings pretty.
From Stdlib Require Import Ascii ZArith Lia Sorted.
From S2P Require Import Prelude Text Bytes Expression ExpressionEval ExpressionParse.
From S2P Require Import Domain Artifacts PipelineIr Canonical.

Open Scope Z_scope.

(** [reads m bs a]: wherever [bs] stands in the input, [m] at its start yields
    [a] and stops at its end. *)
Definition reads {A} (m : reader A) (bs : string) (a : A) : Prop :=
  forall pre post, slen (pre +:+ bs +:+ post) <= usize_max ->
  m (pre +:+ bs +:+ post) (slen pre) = Ok (a, slen pre + slen bs).

(** ** Rust type invariants *)

Definition utf8 (s : string) : Prop := utf8_valid s = true.

Definition value_wf (v : ParameterValue) : Prop :=
  match v with PBool _ => True | PInteger z => in_i64 z = true | PString s => utf8 s end.

(** ** Reading what was written: combinators *)

Lemma reads_ret {A} (a : A) : reads (mret a) "" a.
Proof. intros pre post _. unfold mret, reader_ret. do 2 f_equal. unfold slen; simpl; lia. Qed.

Lemma reads_bind {A B} (m : reader A) (f : A -> reader B) bs1 bs2 a b :
  reads m bs1 a -> reads (f a) bs2 b -> reads (m ≫= f) (bs1 +:+ bs2) b.
Proof.
  intros Hm Hf pre post Hl. unfold mbind, reader_bind. rewrite sapp_assoc in *.
  rewrite (Hm pre (bs2 +:+ post)) by done. rewrite <- slen_app, <- sapp_assoc.
  rewrite (Hf (pre +:+ bs1) post) by (by rewrite sapp_assoc).
  rewrite !slen_app. do 2 f_equal. lia.
Qed.

Lemma reads_last {A B} (m : reader A) (f : A -> reader B) bs a b :
  reads m bs a -> reads (f a) "" b -> reads (m ≫= f) bs b.
Proof. intros Hm Hf. rewrite <- (sapp_nil_r bs). by eapply reads_bind. Qed.

Lemma reads_skip {A B} (m : reader A) (f : A -> reader B) bs a b :
  reads m "" a -> reads (f a) bs b -> reads (m ≫= f) bs b.
Proof. intros Hm Hf. exact (reads_bind m f "" bs a b Hm Hf). Qed.

(** A check that passes reads nothing. *)
Lemma reads_reject_if {B} b back msg (k : () -> reader B) bs r :
  b = false -> reads (k tt) bs r -> reads (reject_if b back msg ≫= k) bs r.
Proof. intros -> Hk. exact (reads_bind (mret tt) k "" bs tt r (reads_ret tt) Hk). Qed.

Lemma reads_reject_if_last b back msg : b = false -> reads (reject_if b back msg) "" tt.
Proof. intros ->. apply reads_ret. Qed.

Lemma reads_validated {E} (display : E -> string) r : r = Ok tt -> reads (validated display r) "" tt.
Proof. intros ->. apply reads_ret. Qed.

Lemma reads_take bs n : n = slen bs -> reads (r_take n) bs bs.
Proof.
  intros -> pre post Hl. unfold r_take, checked_add_usize. rewrite !slen_app in *.
  pose proof (slen_nonneg post). rewrite !(proj2 (Z.leb_le _ _)) by lia.
  unfold slen at 1 2. rewrite !Nat2Z.id, sdrop_app, stake_app. done.
Qed.

Lemma reads_be n v : 0 <= v < 256 ^ Z.of_nat n ->
  reads (b ← r_take (Z.of_nat n); mret (be_val b)) (be_bytes n v) v.
Proof.
  intros Hv. eapply reads_last; [apply reads_take; unfold slen; by rewrite be_bytes_length|].
  rewrite be_val_be_bytes by done. apply reads_ret.
Qed.

Lemma reads_u8 v : 0 <= v < 256 -> reads r_u8 (w_u8 v) v.
Proof. apply (reads_be 1). Qed.
Lemma reads_u16 v : 0 <= v < 65536 -> reads r_u16 (w_u16 v) v.
Proof. apply (reads_be 2). Qed.
Lemma reads_u32 v : 0 <= v < 2 ^ 32 -> reads r_u32 (w_u32 v) v.
Proof. apply (reads_be 4). Qed.
Lemma reads_u64 v : in_u64 v = true -> reads r_u64 (w_u64 v) v.
Proof. unfold in_u64, u64_max. intros; bool_prop. apply (reads_be 8). simpl. lia. Qed.

Lemma reads_i64 v : in_i64 v = true -> reads r_i64 (i64_bytes v) v.
Proof.
  intros Hv. eapply reads_last; [apply reads_take; unfold slen, i64_bytes; by rewrite be_bytes_length|].
  rewrite i64_val_bytes by done. apply reads_ret.
Qed.

Lemma reads_count maximum description v :
  0 <= v <= maximum -> maximum < 2 ^ 32 -> reads (r_count maximum description) (w_u32 v) v.
Proof.
  intros Hv Hm. eapply reads_last; [apply reads_u32; lia|].
  apply reads_reject_if; [apply Z.ltb_ge; lia|]. apply reads_ret.
Qed.

Definition short (s : string) : Prop := utf8 s /\ slen s <= MAX_IR_STRING_BYTES.

Lemma reads_string s : short s -> reads r_string (w_string s) s.
Proof.
  intros [Hu Hl]. unfold r_string, w_string. pose proof (slen_nonneg s).
  eapply reads_bind; [apply reads_count; [lia|done]|].
  eapply reads_last; [by apply reads_take|].
  apply reads_reject_if; [by rewrite Hu|]. apply reads_ret.
Qed.

(** [value] comes after [previous] in the canonical order. *)
Definition in_order (previous : option string) (value : string) : Prop :=
  match previous with Some q => str_lt q value | None => True end.

Lemma reads_string_after previous description s :
  short s -> in_order previous s -> reads (canonical_string_after previous description) (w_string s) s.
Proof.
  intros Hs Ho. unfold canonical_string_after. eapply reads_last; [by apply reads_string|].
  apply reads_reject_if; [|apply reads_ret].
  destruct previous as [q|]; [|done]. simpl in Ho. unfold str_geb. by rewrite Ho.
Qed.

(** A loop whose state after [k] elements is [states k]. *)
Lemma reads_for {S A} (enc : A -> string) (body : nat -> S -> reader S) (states : nat -> S) xs i :
  (forall k x, xs !! k = Some x -> reads (body (i + k)%nat (states k)) (enc x) (states (Datatypes.S k))) ->
  reads (r_for i (length xs) body (states 0%nat)) (enc_all enc xs) (states (length xs)).
Proof.
  revert i states. induction xs as [|x xs IH]; intros i states H; [apply reads_ret|].
  cbn [r_for length]. unfold enc_all. cbn [fmap list_fmap sconcat].
  eapply reads_bind.
  - specialize (H 0%nat x eq_refl). rewrite Nat.add_0_r in H. exact H.
  - apply (IH (Datatypes.S i) (fun k => states (Datatypes.S k))). intros k y Hy.
    specialize (H (Datatypes.S k) y Hy). by rewrite <- Nat.add_succ_comm in H.
Qed.

(** A counted loop, as the writer's [w_list] lays it out. *)
Lemma reads_list {S A B} (enc : A -> string) maximum description (body : nat -> S -> reader S)
    (states : nat -> S) xs s0 (k : Z -> S -> reader B) bs r :
  s0 = states 0%nat -> llen xs <= maximum -> maximum < 2 ^ 32 ->
  (forall k x, xs !! k = Some x -> reads (body k (states k)) (enc x) (states (Datatypes.S k))) ->
  reads (k (llen xs) (states (length xs))) bs r ->
  reads (count ← r_count maximum description;
         s ← r_for 0 (Z.to_nat count) body s0; k count s)
    (w_list enc xs +:+ bs) r.
Proof.
  intros -> Hl Hm Hb Hk. unfold w_list. rewrite sapp_assoc. pose proof (llen_nonneg xs).
  eapply reads_bind; [by apply reads_count|].
  eapply reads_bind; [|exact Hk]. unfold llen. rewrite Nat2Z.id. by apply reads_for.
Qed.

(** ** Text facts *)

Lemma ascii_utf8 s : all_bytes (fun c => byte_val c <? 128) s = true -> utf8 s.
Proof.
  unfold utf8. induction s as [|c s IH]; [done|]. cbn [all_bytes].
  intros [Hc Hs]%andb_true_iff. cbn [utf8_valid]. rewrite Hc. auto.
Qed.

Lemma byte_class_ascii (f : ascii -> bool) s :
  (forall c, f c = true -> byte_val c < 128) -> all_bytes f s = true -> utf8 s.
Proof.
  intros Hf Hs. apply ascii_utf8. eapply all_bytes_impl; [|exact Hs].
  intros c Hc. apply Z.ltb_lt. auto.
Qed.

Lemma alphanumeric_ascii c : is_ascii_alphanumeric c = true -> byte_val c < 128.
Proof.
  unfold is_ascii_alphanumeric, is_ascii_alphabetic, is_ascii_lowercase, is_ascii_uppercase,
    is_ascii_digit. rewrite !orb_true_iff, !in_range_true. lia.
Qed.

Lemma one_of_ascii l c :
  Forall (fun d => byte_val d < 128) l -> one_of l c = true -> byte_val c < 128.
Proof.
  intros Hl. unfold one_of. rewrite existsb_exists. intros (d & Hd & ->%Ascii.eqb_eq).
  rewrite Forall_forall in Hl. apply Hl. by apply list_elem_of_In.
Qed.

Lemma name_byte_ascii c : is_name_byte c = true -> byte_val c < 128.
Proof.
  unfold is_name_byte. rewrite orb_true_iff.
  intros [?|?]; [by apply alphanumeric_ascii|]. eapply one_of_ascii; [|done]. by repeat constructor.
Qed.

Lemma mapping_byte_ascii c : is_mapping_byte c = true -> byte_val c < 128.
Proof.
  unfold is_mapping_byte. rewrite orb_true_iff.
  intros [?|?]; [by apply alphanumeric_ascii|]. eapply one_of_ascii; [|done]. by repeat constructor.
Qed.

Lemma lower_hex_ascii c : is_lower_hex c = true -> byte_val c < 128.
Proof. unfold is_lower_hex, is_ascii_digit. rewrite orb_true_iff, !in_range_true. lia. Qed.

Lemma sha256_reference_short s : sha256_reference s = true -> short s.
Proof.
  unfold sha256_reference, canonical_sha256.
  destruct (strip_prefix "sha256:" s) as [hex|] eqn:E; [|done].
  apply strip_prefix_Some in E as ->. intros [Hl Hh]%andb_true_iff. apply Z.eqb_eq in Hl.
  split.
  - apply ascii_utf8. rewrite all_bytes_app. apply andb_true_iff. split; [done|].
    eapply all_bytes_impl; [|exact Hh]. intros c Hc. apply Z.ltb_lt. by apply lower_hex_ascii.
  - rewrite slen_app, Hl. done.
Qed.

Lemma canonical_sha256_short s : canonical_sha256 s = true -> short s.
Proof.
  unfold canonical_sha256. intros [Hl Hh]%andb_true_iff. apply Z.eqb_eq in Hl. split.
  - eapply byte_class_ascii; [|exact Hh]. apply lower_hex_ascii.
  - by rewrite Hl.
Qed.

Lemma canonical_mapping_id_short s : canonical_mapping_id s = true -> short s.
Proof.
  unfold canonical_mapping_id. intros H. bool_prop. split.
  - eapply byte_class_ascii; [|eassumption]. apply mapping_byte_ascii.
  - unfold MAX_IR_STRING_BYTES. lia.
Qed.

Lemma validate_identifier_ok path s :
  validate_identifier path s = Ok tt -> s <> "" /\ all_bytes is_name_byte s = true /\ utf8 s.
Proof.
  unfold validate_identifier. intros [Hn Hb]%check_ok%orb_false_iff. bool_prop.
  split_and!; [by intros ->|done|]. eapply byte_class_ascii; [|eassumption]. apply name_byte_ascii.
Qed.

Lemma validate_string_length_ok path s :
  validate_string_length path s = Ok tt -> slen s <= MAX_IR_STRING_BYTES.
Proof. unfold validate_string_length. by intros ?%check_ok%Z.ltb_ge. Qed.

Lemma validate_sha256_reference_ok path s :
  validate_sha256_reference path s = Ok tt -> sha256_reference s = true.
Proof.
  unfold validate_sha256_reference, sha256_reference, canonical_sha256.
  destruct (strip_prefix "sha256:" s); [|done]. intros [H1 H2]%check_ok%orb_false_iff.
  bool_prop. apply andb_true_iff. split; [by apply Z.eqb_eq|done].
Qed.

(** ** Values and expressions *)

Lemma reads_bool description b : reads (r_bool_marker description) (w_bool b) b.
Proof.
  unfold r_bool_marker, w_bool. eapply reads_last; [apply reads_u8; by destruct b|].
  destruct b; apply reads_ret.
Qed.

Lemma reads_parameter_type t : reads r_parameter_type (w_parameter_type t) t.
Proof.
  unfold r_parameter_type, w_parameter_type. eapply reads_last; [apply reads_u8; by destruct t|].
  destruct t; apply reads_ret.
Qed.

Definition value_fits (v : ParameterValue) : Prop :=
  match v with PString s => slen s <= max_string_bytes default_limits | _ => True end.

Lemma reads_parameter_value v :
  value_wf v -> value_fits v -> reads r_parameter_value (w_parameter_value v) v.
Proof.
  intros Hw Hf. unfold r_parameter_value. destruct v as [b|z|s]; cbn [w_parameter_value].
  - eapply reads_bind; [by apply reads_u8|]. simpl.
    eapply reads_last; [apply reads_bool|apply reads_ret].
  - eapply reads_bind; [by apply reads_u8|]. simpl.
    eapply reads_last; [by apply reads_i64|apply reads_ret].
  - eapply reads_bind; [by apply reads_u8|]. simpl in Hf |- *.
    eapply reads_last; [apply reads_string; split; [done|unfold MAX_IR_STRING_BYTES; lia]|].
    apply reads_reject_if; [by apply Z.ltb_ge|]. apply reads_ret.
Qed.

Lemma opcode_binary c :
  binary c -> exists z, 4 <= z <= 8 /\ binary_opcode z = Some c /\
    forall a b, w_expression (c a b) = w_u8 z +:+ w_expression a +:+ w_expression b.
Proof.
  destruct 1; [exists 4|exists 5|exists 6|exists 7|exists 8]; split_and!; (lia || done).
Qed.

Definition after_expression (e : Expression) (st : expression_state) : expression_state :=
  {| es_nodes := es_nodes st + node_count e;
     es_operations := es_operations st + op_count e;
     es_references := rev (refs e) ++ es_references st |}.

Definition expression_fits (e : Expression) (levels : nat) (st : expression_state) : Prop :=
  height e < Z.of_nat levels /\ 0 <= es_nodes st /\ 0 <= es_operations st /\
  es_nodes st + node_count e <= max_nodes default_limits /\
  es_operations st + op_count e <= max_operations default_limits.

(** The tail every node of [r_expression] shares. *)
Lemma reads_operations_checked (e : Expression) st :
  es_operations st <= max_operations default_limits ->
  reads (reject_if (max_operations default_limits <? es_operations st) 0
           "expression operation count exceeds limit" ;; mret (e, st)) "" (e, st).
Proof. intros H. apply reads_reject_if; [by apply Z.ltb_ge|]. apply reads_ret. Qed.

Lemma sat_add_default a : 0 <= a -> a + 1 <= 128 -> sat_add a 1 = a + 1.
Proof. intros. unfold sat_add, usize_max, u64_max. lia. Qed.

Definition operated (st : expression_state) : expression_state :=
  Build_expression_state (es_nodes st + 1) (es_operations st + 1) (es_references st).

Lemma after_not a st : after_expression a (operated st) = after_expression (Not a) st.
Proof. unfold after_expression, operated. simpl. f_equal; lia. Qed.

Lemma after_binary c a b st :
  binary c ->
  after_expression b (after_expression a (operated st)) = after_expression (c a b) st.
Proof.
  intros Hc. destruct (binary_measures c a b Hc) as (Eo & En & _ & Er).
  unfold after_expression, operated. simpl. rewrite Eo, En, Er, rev_app_distr, app_assoc.
  f_equal; lia.
Qed.

Lemma reads_expression e levels st :
  literals_wf e -> leaves_ok default_limits e -> Forall short (refs e) ->
  expression_fits e levels st ->
  reads (r_expression levels st) (w_expression e) (e, after_expression e st).
Proof.
  revert levels st.
  induction e as [v|n|a IH|c a b Hc IHa IHb] using expression_ind'; intros levels st Hw Hl Hr Hf.
  all: pose proof Hf as (Hh & Hn0 & Ho0 & Hn & Ho); simpl max_nodes in *; simpl max_operations in *.
  all: destruct levels as [|levels]; [exfalso; match type of Hh with
         height ?e < _ => pose proof (height_nonneg e); lia end|].
  all: cbn [r_expression].
  - simpl in Hn, Ho. rewrite sat_add_default by lia.
    apply reads_reject_if; [apply Z.ltb_ge; simpl; lia|]. cbn [w_expression].
    eapply reads_bind; [by apply reads_u8|]. simpl (_ =? _). cbv iota.
    eapply reads_last.
    { eapply reads_last; [apply reads_parameter_value|apply reads_ret]; by destruct v. }
    replace (after_expression (Literal v) st) with (Build_expression_state (es_nodes st + 1)
      (es_operations st) (es_references st)) by (unfold after_expression; simpl; f_equal; lia).
    apply reads_operations_checked. simpl. lia.
  - simpl in Hn, Ho. rewrite sat_add_default by lia.
    apply reads_reject_if; [apply Z.ltb_ge; simpl; lia|]. cbn [w_expression].
    eapply reads_bind; [by apply reads_u8|]. simpl (_ =? _). cbv iota.
    eapply reads_last.
    { eapply reads_last; [apply reads_string|apply reads_ret]. by apply Forall_cons in Hr as [? _]. }
    replace (after_expression (EParameter n) st) with (Build_expression_state (es_nodes st + 1)
      (es_operations st) (n :: es_references st)) by (unfold after_expression; simpl; f_equal; lia).
    apply reads_operations_checked. simpl. lia.
  - simpl in Hn, Ho, Hh. pose proof (node_count_pos a). pose proof (op_count_nonneg a).
    rewrite sat_add_default by lia.
    apply reads_reject_if; [apply Z.ltb_ge; simpl; lia|]. cbn [w_expression].
    eapply reads_bind; [by apply reads_u8|]. simpl (_ =? _). cbv iota. simpl es_operations.
    rewrite sat_add_default by lia. simpl es_nodes. simpl es_references.
    fold (operated st). eapply reads_last.
    { eapply reads_last; [apply IH; [done..|]|apply reads_ret].
      unfold expression_fits, operated. simpl. lia. }
    rewrite after_not. apply reads_operations_checked. simpl. lia.
  - destruct (opcode_binary c Hc) as (z & Hz & Hop & ->).
    destruct (binary_measures c a b Hc) as (Eo & En & Eh & Er).
    rewrite Eo, En, Eh, Er in *. apply Forall_app in Hr as [Hra Hrb].
    pose proof (node_count_pos a). pose proof (op_count_nonneg a).
    pose proof (node_count_pos b). pose proof (op_count_nonneg b).
    assert (literals_wf a /\ literals_wf b) as [? ?] by (by destruct Hc).
    assert (leaves_ok default_limits a /\ leaves_ok default_limits b) as [? ?] by (by destruct Hc).
    rewrite sat_add_default by lia.
    apply reads_reject_if; [apply Z.ltb_ge; simpl; lia|].
    eapply reads_bind; [apply reads_u8; lia|].
    rewrite !(proj2 (Z.eqb_neq z _)) by lia. rewrite Hop. simpl es_operations.
    rewrite sat_add_default by lia. simpl es_nodes. simpl es_references. fold (operated st).
    eapply reads_last.
    { eapply reads_bind; [apply IHa; [done..|unfold expression_fits, operated; simpl; lia]|].
      eapply reads_last; [apply IHb; [done..|]|apply reads_ret].
      unfold expression_fits, operated, after_expression; simpl; lia. }
    rewrite (after_binary c a b st Hc). apply reads_operations_checked.
    unfold after_expression. simpl. rewrite Eo. lia.
Qed.

(** ** Loop states *)

(** The name before position [k]: [previous] after [k] rounds. *)
Definition previous_at (names : list string) (k : nat) : option string := last (take k names).

Lemma previous_at_S names k x : names !! k = Some x -> previous_at names (S k) = Some x.
Proof. intros H. unfold previous_at. by rewrite (take_S_r _ _ _ H), last_snoc. Qed.

Lemma sorted_in_order names k x :
  Sorted str_lt names -> names !! k = Some x -> in_order (previous_at names k) x.
Proof.
  intros Hs Hx. unfold previous_at, in_order. destruct (last (take k names)) as [q|] eqn:E; [|done].
  rewrite last_lookup, length_take in E. apply lookup_lt_Some in Hx as Hk.
  rewrite Nat.min_l in E by lia. destruct k as [|k]; [done|]. simpl in E.
  rewrite lookup_take_lt in E by lia.
  clear Hk. revert k q x E Hx. induction Hs as [|a l Hs IH Hhd]; intros k q x E Hx; [done|].
  destruct k as [|k]; [|by apply (IH k q x)]. simplify_eq/=. destruct l; [done|].
  simplify_eq/=. by inversion Hhd.
Qed.

(** A finite map filled entry by entry. *)
Definition build_map {V W} (f : V -> W) (l : list (string * V)) : gmap string W :=
  foldl (fun m e => <[fst e := f (snd e)]> m) ∅ l.

Lemma build_map_snoc {V W} (f : V -> W) l x :
  build_map f (l ++ [x]) = <[fst x := f (snd x)]> (build_map f l).
Proof. unfold build_map. by rewrite foldl_app. Qed.

Lemma build_map_take_S {V W} (f : V -> W) l k x :
  l !! k = Some x ->
  build_map f (take (S k) l) = <[fst x := f (snd x)]> (build_map f (take k l)).
Proof. intros H. by rewrite (take_S_r _ _ _ H), build_map_snoc. Qed.

Lemma bget_snoc {V} k (l : bmap V) x :
  fst x ∉ l.*1 -> bget k (l ++ [x]) = if String.eqb (fst x) k then Some (snd x) else bget k l.
Proof.
  destruct x as [kx vx]. simpl. induction l as [|[a b] l IH]; simpl; intros Hn; [done|].
  rewrite IH by set_solver. destruct (String.eqb_spec a k) as [->|]; [|done].
  rewrite (proj2 (String.eqb_neq _ _)); [done|]. intros ->. set_solver.
Qed.

Lemma build_map_lookup {V W} (f : V -> W) (l : bmap V) k :
  NoDup l.*1 -> build_map f l !! k = f <$> bget k l.
Proof.
  induction l as [|x l IH] using rev_ind; intros Hn; [done|].
  rewrite fmap_app in Hn. apply NoDup_app in Hn as (Hl & Hd & _).
  rewrite build_map_snoc, bget_snoc by (intros Hx; apply (Hd _ Hx); left).
  destruct (String.eqb_spec (fst x) k) as [<-|Hne].
  - by rewrite lookup_insert_eq.
  - rewrite lookup_insert_ne by done. by apply IH.
Qed.

Lemma public_context_lookup values k :
  public_context values !! k = (fun v => Evaluated v false) <$> bget k values.
Proof.
  unfold public_context. induction values as [|[a v] l IH]; [done|].
  rewrite fmap_cons. simpl list_to_map. destruct (String.eqb_spec a k) as [->|]; simpl.
  - by rewrite String.eqb_refl, lookup_insert_eq.
  - rewrite lookup_insert_ne by done. rewrite (proj2 (String.eqb_neq _ _)) by done. exact IH.
Qed.
