(* ===== verification/CanonicalParameters.v ===== *)
(** * Canonical bytes of a valid pipeline are accepted

    The independent validator of [Canonical.v] accepts the bytes the writer
    produces for every pipeline [validate_pipeline] accepts, and reports its
    schema, name and counts; two valid pipelines with the same bytes are the
    same up to provenance and source spans; and no accepted document is a
    proper prefix of another. *)

From stdpp Require Import base gmap list strings pretty.
From Stdlib Require Import Ascii ZArith Lia Sorted.
From S2P Require Import Prelude Text Bytes Expression ExpressionEval ExpressionParse.
From S2P Require Import Domain Artifacts PipelineIr Canonical CanonicalReads.

Open Scope Z_scope.

(** ** Rust type invariants *)

Definition definition_wf (d : ParameterDefinition) : Prop :=
  match pd_default d with Some v => value_wf v | None => True end.

Definition option_wf {A} (P : A -> Prop) (o : option A) : Prop :=
  match o with Some x => P x | None => True end.

Definition step_wf (s : Step) : Prop :=
  match s with
  | Process p =>
      Forall utf8 (ps_program p :: ps_args p ++ (ps_env p).*1 ++ (ps_env p).*2) /\
      bmap_wf (ps_env p) /\ option_wf (fun t => in_u64 t = true) (ps_timeout_seconds p)
  | ConnectorIntent i =>
      Forall utf8 [cn_effect_key_template i] /\
      bmap_wf (cn_public_input_schema i) /\ bmap_wf (cn_protected_secret_ref_schema i) /\
      bmap_wf (cn_expected_public_result_schema i) /\ in_u64 (cn_timeout_seconds i) = true
  | CacheIntent c =>
      option_wf utf8 (ci_content_base64 (cs_intent c)) /\
      in_u64 (ci_timeout_seconds (cs_intent c)) = true
  | InputIntent i => in_u64 (ii_timeout_seconds (is_intent i)) = true
  | Checkout c =>
      utf8 (co_reference (ck_spec c)) /\ in_u64 (co_timeout_seconds (ck_spec c)) = true
  end.

Definition stage_wf (s : Stage) : Prop :=
  utf8 (stage_name s) /\ option_wf utf8 (stage_image s) /\ Forall step_wf (stage_steps s) /\
  Forall (fun a => Forall utf8 (as_paths a)) (stage_artifacts s).

(** Strings are UTF-8, integers have their width, ordered maps are ordered. *)
Record pipeline_wf (p : PipelineIr) : Prop := {
  wf_parameters : bmap_wf (parameters p) /\ Forall (fun d => definition_wf d.2) (parameters p);
  wf_values : bmap_wf (parameter_values p) /\ Forall (fun v => value_wf v.2) (parameter_values p);
  wf_expressions : Forall (fun b => utf8 (eb_path b) /\ literals_wf (eb_expression b)) (expressions p);
  wf_stages : Forall stage_wf (stages p)
}.

(** The ids of connector mappings are the one length the validator of the object
    form leaves open. *)
Definition mapping_within (n : Z) (s : Step) : Prop :=
  match s with ConnectorIntent i => slen (cn_mapping_id i) <= n | _ => True end.

Definition mapping_ids_within (n : Z) (p : PipelineIr) : Prop :=
  Forall (fun s => Forall (mapping_within n) (stage_steps s)) (stages p).

(** The largest length of a string that the encoder writes in 32 bits. *)
Definition MAX_WRITTEN_BYTES : Z := 2 ^ 32 - 1.

Lemma short_mapping_written s :
  mapping_within MAX_IR_STRING_BYTES s -> mapping_within MAX_WRITTEN_BYTES s.
Proof. destruct s; simpl; unfold MAX_IR_STRING_BYTES, MAX_WRITTEN_BYTES; lia || done. Qed.

(** The number of steps of a list of stages. *)
Definition step_total (l : list Stage) : Z := foldr (fun s n => llen (stage_steps s) + n) 0 l.

(** The summary a valid pipeline's bytes get. *)
Definition expected_summary `{External} (p : PipelineIr) : CanonicalSummary :=
  Build_CanonicalSummary (schema p) (name p) (llen (parameters p)) (llen (expressions p))
    (llen (stages p)) (step_total (stages p))
    (sha256 (encode_pipeline p)).

(** ** What validation says of parameters and bindings *)

Record parameter_ok (values : bmap ParameterValue) (name : string) (d : ParameterDefinition) : Prop := {
  po_short : short name;
  po_identifier : is_parameter_identifier name = true;
  po_default : match pd_default d with
    | Some v => pd_secret d = false /\ value_type v = pd_type d /\ value_fits v
    | None => True
    end;
  po_value : match bget name values with
    | Some v => pd_secret d = false /\ value_type v = pd_type d /\ value_fits v
    | None => pd_secret d = true
    end
}.

Lemma accepts_type t v : accepts t v = true <-> value_type v = t.
Proof. destruct t, v; naive_solver. Qed.

Lemma value_length_ok path v : validate_parameter_value_length path v = Ok tt -> value_fits v.
Proof. destruct v; simpl; [done..|]. by intros ?%check_ok%Z.ltb_ge. Qed.

Lemma parameter_byte_of_name c :
  is_name_byte c = true -> negb (Ascii.eqb "." c) = true -> is_parameter_byte c = true.
Proof.
  unfold is_name_byte, is_parameter_byte, one_of. cbn [existsb].
  destruct (is_ascii_alphanumeric c); [done|].
  rewrite (Ascii.eqb_sym "." c). destruct (Ascii.eqb c "."); [done|]. by rewrite orb_false_l.
Qed.

Lemma parameter_identifier name :
  name <> "" -> all_bytes is_name_byte name = true -> contains_char "." name = false ->
  is_parameter_identifier name = true.
Proof.
  intros Hne Hb Hd. unfold is_parameter_identifier. apply andb_true_iff. split; [by destruct name|].
  unfold contains_char, any_bytes in Hd. apply negb_false_iff in Hd. clear Hne.
  induction name as [|c s IH]; [done|]. cbn [all_bytes] in *.
  apply andb_true_iff in Hb as [Hc Hb], Hd as [Hdc Hd].
  by rewrite IH, parameter_byte_of_name.
Qed.

Lemma validate_parameter_ok values name d :
  validate_parameter values (name, d) = Ok tt -> parameter_ok values name d.
Proof.
  unfold validate_parameter. intros H.
  apply bind_ok in H as ([] & Hl%validate_string_length_ok & H).
  apply bind_ok in H as ([] & (Hne & Hb & Hu)%validate_identifier_ok & H).
  apply bind_ok in H as ([] & Hd%check_ok & H).
  apply bind_ok in H as ([] & Hs%check_ok & H).
  apply bind_ok in H as ([] & Ht%check_ok & H).
  apply bind_ok in H as ([] & Hv & H).
  split; [done|by apply parameter_identifier| |].
  - destruct (pd_default d) as [v|]; [|done]. apply negb_false_iff, accepts_type in Ht.
    apply value_length_ok in Hv. by destruct (pd_secret d).
  - destruct (pd_secret d).
    + apply check_ok in H. unfold bcontains in H. by destruct (bget name values).
    + apply bind_ok in H as (v & Hg & H). destruct (bget name values); [|done].
      injection Hg as ->. apply bind_ok in H as ([] & Ha%check_ok & H%value_length_ok).
      by apply negb_false_iff, accepts_type in Ha.
Qed.

Record binding_ok (definitions : bmap ParameterDefinition) (context : gmap string EvaluatedValue)
    (fields : gmap string string) (previous : option string) (b : ExpressionBinding) : Prop := {
  bo_length : slen (eb_path b) <= MAX_IR_STRING_BYTES;
  bo_order : in_order previous (eb_path b);
  bo_valid : validate_expression (eb_expression b) default_limits = Ok tt;
  bo_refs : Forall (fun r => exists d, bget r definitions = Some d /\ pd_secret d = false)
              (refs (eb_expression b));
  bo_value : exists value secret,
    fields !! eb_path b = Some value /\
    evaluate_expression (eb_expression b) context default_limits
    = Ok (Evaluated (PString value) secret)
}.

Lemma validate_expression_parameters_ok e definitions path :
  validate_expression_parameters e definitions path = Ok tt ->
  Forall (fun r => exists d, bget r definitions = Some d /\ pd_secret d = false) (refs e).
Proof.
  induction e as [v|n|a IH|l IHl r IHr|l IHl r IHr|l IHl r IHr|l IHl r IHr|l IHl r IHr];
    simpl; try (intros ([] & ?%IHl & ?%IHr)%bind_ok; by apply Forall_app).
  - done.
  - destruct (bget n definitions) as [d|] eqn:E; [|done]. intros ?%check_ok. constructor; eauto.
  - exact IH.
Qed.

Lemma validate_binding_ok definitions context fields index previous b :
  validate_binding definitions context fields index previous b = Ok tt ->
  binding_ok definitions context fields previous b.
Proof.
  unfold validate_binding. intros H.
  apply bind_ok in H as ([] & Hl%validate_string_length_ok & H).
  apply bind_ok in H as ([] & _ & H).
  apply bind_ok in H as ([] & Ho%check_ok & H).
  apply bind_ok in H as ([] & Hv%map_err_ok & H).
  apply bind_ok in H as ([] & Hp%validate_expression_parameters_ok & H).
  apply bind_ok in H as (m & Hm & H).
  apply bind_ok in H as ([v s] & He%map_err_ok & H).
  split; [done| |done|done|].
  - destruct previous as [q|]; [|done]. simpl. unfold str_geb in Ho. by apply negb_false_iff in Ho.
  - destruct (fields !! eb_path b); simplify_eq/=. destruct v as [| |t]; try done.
    apply check_ok, negb_false_iff, String.eqb_eq in H as ->. eauto.
Qed.

Lemma validate_bindings_ok definitions context fields index previous bs :
  validate_bindings definitions context fields index previous bs = Ok tt ->
  forall k b, bs !! k = Some b ->
  binding_ok definitions context fields
    (match k with O => previous | S j => eb_path <$> bs !! j end) b.
Proof.
  revert index previous. induction bs as [|b bs IH]; intros index previous H k b'; [done|].
  simpl in H. apply bind_ok in H as ([] & Hb%validate_binding_ok & H).
  destruct k as [|k]; [by intros [= <-]|]. intros Hk. specialize (IH _ _ H k b' Hk).
  by destruct k.
Qed.

(** ** The parameter section *)

(** What the reader keeps of a definition. *)
Definition shape (d : ParameterDefinition) : ParameterType * bool := (pd_type d, pd_secret d).

Lemma lookup_keys {V} (m : list (string * V)) k x : m !! k = Some x -> m.*1 !! k = Some x.1.
Proof. intros H. by rewrite list_lookup_fmap, H. Qed.

Lemma reads_option_value {A} (r : reader A) (w : A -> string) back msg (o : option A) :
  option_wf (fun v => reads r (w v) v) o ->
  reads (marker ← r_u8; (if marker =? 0 then mret None
         else if marker =? 1 then v ← r; mret (Some v)
         else reject back msg)) (w_option w o) o.
Proof.
  destruct o as [v|]; cbn [w_option]; intros H.
  - eapply reads_bind; [by apply reads_u8|]. simpl. eapply reads_last; [exact H|apply reads_ret].
  - eapply reads_last; [by apply reads_u8|]. apply reads_ret.
Qed.

Lemma reader_bind_assoc {A B C} (m : reader A) (f : A -> reader B) (g : B -> reader C) bytes offset :
  (m ≫= fun a => f a ≫= g) bytes offset = ((m ≫= f) ≫= g) bytes offset.
Proof. unfold mbind, reader_bind. by destruct (m bytes offset) as [[a o]|]. Qed.

Lemma reads_assoc {A B C} (m : reader A) (f : A -> reader B) (g : B -> reader C) bs r :
  reads ((m ≫= f) ≫= g) bs r -> reads (m ≫= fun a => f a ≫= g) bs r.
Proof. intros H pre post Hl. rewrite reader_bind_assoc. by apply H. Qed.

Lemma reads_parameter ps values k x :
  bmap_wf ps -> ps !! k = Some x -> parameter_ok values x.1 x.2 -> definition_wf x.2 ->
  reads (r_parameter k (previous_at ps.*1 k, build_map shape (take k ps))) (w_parameter x)
    (previous_at ps.*1 (S k), build_map shape (take (S k) ps)).
Proof.
  intros Hs Hk [Hn Hi Hd _] Hw. pose proof (lookup_keys _ _ _ Hk) as Hkey.
  rewrite (previous_at_S _ _ _ Hkey), (build_map_take_S _ _ _ _ Hk).
  destruct x as [n d]. cbn [fst snd w_parameter] in *. unfold r_parameter.
  eapply reads_bind; [apply reads_string_after; [done|by eapply sorted_in_order]|].
  apply reads_reject_if; [by rewrite Hi|].
  eapply reads_bind; [apply reads_parameter_type|].
  eapply reads_bind; [apply reads_bool|].
  apply reads_assoc. eapply reads_last.
  { apply reads_option_value. unfold definition_wf in Hw. destruct (pd_default d); [|done].
    by apply reads_parameter_value; apply Hd || exact Hw. }
  apply reads_reject_if.
  { destruct (pd_default d); [|apply andb_false_r]. destruct Hd as (-> & _). done. }
  apply reads_reject_if; [|apply reads_ret].
  destruct (pd_default d); [|done]. destruct Hd as (_ & Ht & _).
  by rewrite bool_decide_eq_true_2.
Qed.

Lemma reads_value ps values k x :
  bmap_wf ps -> bmap_wf values -> values !! k = Some x -> value_wf x.2 ->
  (exists d, bget x.1 ps = Some d /\ pd_secret d = false /\ value_type x.2 = pd_type d) ->
  short x.1 -> value_fits x.2 ->
  reads (r_value (build_map shape ps) k
           (previous_at values.*1 k, build_map (fun v => Evaluated v false) (take k values)))
    (w_parameter_binding x)
    (previous_at values.*1 (S k), build_map (fun v => Evaluated v false) (take (S k) values)).
Proof.
  intros Hps Hvs Hk Hw (d & Hd & Hsec & Ht) Hn Hf. pose proof (lookup_keys _ _ _ Hk) as Hkey.
  rewrite (previous_at_S _ _ _ Hkey), (build_map_take_S _ _ _ _ Hk).
  unfold r_value, w_parameter_binding.
  eapply reads_bind; [apply reads_string_after; [done|by eapply sorted_in_order]|].
  eapply reads_last; [by apply reads_parameter_value|].
  rewrite build_map_lookup, Hd by (by apply bmap_wf_nodup). cbn [fmap option_fmap option_map shape].
  apply reads_reject_if; [done|].
  apply reads_reject_if; [by rewrite bool_decide_eq_true_2|]. apply reads_ret.
Qed.

Lemma default_below_usize : 128 < usize_max.
Proof. done. Qed.

(** What validation gives of an expression is what the reader's limits ask. *)
Lemma reads_valid_expression e :
  literals_wf e -> validate_expression e default_limits = Ok tt -> Forall short (refs e) ->
  reads (r_expression expression_levels (Build_expression_state 0 0 [])) (w_expression e)
    (e, Build_expression_state (node_count e) (op_count e) (rev (refs e))).
Proof.
  intros Hw (st & Hv)%validate_walk Hr.
  apply walk_ok in Hv as (-> & Hd & Ho & Hn & Hl); [|pose proof usize_max_pos; lia..].
  assert (Build_expression_state (node_count e) (op_count e) (rev (refs e))
          = after_expression e (Build_expression_state 0 0 [])) as ->
    by (unfold after_expression; simpl; by rewrite app_nil_r).
  apply reads_expression; [done..|].
  unfold expression_fits, expression_levels. simpl in *. pose proof default_below_usize.
  split_and!; lia.
Qed.

Lemma previous_at_pred names k :
  (k <= length names)%nat ->
  previous_at names k = match k with O => None | S j => names !! j end.
Proof.
  intros Hk. unfold previous_at. destruct k as [|k]; [done|].
  rewrite last_lookup, length_take, Nat.min_l by done. simpl. by rewrite lookup_take_lt by lia.
Qed.

Record parameters_ok (p : PipelineIr) : Prop := {
  pk_count : llen (parameters p) <= MAX_PARAMETERS;
  pk_definitions : forall n d, (n, d) ∈ parameters p -> parameter_ok (parameter_values p) n d;
  pk_values : forall n v, (n, v) ∈ parameter_values p ->
    exists d, bget n (parameters p) = Some d /\ pd_secret d = false /\ value_type v = pd_type d /\
      short n /\ value_fits v;
  pk_binding_count : llen (expressions p) <= MAX_EXPRESSION_BINDINGS;
  pk_bindings : forall k b, expressions p !! k = Some b ->
    binding_ok (parameters p) (public_context (parameter_values p))
      (expression_materialized_fields p) (previous_at (eb_path <$> expressions p) k) b
}.

Lemma validate_parameters_ok p :
  pipeline_wf p -> validate_parameters_and_expressions p = Ok tt -> parameters_ok p.
Proof.
  intros [[Hps _] [Hvs _] _ _] H. unfold validate_parameters_and_expressions in H.
  apply bind_ok in H as ([] & Hc%check_ok%Z.ltb_ge & H).
  apply bind_ok in H as ([] & Hd & H). rewrite try_for_ok in Hd.
  apply bind_ok in H as ([] & Hf & H).
  apply bind_ok in H as ([] & Hb%check_ok%Z.ltb_ge & H).
  assert (forall n d, (n, d) ∈ parameters p -> parameter_ok (parameter_values p) n d) as Hdef.
  { intros n d Hin. apply validate_parameter_ok. rewrite Forall_forall in Hd. by apply Hd. }
  split; [done|done| |done|].
  - intros n v Hin.
    destruct (find _ _) as [[]|] eqn:E; [done|].
    pose proof (find_none _ _ E (n, v) ltac:(by apply list_elem_of_In)) as Hn. simpl in Hn.
    unfold bcontains in Hn. destruct (bget n (parameters p)) as [d|] eqn:Ed; [|done].
    exists d. split; [done|]. destruct (Hdef n d (bget_elem _ _ _ Ed)) as [Hs _ _ Hv].
    apply (bget_wf _ _ _ Hvs) in Hin. rewrite Hin in Hv. naive_solver.
  - intros k b Hk. pose proof (validate_bindings_ok _ _ _ _ _ _ H k b Hk) as Hok.
    rewrite previous_at_pred by (rewrite length_fmap; apply lookup_lt_Some in Hk; lia).
    destruct k; [done|]. by rewrite list_lookup_fmap.
Qed.

Lemma values_count p :
  pipeline_wf p -> parameters_ok p -> llen (parameter_values p) <= MAX_PARAMETERS.
Proof.
  intros [[Hps _] [Hvs _] _ _] [Hc _ Hv _ _]. etransitivity; [|exact Hc].
  unfold llen. rewrite <- (length_fmap fst (parameter_values p)), <- (length_fmap fst (parameters p)).
  apply inj_le, submseteq_length, NoDup_submseteq; [by apply bmap_wf_nodup|].
  intros n ([n' v] & -> & Hin)%list_elem_of_fmap. destruct (Hv _ _ Hin) as (d & Hd & _).
  apply bget_elem in Hd. apply list_elem_of_fmap. by exists (n', d).
Qed.

(** The reader's binding list after [k] bindings. *)
Definition bound (b : ExpressionBinding) : string * Expression := (eb_path b, eb_expression b).

Lemma reads_binding p k b :
  pipeline_wf p -> parameters_ok p -> expressions p !! k = Some b ->
  reads (r_binding (build_map shape (parameters p)) k
           (previous_at (eb_path <$> expressions p) k, bound <$> take k (expressions p)))
    (w_expression_binding b)
    (previous_at (eb_path <$> expressions p) (S k), bound <$> take (S k) (expressions p)).
Proof.
  intros [[Hps _] _ He _] [_ Hd _ _ Hb] Hk. destruct (Hb k b Hk) as [Hl Ho Hv Hr _].
  pose proof (proj1 (Forall_lookup _ _) He k b Hk) as [Hu Hw].
  rewrite (previous_at_S _ k (eb_path b)) by (by rewrite list_lookup_fmap, Hk).
  rewrite (take_S_r _ _ _ Hk), fmap_app. unfold r_binding, w_expression_binding.
  assert (forall r, r ∈ rev (refs (eb_expression b)) ->
    exists t, build_map shape (parameters p) !! r = Some (t, false)) as Hrefs.
  { intros r Hin. rewrite list_elem_of_In, <- in_rev, <- list_elem_of_In in Hin.
    rewrite Forall_forall in Hr. destruct (Hr r Hin) as (d & Hg & Hsec). exists (pd_type d).
    rewrite build_map_lookup, Hg by (by apply bmap_wf_nodup). simpl. unfold shape. by rewrite Hsec. }
  eapply reads_bind; [by apply reads_string_after|].
  eapply reads_last.
  { apply reads_valid_expression; [done..|]. eapply Forall_impl; [exact Hr|].
    intros r (d & Hg & _). apply (Hd r d). by apply bget_elem. }
  apply reads_reject_if.
  { apply existsb_none. intros r Hin. by destruct (Hrefs r Hin) as (t & ->). }
  apply reads_reject_if; [|apply reads_ret].
  apply existsb_none. intros r Hin. by destruct (Hrefs r Hin) as (t & ->).
Qed.

Lemma build_map_public values :
  bmap_wf values -> build_map (fun v => Evaluated v false) values = public_context values.
Proof.
  intros Hw. apply map_eq. intros k.
  by rewrite public_context_lookup, build_map_lookup by (by apply bmap_wf_nodup).
Qed.

Lemma unbound_public_none p :
  pipeline_wf p -> parameters_ok p ->
  unbound_public (build_map shape (parameters p)) (public_context (parameter_values p)) = false.
Proof.
  intros [[Hps _] _ _ _] [_ Hd _ _ _]. apply existsb_none. intros [n [t s]] Hin.
  apply elem_of_map_to_list in Hin. rewrite build_map_lookup in Hin by (by apply bmap_wf_nodup).
  apply fmap_Some in Hin as (d & Hg & Hs). unfold shape in Hs. simplify_eq/=.
  destruct (Hd n d (bget_elem _ _ _ Hg)) as [_ _ _ Hv]. rewrite public_context_lookup.
  by destruct (bget n (parameter_values p)), (pd_secret d).
Qed.

Lemma reads_parameter_section p :
  pipeline_wf p -> parameters_ok p ->
  reads r_parameter_section (w_parameter_section p)
    (llen (parameters p), llen (expressions p), public_context (parameter_values p),
     bound <$> expressions p).
Proof.
  intros Hw Hp. pose proof Hw as [[Hps Hpd] [Hvs Hvw] He _].
  pose proof Hp as [Hc Hd Hv Hbc _]. unfold r_parameter_section, w_parameter_section.
  eapply (reads_list w_parameter _ _ _
    (fun k => (previous_at (parameters p).*1 k, build_map shape (take k (parameters p)))));
    [done..| |].
  { intros k x Hk. apply (reads_parameter _ (parameter_values p)); [done|done| |].
    - destruct x. apply Hd. by eapply list_elem_of_lookup_2.
    - by eapply (proj1 (Forall_lookup _ _) Hpd). }
  rewrite take_ge by done.
  eapply (reads_list w_parameter_binding _ _ _ (fun k => (previous_at (parameter_values p).*1 k,
    build_map (fun v => Evaluated v false) (take k (parameter_values p)))));
    [done|by apply values_count|done| |].
  { intros k [n v] Hk. destruct (Hv n v) as (d & ? & ? & ? & ? & ?);
      [by eapply list_elem_of_lookup_2|].
    apply reads_value; try done; [by eapply (proj1 (Forall_lookup _ _) Hvw _ _ Hk)|eauto]. }
  rewrite take_ge by done. rewrite build_map_public by done.
  apply reads_reject_if; [by apply unbound_public_none|].
  rewrite <- (sapp_nil_r (w_list w_expression_binding _)).
  eapply (reads_list w_expression_binding _ _ _ (fun k =>
    (previous_at (eb_path <$> expressions p) k, bound <$> take k (expressions p))));
    [done..| |].
  { intros k b Hk. by apply reads_binding. }
  rewrite take_ge by done. apply reads_ret.
Qed.
