(* ===== verification/Instantiate.v ===== *)
(** * Re-instantiating a pipeline

    [instantiate_pipeline] moves a template to other inputs.  Its loops take
    each value out of the map of resolved bindings as they place it; here they
    are shown to compute a plain substitution at the paths of the fields, which
    are pairwise distinct, so that nothing is ever left over. *)

From stdpp Require Import base gmap list strings pretty.
From Stdlib Require Import Ascii ZArith Lia Sorted.
From S2P Require Import Prelude Text Bytes Expression ExpressionEval Domain Artifacts.
From S2P Require Import StrictYaml PipelineIr Compiler Canonical CanonicalReads.
From S2P Require Import CanonicalParameters.

Open Scope Z_scope.

(** ** Substitution *)

(** The value a map of paths gives a field. *)
Definition value_at (values : bmap string) (path field : string) : string :=
  default field (bget path values).

Definition sub_process (values : bmap string) (base : string) (p : ProcessStep) : ProcessStep :=
  Build_ProcessStep (ps_mode p) (value_at values (base +:+ ".program") (ps_program p))
    (imap (fun i a => value_at values (arg_path base i) a) (ps_args p))
    ((fun kv => (fst kv, value_at values (base +:+ ".env." +:+ fst kv) (snd kv))) <$> ps_env p)
    (ps_timeout_seconds p) (ps_source_span p).

Definition sub_step (values : bmap string) (stage_index step_index : nat) (s : Step) : Step :=
  match s with
  | Process p => Process (sub_process values (process_base stage_index step_index) p)
  | Checkout c =>
      Checkout (Build_CheckoutStep (set_commit (ck_spec c)
        (value_at values (commit_path stage_index step_index) (co_commit (ck_spec c))))
        (ck_source_span c))
  | _ => s
  end.

Definition sub_stage (values : bmap string) (stage_index : nat) (s : Stage) : Stage :=
  Build_Stage (stage_id s) (stage_name s) (stage_image s)
    (imap (sub_step values stage_index) (stage_steps s)) (stage_artifacts s) (stage_source_span s).

Definition sub_target (values : bmap string) (index : nat) (t : NotifyTarget) : NotifyTarget :=
  match t with
  | GithubStatus mapping_id commit context repository =>
      GithubStatus mapping_id (value_at values (notify_path index) commit) context repository
  | Webhook _ => t
  end.

(** The template with other parameter values and other values in its fields. *)
Definition sub_pipeline (parameter_values : bmap ParameterValue) (values : bmap string)
    (p : PipelineIr) : PipelineIr :=
  Build_PipelineIr (schema p) (name p) (parameters p) parameter_values (expressions p)
    (imap (sub_stage values) (stages p)) (imap (sub_target values) (notify p)) (provenance p)
    (source_span p).

(** The value of a binding: a public string. *)
Definition resolve (context : gmap string EvaluatedValue) (e : Expression) : option string :=
  match evaluate_expression e context default_limits with
  | Ok v => if ev_secret v then None else match ev_value v with PString s => Some s | _ => None end
  | Err _ => None
  end.

(** The values of the bindings that have one, by path. *)
Definition resolved_values (context : gmap string EvaluatedValue) (bs : list ExpressionBinding) :
    bmap string :=
  foldl (fun m b => match resolve context (eb_expression b) with
                    | Some v => binsert (eb_path b) v m
                    | None => m
                    end) [] bs.

(** ** Taking values out of a map *)

Definition remove_all (paths : list string) (m : bmap string) : bmap string :=
  foldl (fun m p => bdelete p m) m paths.

(** A loop that takes the values at [paths] out of its map and substitutes them. *)
Definition threads {A} (f : bmap string -> A * bmap string) (sub : bmap string -> A)
    (paths : list string) : Prop :=
  NoDup paths -> forall values m, bmap_wf m ->
  (forall p, p ∈ paths -> bget p m = bget p values) ->
  f m = (sub values, remove_all paths m).

Lemma remove_all_wf paths m : bmap_wf m -> bmap_wf (remove_all paths m).
Proof.
  revert m. induction paths as [|p paths IH]; intros m W; [done|]. by apply IH, bdelete_wf.
Qed.

Lemma bget_remove_all paths m p :
  bmap_wf m -> bget p (remove_all paths m) = if decide (p ∈ paths) then None else bget p m.
Proof.
  revert m. induction paths as [|q paths IH]; intros m W.
  { rewrite decide_False; [done|]. apply not_elem_of_nil. }
  cbn [remove_all foldl]. fold (remove_all paths (bdelete q m)).
  rewrite IH by by apply bdelete_wf. rewrite bget_bdelete by done.
  destruct (String.eqb_spec q p) as [->|Hne].
  - rewrite (decide_True (P := p ∈ p :: paths)) by by left. by case_decide.
  - destruct (decide (p ∈ paths)) as [Hp|Hp].
    + by rewrite decide_True by by right.
    + rewrite decide_False; [done|]. by intros [->|]%elem_of_cons.
Qed.

Lemma bdelete_absent {V} p (m : bmap V) : bget p m = None -> bdelete p m = m.
Proof.
  induction m as [|[k v] m IH]; [done|]. cbn [bget bdelete].
  destruct (String.eqb k p); [done|]. intros E. by rewrite IH.
Qed.

Lemma threads_ret {A} (a : A) : threads (fun m => (a, m)) (fun _ => a) [].
Proof. by intros _ values m _ _. Qed.

Lemma threads_field path field :
  threads (replace_field path field) (fun values => value_at values path field) [path].
Proof.
  intros _ values m W Hm. unfold replace_field, value_at. cbn [remove_all foldl].
  rewrite <- Hm by by left. destruct (bget path m) eqn:E; [done|]. by rewrite bdelete_absent.
Qed.

Lemma threads_bind {A B} (f : bmap string -> A * bmap string)
    (g : A -> bmap string -> B * bmap string) s1 s2 p1 p2 :
  threads f s1 p1 -> (forall a, threads (g a) (s2 a) p2) ->
  threads (fun m => let '(x, m) := f m in g x m) (fun values => s2 (s1 values) values) (p1 ++ p2).
Proof.
  intros Hf Hg (N1 & Hd & N2)%NoDup_app values m W Hm.
  rewrite (Hf N1 values m) by (done || intros; apply Hm, elem_of_app; by left).
  rewrite (Hg _ N2 values) by (by apply remove_all_wf || (intros p Hp; rewrite bget_remove_all by done;
    rewrite decide_False by (intros H1; by apply (Hd p)); apply Hm, elem_of_app; by right)).
  unfold remove_all. by rewrite foldl_app.
Qed.

Lemma threads_ext {A} (f : bmap string -> A * bmap string) sub sub' paths paths' :
  threads f sub paths -> (forall v, sub v = sub' v) -> paths = paths' -> threads f sub' paths'.
Proof. intros Hf Hs <- N values m W Hm. rewrite <- Hs. by apply Hf. Qed.

Lemma threads_map {A B} (k : A -> B) f s p :
  threads f s p -> threads (fun m => let '(x, m) := f m in (k x, m)) (fun values => k (s values)) p.
Proof. intros Hf N values m W Hm. by rewrite (Hf N values m W Hm). Qed.

Lemma threads_pair {A B C} (k : A -> B -> C) f g s1 s2 p1 p2 :
  threads f s1 p1 -> threads g s2 p2 ->
  threads (fun m => let '(x, m) := f m in let '(y, m) := g m in (k x y, m))
    (fun values => k (s1 values) (s2 values)) (p1 ++ p2).
Proof.
  intros Hf Hg. apply (threads_bind _ (fun x m => let '(y, m) := g m in (k x y, m)) _
    (fun x values => k x (s2 values))); [done|]. intros x. by apply threads_map.
Qed.

Lemma threads_each {A} (f : nat -> A -> bmap string -> A * bmap string) sub paths l i :
  (forall k x, threads (f k x) (fun values => sub values k x) (paths k x)) ->
  threads (replace_each f i l) (fun values => imap (fun k => sub values (i + k)%nat) l)
    (concat (imap (fun k => paths (i + k)%nat) l)).
Proof.
  intros Hf. revert i. induction l as [|x l IH]; intros i; [apply threads_ret|].
  pose proof (threads_pair cons _ _ _ _ _ _ (Hf i x) (IH (S i))) as Ht.
  assert (forall B (g : nat -> A -> B),
    imap (fun k => g (i + k)%nat) (x :: l) = g i x :: imap (fun k => g (S i + k)%nat) l) as Hi.
  { intros B g. rewrite imap_cons, Nat.add_0_r. f_equal. apply imap_ext. intros k y _. simpl.
    f_equal. lia. }
  intros N values m W Hm. rewrite !Hi in *. cbn [concat] in *. by apply Ht.
Qed.

(** ** Paths are distinct *)

Definition under (prefix path : string) : Prop := exists rest, path = prefix +:+ rest.

Lemma under_app a b s : under (a +:+ b) s -> under a s.
Proof. intros [r ->]. exists (b +:+ r). apply sapp_assoc. Qed.

Lemma fmt_nat_digits n : all_bytes is_ascii_digit (fmt_nat n) = true.
Proof. apply pretty_N_digits. Qed.

Lemma digits_delimited d d' c s t :
  all_bytes is_ascii_digit d = true -> all_bytes is_ascii_digit d' = true ->
  is_ascii_digit c = false -> d +:+ String c s = d' +:+ String c t -> d = d'.
Proof.
  intros Hd Hd' Hc. revert d' Hd Hd'.
  induction d as [|a d IH]; intros [|b d'] Hd Hd' E; cbn [all_bytes] in *;
    rewrite ?andb_true_iff in *; destruct_and?; simplify_eq/=; try congruence; f_equal; auto.
Qed.

Lemma under_index a i j s :
  under (a +:+ fmt_nat i +:+ "]") s -> under (a +:+ fmt_nat j +:+ "]") s -> i = j.
Proof.
  intros [r ->] [r' E]. rewrite !sapp_assoc in E. apply sapp_inj in E.
  apply (digits_delimited (fmt_nat i) (fmt_nat j) "]") in E; try done; try apply fmt_nat_digits.
  by apply (inj (pretty (A := nat))).
Qed.

Lemma elem_concat {A} (x : A) ls : x ∈ concat ls -> exists l, x ∈ l /\ l ∈ ls.
Proof.
  rewrite list_elem_of_In, in_concat. intros (l & Hl & Hx). exists l. by rewrite !list_elem_of_In.
Qed.

Lemma NoDup_concat_imap {A} (f : nat -> A -> list string) l :
  (forall i x, x ∈ l -> NoDup (f i x)) ->
  (forall i j x y s, s ∈ f i x -> s ∈ f j y -> i = j) -> NoDup (concat (imap f l)).
Proof.
  revert f. induction l as [|x l IH]; intros f Hn Hd; [apply NoDup_nil_2|].
  rewrite imap_cons. cbn [concat]. apply NoDup_app. split_and!.
  - apply Hn. by left.
  - intros s Hs (fy & Hfy & (k & y & -> & Hy)%elem_of_lookup_imap)%elem_concat.
    by specialize (Hd 0%nat (S k) x y s Hs Hfy).
  - apply IH; [intros i y Hy; apply Hn; by right|]. intros i j y z s Hi Hj.
    specialize (Hd (S i) (S j) y z s Hi Hj). lia.
Qed.

Lemma elem_concat_imap {A B} (f : nat -> A -> list B) l s :
  s ∈ concat (imap f l) -> exists i x, x ∈ l /\ s ∈ f i x.
Proof.
  intros (fy & Hs & (k & y & -> & Hy)%elem_of_lookup_imap)%elem_concat.
  exists k, y. split; [by eapply list_elem_of_lookup_2|done].
Qed.

(** ** The fields of a pipeline *)

Definition env_wf (s : Step) : Prop :=
  match s with Process p => bmap_wf (ps_env p) | _ => True end.

Lemma step_fields_under i j s path : path ∈ (step_fields i j s).*1 -> under (step_path i j) path.
Proof.
  assert (forall a, under (step_path i j) (step_path i j +:+ a)) as Hu by (intros a; by exists a).
  destruct s as [p|?|?|?|c]; cbn [step_fields]; try by intros ?%not_elem_of_nil.
  - unfold process_base. rewrite fmap_cons, fmap_app, elem_of_cons, elem_of_app.
    intros [->|[Hp|Hp]]; cbn [fst].
    + rewrite sapp_assoc. apply Hu.
    + apply list_elem_of_fmap in Hp as (? & -> & (k & y & -> & _)%elem_of_lookup_imap).
      cbn [fst]. unfold arg_path. rewrite sapp_assoc. apply Hu.
    + apply list_elem_of_fmap in Hp as (? & -> & (kv & -> & _)%list_elem_of_fmap).
      cbn [fst]. rewrite sapp_assoc. apply Hu.
  - intros ->%list_elem_of_singleton. apply Hu.
Qed.

Lemma arg_paths_nodup base (args : list string) :
  NoDup (imap (fun i a => (arg_path base i, a)) args).*1.
Proof.
  apply NoDup_alt. intros i j x. rewrite !list_lookup_fmap, !list_lookup_imap.
  destruct (args !! i), (args !! j); cbn; intros [= <-] [= E]; try done.
  apply sapp_inj in E. apply (under_index ".args[" i j (".args[" +:+ fmt_nat i +:+ "]")).
  - exists "". by rewrite sapp_nil_r.
  - exists "". by rewrite sapp_nil_r.
Qed.

Lemma arg_path_elem base (args : list string) path :
  path ∈ (imap (fun i a => (arg_path base i, a)) args).*1 -> under (base +:+ ".args[") path.
Proof.
  intros (? & -> & (k & y & -> & _)%elem_of_lookup_imap)%list_elem_of_fmap. cbn [fst].
  unfold arg_path. eexists. by rewrite sapp_assoc.
Qed.

Lemma env_path_elem base (env : bmap string) path :
  path ∈ ((fun kv => (base +:+ ".env." +:+ fst kv, snd kv)) <$> env).*1 ->
  under (base +:+ ".env.") path.
Proof.
  intros (? & -> & (kv & -> & _)%list_elem_of_fmap)%list_elem_of_fmap. cbn [fst].
  eexists. by rewrite sapp_assoc.
Qed.

Lemma env_paths_nodup base (env : bmap string) :
  bmap_wf env -> NoDup ((fun kv => (base +:+ ".env." +:+ fst kv, snd kv)) <$> env).*1.
Proof.
  intros W%bmap_wf_nodup. rewrite <- list_fmap_compose.
  rewrite (list_fmap_ext _ ((fun k => base +:+ ".env." +:+ k) ∘ fst)) by done.
  rewrite list_fmap_compose. apply NoDup_fmap_2; [|done]. intros k k' E.
  by do 2 apply sapp_inj in E.
Qed.

Lemma under_clash base a b s : under (base +:+ a) s -> under (base +:+ b) s ->
  exists r r', a +:+ r = b +:+ r'.
Proof. intros [r ->] [r' E]. rewrite !sapp_assoc in E. apply sapp_inj in E. eauto. Qed.

Lemma step_fields_nodup i j s : env_wf s -> NoDup (step_fields i j s).*1.
Proof.
  destruct s as [p|?|?|?|c]; cbn [step_fields env_wf]; intros W; try apply NoDup_nil_2.
  - rewrite fmap_cons, fmap_app. cbn [fst]. generalize (process_base i j) as base. intros base.
    apply NoDup_cons. split; [|apply NoDup_app; split_and!].
    + assert (under (base +:+ ".program") (base +:+ ".program")) as Hp
        by (exists ""; by rewrite sapp_nil_r).
      rewrite elem_of_app. intros [He%arg_path_elem|He%env_path_elem];
        by destruct (under_clash _ _ _ _ Hp He) as (? & ? & ?).
    + apply arg_paths_nodup.
    + intros path Ha%arg_path_elem He%env_path_elem.
      by destruct (under_clash _ _ _ _ Ha He) as (? & ? & ?).
    + by apply env_paths_nodup.
  - by apply NoDup_singleton.
Qed.

Lemma fmap_concat_imap {A B C} (g : B -> C) (f : nat -> A -> list B) l :
  g <$> concat (imap f l) = concat (imap (fun i x => g <$> f i x) l).
Proof.
  revert f. induction l as [|x l IH]; intros f; [done|].
  rewrite !imap_cons. cbn [concat]. by rewrite fmap_app, IH.
Qed.

Definition fields_of_steps (i : nat) (s : Stage) : list string :=
  concat (imap (fun j x => (step_fields i j x).*1) (stage_steps s)).
Definition fields_of (p : PipelineIr) : list string :=
  concat (imap fields_of_steps (stages p)) ++
  concat (imap (fun i t => (notify_fields i t).*1) (notify p)).

Lemma pipeline_fields_paths p : (pipeline_fields p).*1 = fields_of p.
Proof.
  unfold pipeline_fields, fields_of. rewrite fmap_app, !fmap_concat_imap. do 2 f_equal.
  apply imap_ext. intros i s _. unfold stage_fields, fields_of_steps. apply fmap_concat_imap.
Qed.

Definition envs_wf (p : PipelineIr) : Prop :=
  forall s x, s ∈ stages p -> x ∈ stage_steps s -> env_wf x.

Lemma fields_of_steps_under i s path : path ∈ fields_of_steps i s -> under (stage_path i) path.
Proof.
  intros (j & x & _ & Hp)%elem_concat_imap. eapply under_app, (step_fields_under i j). exact Hp.
Qed.

Lemma notify_fields_elem i t path : path ∈ (notify_fields i t).*1 -> path = notify_path i.
Proof.
  destruct t; cbn; [by intros ->%list_elem_of_singleton|by intros ?%not_elem_of_nil].
Qed.

Lemma fields_of_nodup p : envs_wf p -> NoDup (fields_of p).
Proof.
  intros W. apply NoDup_app. split_and!.
  - apply NoDup_concat_imap.
    + intros i s Hs. apply NoDup_concat_imap.
      * intros j x Hx. apply step_fields_nodup. by eapply W.
      * intros j k x y path Hj%step_fields_under Hk%step_fields_under. unfold step_path in *.
        rewrite <- !sapp_assoc in Hj, Hk. rewrite !(sapp_assoc (stage_path i +:+ _)) in Hj, Hk.
        by eapply under_index.
    + intros i j x y path Hi%fields_of_steps_under Hj%fields_of_steps_under. by eapply under_index.
  - intros path (i & s & _ & Hs%fields_of_steps_under)%elem_concat_imap
      (j & t & _ & ->%notify_fields_elem)%elem_concat_imap.
    by destruct Hs as [r Hr].
  - apply NoDup_concat_imap.
    + intros i t _. destruct t; cbn; [apply NoDup_singleton|apply NoDup_nil_2].
    + intros i j t u path ->%notify_fields_elem Hj%notify_fields_elem.
      apply (under_index "$.notify[" i j (notify_path i)).
      * exists ".github_status.commit". unfold notify_path. by rewrite !sapp_assoc.
      * rewrite Hj. exists ".github_status.commit". unfold notify_path. by rewrite !sapp_assoc.
Qed.

(** ** The loops substitute *)

Lemma imap_const {A B} (f : A -> B) l : imap (fun _ => f) l = f <$> l.
Proof.
  apply list_eq. intros i. by rewrite list_lookup_imap, list_lookup_fmap.
Qed.

Lemma concat_imap_single {A B} (f : nat -> A -> B) l : concat (imap (fun i x => [f i x]) l) = imap f l.
Proof.
  revert f. induction l as [|x l IH]; intros f; [done|]. rewrite !imap_cons. cbn. f_equal.
  exact (IH (fun i => f (S i))).
Qed.

Lemma threads_process base p :
  threads (instantiate_process base p) (fun values => sub_process values base p)
    ((base +:+ ".program", ps_program p) :: imap (fun i a => (arg_path base i, a)) (ps_args p)
      ++ ((fun kv => (base +:+ ".env." +:+ fst kv, snd kv)) <$> ps_env p)).*1.
Proof.
  pose (args_of := fun values => imap (fun i a => value_at values (arg_path base i) a) (ps_args p)).
  pose (env_of := fun values => imap (fun _ (kv : string * string) =>
    (fst kv, value_at values (base +:+ ".env." +:+ fst kv) (snd kv))) (ps_env p)).
  assert (threads (replace_each (fun i a => replace_field (arg_path base i) a) 0 (ps_args p)) args_of
    (concat (imap (fun i _ => [arg_path base i]) (ps_args p)))) as Ha.
  { apply (threads_each _ (fun values i a => value_at values (arg_path base i) a)
      (fun i _ => [arg_path base i])). intros. apply threads_field. }
  assert (threads (replace_each (fun _ (kv : string * string) r =>
      let '(v, r) := replace_field (base +:+ ".env." +:+ fst kv) (snd kv) r in
      ((fst kv, v), r)) 0 (ps_env p)) env_of
    (concat (imap (fun _ kv => [base +:+ ".env." +:+ fst kv]) (ps_env p)))) as He.
  { apply (threads_each _ (fun values _ kv =>
      (fst kv, value_at values (base +:+ ".env." +:+ fst kv) (snd kv)))
      (fun _ kv => [base +:+ ".env." +:+ fst kv])).
    intros _ kv. apply (threads_map (pair (fst kv))), threads_field. }
  pose proof (threads_bind _ _ _ _ _ _ (threads_field (base +:+ ".program") (ps_program p))
    (fun program => threads_pair (fun args env => Build_ProcessStep (ps_mode p) program args env
      (ps_timeout_seconds p) (ps_source_span p)) _ _ _ _ _ _ Ha He)) as Ht.
  eapply threads_ext; [exact Ht|..].
  - intros values. unfold sub_process, args_of, env_of. by rewrite imap_const.
  - rewrite fmap_cons, fmap_app, fmap_imap, <- list_fmap_compose. cbn [app fst]. f_equal. f_equal.
    + apply concat_imap_single.
    + rewrite (concat_imap_single (fun _ kv => base +:+ ".env." +:+ fst kv)). apply imap_const.
Qed.

Lemma threads_step i j s :
  threads (instantiate_step i j s) (fun values => sub_step values i j s) (step_fields i j s).*1.
Proof.
  destruct s as [p|c|c|c|c]; try apply threads_ret.
  - apply (threads_map Process), threads_process.
  - apply (threads_map (fun commit => Checkout (Build_CheckoutStep (set_commit (ck_spec c) commit) _))),
      threads_field.
Qed.

Lemma threads_stage i s :
  threads (instantiate_stage i s) (fun values => sub_stage values i s) (fields_of_steps i s).
Proof.
  apply (threads_map (fun steps => Build_Stage (stage_id s) (stage_name s) (stage_image s) steps
    (stage_artifacts s) (stage_source_span s))).
  apply (threads_each _ (fun values j => sub_step values i j) (fun j x => (step_fields i j x).*1)).
  intros. apply threads_step.
Qed.

Lemma threads_target i t :
  threads (instantiate_target i t) (fun values => sub_target values i t) (notify_fields i t).*1.
Proof.
  destruct t as [id commit context repository|id]; [|apply threads_ret].
  apply (threads_map (fun commit => GithubStatus id commit context repository)), threads_field.
Qed.

(** The two loops of [instantiate_pipeline] over a pipeline. *)
Lemma threads_fields p :
  threads (fun m => let '(ss, m) := replace_each instantiate_stage 0 (stages p) m in
                    let '(ns, m) := replace_each instantiate_target 0 (notify p) m in ((ss, ns), m))
    (fun values => (imap (sub_stage values) (stages p), imap (sub_target values) (notify p)))
    (fields_of p).
Proof.
  apply threads_pair.
  - apply (threads_each _ sub_stage fields_of_steps). intros. apply threads_stage.
  - apply (threads_each _ sub_target (fun i t => (notify_fields i t).*1)). intros.
    apply threads_target.
Qed.

(** ** Resolved bindings *)

Lemma validate_bindings_sorted definitions context fields index previous bs :
  validate_bindings definitions context fields index previous bs = Ok tt ->
  Sorted str_lt (eb_path <$> bs).
Proof.
  revert index previous. induction bs as [|b bs IH]; intros index previous H; [constructor|].
  cbn [validate_bindings] in H. apply bind_ok in H as ([] & _ & H). rewrite fmap_cons.
  constructor; [by eapply IH|]. destruct bs as [|b' bs]; [constructor|].
  apply bind_ok in H as ([] & Hb%validate_binding_ok & _). constructor. apply (bo_order _ _ _ _ _ Hb).
Qed.

Lemma validate_pipeline_bindings `{External} p :
  validate_pipeline p = Ok tt ->
  validate_bindings (parameters p) (public_context (parameter_values p))
    (expression_materialized_fields p) 0 None (expressions p) = Ok tt.
Proof.
  intros Hv. unfold validate_pipeline in Hv.
  do 4 (apply bind_ok in Hv as ([] & _ & Hv)). apply bind_ok in Hv as ([] & Hp & _).
  unfold validate_parameters_and_expressions in Hp.
  by do 4 (apply bind_ok in Hp as ([] & _ & Hp)).
Qed.

Lemma insert_all_elem l (m : gmap string string) path v :
  insert_all l m !! path = Some v -> path ∈ l.*1 \/ m !! path = Some v.
Proof.
  revert m. induction l as [|[k w] l IH]; intros m; cbn; [by right|].
  intros [?|Hm]%IH; [left; by right|]. destruct (decide (k = path)) as [->|].
  - left. by left.
  - rewrite lookup_insert_ne in Hm by done. by right.
Qed.

(** In a valid pipeline the bindings have distinct paths, all of them fields. *)
Lemma valid_binding_paths `{External} p :
  validate_pipeline p = Ok tt ->
  NoDup (eb_path <$> expressions p) /\
  forall b, b ∈ expressions p -> eb_path b ∈ fields_of p.
Proof.
  intros Hb%validate_pipeline_bindings. split.
  - pose proof (bmap_wf_nodup ((fun b => (eb_path b, b)) <$> expressions p)) as Hn.
    unfold bmap_wf in Hn. rewrite <- list_fmap_compose in Hn. apply Hn.
    by eapply validate_bindings_sorted.
  - intros b (k & Hk)%list_elem_of_lookup.
    destruct (bo_value _ _ _ _ _ (validate_bindings_ok _ _ _ _ _ _ Hb k b Hk)) as (v & _ & Hf & _).
    apply insert_all_elem in Hf as [Hf|Hf]; [by rewrite pipeline_fields_paths in Hf|].
    by rewrite lookup_empty in Hf.
Qed.

Definition resolves (context : gmap string EvaluatedValue) (bs : list ExpressionBinding) : Prop :=
  forall b, b ∈ bs -> is_Some (resolve context (eb_expression b)).

Lemma resolve_binding_ok context m b m' :
  resolve_binding context m b = Ok m' <->
  exists v, resolve context (eb_expression b) = Some v /\ m' = binsert (eb_path b) v m.
Proof.
  unfold resolve_binding, resolve. destruct (evaluate_expression _ _ _) as [[v s]|e]; cbn.
  - destruct s, v; cbn; split; try done; try by intros (? & ? & ?).
    + intros [= <-]. eauto.
    + by intros (? & [= ->] & ->).
  - split; [done|]. by intros (? & ? & ?).
Qed.

Lemma resolve_bindings_ok context bs m m' :
  try_fold (resolve_binding context) m bs = Ok m' <->
  resolves context bs /\ m' = foldl (fun m b => match resolve context (eb_expression b) with
                    | Some v => binsert (eb_path b) v m
                    | None => m
                    end) m bs.
Proof.
  revert m m'. induction bs as [|b bs IH]; intros m m'; cbn [try_fold foldl].
  - split; [intros [= <-]; split; [by intros b ?%not_elem_of_nil|done]|by intros [_ ->]].
  - rewrite bind_ok. split.
    + intros (m1 & (v & Hv & ->)%resolve_binding_ok & [Hr ->]%IH). rewrite Hv.
      split; [|done]. intros b' [->|Hb]%elem_of_cons; [by eexists|by apply Hr].
    + intros [Hr ->]. destruct (Hr b ltac:(by left)) as [v Hv]. rewrite Hv.
      exists (binsert (eb_path b) v m). split; [apply resolve_binding_ok; eauto|].
      apply IH. split; [|done]. intros b' Hb. apply Hr. by right.
Qed.

Lemma resolved_values_wf context bs : bmap_wf (resolved_values context bs).
Proof.
  unfold resolved_values. assert (bmap_wf (@nil (string * string))) as W by constructor.
  revert W. generalize (@nil (string * string)). induction bs as [|b bs IH]; intros m W; [done|].
  apply IH. destruct (resolve _ _); [by apply binsert_wf|done].
Qed.

Lemma resolved_values_from context bs m path :
  bmap_wf m -> NoDup (eb_path <$> bs) ->
  bget path (foldl (fun m b => match resolve context (eb_expression b) with
                    | Some v => binsert (eb_path b) v m
                    | None => m
                    end) m bs) =
  match list_find (fun b => eb_path b = path) bs with
  | Some (_, b) => match resolve context (eb_expression b) with Some v => Some v | None => bget path m end
  | None => bget path m
  end.
Proof.
  revert m. induction bs as [|b bs IH]; intros m W N; [done|].
  cbn [foldl list_find]. rewrite fmap_cons in N. apply NoDup_cons in N as [Hb N].
  rewrite IH; [|destruct (resolve _ _); [by apply binsert_wf|done]|done].
  destruct (decide (eb_path b = path)) as [<-|Hne].
  - destruct (list_find _ bs) as [[i b']|] eqn:E.
    + apply list_find_Some in E as (Hl & Hp & _). destruct Hb. rewrite <- Hp.
      by apply list_elem_of_fmap_2, list_elem_of_lookup_2 with i.
    + destruct (resolve context (eb_expression b)); [|done]. by rewrite bget_binsert, String.eqb_refl.
  - assert (bget path (match resolve context (eb_expression b) with
      | Some v => binsert (eb_path b) v m | None => m end) = bget path m) as ->.
    { destruct (resolve _ _); [|done]. rewrite bget_binsert by done.
      by rewrite (proj2 (String.eqb_neq _ _)). }
    by destruct (list_find _ bs) as [[i b']|].
Qed.

(** The value recorded at a path: that of the binding with this path. *)
Lemma resolved_values_get context bs path :
  NoDup (eb_path <$> bs) ->
  bget path (resolved_values context bs) =
  match list_find (fun b => eb_path b = path) bs with
  | Some (_, b) => resolve context (eb_expression b)
  | None => None
  end.
Proof.
  intros N. unfold resolved_values. rewrite resolved_values_from; [|constructor|done].
  destruct (list_find _ bs) as [[i b]|]; [|done]. by destruct (resolve _ _).
Qed.

Lemma resolved_values_elem context bs b :
  NoDup (eb_path <$> bs) -> b ∈ bs ->
  bget (eb_path b) (resolved_values context bs) = resolve context (eb_expression b).
Proof.
  intros N Hb. rewrite resolved_values_get by done.
  destruct (list_find_elem_of (fun c => eb_path c = eb_path b) bs b Hb eq_refl) as [[i c] Hf].
  rewrite Hf. apply list_find_Some in Hf as (Hl & Hp & _).
  apply list_elem_of_lookup in Hb as [j Hj]. rewrite NoDup_alt in N.
  specialize (N i j (eb_path b)). rewrite !list_lookup_fmap, Hl, Hj in N. cbn in N.
  rewrite Hp in N. specialize (N eq_refl eq_refl) as ->. by simplify_eq.
Qed.

Lemma resolved_values_none context bs path :
  NoDup (eb_path <$> bs) -> path ∉ eb_path <$> bs -> bget path (resolved_values context bs) = None.
Proof.
  intros N Hp. rewrite resolved_values_get by done.
  destruct (list_find _ bs) as [[i b]|] eqn:E; [|done].
  apply list_find_Some in E as (Hl & <- & _). destruct Hp.
  by apply list_elem_of_fmap_2, list_elem_of_lookup_2 with i.
Qed.

Lemma bmap_all_none (m : bmap string) : (forall k, bget k m = None) -> m = [].
Proof.
  destruct m as [|[k v] m]; [done|]. intros Hm. specialize (Hm k). cbn in Hm.
  by rewrite String.eqb_refl in Hm.
Qed.

(** The two loops on the resolved bindings of a valid pipeline: they substitute
    the values and leave nothing behind. *)
Lemma replace_fields_exact `{External} p context :
  envs_wf p -> validate_pipeline p = Ok tt ->
  let values := resolved_values context (expressions p) in
  (let '(ss, m) := replace_each instantiate_stage 0 (stages p) values in
   let '(ns, m) := replace_each instantiate_target 0 (notify p) m in ((ss, ns), m)) =
  ((imap (sub_stage values) (stages p), imap (sub_target values) (notify p)), []).
Proof.
  intros W Hv values. destruct (valid_binding_paths p Hv) as [N Hin].
  rewrite (threads_fields p (fields_of_nodup p W) values values (resolved_values_wf _ _));
    [|done].
  f_equal. apply bmap_all_none. intros k. rewrite bget_remove_all by apply resolved_values_wf.
  case_decide as Hk; [done|]. apply resolved_values_none; [done|].
  intros (b & -> & Hb)%list_elem_of_fmap. by apply Hk, Hin.
Qed.

Lemma instantiate_ok `{External} p inputs q :
  envs_wf p ->
  instantiate_pipeline p inputs = Ok q <->
  validate_pipeline p = Ok tt /\
  exists parameter_values context,
    bind_parameter_values (parameters p) inputs = Ok (parameter_values, context) /\
    resolves context (expressions p) /\
    q = sub_pipeline parameter_values (resolved_values context (expressions p)) p /\
    validate_pipeline q = Ok tt.
Proof.
  intros W. unfold instantiate_pipeline. rewrite bind_ok. split.
  - intros ([] & Hv%map_err_ok & ([vs context] & Hb & Hi)%bind_ok). split; [done|].
    exists vs, context. apply bind_ok in Hi as (m & [Hr ->]%resolve_bindings_ok & Hi).
    pose proof (replace_fields_exact p context W Hv) as He. cbv zeta in He. unfold resolved_values at 1 in He.
    destruct (replace_each instantiate_stage _ _ _) as [ss m].
    destruct (replace_each instantiate_target _ _ _) as [ns m']. injection He as -> -> ->.
    apply bind_ok in Hi as ([] & Hq%map_err_ok & [= <-]). done.
  - intros (Hv & vs & context & Hb & Hr & -> & Hq). exists tt. rewrite Hv. split; [done|].
    apply bind_ok. exists (vs, context). split; [done|]. apply bind_ok.
    exists (resolved_values context (expressions p)). split; [by apply resolve_bindings_ok|].
    pose proof (replace_fields_exact p context W Hv) as He. cbv zeta in He.
    destruct (replace_each instantiate_stage _ _ _) as [ss m].
    destruct (replace_each instantiate_target _ _ _) as [ns m']. injection He as -> -> ->.
    apply bind_ok. exists tt. split; [by apply map_err_ok|done].
Qed.
