(* ===== verification/Recompile.v ===== *)
(** * Re-instantiation and recompilation agree

    A compiled pipeline keeps its expressions.  Instantiating it with other
    inputs gives the pipeline its source compiles to under those inputs.  The
    proof follows two runs of the compiler on one source: a first one that
    succeeds, and a second one in another context. *)

From stdpp Require Import base gmap list strings pretty.
From Stdlib Require Import Ascii ZArith Lia Sorted Permutation.
From S2P Require Import Prelude Text Bytes Expression ExpressionEval Domain Artifacts.
From S2P Require Import StrictYaml YamlTree PipelineIr Compiler CompileSchema Instantiate.

Open Scope Z_scope.

(** ** Two runs *)

(** The fields a run resolves, in order: their paths, and the expressions of
    those that have one. *)
Definition trace : Type := list (string * option Expression).

Definition bindings (tr : trace) : list ExpressionBinding :=
  omap (fun x => Build_ExpressionBinding (fst x) <$> snd x) tr.

Definition agrees (values : bmap string) (context : gmap string EvaluatedValue) (tr : trace) : Prop :=
  forall path o, (path, o) ∈ tr -> bget path values = (o ≫= resolve context).

(** [tracked sub fine P m m']: a run of [m] that returns [a] has a trace with
    [P]; and in any other context [m'] returns [a] with the values of its
    fields substituted, unless some expression has no value there or the
    substituted fields are not [fine]. *)
Definition tracked {A} (sub : bmap string -> A -> A) (fine : bmap string -> A -> Prop)
    (P : trace -> A -> Prop) (m : gmap string EvaluatedValue -> comp A)
    (m' : bmap string -> gmap string EvaluatedValue -> comp A) : Prop :=
  forall c1 es1 a es1', m c1 es1 = Ok (a, es1') ->
  exists tr, es1' = es1 ++ bindings tr /\ P tr a /\
  forall c2 values es2, agrees values c2 tr -> llen es2 = llen es1 ->
  match m' values c2 es2 with
  | Ok (b, es2') => b = sub values a /\ es2' = es2 ++ bindings tr /\ resolves c2 (bindings tr)
  | Err _ => resolves c2 (bindings tr) -> ~ fine values a
  end.

Definition always {A} (_ : bmap string) (_ : A) : Prop := True.
Definition same {A} (_ : bmap string) (a : A) : A := a.

Lemma bindings_app t1 t2 : bindings (t1 ++ t2) = bindings t1 ++ bindings t2.
Proof. apply omap_app. Qed.

Lemma agrees_app values c t1 t2 : agrees values c (t1 ++ t2) <-> agrees values c t1 /\ agrees values c t2.
Proof.
  split.
  - intros Ha. split; intros path o Hin; apply Ha, elem_of_app; auto.
  - intros [H1 H2] path o [Hin|Hin]%elem_of_app; auto.
Qed.

Lemma resolves_app c b1 b2 : resolves c (b1 ++ b2) <-> resolves c b1 /\ resolves c b2.
Proof.
  split.
  - intros Ha. split; intros b Hin; apply Ha, elem_of_app; auto.
  - intros [H1 H2] b [Hin|Hin]%elem_of_app; auto.
Qed.

Lemma resolves_nil c : resolves c [].
Proof. by intros b ?%not_elem_of_nil. Qed.

Lemma tracked_bind {A B} s1 f1 P s2 f2 (Q : trace -> B -> Prop) m m'
    (k : A -> gmap string EvaluatedValue -> comp B) k' :
  tracked s1 f1 P m m' ->
  (forall tr a, P tr a -> tracked s2 f2 (fun tr' b => Q (tr ++ tr') b /\ forall v, f2 v b -> f1 v a)
    (k a) (fun v c => k' v (s1 v a) c)) ->
  tracked s2 f2 Q (fun c => m c ≫= fun a => k a c) (fun v c => m' v c ≫= fun a => k' v a c).
Proof.
  intros Hm Hk c1 es1 b es1'. unfold mbind, comp_bind.
  destruct (m c1 es1) as [[a es]|] eqn:Em; [|done]. intros Eb.
  destruct (Hm _ _ _ _ Em) as (tr & -> & HP & Hm').
  destruct (Hk tr a HP _ _ _ _ Eb) as (tr' & -> & [HQ Hf] & Hk').
  exists (tr ++ tr'). rewrite bindings_app, app_assoc. split_and!; [done|done|].
  intros c2 v es2 [Ha1 Ha2]%agrees_app Hl. specialize (Hm' c2 v es2 Ha1 Hl).
  destruct (m' v c2 es2) as [[a2 es2']|].
  - destruct Hm' as (-> & -> & Hr). specialize (Hk' c2 v (es2 ++ bindings tr) Ha2).
    rewrite !llen_app, Hl in Hk'. specialize (Hk' eq_refl).
    destruct (k' v (s1 v a) c2 _) as [[b2 es2'']|].
    + destruct Hk' as (-> & -> & Hr'). rewrite app_assoc, resolves_app. done.
    + rewrite resolves_app. intros [_ Hr2]. by apply Hk'.
  - rewrite resolves_app. intros [Hr _] Hfine. by apply Hm'; [|apply Hf].
Qed.

Lemma tracked_plain {A B} s1 P s2 f2 (Q : trace -> B -> Prop) m m'
    (k : A -> gmap string EvaluatedValue -> comp B) k' :
  tracked s1 always P m m' ->
  (forall tr a, P tr a -> tracked s2 f2 (fun tr' b => Q (tr ++ tr') b)
    (k a) (fun v c => k' v (s1 v a) c)) ->
  tracked s2 f2 Q (fun c => m c ≫= fun a => k a c) (fun v c => m' v c ≫= fun a => k' v a c).
Proof.
  intros Hm Hk. eapply tracked_bind; [exact Hm|]. intros tr a HP c1 es1 b es1' Hb.
  destruct (Hk tr a HP c1 es1 b es1' Hb) as (tr' & ? & ? & ?). exists tr'. done.
Qed.

Lemma tracked_lift {A B} s2 f2 (Q : trace -> B -> Prop) (r : result compile_fault A) k k' :
  (forall a, r = Ok a -> tracked s2 f2 Q (k a) (fun v c => k' v a c)) ->
  tracked s2 f2 Q (fun c => lift r ≫= fun a => k a c) (fun v c => lift r ≫= fun a => k' v a c).
Proof.
  intros Hk. unfold mbind, comp_bind, lift. destruct r as [a|e]; [by apply Hk|by intros ????].
Qed.

Lemma tracked_ret {A} sub fine (Q : trace -> A -> Prop) a b :
  Q [] a -> (forall v, b v = sub v a) ->
  tracked sub fine Q (fun _ => mret a) (fun v _ => mret (b v)).
Proof.
  intros HQ Hb c1 es1 a' es1' [= <- <-]. exists []. rewrite app_nil_r. split_and!; [done|done|].
  intros c2 v es2 _ _. rewrite app_nil_r, Hb. split_and!; [done|done|apply resolves_nil].
Qed.

Lemma tracked_check {A E} sub fine (Q : trace -> A -> Prop) a b
    (r : result compile_fault E) (r' : bmap string -> result compile_fault E) :
  (forall x, r = Ok x -> Q [] a) -> (forall v, b v = sub v a) ->
  (forall v, fine v a -> exists x, r' v = Ok x) ->
  tracked sub fine Q (fun _ => lift r ≫= fun _ => mret a) (fun v _ => lift (r' v) ≫= fun _ => mret (b v)).
Proof.
  intros HQ Hb Hr c1 es1 a' es1'. unfold mbind, comp_bind, lift, mret, comp_ret.
  destruct r as [x|]; [|done]. intros [= <- <-].
  exists []. rewrite app_nil_r. split_and!; [done|by eapply HQ|]. intros c2 v es2 _ _.
  destruct (r' v) eqn:E'.
  - rewrite app_nil_r, Hb. split_and!; [done|done|apply resolves_nil].
  - intros _ Hf. destruct (Hr v Hf) as [? ?]. congruence.
Qed.

(** One resolved field: a literal, or an expression whose value is the result
    in every context. *)
Lemma resolved_string_cases c1 node path es1 a es1' :
  compile_resolved_string c1 node path es1 = Ok (a, es1') ->
  (es1' = es1 /\ forall c2 es2, compile_resolved_string c2 node path es2 = Ok (a, es2)) \/
  exists e, es1' = es1 ++ [Build_ExpressionBinding path e] /\
    forall c2 es2, llen es2 = llen es1 ->
    match resolve c2 e with
    | Some s => compile_resolved_string c2 node path es2
        = Ok (s, es2 ++ [Build_ExpressionBinding path e])
    | None => exists f, compile_resolved_string c2 node path es2 = Err f
    end.
Proof.
  unfold compile_resolved_string.
  destruct (sv_value node); try (intros [= <- <-]; by left);
    intros (view & Hv & Hr)%bind_ok; rewrite Hv; cbn [mbind result_bind];
    apply bind_ok in Hr as ([source view'] & Hs & Hr); rewrite Hs; cbn [mbind result_bind];
    apply bind_ok in Hr as ([] & Hf & Hr); rewrite Hf; cbn [mbind result_bind];
    apply bind_ok in Hr as (e & He & Hr); rewrite He; cbn [mbind result_bind];
    apply bind_ok in Hr as ([v s] & Hev%map_err_ok & Hr);
    destruct s; try done; destruct v; try done; cbn in Hr;
    destruct (MAX_EXPRESSION_BINDINGS <=? llen es1) eqn:El; try done; injection Hr as <- <-;
    right; exists e; (split; [done|]); intros c2 es2 Hl; rewrite Hl, El; unfold resolve;
    destruct (evaluate_expression e c2 default_limits) as [[v2 s2]|]; cbn; eauto;
    destruct s2; cbn; unfold fail_at; eauto; destruct v2; cbn; eauto.
Qed.

Lemma tracked_string node path :
  tracked (fun v s => value_at v path s) always (fun tr _ => tr.*1 = [path])
    (fun c => compile_resolved_string c node path) (fun _ c => compile_resolved_string c node path).
Proof.
  intros c1 es1 a es1' [[-> Hc]|(e & -> & Hc)]%resolved_string_cases.
  - exists [(path, None)]. cbn. rewrite app_nil_r. split_and!; [done|done|].
    intros c2 v es2 Ha _. rewrite Hc, app_nil_r. unfold value_at.
    rewrite (Ha path None) by by left. split_and!; [done|done|apply resolves_nil].
  - exists [(path, Some e)]. split_and!; [done|done|].
    intros c2 v es2 Ha Hl. specialize (Hc c2 es2 Hl). specialize (Ha path (Some e) ltac:(by left)).
    cbn in Ha. destruct (resolve c2 e) eqn:Er.
    + rewrite Hc. unfold value_at. rewrite Ha. split_and!; [done|done|].
      intros b ->%list_elem_of_singleton. by eexists.
    + destruct Hc as [f ->]. intros Hr. exfalso.
      destruct (Hr (Build_ExpressionBinding path e) ltac:(by left)) as [? Hs]. cbn in Hs. congruence.
Qed.

Lemma tracked_conseq {A} s f P s' f' (Q : trace -> A -> Prop) m m' :
  tracked s f P m m' ->
  (forall tr a, P tr a -> Q tr a /\ (forall v, s v a = s' v a) /\ (forall v, f' v a -> f v a)) ->
  tracked s' f' Q m m'.
Proof.
  intros Hm Hc c1 es1 a es1' Ha. destruct (Hm _ _ _ _ Ha) as (tr & -> & HP & Hr).
  destruct (Hc tr a HP) as (HQ & Hs & Hf). exists tr. split_and!; [done|done|].
  intros c2 v es2 Hag Hl. specialize (Hr c2 v es2 Hag Hl).
  destruct (m' v c2 es2) as [[b es2']|]; [by rewrite <- Hs|]. intros Hres Hfi. by apply Hr, Hf.
Qed.

Lemma imap_shift {A B} (g : nat -> A -> B) i x l :
  imap (fun k => g (i + k)%nat) (x :: l) = g i x :: imap (fun k => g (S i + k)%nat) l.
Proof.
  rewrite imap_cons, Nat.add_0_r. f_equal. apply imap_ext. intros k y _. simpl. f_equal. lia.
Qed.

Lemma tracked_map {A B} (sub : bmap string -> nat -> B -> B) fine (paths : nat -> B -> list string)
    (E : A -> B -> Prop) f i l :
  (forall i x, x ∈ l -> tracked (fun v => sub v i) (fun v => fine v i)
    (fun tr y => tr.*1 ≡ₚ paths i y /\ E x y) (fun c => f c i x) (fun _ c => f c i x)) ->
  tracked (fun v ys => imap (fun k => sub v (i + k)%nat) ys)
    (fun v ys => forall k y, ys !! k = Some y -> fine v (i + k)%nat y)
    (fun tr ys => tr.*1 ≡ₚ concat (imap (fun k => paths (i + k)%nat) ys) /\ Forall2 E l ys)
    (fun c => comp_map i (f c) l) (fun _ c => comp_map i (f c) l).
Proof.
  revert i. induction l as [|x l IH]; intros i Hf; cbn [comp_map].
  { by apply tracked_ret. }
  eapply tracked_bind with (k := fun y c => comp_map (S i) (f c) l ≫= fun ys => mret (y :: ys))
    (k' := fun _ y c => comp_map (S i) (f c) l ≫= fun ys => mret (y :: ys)).
  { apply Hf. by left. }
  intros tr y [Hp HE]. eapply tracked_bind with (k := fun ys _ => mret (y :: ys))
    (k' := fun v ys _ => mret (sub v i y :: ys)).
  { apply IH. intros j z Hz. apply Hf. by right. }
  intros tr' ys [Hps HEs]. apply tracked_ret.
  - rewrite app_nil_r, fmap_app, imap_shift. cbn [concat]. split_and!.
    + by rewrite Hp, Hps.
    + by constructor.
    + intros v Hfi. rewrite <- (Nat.add_0_r i). by apply (Hfi 0%nat).
    + intros v Hfi k z Hk. replace (S i + k)%nat with (i + S k)%nat by lia. by apply Hfi.
  - intros v. by rewrite imap_shift.
Qed.

Lemma tracked_map_plain {A B} (sub : bmap string -> nat -> B -> B) (paths : nat -> B -> list string)
    (E : A -> B -> Prop) f l :
  (forall i x, x ∈ l -> tracked (fun v => sub v i) always
    (fun tr y => tr.*1 ≡ₚ paths i y /\ E x y) (fun c => f c i x) (fun _ c => f c i x)) ->
  tracked (fun v ys => imap (sub v) ys) always
    (fun tr ys => tr.*1 ≡ₚ concat (imap paths ys) /\ Forall2 E l ys)
    (fun c => comp_map 0 (f c) l) (fun _ c => comp_map 0 (f c) l).
Proof.
  intros Hf. eapply tracked_conseq.
  - apply (tracked_map sub (fun _ _ _ => True) paths E f 0 l). exact Hf.
  - intros tr a [Hp HE]. split_and!; [done|done|done|]. by intros v _ k y _.
Qed.

(** ** Distinct keys *)

(** Every mapping of the tree has distinct keys. *)
Inductive unique_keys (node : SpannedValue) : Prop :=
| unique_keys_intro :
    (forall vs, sv_value node = YSequence vs -> Forall unique_keys vs) ->
    (forall es, sv_value node = YMapping es ->
       NoDup (entry_key <$> es) /\ Forall (fun e => unique_keys (entry_value e)) es) ->
    unique_keys node.

Lemma lays_out_unique lim :
  (forall depth evs v, lays_out lim depth evs v -> unique_keys v) /\
  (forall depth evs vs, lays_values lim depth evs vs -> Forall unique_keys vs) /\
  (forall depth evs es, lays_entries lim depth evs es ->
     Forall (fun e => unique_keys (entry_value e)) es).
Proof.
  apply lays_mutind; try (by constructor).
  - intros depth ev text style v _ _ _ Hr. unfold resolve_scalar in Hr.
    constructor; cbn; intros ? ->; by repeat case_match.
  - intros depth st en evs vs _ _ _ _ Hvs _. constructor; cbn; [by intros ? [= <-]|done].
  - intros depth st en evs es _ _ _ _ Hes _ Hn. constructor; cbn; [done|by intros ? [= <-]].
Qed.

Lemma parse_strict_unique `{YamlParser} source lim root :
  limits_wf lim -> parse_strict source lim = Ok root -> unique_keys root.
Proof.
  intros Hw. unfold parse_strict. intros ([] & _ & Hx)%bind_ok. cbv zeta in Hx.
  apply bind_ok in Hx as ([] & _ & Hx). apply bind_ok in Hx as (st & _ & Hx).
  apply bind_ok in Hx as ([] & _ & [Hl _]%build_tree_ok); [|done].
  by eapply lays_out_unique.
Qed.

(** A view of a node with distinct keys. *)
Definition view_unique (v : MappingView) : Prop :=
  Forall (fun e => unique_keys (entry_value e)) (mv_entries v).

Lemma view_new_ok node path v :
  view_new node path = Ok v -> unique_keys node -> view_unique v /\ mv_path v = path.
Proof.
  unfold view_new. intros Hv [_ Hm]. destruct (sv_value node); try done. injection Hv as <-.
  split; [|done]. by apply Hm.
Qed.

Lemma take_entry_unique key es v rest :
  take_entry key es = Some (v, rest) -> Forall (fun e => unique_keys (entry_value e)) es ->
  unique_keys v /\ Forall (fun e => unique_keys (entry_value e)) rest.
Proof.
  revert v rest. induction es as [|e es IH]; intros v rest; [done|]. cbn [take_entry].
  intros Ht [He Hes]%Forall_cons. destruct (String.eqb _ _); [by simplify_eq|].
  destruct (take_entry key es) as [[v' rest']|]; [|done]. simplify_eq.
  destruct (IH _ _ eq_refl Hes). split; [done|]. by constructor.
Qed.

Lemma take_key_ok key v o v' :
  take_key key v = (o, v') -> view_unique v ->
  view_unique v' /\ mv_path v' = mv_path v /\ (forall node, o = Some node -> unique_keys node).
Proof.
  unfold take_key, view_unique. intros Ht Hu.
  destruct (take_entry key (mv_entries v)) as [[n rest]|] eqn:E; simplify_eq; cbn.
  - destruct (take_entry_unique _ _ _ _ E Hu). split_and!; [done|done|]. by intros ? [= <-].
  - done.
Qed.

Lemma required_ok key v node v' :
  required key v = Ok (node, v') -> view_unique v ->
  view_unique v' /\ mv_path v' = mv_path v /\ unique_keys node.
Proof.
  unfold required. destruct (take_key key v) as [[n|] v1] eqn:E; [|done]. intros [= <- <-] Hu.
  destruct (take_key_ok _ _ _ _ E Hu) as (? & ? & Hn). auto.
Qed.

(** ** Processes *)

Lemma required_string_ok key v s v' :
  required_string key v = Ok (s, v') -> view_unique v -> view_unique v' /\ mv_path v' = mv_path v.
Proof.
  unfold required_string. intros ([n v1] & Hr & Hs)%bind_ok Hu.
  apply bind_ok in Hs as (t & _ & [= <- <-]). by destruct (required_ok _ _ _ _ Hr Hu) as (? & ? & _).
Qed.

Lemma optional_ok {A} (f : string -> SpannedValue -> result compile_fault A) key v o v' :
  optional f key v = Ok (o, v') -> view_unique v -> view_unique v' /\ mv_path v' = mv_path v.
Proof.
  unfold optional. destruct (take_key key v) as [[n|] v1] eqn:E; intros Ho Hu;
    destruct (take_key_ok _ _ _ _ E Hu) as (? & ? & _).
  - by apply bind_ok in Ho as (a & _ & [= <- <-]).
  - by injection Ho as <- <-.
Qed.

Lemma concat_imap_const {A B} (f : nat -> B) (l : list A) (i : nat) :
  concat (imap (fun k _ => [f (i + k)%nat]) l) = imap (fun k _ => f (i + k)%nat) l.
Proof. apply (concat_imap_single (fun k _ => f (i + k)%nat)). Qed.

Lemma tracked_args base v0 :
  mv_path v0 = base -> view_unique v0 ->
  tracked (fun v (r : option (list string) * MappingView) =>
      ((fun l => imap (fun i a => value_at v (arg_path base i) a) l) <$> fst r, snd r)) always
    (fun tr r => tr.*1 ≡ₚ imap (fun i _ => arg_path base i) (default [] (fst r)) /\
       view_unique (snd r) /\ mv_path (snd r) = base)
    (fun c => optional_resolved_sequence c "args" v0) (fun _ c => optional_resolved_sequence c "args" v0).
Proof.
  intros Hp Hu. unfold optional_resolved_sequence.
  destruct (take_key "args" v0) as [[node|] v1] eqn:Et;
    destruct (take_key_ok _ _ _ _ Et Hu) as (Hu1 & Hp1 & _).
  2: { apply tracked_ret; [|done]. cbn. by rewrite Hp1, Hp. }
  destruct (sv_value node) eqn:En; try by intros ????.
  assert (forall i, field_path v1 "args" +:+ "[" +:+ fmt_nat i +:+ "]" = arg_path base i) as Hpath.
  { intros i. unfold field_path, arg_path. by rewrite Hp1, Hp, !sapp_assoc. }
  eapply tracked_plain with (k := fun ss _ => mret (Some ss, v1)) (k' := fun _ ss _ => mret (Some ss, v1)).
  { eapply (tracked_map_plain (fun v i s => value_at v (arg_path base i) s)
      (fun i _ => [arg_path base i]) (fun _ _ => True)). intros i x _.
    eapply tracked_conseq; [apply tracked_string|].
    intros tr a Ha. cbn beta in Ha. rewrite Hpath in Ha.
    split_and!; [by rewrite Ha|done|intros v; by rewrite Hpath|done]. }
  intros tr a [Ha _]. apply tracked_ret; [|done]. rewrite app_nil_r, Ha. cbn [fst snd default].
  rewrite Hp1, Hp. split_and!; [|done|done]. by rewrite (concat_imap_single (fun i _ => arg_path base i)).
Qed.

(** *** Environments *)

Definition map_values (g : string -> string -> string) (m : bmap string) : bmap string :=
  (fun kv => (fst kv, g (fst kv) (snd kv))) <$> m.

Lemma binsert_map g k v m : map_values g (binsert k v m) = binsert k (g k v) (map_values g m).
Proof.
  induction m as [|[k' v'] m IH]; [done|]. unfold map_values in *. rewrite fmap_cons.
  cbn [binsert fst snd]. destruct (String.eqb k' k); [done|]. destruct (str_ltb k k'); [done|].
  rewrite fmap_cons. by rewrite IH.
Qed.

Lemma collect_map_values g l : map_values g (collect_map l) = collect_map (map_values g l).
Proof.
  unfold collect_map. change (@nil (string * string)) with (map_values g []) at 2.
  generalize (@nil (string * string)). induction l as [|[k v] l IH]; intros m; [done|].
  cbn [foldl fst snd]. rewrite IH, binsert_map. unfold map_values. by rewrite fmap_cons.
Qed.

Lemma binsert_perm {V} k (v : V) m : k ∉ m.*1 -> binsert k v m ≡ₚ (k, v) :: m.
Proof.
  induction m as [|[k' v'] m IH]; [done|]. cbn. intros Hk.
  destruct (String.eqb_spec k' k) as [->|Hne]; [destruct Hk; by left|].
  destruct (str_ltb k k'); [done|]. rewrite IH by (intros ?; apply Hk; by right). apply Permutation_swap.
Qed.

Lemma collect_map_perm {V} (l : list (string * V)) : NoDup l.*1 -> collect_map l ≡ₚ l.
Proof.
  intros N. unfold collect_map.
  assert (forall m, NoDup (l ++ m).*1 -> foldl (fun m e => binsert e.1 e.2 m) m l ≡ₚ l ++ m) as Hg.
  { clear N. induction l as [|[k v] l IH]; intros m N; [done|]. cbn. cbn in N.
    apply NoDup_cons in N as [Hk N].
    assert (binsert k v m ≡ₚ (k, v) :: m) as Hb.
    { apply binsert_perm. intros Hm. apply Hk. rewrite fmap_app, elem_of_app. by right. }
    rewrite IH.
    - rewrite Hb. by rewrite Permutation_middle.
    - rewrite Hb, <- Permutation_middle. cbn. by apply NoDup_cons. }
  rewrite Hg; by rewrite app_nil_r.
Qed.

Definition env_path (base key : string) : string := base +:+ ".env." +:+ key.

Lemma tracked_env base v0 :
  mv_path v0 = base -> view_unique v0 ->
  tracked (fun v (r : option (bmap string) * MappingView) =>
      (map_values (fun k s => value_at v (env_path base k) s) <$> fst r, snd r)) always
    (fun tr r => tr.*1 ≡ₚ env_path base <$> (default [] (fst r)).*1 /\
       bmap_wf (default [] (fst r)) /\ view_unique (snd r) /\ mv_path (snd r) = base)
    (fun c => optional_resolved_mapping c "env" v0) (fun _ c => optional_resolved_mapping c "env" v0).
Proof.
  intros Hp Hu. unfold optional_resolved_mapping.
  destruct (take_key "env" v0) as [[node|] v1] eqn:Et;
    destruct (take_key_ok _ _ _ _ Et Hu) as (Hu1 & Hp1 & Hn).
  2: { apply tracked_ret; [|done]. cbn. rewrite Hp1, Hp. split_and!; try done. constructor. }
  destruct (sv_value node) eqn:En; try by intros ????.
  assert (forall k, field_path v1 "env" +:+ "." +:+ k = env_path base k) as Hpath.
  { intros k. unfold field_path, env_path. by rewrite Hp1, Hp, !sapp_assoc. }
  eapply tracked_plain with (k := fun kvs _ => mret (Some (collect_map kvs), v1))
    (k' := fun _ kvs _ => mret (Some (collect_map kvs), v1)).
  { eapply (tracked_map_plain (fun v _ kv => (fst kv, value_at v (env_path base (fst kv)) (snd kv)))
      (fun _ kv => [env_path base (fst kv)]) (fun e kv => entry_key e = fst kv)
      (fun c _ e => value ← compile_resolved_string c (entry_value e)
              (field_path v1 "env" +:+ "." +:+ entry_key e); mret (entry_key e, value))).
    intros i x _. eapply tracked_plain with (k := fun s _ => mret (entry_key x, s))
      (k' := fun _ s _ => mret (entry_key x, s)); [apply tracked_string|].
    intros tr a Ha. cbn beta in Ha. apply tracked_ret; [|intros v; by rewrite Hpath].
    rewrite app_nil_r, Ha, Hpath. done. }
  intros tr kvs [Ha HE]. apply tracked_ret.
  - rewrite app_nil_r, Ha. cbn [fst snd default]. split_and!; [|apply collect_map_wf|done|congruence].
    rewrite (concat_imap_single (fun _ kv => env_path base (fst kv))), imap_const.
    destruct (Hn node eq_refl) as [_ Hm]. destruct (Hm _ En) as [N _].
    assert (entry_key <$> entries = kvs.*1) as Ek.
    { clear -HE. induction HE; [done|]. rewrite !fmap_cons. congruence. }
    rewrite collect_map_perm by by rewrite <- Ek. by rewrite <- list_fmap_compose.
  - intros v. cbn [fst snd fmap option_fmap option_map]. rewrite collect_map_values, imap_const. done.
Qed.

Definition process_paths (base : string) (p : ProcessStep) : list string :=
  (base +:+ ".program") :: imap (fun i _ => arg_path base i) (ps_args p)
    ++ (env_path base <$> (ps_env p).*1).

Lemma tracked_process node step_path span :
  unique_keys node ->
  let base := step_path +:+ ".process" in
  tracked (fun v p => sub_process v base p) always
    (fun tr p => tr.*1 ≡ₚ process_paths base p /\ bmap_wf (ps_env p))
    (fun c => compile_process c node step_path span) (fun _ c => compile_process c node step_path span).
Proof.
  intros Hu base. unfold compile_process. fold base. cbv zeta.
  apply tracked_lift. intros v0 Hv0. destruct (view_new_ok _ _ _ Hv0 Hu) as [Hu0 Hp0].
  apply tracked_lift. intros [pn v1] Hv1. destruct (required_ok _ _ _ _ Hv1 Hu0) as (Hu1 & Hp1 & _).
  eapply tracked_plain with (k := fun program c => _) (k' := fun _ program c => _);
    [apply tracked_string|].
  intros tr1 program Ht1. cbn beta in Ht1.
  eapply tracked_plain with (k := fun r c => _) (k' := fun v r c => _);
    [apply (tracked_args base); [by rewrite Hp1, Hp0|done]|].
  intros tr2 [args v2] (Ht2 & Hu2 & Hp2). cbn [fst snd] in Ht2, Hu2, Hp2.
  eapply tracked_plain with (k := fun r c => _) (k' := fun v r c => _);
    [by apply (tracked_env base)|].
  intros tr3 [env v3] (Ht3 & Hw & Hu3 & Hp3). cbn [fst snd] in Ht3, Hw, Hu3, Hp3.
  apply tracked_lift. intros [mode v4] _. apply tracked_lift. intros md _.
  apply tracked_lift. intros [timeout v5] _. apply tracked_lift. intros [] _.
  apply tracked_ret.
  - cbn [fst ps_env]. split; [|done]. rewrite app_nil_r, !fmap_app, Ht1, Ht2, Ht3. done.
  - intros v. unfold sub_process. cbn. f_equal; [by destruct args|by destruct env].
Qed.

(** ** Steps *)

(** The checks the compiler makes after substitution; the validator repeats them. *)
Definition step_fine (s : Step) : Prop :=
  match s with Checkout c => checkout_validate (ck_spec c) = Ok tt | _ => True end.

Lemma tracked_checkout node step_path span :
  let path := step_path +:+ ".checkout.commit" in
  let sub v c := Build_CheckoutStep (set_commit (ck_spec c) (value_at v path (co_commit (ck_spec c))))
    (ck_source_span c) in
  tracked sub (fun v c => checkout_validate (ck_spec (sub v c)) = Ok tt)
    (fun tr _ => tr.*1 ≡ₚ [path])
    (fun c => compile_checkout c node step_path span) (fun _ c => compile_checkout c node step_path span).
Proof.
  intros path sub. unfold compile_checkout. cbv zeta.
  apply tracked_lift. intros v0 _. apply tracked_lift. intros [id v1] _.
  apply tracked_lift. intros [digest v2] _. apply tracked_lift. intros [reference v3] _.
  destruct (take_key "commit" v3) as [[cn|] v4]; [|by intros ????].
  eapply tracked_plain with (k := fun r c => _) (k' := fun v r c => _);
    [apply tracked_string|].
  intros tr commit Ht. cbn beta in Ht. apply tracked_lift. intros [destination v5] _.
  apply tracked_lift. intros [timeout v6] _. apply tracked_lift. intros [] _.
  assert ((step_path +:+ ".checkout") +:+ ".commit" = path) as Hp by apply sapp_assoc.
  rewrite Hp in *.
  apply (tracked_check _ _ _ (Build_CheckoutStep _ _) (fun v => Build_CheckoutStep _ _) _ (fun v => _)).
  - intros _ _. by rewrite app_nil_r, Ht.
  - intros v. done.
  - intros v Hf. cbn in Hf. unfold checked_by. eexists. apply map_err_ok. exact Hf.
Qed.

Lemma process_fields i j p :
  (step_fields i j (Process p)).*1 = process_paths (process_base i j) p.
Proof.
  cbn [step_fields]. unfold process_paths. rewrite fmap_cons, fmap_app, fmap_imap.
  cbn [fst]. f_equal. f_equal. by rewrite <- !list_fmap_compose.
Qed.

Lemma tracked_step `{External} i j node :
  unique_keys node ->
  tracked (fun v s => sub_step v i j s) (fun v s => step_fine (sub_step v i j s))
    (fun tr s => tr.*1 ≡ₚ (step_fields i j s).*1 /\ env_wf s)
    (fun c => compile_step c (stage_path i) j node) (fun _ c => compile_step c (stage_path i) j node).
Proof.
  intros Hu. unfold compile_step. cbv zeta.
  change (stage_path i +:+ ".steps[" +:+ fmt_nat j +:+ "]") with (step_path i j).
  apply tracked_lift. intros v0 Hv0. destruct (view_new_ok _ _ _ Hv0 Hu) as [Hu0 _].
  destruct (take_key "process" v0) as [process v1] eqn:E1.
  destruct (take_key_ok _ _ _ _ E1 Hu0) as (Hu1 & _ & Hpn).
  destruct (take_key "connector_intent" v1) as [connector v2].
  destruct (take_key "cache_intent" v2) as [cache v3].
  destruct (take_key "input_intent" v3) as [input v4].
  destruct (take_key "checkout" v4) as [checkout v5].
  apply tracked_lift. intros [] _.
  destruct process as [pn|], connector, cache, input, checkout as [cn|]; try by intros ????.
  - eapply tracked_plain with (k := fun p c => mret (Process p)) (k' := fun _ p c => mret (Process p));
      [by apply tracked_process, Hpn|].
    intros tr p [Ht Hw]. apply tracked_ret; [|done]. rewrite app_nil_r, process_fields. done.
  - apply tracked_lift. intros x _. by apply tracked_ret.
  - apply tracked_lift. intros x _. by apply tracked_ret.
  - apply tracked_lift. intros x _. by apply tracked_ret.
  - eapply tracked_bind with (k := fun p c => mret (Checkout p)) (k' := fun _ p c => mret (Checkout p));
      [apply tracked_checkout|].
    intros tr p Ht. apply tracked_ret; [|done]. rewrite app_nil_r. done.
Qed.

(** ** Stages *)

Lemma tracked_steps `{External} i node :
  unique_keys node ->
  tracked (fun v ss => imap (sub_step v i) ss)
    (fun v ss => forall j s, ss !! j = Some s -> step_fine (sub_step v i j s))
    (fun tr ss => tr.*1 ≡ₚ concat (imap (fun j s => (step_fields i j s).*1) ss) /\ Forall env_wf ss)
    (fun c => compile_steps c node (stage_path i)) (fun _ c => compile_steps c node (stage_path i)).
Proof.
  intros [Hs _]. unfold compile_steps. destruct (sv_value node) eqn:En; try by intros ????.
  destruct (llen _ =? 0); [by intros ????|]. eapply tracked_conseq.
  - apply (tracked_map (fun v j s => sub_step v i j s) (fun v j s => step_fine (sub_step v i j s))
      (fun j s => (step_fields i j s).*1) (fun _ s => env_wf s) (fun c => compile_step c (stage_path i))
      0 values).
    intros j x Hx. apply tracked_step. specialize (Hs _ eq_refl). rewrite Forall_forall in Hs. auto.
  - intros tr ss [Ht HE]. split_and!; [done| |done|done].
    clear -HE. induction HE; by constructor.
Qed.

Lemma tracked_stage `{External} i node :
  unique_keys node ->
  tracked (fun v s => sub_stage v i s) (fun v s => Forall step_fine (stage_steps (sub_stage v i s)))
    (fun tr s => tr.*1 ≡ₚ fields_of_steps i s /\ Forall env_wf (stage_steps s))
    (fun c => compile_stage c i node) (fun _ c => compile_stage c i node).
Proof.
  intros Hu. unfold compile_stage. cbv zeta.
  apply tracked_lift. intros v0 Hv0. destruct (view_new_ok _ _ _ Hv0 Hu) as [Hu0 _].
  apply tracked_lift. intros [id v1] H1. destruct (required_string_ok _ _ _ _ H1 Hu0) as [Hu1 _].
  apply tracked_lift. intros [nm v2] H2. destruct (required_string_ok _ _ _ _ H2 Hu1) as [Hu2 _].
  apply tracked_lift. intros [im v3] H3. destruct (optional_ok _ _ _ _ _ H3 Hu2) as [Hu3 _].
  apply tracked_lift. intros [sn v4] H4. destruct (required_ok _ _ _ _ H4 Hu3) as (_ & _ & Hsn).
  destruct (take_key "artifacts" v4) as [an v5].
  apply tracked_lift. intros [] _. apply tracked_lift. intros [] _.
  eapply tracked_bind with (k := fun steps c => _) (k' := fun _ steps c => _);
    [by apply tracked_steps|].
  intros tr steps [Ht Hw]. apply tracked_lift. intros artifacts _.
  apply tracked_ret; [|done]. rewrite app_nil_r. split; [done|].
  intros v Hf j s Hj. cbn [sub_stage stage_steps] in Hf. rewrite Forall_lookup in Hf.
  apply (Hf j). by rewrite list_lookup_imap, Hj.
Qed.

Lemma tracked_stages `{External} node :
  unique_keys node ->
  tracked (fun v ss => imap (sub_stage v) ss)
    (fun v ss => Forall (fun s => Forall step_fine (stage_steps s)) (imap (sub_stage v) ss))
    (fun tr ss => tr.*1 ≡ₚ concat (imap fields_of_steps ss) /\
       Forall (fun s => Forall env_wf (stage_steps s)) ss)
    (fun c => compile_stages c node) (fun _ c => compile_stages c node).
Proof.
  intros [Hs _]. unfold compile_stages. destruct (sv_value node) eqn:En; try by intros ????.
  destruct (llen _ =? 0); [by intros ????|]. destruct (_ <? _); [by intros ????|].
  intros c1 es1 a es1' Hm%map_err_ok.
  destruct (tracked_map (fun v i s => sub_stage v i s)
      (fun v i s => Forall step_fine (stage_steps (sub_stage v i s))) fields_of_steps
      (fun _ s => Forall env_wf (stage_steps s)) (fun c => compile_stage c) 0 values) with
      (c1 := c1) (es1 := es1) (a := a) (es1' := es1') as (tr & Hes & [Ht HE] & Hr); [|exact Hm|].
  { intros i x Hx. apply tracked_stage. specialize (Hs _ eq_refl). rewrite Forall_forall in Hs. auto. }
  exists tr. split_and!; [done|done| |].
  { clear -HE. induction HE; by constructor. }
  intros c2 v es2 Hag Hl. specialize (Hr c2 v es2 Hag Hl). cbn beta in Hr.
  destruct (comp_map 0 (compile_stage c2) values es2) as [[b es2']|]; [done|]. cbn.
  intros Hres Hf. apply Hr; [done|]. intros k s Hk. rewrite Forall_lookup in Hf.
  apply (Hf k). by rewrite list_lookup_imap, Hk.
Qed.

(** ** Notification targets *)

Lemma tracked_target i node :
  tracked (fun v t => sub_target v i t) (fun v t => notify_validate (sub_target v i t) = Ok tt)
    (fun tr t => tr.*1 ≡ₚ (notify_fields i t).*1)
    (fun c => compile_target c i node) (fun _ c => compile_target c i node).
Proof.
  unfold compile_target. cbv zeta.
  destruct (sv_value node) as [| | | | |[|entry [|]]]; try by intros ????.
  eapply tracked_plain with (s1 := fun v t => sub_target v i t)
    (P := fun tr t => tr.*1 ≡ₚ (notify_fields i t).*1) (k := fun t c => _) (k' := fun _ t c => _).
  - destruct (String.eqb_spec (entry_key entry) "github_status") as [->|].
    + apply tracked_lift. intros v0 _. apply tracked_lift. intros [id v1] _.
      apply tracked_lift. intros [cn v2] _. apply tracked_lift. intros [context v3] _.
      apply tracked_lift. intros [repository v4] _. apply tracked_lift. intros [] _.
      eapply tracked_plain with (k := fun t c => _) (k' := fun _ t c => _); [apply tracked_string|].
      intros tr commit Ht. cbn beta in Ht.
      assert ((("$.notify[" +:+ fmt_nat i +:+ "]") +:+ "." +:+ "github_status") +:+ ".commit"
        = notify_path i) as Hp by (unfold notify_path; by rewrite !sapp_assoc).
      rewrite Hp in *. apply tracked_ret; [|done]. by rewrite app_nil_r, Ht.
    + destruct (String.eqb _ _); [|by intros ????]. apply tracked_lift. intros v0 _.
      apply tracked_lift. intros [id v1] _. apply tracked_lift. intros [] _. by apply tracked_ret.
  - intros tr t Ht. apply (tracked_check _ _ _ t (fun v => _) _ (fun v => _)).
    + intros _ _. by rewrite app_nil_r.
    + done.
    + intros v Hf. unfold checked_at. eexists. by apply map_err_ok.
Qed.

Lemma tracked_notify node :
  tracked (fun v ts => imap (sub_target v) ts)
    (fun v ts => Forall (fun t => notify_validate t = Ok tt) (imap (sub_target v) ts))
    (fun tr ts => tr.*1 ≡ₚ concat (imap (fun i t => (notify_fields i t).*1) ts))
    (fun c => compile_notify c node) (fun _ c => compile_notify c node).
Proof.
  unfold compile_notify. destruct node as [node|]; [|by apply tracked_ret].
  destruct (sv_value node); try by intros ????. destruct (_ <? _); [by intros ????|].
  eapply tracked_conseq.
  - apply (tracked_map sub_target (fun v i t => notify_validate (sub_target v i t) = Ok tt)
      (fun i t => (notify_fields i t).*1) (fun _ _ => True) compile_target 0 values).
    intros i x _. eapply tracked_conseq; [apply tracked_target|]. done.
  - intros tr ts [Ht _]. split_and!; [done|done|]. intros v Hf k t Hk. rewrite Forall_lookup in Hf.
    apply (Hf k). by rewrite list_lookup_imap, Hk.
Qed.

(** ** What the validator repeats *)

Lemma validate_stage_fine `{External} m index ids total s total' :
  validate_stage m index ids total s = Ok total' -> Forall step_fine (stage_steps s).
Proof.
  intros Hv. unfold validate_stage in Hv.
  do 8 (apply bind_ok in Hv as ([] & _ & Hv)). cbv zeta in Hv.
  do 3 (apply bind_ok in Hv as ([] & _ & Hv)). apply bind_ok in Hv as ([] & Hs & _).
  rewrite try_for_enum_ok in Hs. apply Forall_lookup. intros k x Hk. specialize (Hs k x Hk).
  destruct x as [p|i|c|i|c]; cbn [step_fine]; try done.
  unfold validate_step in Hs. cbv zeta in Hs. by apply bind_ok in Hs as ([] & _ & Hs%map_err_ok).
Qed.

Lemma validate_pipeline_fine `{External} p :
  validate_pipeline p = Ok tt ->
  Forall (fun s => Forall step_fine (stage_steps s)) (stages p) /\
  Forall (fun t => notify_validate t = Ok tt) (notify p).
Proof.
  intros Hv. split.
  - destruct (validate_needs p Hv) as (_ & _ & index & ids & total & Hs).
    apply Forall_forall. intros s Hin.
    destruct (validate_stages_elem _ _ _ _ _ _ Hs Hin) as (? & ? & ? & ? & Hst).
    by eapply validate_stage_fine.
  - unfold validate_pipeline in Hv. do 6 (apply bind_ok in Hv as ([] & _ & Hv)).
    apply bind_ok in Hv as ([] & Hn & _). destruct (llen (notify p) =? 0) eqn:E.
    + apply Z.eqb_eq in E. destruct (notify p); [constructor|unfold llen in E; cbn in E; lia].
    + apply bind_ok in Hn as ([] & _ & Hn%map_err_ok). unfold validate_targets in Hn.
      apply bind_ok in Hn as ([] & _ & Hn). by rewrite try_for_ok in Hn.
Qed.

(** ** The whole compiler *)

Lemma existsb_imap {A B} (f : B -> bool) (h : A -> bool) (g : nat -> A -> B) l :
  (forall i x, f (g i x) = h x) -> existsb f (imap g l) = existsb h l.
Proof.
  revert g. induction l as [|x l IH]; intros g Hg; [done|]. rewrite imap_cons. cbn [existsb].
  rewrite Hg. f_equal. apply IH. intros i y. apply (Hg (S i)).
Qed.

Lemma choose_schema_sub ps es ss ns values :
  choose_schema ps es (imap (sub_stage values) ss) (imap (sub_target values) ns)
  = choose_schema ps es ss ns.
Proof.
  unfold choose_schema. unfold llen at 1. rewrite length_imap. fold (llen ns).
  assert (forall f, (forall i j x, f (sub_step values i j x) = f x) ->
    any_step f (imap (sub_stage values) ss) = any_step f ss) as Hany.
  { intros f Hf. unfold any_step. apply existsb_imap. intros i s. cbn [sub_stage stage_steps].
    by apply existsb_imap. }
  rewrite (existsb_imap (fun s => negb (llen (stage_artifacts s) =? 0))
    (fun s => negb (llen (stage_artifacts s) =? 0))) by done.
  rewrite (existsb_imap (fun s => match stage_image s with Some _ => true | None => false end)
    (fun s => match stage_image s with Some _ => true | None => false end)) by done.
  rewrite !Hany; [done|by intros ?? []..].
Qed.

(** What the compiler reads of a source before any input matters. *)
Lemma compile_root_split `{External} source_id source root inputs p :
  unique_keys root -> compile_root source_id source root inputs = Ok p ->
  exists stages_node notify_node, unique_keys stages_node /\
  forall inputs' q, compile_root source_id source root inputs' = Ok q <->
  exists vs ctx ss es ns es',
    bind_parameter_values (parameters p) inputs' = Ok (vs, ctx) /\
    compile_stages ctx stages_node [] = Ok (ss, es) /\
    compile_notify ctx notify_node es = Ok (ns, es') /\
    q = Build_PipelineIr (choose_schema (parameters p) (sort_bindings es') ss ns) (name p)
      (parameters p) vs (sort_bindings es') ss ns (provenance p) (source_span p) /\
    validate_pipeline q = Ok tt.
Proof.
  intros Hu. unfold compile_root. intros (view & Hv & Hc)%bind_ok. rewrite Hv.
  destruct (view_new_ok _ _ _ Hv Hu) as [Hu0 _]. cbn [mbind result_bind].
  apply bind_ok in Hc as ([version view1] & Hver & Hc). rewrite Hver. cbn [mbind result_bind].
  assert (view_unique view1) as Hu1.
  { unfold required_integer in Hver. apply bind_ok in Hver as ([n v1] & Hr & Hx).
    apply bind_ok in Hx as (z & _ & [= <- <-]). by apply (required_ok _ _ _ _ Hr). }
  apply bind_ok in Hc as ([] & -> & Hc). cbn [mbind result_bind].
  apply bind_ok in Hc as ([n view2] & Hn & Hc). rewrite Hn. cbn [mbind result_bind].
  destruct (required_string_ok _ _ _ _ Hn Hu1) as [Hu2 _].
  destruct (take_key "parameters" view2) as [pn view3] eqn:E3.
  destruct (take_key_ok _ _ _ _ E3 Hu2) as (Hu3 & _ & _).
  apply bind_ok in Hc as ([sn view4] & Hs & Hc). rewrite Hs. cbn [mbind result_bind].
  destruct (required_ok _ _ _ _ Hs Hu3) as (_ & _ & Hsn).
  destruct (take_key "notify" view4) as [nn view5].
  apply bind_ok in Hc as ([] & -> & Hc). cbn [mbind result_bind].
  apply bind_ok in Hc as (ps & -> & Hc). cbn [mbind result_bind].
  apply bind_ok in Hc as ([vs ctx] & _ & Hc). apply bind_ok in Hc as ([ss es] & _ & Hc).
  apply bind_ok in Hc as ([ns es'] & _ & Hc). cbv zeta in Hc.
  apply bind_ok in Hc as ([] & _ & [= <-]). cbn [parameters name provenance source_span].
  exists sn, nn. split; [done|]. clear. intros inputs' q. split.
  - intros ([vs ctx] & Hb & Hc)%bind_ok. apply bind_ok in Hc as ([ss es] & Hs & Hc).
    apply bind_ok in Hc as ([ns es'] & Hn & Hc). cbv zeta in Hc.
    apply bind_ok in Hc as ([] & Hval%map_err_ok & [= <-]). exists vs, ctx, ss, es, ns, es'. done.
  - intros (vs & ctx & ss & es & ns & es' & -> & Hs & Hn & -> & Hval). cbn [mbind result_bind].
    rewrite Hs. cbn [mbind result_bind]. rewrite Hn. cbn [mbind result_bind]. by rewrite Hval.
Qed.

Lemma sort_bindings_perm l : sort_bindings l ≡ₚ l.
Proof.
  induction l as [|b l IH]; [done|]. cbn. fold (sort_bindings l).
  assert (forall m, insert_binding b m ≡ₚ b :: m) as Hi; [|by rewrite Hi, IH].
  clear. induction m as [|c m IH]; [done|]. cbn. destruct (str_ltb _ _); [|done].
  rewrite IH. apply Permutation_swap.
Qed.

Lemma elem_bindings tr b :
  b ∈ bindings tr <-> (eb_path b, Some (eb_expression b)) ∈ tr.
Proof.
  unfold bindings. rewrite list_elem_of_omap. split.
  - intros ([path o] & Hin & He). destruct o; by simplify_eq/=.
  - intros Hin. eexists. split; [exact Hin|]. by destruct b.
Qed.

Lemma resolves_perm c b1 b2 : b1 ≡ₚ b2 -> resolves c b1 -> resolves c b2.
Proof. intros Hp Hr b Hb. apply Hr. by rewrite Hp. Qed.

(** The values of the sorted bindings of a run agree with its trace. *)
Lemma resolved_agrees context tr es :
  NoDup tr.*1 -> es ≡ₚ bindings tr -> NoDup (eb_path <$> es) ->
  agrees (resolved_values context es) context tr.
Proof.
  intros N Hp Ne path o Hin. destruct o as [e|]; cbn.
  - apply (resolved_values_elem context es (Build_ExpressionBinding path e)); [done|].
    rewrite Hp. by apply elem_bindings.
  - apply resolved_values_none; [done|]. intros (b & -> & Hb)%list_elem_of_fmap.
    rewrite Hp in Hb. apply elem_bindings in Hb. rewrite NoDup_alt in N.
    apply list_elem_of_lookup in Hin as [i Hi], Hb as [j Hj].
    assert (i = j) as -> by (apply (N i j (eb_path b)); by rewrite list_lookup_fmap, ?Hi, ?Hj).
    congruence.
Qed.

(** A compiled pipeline and the fields its compilation resolved. *)
Lemma compiled_traces `{External} sn nn ctx ss es ns es' p :
  unique_keys sn -> compile_stages ctx sn [] = Ok (ss, es) -> compile_notify ctx nn es = Ok (ns, es') ->
  stages p = ss -> notify p = ns -> expressions p = sort_bindings es' ->
  validate_pipeline p = Ok tt ->
  envs_wf p /\
  forall c2 values, values = resolved_values c2 (expressions p) ->
  match compile_stages c2 sn [] with
  | Ok (ss2, es2) => ss2 = imap (sub_stage values) (stages p) /\
      match compile_notify c2 nn es2 with
      | Ok (ns2, es2') => ns2 = imap (sub_target values) (notify p) /\ es2' = es' /\
          resolves c2 (expressions p)
      | Err _ => resolves c2 (expressions p) ->
          ~ Forall (fun t => notify_validate t = Ok tt) (imap (sub_target values) (notify p))
      end
  | Err _ => resolves c2 (expressions p) ->
      ~ Forall (fun s => Forall step_fine (stage_steps s)) (imap (sub_stage values) (stages p))
  end.
Proof.
  intros Hu Hs Hn <- <- Ees Hv.
  destruct (tracked_stages sn Hu _ _ _ _ Hs) as (tr1 & E1 & [Hp1 Hw] & Hr1).
  destruct (tracked_notify nn _ _ _ _ Hn) as (tr2 & E2 & Hp2 & Hr2).
  assert (envs_wf p) as W.
  { intros s x Hin Hx. rewrite Forall_forall in Hw. specialize (Hw s Hin).
    rewrite Forall_forall in Hw. auto. }
  split; [done|]. intros c2 values ->.
  assert (expressions p ≡ₚ bindings (tr1 ++ tr2)) as Hperm.
  { by rewrite Ees, sort_bindings_perm, E2, E1, bindings_app. }
  assert (agrees (resolved_values c2 (expressions p)) c2 (tr1 ++ tr2)) as [Ha1 Ha2]%agrees_app.
  { apply resolved_agrees; [|done|by apply valid_binding_paths].
    rewrite fmap_app, Hp1, Hp2. by apply (fields_of_nodup p). }
  rewrite bindings_app in Hperm.
  specialize (Hr1 c2 _ [] Ha1 eq_refl). destruct (compile_stages c2 sn []) as [[ss2 es2]|].
  - destruct Hr1 as (-> & -> & Hres1). split; [done|].
    specialize (Hr2 c2 _ ([] ++ bindings tr1) Ha2 ltac:(by rewrite E1)).
    destruct (compile_notify c2 nn _) as [[ns2 es2']|].
    + destruct Hr2 as (-> & -> & Hres2). split_and!; [done|by rewrite E2, E1|].
      eapply resolves_perm; [symmetry; exact Hperm|]. by apply resolves_app.
    + intros [_ Hr]%(resolves_perm _ _ _ Hperm)%resolves_app. by apply Hr2.
  - intros [Hr _]%(resolves_perm _ _ _ Hperm)%resolves_app. by apply Hr1.
Qed.

(** C18. Re-instantiation is recompilation: once a source has compiled, giving
    its pipeline other inputs returns a pipeline exactly when the source
    compiles under those inputs, and it is the same pipeline.  Whoever stores
    the compiled template loses nothing by dropping the source. *)
Theorem instantiate_recompiles `{External} `{YamlParser} source_id source limits inputs p :
  limits_wf limits ->
  compile_strict_yaml_with_parameters source_id source limits inputs = Ok p ->
  forall inputs' q,
  instantiate_pipeline p inputs' = Ok q <->
  compile_strict_yaml_with_parameters source_id source limits inputs' = Ok q.
Proof.
  intros Hw (root & Hroot%map_err_ok & Hc)%bind_ok inputs' q.
  unfold compile_strict_yaml_with_parameters. rewrite Hroot. cbn [map_err mbind result_bind].
  apply parse_strict_unique in Hroot as Hu; [|done].
  destruct (compile_root_split _ _ _ _ _ Hu Hc) as (sn & nn & Husn & Hroots).
  pose proof Hc as Hp. apply Hroots in Hp as (vs & ctx & ss & es & ns & es' & _ & Hs & Hn & Ep & Hv).
  destruct (compiled_traces sn nn ctx ss es ns es' p) as [W Hrun]; try done; [by rewrite Ep..|].
  assert (schema p = choose_schema (parameters p) (expressions p) (stages p) (notify p)) as Hsch
    by (by rewrite Ep). assert (expressions p = sort_bindings es') as Hes by (by rewrite Ep).
  rewrite Hroots, (instantiate_ok p inputs' q W). clear Ep. split.
  - intros (_ & vs2 & c2 & Hb & Hres & -> & Hq).
    destruct (validate_pipeline_fine _ Hq) as [Hf1 Hf2]. specialize (Hrun c2 _ eq_refl).
    destruct (compile_stages c2 sn []) as [[ss2 es2]|] eqn:Es; [|by destruct (Hrun Hres)].
    destruct Hrun as [-> Hrun]. destruct (compile_notify c2 nn es2) as [[ns2 es2']|] eqn:En;
      [|by destruct (Hrun Hres)]. destruct Hrun as (-> & -> & _).
    exists vs2, c2. do 4 eexists. split; [exact Hb|]. split; [exact Es|]. split; [exact En|].
    split; [|exact Hq]. unfold sub_pipeline. by rewrite <- Hes, choose_schema_sub, <- Hsch.
  - intros (vs2 & c2 & ss2 & es2 & ns2 & es2' & Hb & Hs2 & Hn2 & -> & Hq).
    specialize (Hrun c2 _ eq_refl). rewrite Hs2, Hn2 in Hrun. destruct Hrun as (-> & -> & -> & Hres).
    split; [exact Hv|]. exists vs2, c2. split; [exact Hb|]. split; [exact Hres|].
    split; [|exact Hq]. unfold sub_pipeline. by rewrite <- Hes, choose_schema_sub, <- Hsch.
Qed.

(** The release pipeline of the example, moved to another target. *)
Definition windows_inputs : bmap ParameterValue :=
  [("target", PString "windows"); ("token", PString "hunter2")].

Definition windows_pipeline : PipelineIr :=
  match compile_release windows_inputs with Ok p => p | Err _ => release_pipeline end.

Lemma instantiate_recompiles_witness :
  instantiate_pipeline (H := Domain.example_external) release_pipeline windows_inputs
  = Ok windows_pipeline.
Proof.
  apply (instantiate_recompiles (H := Domain.example_external) (H0 := doc_parser release_doc)
    "release" "{...}" default_parse_limits (token_inputs "hunter2") release_pipeline
    ltac:(split; discriminate) ltac:(vm_compute; reflexivity) windows_inputs windows_pipeline).
  vm_compute. reflexivity.
Defined.

Lemma windows_pipeline_differs : windows_pipeline <> release_pipeline.
Proof. vm_compute. discriminate. Qed.
