(* ===== verification/CanonicalStages.v ===== *)
(** * Reading back stages, steps and notification targets

    One lemma per reader of [Canonical.v] for steps, stages and notification
    targets: on what the writer wrote of a valid value, it stops at its end and
    leaves the materialized fields of the value. *)

From stdpp Require Import base gmap list strings pretty.
From Stdlib Require Import Ascii ZArith Lia Sorted.
From S2P Require Import Prelude Text Bytes Expression ExpressionEval ExpressionParse.
From S2P Require Import Domain Artifacts PipelineIr Canonical CanonicalReads CanonicalParameters.

Open Scope Z_scope.

(** ** Steps whose every field fits its encoding *)

Definition checkout_codable (c : CheckoutStepSpec) : Prop :=
  Forall short [co_mapping_id c; co_mapping_digest c; co_reference c; co_commit c;
                co_destination c] /\ in_u64 (co_timeout_seconds c) = true.

Definition input_codable (i : InputIntentSpec) : Prop :=
  Forall short [ii_mapping_id i; ii_mapping_digest i] /\ in_u64 (ii_timeout_seconds i) = true.

Definition cache_codable (i : CacheIntentSpec) : Prop :=
  Forall short [ci_mapping_id i; ci_mapping_digest i; ci_logical_key_sha256 i; ci_input_sha256 i] /\
  option_wf short (ci_content_base64 i) /\ in_u64 (ci_timeout_seconds i) = true.

Definition schema_codable (fields : bmap JsonFieldType) : Prop :=
  Forall (fun f => short f.1 /\ is_mapping_identifier f.1 = true) fields /\
  llen fields <= MAX_PARAMETERS.

Definition connector_codable (i : ConnectorIntentStep) : Prop :=
  slen (cn_mapping_id i) < 2 ^ 32 /\
  Forall short [cn_mapping_digest i; cn_effect_key_template i; cn_downstream_control_digest i] /\
  schema_codable (cn_public_input_schema i) /\
  schema_codable (cn_protected_secret_ref_schema i) /\
  schema_codable (cn_expected_public_result_schema i) /\ in_u64 (cn_timeout_seconds i) = true.

Definition process_codable (minor_version : Z) (p : ProcessStep) : Prop :=
  short (ps_program p) /\ Forall short (ps_args p) /\
  Forall (fun e => short e.1 /\ short e.2) (ps_env p) /\
  llen (ps_args p) <= MAX_STEPS /\ llen (ps_env p) <= MAX_STEPS /\
  option_wf (fun t => in_u64 t = true) (ps_timeout_seconds p) /\
  (minor_version < 2 -> ps_mode p = Direct).

Definition step_codable (minor_version : Z) (s : Step) : Prop :=
  match s with
  | Process p => process_codable minor_version p
  | ConnectorIntent i => connector_codable i
  | CacheIntent c => cache_codable (cs_intent c)
  | InputIntent i => input_codable (is_intent i)
  | Checkout c => checkout_codable (ck_spec c)
  end.

(** ** Fields inserted in order *)

Lemma insert_all_app l1 l2 m : insert_all (l1 ++ l2) m = insert_all l2 (insert_all l1 m).
Proof. apply foldl_app. Qed.

Lemma imap_take_S {A B} (f : nat -> A -> B) l k x :
  l !! k = Some x -> imap f (take (S k) l) = imap f (take k l) ++ [f k x].
Proof.
  intros Hk. rewrite (take_S_r _ _ _ Hk), imap_app. simpl. do 3 f_equal.
  rewrite length_take. apply lookup_lt_Some in Hk. lia.
Qed.

Lemma concat_snoc {A} (ls : list (list A)) l : concat (ls ++ [l]) = concat ls ++ l.
Proof. rewrite concat_app. simpl. by rewrite app_nil_r. Qed.

(** ** Short strings of the domain types *)

Lemma short_intro s n : utf8 s -> slen s <= n -> n <= MAX_IR_STRING_BYTES -> short s.
Proof. split; [done|lia]. Qed.

Lemma object_id_short s : is_object_id s = true -> short s.
Proof.
  unfold is_object_id. intros [Hl Hh]%andb_true_iff.
  apply (short_intro _ 64); [|apply orb_true_iff in Hl as [?%Z.eqb_eq|?%Z.eqb_eq]; lia|done].
  eapply byte_class_ascii; [|exact Hh]. apply lower_hex_ascii.
Qed.

Lemma commit_id_short s : is_commit_id s = true -> short s.
Proof.
  unfold is_commit_id. intros H. bool_prop. apply (short_intro _ 128); [|done|done].
  eapply byte_class_ascii; [|eassumption]. apply lower_hex_ascii.
Qed.

Lemma destination_short s : is_valid_destination s = true -> short s.
Proof.
  unfold is_valid_destination. rewrite !andb_true_iff. intros [[[[_ Hl%Z.leb_le] _] Hb] _].
  apply (short_intro _ MAX_DESTINATION_BYTES); [|done|done].
  eapply byte_class_ascii; [|exact Hb]. apply mapping_byte_ascii.
Qed.

Lemma status_context_short s : is_status_context s = true -> short s.
Proof.
  unfold is_status_context. rewrite !andb_true_iff. intros [[[_ Hl%Z.leb_le] _] Hb].
  apply (short_intro _ MAX_STATUS_CONTEXT_BYTES); [|done|done].
  eapply byte_class_ascii; [|exact Hb]. intros c Hc%in_range_true. lia.
Qed.

Lemma repository_part_short s :
  is_repository_part s = true -> all_bytes (fun c => byte_val c <? 128) s = true /\ slen s <= 100.
Proof.
  unfold is_repository_part. rewrite !andb_true_iff. intros [[[_ Hl%Z.leb_le] _] Hb].
  split; [|done]. eapply all_bytes_impl; [|exact Hb]. intros c Hc. apply Z.ltb_lt.
  by apply name_byte_ascii.
Qed.

Lemma repository_short s : is_repository_identity s = true -> short s.
Proof.
  unfold is_repository_identity. pose proof (split_once_spec "/" s) as Hs.
  destruct (split_once "/" s) as [[o n]|]; [|done]. destruct Hs as [-> _]. cbn [forallb]. rewrite !andb_true_iff.
  intros ([Ho Hol]%repository_part_short & [Hn Hnl]%repository_part_short & _).
  apply (short_intro _ 201); [|rewrite slen_app; unfold slen in *; simpl; lia|done].
  apply ascii_utf8. rewrite all_bytes_app, Ho. cbn [all_bytes]. by rewrite Hn.
Qed.

Lemma image_short s : utf8 s -> is_digest_pinned_image s = true -> short s.
Proof.
  intros Hu. unfold is_digest_pinned_image.
  destruct (is_empty s || _) eqn:E; [done|]. apply orb_false_iff in E as [_ E%Z.ltb_ge].
  intros _. by apply (short_intro _ MAX_IMAGE_REFERENCE_BYTES).
Qed.

Lemma artifact_name_short s : validate_name s = Ok tt -> short s.
Proof.
  unfold validate_name. intros ([] & [_ Hl%Z.ltb_ge]%check_ok%orb_false_iff & H)%bind_ok.
  apply bind_ok in H as ([] & _ & H%check_ok%negb_false_iff).
  apply (short_intro _ MAX_ARTIFACT_NAME_BYTES); [|done|done].
  eapply byte_class_ascii; [|exact H]. apply name_byte_ascii.
Qed.

Lemma pattern_short s : utf8 s -> validate_pattern s = Ok tt -> short s.
Proof.
  unfold validate_pattern. intros Hu ([] & [_ Hl%Z.ltb_ge]%check_ok%orb_false_iff & _)%bind_ok.
  by apply (short_intro _ MAX_ARTIFACT_PATTERN_BYTES).
Qed.

(** ** Steps *)

Ltac all_short := repeat first [apply List.Forall_nil | apply List.Forall_cons; [done|]].

Lemma checkout_codable_ok c :
  checkout_validate c = Ok tt -> utf8 (co_reference c) -> in_u64 (co_timeout_seconds c) = true ->
  checkout_codable c.
Proof.
  intros H Hu Ht. unfold checkout_validate in H.
  apply bind_ok in H as ([] & H1%check_ok%negb_false_iff%canonical_mapping_id_short & H).
  apply bind_ok in H as ([] & H2%check_ok%negb_false_iff%sha256_reference_short & H).
  apply bind_ok in H as ([] & H3%check_ok%negb_false_iff & H).
  apply bind_ok in H as ([] & H4%check_ok%negb_false_iff%object_id_short & H).
  apply bind_ok in H as ([] & H5%check_ok%negb_false_iff%destination_short & _).
  assert (short (co_reference c)) as H6.
  { unfold is_valid_reference in H3. rewrite !andb_true_iff in H3.
    apply (short_intro _ MAX_REFERENCE_BYTES); [done| |done]. apply Z.leb_le. apply H3. }
  split; [by all_short|done].
Qed.

Lemma input_codable_ok i :
  input_intent_validate i = Ok tt -> in_u64 (ii_timeout_seconds i) = true -> input_codable i.
Proof.
  intros H Ht. unfold input_intent_validate in H.
  apply bind_ok in H as ([] & H1%check_ok%negb_false_iff%canonical_mapping_id_short & H).
  apply bind_ok in H as ([] & H2%check_ok%negb_false_iff%sha256_reference_short & _).
  split; [by all_short|done].
Qed.

Lemma decoded_content_short `{External} i o :
  decoded_content i = Ok o -> option_wf utf8 (ci_content_base64 i) ->
  option_wf short (ci_content_base64 i).
Proof.
  unfold decoded_content. destruct (ci_operation i), (ci_content_base64 i); try done.
  destruct (_ <? _) eqn:E; [done|]. apply Z.ltb_ge in E. intros _ Hu.
  by apply (short_intro _ (16 * 1024)).
Qed.

Lemma cache_codable_ok `{External} i :
  cache_intent_validate i = Ok tt -> option_wf utf8 (ci_content_base64 i) ->
  in_u64 (ci_timeout_seconds i) = true -> cache_codable i.
Proof.
  intros Hc Hu Ht. unfold cache_intent_validate in Hc.
  apply bind_ok in Hc as ([] & H1%check_ok%negb_false_iff%canonical_mapping_id_short & Hc).
  apply bind_ok in Hc as ([] & H2%check_ok & Hc). rewrite !orb_false_iff, !negb_false_iff in H2.
  destruct H2 as [[H2%sha256_reference_short H3%canonical_sha256_short] H4%canonical_sha256_short].
  apply bind_ok in Hc as ([] & _ & Hc).
  apply bind_ok in Hc as (o & H5%decoded_content_short & _); [|done].
  split; [by all_short|done].
Qed.

Lemma schema_codable_ok path fields :
  validate_field_schema path fields = Ok tt -> schema_codable fields.
Proof.
  unfold validate_field_schema. intros ([] & Hc%check_ok%Z.ltb_ge & Hv)%bind_ok.
  rewrite try_for_ok in Hv. split; [|done]. eapply Forall_impl; [exact Hv|]. intros f Hf.
  apply bind_ok in Hf as ([] & (Hne & Hb & Hu)%validate_identifier_ok & Hl%validate_string_length_ok).
  split; [done|]. apply andb_true_iff. split; [by destruct f.1|done].
Qed.

Lemma connector_codable_ok minor_version base i :
  validate_connector minor_version base i = Ok tt -> step_wf (ConnectorIntent i) ->
  mapping_within MAX_WRITTEN_BYTES (ConnectorIntent i) -> connector_codable i.
Proof.
  intros H (Hu & _ & _ & _ & Ht) Hl. simpl in Hl. unfold MAX_WRITTEN_BYTES in Hl. unfold validate_connector in H.
  apply bind_ok in H as ([] & _ & H).
  apply bind_ok in H as ([] & (_ & _ & Hu')%validate_identifier_ok & H).
  apply bind_ok in H as ([] & Hd%validate_sha256_reference_ok%sha256_reference_short & H).
  apply bind_ok in H as ([] & _ & H).
  apply bind_ok in H as ([] & Hel%validate_string_length_ok & H).
  apply bind_ok in H as ([] & Hs1%schema_codable_ok & H).
  apply bind_ok in H as ([] & Hs2%schema_codable_ok & H).
  apply bind_ok in H as ([] & _ & H). apply bind_ok in H as ([] & Hs3%schema_codable_ok & H).
  apply bind_ok in H as ([] & _ & Hdd%validate_sha256_reference_ok%sha256_reference_short).
  apply Forall_inv in Hu. split; [lia|]. split; [by all_short|done].
Qed.

Lemma process_codable_ok minor_version path p :
  validate_process minor_version path p = Ok tt -> step_wf (Process p) ->
  process_codable minor_version p.
Proof.
  intros H (Hu & Hw & Ht). unfold validate_process in H.
  apply bind_ok in H as ([] & Hm%check_ok & H). apply bind_ok in H as ([] & _ & H).
  apply bind_ok in H as ([] & Hp%validate_string_length_ok & H).
  apply bind_ok in H as ([] & [Hca%Z.ltb_ge Hce%Z.ltb_ge]%check_ok%orb_false_iff & H).
  apply bind_ok in H as ([] & Ha & H). rewrite try_for_enum_ok in Ha.
  apply bind_ok in H as ([] & _ & He). rewrite try_for_ok in He.
  apply Forall_cons in Hu as [Hup Hu]. apply Forall_app in Hu as [Hua Hu].
  apply Forall_app in Hu as [Huk Huv]. rewrite Forall_fmap in Huk, Huv.
  split_and!; try done.
  - apply Forall_lookup. intros k a Hk. split; [by apply (proj1 (Forall_lookup _ _) Hua k)|].
    eapply validate_string_length_ok, (Ha k a Hk).
  - rewrite Forall_forall in He, Huk, Huv |- *. intros e Hin. specialize (He e Hin).
    apply bind_ok in He as ([] & Hkl%check_ok%Z.ltb_ge & Hvl%validate_string_length_ok).
    by split; (split; [by apply Huk || by apply Huv|]).
  - intros Hlt. simpl in Hm. rewrite (proj2 (Z.ltb_lt _ _)) in Hm by done.
    by apply negb_false_iff, bool_decide_eq_true in Hm.
Qed.

Lemma step_codable_ok `{External} m path k s :
  validate_step m path k s = Ok tt -> step_wf s -> mapping_within MAX_WRITTEN_BYTES s ->
  step_codable m s.
Proof.
  unfold validate_step. cbv zeta. destruct s as [p|i|c|i|c]; intros Hv Hw Hl.
  - by eapply process_codable_ok.
  - by eapply connector_codable_ok.
  - apply bind_ok in Hv as ([] & _ & Hv%map_err_ok). by apply cache_codable_ok; apply Hv || apply Hw.
  - apply bind_ok in Hv as ([] & _ & Hv%map_err_ok). by apply input_codable_ok.
  - apply bind_ok in Hv as ([] & _ & Hv%map_err_ok). by apply checkout_codable_ok; apply Hv || apply Hw.
Qed.

Ltac reads_strings :=
  repeat (eapply reads_bind; [by apply reads_string|]).

Lemma reads_checkout path fields c :
  checkout_validate c = Ok tt -> checkout_codable c ->
  reads (r_checkout path 0 fields) (w_checkout c) (<[path := co_commit c]> fields).
Proof.
  intros Hv [Hs Ht]. decompose_Forall_hyps. unfold r_checkout, w_checkout.
  apply reads_reject_if; [done|]. reads_strings. eapply reads_last; [by apply reads_u64|].
  eapply reads_skip; [|apply reads_ret]. apply reads_validated. by destruct c.
Qed.

Lemma reads_input i :
  input_intent_validate i = Ok tt -> input_codable i -> reads (r_input 1) (w_input i) tt.
Proof.
  intros Hv [Hs Ht]. decompose_Forall_hyps. unfold r_input, w_input.
  apply reads_reject_if; [done|]. reads_strings.
  eapply reads_last; [by apply reads_u64|]. apply reads_validated. by destruct i.
Qed.

Lemma reads_cache `{External} i :
  cache_intent_validate i = Ok tt -> cache_codable i -> reads (r_cache 1) (w_cache i) tt.
Proof.
  intros Hv (Hs & Hc & Ht). decompose_Forall_hyps. unfold r_cache, w_cache.
  apply reads_reject_if; [done|]. reads_strings.
  eapply reads_bind; [apply reads_u8; by destruct (ci_operation i)|].
  apply reads_skip with (ci_operation i); [destruct (ci_operation i); apply reads_ret|].
  reads_strings. apply reads_assoc.
  eapply reads_bind.
  { apply reads_option_value. destruct (ci_content_base64 i); [by apply reads_string|done]. }
  eapply reads_last; [by apply reads_u64|]. apply reads_validated. by destruct i.
Qed.

Lemma elem_lookup {A} (P : A -> Prop) l k x : Forall P l -> l !! k = Some x -> P x.
Proof. intros H Hk. by apply (proj1 (Forall_lookup _ _) H k). Qed.

Lemma reads_schema_field description strings_only (fields : bmap JsonFieldType) k f :
  bmap_wf fields -> fields !! k = Some f -> short f.1 -> is_mapping_identifier f.1 = true ->
  (strings_only = true -> f.2 = JString) ->
  reads (r_schema_field description strings_only k (previous_at fields.*1 k)) (w_json_field f)
    (previous_at fields.*1 (S k)).
Proof.
  intros Hw Hk Hs Hi Hj. pose proof (lookup_keys _ _ _ Hk) as Hkey.
  rewrite (previous_at_S _ _ _ Hkey). unfold r_schema_field, w_json_field.
  eapply reads_bind; [apply reads_string_after; [done|by eapply sorted_in_order]|].
  apply reads_reject_if; [by rewrite Hi|].
  eapply reads_last; [apply reads_u8; by destruct f.2|].
  apply reads_reject_if; [|apply reads_ret].
  destruct strings_only; [by rewrite Hj|]. by destruct f.2.
Qed.

Lemma reads_schema description strings_only fields :
  bmap_wf fields -> schema_codable fields ->
  (strings_only = true -> Forall (fun f => f.2 = JString) fields) ->
  reads (r_schema description strings_only) (w_json_field_schema fields) tt.
Proof.
  intros Hw [Hf Hc] Hj. unfold r_schema. rewrite <- (sapp_nil_r (w_json_field_schema fields)).
  eapply (reads_list w_json_field _ _ _ (previous_at fields.*1)); [done..| |apply reads_ret].
  intros k f Hk. destruct (elem_lookup _ _ _ _ Hf Hk) as [Hs Hi].
  apply reads_schema_field; try done. intros E. by apply (elem_lookup _ _ _ _ (Hj E) Hk).
Qed.

Lemma reads_connector minor_version base i :
  validate_connector minor_version base i = Ok tt -> step_wf (ConnectorIntent i) ->
  mapping_within MAX_IR_STRING_BYTES (ConnectorIntent i) -> reads (r_connector 1) (w_connector i) tt.
Proof.
  intros H Hwf Hl.
  destruct (connector_codable_ok _ _ _ H Hwf) as (_ & Hsh & Hc1 & Hc2 & Hc3 & Ht);
    [by apply short_mapping_written|].
  decompose_Forall_hyps. destruct Hwf as (_ & Hw1 & Hw2 & Hw3 & _). unfold validate_connector in H.
  apply bind_ok in H as ([] & _ & H).
  apply bind_ok in H as ([] & (Hne & Hb & Hu)%validate_identifier_ok & H).
  assert (short (cn_mapping_id i)) by by split.
  apply bind_ok in H as ([] & Hd%validate_sha256_reference_ok & H).
  apply bind_ok in H as ([] & He%check_ok & H). apply bind_ok in H as ([] & _ & H).
  apply bind_ok in H as ([] & _ & H). apply bind_ok in H as ([] & _ & H).
  apply bind_ok in H as ([] & Hs & H). rewrite try_for_ok in Hs.
  apply bind_ok in H as ([] & _ & H).
  apply bind_ok in H as ([] & Hti%check_ok & Hdd%validate_sha256_reference_ok).
  unfold r_connector, w_connector. apply reads_reject_if; [done|].
  eapply reads_bind; [by apply reads_string|].
  apply reads_reject_if.
  { apply negb_false_iff, andb_true_iff. split; [by destruct (cn_mapping_id i)|done]. }
  eapply reads_bind; [by apply reads_string|]. apply reads_reject_if; [by rewrite Hd|].
  eapply reads_bind; [apply reads_u8; by destruct (cn_effect_class i)|].
  apply reads_reject_if; [by destruct (cn_effect_class i)|].
  eapply reads_bind; [by apply reads_string|]. apply reads_reject_if; [done|].
  eapply reads_bind; [by apply reads_schema|].
  eapply reads_bind.
  { apply reads_schema; [done..|]. intros _. eapply Forall_impl; [exact Hs|].
    intros f Hf%check_ok%negb_false_iff. by apply bool_decide_eq_true in Hf. }
  eapply reads_bind; [by apply reads_schema|].
  eapply reads_bind; [by apply reads_u64|]. apply reads_reject_if; [done|].
  eapply reads_bind; [apply reads_u8; by destruct (cn_ambiguity_policy i)|].
  apply reads_reject_if; [by destruct (cn_ambiguity_policy i)|].
  eapply reads_last; [by apply reads_string|]. apply reads_reject_if_last. by rewrite Hdd.
Qed.

(** Environment entries as fields. *)
Definition env_field (base : string) (kv : string * string) : string * string :=
  (base +:+ ".env." +:+ fst kv, snd kv).

Lemma reads_argument base args k a f :
  args !! k = Some a -> short a ->
  reads (r_argument base k (insert_all (imap (fun i a => (arg_path base i, a)) (take k args)) f))
    (w_string a) (insert_all (imap (fun i a => (arg_path base i, a)) (take (S k) args)) f).
Proof.
  intros Hk Hs. rewrite (imap_take_S _ _ _ _ Hk), insert_all_app. unfold r_argument.
  eapply reads_last; [by apply reads_string|]. apply reads_ret.
Qed.

Lemma reads_env base (env : bmap string) k e f :
  bmap_wf env -> env !! k = Some e -> short e.1 -> short e.2 ->
  reads (r_env base k (previous_at env.*1 k, insert_all (env_field base <$> take k env) f))
    (w_env e) (previous_at env.*1 (S k), insert_all (env_field base <$> take (S k) env) f).
Proof.
  intros Hw Hk Hs1 Hs2. pose proof (lookup_keys _ _ _ Hk) as Hkey.
  rewrite (previous_at_S _ _ _ Hkey), (take_S_r _ _ _ Hk), fmap_app, insert_all_app.
  unfold r_env, w_env.
  eapply reads_bind; [apply reads_string_after; [done|by eapply sorted_in_order]|].
  eapply reads_last; [by apply reads_string|]. apply reads_ret.
Qed.

Lemma reads_timeout (o : option Z) :
  option_wf (fun t => in_u64 t = true) o ->
  reads (marker ← r_u8; (if marker =? 0 then mret tt
         else if marker =? 1 then _ ← r_u64; mret tt
         else reject 1 "invalid timeout presence marker")) (w_option w_u64 o) tt.
Proof.
  destruct o as [t|]; cbn [w_option]; intros H.
  - eapply reads_bind; [by apply reads_u8|]. simpl.
    eapply reads_last; [by apply reads_u64|apply reads_ret].
  - eapply reads_last; [by apply reads_u8|]. apply reads_ret.
Qed.

Lemma reads_process minor_version base p f :
  bmap_wf (ps_env p) -> process_codable minor_version p ->
  reads (r_process minor_version base f) (w_process minor_version p)
    (insert_all (env_field base <$> ps_env p)
      (insert_all (imap (fun i a => (arg_path base i, a)) (ps_args p))
        (<[base +:+ ".program" := ps_program p]> f))).
Proof.
  intros Hw (Hp & Ha & He & Hca & Hce & Ht & _). unfold r_process, w_process.
  apply reads_bind with tt.
  { destruct (2 <=? minor_version); [|apply reads_ret].
    eapply reads_last; [apply reads_u8; by destruct (ps_mode p)|].
    apply reads_reject_if_last. by destruct (ps_mode p). }
  eapply reads_bind; [by apply reads_string|]. cbv zeta.
  eapply (reads_list w_string _ _ _ (fun k =>
    insert_all (imap (fun i a => (arg_path base i, a)) (take k (ps_args p)))
      (<[base +:+ ".program" := ps_program p]> f))); [done..| |].
  { intros k a Hk. apply reads_argument; [done|]. exact (elem_lookup _ _ _ _ Ha Hk). }
  rewrite take_ge by done.
  eapply (reads_list w_env _ _ _ (fun k => (previous_at (ps_env p).*1 k,
    insert_all (env_field base <$> take k (ps_env p)) _))); [done..| |].
  { intros k e Hk. destruct (elem_lookup _ _ _ _ He Hk). by apply reads_env. }
  rewrite take_ge by done. apply reads_assoc.
  eapply reads_last; [by apply reads_timeout|]. apply reads_ret.
Qed.

(** ** Stages *)

Record stage_ok `{External} (minor_version : Z) (index : nat) (s : Stage) : Prop := {
  sk_id : short (stage_id s);
  sk_name : slen (stage_name s) <= MAX_IR_STRING_BYTES;
  sk_intent : forall x, x ∈ stage_steps s -> is_intent_step x = true -> llen (stage_steps s) = 1;
  sk_checkouts : llen (List.filter is_checkout (stage_steps s)) <= 1;
  sk_artifacts : validate_declarations (stage_artifacts s) = Ok tt /\
    (minor_version < 8 -> stage_artifacts s = []);
  sk_image : match stage_image s with
    | Some image => 6 <= minor_version /\ is_digest_pinned_image image = true /\
        forall x, x ∈ stage_steps s -> is_process_or_checkout x = true
    | None => True
    end;
  sk_steps : forall k x, stage_steps s !! k = Some x ->
    validate_step minor_version (stage_path index) k x = Ok tt
}.

Lemma validate_stage_ok `{External} m index ids total s total' :
  validate_stage m index ids total s = Ok total' ->
  stage_ok m index s /\ total' = sat_add total (llen (stage_steps s)) /\ total' <= MAX_STEPS.
Proof.
  intros Hv. unfold validate_stage in Hv.
  apply bind_ok in Hv as ([] & (Hne & Hb & Hu)%validate_identifier_ok & Hv).
  apply bind_ok in Hv as ([] & Hl%validate_string_length_ok & Hv).
  apply bind_ok in Hv as ([] & _ & Hv). apply bind_ok in Hv as ([] & _ & Hv).
  apply bind_ok in Hv as ([] & Hn%validate_string_length_ok & Hv).
  apply bind_ok in Hv as ([] & _ & Hv).
  apply bind_ok in Hv as ([] & Hi%check_ok & Hv).
  apply bind_ok in Hv as ([] & Hc%check_ok%Z.ltb_ge & Hv). cbv zeta in Hv.
  apply bind_ok in Hv as ([] & Ht%check_ok%Z.ltb_ge & Hv).
  apply bind_ok in Hv as ([] & Ha & Hv). apply bind_ok in Hv as ([] & Him & Hv).
  apply bind_ok in Hv as ([] & Hs & [= <-]). rewrite try_for_enum_ok in Hs.
  split; [|done]. split; [done|done| |done| | |done].
  - intros x Hx Hix. apply andb_false_iff in Hi as [Hi|Hi].
    + exfalso. assert (existsb is_intent_step (stage_steps s) = true); [|congruence].
      apply existsb_exists. exists x. by rewrite <- list_elem_of_In.
    + by apply negb_false_iff, Z.eqb_eq in Hi.
  - unfold validate_stage_artifacts in Ha. destruct (stage_artifacts s); [done|].
    destruct (_ =? 0) eqn:E; [by apply Z.eqb_eq in E; unfold llen in E|].
    apply bind_ok in Ha as ([] & Hm%check_ok%Z.ltb_ge & Ha%map_err_ok). simpl in Hm.
    split; [done|lia].
  - unfold validate_stage_image in Him. destruct (stage_image s); [|done].
    apply bind_ok in Him as ([] & Hm%check_ok%Z.ltb_ge & Him).
    apply bind_ok in Him as ([] & Hp%check_ok%negb_false_iff & Him).
    apply bind_ok in Him as ([] & Hf%check_ok%negb_false_iff & _).
    split_and!; [done|done|]. intros x Hx. rewrite forallb_forall in Hf.
    by apply Hf, list_elem_of_In.
Qed.

(** The loop state of the steps: fields so far and checkouts so far. *)
Definition step_state (index : nat) (s : Stage) (f : fields_map) (k : nat) : fields_map * Z :=
  (insert_all (concat (imap (step_fields index) (take k (stage_steps s)))) f,
   llen (List.filter is_checkout (take k (stage_steps s)))).

Lemma step_state_S index s f k x :
  stage_steps s !! k = Some x ->
  step_state index s f (S k)
  = (insert_all (step_fields index k x) (step_state index s f k).1,
     (step_state index s f k).2 + if is_checkout x then 1 else 0).
Proof.
  intros Hk. unfold step_state. rewrite (imap_take_S _ _ _ _ Hk), concat_snoc, insert_all_app.
  rewrite (take_S_r _ _ _ Hk), List.filter_app. cbn [fst snd List.filter]. f_equal.
  rewrite llen_app. by destruct (is_checkout x).
Qed.

Lemma first_checkout s k x :
  llen (List.filter is_checkout (stage_steps s)) <= 1 ->
  stage_steps s !! k = Some x -> is_checkout x = true ->
  llen (List.filter is_checkout (take k (stage_steps s))) = 0.
Proof.
  intros Hc Hk Hx. rewrite <- (take_drop_middle _ _ _ Hk) in Hc at 1.
  rewrite List.filter_app in Hc. cbn [List.filter] in Hc. rewrite Hx, llen_app, llen_cons in Hc.
  pose proof (llen_nonneg (List.filter is_checkout (take k (stage_steps s)))).
  pose proof (llen_nonneg (List.filter is_checkout (drop (S k) (stage_steps s)))). lia.
Qed.

Lemma reads_step `{External} m index s f k x :
  stage_ok m index s -> stage_wf s -> Forall (mapping_within MAX_IR_STRING_BYTES) (stage_steps s) ->
  stage_steps s !! k = Some x ->
  reads (r_step m (is_some (stage_image s)) index (llen (stage_steps s)) k
           (step_state index s f k)) (w_step m x) (step_state index s f (S k)).
Proof.
  intros [_ _ Hint Hc _ Him Hs] (_ & _ & Hw & _) Hl Hk. specialize (Hs k x Hk).
  pose proof (elem_lookup _ _ _ _ Hl Hk) as Hlx.
  pose proof (elem_lookup _ _ _ _ Hw Hk) as Hwx. pose proof (list_elem_of_lookup_2 _ _ _ Hk) as Hx.
  rewrite (step_state_S _ _ _ _ _ Hk). specialize (Hint x Hx).
  pose proof (fun E => first_checkout _ _ _ Hc Hk E) as Hfc.
  pose proof (step_codable_ok _ _ _ _ Hs Hwx (short_mapping_written _ Hlx)) as Hcod.
  unfold r_step. destruct (step_state index s f k) as [fs cs] eqn:Est. cbn [fst snd].
  assert (is_some (stage_image s) && negb (is_process_or_checkout x) = false) as Hcon.
  { destruct (stage_image s); [|done]. destruct Him as (_ & _ & Hf). by rewrite Hf. }
  destruct x as [p|i|c|i|c]; cbn [w_step step_fields is_checkout] in *;
    unfold validate_step in Hs; cbv zeta in Hs.
  - eapply reads_bind; [by apply reads_u8|]. apply reads_reject_if; [by rewrite andb_false_r|].
    simpl (_ =? _). cbv iota. eapply reads_last; [apply reads_process; [apply Hwx|done]|].
    rewrite Z.add_0_r. cbv zeta. rewrite app_comm_cons, insert_all_app. apply reads_ret.
  - pose proof Hs as Hm. unfold validate_connector in Hm.
    apply bind_ok in Hm as ([] & Hm%check_ok%Z.ltb_ge & _).
    eapply reads_bind; [by apply reads_u8|]. apply reads_reject_if; [done|].
    rewrite (proj2 (Z.leb_le 3 m)) by done. simpl (_ && _). cbv iota. rewrite Hint by done.
    eapply reads_last; [by eapply reads_connector|]. rewrite Z.add_0_r. apply reads_ret.
  - apply bind_ok in Hs as ([] & Hm%check_ok%Z.ltb_ge & Hs%map_err_ok).
    eapply reads_bind; [by apply reads_u8|]. apply reads_reject_if; [done|].
    rewrite (proj2 (Z.leb_le 4 m)) by done. simpl (_ && _). cbv iota. rewrite Hint by done.
    eapply reads_last; [by apply reads_cache|]. rewrite Z.add_0_r. apply reads_ret.
  - apply bind_ok in Hs as ([] & Hm%check_ok%Z.ltb_ge & Hs%map_err_ok).
    eapply reads_bind; [by apply reads_u8|]. apply reads_reject_if; [done|].
    rewrite (proj2 (Z.leb_le 5 m)) by done. simpl (_ && _). cbv iota. rewrite Hint by done.
    eapply reads_last; [by apply reads_input|]. rewrite Z.add_0_r. apply reads_ret.
  - apply bind_ok in Hs as ([] & Hm%check_ok%Z.ltb_ge & Hs%map_err_ok).
    eapply reads_bind; [by apply reads_u8|]. apply reads_reject_if; [by rewrite andb_false_r|].
    rewrite (proj2 (Z.leb_le 7 m)) by done. simpl (_ && _). cbv iota.
    injection Est as <- <-. rewrite Hfc by done.
    eapply reads_last; [by apply reads_checkout|]. apply reads_ret.
Qed.

Lemma reads_pattern paths k x :
  paths !! k = Some x -> short x -> reads (r_pattern k (take k paths)) (w_string x) (take (S k) paths).
Proof.
  intros Hk Hs. rewrite (take_S_r _ _ _ Hk). unfold r_pattern.
  eapply reads_last; [by apply reads_string|]. apply reads_ret.
Qed.

Lemma reads_artifact specs k a :
  specs !! k = Some a -> artifact_spec_validate a = Ok tt -> Forall utf8 (as_paths a) ->
  reads (r_artifact k (take k specs)) (w_artifact a) (take (S k) specs).
Proof.
  intros Hk Hv Hu. rewrite (take_S_r _ _ _ Hk). unfold artifact_spec_validate in Hv.
  apply bind_ok in Hv as ([] & Hn%artifact_name_short & Hv).
  apply bind_ok in Hv as ([] & _ & Hv).
  apply bind_ok in Hv as ([] & Hc%check_ok%Z.ltb_ge & Hp). rewrite try_for_ok in Hp.
  unfold r_artifact, w_artifact. eapply reads_bind; [by apply reads_string|].
  rewrite <- (sapp_nil_r (w_list w_string _)).
  eapply (reads_list w_string _ _ _ (fun j => take j (as_paths a))); [done..| |].
  - intros j x Hj. apply reads_pattern; [done|]. apply pattern_short.
    + exact (elem_lookup _ _ _ _ Hu Hj).
    + exact (elem_lookup _ _ _ _ Hp Hj).
  - rewrite (take_ge (as_paths a)) by done. destruct a. apply reads_ret.
Qed.

Lemma reads_artifacts m specs :
  validate_declarations specs = Ok tt -> Forall (fun a => Forall utf8 (as_paths a)) specs ->
  reads (r_artifacts m) (if 8 <=? m then w_list w_artifact specs else "") tt.
Proof.
  intros Hv Hu. unfold r_artifacts. destruct (8 <=? m); [|apply reads_ret].
  pose proof Hv as H. unfold validate_declarations in H.
  apply bind_ok in H as ([] & Hc%check_ok%Z.ltb_ge & H). rewrite try_for_enum_ok in H.
  rewrite <- (sapp_nil_r (w_list w_artifact _)).
  eapply (reads_list w_artifact _ _ _ (fun j => take j specs)); [done..| |].
  - intros k a Hk. apply reads_artifact; [done| |exact (elem_lookup _ _ _ _ Hu Hk)].
    by apply (H k a), bind_ok in Hk as ([] & ? & _).
  - rewrite take_ge by done. by apply reads_validated.
Qed.

Lemma reads_image m (o : option string) :
  match o with Some i => 6 <= m /\ is_digest_pinned_image i = true /\ utf8 i | None => True end ->
  reads (r_image m) (if 6 <=? m then w_option w_string o else "") (is_some o).
Proof.
  intros Ho. unfold r_image. destruct (Z.leb_spec 6 m).
  - destruct o as [i|]; cbn [w_option is_some].
    + destruct Ho as (_ & Hp & Hu). eapply reads_bind; [by apply reads_u8|]. simpl.
      eapply reads_last; [apply reads_string; by apply image_short|].
      apply reads_reject_if; [by rewrite Hp|]. apply reads_ret.
    + eapply reads_last; [by apply reads_u8|]. apply reads_ret.
  - destruct o; [lia|]. apply reads_ret.
Qed.

Lemma step_total_snoc l s : step_total (l ++ [s]) = step_total l + llen (stage_steps s).
Proof.
  unfold step_total. induction l as [|a l IH]; cbn [foldr app]; [lia|]. rewrite IH. lia.
Qed.

Lemma step_total_nonneg l : 0 <= step_total l.
Proof.
  unfold step_total. induction l as [|a l IH]; cbn [foldr]; [done|].
  pose proof (llen_nonneg (stage_steps a)). lia.
Qed.

Definition stage_state (l : list Stage) (k : nat) : Z * fields_map :=
  (step_total (take k l), insert_all (concat (imap stage_fields (take k l))) ∅).

Lemma reads_stage `{External} m l k s :
  l !! k = Some s -> stage_ok m k s -> stage_wf s ->
  Forall (mapping_within MAX_IR_STRING_BYTES) (stage_steps s) -> step_total (take (S k) l) <= MAX_STEPS ->
  reads (r_stage m k (stage_state l k)) (w_stage m s) (stage_state l (S k)).
Proof.
  intros Hk Hok Hwf Hl Ht. pose proof Hok as [Hi Hn _ _ [Ha _] Him _].
  pose proof Hwf as (Hun & Hui & _ & Hua).
  unfold stage_state. rewrite (imap_take_S _ _ _ _ Hk), concat_snoc, insert_all_app.
  rewrite (take_S_r _ _ _ Hk), step_total_snoc in *. pose proof (step_total_nonneg (take k l)).
  pose proof (llen_nonneg (stage_steps s)). unfold r_stage, w_stage.
  eapply reads_bind; [by apply reads_string|]. eapply reads_bind; [by apply reads_string|].
  eapply reads_bind; [apply reads_image; destruct (stage_image s); [naive_solver|done]|].
  unfold w_list at 1. rewrite sapp_assoc.
  eapply reads_bind; [apply reads_count; [lia|done]|].
  eapply reads_skip.
  { unfold checked_add_usize. pose proof default_below_usize.
    rewrite (proj2 (Z.leb_le _ usize_max)) by (unfold MAX_STEPS, usize_max, u64_max in *; lia).
    rewrite (proj2 (Z.leb_le _ _)) by done. apply reads_ret. }
  eapply reads_bind.
  { unfold llen. rewrite Nat2Z.id. fold (llen (stage_steps s)).
    apply (reads_for (w_step m) _ (step_state k s
      (insert_all (concat (imap stage_fields (take k l))) ∅))).
    intros j x Hj. by apply reads_step. }
  unfold step_state. rewrite (take_ge (stage_steps s)) by done.
  eapply reads_last; [by apply reads_artifacts|]. apply reads_ret.
Qed.
