(* ===== verification/CanonicalAccept.v ===== *)
(** * Canonical bytes of a valid pipeline are accepted

    The independent validator of [Canonical.v] accepts the bytes the writer
    produces for every pipeline [validate_pipeline] accepts, and reports its
    schema, name and counts.  The one length the object validator leaves open,
    that of a connector's mapping id, is shown to matter. *)

From stdpp Require Import base gmap list strings pretty.
From Stdlib Require Import Ascii ZArith Lia Sorted.
From S2P Require Import Prelude Text Bytes Expression ExpressionEval ExpressionParse.
From S2P Require Import Domain Artifacts StrictYaml PipelineIr Canonical CanonicalReads.
From S2P Require Import CanonicalParameters.
From S2P Require Import CanonicalStages.

Open Scope Z_scope.

(** [ends whole tail m bs r]: with [bs] and then [tail] the rest of the input
    [whole], the outcome of [m] is [r]. *)
Definition ends {A} (whole tail : string) (m : reader A) (bs : string)
    (r : result CanonicalError (A * Z)) : Prop :=
  forall pre, whole = pre +:+ bs +:+ tail -> slen whole <= usize_max -> m whole (slen pre) = r.

(** The outcome of reading a valid pipeline's bytes followed by [tail]. *)
Definition verdict `{External} (p : PipelineIr) (tail : string) :
    result CanonicalError CanonicalSummary :=
  if is_empty tail then Ok (expected_summary p)
  else Err (CanonErr (slen (encode_pipeline p)) "trailing bytes after canonical document").

Definition notify_state (l : list NotifyTarget) (f : fields_map) (k : nat) :
    list NotifyTarget * fields_map :=
  (take k l, insert_all (concat (imap notify_fields (take k l))) f).

(** ** Notification targets *)

Lemma reads_target l f k t :
  l !! k = Some t -> notify_validate t = Ok tt ->
  reads (r_target k (notify_state l f k)) (w_notify t) (notify_state l f (S k)).
Proof.
  intros Hk Hv. unfold notify_state.
  rewrite (imap_take_S _ _ _ _ Hk), concat_snoc, insert_all_app, (take_S_r _ _ _ Hk).
  unfold notify_validate in Hv.
  apply bind_ok in Hv as ([] & Hm%check_ok%negb_false_iff%canonical_mapping_id_short & Hv).
  unfold r_target. destruct t as [mapping commit context repository|mapping]; cbn [w_notify] in *.
  - apply bind_ok in Hv as ([] & Hc%check_ok%negb_false_iff%commit_id_short & Hv).
    apply bind_ok in Hv as ([] & Hx%check_ok%negb_false_iff%status_context_short & Hv).
    eapply reads_bind; [by apply reads_u8|]. simpl (_ =? _). cbv iota.
    eapply reads_bind; [by apply reads_string|]. eapply reads_bind; [by apply reads_string|].
    eapply reads_bind; [by apply reads_string|]. apply reads_assoc.
    eapply reads_last; [|apply reads_ret]. apply reads_option_value.
    destruct repository; [|done]. apply check_ok, negb_false_iff, repository_short in Hv.
    by apply reads_string.
  - eapply reads_bind; [by apply reads_u8|]. simpl (_ =? _). cbv iota.
    eapply reads_last; [by apply reads_string|]. apply reads_ret.
Qed.

Lemma reads_notify m l f :
  validate_targets l = Ok tt -> (m < 9 -> l = []) ->
  reads (r_notify m f) (if 9 <=? m then w_list w_notify l else "")
    (insert_all (concat (imap notify_fields l)) f).
Proof.
  intros Hv Hm. unfold r_notify. destruct (Z.leb_spec 9 m).
  - pose proof Hv as Ht. unfold validate_targets in Ht.
    apply bind_ok in Ht as ([] & Hc%check_ok%Z.ltb_ge & Ht). rewrite try_for_ok in Ht.
    rewrite <- (sapp_nil_r (w_list w_notify _)).
    eapply (reads_list w_notify _ _ _ (notify_state l f)); [done..| |].
    + intros k t Hk. apply reads_target; [done|]. exact (elem_lookup _ _ _ _ Ht Hk).
    + unfold notify_state. rewrite take_ge by done.
      eapply reads_skip; [by apply reads_validated|]. apply reads_ret.
  - rewrite Hm by done. apply reads_ret.
Qed.

(** ** The whole document *)

Lemma ends_bind {A B} whole tail (m : reader A) (f : A -> reader B) bs1 bs2 a r :
  reads m bs1 a -> ends whole tail (f a) bs2 r -> ends whole tail (m ≫= f) (bs1 +:+ bs2) r.
Proof.
  intros Hm Hf pre -> Hl. unfold mbind, reader_bind. rewrite sapp_assoc in *.
  rewrite (Hm pre (bs2 +:+ tail)) by done.
  rewrite <- slen_app. apply Hf; [by rewrite sapp_assoc|done].
Qed.

Lemma ends_skip {A B} whole tail (m : reader A) (f : A -> reader B) bs a r :
  reads m "" a -> ends whole tail (f a) bs r -> ends whole tail (m ≫= f) bs r.
Proof. apply (ends_bind whole tail m f "" bs). Qed.

Lemma ends_summary `{External} doc tail v n a b c d :
  ends (doc +:+ tail) tail (r_finish ;; r_summary v n a b c d) ""
    (if is_empty tail
     then Ok (Build_CanonicalSummary v n a b c d (sha256 doc), slen doc)
     else Err (CanonErr (slen doc) "trailing bytes after canonical document")).
Proof.
  intros pre E Hl. simpl in E. apply sapp_inv_tail in E as <-.
  unfold mbind, reader_bind, r_finish. rewrite slen_app.
  destruct tail as [|x tail]; simpl is_empty; cbv iota.
  - change (slen "") with 0. by rewrite Z.add_0_r, Z.eqb_refl, sapp_nil_r.
  - rewrite (proj2 (Z.eqb_neq _ _)); [done|]. pose proof (slen_nonneg tail).
    unfold slen in *. simpl. lia.
Qed.

Lemma reads_each {A} (f : A -> reader ()) l :
  Forall (fun x => reads (f x) "" tt) l -> reads (r_each f l) "" tt.
Proof.
  induction 1 as [|x l Hx _ IH]; cbn [r_each]; [apply reads_ret|]. by eapply reads_skip.
Qed.

Lemma reads_magic : reads r_magic MAGIC tt.
Proof. eapply reads_last; [by apply reads_take|]. apply reads_ret. Qed.

Lemma reads_check_binding definitions context fields previous b :
  binding_ok definitions context fields previous b ->
  reads (check_binding context fields (bound b)) "" tt.
Proof.
  intros [_ _ _ _ (v & s & Hf & He)]. unfold check_binding, bound. rewrite Hf, He. simpl.
  apply reads_reject_if_last. by rewrite String.eqb_refl.
Qed.

Lemma step_total_cons s l : step_total (s :: l) = llen (stage_steps s) + step_total l.
Proof. done. Qed.

Lemma steps_below_usize : MAX_STEPS < usize_max.
Proof. done. Qed.

Lemma validate_stages_ok `{External} m index ids total ss :
  0 <= total <= MAX_STEPS -> validate_stages m index ids total ss = Ok tt ->
  forall k s, ss !! k = Some s ->
  stage_ok m (index + k)%nat s /\ total + step_total (take (S k) ss) <= MAX_STEPS.
Proof.
  revert index ids total. induction ss as [|s ss IH]; intros index ids total Ht Hv k s' Hk; [done|].
  cbn [validate_stages] in Hv. apply bind_ok in Hv as (total' & Hs & Hv).
  apply validate_stage_ok in Hs as (Hok & Htot & Hle). pose proof (llen_nonneg (stage_steps s)).
  assert (total' = total + llen (stage_steps s)) as ->.
  { pose proof steps_below_usize. unfold sat_add in Htot. lia. }
  destruct k as [|k].
  - simplify_eq/=. rewrite Nat.add_0_r. split; [done|]. unfold step_total. cbn [foldr take]. lia.
  - rewrite <- Nat.add_succ_comm.
    destruct (IH (S index) _ (total + llen (stage_steps s)) ltac:(lia) Hv k s' Hk)
      as [Hsk Hsum]. split; [exact Hsk|].
    rewrite firstn_cons, step_total_cons. clear -Hsum. lia.
Qed.

Record pipeline_ok `{External} (p : PipelineIr) : Prop := {
  vp_schema : major (schema p) = 1 /\ 0 <= minor (schema p) <= 9;
  vp_unparameterized : minor (schema p) < 1 ->
    parameters p = [] /\ parameter_values p = [] /\ expressions p = [];
  vp_name : short (name p);
  vp_parameters : parameters_ok p;
  vp_stage_count : llen (stages p) <= MAX_STAGES;
  vp_notify : validate_targets (notify p) = Ok tt /\ (minor (schema p) < 9 -> notify p = []);
  vp_stages : forall k s, stages p !! k = Some s ->
    stage_ok (minor (schema p)) k s /\ step_total (take (S k) (stages p)) <= MAX_STEPS
}.

Lemma llen_zero {A} (l : list A) : (llen l =? 0) = true -> l = [].
Proof. destruct l; [done|]. unfold llen. intros H%Z.eqb_eq. simpl in H. lia. Qed.

Lemma accepted_schema v :
  v ∈ accepted_schemas -> major v = 1 /\ 0 <= minor v <= 9 /\ (minor v < 1 -> v = IR_V1).
Proof.
  unfold accepted_schemas. rewrite !elem_of_cons, elem_of_nil.
  intros H. repeat destruct H as [->|H]; simpl; split_and!; try lia; done.
Qed.

Lemma validate_pipeline_ok `{External} p :
  pipeline_wf p -> validate_pipeline p = Ok tt -> pipeline_ok p.
Proof.
  intros Hw Hv. unfold validate_pipeline in Hv.
  apply bind_ok in Hv as ([] & Hs%check_ok%negb_false_iff%bool_decide_eq_true & Hv).
  apply accepted_schema in Hs as (Hma & Hmi & H1).
  apply bind_ok in Hv as ([] & Hf%check_ok & Hv).
  apply bind_ok in Hv as ([] & (_ & _ & Hu)%validate_identifier_ok & Hv).
  apply bind_ok in Hv as ([] & Hn%validate_string_length_ok & Hv).
  apply bind_ok in Hv as ([] & Hp & Hv). apply validate_parameters_ok in Hp; [|done].
  apply bind_ok in Hv as ([] & [_ Hc%Z.ltb_ge]%check_ok%orb_false_iff & Hv).
  apply bind_ok in Hv as ([] & Hno & Hst).
  split; [done| |done|done|done| |].
  - intros Hm. rewrite (bool_decide_eq_true_2 _ (H1 Hm)) in Hf. cbn [andb] in Hf.
    apply orb_false_iff in Hf as [[Hf1 Hf2]%orb_false_iff Hf3].
    split_and!; apply llen_zero; by apply negb_false_iff.
  - destruct (llen (notify p) =? 0) eqn:E.
    + apply llen_zero in E. by rewrite E.
    + apply bind_ok in Hno as ([] & Hm%check_ok%Z.ltb_ge & Ht%map_err_ok). simpl in Hm.
      split; [done|lia].
  - intros k s Hk. apply (validate_stages_ok _ _ _ _ _ ltac:(done) Hst k s Hk).
Qed.

Lemma reads_parameters_or_none p :
  pipeline_wf p -> parameters_ok p ->
  (minor (schema p) < 1 -> parameters p = [] /\ parameter_values p = [] /\ expressions p = []) ->
  reads (if 1 <=? minor (schema p) then r_parameter_section else mret (0, 0, ∅, []))
    (if 1 <=? minor (schema p) then w_parameter_section p else "")
    (llen (parameters p), llen (expressions p), public_context (parameter_values p),
     bound <$> expressions p).
Proof.
  intros Hw Hp H0. destruct (Z.leb_spec 1 (minor (schema p))); [by apply reads_parameter_section|].
  destruct H0 as (-> & -> & ->); [done|]. apply reads_ret.
Qed.

Lemma document_ends `{External} p tail :
  pipeline_wf p -> mapping_ids_within MAX_IR_STRING_BYTES p -> pipeline_ok p ->
  ends (encode_pipeline p +:+ tail) tail r_document (encode_pipeline p)
    (s ← verdict p tail; Ok (s, slen (encode_pipeline p))).
Proof.
  intros Hw Hm [[Hma Hmi] H0 Hn Hp Hc [Hnt Hn9] Hs]. unfold r_document, verdict, expected_summary.
  set (whole := encode_pipeline p). unfold encode_pipeline.
  eapply ends_bind; [apply reads_magic|].
  eapply ends_bind; [apply reads_u16; lia|]. eapply ends_bind; [apply reads_u16; lia|].
  eapply ends_skip.
  { apply reads_reject_if_last. rewrite Hma, Z.eqb_refl. apply Z.ltb_ge. lia. }
  eapply ends_bind; [by apply reads_string|].
  eapply ends_bind; [by apply reads_parameters_or_none|].
  unfold w_list at 1. rewrite sapp_assoc. pose proof (llen_nonneg (stages p)).
  eapply ends_bind; [by apply reads_count|].
  eapply ends_bind.
  { unfold llen. rewrite Nat2Z.id. apply (reads_for (w_stage _) _ (stage_state (stages p))).
    intros k s Hk. destruct (Hs k s Hk). apply reads_stage; try done.
    - exact (elem_lookup _ _ _ _ (wf_stages _ Hw) Hk).
    - exact (elem_lookup _ _ _ _ Hm Hk). }
  unfold stage_state. rewrite take_ge by done.
  rewrite <- (sapp_nil_r (if 9 <=? _ then _ else _)).
  eapply ends_bind; [by apply reads_notify|].
  eapply ends_skip.
  { apply reads_each. apply Forall_fmap, Forall_lookup. intros k b Hk. simpl.
    rewrite <- insert_all_app. eapply reads_check_binding. apply (pk_bindings _ Hp k b Hk). }
  pose proof (ends_summary whole tail) as He.
  destruct (schema p), (is_empty tail); apply He.
Qed.

(** C17. Canonical bytes are what their independent validator accepts.  For a
    pipeline the object validator accepts and whose connector mapping ids have at
    most 16 KiB, which the object validator does not check, the validator of
    canonical bytes accepts exactly the bytes [canonical_bytes] produces, with a summary that
    names the pipeline's schema, name, counts and digest; with anything after
    them it refuses the document, at the offset where the pipeline ends. *)
Theorem canonical_bytes_accepted `{External} p bytes tail :
  pipeline_wf p -> mapping_ids_within MAX_IR_STRING_BYTES p ->
  canonical_bytes p = Ok bytes -> slen (bytes +:+ tail) <= usize_max ->
  validate_canonical_bytes (bytes +:+ tail)
  = if is_empty tail then Ok (expected_summary p)
    else Err (CanonErr (slen bytes) "trailing bytes after canonical document").
Proof.
  intros Hw Hm ([] & Hv & [= <-])%bind_ok Hl. unfold validate_canonical_bytes.
  pose proof (document_ends p tail Hw Hm (validate_pipeline_ok p Hw Hv) "" eq_refl Hl) as E.
  change (slen "") with 0 in E. rewrite E. unfold verdict. by destruct (is_empty tail).
Qed.

(** ** Examples *)

Definition example_span : SourceSpan :=
  Build_SourceSpan (Build_SourceLocation 0 1 1) (Build_SourceLocation 9 1 10).
Definition example_provenance : Provenance :=
  Build_Provenance "ci.yaml" "00" (Build_CompilerIdentity "mcloving" "1").
Definition sixty_four : string := "0123456789abcdef0123456789abcdef0123456789abcdef0123456789abcdef".

(** A build stage whose argument is bound to a parameter, and a checkout. *)
Definition example_pipeline : PipelineIr := {|
  schema := IR_V1_9;
  name := "demo";
  parameters := [("target", Build_ParameterDefinition TyString (Some (PString "all")) false);
                 ("token", Build_ParameterDefinition TyString None true)];
  parameter_values := [("target", PString "tests")];
  expressions := [Build_ExpressionBinding "$.stages[0].steps[1].process.args[0]"
    (Add (Literal (PString "run-")) (EParameter "target"))];
  stages := [{|
    stage_id := "build"; stage_name := "Build"; stage_image := None;
    stage_steps := [
      Checkout (Build_CheckoutStep (Build_CheckoutStepSpec "main-repo"
        ("sha256:" +:+ sixty_four) "refs/heads/main" sixty_four "source" 60) example_span);
      Process (Build_ProcessStep Direct "make" ["run-tests"] [("CI", "1"); ("LANG", "C")]
        (Some 600) example_span)];
    stage_artifacts := [Build_ArtifactSpec "logs" ["out/**/*.log"]];
    stage_source_span := example_span |}];
  notify := [Webhook "hooks"];
  provenance := example_provenance;
  source_span := example_span
|}.

Lemma example_pipeline_wf : pipeline_wf example_pipeline.
Proof. repeat constructor. Qed.

Lemma canonical_bytes_accepted_witness :
  validate_canonical_bytes (H := Domain.example_external)
    (encode_pipeline example_pipeline +:+ "!")
  = Err (CanonErr (slen (encode_pipeline example_pipeline))
      "trailing bytes after canonical document").
Proof.
  apply (canonical_bytes_accepted (H := Domain.example_external) example_pipeline
    (encode_pipeline example_pipeline) "!").
  - apply example_pipeline_wf.
  - repeat constructor.
  - vm_compute. reflexivity.
  - vm_compute. discriminate.
Defined.

(** A pipeline whose one step is a connector intent with the given mapping id. *)
Definition connector_pipeline (mapping_id : string) : PipelineIr := {|
  schema := IR_V1_3; name := "demo"; parameters := []; parameter_values := []; expressions := [];
  stages := [{|
    stage_id := "deploy"; stage_name := "Deploy"; stage_image := None;
    stage_steps := [ConnectorIntent (Build_ConnectorIntentStep mapping_id
      ("sha256:" +:+ sixty_four) Idempotent "deploy" [] [] [] 60 ObserveThenReconcile
      ("sha256:" +:+ sixty_four) example_span)];
    stage_artifacts := []; stage_source_span := example_span |}];
  notify := []; provenance := example_provenance; source_span := example_span
|}.

Fixpoint repeated (n : nat) (c : ascii) : string :=
  match n with O => "" | S n => String c (repeated n c) end.

(** A length the object validator leaves open: a connector mapping id of
    16 KiB and one byte passes [validate_pipeline], and [canonical_bytes]
    encodes it, but the bytes are refused by their validator, which bounds
    every string to 16 KiB. *)
Theorem long_mapping_id_refused `{External} :
  let p := connector_pipeline (repeated (Z.to_nat MAX_IR_STRING_BYTES + 1) "m") in
  canonical_bytes p = Ok (encode_pipeline p) /\
  validate_canonical_bytes (encode_pipeline p)
  = Err (CanonErr 65 "string byte count exceeds limit").
Proof.
  intros p. split; [|vm_compute; reflexivity].
  unfold canonical_bytes. assert (validate_pipeline p = Ok tt) as -> by (vm_compute; reflexivity).
  done.
Qed.
