(* ===== verification/CanonicalUnique.v ===== *)
(** * Canonical bytes identify the pipeline

    Two valid pipelines with the same canonical bytes agree on everything but
    provenance and source spans, so the semantic digest names what a pipeline
    does: fields a schema version does not encode are fields its validator
    forces to be absent. *)

From stdpp Require Import base gmap list strings pretty.
From Stdlib Require Import Ascii ZArith Lia Sorted.
From S2P Require Import Prelude Text Bytes Expression ExpressionEval ExpressionParse.
From S2P Require Import Domain Artifacts StrictYaml PipelineIr Canonical CanonicalReads.
From S2P Require Import CanonicalParameters.
From S2P Require Import CanonicalStages CanonicalAccept.

Open Scope Z_scope.

(** ** A pipeline without provenance and spans *)

Definition no_location : SourceLocation := Build_SourceLocation 0 0 0.
Definition no_span : SourceSpan := Build_SourceSpan no_location no_location.
Definition no_provenance : Provenance := Build_Provenance "" "" (Build_CompilerIdentity "" "").

Definition strip_step (s : Step) : Step :=
  match s with
  | Process p => Process (Build_ProcessStep (ps_mode p) (ps_program p) (ps_args p) (ps_env p)
      (ps_timeout_seconds p) no_span)
  | ConnectorIntent i => ConnectorIntent (Build_ConnectorIntentStep (cn_mapping_id i)
      (cn_mapping_digest i) (cn_effect_class i) (cn_effect_key_template i)
      (cn_public_input_schema i) (cn_protected_secret_ref_schema i)
      (cn_expected_public_result_schema i) (cn_timeout_seconds i) (cn_ambiguity_policy i)
      (cn_downstream_control_digest i) no_span)
  | CacheIntent c => CacheIntent (Build_CacheIntentStep (cs_intent c) no_span)
  | InputIntent i => InputIntent (Build_InputIntentStep (is_intent i) no_span)
  | Checkout c => Checkout (Build_CheckoutStep (ck_spec c) no_span)
  end.

Definition strip_stage (s : Stage) : Stage :=
  Build_Stage (stage_id s) (stage_name s) (stage_image s) (strip_step <$> stage_steps s)
    (stage_artifacts s) no_span.

Definition strip_pipeline (p : PipelineIr) : PipelineIr :=
  Build_PipelineIr (schema p) (name p) (parameters p) (parameter_values p) (expressions p)
    (strip_stage <$> stages p) (notify p) no_provenance no_span.

(** [codes f dom enc]: on [dom], an encoding followed by anything tells [f] of
    the value and where it ends. *)
Definition codes {A B} (f : A -> B) (dom : A -> Prop) (enc : A -> string) : Prop :=
  forall x y s t, dom x -> dom y -> enc x +:+ s = enc y +:+ t -> f x = f y /\ s = t.

(** ** Primitives *)

Lemma codes_unique {A} dom (enc : A -> string) : codes id dom enc <-> unique_code dom enc.
Proof. done. Qed.

Lemma codes_list {A B} (f : A -> B) dom enc :
  codes f dom enc ->
  codes (fmap f) (fun l : list A => Forall dom l /\ llen l < 2 ^ 32) (w_list enc).
Proof.
  intros U l k s t [Hl Ll] [Hk Lk] E. unfold w_list in E. rewrite !sapp_assoc in E.
  pose proof (llen_nonneg l). pose proof (llen_nonneg k).
  apply (unique_be_bytes 4) in E as [El E]; [|change (256 ^ Z.of_nat 4) with (2 ^ 32); lia..].
  unfold llen in El. apply Nat2Z.inj in El. clear Ll Lk H H0.
  revert k Hk s t El E. induction Hl as [|x l Hx Hl IH]; intros k Hk s t El E.
  { destruct k; [|done]. done. }
  destruct Hk as [|y k Hy Hk]; [done|]. simpl in El. injection El as El.
  unfold enc_all in E. cbn [fmap list_fmap sconcat] in E. rewrite !sapp_assoc in E.
  apply U in E as [Ex E]; [|done..]. apply IH in E as [Ek ->]; [|done..].
  rewrite !fmap_cons. by rewrite Ex, Ek.
Qed.

Lemma unique_u8 : unique_code (fun z => 0 <= z < 256) w_u8.
Proof. exact (unique_be_bytes 1). Qed.
Lemma unique_u16 : unique_code (fun z => 0 <= z < 65536) w_u16.
Proof. exact (unique_be_bytes 2). Qed.

Lemma unique_u64 : unique_code (fun z => in_u64 z = true) w_u64.
Proof.
  eapply unique_weaken; [|exact (unique_be_bytes 8)]. unfold in_u64, u64_max. intros z H.
  bool_prop. simpl. lia.
Qed.

Lemma short_u32 s : short s -> 0 <= slen s < 2 ^ 32.
Proof. intros [_ H]. pose proof (slen_nonneg s). unfold MAX_IR_STRING_BYTES in H. lia. Qed.

Lemma unique_wide_string : unique_code (fun x => slen x < 2 ^ 32) w_string.
Proof.
  intros x y s t Hx Hy E. unfold w_string in E. rewrite !sapp_assoc in E.
  pose proof (slen_nonneg x). pose proof (slen_nonneg y).
  apply (unique_be_bytes 4) in E as [El E]; [|change (256 ^ Z.of_nat 4) with (2 ^ 32); lia..].
  apply sapp_inj_length in E; [done|]. unfold slen in El. lia.
Qed.

Lemma unique_string : unique_code short w_string.
Proof. intros x y s t Hx%short_u32 Hy%short_u32. apply unique_wide_string; lia. Qed.

(** An enumeration written as its opcode. *)
Lemma unique_opcode {A} (opcode : A -> Z) :
  (forall x, 0 <= opcode x < 256) -> (forall x y, opcode x = opcode y -> x = y) ->
  unique_code (fun _ => True) (fun x => w_u8 (opcode x)).
Proof.
  intros Hr Hi x y s t _ _ E. apply unique_u8 in E as [E ->]; [|done..]. auto.
Qed.

Ltac opcode_tac := apply unique_opcode; [by intros []|by intros [] []].

Lemma unique_bool : unique_code (fun _ => True) w_bool.
Proof. opcode_tac. Qed.
Lemma unique_parameter_type : unique_code (fun _ => True) w_parameter_type.
Proof. opcode_tac. Qed.
Lemma unique_process_mode : unique_code (fun _ => True) w_process_mode.
Proof. opcode_tac. Qed.
Lemma unique_effect_class : unique_code (fun _ => True) w_connector_effect_class.
Proof. opcode_tac. Qed.
Lemma unique_ambiguity : unique_code (fun _ => True) w_ambiguity_policy.
Proof. opcode_tac. Qed.
Lemma unique_json_field : unique_code (fun _ => True) (fun t => w_u8 (json_field_opcode t)).
Proof. opcode_tac. Qed.
Lemma unique_operation :
  unique_code (fun _ => True) (fun o => w_u8 (match o with CacheRead => 1 | CachePublish => 2 end)).
Proof. opcode_tac. Qed.

Lemma unique_option {A} dom (enc : A -> string) :
  unique_code dom enc -> unique_code (option_wf dom) (w_option enc).
Proof.
  intros U [x|] [y|] s t Hx Hy E; cbn [w_option] in E; rewrite ?sapp_assoc in E;
    apply unique_u8 in E as [? E]; try done.
  apply U in E as [-> ->]; done.
Qed.

Lemma unique_value : unique_code (fun v => value_wf v /\ value_fits v) w_parameter_value.
Proof.
  intros [b|z|x] [b'|z'|x'] s t [Hx Fx] [Hy Fy] E; cbn [w_parameter_value] in E;
    rewrite !sapp_assoc in E; apply unique_u8 in E as [? E]; try done.
  - apply unique_bool in E as [-> ->]; done.
  - apply unique_i64 in E as [-> ->]; done.
  - simpl in *. apply unique_string in E as [-> ->]; [done|split; [done|unfold MAX_IR_STRING_BYTES; lia]..].
Qed.

(** Read one component off both sides of [H]. *)
Ltac open_Forall :=
  repeat match goal with H : Forall _ (_ :: _) |- _ => apply Forall_cons in H as [? H] end.

Ltac peel U H := let E := fresh "E" in apply U in H as [E H]; [|done..].

Definition expression_codable (e : Expression) : Prop :=
  literals_wf e /\ leaves_ok default_limits e /\ Forall short (refs e).

Lemma expression_codable_binary c a b :
  binary c -> expression_codable (c a b) -> expression_codable a /\ expression_codable b.
Proof.
  intros [] (Hw & Hl & Hr); simpl in *; apply Forall_app in Hr; unfold expression_codable; naive_solver.
Qed.

Lemma w_expression_opcode e :
  exists z rest, w_expression e = w_u8 z +:+ rest /\ 0 <= z < 256 /\
  z = match e with
      | Literal _ => 1 | EParameter _ => 2 | Not _ => 3 | Equal _ _ => 4
      | NotEqual _ _ => 5 | And _ _ => 6 | Or _ _ => 7 | Add _ _ => 8
      end.
Proof. destruct e; simpl w_expression; do 2 eexists; (split; [done|split; [|done]]; lia). Qed.

Lemma same_opcode e1 e2 s t :
  w_expression e1 +:+ s = w_expression e2 +:+ t ->
  match e1, e2 with
  | Literal _, Literal _ | EParameter _, EParameter _ | Not _, Not _ | Equal _ _, Equal _ _
  | NotEqual _ _, NotEqual _ _ | And _ _, And _ _ | Or _ _, Or _ _ | Add _ _, Add _ _ => True
  | _, _ => False
  end.
Proof.
  destruct (w_expression_opcode e1) as (z1 & r1 & -> & H1 & E1).
  destruct (w_expression_opcode e2) as (z2 & r2 & -> & H2 & E2).
  rewrite !sapp_assoc. intros [E _]%unique_u8; [|done..]. subst.
  destruct e1, e2; done.
Qed.

Ltac binary_case :=
  match goal with
  | Hx : expression_codable (?c ?a ?b), Hy : expression_codable (?c _ _), H : _ +:+ _ = _ +:+ _,
    IHa : forall y s t, expression_codable ?a -> _, IHb : forall y s t, expression_codable ?b -> _ |- _ =>
      apply (expression_codable_binary c) in Hx as [? ?], Hy as [? ?]; [|constructor..];
      apply IHa in H as [-> H]; [|done..]; apply IHb in H as [-> ->]; done
  end.

Lemma unique_expression : unique_code expression_codable w_expression.
Proof.
  intros x. induction x as [v|n|a IH|a IHa b IHb|a IHa b IHb|a IHa b IHb|a IHa b IHb|a IHa b IHb];
    intros y s t Hx Hy H; pose proof (same_opcode _ _ _ _ H) as Ho; destruct y; try done; clear Ho;
    cbn [w_expression] in H; rewrite !sapp_assoc in H; apply unique_u8 in H as [_ H]; try done.
  - destruct Hx as (Hw & Hl & _), Hy as (Hw' & Hl' & _). simpl in *.
    apply unique_value in H as [-> ->]; [done|..]; split; try done; by destruct v, v0.
  - destruct Hx as (_ & _ & Hr%Forall_inv), Hy as (_ & _ & Hr'%Forall_inv).
    apply unique_string in H as [-> ->]; done.
  - apply IH in H as [-> ->]; done.
  - binary_case.
  - binary_case.
  - binary_case.
  - binary_case.
  - binary_case.
Qed.

(** ** Components *)

Lemma unique_list {A} dom (enc : A -> string) :
  unique_code dom enc -> unique_code (fun l => Forall dom l /\ llen l < 2 ^ 32) (w_list enc).
Proof.
  intros U l k s t Hl Hk E. apply (codes_list id dom enc U) in E; [|done..].
  by rewrite !list_fmap_id in E.
Qed.

Lemma unique_definition :
  unique_code (fun e => short e.1 /\ option_wf (fun v => value_wf v /\ value_fits v) (pd_default e.2))
    w_parameter.
Proof.
  intros [n d] [n' d'] s t [Hn Hd] [Hn' Hd'] H. unfold w_parameter in H. rewrite !sapp_assoc in H.
  peel unique_string H. peel unique_parameter_type H. peel unique_bool H.
  peel (unique_option _ _ unique_value) H. destruct d, d'. naive_solver.
Qed.

Lemma unique_parameter_binding :
  unique_code (fun e => short e.1 /\ value_wf e.2 /\ value_fits e.2) w_parameter_binding.
Proof.
  intros [n v] [n' v'] s t [Hn Hd] [Hn' Hd'] H. unfold w_parameter_binding in H.
  rewrite !sapp_assoc in H. peel unique_string H. peel unique_value H. naive_solver.
Qed.

Lemma unique_binding :
  unique_code (fun b => short (eb_path b) /\ expression_codable (eb_expression b))
    w_expression_binding.
Proof.
  intros [n v] [n' v'] s t [Hn Hd] [Hn' Hd'] H. unfold w_expression_binding in H.
  rewrite !sapp_assoc in H. peel unique_string H. peel unique_expression H. naive_solver.
Qed.

Lemma unique_env : unique_code (fun e => short e.1 /\ short e.2) w_env.
Proof.
  intros [n v] [n' v'] s t [Hn Hd] [Hn' Hd'] H. unfold w_env in H.
  rewrite !sapp_assoc in H. peel unique_string H. peel unique_string H. naive_solver.
Qed.

Lemma unique_schema : unique_code schema_codable w_json_field_schema.
Proof.
  apply (unique_weaken (fun l => Forall (fun f => short f.1) l /\ llen l < 2 ^ 32)).
  { intros l [Hl Hc]. unfold MAX_PARAMETERS in Hc. split; [|lia].
    eapply Forall_impl; [exact Hl|]. by intros f []. }
  apply (unique_list _ w_json_field). intros [n v] [n' v'] s t Hn Hn' H. unfold w_json_field in H.
  rewrite !sapp_assoc in H. peel unique_string H. peel unique_json_field H. naive_solver.
Qed.

Lemma unique_checkout : unique_code checkout_codable w_checkout.
Proof.
  intros x y s t [Hx Tx] [Hy Ty] H. unfold w_checkout in H. rewrite !sapp_assoc in H.
  open_Forall. do 5 peel unique_string H. peel unique_u64 H.
  destruct x, y. naive_solver.
Qed.

Lemma unique_input : unique_code input_codable w_input.
Proof.
  intros x y s t [Hx Tx] [Hy Ty] H. unfold w_input in H. rewrite !sapp_assoc in H.
  open_Forall. do 2 peel unique_string H. peel unique_u64 H.
  destruct x, y. naive_solver.
Qed.

Lemma unique_cache : unique_code cache_codable w_cache.
Proof.
  intros x y s t (Hx & Cx & Tx) (Hy & Cy & Ty) H. unfold w_cache in H. rewrite !sapp_assoc in H.
  open_Forall. do 2 peel unique_string H. peel unique_operation H.
  do 2 peel unique_string H. peel (unique_option _ _ unique_string) H. peel unique_u64 H.
  destruct x, y. naive_solver.
Qed.

Lemma codes_connector :
  codes (fun i => strip_step (ConnectorIntent i)) connector_codable w_connector.
Proof.
  intros x y s t (Mx & Hx & Ax & Bx & Cx & Tx) (My & Hy & Ay & By & Cy & Ty) H. unfold w_connector in H.
  rewrite !sapp_assoc in H. open_Forall. peel unique_wide_string H. peel unique_string H.
  peel unique_effect_class H. peel unique_string H. do 3 peel unique_schema H.
  peel unique_u64 H. peel unique_ambiguity H. peel unique_string H.
  destruct x, y. naive_solver.
Qed.

(** Before schema 1.2 the mode is not written: it is [Direct]. *)
Lemma codes_mode m :
  codes ps_mode (fun p => m < 2 -> ps_mode p = Direct)
    (fun p => if 2 <=? m then w_process_mode (ps_mode p) else "").
Proof.
  intros x y s t Hx Hy H. destruct (Z.leb_spec 2 m).
  - by apply unique_process_mode in H.
  - by rewrite Hx, Hy.
Qed.

Lemma codes_process m :
  codes (fun p => strip_step (Process p)) (process_codable m) (w_process m).
Proof.
  intros x y s t (Px & Ax & Ex & Lx & Mx & Tx & Dx) (Py & Ay & Ey & Ly & My & Ty & Dy) H.
  unfold w_process in H. unfold MAX_STEPS in *. rewrite !sapp_assoc in H.
  peel (codes_mode m) H. peel unique_string H.
  apply (unique_list _ _ unique_string) in H as [? H]; [|split; [done|lia]..].
  apply (unique_list _ _ unique_env) in H as [? H]; [|split; [done|lia]..].
  peel (unique_option _ _ unique_u64) H. destruct x, y. naive_solver.
Qed.

Lemma step_opcode_inj m x y s t :
  w_step m x +:+ s = w_step m y +:+ t ->
  match x, y with
  | Process _, Process _ | ConnectorIntent _, ConnectorIntent _ | CacheIntent _, CacheIntent _
  | InputIntent _, InputIntent _ | Checkout _, Checkout _ => True
  | _, _ => False
  end.
Proof.
  destruct x, y; try done; cbn [w_step]; rewrite !sapp_assoc; intros [? _]%unique_u8; done.
Qed.

Lemma codes_step m : codes strip_step (step_codable m) (w_step m).
Proof.
  intros x y s t Hx Hy H. pose proof (step_opcode_inj _ _ _ _ _ H) as Ho.
  destruct x, y; try done; clear Ho; cbn [w_step step_codable] in *; rewrite !sapp_assoc in H;
    apply unique_u8 in H as [_ H]; try done.
  - by apply codes_process in H.
  - by apply codes_connector in H.
  - apply unique_cache in H as [E ->]; [|done..]. simpl. by rewrite E.
  - apply unique_input in H as [E ->]; [|done..]. simpl. by rewrite E.
  - apply unique_checkout in H as [E ->]; [|done..]. simpl. by rewrite E.
Qed.

(** ** Artifacts, stages and targets *)

Definition artifact_codable (a : ArtifactSpec) : Prop :=
  short (as_name a) /\ Forall short (as_paths a) /\ llen (as_paths a) < 2 ^ 32.

Definition target_codable (t : NotifyTarget) : Prop :=
  match t with
  | GithubStatus mapping commit context repository =>
      short mapping /\ short commit /\ short context /\ option_wf short repository
  | Webhook mapping => short mapping
  end.

Definition stage_codable (m : Z) (s : Stage) : Prop :=
  short (stage_id s) /\ short (stage_name s) /\
  (option_wf short (stage_image s) /\ (m < 6 -> stage_image s = None)) /\
  (Forall (step_codable m) (stage_steps s) /\ llen (stage_steps s) < 2 ^ 32) /\
  ((Forall artifact_codable (stage_artifacts s) /\ llen (stage_artifacts s) < 2 ^ 32) /\
   (m < 8 -> stage_artifacts s = [])).

Lemma unique_artifact : unique_code artifact_codable w_artifact.
Proof.
  intros x y s t (Nx & Px & Lx) (Ny & Py & Ly) H. unfold w_artifact in H. rewrite !sapp_assoc in H.
  peel unique_string H. peel (unique_list _ _ unique_string) H. destruct x, y. naive_solver.
Qed.

Lemma unique_target : unique_code target_codable w_notify.
Proof.
  intros [m c x r|m] [m' c' x' r'|m'] s t Hx Hy H; cbn [w_notify] in H; rewrite !sapp_assoc in H;
    apply unique_u8 in H as [? H]; try done; simpl in Hx, Hy.
  - destruct Hx as (? & ? & ? & ?), Hy as (? & ? & ? & ?). do 3 peel unique_string H.
    peel (unique_option _ _ unique_string) H. naive_solver.
  - peel unique_string H. naive_solver.
Qed.

(** A part a schema version may leave out, where it is [none]. *)
Lemma codes_versioned {A} (b : bool) (none : A) dom (enc : A -> string) :
  unique_code dom enc ->
  unique_code (fun x => dom x /\ (b = false -> x = none)) (fun x => if b then enc x else "").
Proof.
  intros U x y s t [Dx Nx] [Dy Ny] H. destruct b.
  - by apply U in H.
  - by rewrite Nx, Ny.
Qed.

Lemma codes_stage m : codes strip_stage (stage_codable m) (w_stage m).
Proof.
  intros x y s t (Ix & Nx & [Ox Vx] & Sx & Ax & Wx) (Iy & Ny & [Oy Vy] & Sy & Ay & Wy) H.
  unfold w_stage in H. rewrite !sapp_assoc in H. do 2 peel unique_string H.
  apply (codes_versioned (6 <=? m) None _ _ (unique_option _ _ unique_string)) in H as [? H];
    [|split; [done|rewrite Z.leb_gt; done]..].
  peel (codes_list _ _ _ (codes_step m)) H.
  apply (codes_versioned (8 <=? m) [] _ _ (unique_list _ _ unique_artifact)) in H as [? ->];
    [|split; [done|rewrite Z.leb_gt; done]..].
  split; [|done]. unfold strip_stage. congruence.
Qed.

(** ** Pipelines *)

Lemma artifact_codable_ok a :
  artifact_spec_validate a = Ok tt -> Forall utf8 (as_paths a) -> artifact_codable a.
Proof.
  intros Hv Hu. unfold artifact_spec_validate in Hv.
  apply bind_ok in Hv as ([] & Hn%artifact_name_short & Hv). apply bind_ok in Hv as ([] & _ & Hv).
  apply bind_ok in Hv as ([] & Hc%check_ok%Z.ltb_ge & Hp). rewrite try_for_ok in Hp.
  unfold MAX_ARTIFACT_PATTERNS in Hc. split_and!; [done| |lia].
  rewrite Forall_forall in *. intros p Hin. by apply pattern_short; auto.
Qed.

Lemma target_codable_ok t : notify_validate t = Ok tt -> target_codable t.
Proof.
  unfold notify_validate.
  intros ([] & Hm%check_ok%negb_false_iff%canonical_mapping_id_short & Hv)%bind_ok.
  destruct t as [m c x r|m]; [|done].
  apply bind_ok in Hv as ([] & Hc%check_ok%negb_false_iff%commit_id_short & Hv).
  apply bind_ok in Hv as ([] & Hx%check_ok%negb_false_iff%status_context_short & Hv).
  simpl. split_and!; [done..|]. destruct r; [|done].
  by apply check_ok, negb_false_iff, repository_short in Hv.
Qed.

Lemma stage_codable_ok `{External} m k s l :
  l !! k = Some s -> stage_ok m k s -> stage_wf s ->
  Forall (mapping_within MAX_WRITTEN_BYTES) (stage_steps s) -> step_total (take (S k) l) <= MAX_STEPS ->
  stage_codable m s.
Proof.
  intros Hk [Hi Hn _ _ [Ha Hav] Him Hs] (Hun & Hui & Hws & Hua) Hl Ht.
  rewrite (take_S_r _ _ _ Hk), step_total_snoc in Ht. pose proof (step_total_nonneg (take k l)).
  unfold MAX_STEPS in Ht. split_and!; try done.
  - destruct (stage_image s); [|done]. by apply image_short; apply Him || apply Hui.
  - intros Hm. destruct (stage_image s); [lia|done].
  - apply Forall_lookup. intros j x Hj. eapply step_codable_ok; [by apply Hs|..].
    + exact (elem_lookup _ _ _ _ Hws Hj).
    + exact (elem_lookup _ _ _ _ Hl Hj).
  - lia.
  - unfold validate_declarations in Ha. apply bind_ok in Ha as ([] & _ & Ha).
    rewrite try_for_enum_ok in Ha. apply Forall_lookup. intros j a Hj.
    apply artifact_codable_ok; [|exact (elem_lookup _ _ _ _ Hua Hj)].
    by apply (Ha j a), bind_ok in Hj as ([] & ? & _).
  - unfold validate_declarations, MAX_ARTIFACTS_PER_STAGE in Ha.
    apply bind_ok in Ha as ([] & Hc%check_ok%Z.ltb_ge & _). lia.
Qed.

Definition section_codable (p : PipelineIr) : Prop :=
  (Forall (fun e => short e.1 /\ option_wf (fun v => value_wf v /\ value_fits v) (pd_default e.2))
     (parameters p) /\ llen (parameters p) < 2 ^ 32) /\
  (Forall (fun e => short e.1 /\ value_wf e.2 /\ value_fits e.2) (parameter_values p) /\
   llen (parameter_values p) < 2 ^ 32) /\
  (Forall (fun b => short (eb_path b) /\ expression_codable (eb_expression b)) (expressions p) /\
   llen (expressions p) < 2 ^ 32).

Lemma section_codable_ok p : pipeline_wf p -> parameters_ok p -> section_codable p.
Proof.
  intros Hw Hp. pose proof (values_count p Hw Hp) as Hvc.
  destruct Hw as [[Hps Hpd] [Hvs Hvw] He _], Hp as [Hc Hd Hv Hbc Hb].
  unfold MAX_PARAMETERS, MAX_EXPRESSION_BINDINGS in *. split_and!; try lia.
  - rewrite Forall_forall in Hpd |- *. intros [n d] Hin. destruct (Hd n d Hin) as [Hs _ Hde _].
    specialize (Hpd _ Hin). unfold definition_wf in Hpd. simpl in *.
    split; [done|]. destruct (pd_default d); [|done]. split; [done|apply Hde].
  - rewrite Forall_forall in Hvw |- *. intros [n v] Hin. specialize (Hvw _ Hin). simpl in *.
    destruct (Hv n v Hin) as (d & _ & _ & _ & ? & ?). done.
  - apply Forall_lookup. intros k b Hk. destruct (Hb k b Hk) as [Hl _ Hval Hr _].
    destruct (elem_lookup _ _ _ _ He Hk) as [Hu Hlw]. split; [done|]. split; [done|].
    apply validate_walk in Hval as (st & Hval).
    apply walk_ok in Hval as (_ & _ & _ & _ & Hlv); [|pose proof usize_max_pos; lia..].
    split; [done|]. eapply Forall_impl; [exact Hr|]. intros r (d & Hg & _).
    exact (po_short _ _ _ (Hd r d (bget_elem _ _ _ Hg))).
Qed.

Definition same_parameters (p q : PipelineIr) : Prop :=
  parameters p = parameters q /\ parameter_values p = parameter_values q /\
  expressions p = expressions q.

Lemma section_identifies p q s t :
  section_codable p -> section_codable q ->
  w_parameter_section p +:+ s = w_parameter_section q +:+ t -> same_parameters p q /\ s = t.
Proof.
  intros (Px & Vx & Ex) (Py & Vy & Ey) H. unfold w_parameter_section in H.
  rewrite !sapp_assoc in H. peel (unique_list _ _ unique_definition) H.
  peel (unique_list _ _ unique_parameter_binding) H. peel (unique_list _ _ unique_binding) H.
  done.
Qed.

Lemma notify_codable_ok l :
  validate_targets l = Ok tt -> Forall target_codable l /\ llen l < 2 ^ 32.
Proof.
  unfold validate_targets, MAX_NOTIFY_TARGETS.
  intros ([] & Hc%check_ok%Z.ltb_ge & Ht)%bind_ok. rewrite try_for_ok in Ht.
  split; [|lia]. eapply Forall_impl; [exact Ht|]. apply target_codable_ok.
Qed.

Lemma stages_codable_ok `{External} p :
  pipeline_wf p -> mapping_ids_within MAX_WRITTEN_BYTES p -> pipeline_ok p ->
  Forall (stage_codable (minor (schema p))) (stages p) /\ llen (stages p) < 2 ^ 32.
Proof.
  intros Hw Hm Hok. split; [|pose proof (vp_stage_count p Hok); unfold MAX_STAGES in *; lia].
  apply Forall_lookup. intros k s Hk. destruct (vp_stages p Hok k s Hk).
  eapply stage_codable_ok; try done.
  - exact (elem_lookup _ _ _ _ (wf_stages p Hw) Hk).
  - exact (elem_lookup _ _ _ _ Hm Hk).
Qed.

Definition unparameterized (p : PipelineIr) : Prop :=
  parameters p = [] /\ parameter_values p = [] /\ expressions p = [].

Lemma parameters_identify p q m s t :
  section_codable p -> section_codable q ->
  (m < 1 -> unparameterized p) -> (m < 1 -> unparameterized q) ->
  (if 1 <=? m then w_parameter_section p else "") +:+ s
  = (if 1 <=? m then w_parameter_section q else "") +:+ t ->
  same_parameters p q /\ s = t.
Proof.
  intros Cp Cq Zp Zq E. destruct (Z.leb_spec 1 m); [by apply section_identifies|].
  destruct Zp as (? & ? & ?), Zq as (? & ? & ?); [done..|]. split; [|done].
  unfold same_parameters. split_and!; congruence.
Qed.

(** What the bytes say of two pipelines. *)
Lemma encode_identifies `{External} p q :
  pipeline_wf p -> pipeline_wf q ->
  mapping_ids_within MAX_WRITTEN_BYTES p -> mapping_ids_within MAX_WRITTEN_BYTES q ->
  pipeline_ok p -> pipeline_ok q ->
  encode_pipeline p = encode_pipeline q -> strip_pipeline p = strip_pipeline q.
Proof.
  intros Wp Wq Lp Lq Op Oq E. unfold encode_pipeline in E.
  pose proof (stages_codable_ok p Wp Lp Op) as Sp. pose proof (stages_codable_ok q Wq Lq Oq) as Sq.
  pose proof (section_codable_ok p Wp (vp_parameters p Op)) as Cp.
  pose proof (section_codable_ok q Wq (vp_parameters q Oq)) as Cq.
  destruct Op as [[Ma Mi] Zp Np _ _ [Tp Vp] _], Oq as [[Ma' Mi'] Zq Nq _ _ [Tq Vq] _].
  apply (sapp_inj_length MAGIC MAGIC _ _ eq_refl) in E as [_ E].
  apply unique_u16 in E as [Ema E]; [|lia..]. apply unique_u16 in E as [Emi E]; [|lia..].
  rewrite <- Emi in *. apply unique_string in E as [En E]; [|done..].
  apply parameters_identify in E as [(? & ? & ?) E]; [|done..].
  apply (codes_list _ _ _ (codes_stage (minor (schema p)))) in E as [Es E]; [|done..].
  rewrite <- (sapp_nil_r (if 9 <=? _ then w_list w_notify (notify p) else "")),
    <- (sapp_nil_r (if 9 <=? _ then w_list w_notify (notify q) else "")) in E.
  apply (codes_versioned (9 <=? _) [] _ _ (unique_list _ _ unique_target)) in E as [? _];
    [|split; [by apply notify_codable_ok|rewrite Z.leb_gt; done]..].
  assert (schema p = schema q) by (destruct (schema p), (schema q); simpl in *; congruence).
  unfold strip_pipeline. congruence.
Qed.

(** C16. The semantic digest names what a pipeline does.  Two pipelines the
    validator accepts with the same semantic digest agree on everything but
    provenance and source spans, or they exhibit a SHA-256 collision: no field
    a schema version leaves out of its encoding can differ, because validation
    forces it to be absent there.  The ids of connector mappings, whose length
    the validator does not check, are shorter than 4 GiB: the encoder writes
    lengths in 32 bits. *)
Theorem semantic_digest_identifies `{External} p q digest :
  pipeline_wf p -> pipeline_wf q ->
  mapping_ids_within MAX_WRITTEN_BYTES p -> mapping_ids_within MAX_WRITTEN_BYTES q ->
  semantic_digest p = Ok digest -> semantic_digest q = Ok digest ->
  strip_pipeline p = strip_pipeline q \/ sha256_collision.
Proof.
  intros Wp Wq Lp Lq (bp & Bp & [= <-])%bind_ok (bq & Bq & [= E])%bind_ok.
  apply bind_ok in Bp as ([] & Vp & [= <-]), Bq as ([] & Vq & [= <-]).
  apply sha256_eq_or_collision in E as [E|]; [|by right]. left. symmetry.
  apply encode_identifies; try done; by apply validate_pipeline_ok.
Qed.

(** The example compiled from another file, at other positions. *)
Definition moved_pipeline : PipelineIr :=
  Build_PipelineIr (schema example_pipeline) (name example_pipeline) (parameters example_pipeline)
    (parameter_values example_pipeline) (expressions example_pipeline) (stages example_pipeline)
    (notify example_pipeline) no_provenance no_span.

Lemma semantic_digest_identifies_witness :
  strip_pipeline example_pipeline = strip_pipeline moved_pipeline \/
  sha256_collision (H := Domain.example_external).
Proof.
  apply (semantic_digest_identifies (H := Domain.example_external) example_pipeline moved_pipeline
    (encode_pipeline example_pipeline)).
  - apply example_pipeline_wf.
  - destruct example_pipeline_wf as [? ? ? ?]. by split.
  - repeat constructor.
  - repeat constructor.
  - vm_compute. reflexivity.
  - vm_compute. reflexivity.
Defined.
