(* ===== verification/Components.v ===== *)
(** * Reusable components (crates/pipeline-ir/src/components.rs)

    Component packages named by the digest of their canonical bytes, the
    immutable catalog that holds them, and the expansion of an invocation into
    one concrete pipeline with a ledger of receipts, under independent limits.
    A [ComponentDigest] is its 32 bytes.  The recursion of [expand] and of
    [receipt_parent] is on fuel; ComponentExpansion.v shows that it never runs
    out. *)

From stdpp Require Import base gmap list strings pretty.
From Stdlib Require Import Ascii ZArith Lia.
From S2P Require Import Prelude Text Bytes Expression Domain Artifacts StrictYaml PipelineIr.
From S2P Require Import Canonical Compiler.

Open Scope Z_scope.

Definition COMPONENT_MAGIC : string := "MCLOVING-COMPONENT" +:+ nul.
Definition EXPANSION_MAGIC : string := "MCLOVING-EXPANSION" +:+ nul.
Definition MAX_COMPONENT_OUTPUTS : Z := 128.
Definition MAX_COMPONENT_DEPENDENCIES : Z := 128.
Definition MAX_EXPANDED_COMPONENTS : Z := 128.
Definition EXPANDED_NAME_PREFIX : string := "expanded.".
Definition EXPANDED_STAGE_ID_PREFIX_MAX_BYTES : Z := slen "c127.".

Record ComponentVersion := { cv_major : Z; cv_minor : Z }.

#[global] Instance ComponentVersion_eq_dec : EqDecision ComponentVersion.
Proof. solve_decision. Defined.

Definition COMPONENT_V1 : ComponentVersion := Build_ComponentVersion 1 0.

(** ** Errors *)

Inductive ComponentErrorCode : Type :=
| FloatingReference | InvalidReference | UnsupportedVersion | InvalidDefinition
| DigestMismatch | Substitution | MissingComponent | InputType | SecretInput | Cycle
| InvalidLimits | DepthLimit | ComponentLimit | OutputLimit | StageLimit | StepLimit | ByteLimit.

Record ComponentError := ComponentErr {
  ce_code : ComponentErrorCode;
  ce_path : string;
  ce_message : string
}.

(** An error, a panic of an [expect], or a fault of the model. *)
Inductive component_fault : Type :=
| Rejected (e : ComponentError)
| ComponentPanic
| ComponentFault.

Definition component_error (code : ComponentErrorCode) (path message : string) : component_fault :=
  Rejected (ComponentErr code path message).

Definition component_error_display (e : ComponentError) : string :=
  ce_path e +:+ ": " +:+ ce_message e.

(** The closures that keep the path of an IR error. *)
Definition from_ir (e : IrValidationError) : component_fault :=
  component_error InvalidDefinition (ir_path e) (ir_message e).

(** ** References *)

Definition to_reference (digest : string) : string := "sha256:" +:+ hex_of digest.

Definition hex_val (c : ascii) : Z :=
  if is_ascii_digit c then byte_val c - 48 else byte_val c - 87.

(** [u8::from_str_radix(pair, 16)] over [chunks_exact(2)]. *)
Fixpoint unhex (s : string) : string :=
  match s with
  | String a (String b s) => String (byte_of (16 * hex_val a + hex_val b)) (unhex s)
  | _ => EmptyString
  end.

Definition component_from_str (reference : string) : result component_fault string :=
  match strip_prefix "sha256:" reference with
  | None =>
      Err (component_error FloatingReference "$.component"
        "component references must use exact sha256:<64 lowercase hex> form")
  | Some hex =>
      check (negb (slen hex =? 64) || negb (all_bytes is_lower_hex hex))
        (component_error InvalidReference "$.component"
          "component digest must contain exactly 64 lowercase hexadecimal characters") ;;
      Ok (unhex hex)
  end.

(** ** The writer *)

Definition cw_u8 (value : Z) : string := be_bytes 1 value.
Definition cw_u16 (value : Z) : string := be_bytes 2 value.
(** [(value as u32).to_be_bytes()]: the low 32 bits. *)
Definition cw_u32 (value : Z) : string := be_bytes 4 value.
Definition cw_string (value : string) : string := cw_u32 (slen value) +:+ value.
Definition cw_bytes (value : string) : string := cw_u32 (slen value) +:+ value.

Definition cw_parameter_type (t : ParameterType) : string :=
  cw_u8 (match t with TyBool => 1 | TyInteger => 2 | TyString => 3 end).

Definition cw_parameter_value (v : ParameterValue) : string :=
  match v with
  | PBool b => cw_u8 1 +:+ cw_u8 (if b then 1 else 0)
  | PInteger z => cw_u8 2 +:+ i64_bytes z
  | PString s => cw_u8 3 +:+ cw_string s
  end.

Definition cw_input (entry : string * ParameterValue) : string :=
  cw_string (fst entry) +:+ cw_parameter_value (snd entry).
Definition cw_parameter_values (values : bmap ParameterValue) : string :=
  cw_u32 (llen values) +:+ enc_all cw_input values.

(** The loops over the outputs. *)
Definition cw_output (entry : string * ParameterType) : string :=
  cw_string (fst entry) +:+ cw_parameter_type (snd entry).
Definition cw_outputs (outputs : bmap ParameterType) : string :=
  cw_u32 (llen outputs) +:+ enc_all cw_output outputs.

(** ** Packages *)

Record ComponentInvocation := {
  in_digest : string;
  in_inputs : bmap ParameterValue
}.

Record VersionedComponent := {
  vc_version : ComponentVersion;
  vc_name : string;
  vc_pipeline : PipelineIr;
  vc_outputs : bmap ParameterType;
  vc_dependencies : list ComponentInvocation;
  vc_provenance : Provenance
}.

Definition component_validate_identifier (path value : string) : result component_fault () :=
  check (is_empty value || (16 * 1024 <? slen value)
         || negb (all_bytes is_name_byte value))
    (component_error InvalidDefinition path
      "must contain only bounded ASCII letters, digits, dot, underscore, or hyphen").

(** [s.trim_start_matches('$')]. *)
Fixpoint trim_dollars (s : string) : string :=
  match s with
  | String "$" s => trim_dollars s
  | _ => s
  end.

Definition component_validate `{External} (c : VersionedComponent) : result component_fault () :=
  check (negb (bool_decide (vc_version c = COMPONENT_V1)))
    (component_error UnsupportedVersion "$.version" "only reusable component v1.0 is accepted") ;;
  component_validate_identifier "$.name" (vc_name c) ;;
  check (MAX_IR_STRING_BYTES - slen EXPANDED_NAME_PREFIX <? slen (vc_name c))
    (component_error InvalidDefinition "$.name"
      "component name leaves no room for the generated expansion prefix") ;;
  map_err (fun e => component_error InvalidDefinition
      ("$.pipeline" +:+ trim_dollars (ir_path e)) (ir_message e))
    (validate_pipeline (vc_pipeline c)) ;;
  check (negb (llen (notify (vc_pipeline c)) =? 0))
    (component_error InvalidDefinition "$.pipeline.notify"
      "a component cannot declare notification targets; expansion carries none") ;;
  check (existsb (fun s => MAX_IR_STRING_BYTES - EXPANDED_STAGE_ID_PREFIX_MAX_BYTES
                           <? slen (stage_id s)) (stages (vc_pipeline c)))
    (component_error InvalidDefinition "$.pipeline.stages.id"
      "component stage ID leaves no room for the generated expansion prefix") ;;
  check (existsb (fun d => pd_secret (snd d)) (parameters (vc_pipeline c)))
    (component_error SecretInput "$.pipeline.parameters"
      "reusable component inputs cannot be secret; use attempt-scoped credential grants") ;;
  check (MAX_COMPONENT_OUTPUTS <? llen (vc_outputs c))
    (component_error OutputLimit "$.outputs"
      ("component output count exceeds " +:+ fmt_z MAX_COMPONENT_OUTPUTS)) ;;
  try_for (fun o => component_validate_identifier ("$.outputs." +:+ fst o) (fst o))
    (vc_outputs c) ;;
  check (MAX_COMPONENT_DEPENDENCIES <? llen (vc_dependencies c))
    (component_error ComponentLimit "$.dependencies"
      ("component dependency count exceeds " +:+ fmt_z MAX_COMPONENT_DEPENDENCIES)).

Definition component_new `{External} (name : string) (pipeline : PipelineIr)
    (outputs : bmap ParameterType) (dependencies : list ComponentInvocation)
    (provenance : Provenance) : result component_fault VersionedComponent :=
  let component := Build_VersionedComponent COMPONENT_V1 name pipeline outputs dependencies
    provenance in
  component_validate component ;;
  Ok component.

Definition cw_dependency (d : ComponentInvocation) : string :=
  in_digest d +:+ cw_parameter_values (in_inputs d).

(** The writer calls of [VersionedComponent::canonical_bytes]. *)
Definition encode_component (c : VersionedComponent) (pipeline : string) : string :=
  COMPONENT_MAGIC +:+ cw_u16 (cv_major (vc_version c)) +:+ cw_u16 (cv_minor (vc_version c))
  +:+ cw_string (vc_name c) +:+ cw_bytes pipeline +:+ cw_outputs (vc_outputs c)
  +:+ cw_u32 (llen (vc_dependencies c)) +:+ enc_all cw_dependency (vc_dependencies c).

Definition component_canonical_bytes `{External} (c : VersionedComponent) :
    result component_fault string :=
  component_validate c ;;
  pipeline ← map_err from_ir (canonical_bytes (vc_pipeline c));
  Ok (encode_component c pipeline).

Definition component_semantic_digest `{External} (c : VersionedComponent) :
    result component_fault string :=
  bytes ← component_canonical_bytes c;
  Ok (sha256 bytes).

(** ** The catalog *)

Definition ComponentCatalog : Type := gmap string VersionedComponent.

Definition insert_exact `{External} (expected : string) (component : VersionedComponent)
    (catalog : ComponentCatalog) : result component_fault ComponentCatalog :=
  actual ← component_semantic_digest component;
  check (negb (String.eqb actual expected))
    (component_error DigestMismatch "$.component"
      ("component package digest is " +:+ hex_of actual +:+ ", not declared digest "
       +:+ hex_of expected)) ;;
  match catalog !! expected with
  | Some existing =>
      here ← component_canonical_bytes existing;
      there ← component_canonical_bytes component;
      check (negb (String.eqb here there))
        (component_error Substitution "$.component"
          "a different component package already occupies this immutable digest") ;;
      Ok catalog
  | None => Ok (<[expected := component]> catalog)
  end.

Definition register `{External} (component : VersionedComponent) (catalog : ComponentCatalog) :
    result component_fault (string * ComponentCatalog) :=
  digest ← component_semantic_digest component;
  catalog ← insert_exact digest component catalog;
  Ok (digest, catalog).

(** ** Limits and receipts *)

Record ExpansionLimits := {
  lim_depth : Z;
  lim_components : Z;
  lim_stages : Z;
  lim_steps : Z;
  lim_canonical_bytes : Z
}.

Definition default_expansion_limits : ExpansionLimits :=
  Build_ExpansionLimits 8 128 128 4096 (256 * 1024).

Definition validate_limits (l : ExpansionLimits) : result component_fault () :=
  check ((lim_depth l =? 0) || (lim_components l =? 0) || (lim_stages l =? 0)
         || (lim_steps l =? 0) || (lim_canonical_bytes l =? 0))
    (component_error InvalidLimits "$.limits" "all expansion limits must be positive").

Record ComponentReceipt := {
  cr_path : string;
  cr_digest : string;
  cr_version : ComponentVersion;
  cr_inputs : bmap ParameterValue;
  cr_outputs : bmap ParameterType;
  cr_source_sha256 : string
}.

Record ExpandedPipeline := {
  ep_root : string;
  ep_pipeline : PipelineIr;
  ep_components : list ComponentReceipt
}.

(** [receipt_parent]; each step leaves a shorter path. *)
Fixpoint receipt_parent_go (fuel : nat) (path : string) : option string :=
  match fuel with
  | O => None
  | S fuel =>
      without_close ← strip_suffix "]" path;
      '(parent, index) ← rsplit_once ".dependencies[" without_close;
      if is_empty parent || is_empty index || negb (all_bytes is_ascii_digit index)
         || ((1 <? slen index) && starts_with "0" index)
      then None
      else if negb (String.eqb parent "$") && negb (is_some (receipt_parent_go fuel parent))
      then None
      else Some parent
  end.
Definition receipt_parent (path : string) : option string :=
  receipt_parent_go (String.length path) path.

Definition validate_receipt_path (path value : string) : result component_fault () :=
  check (MAX_IR_STRING_BYTES <? slen value)
    (component_error InvalidDefinition path
      ("component receipt path exceeds " +:+ fmt_z MAX_IR_STRING_BYTES +:+ " bytes")) ;;
  if String.eqb value "$" then Ok tt
  else check (negb (is_some (receipt_parent value)))
    (component_error InvalidDefinition path
      "component receipt path must use canonical $.dependencies[N] segments").

Definition validate_receipt_input (path : string) (input : string * ParameterValue) :
    result component_fault () :=
  let '(name, value) := input in
  component_validate_identifier (path +:+ ".inputs." +:+ name) name ;;
  check (contains_char "." name)
    (component_error InvalidDefinition (path +:+ ".inputs." +:+ name)
      "component input names must not contain dot") ;;
  match value with
  | PString value =>
      check (MAX_IR_STRING_BYTES <? slen value)
        (component_error InvalidDefinition (path +:+ ".inputs." +:+ name)
          ("component input string exceeds " +:+ fmt_z MAX_IR_STRING_BYTES +:+ " bytes"))
  | _ => Ok tt
  end.

(** The body of the loop over the receipts; [seen] is [seen_paths] before it. *)
Definition validate_receipt (index : nat) (seen : list string) (receipt : ComponentReceipt) :
    result component_fault () :=
  let path := "$.components[" +:+ fmt_nat index +:+ "]" in
  validate_receipt_path (path +:+ ".path") (cr_path receipt) ;;
  check (existsb (String.eqb (cr_path receipt)) seen)
    (component_error InvalidDefinition (path +:+ ".path")
      "expanded component receipt paths must be unique") ;;
  let seen := cr_path receipt :: seen in
  (if (0 <? index)%nat then
     match receipt_parent (cr_path receipt) with
     | None => Err ComponentPanic
     | Some parent =>
         check (negb (existsb (String.eqb parent) seen))
           (component_error InvalidDefinition (path +:+ ".path")
             "a component receipt must follow its parent receipt")
     end
   else Ok tt) ;;
  check (negb (bool_decide (cr_version receipt = COMPONENT_V1)))
    (component_error UnsupportedVersion (path +:+ ".version")
      "expanded component receipts must use component v1.0") ;;
  check (MAX_PARAMETERS <? llen (cr_inputs receipt))
    (component_error InvalidDefinition (path +:+ ".inputs")
      ("component input count exceeds " +:+ fmt_z MAX_PARAMETERS)) ;;
  try_for (validate_receipt_input path) (cr_inputs receipt) ;;
  check (MAX_COMPONENT_OUTPUTS <? llen (cr_outputs receipt))
    (component_error OutputLimit (path +:+ ".outputs")
      ("component output count exceeds " +:+ fmt_z MAX_COMPONENT_OUTPUTS)) ;;
  try_for (fun o => component_validate_identifier (path +:+ ".outputs." +:+ fst o) (fst o))
    (cr_outputs receipt).

Fixpoint validate_receipt_list (index : nat) (seen : list string)
    (receipts : list ComponentReceipt) : result component_fault () :=
  match receipts with
  | [] => Ok tt
  | receipt :: receipts =>
      validate_receipt index seen receipt ;;
      validate_receipt_list (S index) (cr_path receipt :: seen) receipts
  end.

Definition validate_receipts (e : ExpandedPipeline) : result component_fault () :=
  match ep_components e with
  | [] =>
      Err (component_error InvalidDefinition "$.components"
        "expanded component ledger must contain its root receipt")
  | root :: _ =>
      check (MAX_EXPANDED_COMPONENTS <? llen (ep_components e))
        (component_error ComponentLimit "$.components"
          ("expanded component receipt count exceeds " +:+ fmt_z MAX_EXPANDED_COMPONENTS)) ;;
      check (negb (String.eqb (cr_path root) "$"))
        (component_error InvalidDefinition "$.components[0].path"
          "the first expanded component receipt must be the root path $") ;;
      check (negb (String.eqb (cr_digest root) (ep_root e)))
        (component_error DigestMismatch "$.components[0].digest"
          "the root receipt digest must match the expanded pipeline root digest") ;;
      validate_receipt_list 0 [] (ep_components e)
  end.

Definition cw_receipt (r : ComponentReceipt) : string :=
  cw_string (cr_path r) +:+ cr_digest r +:+ cw_u16 (cv_major (cr_version r))
  +:+ cw_u16 (cv_minor (cr_version r)) +:+ cw_parameter_values (cr_inputs r)
  +:+ cw_outputs (cr_outputs r).

(** The writer calls of [ExpandedPipeline::canonical_bytes]. *)
Definition encode_expansion (e : ExpandedPipeline) (pipeline : string) : string :=
  EXPANSION_MAGIC +:+ ep_root e +:+ cw_u32 (llen (ep_components e))
  +:+ enc_all cw_receipt (ep_components e) +:+ cw_bytes pipeline.

Definition expanded_canonical_bytes `{External} (e : ExpandedPipeline) :
    result component_fault string :=
  map_err from_ir (validate_pipeline (ep_pipeline e)) ;;
  validate_receipts e ;;
  pipeline ← map_err from_ir (canonical_bytes (ep_pipeline e));
  Ok (encode_expansion e pipeline).

Definition expanded_semantic_digest `{External} (e : ExpandedPipeline) :
    result component_fault string :=
  bytes ← expanded_canonical_bytes e;
  Ok (sha256 bytes).

(** ** Expansion *)

(** [ExpansionState] without the catalog and the limits, which do not change. *)
Record ExpansionState := {
  es_active : gset string;
  es_receipts : list ComponentReceipt;
  es_stages : list Stage;
  es_step_count : Z
}.

Definition from_instance (path : string) (f : compile_fault) : component_fault :=
  match f with
  | Failed e => component_error InputType (path +:+ ".inputs") (compile_error_display e)
  | Faulted => ComponentFault
  end.

Definition prefix_stage (receipt_index : nat) (s : Stage) : Stage :=
  Build_Stage ("c" +:+ fmt_nat receipt_index +:+ "." +:+ stage_id s) (stage_name s)
    (stage_image s) (stage_steps s) (stage_artifacts s) (stage_source_span s).

(** The body of the loop over the stages of an instance. *)
Definition push_stage (limits : ExpansionLimits) (path : string) (receipt_index : nat)
    (st : ExpansionState) (s : Stage) : result component_fault ExpansionState :=
  check (lim_stages limits <=? llen (es_stages st))
    (component_error StageLimit path
      ("expanded stage count exceeds " +:+ fmt_z (lim_stages limits))) ;;
  let step_count := sat_add (es_step_count st) (llen (stage_steps s)) in
  check (lim_steps limits <? step_count)
    (component_error StepLimit path
      ("expanded step count exceeds " +:+ fmt_z (lim_steps limits))) ;;
  Ok (Build_ExpansionState (es_active st) (es_receipts st)
        (es_stages st ++ [prefix_stage receipt_index s]) step_count).

Definition receipt_for (invocation : ComponentInvocation) (path : string)
    (component : VersionedComponent) (instance : PipelineIr) : ComponentReceipt :=
  {| cr_path := path;
     cr_digest := in_digest invocation;
     cr_version := vc_version component;
     cr_inputs := parameter_values instance;
     cr_outputs := vc_outputs component;
     cr_source_sha256 := source_sha256 (vc_provenance component) |}.

Definition dependency_path (path : string) (index : nat) : string :=
  path +:+ ".dependencies[" +:+ fmt_nat index +:+ "]".

Definition missing_component (path digest : string) : component_fault :=
  component_error MissingComponent path
    ("component " +:+ hex_of digest +:+ " is not present in the immutable catalog").

Fixpoint expand `{External} (catalog : ComponentCatalog) (limits : ExpansionLimits) (fuel : nat)
    (invocation : ComponentInvocation) (path : string) (depth : Z) (st : ExpansionState) :
    result component_fault ExpansionState :=
  match fuel with
  | O => Err ComponentFault
  | S fuel =>
      let digest := in_digest invocation in
      check (lim_depth limits <? depth)
        (component_error DepthLimit path
          ("component expansion depth exceeds " +:+ fmt_z (lim_depth limits))) ;;
      check (lim_components limits <=? llen (es_receipts st))
        (component_error ComponentLimit path
          ("component invocation count exceeds " +:+ fmt_z (lim_components limits))) ;;
      component ← ok_or (catalog !! digest) (missing_component path digest);
      check (bool_decide (digest ∈ es_active st))
        (component_error Cycle path ("component cycle re-enters " +:+ hex_of digest)) ;;
      instance ← map_err (from_instance path)
        (instantiate_pipeline (vc_pipeline component) (in_inputs invocation));
      let receipt_index := length (es_receipts st) in
      let st := Build_ExpansionState ({[digest]} ∪ es_active st)
        (es_receipts st ++ [receipt_for invocation path component instance])
        (es_stages st) (es_step_count st) in
      st ← try_fold (fun st '(index, dependency) =>
             expand catalog limits fuel dependency (dependency_path path index) (depth + 1) st)
           st (imap pair (vc_dependencies component));
      actual ← component_semantic_digest component;
      check (negb (String.eqb actual digest))
        (component_error DigestMismatch path
          ("catalog package digest changed from " +:+ hex_of digest +:+ " to " +:+ hex_of actual)) ;;
      st ← try_fold (push_stage limits path receipt_index) st (stages instance);
      Ok (Build_ExpansionState (es_active st ∖ {[digest]}) (es_receipts st) (es_stages st)
            (es_step_count st))
  end.

(** The schema version [expand_component] gives the expanded stages. *)
Definition expansion_schema (stages : list Stage) : SchemaVersion :=
  if any_step is_checkout stages then IR_V1_7
  else if existsb (fun s => is_some (stage_image s)) stages then IR_V1_6
  else if any_step is_input_intent stages then IR_V1_5
  else if any_step is_cache_intent stages then IR_V1_4
  else if any_step is_connector stages then IR_V1_3
  else if any_step is_shell_process stages then IR_V1_2
  else IR_V1.

Definition expanded_pipeline (root : VersionedComponent) (stages : list Stage) : PipelineIr :=
  {| schema := expansion_schema stages;
     name := EXPANDED_NAME_PREFIX +:+ vc_name root;
     parameters := [];
     parameter_values := [];
     expressions := [];
     stages := stages;
     notify := [];
     provenance := Build_Provenance (source_id (vc_provenance root))
       (source_sha256 (vc_provenance root))
       (Build_CompilerIdentity "mcloving-component-expander" CARGO_PKG_VERSION);
     source_span := source_span (vc_pipeline root) |}.

(** An active path never repeats a digest of the catalog, so one level more
    than the catalog has packages is enough fuel. *)
Definition expand_component `{External} (root : ComponentInvocation)
    (catalog : ComponentCatalog) (limits : ExpansionLimits) :
    result component_fault ExpandedPipeline :=
  validate_limits limits ;;
  st ← expand catalog limits (S (size catalog)) root "$" 1 (Build_ExpansionState ∅ [] [] 0);
  root_component ← ok_or (catalog !! in_digest root)
    (missing_component "$.component" (in_digest root));
  let pipeline := expanded_pipeline root_component (es_stages st) in
  map_err from_ir (validate_pipeline pipeline) ;;
  let expanded := Build_ExpandedPipeline (in_digest root) pipeline (es_receipts st) in
  bytes ← expanded_canonical_bytes expanded;
  check (lim_canonical_bytes limits <? slen bytes)
    (component_error ByteLimit "$"
      ("expanded canonical bytes " +:+ fmt_z (slen bytes) +:+ " exceed limit "
       +:+ fmt_z (lim_canonical_bytes limits))) ;;
  Ok expanded.
