(* ===== verification/ComponentExpansion.v ===== *)
(** * What the expansion of a component computes

    [unfolds] says, without limits, fuel or mutable state, what an invocation
    unfolds to: the receipts of its dependency tree in the order of a
    depth-first walk, and the stages of its dependencies before its own, each
    prefixed with the position of its receipt.  [expand] computes exactly that
    as long as its limits allow, and its fuel never runs out. *)

From stdpp Require Import base gmap list strings pretty.
From Stdlib Require Import Ascii ZArith Lia.
From S2P Require Import Prelude Text Bytes Expression Domain Artifacts StrictYaml PipelineIr.
From S2P Require Import Canonical Compiler CanonicalParameters CanonicalStages Components.

Open Scope Z_scope.

Section Unfolding.
Context `{External} (catalog : ComponentCatalog).

(** [unfolds active height invocation path index receipts stages]: below the
    active packages, at most [height] levels deep and with [index] receipts
    before it, [invocation] adds [receipts] and [stages]. *)
Inductive unfolds : gset string -> nat -> ComponentInvocation -> string -> nat ->
    list ComponentReceipt -> list Stage -> Prop :=
| Unfolds active height invocation path index component instance receipts below :
    catalog !! in_digest invocation = Some component ->
    in_digest invocation ∉ active ->
    instantiate_pipeline (vc_pipeline component) (in_inputs invocation) = Ok instance ->
    component_semantic_digest component = Ok (in_digest invocation) ->
    unfolds_all ({[in_digest invocation]} ∪ active) height path 0 (S index)
      (vc_dependencies component) receipts below ->
    unfolds active (S height) invocation path index
      (receipt_for invocation path component instance :: receipts)
      (below ++ (prefix_stage index <$> stages instance))
with unfolds_all : gset string -> nat -> string -> nat -> nat -> list ComponentInvocation ->
    list ComponentReceipt -> list Stage -> Prop :=
| UnfoldsNone active height path position index :
    unfolds_all active height path position index [] [] []
| UnfoldsNext active height path position index dependency dependencies rs ss rs' ss' :
    unfolds active height dependency (dependency_path path position) index rs ss ->
    unfolds_all active height path (S position) (index + length rs) dependencies rs' ss' ->
    unfolds_all active height path position index (dependency :: dependencies)
      (rs ++ rs') (ss ++ ss').

End Unfolding.

Scheme unfolds_mind := Minimality for unfolds Sort Prop
with unfolds_all_mind := Minimality for unfolds_all Sort Prop.
Combined Scheme unfolds_both from unfolds_mind, unfolds_all_mind.

(** The state after receipts and stages were added. *)
Definition extended (st : ExpansionState) (rs : list ComponentReceipt) (ss : list Stage) :
    ExpansionState :=
  Build_ExpansionState (es_active st) (es_receipts st ++ rs) (es_stages st ++ ss)
    (sat_add (es_step_count st) (step_total ss)).

Definition within (limits : ExpansionLimits) (st : ExpansionState) : Prop :=
  llen (es_receipts st) <= lim_components limits /\ llen (es_stages st) <= lim_stages limits /\
  es_step_count st <= lim_steps limits.

Definition counted (st : ExpansionState) : Prop := 0 <= es_step_count st <= usize_max.

(** ** The loop over the stages of one instance *)

Lemma step_total_app a b : step_total (a ++ b) = step_total a + step_total b.
Proof. unfold step_total. induction a as [|s a IH]; cbn [foldr app]; [done|]. rewrite IH. lia. Qed.

Lemma step_total_prefixed index ss : step_total (prefix_stage index <$> ss) = step_total ss.
Proof. unfold step_total. induction ss as [|s ss IH]; cbn; [done|]. unfold step_total in IH. by rewrite IH. Qed.

Lemma sat_add_assoc a b c : 0 <= a -> 0 <= b -> 0 <= c -> sat_add (sat_add a b) c = sat_add a (b + c).
Proof. unfold sat_add. lia. Qed.

Lemma sat_add_le a b : 0 <= a <= usize_max -> 0 <= b -> a <= sat_add a b <= usize_max.
Proof. unfold sat_add. lia. Qed.

Lemma extended_nil st : counted st -> extended st [] [] = st.
Proof.
  intros [Hc Hm]. destruct st. unfold extended, sat_add. simpl in *. rewrite !app_nil_r. f_equal. lia.
Qed.

Lemma extended_counted st rs ss : counted st -> counted (extended st rs ss).
Proof.
  intros Hc. pose proof (step_total_nonneg ss). pose proof (sat_add_le _ (step_total ss) Hc).
  unfold counted in *. simpl. lia.
Qed.

Lemma extended_app st rs ss rs' ss' :
  counted st -> extended (extended st rs ss) rs' ss' = extended st (rs ++ rs') (ss ++ ss').
Proof.
  intros [Hc Hm]. unfold extended. simpl. rewrite <- !app_assoc, step_total_app.
  rewrite sat_add_assoc by (done || apply step_total_nonneg). done.
Qed.

Lemma within_extended limits st rs ss rs' ss' :
  counted st -> within limits (extended st (rs ++ rs') (ss ++ ss')) -> within limits (extended st rs ss).
Proof.
  intros Hc (Hr & Hs & Hn). rewrite <- extended_app in Hn by done.
  pose proof (sat_add_le (es_step_count (extended st rs ss)) (step_total ss')
    (extended_counted st rs ss Hc) (step_total_nonneg ss')).
  simpl in *. rewrite !llen_app in *. pose proof (llen_nonneg rs'). pose proof (llen_nonneg ss').
  unfold within. simpl. rewrite !llen_app. lia.
Qed.

Lemma within_extended_self limits st rs ss :
  counted st -> within limits (extended st rs ss) -> within limits st.
Proof.
  intros Hc Hw. rewrite <- (extended_nil st) by done. by apply (within_extended _ _ [] [] rs ss).
Qed.

Lemma push_stage_ok limits path index st s st' :
  counted st ->
  push_stage limits path index st s = Ok st' <->
  st' = extended st [] [prefix_stage index s] /\
  llen (es_stages st') <= lim_stages limits /\ es_step_count st' <= lim_steps limits.
Proof.
  intros [Hc Hm]. unfold push_stage. rewrite guard_ok. cbv zeta. rewrite guard_ok.
  assert (extended st [] [prefix_stage index s] = Build_ExpansionState (es_active st)
    (es_receipts st) (es_stages st ++ [prefix_stage index s])
    (sat_add (es_step_count st) (llen (stage_steps s)))) as ->.
  { unfold extended, step_total. simpl. by rewrite app_nil_r, Z.add_0_r. }
  rewrite Z.leb_gt, Z.ltb_ge. split.
  - intros (H1 & H2 & [= <-]). simpl. rewrite llen_app. unfold llen in *. simpl in *.
    split_and!; [done|lia|lia].
  - intros (-> & H1 & H2). simpl in *. rewrite llen_app in H1. unfold llen in *. simpl in *.
    split_and!; [lia|lia|done].
Qed.

Lemma push_stages_ok limits path index st ss st' :
  counted st -> within limits st ->
  try_fold (push_stage limits path index) st ss = Ok st' <->
  st' = extended st [] (prefix_stage index <$> ss) /\ within limits st'.
Proof.
  revert st. induction ss as [|s ss IH]; intros st Hc Hw; cbn [try_fold].
  { rewrite fmap_nil, extended_nil by done. split; [intros [= <-]; done|intros [-> _]; done]. }
  rewrite bind_ok, fmap_cons.
  pose proof (extended_app st [] [prefix_stage index s] [] (prefix_stage index <$> ss) Hc) as E.
  cbn [app] in E. rewrite <- E. clear E. split.
  - intros (st1 & (-> & H1 & H2)%push_stage_ok & Hf); [|done].
    apply IH in Hf; [done|by apply extended_counted|]. split; [|done].
    simpl. rewrite app_nil_r. apply Hw.
  - intros [-> Hw']. exists (extended st [] [prefix_stage index s]).
    pose proof (within_extended_self _ _ _ _ (extended_counted st [] [prefix_stage index s] Hc) Hw')
      as Hw1. split.
    + apply push_stage_ok; [done|]. split; [done|]. apply Hw1.
    + apply IH; [by apply extended_counted|done|done].
Qed.

(** ** The recursion *)

Section Expanding.
Context `{External} (catalog : ComponentCatalog) (limits : ExpansionLimits).

(** The levels the depth limit leaves. *)
Definition levels (depth : Z) : nat := Z.to_nat (lim_depth limits - depth + 1).

(** The loop over the dependencies from position [k]. *)
Definition expand_all (fuel : nat) (path : string) (depth : Z) (k : nat) (st : ExpansionState)
    (dependencies : list ComponentInvocation) : result component_fault ExpansionState :=
  try_fold (fun st '(index, dependency) =>
    expand catalog limits fuel dependency (dependency_path path index) (depth + 1) st)
    st (imap (fun i d => ((k + i)%nat, d)) dependencies).

Lemma expand_all_cons fuel path depth k st d ds :
  expand_all fuel path depth k st (d :: ds) =
  st ← expand catalog limits fuel d (dependency_path path k) (depth + 1) st;
  expand_all fuel path depth (S k) st ds.
Proof.
  unfold expand_all. rewrite imap_cons. cbn [try_fold]. rewrite Nat.add_0_r.
  destruct (expand _ _ _ _ _ _ _); [|done]. cbn [mbind result_bind]. f_equal.
  apply imap_ext. intros i x _. simpl. f_equal. lia.
Qed.

(** The state once the receipt is pushed. *)
Definition opened (invocation : ComponentInvocation) (path : string)
    (component : VersionedComponent) (instance : PipelineIr) (st : ExpansionState) :
    ExpansionState :=
  Build_ExpansionState ({[in_digest invocation]} ∪ es_active st)
    (es_receipts st ++ [receipt_for invocation path component instance])
    (es_stages st) (es_step_count st).

Definition closed (digest : string) (st : ExpansionState) : ExpansionState :=
  Build_ExpansionState (es_active st ∖ {[digest]}) (es_receipts st) (es_stages st)
    (es_step_count st).

Lemma expand_step fuel invocation path depth st st' :
  expand catalog limits (S fuel) invocation path depth st = Ok st' <->
  depth <= lim_depth limits /\ llen (es_receipts st) < lim_components limits /\
  exists component instance st1 st2,
    catalog !! in_digest invocation = Some component /\ in_digest invocation ∉ es_active st /\
    instantiate_pipeline (vc_pipeline component) (in_inputs invocation) = Ok instance /\
    expand_all fuel path depth 0 (opened invocation path component instance st)
      (vc_dependencies component) = Ok st1 /\
    component_semantic_digest component = Ok (in_digest invocation) /\
    try_fold (push_stage limits path (length (es_receipts st))) st1 (stages instance) = Ok st2 /\
    st' = closed (in_digest invocation) st2.
Proof.
  cbn [expand]. cbv zeta. rewrite !guard_ok, Z.ltb_ge, Z.leb_gt.
  apply and_iff_compat_l, and_iff_compat_l. rewrite bind_ok. split.
  - intros (c & Hc & Hr). destruct (catalog !! _) as [c'|]; [|done]. injection Hc as ->.
    apply guard_ok in Hr as [Ha%bool_decide_eq_false Hr].
    apply bind_ok in Hr as (i & Hi%map_err_ok & Hr). apply bind_ok in Hr as (st1 & H1 & Hr).
    apply bind_ok in Hr as (actual & Hd & Hr). apply guard_ok in Hr as [E Hr].
    apply negb_false_iff, String.eqb_eq in E as ->. apply bind_ok in Hr as (st2 & H2 & [= <-]).
    exists c, i, st1, st2. done.
  - intros (c & i & st1 & st2 & -> & Ha & Hi & H1 & Hd & H2 & ->). exists c. split; [done|].
    apply guard_ok. split; [by apply bool_decide_eq_false|].
    apply bind_ok. exists i. split; [by apply map_err_ok|]. apply bind_ok. exists st1.
    split; [exact H1|]. apply bind_ok. exists (in_digest invocation). split; [done|].
    apply guard_ok. rewrite String.eqb_refl. split; [done|]. apply bind_ok. by exists st2.
Qed.

Lemma opened_within invocation path component instance st :
  within limits st -> llen (es_receipts st) < lim_components limits ->
  within limits (opened invocation path component instance st).
Proof.
  intros (Hr & Hs & Hn) Hlt. split_and!; [|done..]. simpl. rewrite llen_app. unfold llen in *.
  simpl. lia.
Qed.

(** What one invocation leaves behind, its dependencies and stages added. *)
Lemma closed_extended invocation path component instance st rs below ss :
  in_digest invocation ∉ es_active st -> counted st ->
  closed (in_digest invocation)
    (extended (extended (opened invocation path component instance st) rs below) [] ss)
  = extended st (receipt_for invocation path component instance :: rs) (below ++ ss).
Proof.
  intros Ha Hc. rewrite extended_app by done. unfold closed, extended, opened. simpl.
  rewrite app_nil_r, <- !app_assoc. f_equal. apply set_eq. set_solver.
Qed.

Lemma levels_S depth : depth <= lim_depth limits -> levels depth = S (levels (depth + 1)).
Proof. unfold levels. lia. Qed.

Lemma expand_sound fuel invocation path depth st st' :
  counted st -> within limits st ->
  expand catalog limits fuel invocation path depth st = Ok st' ->
  exists rs ss,
    unfolds catalog (es_active st) (levels depth) invocation path (length (es_receipts st)) rs ss /\
    st' = extended st rs ss /\ within limits st'.
Proof.
  revert invocation path depth st st'. induction fuel as [|fuel IH];
    intros invocation path depth st st' Hc Hw He; [done|].
  apply expand_step in He as (Hd & Hlt & c & i & st1 & st2 & Hcat & Ha & Hi & Hall & Hdig & Hp & ->).
  assert (forall ds k st0 st1, counted st0 -> within limits st0 ->
    expand_all fuel path depth k st0 ds = Ok st1 ->
    exists rs ss, unfolds_all catalog (es_active st0) (levels (depth + 1)) path k
      (length (es_receipts st0)) ds rs ss /\ st1 = extended st0 rs ss /\ within limits st1) as IHs.
  { intros ds. induction ds as [|d ds IHd]; intros k st0 st' Hc0 Hw0 E.
    - injection E as <-. exists [], []. rewrite extended_nil by done. split_and!; [constructor|done..].
    - rewrite expand_all_cons in E. apply bind_ok in E as (sta & E & Es).
      apply IH in E as (rs & ss & Hu & -> & Hwa); [|done..].
      apply IHd in Es as (rs' & ss' & Hus & -> & Hwb); [|by apply extended_counted|done].
      simpl in Hus. rewrite length_app in Hus. exists (rs ++ rs'), (ss ++ ss').
      rewrite <- extended_app by done. split_and!; [by econstructor|done..]. }
  apply IHs in Hall as (rs & below & Hu & -> & Hw1); [|done|by apply opened_within].
  apply push_stages_ok in Hp as [-> Hw2]; [|by apply extended_counted|done].
  rewrite closed_extended by done. eexists _, _. rewrite levels_S by done. split_and!; [|done|].
  - econstructor; [done..|]. simpl in Hu. rewrite length_app in Hu. simpl in Hu.
    by rewrite Nat.add_1_r in Hu.
  - rewrite <- (closed_extended invocation path c i st rs below) by done.
    destruct Hw2 as (? & ? & ?). done.
Qed.

(** The packages a deeper level can still enter. *)
Definition unentered (st : ExpansionState) : nat := size (dom catalog ∖ es_active st).

Lemma unentered_opened invocation path component instance st fuel :
  catalog !! in_digest invocation = Some component -> in_digest invocation ∉ es_active st ->
  (unentered st < S fuel)%nat ->
  (unentered (opened invocation path component instance st) < fuel)%nat.
Proof.
  intros Hc Ha Hf. unfold unentered in *. simpl.
  assert (dom catalog ∖ es_active st = {[in_digest invocation]} ∪
    (dom catalog ∖ ({[in_digest invocation]} ∪ es_active st))) as E.
  { apply elem_of_dom_2 in Hc. apply set_eq. intros x.
    destruct (decide (x = in_digest invocation)); set_solver. }
  rewrite E, size_union, size_singleton in Hf by set_solver. lia.
Qed.

Lemma expand_complete_both :
  (forall active height invocation path index rs ss,
     unfolds catalog active height invocation path index rs ss ->
     forall st depth fuel, active = es_active st -> index = length (es_receipts st) ->
     height = levels depth -> counted st -> within limits (extended st rs ss) ->
     (unentered st < fuel)%nat ->
     expand catalog limits fuel invocation path depth st = Ok (extended st rs ss)) /\
  (forall active height path position index ds rs ss,
     unfolds_all catalog active height path position index ds rs ss ->
     forall st depth fuel, active = es_active st -> index = length (es_receipts st) ->
     height = levels (depth + 1) -> counted st -> within limits (extended st rs ss) ->
     (unentered st < fuel)%nat ->
     expand_all fuel path depth position st ds = Ok (extended st rs ss)).
Proof.
  apply (unfolds_both _ catalog).
  - intros active height inv path index c i rs below Hc Ha Hi Hd Hu IH st depth fuel -> -> Hh Hct Hw Hf.
    destruct fuel as [|fuel]; [lia|].
    pose proof (closed_extended inv path c i st rs below
      (prefix_stage (length (es_receipts st)) <$> stages i) Ha Hct) as E.
    assert (within limits (extended (opened inv path c i st) rs below)) as Hwb.
    { apply (within_extended _ _ _ _ [] (prefix_stage (length (es_receipts st)) <$> stages i));
        [done|]. rewrite <- extended_app by done. rewrite <- E in Hw. destruct Hw as (? & ? & ?). done. }
    apply expand_step. unfold levels in Hh. split; [lia|]. split.
    { destruct Hw as [Hw _]. simpl in Hw. rewrite llen_app, llen_cons in Hw.
      pose proof (llen_nonneg rs). lia. }
    exists c, i, (extended (opened inv path c i st) rs below).
    exists (extended (extended (opened inv path c i st) rs below) []
      (prefix_stage (length (es_receipts st)) <$> stages i)).
    split_and!; try done.
    + apply IH; try done; [|unfold levels; lia|by eapply unentered_opened].
      simpl. rewrite length_app. simpl. lia.
    + apply push_stages_ok; [by apply extended_counted|done|]. split; [done|].
      rewrite <- E in Hw. destruct Hw as (? & ? & ?). done.
  - intros active height path position index st depth fuel -> -> Hh Hct Hw Hf.
    by rewrite extended_nil.
  - intros active height path position index d ds rs ss rs' ss' _ IH _ IHs st depth fuel -> -> Hh Hct Hw Hf.
    rewrite expand_all_cons, (IH st (depth + 1) fuel); try done.
    + cbn [mbind result_bind]. rewrite (IHs (extended st rs ss) depth fuel); try done.
      * by rewrite extended_app.
      * simpl. by rewrite length_app.
      * by apply extended_counted.
      * by rewrite extended_app.
    + by eapply within_extended.
Qed.

Lemma expand_complete st invocation path rs ss depth fuel :
  unfolds catalog (es_active st) (levels depth) invocation path (length (es_receipts st)) rs ss ->
  counted st -> within limits (extended st rs ss) -> (unentered st < fuel)%nat ->
  expand catalog limits fuel invocation path depth st = Ok (extended st rs ss).
Proof. intros Hu. by apply (proj1 expand_complete_both _ _ _ _ _ _ _ Hu). Qed.

End Expanding.

(** ** Fuel *)

(** A fault that is an error of the program. *)
Definition is_error (f : component_fault) : Prop :=
  match f with Rejected _ => True | _ => False end.

Lemma instantiate_not_faulted `{External} p inputs :
  errs_in (fun f => f <> Faulted) (instantiate_pipeline p inputs).
Proof.
  unfold instantiate_pipeline, bind_parameter_values, bind_parameter, resolve_binding, fail_schema.
  errs_solve.
Qed.

Lemma component_validate_clean `{External} c : errs_in is_error (component_validate c).
Proof. unfold component_validate, component_validate_identifier. errs_solve. Qed.

Lemma component_digest_clean `{External} c : errs_in is_error (component_semantic_digest c).
Proof.
  unfold component_semantic_digest, component_canonical_bytes.
  apply errs_bind; [apply errs_bind; [apply component_validate_clean|]|]; intros; errs_solve.
Qed.

Lemma expand_clean `{External} catalog limits fuel invocation path depth st :
  counted st -> within limits st -> (unentered catalog st < fuel)%nat ->
  errs_in is_error (expand catalog limits fuel invocation path depth st).
Proof.
  revert invocation path depth st. induction fuel as [|fuel IH];
    intros invocation path depth st Hct Hw Hf; [lia|]. cbn [expand]. cbv zeta.
  apply errs_bind; [by apply errs_check|intros _ _]. apply errs_bind; [by apply errs_check|].
  intros [] Hlt%check_ok%Z.leb_gt. destruct (catalog !! _) as [c|] eqn:Hc; [|by apply errs_err].
  cbn [ok_or mbind result_bind]. apply errs_bind; [by apply errs_check|].
  intros [] Ha%check_ok%bool_decide_eq_false. apply errs_bind.
  { apply errs_map_err. intros e He. apply instantiate_not_faulted in He. by destruct e. }
  intros i _. change (Build_ExpansionState ({[in_digest invocation]} ∪ es_active st) _ _ _)
    with (opened invocation path c i st).
  pose proof (opened_within limits invocation path c i st Hw Hlt) as Hwo.
  pose proof (unentered_opened catalog invocation path c i st fuel Hc Ha Hf) as Hfo.
  apply errs_bind.
  - change (errs_in is_error (expand_all catalog limits fuel path depth 0
      (opened invocation path c i st) (vc_dependencies c))).
    assert (counted (opened invocation path c i st)) as Hco by done. revert Hco Hwo Hfo.
    generalize (opened invocation path c i st). generalize 0%nat.
    induction (vc_dependencies c) as [|d ds IHd]; intros k st0 Hc0 Hw0 Hf0; [done|].
    rewrite expand_all_cons. apply errs_bind; [by apply IH|]. intros st1 H1.
    apply expand_sound in H1 as (rs & ss & _ & -> & Hw1); [|done..].
    apply IHd; [by apply extended_counted|done|done].
  - intros st1 _. apply errs_bind; [apply component_digest_clean|]. intros. unfold push_stage.
    errs_solve.
Qed.
