(* ===== verification/ComponentReceipts.v ===== *)
(** * Receipt paths name the nodes of a tree

    A receipt path is [$] or a parent path with [.dependencies[N]] appended.
    [node_path] renders a position of the invocation tree; [receipt_parent]
    reads the parent back, whatever its length, and distinct positions have
    distinct paths. *)

From stdpp Require Import base gmap list strings pretty.
From Stdlib Require Import Ascii ZArith Lia.
From S2P Require Import Prelude Text Bytes Expression Domain Artifacts PipelineIr Canonical.
From S2P Require Import Components.

Open Scope Z_scope.

(** ** Decimal indices *)

Lemma fmt_nat_decimal n : all_bytes is_ascii_digit (fmt_nat n) = true /\ fmt_nat n <> "".
Proof. destruct (pretty_N_digits (N.of_nat n)) as (? & _ & ?). done. Qed.

Lemma fmt_nat_inj n k : fmt_nat n = fmt_nat k -> n = k.
Proof. apply (inj pretty). Qed.

Lemma fmt_nat_small n : (n < 128)%nat -> slen (fmt_nat n) <= 3.
Proof.
  intros Hn. assert (Forall (fun n => slen (fmt_nat n) <= 3) (seq 0 128)) as Hf
    by (apply (bool_decide_unpack _); by vm_compute).
  rewrite Forall_forall in Hf. apply Hf, elem_of_seq. lia.
Qed.

(** Digits end where another character follows them. *)
Lemma digits_end a b c s t :
  all_bytes is_ascii_digit a = true -> all_bytes is_ascii_digit b = true ->
  is_ascii_digit c = false -> a +:+ String c s = b +:+ String c t -> a = b /\ s = t.
Proof.
  revert b. induction a as [|x a IH]; intros [|y b] Ha Hb Hc E; cbn in *.
  - by injection E as ->.
  - injection E as -> _. by rewrite Hc in Hb.
  - injection E as -> _. by rewrite Hc in Ha.
  - apply andb_true_iff in Ha as [_ Ha], Hb as [_ Hb]. injection E as -> E.
    by destruct (IH b Ha Hb Hc E) as [-> ->].
Qed.

Lemma pretty_N_go_leading n s : (0 < n)%N -> exists c t, pretty_N_go n s = String c t /\ c <> "0"%char.
Proof.
  revert s. induction (N.lt_wf_0 n) as [n _ IH]; intros s Hn. rewrite pretty_N_go_step by done.
  destruct (decide (n / 10 = 0)%N) as [E|E].
  - rewrite E, pretty_N_go_0. eexists _, _. split; [done|].
    assert (n < 10)%N as Hlt by (apply N.div_small_iff; lia). rewrite N.mod_small by done.
    destruct n as [|p]; [lia|]. do 4 (destruct p as [p|p|]; try (by exfalso; lia); try done).
  - apply IH; [by apply N.div_lt|by apply N.neq_0_lt_0].
Qed.

(** A formatted number has no leading zero. *)
Lemma fmt_nat_canonical n : ((1 <? slen (fmt_nat n)) && starts_with "0" (fmt_nat n)) = false.
Proof.
  unfold fmt_nat, pretty, pretty_nat, pretty, pretty_N. case_decide as E; [done|].
  destruct (pretty_N_go_leading (N.of_nat n) "" ltac:(lia)) as (c & t & -> & Hc).
  rewrite andb_false_iff. right. unfold starts_with. cbn [strip_prefix].
  by rewrite (proj2 (Ascii.eqb_neq "0" c)).
Qed.

(** ** Suffixes *)

Lemma srev_app_app a b : srev_app a b = srev a +:+ b.
Proof.
  unfold srev. revert b. induction a as [|c a IH]; intros b; cbn [srev_app]; [done|].
  rewrite IH, (IH (String c "")), sapp_assoc. done.
Qed.

Lemma srev_string c s : srev (String c s) = srev s +:+ String c "".
Proof. exact (srev_app_app s (String c "")). Qed.

Lemma srev_sapp a b : srev (a +:+ b) = srev b +:+ srev a.
Proof.
  induction a as [|c a IH]; [by rewrite sapp_nil_r|]. cbn [String.append].
  by rewrite !srev_string, IH, sapp_assoc.
Qed.

Lemma srev_involutive s : srev (srev s) = s.
Proof. induction s as [|c s IH]; [done|]. by rewrite srev_string, srev_sapp, IH. Qed.

Lemma strip_suffix_Some p s t : strip_suffix p s = Some t <-> s = t +:+ p.
Proof.
  unfold strip_suffix. rewrite fmap_Some. split.
  - intros (x & Hx%strip_prefix_Some & ->). rewrite <- (srev_involutive s), Hx, srev_sapp.
    by rewrite srev_involutive.
  - intros ->. exists (srev t). rewrite srev_sapp, strip_prefix_app, srev_involutive. done.
Qed.

Lemma rsplit_once_Some p s l r : rsplit_once p s = Some (l, r) -> s = l +:+ p +:+ r.
Proof.
  revert l. induction s as [|c s IH]; intros l; cbn [rsplit_once].
  - intros (x & Hx%strip_prefix_Some & [= -> ->])%fmap_Some. exact Hx.
  - destruct (rsplit_once p s) as [[l' r']|].
    + intros [= <- <-]. cbn [String.append]. by rewrite <- (IH l').
    + intros (x & Hx%strip_prefix_Some & [= -> ->])%fmap_Some. exact Hx.
Qed.

Lemma rsplit_once_absent c q s : all_bytes (fun x => negb (Ascii.eqb x c)) s = true ->
  rsplit_once (String c q) s = None.
Proof.
  induction s as [|x s IH]; intros Hs; [done|]. cbn in Hs. apply andb_true_iff in Hs as [Hx Hs].
  cbn [rsplit_once]. rewrite (IH Hs). cbn [strip_prefix].
  rewrite Ascii.eqb_sym, (proj1 (negb_true_iff _) Hx). done.
Qed.

(** The last occurrence is the one after which the first character of the
    pattern does not come again. *)
Lemma rsplit_once_last c q l r :
  all_bytes (fun x => negb (Ascii.eqb x c)) (q +:+ r) = true ->
  rsplit_once (String c q) (l +:+ String c q +:+ r) = Some (l, r).
Proof.
  intros Hr. induction l as [|x l IH].
  - cbn [String.append rsplit_once]. rewrite rsplit_once_absent by done.
    change (String c (q +:+ r)) with (String c q +:+ r). by rewrite strip_prefix_app.
  - change (rsplit_once (String c q) (String x (l +:+ String c q +:+ r)) = Some (String x l, r)).
    cbn [rsplit_once]. by rewrite IH.
Qed.

(** ** The parent of a path *)

Definition dependency_mark : string := ".dependencies[".

(** One level of [receipt_parent]: the parent and whether the index is written
    canonically. *)
Definition last_segment (path : string) : option string :=
  without_close ← strip_suffix "]" path;
  '(parent, index) ← rsplit_once dependency_mark without_close;
  if is_empty parent || is_empty index || negb (all_bytes is_ascii_digit index)
     || ((1 <? slen index) && starts_with "0" index)
  then None else Some parent.

Lemma receipt_parent_go_S fuel path :
  receipt_parent_go (S fuel) path =
  match last_segment path with
  | Some parent =>
      if negb (String.eqb parent "$") && negb (is_some (receipt_parent_go fuel parent))
      then None else Some parent
  | None => None
  end.
Proof.
  cbn [receipt_parent_go]. unfold last_segment. destruct (strip_suffix _ _); [|done].
  cbn [mbind option_bind]. unfold dependency_mark. destruct (rsplit_once _ _) as [[]|]; [|done].
  cbn [mbind option_bind]. by destruct (_ || _).
Qed.

Lemma last_segment_shorter path parent :
  last_segment path = Some parent -> (String.length parent < String.length path)%nat.
Proof.
  unfold last_segment. destruct (strip_suffix _ _) as [w|] eqn:E; [|done]. cbn [mbind option_bind].
  apply strip_suffix_Some in E as ->. destruct (rsplit_once _ _) as [[l r]|] eqn:E; [|done].
  apply rsplit_once_Some in E as ->. cbn [mbind option_bind]. destruct (_ || _); [done|].
  intros [= <-]. rewrite !string_length_app. simpl. lia.
Qed.

Lemma receipt_parent_fuel f g path :
  (String.length path <= f)%nat -> (String.length path <= g)%nat ->
  receipt_parent_go f path = receipt_parent_go g path.
Proof.
  revert g path. induction f as [|f IH]; intros g path Hf Hg.
  { destruct path; [|simpl in Hf; lia]. by destruct g. }
  destruct g as [|g]; [destruct path; [done|simpl in Hg; lia]|].
  rewrite !receipt_parent_go_S. destruct (last_segment path) as [parent|] eqn:E; [|done].
  apply last_segment_shorter in E. rewrite (IH g parent) by lia. done.
Qed.

(** [receipt_parent] satisfies the equation of its recursion: the fuel is
    enough. *)
Lemma receipt_parent_eq path :
  receipt_parent path =
  match last_segment path with
  | Some parent =>
      if negb (String.eqb parent "$") && negb (is_some (receipt_parent parent))
      then None else Some parent
  | None => None
  end.
Proof.
  unfold receipt_parent at 1. destruct path as [|c path]; [done|]. cbn [String.length].
  rewrite receipt_parent_go_S. destruct (last_segment _) as [parent|] eqn:E; [|done].
  apply last_segment_shorter in E. simpl in E. unfold receipt_parent.
  rewrite (receipt_parent_fuel _ (String.length parent)) by lia. done.
Qed.

(** ** Positions of the invocation tree *)

Definition node_path (position : list nat) : string := foldl dependency_path "$" position.

Lemma node_path_snoc l k : node_path (l ++ [k]) = dependency_path (node_path l) k.
Proof. unfold node_path. by rewrite foldl_app. Qed.

Lemma digits_no_dot s :
  all_bytes is_ascii_digit s = true -> all_bytes (fun x => negb (Ascii.eqb x ".")) s = true.
Proof. apply all_bytes_impl. intros c Hc. destruct (Ascii.eqb_spec c "."); [by subst|done]. Qed.

Lemma last_segment_dependency path k :
  path <> "" -> last_segment (dependency_path path k) = Some path.
Proof.
  intros Hp. unfold last_segment, dependency_path. destruct (fmt_nat_decimal k) as [Hd Hne].
  assert (strip_suffix "]" (path +:+ dependency_mark +:+ fmt_nat k +:+ "]")
    = Some (path +:+ dependency_mark +:+ fmt_nat k)) as E
    by (apply strip_suffix_Some; by rewrite !sapp_assoc).
  unfold dependency_mark in E. rewrite E. cbn [mbind option_bind].
  unfold dependency_mark. rewrite rsplit_once_last.
  - cbn [mbind option_bind]. rewrite Hd, fmt_nat_canonical.
    destruct path; [done|]. by destruct (fmt_nat k).
  - rewrite all_bytes_app, (digits_no_dot _ Hd). done.
Qed.

Lemma node_path_nonempty l : node_path l <> "".
Proof.
  induction l as [|k l IH] using rev_ind; [done|]. rewrite node_path_snoc. unfold dependency_path.
  by destruct (node_path l).
Qed.

(** The parent of a node's path is the path of its parent. *)
Lemma receipt_parent_node l k : receipt_parent (node_path (l ++ [k])) = Some (node_path l).
Proof.
  revert k. induction l as [|j l IH] using rev_ind; intros k.
  - rewrite node_path_snoc, receipt_parent_eq, last_segment_dependency by done. done.
  - rewrite node_path_snoc, receipt_parent_eq, last_segment_dependency by apply node_path_nonempty.
    rewrite IH. cbn [is_some negb]. by rewrite andb_false_r.
Qed.

Lemma node_path_root l k : node_path (l ++ [k]) <> "$".
Proof.
  intros E. pose proof (receipt_parent_node l k) as Hp. rewrite E in Hp. by vm_compute in Hp.
Qed.

(** Distinct nodes have distinct paths. *)
Lemma node_path_inj l l' : node_path l = node_path l' -> l = l'.
Proof.
  revert l'. induction l as [|k l IH] using rev_ind; intros l' E;
    destruct l' as [|k' l' _] using rev_ind; [done|by apply symmetry, node_path_root in E
      |by apply node_path_root in E|].
  pose proof (f_equal receipt_parent E) as Ep. rewrite !receipt_parent_node in Ep.
  injection Ep as Ep. rewrite !node_path_snoc, <- Ep in E. apply IH in Ep as ->.
  unfold dependency_path in E. apply sapp_inj in E. apply sapp_inj, sapp_inv_tail, fmt_nat_inj in E.
  by subst.
Qed.

Lemma node_path_length l :
  Forall (fun k => (k < 128)%nat) l -> slen (node_path l) <= 1 + 18 * llen l.
Proof.
  induction l as [|k l IH] using rev_ind; [done|]. rewrite Forall_app, Forall_singleton.
  intros [Hl Hk]. rewrite node_path_snoc. unfold dependency_path. rewrite !slen_app, llen_app.
  specialize (IH Hl). pose proof (fmt_nat_small k Hk). unfold llen at 2. cbn [length].
  change (slen ".dependencies[") with 14. change (slen "]") with 1. lia.
Qed.
