(* ===== verification/ComponentLedger.v ===== *)
(** * Every ledger the expansion builds is valid

    [expand_component] validates the pipeline and the receipts it assembled.
    Those checks can only fail for the fixed limits of the pipeline IR and for
    declared artifacts: a stage that is valid in its component is valid in any
    position of the expanded pipeline under the schema version chosen for it,
    prefixed stage IDs are distinct, and the receipts name the nodes of a
    tree, each after its parent. *)

From stdpp Require Import base gmap list strings pretty.
From Stdlib Require Import Ascii ZArith Lia Btauto.
From S2P Require Import Prelude Text Bytes Expression Domain Artifacts StrictYaml PipelineIr.
From S2P Require Import Canonical Compiler CompileSchema CanonicalReads CanonicalParameters.
From S2P Require Import CanonicalStages CanonicalAccept.
From S2P Require Import Components ComponentExpansion ComponentReceipts.

Open Scope Z_scope.

(** ** Validation of a stage does not depend on where it stands *)

Lemma is_ok_true {E} (r : result E ()) : is_ok r = true <-> r = Ok tt.
Proof. by destruct r as [[]|]. Qed.

Lemma is_ok_seq {E} (u r : result E ()) : is_ok (u ;; r) = is_ok u && is_ok r.
Proof. by destruct u as [[]|]. Qed.

Lemma is_ok_check {E} b (e : E) : is_ok (check b e) = negb b.
Proof. by destruct b. Qed.

Lemma is_ok_map_err {E F} (g : E -> F) (r : result E ()) : is_ok (map_err g r) = is_ok r.
Proof. by destruct r. Qed.

Lemma is_ok_try_for {E A} (f : A -> result E ()) l :
  is_ok (try_for f l) = forallb (fun x => is_ok (f x)) l.
Proof. induction l as [|x l IH]; [done|]. cbn [try_for forallb]. by rewrite is_ok_seq, IH. Qed.

Lemma is_ok_try_for_enum {E A} (f : nat -> A -> result E ()) g l i :
  (forall k x, is_ok (f k x) = g x) -> is_ok (try_for_enum i f l) = forallb g l.
Proof.
  intros Hf. revert i. induction l as [|x l IH]; intros i; [done|]. cbn [try_for_enum forallb].
  by rewrite is_ok_seq, IH, Hf.
Qed.

Lemma forallb_ext {A} (f g : A -> bool) l : (forall x, f x = g x) -> forallb f l = forallb g l.
Proof. intros Hf. induction l as [|x l IH]; [done|]. cbn [forallb]. by rewrite Hf, IH. Qed.

(** What a step needs of the schema version. *)
Definition step_minor (x : Step) : Z :=
  match x with
  | Process p => if bool_decide (ps_mode p = Direct) then 0 else 2
  | ConnectorIntent _ => 3
  | CacheIntent _ => 4
  | InputIntent _ => 5
  | Checkout _ => 7
  end.

Definition step_shape `{External} (x : Step) : bool := is_ok (validate_step 9 "" 0 x).

Ltac ok_bools := rewrite ?is_ok_seq, ?is_ok_check, ?is_ok_map_err, ?is_ok_try_for.

(** Equal verdicts, check by check. *)
Ltac ok_congr :=
  ok_bools;
  repeat match goal with
  | |- ?x = ?x => reflexivity
  | |- _ && _ = _ && _ => f_equal
  | |- forallb _ ?l = forallb _ ?l => apply forallb_ext; intros ?; ok_bools
  end.

Lemma validate_process_ok m b b' p :
  0 <= m -> is_ok (validate_process m b p)
            = (step_minor (Process p) <=? m) && is_ok (validate_process 9 b' p).
Proof.
  intros Hm. unfold validate_process, validate_string_length. ok_bools.
  rewrite !(is_ok_try_for_enum _ (fun a => negb (MAX_IR_STRING_BYTES <? slen a)))
    by (intros; apply is_ok_check).
  change (9 <? minor IR_V1_2) with false. cbn [andb negb step_minor]. f_equal.
  - destruct (bool_decide _); cbn [negb]; rewrite ?andb_true_r, ?andb_false_r; simpl;
      symmetry; [by apply Z.leb_le|]. apply Z.leb_antisym.
  - ok_congr.
Qed.

Lemma validate_identifier_at p p' v :
  is_ok (validate_identifier p v) = is_ok (validate_identifier p' v).
Proof. unfold validate_identifier. by ok_bools. Qed.

Lemma validate_string_length_at p p' v :
  is_ok (validate_string_length p v) = is_ok (validate_string_length p' v).
Proof. unfold validate_string_length. by ok_bools. Qed.

Lemma validate_sha256_at p p' v :
  is_ok (validate_sha256_reference p v) = is_ok (validate_sha256_reference p' v).
Proof. unfold validate_sha256_reference. destruct (strip_prefix _ _); [by ok_bools|done]. Qed.

Lemma validate_field_schema_at p p' l :
  is_ok (validate_field_schema p l) = is_ok (validate_field_schema p' l).
Proof.
  unfold validate_field_schema. ok_congr; [apply validate_identifier_at|apply validate_string_length_at].
Qed.

Lemma validate_connector_ok m b b' i :
  is_ok (validate_connector m b i) = (3 <=? m) && is_ok (validate_connector 9 b' i).
Proof.
  unfold validate_connector. ok_bools. change (9 <? minor IR_V1_3) with false. cbn [negb andb].
  rewrite <- Z.leb_antisym. ok_congr; apply validate_identifier_at || apply validate_sha256_at
    || apply validate_string_length_at || apply validate_field_schema_at.
Qed.

Lemma validate_step_ok `{External} m path k x :
  0 <= m -> is_ok (validate_step m path k x) = (step_minor x <=? m) && step_shape x.
Proof.
  intros Hm. unfold step_shape, validate_step. destruct x; cbv zeta;
    try (ok_bools; by rewrite <- Z.leb_antisym).
  - by apply validate_process_ok.
  - apply validate_connector_ok.
Qed.

(** What a stage needs of the schema version, and the rest of what its
    validation checks. *)
Definition stage_fits (m : Z) (s : Stage) : bool :=
  ((llen (stage_artifacts s) =? 0) || (8 <=? m)) && (negb (is_some (stage_image s)) || (6 <=? m))
  && forallb (fun x => step_minor x <=? m) (stage_steps s).

Definition container_shape (x : Step) : bool := is_ok (validate_container_step "" 0 x).

Definition stage_shape `{External} (s : Stage) : bool :=
  negb (is_empty (trim (stage_name s))) && negb (MAX_IR_STRING_BYTES <? slen (stage_name s))
  && negb (llen (stage_steps s) =? 0)
  && negb (existsb is_intent_step (stage_steps s) && negb (llen (stage_steps s) =? 1))
  && negb (1 <? llen (List.filter is_checkout (stage_steps s)))
  && ((llen (stage_artifacts s) =? 0) || is_ok (validate_declarations (stage_artifacts s)))
  && match stage_image s with
     | None => true
     | Some image => is_digest_pinned_image image
         && forallb is_process_or_checkout (stage_steps s) && forallb container_shape (stage_steps s)
     end
  && forallb step_shape (stage_steps s).

Definition stage_id_ok (id : string) : bool :=
  negb (is_empty id) && all_bytes is_name_byte id && negb (MAX_IR_STRING_BYTES <? slen id).

Lemma forallb_andb {A} (f g : A -> bool) l :
  forallb (fun x => f x && g x) l = forallb f l && forallb g l.
Proof. induction l as [|x l IH]; [done|]. cbn [forallb]. rewrite IH. btauto. Qed.

Lemma container_step_ok path k x : is_ok (validate_container_step path k x) = container_shape x.
Proof.
  unfold container_shape, validate_container_step. destruct x; try done. by destruct (find _ _) as [[]|].
Qed.

Lemma validate_stage_exact `{External} m index ids total s total' :
  0 <= m ->
  validate_stage m index ids total s = Ok total' <->
  stage_id_ok (stage_id s) = true /\ stage_id s ∉ ids /\ stage_fits m s = true /\
  stage_shape s = true /\ total' = sat_add total (llen (stage_steps s)) /\ total' <= MAX_STEPS.
Proof.
  intros Hm. unfold validate_stage. cbv zeta. rewrite !seq_ok, <- !is_ok_true.
  rewrite (is_ok_try_for_enum _ (fun x => (step_minor x <=? m) && step_shape x))
    by (intros; by apply validate_step_ok). rewrite forallb_andb.
  assert (is_ok (validate_stage_artifacts m (stage_path index) s)
    = ((llen (stage_artifacts s) =? 0) || (8 <=? m))
      && ((llen (stage_artifacts s) =? 0) || is_ok (validate_declarations (stage_artifacts s)))) as ->.
  { unfold validate_stage_artifacts. destruct (_ =? _); [done|]. ok_bools. by rewrite <- Z.leb_antisym. }
  unfold stage_fits, stage_shape, stage_id_ok, validate_identifier, validate_string_length,
    validate_stage_image. ok_bools. rewrite negb_orb, !negb_involutive.
  destruct (stage_image s) as [image|]; cbn [is_some negb orb];
    [change (minor IR_V1_6) with 6; ok_bools;
     rewrite (is_ok_try_for_enum _ container_shape) by (intros; apply container_step_ok);
     rewrite <- (Z.leb_antisym m 6), !negb_involutive|];
    rewrite !andb_true_iff, !negb_true_iff, existsb_eqb_false;
    (split; [intros Hs; destruct_and? Hs; simplify_eq|intros Hs; destruct_and? Hs; subst total']);
    split_and?; done || by apply Z.ltb_ge.
Qed.

Definition all_fit `{External} (m : Z) (ss : list Stage) : Prop :=
  Forall (fun s => stage_id_ok (stage_id s) = true /\ stage_fits m s = true /\ stage_shape s = true) ss.

Lemma validate_stages_exact `{External} m index ids total ss :
  0 <= m -> 0 <= total <= MAX_STEPS ->
  validate_stages m index ids total ss = Ok tt <->
  all_fit m ss /\ NoDup (stage_id <$> ss) /\ (forall s, s ∈ ss -> stage_id s ∉ ids) /\
  total + step_total ss <= MAX_STEPS.
Proof.
  intros Hm. revert index ids total. induction ss as [|s ss IH]; intros index ids total Ht;
    cbn [validate_stages].
  { split; [intros _|done]. split_and!; [constructor|constructor|set_solver|unfold step_total; simpl; lia]. }
  rewrite bind_ok, step_total_cons. pose proof (llen_nonneg (stage_steps s)).
  pose proof (step_total_nonneg ss). unfold all_fit. rewrite Forall_cons, fmap_cons, NoDup_cons.
  assert (forall n, 0 <= n -> sat_add total n <= MAX_STEPS <-> total + n <= MAX_STEPS) as Hsat
    by (intros; apply sat_add_lt; [lia|lia|done]).
  assert (forall n, 0 <= n -> sat_add total n <= MAX_STEPS -> sat_add total n = total + n) as Heq
    by (unfold sat_add, usize_max, u64_max, MAX_STEPS in *; lia).
  split.
  - intros (total' & (Hi & Hn & Hf & Hs & -> & Hle)%validate_stage_exact & Hv); [|done].
    rewrite Heq in Hv by done. apply Hsat in Hle; [|done]. apply IH in Hv as (Ha & Hd & Hids & Htot); [|lia].
    split_and!; try done; [|intros x Hx|lia].
    + intros (x & Hx & Hin)%list_elem_of_fmap. apply (Hids x Hin). rewrite Hx. by left.
    + apply elem_of_cons in Hx as [->|Hx]; [done|]. specialize (Hids x Hx). set_solver.
  - intros ([(Hi & Hf & Hs) Ha] & [Hn Hd] & Hids & Htot). exists (total + llen (stage_steps s)).
    split.
    + apply validate_stage_exact; [done|]. rewrite Heq by (done || apply Hsat; lia).
      split_and!; try done; [|lia]. apply Hids. by left.
    + apply IH; [lia|]. split_and!; try done; [|lia]. intros x Hx.
      rewrite not_elem_of_cons. split; [|apply Hids; by right].
      intros E. apply Hn, list_elem_of_fmap. by exists x.
Qed.

(** ** The schema version of the expansion carries its stages *)

Lemma any_step_true f ss s x : s ∈ ss -> x ∈ stage_steps s -> f x = true -> any_step f ss = true.
Proof.
  intros Hs Hx Hf. apply existsb_exists. exists s. split; [by apply list_elem_of_In|].
  apply existsb_exists. exists x. split; [by apply list_elem_of_In|done].
Qed.

Lemma expansion_schema_fits ss :
  Forall (fun s => stage_artifacts s = []) ss ->
  Forall (fun s => stage_fits (minor (expansion_schema ss)) s = true) ss.
Proof.
  intros Ha. rewrite Forall_forall in *. intros s Hs. unfold stage_fits. rewrite (Ha s Hs).
  cbn [llen length Z.of_nat Z.eqb orb andb]. apply andb_true_iff. split.
  - destruct (stage_image s) eqn:Ei; [|done]. cbn [is_some negb orb]. unfold expansion_schema.
    assert (existsb (fun s => is_some (stage_image s)) ss = true) as ->.
    { apply existsb_exists. exists s. rewrite Ei. split; [by apply list_elem_of_In|done]. }
    by destruct (any_step _ _).
  - apply forallb_forall. intros x Hx%list_elem_of_In.
    pose proof (fun f => any_step_true f ss s x Hs Hx) as Hany. unfold expansion_schema.
    destruct x as [p|i|c|i|c]; cbn [step_minor];
      [destruct (bool_decide (ps_mode p = Direct)) eqn:Em|..];
      [|rewrite (Hany is_shell_process) by (simpl; by rewrite Em)
       |rewrite (Hany is_connector) by done|rewrite (Hany is_cache_intent) by done
       |rewrite (Hany is_input_intent) by done|rewrite (Hany is_checkout) by done];
      repeat (case_match; [reflexivity|]); reflexivity.
Qed.

Lemma expansion_schema_minor ss : 0 <= minor (expansion_schema ss) <= 7.
Proof. unfold expansion_schema. repeat (case_match; [done|]). done. Qed.

Lemma expansion_schema_accepted ss : expansion_schema ss ∈ accepted_schemas.
Proof.
  unfold expansion_schema. repeat (case_match; [by apply (bool_decide_unpack _)|]).
  by apply (bool_decide_unpack _).
Qed.

Lemma fits_no_artifacts m s : m < 8 -> stage_fits m s = true -> stage_artifacts s = [].
Proof.
  intros Hm. unfold stage_fits. rewrite !andb_true_iff, orb_true_iff.
  intros [[[H|H%Z.leb_le] _] _]; [by apply llen_zero|lia].
Qed.

(** What [component_validate] establishes. *)
Record component_ok `{External} (c : VersionedComponent) : Prop := {
  ck_version : vc_version c = COMPONENT_V1;
  ck_name : stage_id_ok (vc_name c) = true /\
    slen (vc_name c) <= MAX_IR_STRING_BYTES - slen EXPANDED_NAME_PREFIX;
  ck_pipeline : validate_pipeline (vc_pipeline c) = Ok tt;
  ck_notify : notify (vc_pipeline c) = [];
  ck_ids : forall s, s ∈ stages (vc_pipeline c) ->
    slen (stage_id s) <= MAX_IR_STRING_BYTES - EXPANDED_STAGE_ID_PREFIX_MAX_BYTES;
  ck_public : forall d, d ∈ parameters (vc_pipeline c) -> pd_secret d.2 = false;
  ck_outputs : llen (vc_outputs c) <= MAX_COMPONENT_OUTPUTS /\
    Forall (fun o => stage_id_ok o.1 = true) (vc_outputs c);
  ck_dependencies : llen (vc_dependencies c) <= MAX_COMPONENT_DEPENDENCIES
}.

Lemma component_identifier_ok path v :
  component_validate_identifier path v = Ok tt <-> stage_id_ok v = true.
Proof.
  unfold component_validate_identifier, stage_id_ok, MAX_IR_STRING_BYTES. rewrite check_ok.
  rewrite !orb_false_iff, !andb_true_iff, negb_false_iff, !negb_true_iff. tauto.
Qed.

Lemma not_existsb {A} (f : A -> bool) l : existsb f l = false -> forall x, x ∈ l -> f x = false.
Proof.
  intros Hf x Hx. destruct (f x) eqn:E; [|done].
  by rewrite (proj2 (existsb_exists f l) (ex_intro _ x (conj (proj1 (list_elem_of_In _ _) Hx) E))) in Hf.
Qed.

Lemma component_validate_ok `{External} c : component_validate c = Ok tt -> component_ok c.
Proof.
  unfold component_validate. intros [Hv%negb_false_iff%bool_decide_eq_true H1]%guard_ok.
  apply seq_ok in H1 as [Hn%component_identifier_ok H1]. apply guard_ok in H1 as [Hl%Z.ltb_ge H1].
  apply seq_ok in H1 as [Hp%map_err_ok H1].
  apply guard_ok in H1 as [Hno%negb_false_iff%llen_zero H1].
  apply guard_ok in H1 as [Hi H1]. apply guard_ok in H1 as [Hs H1].
  apply guard_ok in H1 as [Ho%Z.ltb_ge H1]. apply seq_ok in H1 as [Hon%try_for_ok Hd%check_ok%Z.ltb_ge].
  split; try done.
  - intros s Hin. apply Z.ltb_ge. exact (not_existsb _ _ Hi s Hin).
  - exact (not_existsb _ _ Hs).
  - split; [done|]. eapply Forall_impl; [exact Hon|]. intros o. apply component_identifier_ok.
Qed.

Lemma component_digest_ok `{External} c digest :
  component_semantic_digest c = Ok digest -> component_ok c.
Proof.
  unfold component_semantic_digest, component_canonical_bytes.
  by intros (b & [Hv%component_validate_ok _]%seq_ok & _)%bind_ok.
Qed.

Lemma expanded_name_ok `{External} c :
  component_ok c -> stage_id_ok (EXPANDED_NAME_PREFIX +:+ vc_name c) = true.
Proof.
  intros [_ [Hn Hl] _ _ _ _ _ _]. unfold stage_id_ok in *. rewrite slen_app, all_bytes_app.
  rewrite !andb_true_iff in *. destruct Hn as [[_ ->] _]. split; [done|].
  apply negb_true_iff, Z.ltb_ge. lia.
Qed.

Lemma stage_id_ok_split id :
  stage_id_ok id = true <->
  (is_empty id || negb (all_bytes is_name_byte id)) = false /\ slen id <= MAX_IR_STRING_BYTES.
Proof.
  unfold stage_id_ok. rewrite !andb_true_iff, orb_false_iff, negb_false_iff, !negb_true_iff, Z.ltb_ge.
  tauto.
Qed.

Lemma validate_expanded `{External} c ss :
  component_ok c ->
  validate_pipeline (expanded_pipeline c ss) = Ok tt <->
  ss <> [] /\ llen ss <= MAX_STAGES /\ all_fit (minor (expansion_schema ss)) ss /\
  NoDup (stage_id <$> ss) /\ step_total ss <= MAX_STEPS.
Proof.
  intros Hc. unfold validate_pipeline. cbn [schema name parameters parameter_values expressions
    stages notify expanded_pipeline].
  change (@llen ParameterDefinition [] =? 0) with true. change (@llen ExpressionBinding [] =? 0) with true.
  change (@llen NotifyTarget [] =? 0) with true. cbn [negb orb].
  rewrite (bool_decide_eq_true_2 (expansion_schema ss ∈ accepted_schemas))
    by apply expansion_schema_accepted.
  apply expanded_name_ok, stage_id_ok_split in Hc as [Hb Hl].
  unfold validate_identifier, validate_string_length. rewrite Hb, (proj2 (Z.ltb_ge _ _) Hl).
  change (validate_parameters_and_expressions (expanded_pipeline c ss)) with (@Ok IrValidationError _ tt).
  rewrite andb_false_r. cbn [negb check mbind result_bind]. rewrite guard_ok, orb_false_iff.
  rewrite Z.ltb_ge, validate_stages_exact by (unfold MAX_STEPS; (apply expansion_schema_minor || lia)).
  assert ((llen ss =? 0) = false <-> ss <> []) as ->.
  { destruct ss; [done|]. unfold llen. simpl. done. }
  rewrite Z.add_0_l. split; [tauto|]. intros (? & ? & ? & ? & ?). split_and!; try done.
  intros. apply not_elem_of_nil.
Qed.

(** ** Prefixed stage IDs *)

Lemma prefix_stage_id_inj i j s t :
  stage_id (prefix_stage i s) = stage_id (prefix_stage j t) -> i = j /\ stage_id s = stage_id t.
Proof.
  cbn [stage_id prefix_stage]. intros [= E].
  destruct (fmt_nat_decimal i) as [Hi _], (fmt_nat_decimal j) as [Hj _].
  apply digits_end in E as [E%fmt_nat_inj Es]; done.
Qed.

Lemma prefix_stage_id_ok i s :
  (i < 128)%nat -> stage_id_ok (stage_id s) = true ->
  slen (stage_id s) <= MAX_IR_STRING_BYTES - EXPANDED_STAGE_ID_PREFIX_MAX_BYTES ->
  stage_id_ok (stage_id (prefix_stage i s)) = true.
Proof.
  intros Hi Hs Hl. pose proof (fmt_nat_small i Hi). unfold stage_id_ok in *. cbn [stage_id prefix_stage].
  rewrite !slen_app, !all_bytes_app. rewrite !andb_true_iff in *. destruct Hs as [[_ ->] _].
  split_and!; try done.
  - eapply all_bytes_impl; [|apply fmt_nat_decimal]. intros c Hc.
    unfold is_name_byte, is_ascii_alphanumeric. by rewrite Hc, orb_true_r.
  - apply negb_true_iff, Z.ltb_ge. unfold EXPANDED_STAGE_ID_PREFIX_MAX_BYTES in Hl.
    change (slen "c127.") with 5 in Hl. change (slen "c") with 1. change (slen ".") with 1. lia.
Qed.

(** Instantiation keeps the stage IDs and the artifacts. *)
Lemma instantiate_stages_keep `{External} p inputs q :
  instantiate_pipeline p inputs = Ok q ->
  stage_id <$> stages q = stage_id <$> stages p /\
  stage_artifacts <$> stages q = stage_artifacts <$> stages p /\ validate_pipeline q = Ok tt.
Proof.
  unfold instantiate_pipeline. intros [_ H1]%seq_ok. apply bind_ok in H1 as ([vs context] & _ & H1).
  apply bind_ok in H1 as (resolved & _ & H1).
  destruct (replace_each instantiate_stage _ _ _) as [ss r] eqn:E.
  destruct (replace_each instantiate_target _ _ _) as [ns [|[]]]; [|done].
  apply seq_ok in H1 as [Hv%map_err_ok [= <-]]. cbn [stages]. revert E Hv. generalize 0%nat.
  intros index E Hv. rewrite (assoc and). split; [|done]. clear Hv.
  revert index resolved ss r E. induction (stages p) as [|s l IH]; intros index resolved ss r E;
    cbn [replace_each] in E; [by injection E as <-|].
  unfold instantiate_stage in E. destruct (replace_each (instantiate_step _) _ _ _) as [st r1].
  destruct (replace_each _ (S index) l r1) as [ss' r2] eqn:E2. injection E as <- <-.
  destruct (IH _ _ _ _ E2) as [H1 H2]. rewrite !fmap_cons, H1, H2. done.
Qed.

(** What an unfolded stage is: a valid stage of a component, prefixed with the
    position of a receipt. *)
Definition unfolded_stage `{External} (low high : nat) (s : Stage) : Prop :=
  exists i t, s = prefix_stage i t /\ (low <= i < high)%nat /\ stage_shape t = true /\
    stage_id_ok (stage_id t) = true /\
    slen (stage_id t) <= MAX_IR_STRING_BYTES - EXPANDED_STAGE_ID_PREFIX_MAX_BYTES.

Lemma unfolded_stage_weaken `{External} low high low' high' s :
  (low' <= low)%nat -> (high <= high')%nat -> unfolded_stage low high s -> unfolded_stage low' high' s.
Proof. intros Hl Hh (i & t & -> & Hi & Hr). exists i, t. split; [done|]. split; [lia|done]. Qed.

Lemma valid_stages `{External} p :
  validate_pipeline p = Ok tt ->
  stages p <> [] /\ NoDup (stage_id <$> stages p) /\ all_fit (minor (schema p)) (stages p).
Proof.
  unfold validate_pipeline. intros [Hs%negb_false_iff%bool_decide_eq_true H1]%guard_ok.
  apply accepted_schema in Hs as (_ & [Hm _] & _). apply guard_ok in H1 as [_ H1].
  do 3 apply seq_ok in H1 as [_ H1]. apply guard_ok in H1 as [[Hn _]%orb_false_iff H1].
  apply seq_ok in H1 as [_ H1]. apply validate_stages_exact in H1 as (Ha & Hd & _); [|done|done].
  split_and!; [|done..]. intros E. by rewrite E in Hn.
Qed.

Lemma prefixed_unfolded `{External} c inputs i index digest :
  instantiate_pipeline (vc_pipeline c) inputs = Ok i ->
  component_semantic_digest c = Ok digest ->
  Forall (unfolded_stage index (S index)) (prefix_stage index <$> stages i) /\
  NoDup (stage_id <$> (prefix_stage index <$> stages i)) /\ stages i <> [].
Proof.
  intros (Hid & _ & Hv)%instantiate_stages_keep Hc%component_digest_ok.
  apply valid_stages in Hv as (Hne & Hd & Ha). split_and!; [| |done].
  - apply Forall_fmap, Forall_forall. intros t Ht. exists index, t.
    unfold all_fit in Ha. rewrite Forall_forall in Ha. destruct (Ha t Ht) as (Hi & _ & Hs).
    split_and!; try done; [lia|].
    assert (stage_id t ∈ stage_id <$> stages (vc_pipeline c)) as (t' & E & Ht')%list_elem_of_fmap
      by (rewrite <- Hid; by apply list_elem_of_fmap_2). rewrite E. by apply (ck_ids c Hc).
  - rewrite <- list_fmap_compose. clear -Hd. induction (stages i) as [|s l IH]; [constructor|].
    rewrite !fmap_cons, !NoDup_cons in *. destruct Hd as [Hn Hd]. split; [|by apply IH].
    intros (t & E & Ht)%list_elem_of_fmap. apply prefix_stage_id_inj in E as [_ E].
    apply Hn, list_elem_of_fmap. by exists t.
Qed.

Lemma unfolded_disjoint `{External} a b c d ss tt' :
  (b <= c \/ d <= a)%nat -> Forall (unfolded_stage a b) ss -> Forall (unfolded_stage c d) tt' ->
  NoDup (stage_id <$> ss) -> NoDup (stage_id <$> tt') -> NoDup (stage_id <$> (ss ++ tt')).
Proof.
  intros Hbc Hs Ht Ds Dt. rewrite fmap_app. apply NoDup_app. split_and!; [done| |done].
  rewrite Forall_forall in Hs, Ht. intros id (s & -> & Hin)%list_elem_of_fmap (t & E & Hin')%list_elem_of_fmap.
  destruct (Hs s Hin) as (i & s' & -> & Hi & _), (Ht t Hin') as (j & t' & -> & Hj & _).
  apply prefix_stage_id_inj in E as [-> _]. lia.
Qed.

Definition stages_unfolded `{External} (index : nat) (rs : list ComponentReceipt)
    (ss : list Stage) : Prop :=
  Forall (unfolded_stage index (index + length rs)) ss /\ NoDup (stage_id <$> ss).

Lemma unfolds_stages `{External} catalog :
  (forall active height invocation path index rs ss,
     unfolds catalog active height invocation path index rs ss ->
     stages_unfolded index rs ss /\ ss <> []) /\
  (forall active height path position index ds rs ss,
     unfolds_all catalog active height path position index ds rs ss ->
     stages_unfolded index rs ss).
Proof.
  apply (unfolds_both _ catalog).
  - intros active height inv path index c i rs below Hc Ha Hi Hd _ [Hf Hn].
    destruct (prefixed_unfolded c _ i index _ Hi Hd) as (Hp & Hpn & Hne).
    assert (Forall (unfolded_stage (S index) (S index + length rs)) below) as Hb by done.
    split; [split|].
    + apply Forall_app. split; (eapply Forall_impl; [eassumption|]); intros s;
        apply unfolded_stage_weaken; simpl; lia.
    + apply (unfolded_disjoint (S index) (S index + length rs) index (S index)); try done. lia.
    + intros [_ E%fmap_nil_inv]%app_eq_nil. done.
  - intros. split; constructor.
  - intros active height path position index d ds rs ss rs' ss' _ [[Hs Hn] _] _ [Hs' Hn'].
    split.
    + rewrite length_app. apply Forall_app. split; (eapply Forall_impl; [eassumption|]); intros s;
        apply unfolded_stage_weaken; lia.
    + apply (unfolded_disjoint index (index + length rs) (index + length rs)
        (index + length rs + length rs')); try done. lia.
Qed.

(** ** What a receipt holds *)

Definition input_ok (input : string * ParameterValue) : Prop :=
  stage_id_ok input.1 = true /\ contains_char "." input.1 = false /\
  match input.2 with PString s => slen s <= MAX_IR_STRING_BYTES | _ => True end.

(** The checks of [validate_receipt] that do not concern the path. *)
Definition receipt_contents (r : ComponentReceipt) : Prop :=
  cr_version r = COMPONENT_V1 /\
  (llen (cr_inputs r) <= MAX_PARAMETERS /\ Forall input_ok (cr_inputs r)) /\
  llen (cr_outputs r) <= MAX_COMPONENT_OUTPUTS /\
  Forall (fun o => stage_id_ok o.1 = true) (cr_outputs r).

Lemma validate_receipt_input_ok path input :
  validate_receipt_input path input = Ok tt <-> input_ok input.
Proof.
  destruct input as [n v]. unfold validate_receipt_input, input_ok.
  rewrite seq_ok, guard_ok, component_identifier_ok. cbn [fst snd].
  destruct v; rewrite ?check_ok, ?Z.ltb_ge; tauto.
Qed.

Lemma bind_parameters_sorted definitions bound bound' :
  bmap_wf (bi_public bound) -> try_fold bind_parameter bound definitions = Ok bound' ->
  bmap_wf (bi_public bound').
Proof.
  revert bound. induction definitions as [|[n d] l IH]; intros bound Hb; cbn [try_fold].
  { by intros [= <-]. }
  intros (next & H1 & H2)%bind_ok. revert H2. apply IH. unfold bind_parameter in H1.
  apply bind_ok in H1 as (v & _ & H1). apply guard_ok in H1 as [_ [= <-]]. cbn [bi_public].
  destruct (pd_secret d); [done|by apply binsert_wf].
Qed.

Lemma instantiate_values `{External} p inputs q :
  instantiate_pipeline p inputs = Ok q ->
  bmap_wf (parameter_values q) /\ parameters q = parameters p.
Proof.
  unfold instantiate_pipeline. intros [_ H1]%seq_ok. apply bind_ok in H1 as ([vs context] & Hb & H1).
  apply bind_ok in H1 as (resolved & _ & H1).
  destruct (replace_each instantiate_stage _ _ _), (replace_each instantiate_target _ _ _) as [ns [|[]]];
    [|done]. apply seq_ok in H1 as [_ [= <-]]. split; [|done]. cbn [parameter_values].
  unfold bind_parameter_values in Hb. destruct (List.find _ _) as [[]|]; [done|].
  apply bind_ok in Hb as (bound & Hbd & [= <- <-]). eapply bind_parameters_sorted; [|exact Hbd]. constructor.
Qed.

Lemma parameter_byte_name c : is_parameter_byte c = true -> is_name_byte c = true.
Proof. by destruct c as [[] [] [] [] [] [] [] []]. Qed.

Lemma parameter_bytes_no_dot s : all_bytes is_parameter_byte s = true -> contains_char "." s = false.
Proof.
  induction s as [|c s IH]; [done|]. cbn [all_bytes]. intros [Hc Hs]%andb_true_iff.
  unfold contains_char, any_bytes in *. cbn [all_bytes]. specialize (IH Hs).
  destruct (Ascii.eqb_spec "." c) as [<-|]; [done|exact IH].
Qed.

(** The bound inputs of a valid instance. *)
Lemma valid_inputs `{External} p :
  bmap_wf (parameter_values p) -> validate_pipeline p = Ok tt ->
  llen (parameter_values p) <= MAX_PARAMETERS /\ Forall input_ok (parameter_values p).
Proof.
  intros Hw. unfold validate_pipeline. intros [_ [_ [_ [_ [H1 _]%seq_ok]%seq_ok]%seq_ok]%guard_ok]%guard_ok.
  unfold validate_parameters_and_expressions in H1. apply guard_ok in H1 as [Hc%Z.ltb_ge H1].
  apply seq_ok in H1 as [Hd%try_for_ok H1]. apply seq_ok in H1 as [Hf _].
  assert (forall n v, (n, v) ∈ parameter_values p -> exists d, (n, d) ∈ parameters p) as Hdef.
  { intros n v Hin. destruct (find _ _) as [[]|] eqn:E; [done|].
    pose proof (List.find_none _ _ E (n, v) (proj1 (list_elem_of_In _ _) Hin)) as Hb.
    apply negb_false_iff in Hb. unfold bcontains in Hb. cbn [fst] in Hb.
    destruct (bget n (parameters p)) as [d|] eqn:Eb; [|done]. exists d. by apply bget_elem. }
  split.
  - etransitivity; [|exact Hc]. unfold llen.
    rewrite <- (length_fmap fst (parameter_values p)), <- (length_fmap fst (parameters p)).
    apply inj_le, submseteq_length, NoDup_submseteq; [by apply bmap_wf_nodup|].
    intros n ([n' v] & -> & Hin)%list_elem_of_fmap. destruct (Hdef _ _ Hin) as [d Hd'].
    apply list_elem_of_fmap. by exists (n', d).
  - apply Forall_forall. intros [n v] Hin. destruct (Hdef n v Hin) as [d Hnd].
    rewrite Forall_forall in Hd. destruct (validate_parameter_ok _ _ _ (Hd _ Hnd)) as [[_ Hs] Hi _ Hv].
    apply (bget_wf _ _ _ Hw) in Hin. rewrite Hin in Hv. destruct Hv as (_ & _ & Hv).
    apply andb_true_iff in Hi as [Hne Hb]. split_and!; cbn [fst snd].
    + apply stage_id_ok_split. rewrite (proj1 (negb_true_iff _) Hne). split; [|done].
      apply negb_false_iff. revert Hb. apply all_bytes_impl. exact parameter_byte_name.
    + by apply parameter_bytes_no_dot.
    + destruct v; [done..|]. unfold value_fits in Hv. etransitivity; [exact Hv|done].
Qed.

Lemma receipt_for_contents `{External} invocation path c i digest :
  instantiate_pipeline (vc_pipeline c) (in_inputs invocation) = Ok i ->
  component_semantic_digest c = Ok digest ->
  receipt_contents (receipt_for invocation path c i).
Proof.
  intros Hi Hc%component_digest_ok. destruct (instantiate_values _ _ _ Hi) as [Hw _].
  destruct (instantiate_stages_keep _ _ _ Hi) as (_ & _ & Hv).
  split; [by apply Hc|]. split; [by apply valid_inputs|]. apply (ck_outputs c Hc).
Qed.

(** ** The order of the receipts *)

(** A receipt at a new node below a node already seen, or the first at the
    root, is valid. *)
Lemma validate_receipt_node index l seen r :
  cr_path r = node_path l -> receipt_contents r -> slen (node_path l) <= MAX_IR_STRING_BYTES ->
  l ∉ seen ->
  match index with
  | O => l = []
  | S _ => exists parent k, l = parent ++ [k] /\ parent ∈ seen
  end ->
  validate_receipt index (node_path <$> seen) r = Ok tt.
Proof.
  intros Hp (Hv & [Hic Hi] & Hoc & Ho) Hlen Hl Hpar. unfold validate_receipt. cbv zeta. rewrite Hp.
  apply seq_ok. split.
  { unfold validate_receipt_path. apply guard_ok. split; [by apply Z.ltb_ge|].
    destruct l as [|k l _] using rev_ind; [done|].
    rewrite receipt_parent_node, (proj2 (String.eqb_neq _ _) (node_path_root l k)). done. }
  apply guard_ok. split.
  { apply existsb_eqb_false. intros (q & E%node_path_inj & Hq)%list_elem_of_fmap. by subst. }
  apply seq_ok. split.
  { destruct index; [done|]. destruct Hpar as (parent & k & -> & Hin). rewrite receipt_parent_node.
    cbn [Nat.ltb Nat.leb]. apply check_ok, negb_false_iff, existsb_eqb. right.
    by apply list_elem_of_fmap_2. }
  apply guard_ok. split; [by rewrite Hv|]. apply guard_ok. split; [by apply Z.ltb_ge|].
  apply seq_ok. split.
  { apply try_for_ok. eapply Forall_impl; [exact Hi|]. intros x. apply validate_receipt_input_ok. }
  apply guard_ok. split; [by apply Z.ltb_ge|]. apply try_for_ok.
  eapply Forall_impl; [exact Ho|]. intros o. apply component_identifier_ok.
Qed.

Lemma validate_receipt_list_app index seen rs rs' :
  validate_receipt_list index seen (rs ++ rs') = Ok tt <->
  validate_receipt_list index seen rs = Ok tt /\
  validate_receipt_list (index + length rs) (reverse (cr_path <$> rs) ++ seen) rs' = Ok tt.
Proof.
  revert index seen. induction rs as [|r rs IH]; intros index seen; cbn [app validate_receipt_list].
  { rewrite Nat.add_0_r. split; [done|tauto]. }
  rewrite !seq_ok, IH, fmap_cons, reverse_cons, <- app_assoc. cbn [length app].
  rewrite <- Nat.add_succ_comm. tauto.
Qed.

(** [seen] holds no node at or below [l]. *)
Definition untouched (l : list nat) (seen : list (list nat)) : Prop :=
  forall q, q ∈ seen -> ~ l `prefix_of` q.

(** The receipts name new nodes, those of [below], and follow their parents. *)
Definition names_nodes (below : list nat -> Prop) (index : nat) (seen : list (list nat))
    (rs : list ComponentReceipt) : Prop :=
  exists nodes, cr_path <$> rs = node_path <$> nodes /\ Forall below nodes /\
    validate_receipt_list index (node_path <$> seen) rs = Ok tt.

Definition small (l : list nat) : Prop := Forall (fun k => (k < 128)%nat) l.

Lemma small_path l : small l -> (length l < 128)%nat -> slen (node_path l) <= MAX_IR_STRING_BYTES.
Proof.
  intros Hs Hl. pose proof (node_path_length l Hs). unfold MAX_IR_STRING_BYTES, llen in *. lia.
Qed.

Lemma names_nodes_app below below' index seen rs rs' :
  names_nodes below index seen rs ->
  (forall nodes, Forall below nodes -> length nodes = length rs ->
     names_nodes below' (index + length rs) (nodes ++ seen) rs') ->
  names_nodes (fun q => below q \/ below' q) index seen (rs ++ rs').
Proof.
  intros (nodes & E & Hb & Hv) Hrest. destruct (Hrest (reverse nodes)) as (nodes' & E' & Hb' & Hv').
  { by apply Forall_reverse. }
  { rewrite length_reverse, <- (length_fmap node_path nodes), <- E. apply length_fmap. }
  exists (nodes ++ nodes'). split_and!.
  - by rewrite !fmap_app, E, E'.
  - apply Forall_app. split; (eapply Forall_impl; [eassumption|tauto]).
  - apply validate_receipt_list_app. split; [done|]. rewrite E, <- fmap_reverse, <- fmap_app. done.
Qed.

Lemma names_nodes_impl (below below' : list nat -> Prop) index seen rs :
  (forall q, below q -> below' q) -> names_nodes below index seen rs ->
  names_nodes below' index seen rs.
Proof.
  intros Hi (nodes & E & Hb & Hv). exists nodes. split_and!; [done| |done].
  eapply Forall_impl; [exact Hb|done].
Qed.

Lemma prefix_snoc_inj (l q : list nat) a b :
  l ++ [a] `prefix_of` q -> l ++ [b] `prefix_of` q -> a = b.
Proof.
  intros [x ->] [y E]. rewrite <- !app_assoc in E. apply app_inv_head in E. by injection E.
Qed.

Lemma unfolds_nodes `{External} catalog :
  (forall active height invocation path index rs ss,
     unfolds catalog active height invocation path index rs ss ->
     forall l seen, path = node_path l -> small l -> (length l <= index)%nat ->
     (index + length rs <= 128)%nat -> untouched l seen ->
     match index with
     | O => l = []
     | S _ => exists parent k, l = parent ++ [k] /\ parent ∈ seen
     end ->
     names_nodes (fun q => l `prefix_of` q) index seen rs) /\
  (forall active height path position index ds rs ss,
     unfolds_all catalog active height path position index ds rs ss ->
     forall l seen, path = node_path l -> small l -> (length l < index)%nat ->
     (index + length rs <= 128)%nat -> (position + length ds <= 128)%nat -> l ∈ seen ->
     (forall j, (position <= j)%nat -> untouched (l ++ [j]) seen) ->
     names_nodes (fun q => exists j, (position <= j)%nat /\ l ++ [j] `prefix_of` q) index seen rs).
Proof.
  apply (unfolds_both _ catalog).
  - intros active height inv path index c i rs below Hc Ha Hi Hd _ IH l seen -> Hs Hl Hle Hu Hpar.
    cbn [length] in Hle. pose proof (ck_dependencies c (component_digest_ok _ _ Hd)) as Hdep.
    apply (names_nodes_impl (fun q => q = l \/
      exists j, (0 <= j)%nat /\ l ++ [j] `prefix_of` q)).
    { intros q [->|(j & _ & Hq)]; [done|]. etransitivity; [by exists [j]|exact Hq]. }
    apply (names_nodes_app _ _ _ _ [_]).
    + exists [l]. split_and!; [done|by apply Forall_singleton|].
      cbn [validate_receipt_list]. apply seq_ok. split; [|done].
      apply (validate_receipt_node _ l); [done|by eapply receipt_for_contents| | |done].
      * apply small_path; [done|lia].
      * intros Hin. by apply (Hu l Hin).
    + intros [|n [|]] Hn Hlen; try done. apply Forall_singleton in Hn as ->. cbn [length].
      rewrite Nat.add_1_r. apply IH; try done; try lia.
      * unfold llen, MAX_COMPONENT_DEPENDENCIES in Hdep. lia.
      * by left.
      * intros j _ q [->|Hq]%elem_of_cons Hpre; [|apply (Hu q Hq); etransitivity; [by exists [j]|done]].
        apply prefix_length in Hpre. rewrite length_app in Hpre. simpl in Hpre. lia.
  - intros. exists []. split_and!; [done|constructor|done].
  - intros active height path position index d ds rs ss rs' ss' _ IH _ IHs l seen -> Hs Hl Hle Hp Hin Hu.
    rewrite length_app in Hle. cbn [length] in Hp.
    apply (names_nodes_impl (fun q => l ++ [position] `prefix_of` q \/
      exists j, (S position <= j)%nat /\ l ++ [j] `prefix_of` q)).
    { intros q [Hq|(j & Hj & Hq)]; [by exists position|]. exists j. split; [lia|done]. }
    apply names_nodes_app.
    + apply IH; [by rewrite node_path_snoc| |rewrite length_app; simpl; lia|lia|by apply Hu|].
      * apply Forall_app. split; [done|]. apply Forall_singleton. lia.
      * destruct index; [lia|]. eauto.
    + intros nodes Hn _. apply IHs; try done; try lia; [set_solver|].
      intros j Hj q [Hq|Hq]%elem_of_app Hpre; [|by apply (Hu j ltac:(lia) q Hq)].
      rewrite Forall_forall in Hn. pose proof (prefix_snoc_inj _ _ _ _ (Hn q Hq) Hpre). lia.
Qed.
