(* ===== verification/ComponentSpec.v ===== *)
(** * What expanding a component promises

    The exact condition under which an invocation expands and the pipeline and
    ledger it expands to; that expansion always returns; that what was
    expanded once expands the same from any later catalog; and the packages
    the catalog takes but can never expand. *)

From stdpp Require Import base gmap list strings pretty.
From Stdlib Require Import Ascii ZArith Lia.
From S2P Require Import Prelude Text Bytes Expression Domain Artifacts StrictYaml PipelineIr.
From S2P Require Import Canonical Compiler CanonicalParameters CanonicalAccept.
From S2P Require Import Components ComponentExpansion ComponentReceipts ComponentLedger.

Open Scope Z_scope.

(** The limits are [usize] values. *)
Definition limits_typed (l : ExpansionLimits) : Prop :=
  Forall (fun n => 0 <= n <= usize_max)
    [lim_depth l; lim_components l; lim_stages l; lim_steps l; lim_canonical_bytes l].

Definition limits_positive (l : ExpansionLimits) : Prop :=
  Forall (fun n => 0 < n)
    [lim_depth l; lim_components l; lim_stages l; lim_steps l; lim_canonical_bytes l].

(** The unfolding fits the limits, the caller's and the fixed ones. *)
Definition expansion_fits (limits : ExpansionLimits) (rs : list ComponentReceipt)
    (ss : list Stage) : Prop :=
  llen rs <= Z.min (lim_components limits) MAX_EXPANDED_COMPONENTS /\
  llen ss <= Z.min (lim_stages limits) MAX_STAGES /\
  step_total ss <= Z.min (lim_steps limits) MAX_STEPS.

Definition expansion (root : ComponentInvocation) (c : VersionedComponent)
    (rs : list ComponentReceipt) (ss : list Stage) : ExpandedPipeline :=
  Build_ExpandedPipeline (in_digest root) (expanded_pipeline c ss) rs.

Definition start : ExpansionState := Build_ExpansionState ∅ [] [] 0.

Lemma validate_limits_ok l :
  limits_typed l -> validate_limits l = Ok tt <-> limits_positive l.
Proof.
  unfold limits_typed, limits_positive, validate_limits. rewrite check_ok, !Forall_cons, !Forall_nil.
  rewrite !orb_false_iff, !Z.eqb_neq. lia.
Qed.

Lemma start_counted : counted start.
Proof. by unfold counted. Qed.

Lemma start_within l : limits_positive l -> within l start.
Proof.
  unfold limits_positive, within. rewrite !Forall_cons. unfold llen. simpl. lia.
Qed.

Lemma unentered_start (catalog : ComponentCatalog) : unentered catalog start = size catalog.
Proof. unfold unentered, ComponentCatalog in *. cbn [es_active start]. by rewrite difference_empty_L, size_dom. Qed.

Lemma expand_root `{External} root catalog limits st :
  limits_positive limits ->
  expand catalog limits (S (size catalog)) root "$" 1 start = Ok st <->
  exists rs ss, unfolds catalog ∅ (Z.to_nat (lim_depth limits)) root "$" 0 rs ss /\
    st = extended start rs ss /\ within limits st.
Proof.
  intros Hp. assert (levels limits 1 = Z.to_nat (lim_depth limits)) as El by (unfold levels; f_equal; lia).
  split.
  - intros (rs & ss & Hu & -> & Hw)%expand_sound; [|apply start_counted|by apply start_within].
    rewrite El in Hu. eauto.
  - intros (rs & ss & Hu & -> & Hw). apply expand_complete; try done; [by rewrite El|].
    rewrite unentered_start. lia.
Qed.

(** The receipts the expansion collects are valid up to their number. *)
Lemma unfolded_receipts_valid `{External} catalog height root c rs ss :
  unfolds catalog ∅ height root "$" 0 rs ss ->
  validate_receipts (expansion root c rs ss) = Ok tt <-> llen rs <= MAX_EXPANDED_COMPONENTS.
Proof.
  intros Hu. unfold validate_receipts, expansion. cbn [ep_components ep_root].
  destruct rs as [|r rs]; [by inversion Hu|].
  assert (cr_path r = "$" /\ cr_digest r = in_digest root) as [-> ->] by (by inversion Hu).
  rewrite !String.eqb_refl, guard_ok, Z.ltb_ge. cbn [negb check mbind result_bind].
  split; [tauto|]. intros Hl. split; [done|].
  destruct (proj1 (unfolds_nodes catalog) _ _ _ _ _ _ _ Hu [] []) as (nodes & _ & _ & Hv);
    try done; [constructor|unfold llen, MAX_EXPANDED_COMPONENTS in Hl; lia|by intros q Hq%not_elem_of_nil].
Qed.

(** The pipeline it assembles is valid up to the fixed limits and artifacts. *)
Lemma unfolded_pipeline_valid `{External} catalog height root c rs ss :
  unfolds catalog ∅ height root "$" 0 rs ss -> component_ok c ->
  llen rs <= MAX_EXPANDED_COMPONENTS ->
  validate_pipeline (expanded_pipeline c ss) = Ok tt <->
  llen ss <= MAX_STAGES /\ step_total ss <= MAX_STEPS /\ Forall (fun s => stage_artifacts s = []) ss.
Proof.
  intros Hu Hc Hl. apply (proj1 (unfolds_stages catalog)) in Hu as [[Hf Hd] Hne].
  rewrite validate_expanded by done. split.
  - intros (_ & Hs & Ha & _ & Ht). split_and!; [done..|]. eapply Forall_impl; [exact Ha|].
    intros s (_ & Hfit & _). eapply fits_no_artifacts; [|exact Hfit].
    pose proof (expansion_schema_minor ss). lia.
  - intros (Hs & Ht & Ha). split_and!; try done. apply expansion_schema_fits in Ha.
    unfold all_fit. rewrite Forall_forall in *. intros s Hin. specialize (Ha s Hin).
    destruct (Hf s Hin) as (i & t & -> & Hi & Hsh & Hid & Hlen). split_and!; [|done|done].
    apply prefix_stage_id_ok; try done. unfold llen, MAX_EXPANDED_COMPONENTS in Hl. lia.
Qed.

Lemma expanded_bytes_ok `{External} e bytes :
  expanded_canonical_bytes e = Ok bytes <->
  validate_pipeline (ep_pipeline e) = Ok tt /\ validate_receipts e = Ok tt /\
  bytes = encode_expansion e (encode_pipeline (ep_pipeline e)).
Proof.
  unfold expanded_canonical_bytes, canonical_bytes. rewrite !seq_ok, map_err_ok.
  split.
  - intros (Hv & Hr & (p & Hp%map_err_ok & [= <-])%bind_ok). rewrite Hv in Hp. by injection Hp as <-.
  - intros (Hv & Hr & ->). rewrite Hv. done.
Qed.

Lemma within_start limits rs ss :
  step_total ss <= MAX_STEPS ->
  within limits (extended start rs ss) <->
  llen rs <= lim_components limits /\ llen ss <= lim_stages limits /\
  step_total ss <= lim_steps limits.
Proof.
  intros Hs. unfold within. cbn [es_receipts es_stages es_step_count extended start app].
  unfold sat_add, usize_max, u64_max, MAX_STEPS in *. rewrite Z.add_0_l, Z.min_l by lia. done.
Qed.

Lemma unfolds_root `{External} catalog height root rs ss :
  unfolds catalog ∅ height root "$" 0 rs ss ->
  exists c, catalog !! in_digest root = Some c /\ component_ok c.
Proof. intros Hu. inversion Hu; subst. eauto using component_digest_ok. Qed.

(** When an invocation expands, and what to. *)
Definition expands `{External} (root : ComponentInvocation) (catalog : ComponentCatalog)
    (limits : ExpansionLimits) (e : ExpandedPipeline) : Prop :=
  limits_positive limits /\
  exists c rs ss, catalog !! in_digest root = Some c /\
    unfolds catalog ∅ (Z.to_nat (lim_depth limits)) root "$" 0 rs ss /\
    expansion_fits limits rs ss /\ Forall (fun s => stage_artifacts s = []) ss /\
    e = expansion root c rs ss /\
    slen (encode_expansion e (encode_pipeline (ep_pipeline e))) <= lim_canonical_bytes limits.

Lemma expand_component_sound `{External} root catalog limits e :
  limits_typed limits -> expand_component root catalog limits = Ok e ->
  expands root catalog limits e.
Proof.
  intros Ht. unfold expand_component. fold start. rewrite seq_ok, validate_limits_ok by done.
  intros [Hp (st & Hst & He)%bind_ok]. split; [done|].
  apply expand_root in Hst as (rs & ss & Hu & -> & Hw); [|done].
  destruct (unfolds_root _ _ _ _ _ Hu) as (c & Hc & Hok). rewrite Hc in He.
  cbn [ok_or mbind result_bind] in He. cbv zeta in He. apply seq_ok in He as [_ He].
  change (Build_ExpandedPipeline _ _ _) with (expansion root c rs ss) in He.
  apply bind_ok in He as (bytes & (Hv & Hr & ->)%expanded_bytes_ok & He).
  apply guard_ok in He as [Hb%Z.ltb_ge [= <-]].
  apply (unfolded_receipts_valid _ _ _ _ _ _ Hu) in Hr.
  apply (unfolded_pipeline_valid _ _ _ _ _ _ Hu Hok Hr) in Hv as (Hs & Hst & Ha).
  apply within_start in Hw as (Hw1 & Hw2 & Hw3); [|done].
  exists c, rs, ss. split_and!; try done. unfold expansion_fits. lia.
Qed.

Lemma expand_component_complete `{External} root catalog limits e :
  limits_typed limits -> expands root catalog limits e ->
  expand_component root catalog limits = Ok e.
Proof.
  intros Ht. unfold expand_component. fold start. rewrite seq_ok, validate_limits_ok by done.
  intros (Hp & c & rs & ss & Hc & Hu & (H1 & H2 & H3) & Ha & -> & Hb). split; [done|].
  apply bind_ok. exists (extended start rs ss). split.
  { apply expand_root; [done|]. exists rs, ss. split_and!; try done. apply within_start; lia. }
  rewrite Hc. cbn [ok_or mbind result_bind]. cbv zeta.
  destruct (unfolds_root _ _ _ _ _ Hu) as (c' & Hc' & Hok). rewrite Hc in Hc'. injection Hc' as <-.
  assert (validate_pipeline (expanded_pipeline c ss) = Ok tt) as Hv
    by (apply (unfolded_pipeline_valid _ _ _ _ _ _ Hu Hok); (lia || split_and!; (lia || done))).
  cbn [es_stages es_receipts extended start app]. rewrite Hv. cbn [map_err mbind result_bind].
  apply bind_ok. exists (encode_expansion (expansion root c rs ss) (encode_pipeline (expanded_pipeline c ss))).
  split; [|by apply guard_ok; split; [apply Z.ltb_ge|]].
  apply expanded_bytes_ok. split_and!; [done| |done].
  apply (unfolded_receipts_valid _ _ _ _ _ _ Hu). lia.
Qed.

(** C20. Expansion computes the unfolding of the invocation, whenever that fits.
    An invocation expands exactly when its packages are in the catalog under
    their own digests, no package is invoked below itself, every input binds,
    and the unfolded tree stays within the limits; then the expanded pipeline
    holds the stages of every invocation, dependencies first, and the ledger
    one receipt per invocation, in the order of a depth-first walk.  None of
    the later validations of the pipeline and the ledger can fail otherwise,
    but for one: no stage may declare artifacts. *)
Theorem expand_component_exact `{External} root catalog limits e :
  limits_typed limits ->
  expand_component root catalog limits = Ok e <->
  limits_positive limits /\
  exists c rs ss, catalog !! in_digest root = Some c /\
    unfolds catalog ∅ (Z.to_nat (lim_depth limits)) root "$" 0 rs ss /\
    expansion_fits limits rs ss /\ Forall (fun s => stage_artifacts s = []) ss /\
    e = expansion root c rs ss /\
    slen (encode_expansion e (encode_pipeline (ep_pipeline e))) <= lim_canonical_bytes limits.
Proof.
  intros Ht. split.
  - by apply expand_component_sound.
  - by apply expand_component_complete.
Qed.

(** Expansion always returns.  From any catalog, even a corrupt one, it
    ends in an expansion or in an error of the program: its recursion stops,
    because no package is entered below itself, and the [expect] on the parent
    of a receipt never panics. *)
Theorem expand_component_total `{External} root catalog limits :
  limits_typed limits ->
  (exists e, expand_component root catalog limits = Ok e) \/
  exists error, expand_component root catalog limits = Err (Rejected error).
Proof.
  intros Ht. assert (errs_in is_error (expand_component root catalog limits)) as He.
  { unfold expand_component. fold start. apply errs_bind; [by apply errs_check|].
    intros [] Hp%validate_limits_ok; [|done]. apply errs_bind.
    { apply expand_clean; [apply start_counted|by apply start_within|rewrite unentered_start; lia]. }
    intros st Hst. apply expand_root in Hst as (rs & ss & Hu & -> & _); [|done].
    destruct (unfolds_root _ _ _ _ _ Hu) as (c & -> & _). cbn [ok_or mbind result_bind].
    cbv zeta. apply errs_bind; [by errs_solve|]. intros _ _. apply errs_bind; [|by intros; errs_solve].
    change (Build_ExpandedPipeline _ _ _) with (expansion root c rs ss).
    unfold expanded_canonical_bytes. apply errs_bind; [by errs_solve|]. intros _ _.
    apply errs_bind; [|by intros; errs_solve]. intros f Hf.
    pose proof (proj2 (unfolded_receipts_valid catalog _ root c rs ss Hu)) as Hv.
    destruct (Z.le_gt_cases (llen rs) MAX_EXPANDED_COMPONENTS) as [Hl|Hl]; [by rewrite Hv in Hf|].
    unfold validate_receipts in Hf. cbn [ep_components expansion] in Hf. apply Z.ltb_lt in Hl.
    rewrite Hl in Hf. destruct rs; injection Hf as <-; done. }
  destruct (expand_component root catalog limits) as [e|[error| |]] eqn:E; eauto;
    destruct (He _ eq_refl).
Qed.

(** ** Later catalogs *)

Lemma unfolds_mono `{External} catalog catalog' :
  catalog ⊆ catalog' ->
  (forall active height invocation path index rs ss,
     unfolds catalog active height invocation path index rs ss ->
     unfolds catalog' active height invocation path index rs ss) /\
  (forall active height path position index ds rs ss,
     unfolds_all catalog active height path position index ds rs ss ->
     unfolds_all catalog' active height path position index ds rs ss).
Proof.
  intros Hsub. apply (unfolds_both _ catalog); intros; econstructor; eauto using lookup_weaken.
Qed.

Lemma register_grows `{External} c catalog digest catalog' :
  register c catalog = Ok (digest, catalog') -> catalog ⊆ catalog'.
Proof.
  unfold register, insert_exact. intros (d & Hd & (k & Hk & [= <- <-])%bind_ok)%bind_ok.
  rewrite Hd in Hk. cbn [mbind result_bind] in Hk. apply guard_ok in Hk as [_ Hk].
  destruct (catalog !! d) as [existing|] eqn:E.
  - apply bind_ok in Hk as (b1 & _ & Hk). apply bind_ok in Hk as (b2 & _ & Hk).
    by apply guard_ok in Hk as [_ [= <-]].
  - injection Hk as <-. by apply insert_subseteq.
Qed.

(** The catalog after a sequence of registrations. *)
Definition register_all `{External} (cs : list VersionedComponent) (catalog : ComponentCatalog) :
    result component_fault ComponentCatalog :=
  try_fold (fun catalog c => '(_, catalog) ← register c catalog; Ok catalog) catalog cs.

Lemma register_all_grows `{External} cs catalog catalog' :
  register_all cs catalog = Ok catalog' -> catalog ⊆ catalog'.
Proof.
  unfold register_all. revert catalog. induction cs as [|c cs IH]; intros catalog; cbn [try_fold].
  { by intros [= <-]. }
  intros (next & ([d k] & Hr & [= <-])%bind_ok & Hf)%bind_ok.
  etransitivity; [by eapply register_grows|by apply IH].
Qed.

(** The catalog is immutable: an invocation that expands goes on expanding
    to the very same pipeline and ledger whatever is registered afterwards. *)
Theorem expansion_immutable `{External} root catalog limits cs catalog' e :
  limits_typed limits -> register_all cs catalog = Ok catalog' ->
  expand_component root catalog limits = Ok e ->
  expand_component root catalog' limits = Ok e.
Proof.
  intros Ht Hsub%register_all_grows (Hp & c & rs & ss & Hc & Hu & Hr)%expand_component_sound; [|done].
  apply expand_component_complete; [done|]. split; [done|]. exists c, rs, ss.
  split; [by eapply lookup_weaken|]. split; [by apply (unfolds_mono catalog catalog')|done].
Qed.

(** ** Packages that never expand *)

Lemma unfolds_own_artifacts `{External} catalog active height root path index rs ss c s :
  unfolds catalog active height root path index rs ss -> catalog !! in_digest root = Some c ->
  s ∈ stages (vc_pipeline c) -> stage_artifacts s <> [] ->
  ~ Forall (fun s => stage_artifacts s = []) ss.
Proof.
  intros Hu Hc Hs Ha Hf. inversion Hu; subst. simplify_eq. apply Forall_app in Hf as [_ Hf].
  match goal with H1 : instantiate_pipeline _ _ = Ok _ |- _ =>
    apply instantiate_stages_keep in H1 as (_ & E & _) end.
  assert (stage_artifacts s ∈ stage_artifacts <$> stages instance) as (t & Et & Ht)%list_elem_of_fmap
    by (rewrite E; by apply list_elem_of_fmap_2).
  apply Ha. rewrite Et. rewrite Forall_fmap, Forall_forall in Hf. apply (Hf t Ht).
Qed.

(** A component that declares artifacts can never run.  The catalog
    accepts such a package, because a package may hold any valid pipeline
    without notification targets, but an invocation of it expands under no
    limits and no inputs: the expanded pipeline gets at most schema version
    1.7, and declared artifacts need 1.8. *)
Theorem artifact_component_never_expands `{External} catalog digest inputs limits c s :
  limits_typed limits -> catalog !! digest = Some c ->
  s ∈ stages (vc_pipeline c) -> stage_artifacts s <> [] ->
  forall e, expand_component (Build_ComponentInvocation digest inputs) catalog limits <> Ok e.
Proof.
  intros Ht Hc Hs Ha e (_ & c' & rs & ss & Hc' & Hu & _ & Hf & _)%expand_component_sound; [|done].
  exact (unfolds_own_artifacts _ _ _ _ _ _ _ _ _ s Hu Hc Hs Ha Hf).
Qed.
