(* ===== verification/ComponentIdentity.v ===== *)
(** * Digests name components and expansions

    The reference form of a digest is exact, the canonical bytes of a package
    determine everything but its provenance, and the canonical bytes of an
    expansion determine its root, its ledger and its pipeline. *)

From stdpp Require Import base gmap list strings pretty.
From Stdlib Require Import Ascii ZArith Lia.
From S2P Require Import Prelude Text Bytes Expression Domain Artifacts StrictYaml PipelineIr.
From S2P Require Import Canonical Compiler CanonicalReads CanonicalParameters CanonicalAccept.
From S2P Require Import CanonicalUnique Components ComponentLedger ComponentSpec.

Open Scope Z_scope.

(** ** References *)

Lemma unhex_pair a b :
  is_lower_hex a = true -> is_lower_hex b = true ->
  hex_lower (byte_val (byte_of (16 * hex_val a + hex_val b)) / 16) = a /\
  hex_lower (byte_val (byte_of (16 * hex_val a + hex_val b)) mod 16) = b.
Proof.
  destruct a as [[] [] [] [] [] [] [] []]; try done;
    destruct b as [[] [] [] [] [] [] [] []]; try done.
Qed.

Lemma hex_pair c :
  is_lower_hex (hex_lower (byte_val c / 16)) = true /\
  is_lower_hex (hex_lower (byte_val c mod 16)) = true /\
  byte_of (16 * hex_val (hex_lower (byte_val c / 16)) + hex_val (hex_lower (byte_val c mod 16))) = c.
Proof. by destruct c as [[] [] [] [] [] [] [] []]. Qed.

Lemma unhex_hex s : unhex (hex_of s) = s /\ all_bytes is_lower_hex (hex_of s) = true /\
  slen (hex_of s) = 2 * slen s.
Proof.
  induction s as [|c s (IH & Ha & Hl)]; [done|]. destruct (hex_pair c) as (H1 & H2 & H3).
  cbn [hex_of unhex all_bytes]. rewrite IH, H1, H2, H3, Ha. split_and!; [done..|].
  unfold slen in *. cbn [String.length]. lia.
Qed.

Lemma hex_unhex n s :
  String.length s = (n + n)%nat -> all_bytes is_lower_hex s = true ->
  hex_of (unhex s) = s /\ String.length (unhex s) = n.
Proof.
  revert s. induction n as [|n IH]; intros s Hl Ha; [by destruct s|].
  destruct s as [|a [|b s]]; simpl in Hl; [lia..|].
  cbn [all_bytes] in Ha. apply andb_true_iff in Ha as [Ha [Hb Hs]%andb_true_iff].
  destruct (IH s ltac:(lia) Hs) as [E El]. destruct (unhex_pair a b Ha Hb) as [E1 E2].
  cbn [unhex hex_of String.length]. by rewrite E, E1, E2, El.
Qed.

(** References are exact.  The text [from_str] accepts is [sha256:] and 64
    lowercase hexadecimal digits, and it is the reference of the digest it
    gives: no name, tag, other case or other length is a component
    reference. *)
Theorem reference_exact text digest :
  component_from_str text = Ok digest <->
  String.length digest = 32%nat /\ text = to_reference digest.
Proof.
  unfold component_from_str, to_reference. split.
  - destruct (strip_prefix _ _) as [hex|] eqn:E; [|done]. apply strip_prefix_Some in E as ->.
    intros [[Hl%negb_false_iff%Z.eqb_eq Hh%negb_false_iff]%orb_false_iff [= <-]]%guard_ok.
    destruct (hex_unhex 32 hex) as [E El]; [unfold slen in Hl; lia|done|]. by rewrite E.
  - intros [Hl ->]. rewrite strip_prefix_app. destruct (unhex_hex digest) as (E & Ha & Hs).
    apply guard_ok. rewrite Ha, E. split; [|done]. rewrite Hs. unfold slen. by rewrite Hl.
Qed.

(** ** The writer *)

(** A length the writer's 32-bit prefix holds. *)
Definition fits_u32 (s : string) : Prop := slen s < 2 ^ 32.

Definition value_typed (v : ParameterValue) : Prop :=
  match v with PBool _ => True | PInteger z => in_i64 z = true | PString s => fits_u32 s end.

Definition inputs_typed (inputs : bmap ParameterValue) : Prop :=
  Forall (fun i => fits_u32 i.1 /\ value_typed i.2) inputs /\ llen inputs < 2 ^ 32.

Definition outputs_typed (outputs : bmap ParameterType) : Prop :=
  Forall (fun o => fits_u32 o.1) outputs /\ llen outputs < 2 ^ 32.

Lemma unique_cw_string : unique_code fits_u32 cw_string.
Proof.
  intros x y s t Hx Hy E. unfold cw_string, cw_u32, fits_u32 in *. rewrite !sapp_assoc in E.
  pose proof (slen_nonneg x). pose proof (slen_nonneg y).
  apply (unique_be_bytes 4) in E as [El E]; [|change (256 ^ Z.of_nat 4) with (2 ^ 32); lia..].
  apply sapp_inj_length in E; [done|]. unfold slen in El. lia.
Qed.

Lemma unique_cw_value : unique_code value_typed cw_parameter_value.
Proof.
  intros [b|z|x] [b'|z'|x'] s t Hx Hy E; cbn [cw_parameter_value] in E;
    rewrite !sapp_assoc in E; apply unique_u8 in E as [? E]; try done.
  - apply unique_u8 in E as [Eb ->]; [|by destruct b|by destruct b']. by destruct b, b'.
  - apply unique_i64 in E as [-> ->]; done.
  - apply unique_cw_string in E as [-> ->]; done.
Qed.

Lemma unique_cw_values : unique_code inputs_typed cw_parameter_values.
Proof.
  apply (unique_list (fun i => fits_u32 i.1 /\ value_typed i.2) cw_input).
  intros [n v] [n' v'] s t [Hn Hv] [Hn' Hv'] E. unfold cw_input in E. cbn [fst snd] in *.
  rewrite !sapp_assoc in E. peel unique_cw_string E. peel unique_cw_value E. by subst.
Qed.

Lemma unique_cw_outputs : unique_code outputs_typed cw_outputs.
Proof.
  apply (unique_list (fun o => fits_u32 o.1) cw_output).
  intros [n v] [n' v'] s t Hn Hn' E. unfold cw_output in E. cbn [fst snd] in *.
  rewrite !sapp_assoc in E. peel unique_cw_string E. peel unique_parameter_type E. by subst.
Qed.

Definition digest_typed (d : string) : Prop := String.length d = 32%nat.

Lemma unique_digest : unique_code digest_typed id.
Proof. intros x y s t Hx Hy E. apply sapp_inj_length in E; [done|]. exact (eq_trans Hx (eq_sym Hy)). Qed.

Definition invocation_typed (d : ComponentInvocation) : Prop :=
  digest_typed (in_digest d) /\ inputs_typed (in_inputs d).

Lemma unique_dependency : unique_code invocation_typed cw_dependency.
Proof.
  intros [d i] [d' i'] s t [Hd Hi] [Hd' Hi'] E. unfold cw_dependency in E. cbn in *.
  rewrite !sapp_assoc in E. peel unique_digest E. peel unique_cw_values E. by subst.
Qed.

(** ** Packages *)

(** What the types of a package and memory say of it: 32-byte digests, 64-bit
    integers, lengths below 2^32. *)
Record component_typed (c : VersionedComponent) : Prop := {
  ct_pipeline : pipeline_wf (vc_pipeline c);
  ct_mappings : mapping_ids_within MAX_WRITTEN_BYTES (vc_pipeline c);
  ct_bytes : fits_u32 (encode_pipeline (vc_pipeline c));
  ct_dependencies : Forall invocation_typed (vc_dependencies c)
}.

(** Everything but the provenance of the package and of its pipeline. *)
Definition same_component (c c' : VersionedComponent) : Prop :=
  vc_version c = vc_version c' /\ vc_name c = vc_name c' /\
  strip_pipeline (vc_pipeline c) = strip_pipeline (vc_pipeline c') /\
  vc_outputs c = vc_outputs c' /\ vc_dependencies c = vc_dependencies c'.

Lemma identifier_fits id : stage_id_ok id = true -> fits_u32 id.
Proof. intros [_ H]%stage_id_ok_split. unfold fits_u32, MAX_IR_STRING_BYTES in *. lia. Qed.

Lemma outputs_typed_ok outputs :
  llen outputs <= MAX_COMPONENT_OUTPUTS -> Forall (fun o => stage_id_ok o.1 = true) outputs ->
  outputs_typed outputs.
Proof.
  intros Hl Ho. unfold outputs_typed, MAX_COMPONENT_OUTPUTS in *. split; [|lia].
  eapply Forall_impl; [exact Ho|]. intros o. apply identifier_fits.
Qed.

Lemma encode_component_identifies `{External} c c' :
  component_typed c -> component_typed c' -> component_ok c -> component_ok c' ->
  encode_component c (encode_pipeline (vc_pipeline c))
  = encode_component c' (encode_pipeline (vc_pipeline c')) -> same_component c c'.
Proof.
  intros [Wp Lp Bp Dp] [Wq Lq Bq Dq] Op Oq E. unfold encode_component in E.
  pose proof (outputs_typed_ok _ (proj1 (ck_outputs c Op)) (proj2 (ck_outputs c Op))) as Tp.
  pose proof (outputs_typed_ok _ (proj1 (ck_outputs c' Oq)) (proj2 (ck_outputs c' Oq))) as Tq.
  pose proof (identifier_fits _ (proj1 (ck_name c Op))). pose proof (identifier_fits _ (proj1 (ck_name c' Oq))).
  rewrite (ck_version c Op), (ck_version c' Oq) in E.
  do 3 apply sapp_inj in E. peel unique_cw_string E.
  apply (unique_cw_string (encode_pipeline _) (encode_pipeline _)) in E as [Epl E]; [|done..].
  peel unique_cw_outputs E.
  rewrite <- (sapp_nil_r (enc_all cw_dependency (vc_dependencies c))),
    <- (sapp_nil_r (enc_all cw_dependency (vc_dependencies c'))), <- !sapp_assoc in E.
  apply (unique_list _ _ unique_dependency (vc_dependencies c) (vc_dependencies c')) in E as [Ed _].
  2, 3: split; [done|]; pose proof (ck_dependencies c Op); pose proof (ck_dependencies c' Oq);
    unfold MAX_COMPONENT_DEPENDENCIES in *; lia.
  split_and!; [by rewrite (ck_version c Op), (ck_version c' Oq)|done| |done|done].
  apply encode_identifies; try done; apply validate_pipeline_ok; try done;
    by apply ck_pipeline.
Qed.

Lemma component_digest_bytes `{External} c digest :
  component_semantic_digest c = Ok digest ->
  component_ok c /\ digest = sha256 (encode_component c (encode_pipeline (vc_pipeline c))).
Proof.
  intros Hd. pose proof (component_digest_ok _ _ Hd) as Hok. split; [done|].
  unfold component_semantic_digest, component_canonical_bytes, canonical_bytes in Hd.
  apply bind_ok in Hd as (bytes & [_ (p & Hp%map_err_ok & [= <-])%bind_ok]%seq_ok & [= <-]).
  by apply seq_ok in Hp as [_ [= <-]].
Qed.

(** A component digest names one package.  Two packages with the same
    digest agree on version, name, outputs, the exact dependency invocations
    in order, and everything of their pipelines but provenance and source
    spans, or they exhibit a SHA-256 collision. *)
Theorem component_digest_identifies `{External} c c' digest :
  component_typed c -> component_typed c' ->
  component_semantic_digest c = Ok digest -> component_semantic_digest c' = Ok digest ->
  same_component c c' \/ sha256_collision.
Proof.
  intros Tc Tc' [Oc ->]%component_digest_bytes [Oc' E]%component_digest_bytes.
  apply sha256_eq_or_collision in E as [E|]; [|by right]. left.
  by apply encode_component_identifies.
Qed.

(** ** Expansions *)

Lemma validate_receipt_sound index seen r :
  validate_receipt index seen r = Ok tt ->
  receipt_contents r /\ slen (cr_path r) <= MAX_IR_STRING_BYTES.
Proof.
  unfold validate_receipt. cbv zeta. intros [[Hl%Z.ltb_ge _]%guard_ok H1]%seq_ok.
  apply guard_ok in H1 as [_ H1]. apply seq_ok in H1 as [_ H1].
  apply guard_ok in H1 as [Hv%negb_false_iff%bool_decide_eq_true H1].
  apply guard_ok in H1 as [Hic%Z.ltb_ge H1]. apply seq_ok in H1 as [Hi%try_for_ok H1].
  apply guard_ok in H1 as [Hoc%Z.ltb_ge Ho%try_for_ok]. split; [|done]. split_and!; try done.
  - eapply Forall_impl; [exact Hi|]. intros x. apply validate_receipt_input_ok.
  - eapply Forall_impl; [exact Ho|]. intros o. apply component_identifier_ok.
Qed.

Lemma validate_receipt_list_sound index seen rs :
  validate_receipt_list index seen rs = Ok tt ->
  Forall (fun r => receipt_contents r /\ slen (cr_path r) <= MAX_IR_STRING_BYTES) rs.
Proof.
  revert index seen. induction rs as [|r rs IH]; intros index seen; [constructor|].
  cbn [validate_receipt_list]. intros [H1%validate_receipt_sound H2]%seq_ok. eauto.
Qed.

Definition receipt_typed (r : ComponentReceipt) : Prop :=
  digest_typed (cr_digest r) /\ Forall (fun i => value_typed i.2) (cr_inputs r).

Record expansion_typed (e : ExpandedPipeline) : Prop := {
  et_root : digest_typed (ep_root e);
  et_receipts : Forall receipt_typed (ep_components e);
  et_pipeline : pipeline_wf (ep_pipeline e);
  et_mappings : mapping_ids_within MAX_WRITTEN_BYTES (ep_pipeline e);
  et_bytes : fits_u32 (encode_pipeline (ep_pipeline e))
}.

(** A receipt without the digest of the source its package came from. *)
Definition strip_receipt (r : ComponentReceipt) : ComponentReceipt :=
  Build_ComponentReceipt (cr_path r) (cr_digest r) (cr_version r) (cr_inputs r) (cr_outputs r) "".

Definition same_expansion (e e' : ExpandedPipeline) : Prop :=
  ep_root e = ep_root e' /\
  strip_receipt <$> ep_components e = strip_receipt <$> ep_components e' /\
  strip_pipeline (ep_pipeline e) = strip_pipeline (ep_pipeline e').

Definition receipt_codable (r : ComponentReceipt) : Prop :=
  fits_u32 (cr_path r) /\ digest_typed (cr_digest r) /\ cr_version r = COMPONENT_V1 /\
  inputs_typed (cr_inputs r) /\ outputs_typed (cr_outputs r).

Lemma codes_receipt : codes strip_receipt receipt_codable cw_receipt.
Proof.
  intros r r' s t (Hp & Hd & Hv & Hi & Ho) (Hp' & Hd' & Hv' & Hi' & Ho') E.
  unfold cw_receipt in E. rewrite !sapp_assoc, Hv, Hv' in E. peel unique_cw_string E.
  peel unique_digest E. do 2 apply sapp_inj in E. peel unique_cw_values E. peel unique_cw_outputs E.
  unfold strip_receipt. rewrite Hv, Hv'. split; [congruence|done].
Qed.

Lemma receipts_codable_ok e :
  expansion_typed e -> validate_receipts e = Ok tt ->
  Forall receipt_codable (ep_components e) /\ llen (ep_components e) < 2 ^ 32.
Proof.
  intros [_ Ht _ _] Hv. unfold validate_receipts in Hv.
  destruct (ep_components e) as [|root l] eqn:El; [done|].
  apply guard_ok in Hv as [Hc%Z.ltb_ge Hv]. do 2 apply guard_ok in Hv as [_ Hv].
  apply validate_receipt_list_sound in Hv. unfold MAX_EXPANDED_COMPONENTS in Hc. split; [|lia].
  rewrite Forall_forall in *. intros r Hr. destruct (Hv r Hr) as [(Hve & [Hic Hi] & Hoc & Ho) Hl].
  destruct (Ht r Hr) as [Hd Hin]. unfold MAX_PARAMETERS in Hic. split_and!; try done.
  - unfold fits_u32, MAX_IR_STRING_BYTES in *. lia.
  - rewrite Forall_forall in Hi, Hin. split; [|lia]. apply Forall_forall. intros i Hii.
    split; [apply identifier_fits, (Hi i Hii)|by apply Hin].
  - by apply outputs_typed_ok.
Qed.

(** An expansion digest names one expansion.  Two expansions with the same
    digest have the same root, the same ledger up to the source hashes, and
    the same pipeline up to provenance and source spans, or they exhibit a
    SHA-256 collision: distinct component identities cannot collapse even
    when their concrete steps coincide. *)
Theorem expansion_digest_identifies `{External} e e' digest :
  expansion_typed e -> expansion_typed e' ->
  expanded_semantic_digest e = Ok digest -> expanded_semantic_digest e' = Ok digest ->
  same_expansion e e' \/ sha256_collision.
Proof.
  intros Te Te' (b & Hb & [= <-])%bind_ok (b' & Hb' & [= E])%bind_ok.
  apply sha256_eq_or_collision in E as [E|]; [|by right]. left.
  apply expanded_bytes_ok in Hb as (Hv & Hr & ->), Hb' as (Hv' & Hr' & ->).
  apply receipts_codable_ok in Hr, Hr'; [|done..]. unfold encode_expansion in E. symmetry in E.
  apply sapp_inj in E. destruct Te as [Td _ Tp Tl Tb], Te' as [Td' _ Tp' Tl' Tb']. peel unique_digest E.
  rewrite <- !sapp_assoc in E.
  apply (codes_list _ _ _ codes_receipt (ep_components e) (ep_components e')) in E as [Er E]; [|done..].
  rewrite <- (sapp_nil_r (cw_bytes (encode_pipeline (ep_pipeline e)))),
    <- (sapp_nil_r (cw_bytes (encode_pipeline (ep_pipeline e')))) in E.
  apply unique_cw_string in E as [Ep _]; [|done..].
  split_and!; [done|done|]. apply encode_identifies; try done; by apply validate_pipeline_ok.
Qed.
