(* ===== verification/DagContract.v ===== *)
(** * Build DAG contracts

    controller-store/src/dag.rs, the part that needs no database: matrix
    expansion, validation of a build's node graph, and the normalized contract
    that decides whether an admission is a replay. *)

From stdpp Require Import base gmap list strings pretty.
From Stdlib Require Import Ascii ZArith Lia.
From S2P Require Import Prelude Text Bytes Domain.

Open Scope Z_scope.

Definition MAX_DAG_NODES : Z := 256.
Definition MAX_DAG_EDGES : Z := 4096.
Definition MAX_MATRIX_AXES : Z := 8.
Definition MAX_MATRIX_VALUES_PER_AXIS : Z := 32.
Definition MAX_MATRIX_CELLS : Z := 256.
Definition MAX_DAG_TEXT_BYTES : Z := 256.
Definition MAX_EXECUTION_SPEC_BYTES : Z := 256 * 1024.
Definition MAX_DAG_CAPABILITIES : Z := 64.

(** ** JSON values *)

(** [serde_json::Value]; a number is kept as the text it prints. *)
Inductive Value : Type :=
| VNull
| VBool (b : bool)
| VNumber (text : string)
| VString (s : string)
| VArray (l : list Value)
| VObject (fields : bmap Value).

Definition as_array (v : Value) : option (list Value) :=
  match v with VArray l => Some l | _ => None end.
Definition as_object (v : Value) : option (bmap Value) :=
  match v with VObject m => Some m | _ => None end.
Definition as_str (v : Value) : option string :=
  match v with VString s => Some s | _ => None end.

(** What [url::Url] tells of a parsed URL. *)
Record Url := {
  url_scheme : string;
  url_host : option string;
  url_username : string;
  url_password : option string;
  url_fragment : option string
}.

(** Third-party code and the build profile: [serde_json::to_vec],
    [Url::parse], [cfg!(debug_assertions)]. *)
Class DagExternal := {
  json_to_vec : Value -> result string string;
  url_parse : string -> option Url;
  debug_assertions : bool
}.

(** ** Data *)

Inductive DependencyCondition : Type := Succeeded | Completed.
Inductive DagNodeKind : Type := Work | Join | Post.

#[export] Instance DependencyCondition_eq_dec : EqDecision DependencyCondition.
Proof. solve_decision. Defined.
#[export] Instance DagNodeKind_eq_dec : EqDecision DagNodeKind.
Proof. solve_decision. Defined.

Definition condition_str (c : DependencyCondition) : string :=
  match c with Succeeded => "succeeded" | Completed => "completed" end.
Definition kind_str (k : DagNodeKind) : string :=
  match k with Work => "work" | Join => "join" | Post => "post" end.

Record DagDependency := { dep_node_key : string; dep_condition : DependencyCondition }.

Record NewDagNode := {
  node_key : string;
  node_kind : DagNodeKind;
  dependencies : list DagDependency;
  required_capabilities : list string;
  required_platform : string;
  required_trust_pool : string;
  node_priority : Z;
  execution_spec : Value;
  fail_fast : bool;
  max_attempts : Z
}.

Record NewDagBuild := {
  organization_id : string;
  project_id : string;
  pipeline_id : string;
  pipeline_revision : Z;
  pipeline_operational_generation : Z;
  idempotency_key : string;
  pipeline_digest : string;
  build_priority : Z;
  build_nodes : list NewDagNode;
  notify_targets : Value
}.

Inductive DagContractErrorCode : Type :=
| InvalidText | MatrixAxisLimit | MatrixValueLimit | MatrixCellLimit | DuplicateMatrixValue
| NodeLimit | EdgeLimit | DuplicateNode | MissingDependency | DuplicateDependency | Cycle
| RetryLimit | InvalidNodeKind | PlatformMismatch | CapabilityLimit | DuplicateCapability
| ExecutionSpecLimit | InvalidNotifyTargets.

Record DagContractError := DagError {
  dag_code : DagContractErrorCode;
  dag_path : string;
  dag_message : string
}.

Definition dag_error_display (e : DagContractError) : string :=
  dag_path e +:+ ": " +:+ dag_message e.

(** An error, a panic ([expect], arithmetic overflow), or a loop cut short. *)
Inductive dag_fault : Type := DFail (e : DagContractError) | DPanic | DFuel.

Definition refuse_dag {A} (code : DagContractErrorCode) (path message : string) :
    result dag_fault A :=
  Err (DFail (DagError code path message)).

(** ** Text *)

Definition validate_text (path value : string) : result dag_fault () :=
  if is_empty value || (MAX_DAG_TEXT_BYTES <? slen value)
     || negb (all_bytes (fun b => is_ascii_alphanumeric b || one_of ["."; "_"; "-"]%char b) value)
  then refuse_dag InvalidText path
    "must be bounded ASCII letters, digits, dot, underscore, or hyphen"
  else Ok tt.

Definition validate_node_key (path value : string) : result dag_fault () :=
  if is_empty value || (MAX_DAG_TEXT_BYTES <? slen value)
     || negb (all_bytes (fun b => is_ascii_alphanumeric b
                || one_of ["."; "_"; "-"; "["; "]"; "="; ","]%char b) value)
  then refuse_dag InvalidText path "must be a bounded canonical DAG node key"
  else Ok tt.

(** ** Sorting *)

(** [sort_by] by a strict order: insertion keeps equal elements in order. *)
Fixpoint insert_by {A} (lt : A -> A -> bool) (x : A) (l : list A) : list A :=
  match l with
  | [] => [x]
  | y :: l' => if lt y x then y :: insert_by lt x l' else x :: l
  end.
Definition sort_by {A} (lt : A -> A -> bool) (l : list A) : list A := foldr (insert_by lt) [] l.

(** [Vec::dedup]: drops consecutive repetitions. *)
Fixpoint dedup (l : list string) : list string :=
  match l with
  | a :: (b :: _) as l' => if String.eqb a b then dedup l' else a :: dedup l'
  | _ => l
  end.

(** [values.windows(2).any(|pair| pair[0] == pair[1])]. *)
Fixpoint repeats (l : list string) : bool :=
  match l with
  | a :: (b :: _) as l' => String.eqb a b || repeats l'
  | _ => false
  end.

(** ** Matrices *)

Record MatrixCell := { cell_node_key : string; cell_values : bmap string }.

(** The body of the loop over the axes. *)
Definition normalize_axis (state : list (string * list string) * Z)
    (entry : string * list string) : result dag_fault (list (string * list string) * Z) :=
  let '(normalized, cells) := state in
  let '(axis, values) := entry in
  let path := "$.axes." +:+ axis in
  validate_text path axis ;;
  (if (llen values =? 0) || (MAX_MATRIX_VALUES_PER_AXIS <? llen values)
   then refuse_dag MatrixValueLimit path
     ("matrix values per axis must be between 1 and " +:+ fmt_z MAX_MATRIX_VALUES_PER_AXIS)
   else Ok tt) ;;
  try_for (validate_text path) values ;;
  let values := sort_by str_ltb values in
  (if repeats values then refuse_dag DuplicateMatrixValue path "matrix values must be unique"
   else Ok tt) ;;
  cells ← (if cells * llen values <=? usize_max then Ok (cells * llen values)
           else refuse_dag MatrixCellLimit "$.axes" "matrix product overflows");
  (if MAX_MATRIX_CELLS <? cells
   then refuse_dag MatrixCellLimit "$.axes"
     ("matrix product exceeds " +:+ fmt_z MAX_MATRIX_CELLS +:+ " cells")
   else Ok tt) ;;
  Ok (normalized ++ [(axis, values)], cells).

(** One round of the product: every product with every value. *)
Definition extend_products (products : list (bmap string)) (axis : string * list string) :
    list (bmap string) :=
  concat (map (fun product => map (fun value => binsert (fst axis) value product) (snd axis))
            products).

(** [slice.join(separator)]. *)
Fixpoint join (separator : string) (l : list string) : string :=
  match l with
  | [] => ""
  | [s] => s
  | s :: l => s +:+ separator +:+ join separator l
  end.

Definition matrix_key (node_prefix : string) (values : bmap string) : string :=
  node_prefix +:+ "["
  +:+ join "," (map (fun kv => fst kv +:+ "=" +:+ snd kv) values) +:+ "]".

Fixpoint dag_map {A B} (f : A -> result dag_fault B) (l : list A) : result dag_fault (list B) :=
  match l with
  | [] => Ok []
  | x :: l => y ← f x; ys ← dag_map f l; Ok (y :: ys)
  end.

Definition compile_matrix (node_prefix : string) (axes : bmap (list string)) :
    result dag_fault (list MatrixCell) :=
  validate_text "$.node_prefix" node_prefix ;;
  (if (llen axes =? 0) || (MAX_MATRIX_AXES <? llen axes)
   then refuse_dag MatrixAxisLimit "$.axes"
     ("matrix axis count must be between 1 and " +:+ fmt_z MAX_MATRIX_AXES)
   else Ok tt) ;;
  '(normalized, _) ← try_fold normalize_axis ([], 1) axes;
  dag_map (fun values =>
    let node_key := matrix_key node_prefix values in
    validate_node_key "$.node_key" node_key ;;
    Ok (Build_MatrixCell node_key values)) (foldl extend_products [[]] normalized).

(** ** Notification targets *)

(** One group of [Ipv4Addr::from_str]: up to three digits, no leading zero. *)
Definition ipv4_octet (s : string) : option Z :=
  if is_empty s || (3 <? slen s) || negb (all_bytes is_ascii_digit s)
     || ((1 <? slen s) && starts_with "0" s) then None
  else if digits_val 0 s <=? 255 then Some (digits_val 0 s) else None.

(** [host.parse::<Ipv4Addr>().ok().is_some_and(|ip| ip.is_loopback())]. *)
Definition ipv4_loopback (host : string) : bool :=
  match map ipv4_octet (split_char "." host) with
  | [Some a; Some _; Some _; Some _] => a =? 127
  | _ => false
  end.

Definition webhook_destination_is_well_formed `{DagExternal} (value : string) : bool :=
  if (2048 <? slen value) || negb (String.eqb (trim value) value) then false
  else match url_parse value with
  | None => false
  | Some url =>
      (String.eqb (url_scheme url) "https"
       || (debug_assertions && String.eqb (url_scheme url) "http"
           && match url_host url with Some host => ipv4_loopback host | None => false end))
      && match url_host url with Some host => negb (is_empty host) | None => false end
      && is_empty (url_username url)
      && match url_password url with Some _ => false | None => true end
      && match url_fragment url with Some _ => false | None => true end
  end.

Definition invalid_targets {A} (message : string) : result dag_fault A :=
  refuse_dag InvalidNotifyTargets "$.notify_targets" message.

(** [field(name).is_some_and(f)] of an object. *)
Definition field_is (object : bmap Value) (name : string) (f : string -> bool) : bool :=
  match bget name object with
  | Some v => match as_str v with Some s => f s | None => false end
  | None => false
  end.

Definition validate_notify_target `{DagExternal} (entry : Value) : result dag_fault () :=
  match as_object entry with
  | None => invalid_targets "notification target must be an object"
  | Some object =>
      if negb (field_is object "mapping_id" canonical_mapping_id)
      then invalid_targets "notification target must name a canonical mapping id"
      else
        expected ←
          (if field_is object "kind" (String.eqb "github_status") then
             if negb (field_is object "commit" is_commit_id)
                || negb (field_is object "context" is_status_context)
                || negb (field_is object "repository" (fun repository =>
                     is_repository_identity repository
                     && all_bytes (fun b => negb (is_ascii_uppercase b)) repository))
             then invalid_targets
               "github_status target needs a commit, a context and a lowercase repository"
             else Ok ["kind"; "mapping_id"; "commit"; "context"; "repository"]
           else if field_is object "kind" (String.eqb "webhook") then
             if negb (field_is object "destination_url" webhook_destination_is_well_formed)
             then invalid_targets "webhook target needs an https destination"
             else Ok ["kind"; "mapping_id"; "destination_url"]
           else invalid_targets "notification target kind must be github_status or webhook");
        if existsb (fun field => negb (existsb (String.eqb (fst field)) expected)) object
        then invalid_targets "notification target carries an unknown field"
        else Ok tt
  end.

Definition validate_notify_targets `{DagExternal} (targets : Value) : result dag_fault () :=
  match as_array targets with
  | None => invalid_targets "notification targets must be an array"
  | Some entries =>
      if MAX_NOTIFY_TARGETS <? llen entries then invalid_targets "too many notification targets"
      else try_for validate_notify_target entries
  end.

(** ** The graph *)

Definition node_field (node : NewDagNode) (field : string) : string :=
  "$.nodes." +:+ node_key node +:+ "." +:+ field.

(** [keys.insert(k)] for each node; the set of all keys. *)
Definition insert_key (keys : bmap ()) (node : NewDagNode) : result dag_fault (bmap ()) :=
  validate_node_key "$.nodes.node_key" (node_key node) ;;
  if bcontains (node_key node) keys
  then refuse_dag DuplicateNode ("$.nodes." +:+ node_key node) "DAG node keys must be unique"
  else Ok (binsert (node_key node) tt keys).

Definition insert_capability (node : NewDagNode) (seen : bmap ()) (capability : string) :
    result dag_fault (bmap ()) :=
  validate_text (node_field node "required_capabilities") capability ;;
  if bcontains capability seen
  then refuse_dag DuplicateCapability (node_field node "required_capabilities")
    "capabilities must be unique"
  else Ok (binsert capability tt seen).

(** What a node must satisfy on its own. *)
Definition validate_node_fields `{DagExternal} (node : NewDagNode) : result dag_fault () :=
  validate_text (node_field node "required_platform") (required_platform node) ;;
  validate_text (node_field node "required_trust_pool") (required_trust_pool node) ;;
  (if MAX_DAG_CAPABILITIES <? llen (required_capabilities node)
   then refuse_dag CapabilityLimit (node_field node "required_capabilities")
     ("capability count exceeds " +:+ fmt_z MAX_DAG_CAPABILITIES)
   else Ok tt) ;;
  try_fold (insert_capability node) [] (required_capabilities node) ;;
  (if negb ((1 <=? max_attempts node) && (max_attempts node <=? 16))
   then refuse_dag RetryLimit (node_field node "max_attempts") "max_attempts must be between 1 and 16"
   else Ok tt) ;;
  bytes ← match json_to_vec (execution_spec node) with
          | Ok bytes => Ok bytes
          | Err message => refuse_dag ExecutionSpecLimit (node_field node "execution_spec") message
          end;
  (if MAX_EXECUTION_SPEC_BYTES <? slen bytes
   then refuse_dag ExecutionSpecLimit (node_field node "execution_spec")
     ("execution specification exceeds " +:+ fmt_z MAX_EXECUTION_SPEC_BYTES +:+ " bytes")
   else Ok tt) ;;
  (if existsb (fun capability => starts_with PLATFORM_CAPABILITY_PREFIX capability
       && negb (String.eqb capability (platform_capability (required_platform node))))
       (required_capabilities node)
   then refuse_dag PlatformMismatch (node_field node "required_capabilities")
     "platform capability conflicts with required_platform"
   else Ok tt) ;;
  (if bool_decide (node_kind node = Join) && (llen (dependencies node) <? 2)
   then refuse_dag InvalidNodeKind (node_field node "dependencies")
     "join nodes require at least two dependencies"
   else Ok tt) ;;
  (if bool_decide (node_kind node = Post)
      && ((llen (dependencies node) =? 0)
          || existsb (fun d => negb (bool_decide (dep_condition d = Completed))) (dependencies node))
   then refuse_dag InvalidNodeKind (node_field node "dependencies")
     "post nodes require one or more completion dependencies"
   else Ok tt).

(** The edge count, the in-degrees and the children of the loop over nodes. *)
Record Graph := {
  g_edges : Z;
  g_indegree : bmap Z;
  g_children : bmap (list string)
}.

(** [children.entry(parent).or_default().push(child)]. *)
Definition push_child (parent child : string) (children : bmap (list string)) :
    bmap (list string) :=
  binsert parent (default [] (bget parent children) ++ [child]) children.

(** The body of the loop over a node's dependencies; [parents] are those seen. *)
Definition add_dependency (keys : bmap ()) (node : NewDagNode)
    (state : Z * bmap () * bmap (list string)) (dependency : DagDependency) :
    result dag_fault (Z * bmap () * bmap (list string)) :=
  let '(edges, parents, children) := state in
  let edges := edges + 1 in
  let parent := dep_node_key dependency in
  if MAX_DAG_EDGES <? edges
  then refuse_dag EdgeLimit "$.nodes" ("DAG edge count exceeds " +:+ fmt_z MAX_DAG_EDGES)
  else if negb (bcontains parent keys)
  then refuse_dag MissingDependency (node_field node "dependencies")
    ("dependency " +:+ fmt_debug parent +:+ " does not exist")
  else if String.eqb parent (node_key node) || bcontains parent parents
  then refuse_dag DuplicateDependency (node_field node "dependencies")
    "dependencies must be distinct and cannot reference the node itself"
  else Ok (edges, binsert parent tt parents, push_child parent (node_key node) children).

Definition add_node `{DagExternal} (keys : bmap ()) (g : Graph) (node : NewDagNode) :
    result dag_fault Graph :=
  validate_node_fields node ;;
  '(edges, _, children) ←
    try_fold (add_dependency keys node) (g_edges g, [], g_children g) (dependencies node);
  Ok {| g_edges := edges;
        g_indegree := binsert (node_key node) (llen (dependencies node)) (g_indegree g);
        g_children := children |}.

(** [*degree -= 1; if *degree == 0 { ready.insert(child) }]. *)
Definition release_child (state : bmap Z * bmap ()) (child : string) :
    result dag_fault (bmap Z * bmap ()) :=
  let '(indegree, ready) := state in
  match bget child indegree with
  | None => Err DPanic
  | Some degree =>
      if degree =? 0 then Err DPanic
      else
        let degree := degree - 1 in
        Ok (binsert child degree indegree,
            if degree =? 0 then binsert child tt ready else ready)
  end.

(** [while let Some(key) = ready.pop_first()]; the number of keys popped. *)
Fixpoint visit (fuel : nat) (children : bmap (list string)) (indegree : bmap Z)
    (ready : bmap ()) (visited : Z) : result dag_fault Z :=
  match ready with
  | [] => Ok visited
  | (key, _) :: ready =>
      match fuel with
      | O => Err DFuel
      | S fuel =>
          '(indegree, ready) ←
            try_fold release_child (indegree, ready) (default [] (bget key children));
          visit fuel children indegree ready (visited + 1)
      end
  end.

Definition initially_ready (indegree : bmap Z) : bmap () :=
  omap (fun kd => if snd kd =? 0 then Some (fst kd, tt) else None) indegree.

Definition validate_dag_contract `{DagExternal} (input : NewDagBuild) : result dag_fault () :=
  validate_text "$.idempotency_key" (idempotency_key input) ;;
  validate_notify_targets (notify_targets input) ;;
  (if (llen (build_nodes input) =? 0) || (MAX_DAG_NODES <? llen (build_nodes input))
   then refuse_dag NodeLimit "$.nodes"
     ("DAG node count must be between 1 and " +:+ fmt_z MAX_DAG_NODES)
   else Ok tt) ;;
  keys ← try_fold insert_key [] (build_nodes input);
  g ← try_fold (add_node keys) (Build_Graph 0 [] []) (build_nodes input);
  visited ← visit (length (build_nodes input)) (g_children g) (g_indegree g)
    (initially_ready (g_indegree g)) 0;
  if negb (visited =? llen (build_nodes input))
  then refuse_dag Cycle "$.nodes" "DAG contains a dependency cycle"
  else Ok tt.

(** ** The normalized contract *)

(** [required_capabilities] with the platform's, sorted and without repetitions. *)
Definition node_capabilities (node : NewDagNode) : list string :=
  dedup (sort_by str_ltb
    (required_capabilities node ++ [platform_capability (required_platform node)])).

Definition dependency_before (l r : DagDependency) : bool :=
  str_ltb (dep_node_key l) (dep_node_key r)
  || (String.eqb (dep_node_key l) (dep_node_key r)
      && str_ltb (condition_str (dep_condition l)) (condition_str (dep_condition r))).

Definition dependency_json (d : DagDependency) : Value :=
  VObject [("condition", VString (condition_str (dep_condition d)));
           ("node_key", VString (dep_node_key d))].

Definition node_json (node : NewDagNode) : Value :=
  VObject [
    ("dependencies", VArray (map dependency_json (sort_by dependency_before (dependencies node))));
    ("execution_spec", execution_spec node);
    ("fail_fast", VBool (fail_fast node));
    ("kind", VString (kind_str (node_kind node)));
    ("max_attempts", VNumber (fmt_z (max_attempts node)));
    ("node_key", VString (node_key node));
    ("priority", VNumber (fmt_z (node_priority node)));
    ("required_capabilities", VArray (map VString (node_capabilities node)));
    ("required_platform", VString (required_platform node));
    ("required_trust_pool", VString (required_trust_pool node))].

Definition has_targets (targets : Value) : bool :=
  match as_array targets with Some l => negb (llen l =? 0) | None => false end.

Definition normalized_dag_contract (input : NewDagBuild) : Value :=
  let nodes := VArray (map node_json
    (sort_by (fun l r => str_ltb (node_key l) (node_key r)) (build_nodes input))) in
  VObject (
    [("nodes", nodes)]
    ++ (if has_targets (notify_targets input)
        then [("notify_targets", notify_targets input)] else [])
    ++ [("priority", VNumber (fmt_z (build_priority input))); ("version", VNumber "1")]).
