(* ===== verification/DagGraph.v ===== *)
(** * Validation of a build's node graph

    [validate_dag_contract] accepts exactly the bounded graphs with distinct
    nodes, existing dependencies and no cycle; its loop ends and never reaches
    one of the panics its arithmetic could raise. *)

From stdpp Require Import base gmap list strings pretty relations.
From Stdlib Require Import Ascii ZArith Lia.
From S2P Require Import Prelude Text Bytes Domain DagContract.

Open Scope Z_scope.

(** ** What a contract must satisfy *)

Definition parents (node : NewDagNode) : list string := dep_node_key <$> dependencies node.

(** [depends nodes k p]: the node [k] has a dependency on [p]. *)
Definition depends (nodes : list NewDagNode) (k p : string) : Prop :=
  exists node, node ∈ nodes /\ node_key node = k /\ p ∈ parents node.

Definition edge_count (nodes : list NewDagNode) : Z :=
  foldr (fun node n => llen (dependencies node) + n) 0 nodes.

(** Everything but the absence of cycles. *)
Record bounded_contract `{DagExternal} (input : NewDagBuild) : Prop := {
  bc_key : validate_text "$.idempotency_key" (idempotency_key input) = Ok tt;
  bc_targets : validate_notify_targets (notify_targets input) = Ok tt;
  bc_count : 1 <= llen (build_nodes input) <= MAX_DAG_NODES;
  bc_keys : NoDup (node_key <$> build_nodes input);
  bc_key_text : forall node, node ∈ build_nodes input ->
    validate_node_key "$.nodes.node_key" (node_key node) = Ok tt;
  bc_fields : forall node, node ∈ build_nodes input -> validate_node_fields node = Ok tt;
  bc_edges : edge_count (build_nodes input) <= MAX_DAG_EDGES;
  bc_parents : forall node, node ∈ build_nodes input ->
    NoDup (parents node) /\ node_key node ∉ parents node /\
    forall p, p ∈ parents node -> p ∈ node_key <$> build_nodes input
}.

(** ** A graph in which every node has a parent has a cycle *)

Lemma tc_mono {A} (R S : relation A) : (forall x y, R x y -> tc S x y) -> forall x y, tc R x y -> tc S x y.
Proof.
  intros H x y. induction 1 as [x y Hr|x y z Hr _ IH]; [by apply H|].
  eapply tc_transitive; [by apply H|done].
Qed.

Lemma stuck_has_cycle {A} `{EqDecision A} (S : list A) (R : relation A) :
  S <> [] -> (forall k, k ∈ S -> exists p, p ∈ S /\ R k p) -> exists k, k ∈ S /\ tc R k k.
Proof.
  remember (length S) as n eqn:Hn. revert S R Hn.
  induction (Nat.lt_wf_0 n) as [n _ IH]. intros [|s S] R -> Hne Hp; [done|]. clear Hne.
  destruct (Hp s ltac:(by left)) as (q & Hq & Hsq).
  destruct (decide (q = s)) as [->|Hqs]; [exists s; split; [by left|by apply tc_once]|].
  set (S' := filter (fun x => x <> s) (s :: S)).
  assert (forall x, x ∈ S' <-> x ∈ s :: S /\ x <> s) as HS'
    by (intros x; unfold S'; rewrite list_elem_of_filter; tauto).
  destruct (IH (length S')) with (S := S') (R := fun x y => R x y \/ (R x s /\ R s y))
    as (k & Hk & Hc); [|done| | |].
  - unfold S'. rewrite filter_cons_False by (intros H; by apply H). cbn.
    pose proof (length_filter (fun x => x <> s) S). lia.
  - assert (q ∈ S') as Hin by (by apply HS'). intros E. rewrite E in Hin. by apply elem_of_nil in Hin.
  - intros k [Hk Hks]%HS'. destruct (Hp k Hk) as (p & HpS & Hkp).
    destruct (decide (p = s)) as [->|Hps].
    + exists q. split; [by apply HS'|by right].
    + exists p. split; [by apply HS'|by left].
  - exists k. split; [by apply HS'|]. revert Hc. apply tc_mono. intros x y [Hxy|[Hxs Hsy]].
    + by apply tc_once.
    + eapply tc_l; [done|by apply tc_once].
Qed.

(** ** Folding the nodes into the graph *)

(** A set filled key by key, as the code fills a [BTreeSet]. *)
Definition insert_keys (ks : list string) (m : bmap ()) : bmap () :=
  foldl (fun m k => binsert k tt m) m ks.

Lemma bcontains_binsert {V} k k' (v : V) m :
  bmap_wf m -> bcontains k' (binsert k v m) = String.eqb k k' || bcontains k' m.
Proof. intros W. unfold bcontains. rewrite bget_binsert by done. by destruct (String.eqb k k'). Qed.

Lemma insert_keys_wf ks m : bmap_wf m -> bmap_wf (insert_keys ks m).
Proof. revert m. induction ks as [|k ks IH]; intros m W; [done|]. by apply IH, binsert_wf. Qed.

Lemma insert_keys_contains ks m k :
  bmap_wf m -> bcontains k (insert_keys ks m) = true <-> k ∈ ks \/ bcontains k m = true.
Proof.
  revert m. induction ks as [|a ks IH]; intros m W.
  { split; [by right|intros [?%not_elem_of_nil|?]; done]. }
  cbn [insert_keys foldl]. fold (insert_keys ks (binsert a tt m)).
  rewrite IH, bcontains_binsert, orb_true_iff, elem_of_cons, String.eqb_eq by (done || by apply binsert_wf).
  naive_solver.
Qed.

(** Distinct keys that each pass a check. *)
Lemma insert_set_ok {A} (key : A -> string) (pre : A -> result dag_fault ()) (dup : A -> dag_fault)
    l m m' :
  bmap_wf m ->
  try_fold (fun m x => pre x ;; if bcontains (key x) m then Err (dup x) else Ok (binsert (key x) tt m)) m l
    = Ok m' <->
  (forall x, x ∈ l -> pre x = Ok tt) /\ NoDup (key <$> l) /\
  (forall x, x ∈ l -> bcontains (key x) m = false) /\ m' = insert_keys (key <$> l) m.
Proof.
  revert m. induction l as [|x l IH]; intros m W; cbn [try_fold].
  { split; [intros [= <-]|by intros (_ & _ & _ & ->)].
    split_and!; try (intros ? []%not_elem_of_nil); [apply NoDup_nil_2|done]. }
  rewrite bind_ok. setoid_rewrite bind_ok. rewrite fmap_cons, NoDup_cons. split.
  - intros (m1 & ([] & Hp & Hc) & Hf). destruct (bcontains (key x) m) eqn:Eb; [done|].
    injection Hc as <-. apply IH in Hf as (Hps & N & Hn & ->); [|by apply binsert_wf].
    assert (forall y, y ∈ l -> key x <> key y /\ bcontains (key y) m = false) as Hd.
    { intros y Hy. specialize (Hn y Hy). rewrite bcontains_binsert in Hn by done.
      apply orb_false_iff in Hn as [Hn%String.eqb_neq ?]. done. }
    split_and!; [|..|done].
    + intros y [->|Hy]%elem_of_cons; auto.
    + intros (y & Ey & Hy)%list_elem_of_fmap. by apply (Hd y Hy).
    + done.
    + intros y [->|Hy]%elem_of_cons; [done|by apply Hd].
  - intros (Hps & [Hx N] & Hn & ->). exists (binsert (key x) tt m). split.
    + exists tt. split; [apply Hps; by left|]. by rewrite Hn by by left.
    + apply IH; [by apply binsert_wf|]. split_and!; [|done| |done].
      * intros y Hy. apply Hps. by right.
      * intros y Hy. rewrite bcontains_binsert, (Hn y), orb_false_r by (done || by right).
        apply String.eqb_neq. intros E. apply Hx. rewrite E. by apply list_elem_of_fmap_2.
Qed.

Lemma insert_key_fold nodes keys :
  try_fold insert_key [] nodes = Ok keys <->
  (forall node, node ∈ nodes -> validate_node_key "$.nodes.node_key" (node_key node) = Ok tt) /\
  NoDup (node_key <$> nodes) /\ keys = insert_keys (node_key <$> nodes) [].
Proof.
  unfold insert_key, refuse_dag. rewrite (insert_set_ok node_key (fun node => validate_node_key _ _)
    (fun node => DFail _)) by constructor. naive_solver.
Qed.

(** The dependencies of one node. *)
Lemma add_dependencies_ok keys node deps edges seen children edges' seen' children' :
  bmap_wf seen -> bmap_wf children -> 0 <= edges ->
  try_fold (add_dependency keys node) (edges, seen, children) deps = Ok (edges', seen', children') <->
  edges' = edges + llen deps /\ (deps <> [] -> edges' <= MAX_DAG_EDGES) /\
  NoDup (dep_node_key <$> deps) /\
  (forall d, d ∈ deps -> bcontains (dep_node_key d) keys = true /\ dep_node_key d <> node_key node /\
     bcontains (dep_node_key d) seen = false) /\
  seen' = insert_keys (dep_node_key <$> deps) seen /\
  children' = foldl (fun m d => push_child (dep_node_key d) (node_key node) m) children deps.
Proof.
  revert edges seen children. induction deps as [|d deps IH]; intros edges seen children Ws Wc He;
    cbn [try_fold foldl].
  { split.
    - intros [= <- <- <-]. unfold llen. cbn. split_and!; try done; try lia; try (intros ? []%not_elem_of_nil).
      apply NoDup_nil_2.
    - intros (-> & _ & _ & _ & -> & ->). unfold llen. cbn. by rewrite Z.add_0_r. }
  rewrite bind_ok, fmap_cons, NoDup_cons, llen_cons. unfold add_dependency at 1. split.
  - intros ([[e s] c] & Ha & Hf). destruct (MAX_DAG_EDGES <? edges + 1) eqn:E1; [done|].
    destruct (negb (bcontains (dep_node_key d) keys)) eqn:E2; [done|].
    destruct (String.eqb (dep_node_key d) (node_key node) || bcontains (dep_node_key d) seen) eqn:E3; [done|].
    injection Ha as <- <- <-. apply Z.ltb_ge in E1. apply negb_false_iff in E2.
    apply orb_false_iff in E3 as [E3%String.eqb_neq E4].
    apply IH in Hf as (-> & Hle & N & Hd & -> & ->); [|by apply binsert_wf|by apply binsert_wf|lia].
    assert (forall y, y ∈ deps -> dep_node_key d <> dep_node_key y /\ bcontains (dep_node_key y) seen = false) as Hs.
    { intros y Hy. destruct (Hd y Hy) as (_ & _ & Hn). rewrite bcontains_binsert in Hn by done.
      apply orb_false_iff in Hn as [Hn%String.eqb_neq ?]. done. }
    split_and!; [lia| | | | |done|done].
    + intros _. destruct deps; [unfold llen; cbn; lia|]. specialize (Hle ltac:(done)). lia.
    + intros (y & Ey & Hy)%list_elem_of_fmap. by apply (Hs y Hy).
    + done.
    + intros y [->|Hy]%elem_of_cons; [done|]. destruct (Hd y Hy) as (? & ? & _). split_and!; try done.
      by apply Hs.
  - intros (-> & Hle & [Hx N] & Hd & -> & ->).
    destruct (Hd d ltac:(by left)) as (Hk & Hne & Hns). specialize (Hle ltac:(done)).
    pose proof (llen_nonneg deps).
    exists (edges + 1, binsert (dep_node_key d) tt seen, push_child (dep_node_key d) (node_key node) children).
    rewrite Hk, Hns, (proj2 (String.eqb_neq _ _)), (proj2 (Z.ltb_ge _ _)) by (done || lia).
    split; [done|]. apply IH; [by apply binsert_wf|by apply binsert_wf|lia|].
    split_and!; [lia|intros; lia|done| |done|done].
    intros y Hy. destruct (Hd y ltac:(by right)) as (? & ? & Hy2). split_and!; try done.
    rewrite bcontains_binsert, Hy2, orb_false_r by done. apply String.eqb_neq. intros E. apply Hx.
    rewrite E. by apply list_elem_of_fmap_2.
Qed.

(** A node added to the graph. *)
Definition link_node (g : Graph) (node : NewDagNode) : Graph := {|
  g_edges := g_edges g + llen (dependencies node);
  g_indegree := binsert (node_key node) (llen (dependencies node)) (g_indegree g);
  g_children := foldl (fun m d => push_child (dep_node_key d) (node_key node) m) (g_children g)
    (dependencies node)
|}.

Definition graph_wf (g : Graph) : Prop :=
  bmap_wf (g_indegree g) /\ bmap_wf (g_children g) /\ 0 <= g_edges g <= MAX_DAG_EDGES.

Definition parents_in (keys : bmap ()) (node : NewDagNode) : Prop :=
  NoDup (parents node) /\ node_key node ∉ parents node /\
  forall p, p ∈ parents node -> bcontains p keys = true.

Lemma push_children_wf {A} (f : A -> string) child l m :
  bmap_wf m -> bmap_wf (foldl (fun m d => push_child (f d) child m) m l).
Proof. revert m. induction l as [|d l IH]; intros m W; [done|]. by apply IH, binsert_wf. Qed.

Lemma add_node_ok `{DagExternal} keys g node g' :
  graph_wf g ->
  add_node keys g node = Ok g' <->
  validate_node_fields node = Ok tt /\ parents_in keys node /\
  g_edges (link_node g node) <= MAX_DAG_EDGES /\ g' = link_node g node.
Proof.
  intros (W1 & W2 & He). unfold add_node, link_node, parents_in, parents. cbn [g_edges]. rewrite bind_ok.
  setoid_rewrite bind_ok. split.
  - intros ([] & Hf & ([[e s] c] & Ha & [= <-])). split; [done|].
    apply add_dependencies_ok in Ha as (-> & Hle & N & Hd & -> & ->); [|constructor|done|lia].
    split_and!; [done| | | |done].
    + intros (d & Ed & Hin)%list_elem_of_fmap. by apply (Hd d Hin).
    + intros p (d & -> & Hin)%list_elem_of_fmap. by apply Hd.
    + destruct (dependencies node); [unfold llen; cbn; lia|by apply Hle].
  - intros (Hf & (N & Hs & Hk) & Hle & ->). exists tt. split; [done|].
    eexists (_, _, _). split; [|reflexivity].
    apply add_dependencies_ok; [constructor|done|lia|]. split_and!; try done.
    intros d Hd. assert (dep_node_key d ∈ dep_node_key <$> dependencies node) as Hin
      by by apply list_elem_of_fmap_2. split_and!; [by apply Hk|congruence|done].
Qed.

Lemma edge_count_nonneg nodes : 0 <= edge_count nodes.
Proof.
  induction nodes as [|node nodes IH]; [done|].
  change (0 <= llen (dependencies node) + edge_count nodes).
  pose proof (llen_nonneg (dependencies node)). lia.
Qed.

Lemma link_node_wf g node :
  graph_wf g -> g_edges (link_node g node) <= MAX_DAG_EDGES -> graph_wf (link_node g node).
Proof.
  intros (W1 & W2 & He) Hle. pose proof (llen_nonneg (dependencies node)).
  split_and!; [by apply binsert_wf|by apply push_children_wf|cbn in *; lia..].
Qed.

Lemma add_nodes_ok `{DagExternal} keys nodes g g' :
  graph_wf g ->
  try_fold (add_node keys) g nodes = Ok g' <->
  (forall node, node ∈ nodes -> validate_node_fields node = Ok tt /\ parents_in keys node) /\
  g_edges g + edge_count nodes <= MAX_DAG_EDGES /\ g' = foldl link_node g nodes.
Proof.
  revert g. induction nodes as [|node nodes IH]; intros g W; cbn [try_fold foldl edge_count foldr].
  { destruct W as (_ & _ & He). split.
    - intros [= <-]. split_and!; [by intros ? ?%not_elem_of_nil|lia|done].
    - by intros (_ & _ & ->). }
  fold (edge_count nodes). pose proof (edge_count_nonneg nodes). rewrite bind_ok. split.
  - intros (g1 & (Hf & Hp & Hle & ->)%add_node_ok & Hr); [|done].
    apply IH in Hr as (Hn & He & ->); [|by apply link_node_wf]. cbn [link_node g_edges] in He.
    split_and!; [|lia|done]. intros n [->|Hin]%elem_of_cons; auto.
  - intros (Hn & He & ->). exists (link_node g node).
    assert (g_edges (link_node g node) <= MAX_DAG_EDGES) as Hle by (cbn [link_node g_edges]; lia).
    split.
    + apply add_node_ok; [done|]. destruct (Hn node ltac:(by left)). done.
    + apply IH; [by apply link_node_wf|]. split_and!; [|cbn [link_node g_edges]; lia|done].
      intros n Hin. apply Hn. by right.
Qed.

(** ** The tables of the graph *)

Lemma foldl_link_wf nodes g :
  bmap_wf (g_indegree g) /\ bmap_wf (g_children g) ->
  bmap_wf (g_indegree (foldl link_node g nodes)) /\ bmap_wf (g_children (foldl link_node g nodes)).
Proof.
  revert g. induction nodes as [|node nodes IH]; intros g [W1 W2]; [done|].
  apply IH. split; [by apply binsert_wf|by apply push_children_wf].
Qed.

Lemma indegree_from nodes g k :
  bmap_wf (g_indegree g) -> NoDup (node_key <$> nodes) ->
  (forall node, node ∈ nodes -> node_key node = k ->
     bget k (g_indegree (foldl link_node g nodes)) = Some (llen (dependencies node))) /\
  (k ∉ node_key <$> nodes -> bget k (g_indegree (foldl link_node g nodes)) = bget k (g_indegree g)).
Proof.
  revert g. induction nodes as [|n nodes IH]; intros g W N; cbn [foldl].
  { split; [by intros ? ?%not_elem_of_nil|done]. }
  rewrite fmap_cons in *. apply NoDup_cons in N as [Hn N].
  destruct (IH (link_node g n) ltac:(by apply binsert_wf) N) as [IH1 IH2]. split.
  - intros node [->|Hin]%elem_of_cons <-; [|by apply IH1].
    rewrite IH2 by done. cbn [link_node g_indegree]. by rewrite bget_binsert, String.eqb_refl.
  - intros [Hne Hnot]%not_elem_of_cons. rewrite IH2 by done. cbn [link_node g_indegree].
    rewrite bget_binsert by done. by rewrite (proj2 (String.eqb_neq _ _)).
Qed.

Lemma push_children_get deps child m p :
  bmap_wf m -> NoDup (dep_node_key <$> deps) ->
  default [] (bget p (foldl (fun m d => push_child (dep_node_key d) child m) m deps)) =
  default [] (bget p m) ++ (if decide (p ∈ dep_node_key <$> deps) then [child] else []).
Proof.
  revert m. induction deps as [|d deps IH]; intros m W N; cbn [foldl].
  { rewrite decide_False by apply not_elem_of_nil. by rewrite app_nil_r. }
  rewrite fmap_cons in *. apply NoDup_cons in N as [Hd N].
  rewrite IH by (done || by apply binsert_wf). unfold push_child. rewrite bget_binsert by done.
  destruct (String.eqb_spec (dep_node_key d) p) as [<-|Hne].
  - rewrite (decide_False (P := _ ∈ dep_node_key <$> deps)) by done.
    rewrite decide_True by by left. cbn. by rewrite app_nil_r.
  - destruct (decide (p ∈ dep_node_key <$> deps)) as [Hp|Hp].
    + by rewrite decide_True by by right.
    + rewrite decide_False; [done|]. intros [->|?]%elem_of_cons; done.
Qed.

Lemma children_from nodes g p :
  bmap_wf (g_children g) -> (forall node, node ∈ nodes -> NoDup (parents node)) ->
  default [] (bget p (g_children (foldl link_node g nodes))) =
  default [] (bget p (g_children g)) ++ (node_key <$> filter (fun node => p ∈ parents node) nodes).
Proof.
  revert g. induction nodes as [|n nodes IH]; intros g W N; cbn [foldl].
  { by rewrite app_nil_r. }
  rewrite IH; [|by apply push_children_wf|intros; apply N; by right]. cbn [link_node g_children].
  rewrite push_children_get; [|done|apply (N n); by left].
  rewrite <- app_assoc. f_equal. fold (parents n). destruct (decide (p ∈ parents n)).
  - by rewrite filter_cons_True.
  - by rewrite filter_cons_False.
Qed.

(** ** The loop *)

Lemma release_children_ok cs indegree ready :
  bmap_wf indegree -> bmap_wf ready -> NoDup cs ->
  (forall c, c ∈ cs -> exists d, bget c indegree = Some d /\ 0 < d) ->
  exists indegree' ready',
    try_fold release_child (indegree, ready) cs = Ok (indegree', ready') /\
    bmap_wf indegree' /\ bmap_wf ready' /\
    (forall k, bget k indegree' = if decide (k ∈ cs) then (fun d => d - 1) <$> bget k indegree
                                  else bget k indegree) /\
    (forall k, bcontains k ready' = true <->
       bcontains k ready = true \/ (k ∈ cs /\ bget k indegree = Some 1)).
Proof.
  revert indegree ready. induction cs as [|c cs IH]; intros indegree ready Wi Wr N Hd.
  { exists indegree, ready. do 3 (split; [done|]). split; intros k.
    - by rewrite decide_False by apply not_elem_of_nil.
    - split; [by left|]. by intros [?|[?%not_elem_of_nil _]]. }
  apply NoDup_cons in N as [Hc N]. destruct (Hd c ltac:(by left)) as (d & Ed & Hpos).
  set (ready1 := if d - 1 =? 0 then binsert c tt ready else ready).
  destruct (IH (binsert c (d - 1) indegree) ready1) as (i' & r' & Hf & Wi' & Wr' & Hi & Hr).
  { by apply binsert_wf. }
  { unfold ready1. destruct (d - 1 =? 0); [by apply binsert_wf|done]. }
  { done. }
  { intros k Hk. rewrite bget_binsert by done. destruct (String.eqb_spec c k) as [->|]; [done|].
    apply Hd. by right. }
  exists i', r'. split; [|split; [done|]; split; [done|]; split].
  - assert (release_child (indegree, ready) c = Ok (binsert c (d - 1) indegree, ready1)) as Hc1
      by (unfold release_child; by rewrite Ed, (proj2 (Z.eqb_neq d 0)) by lia).
    cbn [try_fold]. rewrite Hc1. exact Hf.
  - intros k. rewrite Hi, bget_binsert by done. destruct (String.eqb_spec c k) as [<-|Hne].
    + rewrite (decide_False (P := c ∈ cs)), (decide_True (P := c ∈ c :: cs)) by (done || by left).
      by rewrite Ed.
    + destruct (decide (k ∈ cs)) as [Hk|Hk].
      * by rewrite decide_True by by right.
      * rewrite decide_False; [done|]. intros [->|]%elem_of_cons; done.
  - intros k. rewrite Hr, bget_binsert by done. unfold ready1.
    destruct (Z.eqb_spec (d - 1) 0) as [E|E].
    + rewrite bcontains_binsert, orb_true_iff, String.eqb_eq, elem_of_cons by done.
      destruct (String.eqb_spec c k) as [->|]; [|naive_solver].
      assert (d = 1) as -> by lia. naive_solver.
    + rewrite elem_of_cons. destruct (String.eqb_spec c k) as [->|]; [|naive_solver].
      split; [naive_solver|]. intros [?|[_ ?]]; [by left|]. exfalso. rewrite Ed in *. naive_solver lia.
Qed.

Lemma initially_ready_elem m k : (k, tt) ∈ initially_ready m <-> (k, 0) ∈ m.
Proof.
  unfold initially_ready. rewrite list_elem_of_omap. split.
  - intros ([k' d] & Hin & E). cbn in E. destruct (Z.eqb_spec d 0) as [->|]; [|done]. by simplify_eq.
  - intros Hin. by exists (k, 0).
Qed.

Lemma initially_ready_wf m : bmap_wf m -> bmap_wf (initially_ready m).
Proof.
  induction m as [|[k d] m IH]; intros W; [constructor|]. apply bmap_wf_cons_iff in W as [W Hlt].
  cbn. destruct (d =? 0); [|by apply IH]. apply bmap_wf_cons_iff. split; [by apply IH|].
  intros k' ([k'' []] & -> & Hin)%list_elem_of_fmap. apply initially_ready_elem in Hin.
  apply Hlt. by apply (list_elem_of_fmap_2 fst) in Hin.
Qed.

Lemma initially_ready_contains m k :
  bmap_wf m -> bcontains k (initially_ready m) = true <-> bget k m = Some 0.
Proof.
  intros W. rewrite <- (bget_wf _ _ _ W), <- initially_ready_elem.
  rewrite (bget_wf _ _ _ (initially_ready_wf m W)). unfold bcontains.
  destruct (bget k _) as [[]|]; naive_solver.
Qed.

Section Visit.
Context (nodes : list NewDagNode).
Context (Hkeys : NoDup (node_key <$> nodes)).
Context (Hparents : forall node, node ∈ nodes ->
  NoDup (parents node) /\ forall p, p ∈ parents node -> p ∈ node_key <$> nodes).

Definition graph : Graph := foldl link_node (Build_Graph 0 [] []) nodes.

(** The parents of a node that have not been visited. *)
Definition missing (D : list string) (node : NewDagNode) : list string :=
  filter (fun p => p ∉ D) (parents node).

(** [D] has been visited, latest first. *)
Record visit_inv (D : list string) (indegree : bmap Z) (ready : bmap ()) : Prop := {
  vi_nodup : NoDup D;
  vi_keys : forall k, k ∈ D -> k ∈ node_key <$> nodes;
  vi_indegree_wf : bmap_wf indegree;
  vi_ready_wf : bmap_wf ready;
  vi_indegree : forall node, node ∈ nodes ->
    bget (node_key node) indegree = Some (llen (missing D node));
  vi_ready : forall k, bcontains k ready = true <->
    k ∉ D /\ exists node, node ∈ nodes /\ node_key node = k /\ missing D node = [];
  vi_closed : forall k p, k ∈ D -> depends nodes k p -> p ∈ D;
  vi_acyclic : forall k, k ∈ D -> ~ tc (depends nodes) k k
}.

Lemma node_unique n1 n2 : n1 ∈ nodes -> n2 ∈ nodes -> node_key n1 = node_key n2 -> n1 = n2.
Proof.
  intros H1 H2 E. apply list_elem_of_lookup in H1 as [i Hi], H2 as [j Hj].
  pose proof Hkeys as N. rewrite NoDup_alt in N.
  assert (i = j) as ->; [|congruence]. apply (N i j (node_key n1)).
  - by rewrite list_lookup_fmap, Hi.
  - rewrite list_lookup_fmap, Hj. cbn. congruence.
Qed.

Lemma missing_nil D node : missing D node = [] <-> forall p, p ∈ parents node -> p ∈ D.
Proof.
  unfold missing. split.
  - intros H p Hp. destruct (decide (p ∈ D)) as [|Hn]; [done|].
    by destruct (filter_nil_not_elem_of _ _ p H Hn).
  - intros H. destruct (filter _ _) as [|p r] eqn:E; [done|].
    assert (p ∈ p :: r) as Hp by by left. rewrite <- E in Hp.
    apply list_elem_of_filter in Hp as [Hn Hp]. by destruct Hn; apply H.
Qed.

Lemma missing_cons D k node :
  NoDup (parents node) -> k ∉ D ->
  llen (missing (k :: D) node) = llen (missing D node) - if decide (k ∈ parents node) then 1 else 0.
Proof.
  unfold missing. generalize (parents node). intros l N Hk.
  induction l as [|p l IH]; [done|]. apply NoDup_cons in N as [Hp N]. specialize (IH N).
  destruct (decide (p = k)) as [->|Hpk].
  - rewrite filter_cons_False by (intros H; apply H; by left).
    rewrite (filter_cons_True (fun p => p ∉ D)) by done. rewrite llen_cons, IH.
    rewrite (decide_False (P := k ∈ l)), (decide_True (P := k ∈ k :: l)) by (done || by left). lia.
  - replace (if decide (k ∈ p :: l) then 1 else 0) with (if decide (k ∈ l) then 1 else 0).
    2: { destruct (decide (k ∈ l)); [by rewrite decide_True by by right|].
         rewrite decide_False; [done|]. by intros [->|]%elem_of_cons. }
    destruct (decide (p ∈ D)) as [HpD|HpD].
    + rewrite !filter_cons_False; [done|by intros H|]. intros H. apply H. by right.
    + rewrite !filter_cons_True; [|done|by intros [->|]%elem_of_cons]. rewrite !llen_cons. lia.
Qed.

Lemma children_of k :
  default [] (bget k (g_children graph)) = node_key <$> filter (fun node => k ∈ parents node) nodes.
Proof.
  unfold graph. rewrite children_from; [done|constructor|]. intros. by apply Hparents.
Qed.

Lemma children_nodup k : NoDup (node_key <$> filter (fun node => k ∈ parents node) nodes).
Proof.
  clear Hparents. induction nodes as [|n l IH]; [apply NoDup_nil_2|].
  rewrite fmap_cons in Hkeys. apply NoDup_cons in Hkeys as [Hn N]. specialize (IH N).
  destruct (decide (k ∈ parents n)); [|by rewrite filter_cons_False].
  rewrite filter_cons_True, fmap_cons by done. apply NoDup_cons. split; [|done].
  intros (y & E & [_ Hy]%list_elem_of_filter)%list_elem_of_fmap. apply Hn. rewrite E.
  by apply list_elem_of_fmap_2.
Qed.

Lemma missing_all node : missing [] node = parents node.
Proof.
  unfold missing. induction (parents node) as [|p l IH]; [done|].
  rewrite filter_cons_True by apply not_elem_of_nil. by rewrite IH.
Qed.
Lemma initial_inv : visit_inv [] (g_indegree graph) (initially_ready (g_indegree graph)).
Proof.
  destruct (foldl_link_wf nodes (Build_Graph 0 [] [])) as [Wi _]; [split; constructor|]. fold graph in Wi.
  assert (forall node, node ∈ nodes ->
    bget (node_key node) (g_indegree graph) = Some (llen (missing [] node))) as Hi.
  { intros node Hin. destruct (indegree_from nodes (Build_Graph 0 [] []) (node_key node)) as [H _];
      [constructor|done|]. unfold graph. rewrite (H node) by done. rewrite missing_all. unfold parents, llen.
    by rewrite length_fmap. }
  assert (forall k d, bget k (g_indegree graph) = Some d ->
    exists node, node ∈ nodes /\ node_key node = k /\ d = llen (missing [] node)) as Hi'.
  { intros k d Hk. destruct (decide (k ∈ node_key <$> nodes)) as [(n & -> & Hn)%list_elem_of_fmap|Hn].
    - exists n. rewrite Hi in Hk by done. by simplify_eq.
    - destruct (indegree_from nodes (Build_Graph 0 [] []) k) as [_ H]; [constructor|done|].
      unfold graph in Hk. by rewrite H in Hk by done. }
  split; try done.
  - apply NoDup_nil_2.
  - by intros k ?%not_elem_of_nil.
  - by apply initially_ready_wf.
  - intros k. rewrite initially_ready_contains by done. split.
    + intros (n & Hn & <- & E)%Hi'. split; [apply not_elem_of_nil|]. exists n. split_and!; try done.
      unfold llen in E. by destruct (missing [] n).
    + intros (_ & n & Hn & <- & E). rewrite Hi by done. by rewrite E.
  - by intros k p ?%not_elem_of_nil.
  - by intros k ?%not_elem_of_nil.
Qed.

Lemma closed_reach (D : list string) p x :
  (forall k p, k ∈ D -> depends nodes k p -> p ∈ D) -> p ∈ D -> tc (depends nodes) p x -> x ∈ D.
Proof. intros Hc Hp Ht. induction Ht; eauto. Qed.

Lemma llen_nil {A} (l : list A) : llen l = 0 <-> l = [].
Proof. destruct l; [done|]. rewrite llen_cons. pose proof (llen_nonneg l). split; [lia|done]. Qed.

(** Visiting a ready key keeps the invariant. *)
Lemma visit_step D indegree key ready :
  visit_inv D indegree ((key, tt) :: ready) ->
  exists indegree' ready',
    try_fold release_child (indegree, ready) (default [] (bget key (g_children graph)))
      = Ok (indegree', ready') /\
    visit_inv (key :: D) indegree' ready'.
Proof.
  intros [N HD Wi Wr Hi Hr Hclosed Hac].
  destruct (proj1 (Hr key)) as (HkD & n0 & Hn0 & <- & Hm0); [unfold bcontains; cbn; by rewrite String.eqb_refl|].
  apply bmap_wf_cons_iff in Wr as Wr'. destruct Wr' as [Wr' Hlt].
  assert (forall k, bcontains k ((node_key n0, tt) :: ready) = true <->
    k = node_key n0 \/ bcontains k ready = true) as Hc.
  { intros k. unfold bcontains. cbn. destruct (String.eqb_spec (node_key n0) k); naive_solver. }
  assert (bcontains (node_key n0) ready = false) as Hk0.
  { apply not_true_is_false. unfold bcontains. destruct (bget _ ready) as [[]|] eqn:E; [|done]. intros _.
    apply bget_elem, (list_elem_of_fmap_2 fst) in E. by apply (str_lt_ne _ _ (Hlt _ E)). }
  rewrite children_of. set (cs := node_key <$> filter (fun node => node_key n0 ∈ parents node) nodes).
  assert (forall n, n ∈ nodes -> node_key n ∈ cs <-> node_key n0 ∈ parents n) as Hcs.
  { intros n Hn. unfold cs. rewrite list_elem_of_fmap. split.
    - intros (n' & E & [Hp Hn']%list_elem_of_filter). by rewrite (node_unique n n').
    - intros Hp. exists n. by rewrite list_elem_of_filter. }
  destruct (release_children_ok cs indegree ready) as (i' & r' & Hf & Wi' & Wrr & Hi' & Hrr);
    [done|done|apply children_nodup| |].
  { intros c (n & -> & [Hp Hn]%list_elem_of_filter)%list_elem_of_fmap.
    exists (llen (missing D n)). split; [by apply Hi|].
    assert (node_key n0 ∈ missing D n) as Hin by (unfold missing; by apply list_elem_of_filter).
    destruct (missing D n); [by apply not_elem_of_nil in Hin|]. rewrite llen_cons.
    pose proof (llen_nonneg l). lia. }
  exists i', r'. split; [done|].
  assert (forall p, p ∈ parents n0 -> p ∈ D) as Hp0 by by apply missing_nil.
  assert (forall n, n ∈ nodes -> llen (missing (node_key n0 :: D) n) =
    llen (missing D n) - if decide (node_key n ∈ cs) then 1 else 0) as Hmc.
  { intros n Hn. rewrite missing_cons by (done || by apply Hparents).
    destruct (decide (node_key n0 ∈ parents n)) as [Hp|Hp], (decide (node_key n ∈ cs)) as [Hq|Hq];
      rewrite ?Hcs in Hq by done; done. }
  split; try done.
  - by apply NoDup_cons.
  - intros k [->|Hk]%elem_of_cons; [by apply list_elem_of_fmap_2|by apply HD].
  - intros n Hn. rewrite Hi', Hi, Hmc by done. destruct (decide _); cbn; f_equal; lia.
  - intros k. rewrite Hrr. split.
    + intros [Hk|[Hk Hone]].
      * assert (k <> node_key n0) by (intros ->; congruence).
        destruct (proj1 (Hr k)) as (HknD & n & Hn & <- & Hm); [apply Hc; by right|].
        split; [by apply not_elem_of_cons|]. exists n. split_and!; try done.
        rewrite missing_nil in *. intros p Hp. right. auto.
      * assert (k ∈ cs) as Hk' by done. unfold cs in Hk'.
        apply list_elem_of_fmap in Hk' as (n & -> & [Hp Hn]%list_elem_of_filter). split.
        -- intros [E|HkD']%elem_of_cons.
           ++ apply (node_unique n n0) in E; [|done|done]. subst. by apply HkD, Hp0.
           ++ apply HkD, (Hclosed (node_key n)); [done|]. by exists n.
        -- exists n. split_and!; try done. apply llen_nil. rewrite Hmc, decide_True by done.
           rewrite Hi in Hone by done. injection Hone as ->. lia.
    + intros ([Hne HknD]%not_elem_of_cons & n & Hn & <- & Hm). apply llen_nil in Hm.
      rewrite Hmc in Hm by done. destruct (decide (node_key n ∈ cs)) as [Hin|Hin].
      * right. split; [done|]. rewrite Hi by done. f_equal. lia.
      * left. destruct (proj1 (Hc (node_key n))) as [?|?]; [|done|done]. apply Hr.
        split; [done|]. exists n. split_and!; try done. apply llen_nil. lia.
  - intros k p [->|Hk]%elem_of_cons (n & Hn & E & Hp).
    + right. apply (node_unique n n0) in E; [|done|done]. subst. auto.
    + right. eapply Hclosed; [exact Hk|]. by exists n.
  - intros k [->|Hk]%elem_of_cons Ht; [|by apply (Hac k)].
    assert (forall p, depends nodes (node_key n0) p -> p ∈ D) as Hd0.
    { intros p (n & Hn & E & Hp). apply (node_unique n n0) in E; [|done|done]. subst. auto. }
    inversion Ht as [? ? H1|? p ? H1 H2]; subst; [by apply HkD, Hd0|].
    apply HkD. by apply (closed_reach D p); [|apply Hd0|].
Qed.

Lemma visit_ok fuel D indegree ready :
  visit_inv D indegree ready -> (length nodes <= fuel + length D)%nat ->
  exists D' indegree', visit fuel (g_children graph) indegree ready (llen D) = Ok (llen D') /\
    visit_inv D' indegree' [].
Proof.
  revert D indegree ready. induction fuel as [|fuel IH]; intros D indegree ready Hv Hf.
  all: destruct ready as [|[key []] ready]; [by exists D, indegree|].
  - exfalso. destruct (proj1 (vi_ready _ _ _ Hv key)) as (HkD & n & Hn & <- & _).
    { unfold bcontains. cbn. by rewrite String.eqb_refl. }
    assert (length (node_key n :: D) <= length (node_key <$> nodes))%nat as Hl.
    { apply submseteq_length, NoDup_submseteq.
      - apply NoDup_cons. split; [done|apply Hv].
      - intros k [->|Hk]%elem_of_cons; [by apply list_elem_of_fmap_2|by apply (vi_keys _ _ _ Hv)]. }
    rewrite length_fmap in Hl. cbn in *. lia.
  - destruct (visit_step _ _ _ _ Hv) as (i' & r' & Hs & Hv'). cbn [visit]. rewrite Hs.
    cbn [mbind result_bind]. rewrite <- llen_cons with (x := key). apply IH; [done|]. cbn. lia.
Qed.
End Visit.

(** ** The contract *)

(** A result, or an ordinary error other than a platform mismatch. *)
Definition clean {A} (r : result dag_fault A) : Prop :=
  match r with
  | Ok _ => True
  | Err (DFail e) => dag_code e <> PlatformMismatch
  | _ => False
  end.

Lemma clean_bind {A B} (r : result dag_fault A) (f : A -> result dag_fault B) :
  clean r -> (forall a, r = Ok a -> clean (f a)) -> clean (r ≫= f).
Proof. destruct r as [a|[e| |]]; cbn; auto. Qed.

Lemma clean_if {A} (b : bool) code path message (r : result dag_fault A) :
  code <> PlatformMismatch -> clean r -> clean (if b then refuse_dag code path message else r).
Proof. by destruct b. Qed.

Lemma clean_fold {A S} (f : S -> A -> result dag_fault S) l s :
  (forall s x, clean (f s x)) -> clean (try_fold f s l).
Proof.
  intros Hf. revert s. induction l as [|x l IH]; intros s; [done|]. apply clean_bind; auto.
Qed.

Lemma clean_for {A} (f : A -> result dag_fault ()) l : (forall x, clean (f x)) -> clean (try_for f l).
Proof.
  intros Hf. induction l as [|x l IH]; [done|]. cbn [try_for]. apply clean_bind; auto.
Qed.

Lemma clean_text path value : clean (validate_text path value).
Proof. by apply clean_if. Qed.

Lemma clean_keys nodes : clean (try_fold insert_key [] nodes).
Proof.
  apply clean_fold. intros s x. apply clean_bind; [by apply clean_if|intros; by apply clean_if].
Qed.

Lemma clean_target `{DagExternal} v : clean (validate_notify_target v).
Proof.
  unfold validate_notify_target. destruct (as_object v); [|done]. destruct (negb _); [done|].
  apply clean_bind; [|intros; by apply clean_if].
  by repeat case_match.
Qed.

Lemma clean_targets `{DagExternal} v : clean (validate_notify_targets v).
Proof.
  unfold validate_notify_targets. destruct (as_array v); [|done].
  apply clean_if; [done|]. apply clean_for. intros. apply clean_target.
Qed.

(** A capability that passes the text check is not a platform capability. *)
Lemma text_not_platform path c :
  validate_text path c = Ok tt -> starts_with PLATFORM_CAPABILITY_PREFIX c = false.
Proof.
  unfold validate_text. destruct (_ || _) eqn:E; [done|]. intros _.
  apply orb_false_iff in E as [_ E%negb_false_iff]. apply not_true_is_false. unfold starts_with.
  destruct (strip_prefix _ c) as [t|] eqn:Es; [|done]. apply strip_prefix_Some in Es as ->.
  by rewrite all_bytes_app in E.
Qed.

Lemma clean_node `{DagExternal} keys g node : clean (add_node keys g node).
Proof.
  unfold add_node. apply clean_bind.
  - unfold validate_node_fields. apply clean_bind; [apply clean_text|intros _ _].
    apply clean_bind; [apply clean_text|intros _ _]. apply clean_bind; [by apply clean_if|intros _ _].
    apply clean_bind; [|intros seen Hcaps].
    { apply clean_fold. intros s x. unfold insert_capability.
      apply clean_bind; [apply clean_text|intros; by apply clean_if]. }
    apply clean_bind; [by apply clean_if|intros _ _].
    apply clean_bind; [by destruct (json_to_vec _)|intros bytes _].
    apply clean_bind; [by apply clean_if|intros _ _].
    apply clean_bind; [|intros _ _; apply clean_bind; [by apply clean_if|intros _ _; by apply clean_if]].
    destruct (existsb _ _) eqn:E; [|done]. exfalso.
    apply existsb_exists in E as (c & Hc & [Hp _]%andb_true_iff).
    unfold insert_capability, refuse_dag in Hcaps. apply (insert_set_ok id
      (fun c => validate_text _ c) (fun c => DFail _)) in Hcaps as [Ht _]; [|constructor].
    apply list_elem_of_In in Hc. by rewrite (text_not_platform _ c (Ht c Hc)) in Hp.
  - intros ? _. apply clean_bind; [|by intros [[? ?] ?] _]. apply clean_fold.
    intros [[? ?] ?] d. unfold add_dependency. by repeat apply clean_if.
Qed.

(** The visit of a bounded contract's graph counts every node exactly when
    there is no cycle. *)
Lemma visit_exact `{DagExternal} input g :
  bounded_contract input -> g = foldl link_node (Build_Graph 0 [] []) (build_nodes input) ->
  exists visited,
    visit (length (build_nodes input)) (g_children g) (g_indegree g)
      (initially_ready (g_indegree g)) 0 = Ok visited /\
    (visited = llen (build_nodes input) <-> forall k, ~ tc (depends (build_nodes input)) k k).
Proof.
  intros Hb ->. pose proof (bc_keys _ Hb) as N. set (nodes := build_nodes input) in *.
  assert (forall node, node ∈ nodes -> NoDup (parents node) /\
    forall p, p ∈ parents node -> p ∈ node_key <$> nodes) as Hp.
  { intros node Hn. by destruct (bc_parents _ Hb node Hn) as (? & _ & ?). }
  destruct (visit_ok nodes N Hp (length nodes) [] (g_indegree (graph nodes))
    (initially_ready (g_indegree (graph nodes)))) as (D & i' & Hv & Hinv);
    [by apply initial_inv|lia|].
  exists (llen D). split; [exact Hv|]. clear Hv.
  assert (length D <= length (node_key <$> nodes))%nat as Hle.
  { apply submseteq_length, NoDup_submseteq; [apply Hinv|apply (vi_keys _ _ _ _ Hinv)]. }
  assert (forall k p, depends nodes k p -> k ∈ node_key <$> nodes) as Hdk.
  { intros k p (n & Hn & <- & _). by apply list_elem_of_fmap_2. }
  split.
  - intros E k Ht. apply (vi_acyclic _ _ _ _ Hinv k); [|done].
    assert (D ≡ₚ node_key <$> nodes) as ->.
    { apply submseteq_length_Permutation.
      - apply NoDup_submseteq; [apply Hinv|apply (vi_keys _ _ _ _ Hinv)].
      - rewrite length_fmap. unfold llen in E. lia. }
    inversion Ht; subst; by eapply Hdk.
  - intros Hac. destruct (decide (length nodes <= length D)%nat) as [Hge|Hlt].
    { rewrite length_fmap in Hle. unfold llen. lia. }
    exfalso. set (S := filter (fun k => k ∉ D) (node_key <$> nodes)).
    assert (forall k, k ∈ S <-> k ∈ node_key <$> nodes /\ k ∉ D) as HS
      by (intros k; unfold S; rewrite list_elem_of_filter; tauto).
    destruct (stuck_has_cycle S (depends nodes)) as (k & _ & Ht); [| |by apply (Hac k)].
    + intros HSn. apply Hlt. rewrite <- (length_fmap node_key nodes).
      apply submseteq_length, NoDup_submseteq; [done|]. intros k Hk.
      destruct (decide (k ∈ D)) as [|Hn]; [done|]. exfalso.
      assert (k ∈ S) as HkS by by apply HS. rewrite HSn in HkS. by apply not_elem_of_nil in HkS.
    + intros k [(n & -> & Hn)%list_elem_of_fmap HkD]%HS.
      destruct (missing D n) as [|p ms] eqn:Em.
      * exfalso. assert (bcontains (V := ()) (node_key n) [] = true) as Hf; [|done].
        apply (vi_ready _ _ _ _ Hinv). split; [done|]. by exists n.
      * assert (p ∈ missing D n) as Hin by (rewrite Em; by left). unfold missing in Hin.
        apply list_elem_of_filter in Hin as [HpD Hpn]. exists p. split; [|by exists n].
        apply HS. split; [|done]. by apply (Hp n).
Qed.

Lemma refuse_else {A} (b : bool) code path message (r : result dag_fault A) a :
  (if b then refuse_dag code path message else r) = Ok a <-> b = false /\ r = Ok a.
Proof. destruct b; split; naive_solver. Qed.

(** What the loops before the visit establish. *)
Lemma bounded_contract_ok `{DagExternal} input :
  bounded_contract input <->
  validate_text "$.idempotency_key" (idempotency_key input) = Ok tt /\
  validate_notify_targets (notify_targets input) = Ok tt /\
  ((llen (build_nodes input) =? 0) || (MAX_DAG_NODES <? llen (build_nodes input))) = false /\
  exists keys, try_fold insert_key [] (build_nodes input) = Ok keys /\
  try_fold (add_node keys) (Build_Graph 0 [] []) (build_nodes input)
    = Ok (foldl link_node (Build_Graph 0 [] []) (build_nodes input)).
Proof.
  assert (graph_wf (Build_Graph 0 [] [])) as W0 by (split_and!; [constructor|constructor|done..]).
  assert (forall ks p, bcontains p (insert_keys ks []) = true <-> p ∈ ks) as Hks.
  { intros ks p. rewrite insert_keys_contains by constructor. split; [|by left].
    by intros [?|?]. }
  pose proof (llen_nonneg (build_nodes input)). split.
  - intros [Hk Ht Hc N Hkt Hf He Hp]. split_and!; [done|done| |].
    { apply orb_false_iff. split; [apply Z.eqb_neq; lia|apply Z.ltb_ge; lia]. }
    exists (insert_keys (node_key <$> build_nodes input) []). split; [by apply insert_key_fold|].
    apply add_nodes_ok; [done|]. split_and!; [|done|done]. intros node Hn. split; [by apply Hf|].
    destruct (Hp node Hn) as (? & ? & Hin). split_and!; try done. intros p Hpn. by apply Hks, Hin.
  - intros (Hk & Ht & [Hc1%Z.eqb_neq Hc2%Z.ltb_ge]%orb_false_iff & keys & (Hkt & N & ->)%insert_key_fold & Hg).
    apply add_nodes_ok in Hg as (Hn & He & _); [|done]. split; try done; [lia|by apply Hn|].
    intros node Hin. destruct (Hn node Hin) as (_ & ? & ? & Hp). split_and!; try done.
    intros p Hpn. by apply Hks, Hp.
Qed.

(** The check of a bounded contract is decided by the visit. *)
Lemma validate_bounded `{DagExternal} input :
  bounded_contract input ->
  exists visited,
    validate_dag_contract input = (if negb (visited =? llen (build_nodes input))
      then refuse_dag Cycle "$.nodes" "DAG contains a dependency cycle" else Ok tt) /\
    (visited = llen (build_nodes input) <-> forall k, ~ tc (depends (build_nodes input)) k k).
Proof.
  intros Hb. destruct (visit_exact input _ Hb eq_refl) as (visited & Hv & Hiff).
  exists visited. split; [|done]. apply bounded_contract_ok in Hb as (Hk & Ht & Hc & keys & Hks & Hg).
  unfold validate_dag_contract. rewrite Hk, Ht, Hc, Hks. cbn [mbind result_bind].
  rewrite Hg. cbn [mbind result_bind]. by rewrite Hv.
Qed.

Lemma add_nodes_graph `{DagExternal} keys nodes g :
  try_fold (add_node keys) (Build_Graph 0 [] []) nodes = Ok g ->
  g = foldl link_node (Build_Graph 0 [] []) nodes.
Proof.
  intros Hg. apply add_nodes_ok in Hg as (_ & _ & ->); [done|].
  split_and!; [constructor|constructor|done..].
Qed.

Lemma validate_clean `{DagExternal} input : clean (validate_dag_contract input).
Proof.
  unfold validate_dag_contract. apply clean_bind; [apply clean_text|intros [] Hk].
  apply clean_bind; [apply clean_targets|intros [] Ht].
  apply clean_bind; [by apply clean_if|intros [] [Hc _]%refuse_else].
  apply clean_bind; [apply clean_keys|intros keys Hks].
  apply clean_bind; [apply clean_fold; intros; apply clean_node|intros g Hg].
  pose proof Hg as ->%add_nodes_graph.
  assert (bounded_contract input) as Hb by (apply bounded_contract_ok; eauto 6).
  destruct (visit_exact input _ Hb eq_refl) as (visited & -> & _). by apply clean_if.
Qed.

(** A contract is bounded, or refused before the visit with an ordinary error. *)
Lemma validate_unbounded `{DagExternal} input :
  bounded_contract input \/ exists e, validate_dag_contract input = Err (DFail e).
Proof.
  pose proof (validate_clean input) as Hc.
  destruct (validate_dag_contract input) as [[]|[e| |]] eqn:E; [left|by right; exists e|done|done].
  unfold validate_dag_contract in E. apply bind_ok in E as ([] & Hk & E).
  apply bind_ok in E as ([] & Ht & E). apply bind_ok in E as ([] & [Hn _]%refuse_else & E).
  apply bind_ok in E as (keys & Hks & E). apply bind_ok in E as (g & Hg & _).
  pose proof Hg as ->%add_nodes_graph. apply bounded_contract_ok. eauto 6.
Qed.

(** What an accepted contract is. *)
Lemma validate_accepts `{DagExternal} input :
  validate_dag_contract input = Ok tt ->
  bounded_contract input /\ forall k, ~ tc (depends (build_nodes input)) k k.
Proof.
  intros Hv. destruct (validate_unbounded input) as [Hb|[e He]]; [|congruence]. split; [done|].
  destruct (validate_bounded input Hb) as (visited & Hr & Hiff). rewrite Hv in Hr.
  destruct (Z.eqb_spec visited (llen (build_nodes input))) as [E|]; [by apply Hiff | done].
Qed.

(** C31. The DAG contract check accepts exactly the graphs it documents: it
    succeeds if and only if every bound and field rule holds, node keys are
    distinct, dependencies are distinct, exist and are not the node itself,
    and no node depends on itself through any chain of dependencies; a bounded
    graph with such a chain is refused as a cycle.  Its loop always ends, and
    the arithmetic and look-ups that could panic never do. *)
Theorem validate_dag_contract_exact `{DagExternal} input :
  (validate_dag_contract input = Ok tt <->
   bounded_contract input /\ forall k, ~ tc (depends (build_nodes input)) k k) /\
  (bounded_contract input -> ~ (forall k, ~ tc (depends (build_nodes input)) k k) ->
   validate_dag_contract input
   = Err (DFail (DagError Cycle "$.nodes" "DAG contains a dependency cycle"))) /\
  validate_dag_contract input <> Err DPanic /\ validate_dag_contract input <> Err DFuel.
Proof.
  destruct (validate_unbounded input) as [Hb|[e He]].
  - destruct (validate_bounded input Hb) as (visited & -> & Hiff).
    destruct (Z.eqb_spec visited (llen (build_nodes input))) as [E|E]; cbn [negb]; split; [|split| |split];
      unfold refuse_dag; naive_solver.
  - rewrite He. split; [|split; [|done]].
    + split; [done|]. intros [Hb Hac]. destruct (validate_bounded input Hb) as (visited & Hr & Hiff).
      rewrite (proj2 Hiff Hac), Z.eqb_refl, He in Hr. done.
    + intros Hb Hcyc. destruct (validate_bounded input Hb) as (visited & Hr & Hiff).
      rewrite He in Hr. destruct (Z.eqb_spec visited (llen (build_nodes input))) as [E|]; [|done].
      by destruct Hcyc; apply Hiff.
Qed.

(** The platform check of the DAG contract is unreachable: no input is
    refused for a platform capability that conflicts with the node's platform,
    because a platform capability contains a colon and the text check before
    it refuses every capability that does. *)
Theorem platform_mismatch_unreachable `{DagExternal} input path message :
  validate_dag_contract input <> Err (DFail (DagError PlatformMismatch path message)).
Proof. intros E. pose proof (validate_clean input) as Hc. by rewrite E in Hc. Qed.
