(* ===== verification/DagMatrix.v ===== *)
(** * Matrix expansion

    [compile_matrix] enumerates the Cartesian product of its axes under
    distinct node keys. *)

From stdpp Require Import base gmap list strings pretty.
From Stdlib Require Import Ascii ZArith Lia Sorted Permutation.
From S2P Require Import Prelude Text Bytes Domain DagContract.

Open Scope Z_scope.

(** ** Sorting *)

Lemma insert_by_perm {A} (lt : A -> A -> bool) x l : insert_by lt x l ≡ₚ x :: l.
Proof.
  induction l as [|y l IH]; [done|]. cbn. destruct (lt y x); [|done].
  rewrite IH. apply Permutation_swap.
Qed.

Lemma sort_by_perm {A} (lt : A -> A -> bool) l : sort_by lt l ≡ₚ l.
Proof. induction l as [|x l IH]; [done|]. cbn. by rewrite insert_by_perm, IH. Qed.

(** A strict order given by a boolean comparison. *)
Class StrictOrderBool {A} (lt : A -> A -> bool) : Prop := {
  lt_trans_bool x y z : lt x y = true -> lt y z = true -> lt x z = true;
  lt_irrefl_bool x : lt x x = false
}.

(** Any two elements that differ are ordered. *)
Definition total_on {A} (lt : A -> A -> bool) (l : list A) : Prop :=
  forall x y, x ∈ l -> y ∈ l -> x = y \/ lt x y = true \/ lt y x = true.

Lemma insert_by_sorted {A} (lt : A -> A -> bool) `{!StrictOrderBool lt} x l :
  total_on lt (x :: l) -> x ∉ l -> Sorted (fun a b => lt a b = true) l ->
  Sorted (fun a b => lt a b = true) (insert_by lt x l).
Proof.
  intros Ht Hx Hs. induction Hs as [|y l Hs IH Hy]; [repeat constructor|].
  cbn [insert_by]. destruct (lt y x) eqn:E.
  - constructor.
    + apply IH; [|intros ?; apply Hx; by right]. intros a b Ha Hb. apply Ht; set_solver.
    + destruct l as [|z l]; cbn [insert_by]; [by constructor|].
      destruct (lt z x); constructor; [by inversion Hy|done].
  - constructor; [by constructor|]. constructor.
    destruct (Ht x y ltac:(by left) ltac:(by right; left)) as [->|[?|?]]; [|done|congruence].
    destruct Hx. by left.
Qed.

Lemma sort_by_sorted {A} (lt : A -> A -> bool) `{!StrictOrderBool lt} l :
  total_on lt l -> NoDup l -> Sorted (fun a b => lt a b = true) (sort_by lt l).
Proof.
  intros Ht N. induction N as [|x l Hx N IH]; [constructor|]. cbn. apply insert_by_sorted; [done| | |].
  - intros a b Ha Hb. fold (sort_by lt l) in Ha, Hb.
    rewrite elem_of_cons, (sort_by_perm lt l) in Ha, Hb. apply Ht; by apply elem_of_cons.
  - by rewrite (sort_by_perm lt l).
  - apply IH. intros a b Ha Hb. apply Ht; by right.
Qed.

Lemma sorted_unique {A} (lt : A -> A -> bool) `{!StrictOrderBool lt} l1 l2 :
  Sorted (fun a b => lt a b = true) l1 -> Sorted (fun a b => lt a b = true) l2 -> l1 ≡ₚ l2 -> l1 = l2.
Proof.
  intros S1%Sorted_StronglySorted S2%Sorted_StronglySorted; [|intros ???; apply lt_trans_bool..].
  revert l2 S2. induction S1 as [|x l1 S1 IH Hx]; intros l2 S2 Hp.
  { symmetry. by apply Permutation_nil. }
  destruct S2 as [|y l2 S2 Hy]; [by symmetry in Hp; apply Permutation_nil_cons in Hp|].
  rewrite Forall_forall in Hx, Hy.
  assert (x = y) as ->.
  { assert (x ∈ y :: l2) as [->|Hxl]%elem_of_cons by (rewrite <- Hp; by left); [done|].
    assert (y ∈ x :: l1) as [->|Hyl]%elem_of_cons by (rewrite Hp; by left); [done|].
    specialize (Hx y Hyl). specialize (Hy x Hxl). exfalso.
    pose proof (lt_trans_bool x y x Hx Hy). by rewrite lt_irrefl_bool in *. }
  f_equal. apply IH; [done|]. by apply Permutation_cons_inv in Hp.
Qed.

#[export] Instance str_ltb_strict : StrictOrderBool str_ltb.
Proof. split; [apply str_ltb_trans|apply str_ltb_irrefl]. Qed.

Lemma str_ltb_total_on l : total_on str_ltb l.
Proof.
  intros x y _ _. destruct (str_ltb x y) eqn:E1; [auto|]. destruct (str_ltb y x) eqn:E2; [auto|].
  left. by apply str_ltb_total.
Qed.

Lemma sorted_repeats l :
  Sorted (fun a b => str_ltb a b = true) l -> NoDup l.
Proof.
  intros Hs. apply Sorted_StronglySorted in Hs; [|intros ???; apply str_ltb_trans].
  induction Hs as [|x l Hs IH Hx]; [apply NoDup_nil_2|]. apply NoDup_cons. split; [|done].
  rewrite Forall_forall in Hx. intros Hin. specialize (Hx x Hin). by rewrite str_ltb_irrefl in Hx.
Qed.

(** ** The product *)

Definition dag_text (s : string) : Prop :=
  all_bytes (fun b => is_ascii_alphanumeric b || one_of ["."; "_"; "-"]%char b) s = true.

Lemma validate_text_dag path s : validate_text path s = Ok tt -> dag_text s.
Proof.
  unfold validate_text, dag_text. destruct (_ || _) eqn:E; [done|]. intros _.
  apply orb_false_iff in E as [_ E%negb_false_iff]. done.
Qed.

(** One choice of a value per axis. *)
Definition chooses (values : bmap string) (axes : bmap (list string)) : Prop :=
  Forall2 (fun kv ax => fst kv = fst ax /\ snd kv ∈ snd ax) values axes.

Lemma binsert_last {V} k (v : V) m :
  (forall k', k' ∈ m.*1 -> str_lt k' k) -> binsert k v m = m ++ [(k, v)].
Proof.
  induction m as [|[a b] m IH]; intros Hlt; [done|]. cbn [binsert app].
  assert (str_lt a k) as Ha by (apply Hlt; by left). rewrite IH by (intros; apply Hlt; by right).
  destruct (String.eqb_spec a k) as [->|]; [by apply str_lt_ne in Ha|].
  destruct (str_ltb k a) eqn:E; [|done].
  assert (str_ltb a a = true) by (eapply str_ltb_trans; [exact Ha|done]). by rewrite str_ltb_irrefl in *.
Qed.

Lemma extend_elem P k vs m :
  (forall q k', q ∈ P -> k' ∈ q.*1 -> str_lt k' k) ->
  m ∈ extend_products P (k, vs) <-> exists q v, q ∈ P /\ v ∈ vs /\ m = q ++ [(k, v)].
Proof.
  intros Hlt. unfold extend_products. rewrite list_elem_of_In, in_concat. cbn [fst snd]. split.
  - intros (l & (q & <- & Hq)%in_map_iff & (v & <- & Hv)%in_map_iff). exists q, v.
    rewrite <- list_elem_of_In in Hq. rewrite !list_elem_of_In in *. split_and!; [done|done|].
    apply binsert_last. intros k' Hk'. apply (Hlt q); [by apply list_elem_of_In|done].
  - intros (q & v & Hq & Hv & ->). exists (map (fun v => binsert k v q) vs). split.
    + apply in_map_iff. exists q. by rewrite <- list_elem_of_In.
    + apply in_map_iff. exists v. rewrite <- list_elem_of_In. split; [|done].
      apply binsert_last. intros k' Hk'. by apply (Hlt q).
Qed.

Lemma sorted_app_lt (a : list string) k b :
  Sorted str_lt (a ++ k :: b) -> forall x, x ∈ a -> str_lt x k.
Proof.
  intros Hs. apply Sorted_StronglySorted in Hs; [|intros ???; apply str_ltb_trans].
  intros x Hx. apply list_elem_of_split in Hx as (l1 & l2 & ->). rewrite <- app_assoc in Hs.
  induction l1 as [|y l1 IH]; inversion_clear Hs as [|? ? Hr Hf]; [|by apply IH].
  rewrite Forall_forall in Hf. apply Hf. cbn. rewrite !elem_of_app, elem_of_cons. auto.
Qed.

(** Products of the axes left, on top of those made. *)
Lemma products_elem done_keys axes P m :
  Sorted str_lt (done_keys ++ axes.*1) -> (forall q, q ∈ P -> q.*1 = done_keys) ->
  m ∈ foldl extend_products P axes <-> exists q r, q ∈ P /\ chooses r axes /\ m = q ++ r.
Proof.
  revert done_keys P. induction axes as [|[k vs] axes IH]; intros dk P Hs HP; cbn [foldl].
  { split.
    - intros Hm. exists m, []. rewrite app_nil_r. split_and!; [done|constructor|done].
    - intros (q & r & Hq & Hr & ->). inversion Hr. by rewrite app_nil_r. }
  rewrite fmap_cons in Hs. cbn [fst] in Hs.
  assert (forall q k', q ∈ P -> k' ∈ q.*1 -> str_lt k' k) as Hlt.
  { intros q k' Hq Hk'. rewrite (HP q Hq) in Hk'. by eapply sorted_app_lt. }
  rewrite (IH (dk ++ [k])).
  - setoid_rewrite (extend_elem P k vs); [|done]. split.
    + intros (q & r & (q0 & v & Hq0 & Hv & ->) & Hr & ->). exists q0, ((k, v) :: r).
      rewrite <- app_assoc. split_and!; [done|by constructor|done].
    + intros (q & r & Hq & Hr & ->). inversion Hr as [|[k' v] ? r' ? [Ek Hv] Hr']; subst. cbn in Ek, Hv. subst.
      exists (q ++ [(k, v)]), r'. rewrite <- app_assoc. split_and!; [|done|done]. eauto.
  - by rewrite <- app_assoc.
  - intros q (q0 & v & Hq0 & Hv & ->)%(extend_elem P k vs); [|done].
    rewrite fmap_app. cbn. by rewrite (HP q0).
Qed.

Lemma concat_map_bind {A B} (f : A -> list B) l : concat (map f l) = l ≫= f.
Proof. induction l as [|x l IH]; [done|]. cbn. by rewrite IH. Qed.

Lemma extend_nodup P k vs :
  (forall q k', q ∈ P -> k' ∈ q.*1 -> str_lt k' k) -> NoDup P -> NoDup vs ->
  NoDup (extend_products P (k, vs)).
Proof.
  intros Hlt NP Nv. unfold extend_products. rewrite concat_map_bind. cbn [fst snd].
  assert (forall q m, q ∈ P -> m ∈ map (fun v => binsert k v q) vs ->
    exists v, v ∈ vs /\ m = q ++ [(k, v)]) as Hin.
  { intros q m Hq (v & -> & Hv)%list_elem_of_fmap. exists v. split; [done|].
    apply binsert_last. intros. by apply (Hlt q). }
  apply NoDup_bind; [| |done].
  - intros q1 q2 m Hq1 Hq2 (v1 & _ & ->)%Hin (v2 & _ & E)%Hin; [|done|done].
    by apply app_inj_tail in E as [-> _].
  - intros q Hq. apply NoDup_fmap_2_strong; [|done]. intros v1 v2 _ _ E.
    rewrite !binsert_last in E by (intros; by apply (Hlt q)). by apply app_inj_tail in E as [_ [= ->]].
Qed.

Lemma products_nodup done_keys axes P :
  Sorted str_lt (done_keys ++ axes.*1) -> (forall q, q ∈ P -> q.*1 = done_keys) ->
  NoDup P -> (forall ax, ax ∈ axes -> NoDup (snd ax)) -> NoDup (foldl extend_products P axes).
Proof.
  revert done_keys P. induction axes as [|[k vs] axes IH]; intros dk P Hs HP NP Hv; [done|].
  rewrite fmap_cons in Hs. cbn [fst] in Hs.
  assert (forall q k', q ∈ P -> k' ∈ q.*1 -> str_lt k' k) as Hlt.
  { intros q k' Hq Hk'. rewrite (HP q Hq) in Hk'. by eapply sorted_app_lt. }
  cbn [foldl]. apply (IH (dk ++ [k])).
  - by rewrite <- app_assoc.
  - intros q (q0 & v & Hq0 & _ & ->)%(extend_elem P k vs); [|done].
    rewrite fmap_app. cbn. by rewrite (HP q0).
  - apply extend_nodup; [done|done|]. apply (Hv (k, vs)). by left.
  - intros ax Hax. apply Hv. by right.
Qed.

(** ** Axes *)

Definition normalized (axes : bmap (list string)) : bmap (list string) :=
  map (fun ax => (fst ax, sort_by str_ltb (snd ax))) axes.

Definition axes_product (axes : bmap (list string)) : Z :=
  foldr (fun ax n => llen (snd ax) * n) 1 axes.

Lemma repeats_nodup l : Sorted (fun a b => str_ltb a b = true \/ a = b) l -> repeats l = false -> NoDup l.
Proof.
  intros Hs Hr. apply sorted_repeats. induction Hs as [|a l Hs IH Ha]; [constructor|].
  destruct l as [|b l]; [repeat constructor|]. cbn [repeats] in Hr.
  apply orb_false_iff in Hr as [Hr1%String.eqb_neq Hr2]. constructor; [by apply IH|].
  inversion Ha as [|? ? [?|?]]; subst; [by constructor|done].
Qed.

Lemma insert_weakly_sorted x l :
  Sorted (fun a b => str_ltb a b = true \/ a = b) l ->
  Sorted (fun a b => str_ltb a b = true \/ a = b) (insert_by str_ltb x l).
Proof.
  intros Hs. induction Hs as [|y l Hs IH Hy]; [repeat constructor|].
  cbn [insert_by]. destruct (str_ltb y x) eqn:E.
  - constructor; [done|]. destruct l as [|z l]; cbn [insert_by]; [by constructor; left|].
    destruct (str_ltb z x); constructor; [by inversion Hy|by left].
  - constructor; [by constructor|]. constructor.
    destruct (str_ltb x y) eqn:E'; [by left|right]. by apply str_ltb_total.
Qed.

Lemma sort_weakly_sorted l : Sorted (fun a b => str_ltb a b = true \/ a = b) (sort_by str_ltb l).
Proof. induction l as [|x l IH]; [constructor|]. by apply insert_weakly_sorted. Qed.

(** What the loop over the axes leaves. *)
Lemma normalize_axes_ok axes acc cells n cells' :
  1 <= cells <= MAX_MATRIX_CELLS ->
  try_fold normalize_axis (acc, cells) axes = Ok (n, cells') ->
  n = acc ++ normalized axes /\ cells' = cells * axes_product axes /\ 1 <= cells' <= MAX_MATRIX_CELLS /\
  forall ax, ax ∈ axes -> dag_text (fst ax) /\ NoDup (snd ax) /\ forall v, v ∈ snd ax -> dag_text v.
Proof.
  revert acc cells. induction axes as [|[axis values] axes IH]; intros acc cells Hc.
  { intros [= <- <-]. rewrite app_nil_r. cbn. split_and!; try lia; try done. by intros ? ?%not_elem_of_nil. }
  cbn [try_fold]. intros ([n1 c1] & Ha & Hf)%bind_ok. unfold normalize_axis in Ha.
  apply bind_ok in Ha as ([] & Ht%validate_text_dag & Ha).
  apply bind_ok in Ha as ([] & Hl & Ha). apply bind_ok in Ha as ([] & Hv & Ha).
  apply bind_ok in Ha as ([] & Hr & Ha). apply bind_ok in Ha as (c & Hm & Ha).
  apply bind_ok in Ha as ([] & Hle & [= <- <-]).
  destruct (_ || _) eqn:El in Hl; [done|]. apply orb_false_iff in El as [E0%Z.eqb_neq _].
  destruct (repeats _) eqn:Er in Hr; [done|]. destruct (_ <=? _) in Hm; [|done]. injection Hm as <-.
  destruct (_ <? _) eqn:Ec in Hle; [done|]. apply Z.ltb_ge in Ec.
  assert (llen (sort_by str_ltb values) = llen values) as Hll
    by (unfold llen; by rewrite (Permutation_length (sort_by_perm str_ltb values))).
  rewrite Hll in *. pose proof (llen_nonneg values).
  apply IH in Hf as (-> & -> & Hb & Hax); [|nia].
  split_and!; [by rewrite <- app_assoc|cbn [axes_product foldr snd]; fold (axes_product axes); lia|lia|lia|].
  intros ax [->|Hin]%elem_of_cons; [|by apply Hax]. cbn [fst snd]. split_and!; [done| |].
  - rewrite <- (sort_by_perm str_ltb values). apply repeats_nodup; [apply sort_weakly_sorted|done].
  - intros v Hin. rewrite try_for_ok, Forall_forall in Hv. eapply validate_text_dag, Hv, Hin.
Qed.

(** ** Node keys *)

Lemma text_delimited c a b s t :
  is_ascii_alphanumeric c || one_of ["."; "_"; "-"]%char c = false -> dag_text a -> dag_text b ->
  a +:+ String c s = b +:+ String c t -> a = b /\ s = t.
Proof.
  unfold dag_text. intros Hc. revert b. induction a as [|x a IH]; intros [|y b] Ha Hb E; cbn in *.
  - by injection E.
  - injection E as -> _. by rewrite Hc in Hb.
  - injection E as <- _. by rewrite Hc in Ha.
  - apply andb_true_iff in Ha as [_ Ha], Hb as [_ Hb]. injection E as -> E.
    destruct (IH b Ha Hb E) as [-> ->]. done.
Qed.

Lemma join_cons sep s l : l <> [] -> join sep (s :: l) = s +:+ sep +:+ join sep l.
Proof. by destruct l. Qed.

Lemma join_unique axes m1 m2 :
  (forall ax v, ax ∈ axes -> v ∈ snd ax -> dag_text v) -> chooses m1 axes -> chooses m2 axes ->
  join "," (map (fun kv => fst kv +:+ "=" +:+ snd kv) m1) =
  join "," (map (fun kv => fst kv +:+ "=" +:+ snd kv) m2) -> m1 = m2.
Proof.
  intros Ht H1. revert m2. induction H1 as [|[k1 v1] ax m1 axes [E1 Hv1] H1 IH]; intros m2 H2.
  { by inversion H2. }
  inversion H2 as [|[k2 v2] ? m2' ? [E2 Hv2] H2']; subst. cbn [fst snd] in *. subst k1 k2.
  assert (dag_text v1 /\ dag_text v2) as [T1 T2] by (split; eapply Ht; eauto; by left).
  assert (m1 = [] <-> m2' = []) as Hnil.
  { apply Forall2_length in H1, H2'. rewrite <- !length_zero_iff_nil. lia. }
  destruct m1 as [|b1 m1], m2' as [|b2 m2]; [|by destruct Hnil as [Hn _]; specialize (Hn eq_refl)|
    by destruct Hnil as [_ Hn]; specialize (Hn eq_refl)|].
  - cbn. intros E. apply sapp_inj in E. by injection E as ->.
  - rewrite map_cons, (map_cons _ (ax.1, v2)), !join_cons by done. cbn [fst snd].
    rewrite !sapp_assoc. intros E. do 2 apply sapp_inj in E.
    apply (text_delimited ",") in E as [-> E]; [|done..]. f_equal. apply IH; [|done|exact E].
    intros ax' v Hax Hv. apply (Ht ax'); [by right|done].
Qed.

Lemma matrix_key_unique prefix axes m1 m2 :
  (forall ax v, ax ∈ axes -> v ∈ snd ax -> dag_text v) -> chooses m1 axes -> chooses m2 axes ->
  matrix_key prefix m1 = matrix_key prefix m2 -> m1 = m2.
Proof.
  intros Ht H1 H2 E. unfold matrix_key in E. do 2 apply sapp_inj in E. apply sapp_inv_tail in E.
  by eapply join_unique.
Qed.

Lemma dag_map_cells prefix products cells :
  dag_map (fun values =>
    let node_key := matrix_key prefix values in
    validate_node_key "$.node_key" node_key ;;
    Ok (Build_MatrixCell node_key values)) products = Ok cells ->
  cells = map (fun values => Build_MatrixCell (matrix_key prefix values) values) products.
Proof.
  revert cells. induction products as [|m products IH]; intros cells; cbn [dag_map].
  { by intros [= <-]. }
  intros (c & Hc & Hr)%bind_ok. apply bind_ok in Hc as ([] & _ & [= <-]).
  apply bind_ok in Hr as (cs & Hcs & [= <-]). by rewrite (IH cs).
Qed.

Lemma chooses_normalized m axes : chooses m (normalized axes) <-> chooses m axes.
Proof.
  unfold chooses, normalized. rewrite Forall2_fmap_r. 
  split; intros H; eapply Forall2_impl; [exact H| |exact H|]; intros [k v] [k' vs]; cbn;
    by rewrite (sort_by_perm str_ltb vs).
Qed.

Lemma products_length axes P :
  llen (foldl extend_products P axes) = llen P * axes_product axes.
Proof.
  revert P. induction axes as [|[k vs] axes IH]; intros P; cbn [foldl].
  { cbn. lia. }
  rewrite IH. cbn [axes_product foldr snd]. fold (axes_product axes).
  assert (llen (extend_products P (k, vs)) = llen P * llen vs) as ->; [|lia].
  unfold extend_products. cbn [fst snd]. induction P as [|q P IHP]; [done|].
  cbn [map concat]. rewrite llen_app, IHP, llen_cons. unfold llen at 1. rewrite length_map.
  fold (llen vs). lia.
Qed.

(** A compiled matrix is the Cartesian product of its axes: its cells are
    exactly the choices of one value per axis, each once; the number of cells
    is the product of the axis sizes, at most 256; and the cells have pairwise
    distinct node keys, so the nodes they become do not collide. *)
Theorem compile_matrix_product node_prefix axes cells :
  bmap_wf axes -> compile_matrix node_prefix axes = Ok cells ->
  (forall values, values ∈ map cell_values cells <-> chooses values axes) /\
  NoDup (map cell_node_key cells) /\
  llen cells = axes_product axes /\ llen cells <= MAX_MATRIX_CELLS.
Proof.
  intros W Hc. unfold compile_matrix in Hc. apply bind_ok in Hc as ([] & _ & Hc).
  apply bind_ok in Hc as ([] & _ & Hc). apply bind_ok in Hc as ([n c] & Hn & Hc).
  apply normalize_axes_ok in Hn as (-> & -> & Hle & Hax); [|done]. cbn [app] in Hc.
  apply dag_map_cells in Hc as ->. set (P := foldl extend_products [[]] (normalized axes)).
  assert (Sorted str_lt ([] ++ (normalized axes).*1)) as Hs.
  { unfold normalized. cbn [app]. change (map ?f ?l) with (f <$> l). by rewrite <- list_fmap_compose. }
  assert (forall m, m ∈ P <-> chooses m axes) as HP.
  { intros m. unfold P. rewrite (products_elem [] _ _ _ Hs), <- chooses_normalized.
    - split; [by intros (q & r & ->%list_elem_of_singleton & Hr & ->)|]. intros Hm. exists [], m.
      split_and!; [by left|done|done].
    - by intros q ->%list_elem_of_singleton. }
  assert (llen P = axes_product axes) as HlP.
  { unfold P. rewrite products_length. unfold normalized. clear.
    induction axes as [|[k vs] axes IH]; [done|]. cbn [map axes_product foldr snd fst] in *.
    unfold llen at 2. rewrite (Permutation_length (sort_by_perm str_ltb vs)). fold (llen vs).
    fold (axes_product axes) in *.
    fold (axes_product (map (fun ax => (ax.1, sort_by str_ltb ax.2)) axes)) in *. cbn in *. lia. }
  rewrite map_map. cbn [cell_values]. rewrite map_id. split_and!; [done| | |].
  - rewrite map_map. cbn [cell_node_key]. apply NoDup_fmap_2_strong.
    + intros m1 m2 H1%HP H2%HP E. eapply matrix_key_unique; [|exact H1|exact H2|exact E].
      intros ax v Hin Hv. by eapply Hax.
    + unfold P. apply (products_nodup [] _ _ Hs); [by intros q ->%list_elem_of_singleton|
        apply NoDup_singleton|].
      intros ax (ax' & -> & Hin)%list_elem_of_fmap. cbn [snd]. rewrite (sort_by_perm str_ltb (snd ax')).
      by apply Hax.
  - unfold llen. by rewrite length_map.
  - unfold llen. rewrite length_map. fold (llen P). lia.
Qed.

Definition example_axes : bmap (list string) := [("os", ["windows"; "linux"]); ("rust", ["stable"])].

Definition example_cells : list MatrixCell := [
  Build_MatrixCell "test[os=linux,rust=stable]" [("os", "linux"); ("rust", "stable")];
  Build_MatrixCell "test[os=windows,rust=stable]" [("os", "windows"); ("rust", "stable")]].

Lemma compile_matrix_product_witness :
  compile_matrix "test" example_axes = Ok example_cells /\ NoDup (map cell_node_key example_cells).
Proof.
  split; [vm_compute; reflexivity|].
  apply (compile_matrix_product "test" example_axes example_cells);
    [repeat constructor|vm_compute; reflexivity].
Defined.
