(* ===== verification/DagNormal.v ===== *)
(** * The normalized contract of a build

    [normalized_dag_contract] is what a replayed admission is compared by.  It
    is the same for two contracts exactly when they differ only in the order of
    nodes, dependencies and capabilities. *)

From stdpp Require Import base gmap list strings pretty.
From Stdlib Require Import Ascii ZArith Lia Sorted.
From S2P Require Import Prelude Text Bytes Domain DagContract DagGraph DagMatrix.

Open Scope Z_scope.

(** ** Equivalent contracts *)

Record same_node (n1 n2 : NewDagNode) : Prop := {
  sn_key : node_key n1 = node_key n2;
  sn_kind : node_kind n1 = node_kind n2;
  sn_dependencies : dependencies n1 ≡ₚ dependencies n2;
  sn_capabilities : forall c,
    c ∈ required_capabilities n1 \/ c = platform_capability (required_platform n1) <->
    c ∈ required_capabilities n2 \/ c = platform_capability (required_platform n2);
  sn_platform : required_platform n1 = required_platform n2;
  sn_pool : required_trust_pool n1 = required_trust_pool n2;
  sn_priority : node_priority n1 = node_priority n2;
  sn_spec : execution_spec n1 = execution_spec n2;
  sn_fail_fast : fail_fast n1 = fail_fast n2;
  sn_attempts : max_attempts n1 = max_attempts n2
}.

(** The nodes in some order, one by one the same. *)
Definition same_nodes (l1 l2 : list NewDagNode) : Prop :=
  exists l, l1 ≡ₚ l /\ Forall2 same_node l l2.

Definition same_targets (v1 v2 : Value) : Prop :=
  v1 = v2 \/ (has_targets v1 = false /\ has_targets v2 = false).

(** ** Sorted lists without repetitions *)

#[export] Instance total_on_proper {A} (lt : A -> A -> bool) :
  Proper ((≡ₚ) ==> iff) (total_on lt).
Proof.
  intros l1 l2 Hp. split; intros Ht x y Hx Hy; apply Ht; (rewrite Hp || rewrite <- Hp); done.
Qed.

Lemma sort_by_perm_eq {A} (lt : A -> A -> bool) `{!StrictOrderBool lt} l1 l2 :
  total_on lt l1 -> NoDup l1 -> l1 ≡ₚ l2 -> sort_by lt l1 = sort_by lt l2.
Proof.
  intros Ht N Hp. apply (sorted_unique lt).
  - by apply sort_by_sorted.
  - apply sort_by_sorted; [done|by rewrite <- Hp..].
  - by rewrite !sort_by_perm.
Qed.

Lemma sort_by_eq_perm {A} (lt : A -> A -> bool) l1 l2 : sort_by lt l1 = sort_by lt l2 -> l1 ≡ₚ l2.
Proof. intros E. by rewrite <- (sort_by_perm lt l1), E, sort_by_perm. Qed.

Lemma dedup_cons a b l :
  dedup (a :: b :: l) = if String.eqb a b then dedup (b :: l) else a :: dedup (b :: l).
Proof. done. Qed.

Lemma dedup_elem l x : x ∈ dedup l <-> x ∈ l.
Proof.
  induction l as [|a l IH]; [done|]. destruct l as [|b l]; [done|]. rewrite dedup_cons.
  destruct (String.eqb_spec a b) as [->|]; rewrite ?elem_of_cons, IH, ?elem_of_cons; naive_solver.
Qed.

Lemma dedup_sorted l :
  Sorted (fun a b => str_ltb a b = true \/ a = b) l -> Sorted (fun a b => str_ltb a b = true) (dedup l).
Proof.
  intros Hs. apply Sorted_StronglySorted in Hs.
  2: { intros a b c [Hab| ->] [Hbc| ->]; try (by left); [|by right].
       left. by eapply str_ltb_trans. }
  induction Hs as [|a l Hs IH Ha]; [constructor|]. destruct l as [|b l]; [repeat constructor|].
  rewrite dedup_cons. destruct (String.eqb_spec a b) as [->|Hne]; [done|]. constructor; [done|].
  rewrite Forall_forall in Ha. destruct (dedup (b :: l)) as [|c r] eqn:Ed; constructor.
  assert (c ∈ dedup (b :: l)) as Hc by (rewrite Ed; by left). apply (proj1 (dedup_elem _ _)) in Hc.
  destruct (Ha c Hc) as [?|<-]; [done|]. exfalso.
  destruct (Ha b ltac:(by left)) as [Hab|]; [|done].
  apply elem_of_cons in Hc as [?|Hin]; [done|].
  inversion Hs as [|? ? _ Hb]; subst. rewrite Forall_forall in Hb.
  destruct (Hb a Hin) as [Hba|]; [|by subst].
  pose proof (str_ltb_trans a b a Hab Hba) as Hx. by rewrite str_ltb_irrefl in Hx.
Qed.

Lemma node_capabilities_eq n1 n2 :
  node_capabilities n1 = node_capabilities n2 <->
  forall c, c ∈ required_capabilities n1 \/ c = platform_capability (required_platform n1) <->
            c ∈ required_capabilities n2 \/ c = platform_capability (required_platform n2).
Proof.
  assert (forall n c, c ∈ node_capabilities n <->
    c ∈ required_capabilities n \/ c = platform_capability (required_platform n)) as He.
  { intros n c. unfold node_capabilities.
    rewrite dedup_elem, (sort_by_perm str_ltb), elem_of_app, list_elem_of_singleton. done. }
  assert (forall n, Sorted (fun a b => str_ltb a b = true) (node_capabilities n)) as Hs.
  { intros n. apply dedup_sorted, sort_weakly_sorted. }
  split.
  - intros E c. by rewrite <- !He, E.
  - intros Hc. apply (sorted_unique str_ltb); [apply Hs..|].
    apply NoDup_Permutation; [by apply sorted_repeats, Hs..|]. intros c. by rewrite !He.
Qed.

(** ** Dependencies and nodes as JSON *)

Lemma fmt_z_inj a b : fmt_z a = fmt_z b -> a = b.
Proof. intros E. pose proof (parse_signed_fmt_z a) as Ha. rewrite E, parse_signed_fmt_z in Ha. congruence. Qed.

Lemma condition_str_inj a b : condition_str a = condition_str b -> a = b.
Proof. by destruct a, b. Qed.

Lemma kind_str_inj a b : kind_str a = kind_str b -> a = b.
Proof. by destruct a, b. Qed.

#[export] Instance dependency_before_strict : StrictOrderBool dependency_before.
Proof.
  split.
  - intros x y z. unfold dependency_before. rewrite !orb_true_iff, !andb_true_iff, !String.eqb_eq.
    intros [H1|[E1 H1]] [H2|[E2 H2]].
    + left. by eapply str_ltb_trans.
    + left. by rewrite <- E2.
    + left. by rewrite E1.
    + right. split; [congruence|]. by eapply str_ltb_trans.
  - intros x. unfold dependency_before. by rewrite !str_ltb_irrefl, andb_false_r.
Qed.

Lemma dependency_before_total l : total_on dependency_before l.
Proof.
  intros [k1 c1] [k2 c2] _ _. unfold dependency_before. cbn [dep_node_key dep_condition].
  destruct (str_ltb k1 k2) eqn:E1; [auto|]. destruct (str_ltb k2 k1) eqn:E2; [auto|].
  assert (k1 = k2) as -> by by apply str_ltb_total. rewrite String.eqb_refl. cbn [orb andb].
  destruct (str_ltb (condition_str c1) (condition_str c2)) eqn:E3; [auto|].
  destruct (str_ltb (condition_str c2) (condition_str c1)) eqn:E4; [auto|].
  left. f_equal. by apply condition_str_inj, str_ltb_total.
Qed.

Lemma dependencies_json_eq l1 l2 :
  NoDup (dep_node_key <$> l1) ->
  map dependency_json (sort_by dependency_before l1) = map dependency_json (sort_by dependency_before l2)
  <-> l1 ≡ₚ l2.
Proof.
  intros N%NoDup_fmap_1. split.
  - intros E. apply (sort_by_eq_perm dependency_before). revert E.
    generalize (sort_by dependency_before l1) (sort_by dependency_before l2).
    induction l as [|[k1 c1] l IH]; intros [|[k2 c2] m] E; simplify_eq/=; [done|].
    f_equal; [|by apply IH]. f_equal. by apply condition_str_inj.
  - intros Hp. by rewrite (sort_by_perm_eq dependency_before l1 l2 (dependency_before_total _) N Hp).
Qed.

Lemma node_json_eq n1 n2 :
  NoDup (parents n1) -> node_json n1 = node_json n2 <-> same_node n1 n2.
Proof.
  intros N. unfold node_json. split.
  - intros [= Hd Hs Hf Hk Hm Hkey Hp Hc Hpl Htp]. split; try done.
    + by apply kind_str_inj.
    + by apply dependencies_json_eq.
    + apply node_capabilities_eq. revert Hc. generalize (node_capabilities n1) (node_capabilities n2).
      induction l as [|c l IH]; intros [|c' m] E; simplify_eq/=; [done|]. f_equal. by apply IH.
    + by apply fmt_z_inj.
    + by apply fmt_z_inj.
  - intros [Hkey Hk Hd Hc Hpl Htp Hp Hs Hf Hm].
    rewrite (proj2 (dependencies_json_eq _ _ N) Hd), (proj2 (node_capabilities_eq n1 n2) Hc). congruence.
Qed.

(** ** Nodes in order *)

Definition key_before (l r : NewDagNode) : bool := str_ltb (node_key l) (node_key r).

#[export] Instance key_before_strict : StrictOrderBool key_before.
Proof.
  split.
  - intros x y z. apply str_ltb_trans.
  - intros x. apply str_ltb_irrefl.
Qed.

Lemma key_before_total l : NoDup (node_key <$> l) -> total_on key_before l.
Proof.
  intros N x y Hx Hy. unfold key_before. destruct (str_ltb (node_key x) (node_key y)) eqn:E1; [auto|].
  destruct (str_ltb (node_key y) (node_key x)) eqn:E2; [auto|]. left.
  by apply (node_unique l N); [..|apply str_ltb_total].
Qed.

Lemma insert_by_same x y l m :
  node_key x = node_key y -> same_node x y -> Forall2 same_node l m ->
  Forall2 same_node (insert_by key_before x l) (insert_by key_before y m).
Proof.
  intros E Hs Hl. induction Hl as [|a b l m Hab Hl IH]; [constructor; [done|constructor]|].
  cbn [insert_by]. unfold key_before at 1 3. rewrite E, (sn_key _ _ Hab).
  destruct (str_ltb _ _); [by constructor|]. constructor; [done|by constructor].
Qed.

Lemma sort_by_same l m :
  Forall2 same_node l m -> Forall2 same_node (sort_by key_before l) (sort_by key_before m).
Proof.
  intros Hl. induction Hl as [|a b l m Hab Hl IH]; [constructor|].
  apply insert_by_same; [by apply sn_key|done|exact IH].
Qed.

Lemma nodes_json_eq l1 l2 :
  NoDup (node_key <$> l1) -> (forall n, n ∈ l1 -> NoDup (parents n)) ->
  map node_json (sort_by key_before l1) = map node_json (sort_by key_before l2) <-> same_nodes l1 l2.
Proof.
  intros N Hp.
  assert (forall l m, (forall n, n ∈ l -> NoDup (parents n)) ->
    map node_json l = map node_json m <-> Forall2 same_node l m) as Hmap.
  { clear. induction l as [|x l IH]; intros [|y m] Hp.
    - split; [constructor|done].
    - split; [done|]. intros H. by inversion H.
    - split; [done|]. intros H. by inversion H.
    - rewrite Forall2_cons, <- node_json_eq by (apply Hp; by left).
      rewrite <- IH by (intros; apply Hp; by right). cbn [map].
      generalize (node_json x) (node_json y). intros vx vy. split; [by intros [= -> ->]|by intros [-> ->]]. }
  rewrite Hmap by (intros n Hn; rewrite (sort_by_perm key_before) in Hn; by apply Hp). split.
  - intros Hf%Forall2_flip.
    destruct (Permutation_Forall2 (sort_by_perm key_before l2) Hf) as (l & Hl & Hs).
    exists l. split; [by rewrite <- Hl, sort_by_perm|by apply Forall2_flip].
  - intros (l & Hl & Hs).
    rewrite (sort_by_perm_eq key_before l1 l (key_before_total _ N) (NoDup_fmap_1 _ _ N) Hl).
    by apply sort_by_same.
Qed.

(** The contract a build records identifies what was asked for: two valid
    build requests have the same normalized contract if and only if they have
    the same priority, the same resolved notification targets, and the same
    nodes up to the order of nodes and dependencies and the way capabilities
    are listed.  So a retried admission is recognised however it is ordered,
    and a request that differs in anything else is never taken for a replay. *)
Theorem normalized_contract_exact `{DagExternal} i1 i2 :
  validate_dag_contract i1 = Ok tt -> validate_dag_contract i2 = Ok tt ->
  normalized_dag_contract i1 = normalized_dag_contract i2 <->
  build_priority i1 = build_priority i2 /\ same_targets (notify_targets i1) (notify_targets i2) /\
  same_nodes (build_nodes i1) (build_nodes i2).
Proof.
  intros H1 H2.
  destruct (validate_unbounded i1) as [B1|[e He]]; [|congruence].
  rewrite <- nodes_json_eq by (apply B1 || (intros n Hn; by apply (bc_parents _ B1 n Hn))).
  unfold normalized_dag_contract, same_targets.
  change (fun l r => str_ltb (node_key l) (node_key r)) with key_before. cbv zeta.
  destruct (has_targets (notify_targets i1)) eqn:E1, (has_targets (notify_targets i2)) eqn:E2; cbn [app];
    split.
  - intros [= Hn Ht Hp]. split_and!; [by apply fmt_z_inj|by left|done].
  - intros (-> & Ht & ->). destruct Ht as [->|[? ?]]; [done|congruence].
  - intros [=].
  - intros (_ & [Ht|[? ?]] & _); congruence.
  - intros [=].
  - intros (_ & [Ht|[? ?]] & _); congruence.
  - intros [= Hn Hp]. split_and!; [by apply fmt_z_inj|by right|done].
  - intros (-> & _ & ->). done.
Qed.

(** ** Example *)

(** Every specification is small and every URL is [https]. *)
Definition small_external : DagExternal := {|
  json_to_vec _ := Ok "{}";
  url_parse s := Some (Build_Url "https" (Some "example.org") "" None None);
  debug_assertions := false
|}.

Definition example_node (key : string) (deps : list string) (capabilities : list string) : NewDagNode :=
  Build_NewDagNode key Work (map (fun k => Build_DagDependency k Succeeded) deps) capabilities
    "linux" "default" 0 VNull false 1.

Definition example_build (nodes : list NewDagNode) : NewDagBuild :=
  Build_NewDagBuild "org" "project" "pipeline" 1 1 "key" "digest" 0 nodes (VArray []).

(** A diamond, in two orders. *)
Definition diamond : NewDagBuild := example_build [
  example_node "a" [] ["gpu"; "docker"]; example_node "b" ["a"] []; example_node "c" ["a"] [];
  example_node "d" ["b"; "c"] []].
Definition shuffled_diamond : NewDagBuild := example_build [
  example_node "d" ["c"; "b"] []; example_node "c" ["a"] []; example_node "b" ["a"] [];
  example_node "a" [] ["docker"; "gpu"]].

Lemma normalized_contract_exact_witness :
  same_nodes (build_nodes diamond) (build_nodes shuffled_diamond).
Proof.
  apply (normalized_contract_exact (H := small_external) diamond shuffled_diamond);
    vm_compute; reflexivity.
Defined.

(** A two-node cycle is refused. *)
Lemma cycle_refused :
  validate_dag_contract (H := small_external)
    (example_build [example_node "a" ["b"] []; example_node "b" ["a"] []])
  = Err (DFail (DagError Cycle "$.nodes" "DAG contains a dependency cycle")).
Proof. vm_compute. reflexivity. Qed.
