(* ===== verification/WorkspaceSnapshot.v ===== *)
(** * Workspace snapshots (crates/domain/src/workspace.rs)

    A contained sequential build hands the files of one step to the next as a
    bounded snapshot. The validators of snapshots, receipts, grants and transfer
    results are modelled with every bound. A snapshot is accepted exactly when it
    lists a bounded tree in order, parents first; its receipt is then accepted as
    well, and receipt and digest identify it. *)

From stdpp Require Import base gmap sets list strings sorting.
From Stdlib Require Import Ascii ZArith Lia Sorted.
From S2P Require Import Prelude Text Bytes Domain.

Open Scope Z_scope.

(** ** Data *)

Definition WORKSPACE_TRANSFER_FEATURE : string := "build-workspace-transfer-v1".
Definition WORKSPACE_TRANSFER_CAPABILITY : string := "workspace-transfer-v1".
Definition MAX_WORKSPACE_BYTES : Z := 8 * 1024.
Definition MAX_WORKSPACE_ENTRIES : Z := 32.
Definition MAX_WORKSPACE_PATH_BYTES : Z := 256.
Definition MAX_WORKSPACE_DEPTH : Z := 8.
Definition MAX_WORKSPACE_ENCODED_BYTES : Z := 48 * 1024.

(** [WorkspaceError(String)]. *)
Record WorkspaceError := WorkspaceErr { workspace_message : string }.

(** [impl Display for WorkspaceError]. *)
Definition workspace_error_display (e : WorkspaceError) : string :=
  "workspace transfer: " +:+ workspace_message e.

Inductive WorkspaceEntry : Type :=
| Directory (path : string)
| File (path : string) (executable : bool) (contents : string).

Definition entry_path (e : WorkspaceEntry) : string :=
  match e with Directory path | File path _ _ => path end.

Record WorkspaceSnapshot := { sn_version : Z; sn_entries : list WorkspaceEntry }.

Inductive WorkspaceEntryReceipt : Type :=
| DirectoryReceipt (path : string)
| FileReceipt (path : string) (executable : bool) (size_bytes : Z) (digest : string).

Record WorkspaceSnapshotReceipt := {
  rc_version : Z;
  rc_digest : string;
  rc_total_bytes : Z;
  rc_entries : list WorkspaceEntryReceipt
}.

Record WorkspaceGrant := {
  gr_version : Z;
  gr_organization : string;
  gr_build : string;
  gr_namespace : string;
  gr_generation : Z;
  gr_digest : string;
  gr_snapshot : WorkspaceSnapshot
}.

Record WorkspaceTransferResult := {
  tr_version : Z;
  tr_organization : string;
  tr_build : string;
  tr_namespace : string;
  tr_generation : Z;
  tr_input_digest : string;
  tr_snapshot : option WorkspaceSnapshot;
  tr_error : option string
}.

#[export] Instance WorkspaceEntry_eq_dec : EqDecision WorkspaceEntry.
Proof. solve_decision. Defined.
#[export] Instance WorkspaceSnapshot_eq_dec : EqDecision WorkspaceSnapshot.
Proof. solve_decision. Defined.
#[export] Instance WorkspaceEntryReceipt_eq_dec : EqDecision WorkspaceEntryReceipt.
Proof. solve_decision. Defined.
#[export] Instance WorkspaceSnapshotReceipt_eq_dec : EqDecision WorkspaceSnapshotReceipt.
Proof. solve_decision. Defined.

(** [serde_json::to_vec] of the two types; [None] is its error. *)
Class WorkspaceJson := {
  snapshot_to_vec : WorkspaceSnapshot -> option string;
  transfer_to_vec : WorkspaceTransferResult -> option string
}.

(** Text that [serde_json] prints is read back as the same value. *)
Class WorkspaceJsonLaws (J : WorkspaceJson) : Prop := {
  snapshot_to_vec_inj s s' b : snapshot_to_vec s = Some b -> snapshot_to_vec s' = Some b -> s = s'
}.

(** ** Paths *)

Definition forbidden_char (ch : string) : bool :=
  char_is_control ch || String.eqb ch (schar backslash) || String.eqb ch ":".

Definition validate_path (path : string) : result WorkspaceError () :=
  let parts := split_char "/" path in
  check (is_empty path
         || (MAX_WORKSPACE_PATH_BYTES <? slen path)
         || (MAX_WORKSPACE_DEPTH <? llen parts)
         || existsb forbidden_char (chars path)
         || existsb (fun part => existsb (String.eqb part) ["";".";".."]) parts
         || match parts with
            | first :: _ => existsb (String.eqb first) ["spool"; ".agent-results"]
            | [] => false
            end)
    (WorkspaceErr "unsafe, reserved, or out-of-bound relative path").

(** The prefixes [while let Some((prefix, _)) = parent.rsplit_once('/')] visits;
    each is shorter than the one before. *)
Fixpoint ancestors (fuel : nat) (path : string) : list string :=
  match fuel with
  | O => []
  | S fuel =>
      match rsplit_once "/" path with
      | Some (prefix, _) => prefix :: ancestors fuel prefix
      | None => []
      end
  end.
Definition parents (path : string) : list string := ancestors (String.length path) path.

(** The loops of the two [validate]: the paths seen with whether they are
    directories, the previous path, and the bytes so far. *)
Record Walk := { wk_paths : bmap bool; wk_previous : option string; wk_total : Z }.
Definition walk_start : Walk := {| wk_paths := []; wk_previous := None; wk_total := 0 |}.

Definition add_bytes (total size : Z) (overflow bound : string) : result WorkspaceError Z :=
  match checked_add_usize total size with
  | None => Err (WorkspaceErr overflow)
  | Some total => check (MAX_WORKSPACE_BYTES <? total) (WorkspaceErr bound) ;; Ok total
  end.

Definition check_position (w : Walk) (path unordered orphan : string) : result WorkspaceError () :=
  validate_path path ;;
  check (match wk_previous w with Some value => str_geb value path | None => false end)
    (WorkspaceErr unordered) ;;
  try_for (fun prefix =>
    check (match bget prefix (wk_paths w) with Some true => false | _ => true end)
      (WorkspaceErr orphan)) (parents path).

(** ** Snapshots *)

Section Snapshots.
Context `{X : External} `{J : WorkspaceJson}.

Definition snapshot_entry (w : Walk) (e : WorkspaceEntry) : result WorkspaceError Walk :=
  let path := entry_path e in
  check_position w path "paths must be unique and lexically ordered"
    "every parent must be an explicit directory" ;;
  let seen directory := binsert path directory (wk_paths w) in
  match e with
  | Directory _ =>
      Ok {| wk_paths := seen true; wk_previous := Some path; wk_total := wk_total w |}
  | File _ _ contents =>
      total ← add_bytes (wk_total w) (slen contents) "content size overflow"
        "workspace content bound exceeded";
      Ok {| wk_paths := seen false; wk_previous := Some path; wk_total := total |}
  end.

Definition validate_snapshot (s : WorkspaceSnapshot) : result WorkspaceError () :=
  check (negb (sn_version s =? 1) || (MAX_WORKSPACE_ENTRIES <? llen (sn_entries s)))
    (WorkspaceErr "unsupported snapshot version or entry bound") ;;
  try_fold snapshot_entry walk_start (sn_entries s) ;;
  match snapshot_to_vec s with
  | None => Err (WorkspaceErr "snapshot encoding failed")
  | Some bytes =>
      check (MAX_WORKSPACE_ENCODED_BYTES <? slen bytes)
        (WorkspaceErr "encoded snapshot bound exceeded")
  end.

Definition snapshot_digest (s : WorkspaceSnapshot) : result WorkspaceError string :=
  validate_snapshot s ;;
  match snapshot_to_vec s with
  | None => Err (WorkspaceErr "snapshot encoding failed")
  | Some bytes => Ok (sha256 bytes)
  end.

Definition entry_receipt (e : WorkspaceEntry) : WorkspaceEntryReceipt :=
  match e with
  | Directory path => DirectoryReceipt path
  | File path executable contents =>
      FileReceipt path executable (slen contents) (sha256 contents)
  end.
Definition entry_size (e : WorkspaceEntry) : Z :=
  match e with Directory _ => 0 | File _ _ contents => slen contents end.
Definition total_bytes (l : list WorkspaceEntry) : Z := foldr (fun e t => entry_size e + t) 0 l.

Definition snapshot_receipt (s : WorkspaceSnapshot) :
    result WorkspaceError WorkspaceSnapshotReceipt :=
  digest ← snapshot_digest s;
  Ok {| rc_version := 1; rc_digest := digest; rc_total_bytes := total_bytes (sn_entries s);
        rc_entries := entry_receipt <$> sn_entries s |}.

(** ** Receipts *)

Definition receipt_path (e : WorkspaceEntryReceipt) : string :=
  match e with DirectoryReceipt path | FileReceipt path _ _ _ => path end.

Definition receipt_entry (w : Walk) (e : WorkspaceEntryReceipt) : result WorkspaceError Walk :=
  let path := receipt_path e in
  '(directory, total) ← match e with
    | DirectoryReceipt _ => Ok (true, wk_total w)
    | FileReceipt _ _ size _ =>
        total ← add_bytes (wk_total w) size "receipt size overflow" "receipt content bound exceeded";
        Ok (false, total)
    end;
  check_position w path "receipt paths must be unique and lexically ordered"
    "receipt parent must be an explicit directory" ;;
  Ok {| wk_paths := binsert path directory (wk_paths w); wk_previous := Some path;
        wk_total := total |}.

Definition validate_receipt (r : WorkspaceSnapshotReceipt) : result WorkspaceError () :=
  check (negb (rc_version r =? 1) || (MAX_WORKSPACE_ENTRIES <? llen (rc_entries r)))
    (WorkspaceErr "unsupported receipt version or entry bound") ;;
  w ← try_fold receipt_entry walk_start (rc_entries r);
  check (negb (wk_total w =? rc_total_bytes r)) (WorkspaceErr "receipt total differs from file sizes").

(** ** Grants and results *)

Definition validate_identity (version : Z) (organization build namespace : string) (generation : Z) :
    result WorkspaceError () :=
  check (negb (version =? 1) || (64 <? generation))
    (WorkspaceErr "unsupported transfer version or generation") ;;
  try_for (fun value =>
    match uuid_parse value with
    | None => Err (WorkspaceErr "invalid transfer identity")
    | Some id =>
        check (all_bytes (Ascii.eqb "000") id || negb (String.eqb (uuid_to_string id) value))
          (WorkspaceErr "noncanonical or nil transfer identity")
    end) [organization; build; namespace].

Definition validate_grant (g : WorkspaceGrant) : result WorkspaceError () :=
  validate_identity (gr_version g) (gr_organization g) (gr_build g) (gr_namespace g)
    (gr_generation g) ;;
  digest ← snapshot_digest (gr_snapshot g);
  check (negb (String.eqb digest (gr_digest g))) (WorkspaceErr "snapshot digest mismatch").

Definition validate_transfer (t : WorkspaceTransferResult) : result WorkspaceError () :=
  validate_identity (tr_version t) (tr_organization t) (tr_build t) (tr_namespace t)
    (tr_generation t) ;;
  match tr_snapshot t, tr_error t with
  | Some snapshot, None => validate_snapshot snapshot
  | None, Some error =>
      check (is_empty error || (1024 <? slen error))
        (WorkspaceErr "transfer must carry a snapshot or an explicit bounded error")
  | _, _ => Err (WorkspaceErr "transfer must carry a snapshot or an explicit bounded error")
  end ;;
  match transfer_to_vec t with
  | None => Err (WorkspaceErr "result encoding failed")
  | Some bytes =>
      check (60 * 1024 <? slen bytes) (WorkspaceErr "encoded transfer result bound exceeded")
  end.

End Snapshots.

(** ** What the validator promises *)

(** A path followed by a slash and more is a directory of the list. *)
Definition parents_listed (l : list WorkspaceEntry) : Prop :=
  forall e prefix rest, e ∈ l -> entry_path e = prefix +:+ "/" +:+ rest -> Directory prefix ∈ l.

Record valid_snapshot `{J : WorkspaceJson} (s : WorkspaceSnapshot) : Prop := {
  vs_version : sn_version s = 1;
  vs_count : llen (sn_entries s) <= MAX_WORKSPACE_ENTRIES;
  vs_paths : Forall (fun e => validate_path (entry_path e) = Ok tt) (sn_entries s);
  vs_sorted : Sorted str_lt (entry_path <$> sn_entries s);
  vs_parents : parents_listed (sn_entries s);
  vs_bytes : total_bytes (sn_entries s) <= MAX_WORKSPACE_BYTES;
  vs_encoded : exists b, snapshot_to_vec s = Some b /\ slen b <= MAX_WORKSPACE_ENCODED_BYTES
}.

(** The two walks see an entry as its path, whether it is a directory, and its size. *)
Record Item := { it_path : string; it_directory : bool; it_size : Z }.

Definition items_bytes (l : list Item) : Z := foldr (fun i t => it_size i + t) 0 l.

Definition walk_next (w : Walk) (i : Item) : Walk :=
  {| wk_paths := binsert (it_path i) (it_directory i) (wk_paths w);
     wk_previous := Some (it_path i);
     wk_total := wk_total w + it_size i |}.
Definition walk_of (l : list Item) : Walk := foldl walk_next walk_start l.

Record admissible (w : Walk) (i : Item) : Prop := {
  ad_path : validate_path (it_path i) = Ok tt;
  ad_after : forall v, wk_previous w = Some v -> str_lt v (it_path i);
  ad_parents : forall prefix rest,
    it_path i = prefix +:+ "/" +:+ rest -> bget prefix (wk_paths w) = Some true;
  ad_bytes : wk_total w + it_size i <= MAX_WORKSPACE_BYTES
}.

Record listing (l : list Item) : Prop := {
  ls_paths : Forall (fun i => validate_path (it_path i) = Ok tt) l;
  ls_sorted : StronglySorted str_lt (it_path <$> l);
  ls_parents : forall i prefix rest, i ∈ l -> it_path i = prefix +:+ "/" +:+ rest ->
    exists j, j ∈ l /\ it_path j = prefix /\ it_directory j = true;
  ls_bytes : items_bytes l <= MAX_WORKSPACE_BYTES
}.

Definition entry_item (e : WorkspaceEntry) : Item :=
  {| it_path := entry_path e;
     it_directory := match e with Directory _ => true | File _ _ _ => false end;
     it_size := entry_size e |}.
Definition receipt_item (e : WorkspaceEntryReceipt) : Item :=
  {| it_path := receipt_path e;
     it_directory := match e with DirectoryReceipt _ => true | FileReceipt _ _ _ _ => false end;
     it_size := match e with DirectoryReceipt _ => 0 | FileReceipt _ _ size _ => size end |}.

(** ** Splitting at the last slash *)

Lemma contains_char_cons c a s :
  contains_char c (String a s) = Ascii.eqb c a || contains_char c s.
Proof. unfold contains_char, any_bytes. simpl. by rewrite negb_andb, negb_involutive. Qed.

Lemma strip_slash a s :
  strip_prefix "/" (String a s) = if Ascii.eqb "/" a then Some s else None.
Proof. unfold strip_prefix. by destruct (Ascii.eqb "/" a). Qed.

Lemma rsplit_slash_none s : rsplit_once "/" s = None <-> contains_char "/" s = false.
Proof.
  induction s as [|a s IH]; [done|]. rewrite contains_char_cons.
  cbn [rsplit_once]. rewrite strip_slash. destruct (rsplit_once "/" s) as [[l r]|].
  - destruct (contains_char "/" s); [by rewrite orb_true_r|]. naive_solver.
  - rewrite (proj1 IH eq_refl), orb_false_r. destruct (Ascii.eqb "/" a); naive_solver.
Qed.

Lemma rsplit_slash_app l r :
  contains_char "/" r = false -> rsplit_once "/" (l +:+ "/" +:+ r) = Some (l, r).
Proof.
  intros Hr. induction l as [|a l IH]; cbn [String.append rsplit_once].
  - by rewrite (proj2 (rsplit_slash_none r) Hr), strip_slash.
  - change (String "/" r) with ("/" +:+ r). by rewrite IH.
Qed.

Lemma rsplit_slash_some s l r :
  rsplit_once "/" s = Some (l, r) <-> s = l +:+ "/" +:+ r /\ contains_char "/" r = false.
Proof.
  split; [|intros [-> ?]; by apply rsplit_slash_app].
  revert l. induction s as [|a s IH]; intros l; [done|]. cbn [rsplit_once]. rewrite strip_slash.
  destruct (rsplit_once "/" s) as [[l' r']|] eqn:E.
  - intros [= <- <-]. by destruct (IH l' eq_refl) as [-> ?].
  - destruct (Ascii.eqb_spec "/" a) as [<-|]; [|done]. intros [= <- <-].
    split; [done|]. by apply rsplit_slash_none.
Qed.

Lemma ancestors_enough n m path :
  (String.length path <= n)%nat -> (n <= m)%nat -> ancestors m path = ancestors n path.
Proof.
  revert m path. induction n as [|n IH]; intros [|m] path Hl Hm; [done| |lia|].
  - by destruct path; [|simpl in Hl; lia].
  - simpl. destruct (rsplit_once "/" path) as [[l r]|] eqn:E; [|done]. f_equal.
    apply rsplit_slash_some in E as [-> _]. rewrite !string_length_app in Hl. simpl in Hl.
    apply IH; lia.
Qed.

Lemma parents_unfold path :
  parents path = match rsplit_once "/" path with
                 | Some (prefix, _) => prefix :: parents prefix
                 | None => []
                 end.
Proof.
  unfold parents. destruct path as [|a path]; [done|].
  cbn [String.length ancestors]. destruct (rsplit_once "/" (String a path)) as [[l r]|] eqn:E; [|done].
  f_equal. apply rsplit_slash_some in E as [E _]. apply (f_equal String.length) in E.
  rewrite !string_length_app in E. simpl in E. apply ancestors_enough; lia.
Qed.

Lemma slash_assoc l a r :
  l +:+ "/" +:+ (a +:+ "/" +:+ r) = (l +:+ "/" +:+ a) +:+ "/" +:+ r.
Proof. by rewrite !sapp_assoc. Qed.

(** A path with a slash anywhere splits at its last one. *)
Lemma rsplit_slash_inner prefix rest :
  exists l r, prefix +:+ "/" +:+ rest = l +:+ "/" +:+ r /\ contains_char "/" r = false /\
    (l = prefix \/ exists a, l = prefix +:+ "/" +:+ a).
Proof.
  destruct (rsplit_once "/" rest) as [[a b]|] eqn:E.
  - apply rsplit_slash_some in E as [-> Hb]. rewrite slash_assoc. eauto 10.
  - apply rsplit_slash_none in E. eauto 10.
Qed.

(** The visited prefixes are those before a slash. *)
Lemma parents_elem path prefix :
  prefix ∈ parents path <-> exists rest, path = prefix +:+ "/" +:+ rest.
Proof.
  remember (String.length path) as n eqn:En. revert path prefix En.
  induction (lt_wf n) as [n _ IH]; intros path prefix ->. rewrite parents_unfold. split.
  - destruct (rsplit_once "/" path) as [[l r]|] eqn:E; [|by intros ?%elem_of_nil].
    apply rsplit_slash_some in E as [-> Hr]. rewrite elem_of_cons.
    rewrite (IH (String.length l)); [|rewrite !string_length_app; simpl; lia|done].
    intros [->|[rest ->]]; [by eexists|]. exists (rest +:+ "/" +:+ r). by rewrite slash_assoc.
  - intros [rest ->]. destruct (rsplit_slash_inner prefix rest) as (l & r & E & Hr & Hl).
    rewrite E in *. rewrite rsplit_slash_app by done. rewrite elem_of_cons.
    destruct Hl as [->|[a ->]]; [by left|]. right.
    rewrite (IH (String.length (prefix +:+ "/" +:+ a)));
      [by eexists|rewrite !string_length_app; simpl; lia|done].
Qed.

(** ** Validation *)

Lemma str_lt_prefix a c b : str_lt a (a +:+ String c b).
Proof.
  unfold str_lt. induction a as [|x a IH]; simpl; [done|].
  by rewrite IH, Z.eqb_refl, orb_true_r.
Qed.

Lemma items_bytes_app l1 l2 : items_bytes (l1 ++ l2) = items_bytes l1 + items_bytes l2.
Proof. induction l1 as [|i l1 IH]; simpl; lia. Qed.

Lemma items_bytes_nonneg l : Forall (fun i => 0 <= it_size i) l -> 0 <= items_bytes l.
Proof. induction 1; simpl; lia. Qed.

Lemma walk_of_snoc l i : walk_of (l ++ [i]) = walk_next (walk_of l) i.
Proof. unfold walk_of. by rewrite foldl_app. Qed.

Lemma walk_of_total l : wk_total (walk_of l) = items_bytes l.
Proof.
  induction l as [|i l IH] using rev_ind; [done|].
  rewrite walk_of_snoc, items_bytes_app. simpl. lia.
Qed.

Lemma walk_of_previous l : wk_previous (walk_of l) = it_path <$> last l.
Proof.
  destruct l as [|i l _] using rev_ind; [done|]. by rewrite walk_of_snoc, last_snoc.
Qed.

Lemma walk_of_paths l p d :
  StronglySorted str_lt (it_path <$> l) ->
  bget p (wk_paths (walk_of l)) = Some d <->
  exists i, i ∈ l /\ it_path i = p /\ it_directory i = d.
Proof.
  enough (bmap_wf (wk_paths (walk_of l)) /\
    (StronglySorted str_lt (it_path <$> l) -> bget p (wk_paths (walk_of l)) = Some d <->
     exists i, i ∈ l /\ it_path i = p /\ it_directory i = d)) by tauto.
  induction l as [|i l [Hwf IH]] using rev_ind.
  { split; [constructor|]. intros _. split; [done|]. by intros (i & ?%elem_of_nil & _). }
  rewrite walk_of_snoc. simpl. split; [by apply binsert_wf|].
  rewrite fmap_app, StronglySorted_app. intros (Hlt & Hs & _). specialize (IH Hs).
  rewrite bget_binsert by done. setoid_rewrite elem_of_app. setoid_rewrite list_elem_of_singleton.
  destruct (String.eqb_spec (it_path i) p) as [<-|Hne].
  - split; [intros [= <-]; eauto|]. intros (j & [Hj| ->] & E & <-); [|done].
    exfalso. assert (str_lt (it_path j) (it_path i)) as Hji.
    { apply Hlt; [by apply list_elem_of_fmap_2|]. by left. }
    by apply str_lt_ne in Hji.
  - rewrite IH. split; [naive_solver|]. intros (j & [Hj| ->] & E & <-); [eauto|done].
Qed.

Lemma sorted_before_last l p q :
  StronglySorted str_lt l -> p ∈ l -> last l = Some q -> p = q \/ str_lt p q.
Proof.
  destruct l as [|x l _] using rev_ind; [by intros _ ?%elem_of_nil|].
  rewrite StronglySorted_app, elem_of_app, list_elem_of_singleton, last_snoc.
  intros (Hlt & _) [Hp| ->] [= <-]; [right|by left]. apply Hlt; [done|by left].
Qed.

(** A listed tree grows by what the walk accepts next. *)
Lemma listing_snoc l i :
  Forall (fun i => 0 <= it_size i) (l ++ [i]) ->
  listing (l ++ [i]) <-> listing l /\ admissible (walk_of l) i.
Proof.
  intros [Hz Hi]%Forall_app. rewrite Forall_singleton in Hi. split.
  - intros [Hp Hs Hpar Hb]. apply Forall_app in Hp as [Hp1 Hp2]. rewrite Forall_singleton in Hp2.
    rewrite fmap_app, StronglySorted_app in Hs. destruct Hs as (Hlt & Hs & _).
    rewrite items_bytes_app in Hb. simpl in Hb.
    assert (forall j prefix rest, j ∈ l ++ [i] -> it_path j = prefix +:+ "/" +:+ rest ->
      exists k, k ∈ l /\ it_path k = prefix /\ it_directory k = true) as Hin.
    { intros j prefix rest Hj E. destruct (Hpar _ _ _ Hj E) as (k & Hk & Ek & Hd).
      apply elem_of_app in Hk as [Hk| ->%list_elem_of_singleton]; [by exists k|]. exfalso.
      pose proof (str_lt_prefix prefix "/" rest) as Hpre. simpl in E. rewrite <- E, <- Ek in Hpre.
      apply elem_of_app in Hj as [Hj| ->%list_elem_of_singleton]; [|by apply str_lt_ne in Hpre].
      assert (str_lt (it_path j) (it_path i)) as Hji
        by (apply Hlt; [by apply list_elem_of_fmap_2|by left]).
      by apply (str_lt_ne _ _ (str_lt_trans _ _ _ Hpre Hji)). }
    split; split; [done|done| |lia|done| | |].
    + intros j prefix rest Hj. apply Hin. rewrite elem_of_app. by left.
    + intros v. rewrite walk_of_previous. intros (j & Hj & ->)%fmap_Some.
      apply Hlt; [|by left]. apply list_elem_of_fmap_2. by apply last_Some_elem_of.
    + intros prefix rest E. rewrite walk_of_paths by done. apply (Hin i prefix rest); [|done].
      rewrite elem_of_app. right. by left.
    + rewrite walk_of_total. lia.
  - intros [[Hp Hs Hpar Hb] [Ap Aa Apar Ab]]. rewrite walk_of_total in Ab. split.
    + rewrite Forall_app, Forall_singleton. done.
    + rewrite fmap_app, StronglySorted_app. split_and!; [|done|by repeat constructor].
      intros p q Hp' ->%list_elem_of_singleton.
      assert (exists v, last (it_path <$> l) = Some v) as [v Hv].
      { apply not_eq_None_Some. rewrite last_None. intros E. rewrite E in Hp'. by apply elem_of_nil in Hp'. }
      assert (str_lt v (it_path i)) as Hvi
        by (apply Aa; by rewrite walk_of_previous, <- fmap_last).
      destruct (sorted_before_last _ _ _ Hs Hp' Hv) as [->|]; [done|by etrans].
    + intros j prefix rest [Hj| ->%list_elem_of_singleton]%elem_of_app E.
      * destruct (Hpar _ _ _ Hj E) as (k & Hk & ?). exists k. rewrite elem_of_app. by split; [left|].
      * apply Apar, walk_of_paths in E as (k & Hk & ?); [|done].
        exists k. rewrite elem_of_app. by split; [left|].
    + rewrite items_bytes_app. simpl. lia.
Qed.

Section Fold.
Context {A : Type} (item : A -> Item) (F : Walk -> A -> result WorkspaceError Walk) (l : list A).
Hypothesis sizes : Forall (fun a => 0 <= it_size (item a)) l.
Hypothesis step_ok : forall w a w', 0 <= wk_total w <= MAX_WORKSPACE_BYTES -> a ∈ l ->
  F w a = Ok w' <-> admissible w (item a) /\ w' = walk_next w (item a).

Lemma fold_listing w :
  try_fold F walk_start l = Ok w <-> listing (item <$> l) /\ w = walk_of (item <$> l).
Proof using sizes step_ok.
  revert w. induction l as [|a k IH] using rev_ind; intros w.
  { simpl. split; [intros [= <-]|by intros [_ ->]]. split; [|done].
    split; [done|constructor|by intros ? ? ? ?%elem_of_nil|done]. }
  apply Forall_app in sizes as [Hk Ha].
  rewrite try_fold_app, bind_ok, fmap_app. change (item <$> [a]) with [item a].
  rewrite walk_of_snoc, listing_snoc.
  2: { change [item a] with (item <$> [a]). rewrite <- fmap_app, Forall_fmap. by apply Forall_app. }
  assert (forall w, try_fold F walk_start k = Ok w <->
    listing (item <$> k) /\ w = walk_of (item <$> k)) as IH'.
  { apply IH; [done|]. intros w0 b w' Hw Hb. apply step_ok; [done|]. rewrite elem_of_app. by left. }
  assert (listing (item <$> k) -> 0 <= wk_total (walk_of (item <$> k)) <= MAX_WORKSPACE_BYTES) as Hw.
  { intros [_ _ _ Hb]. rewrite walk_of_total. split; [|done].
    apply items_bytes_nonneg. by rewrite Forall_fmap. }
  assert (a ∈ k ++ [a]) as Hin by (rewrite elem_of_app; right; by left). simpl. split.
  - intros (w0 & [Hl ->]%IH' & E). rewrite bind_ok in E. destruct E as (w1 & E & [= <-]).
    apply step_ok in E as [? ->]; auto.
  - intros [[Hl Ha'] ->]. exists (walk_of (item <$> k)). rewrite IH'. split; [done|].
    rewrite bind_ok. eexists. split; [|done]. apply step_ok; auto.
Qed.
End Fold.

Lemma add_bytes_ok total size e1 e2 t :
  add_bytes total size e1 e2 = Ok t <-> t = total + size /\ total + size <= MAX_WORKSPACE_BYTES.
Proof.
  unfold add_bytes, checked_add_usize. destruct (Z.leb_spec (total + size) usize_max) as [H|H].
  - rewrite bind_ok. split.
    + by intros ([] & ?%check_ok%Z.ltb_ge & [= <-]).
    + intros [-> Hb]. exists tt. by rewrite check_ok, Z.ltb_ge.
  - split; [done|]. intros [_ Hb]. revert H Hb. unfold usize_max, u64_max, MAX_WORKSPACE_BYTES. lia.
Qed.

Lemma check_position_ok w path e1 e2 :
  check_position w path e1 e2 = Ok tt <->
  validate_path path = Ok tt /\ (forall v, wk_previous w = Some v -> str_lt v path) /\
  (forall prefix rest, path = prefix +:+ "/" +:+ rest -> bget prefix (wk_paths w) = Some true).
Proof.
  unfold check_position, str_geb, str_lt. rewrite bind_ok. split.
  - intros ([] & Hp & H). apply bind_ok in H as ([] & Hv%check_ok & Hpar).
    rewrite try_for_ok, Forall_forall in Hpar. split_and!; [done| |].
    + intros v E. rewrite E in Hv. by apply negb_false_iff.
    + intros prefix rest E.
      assert (prefix ∈ parents path) as Hin by (apply parents_elem; eauto).
      apply Hpar, check_ok in Hin. by destruct (bget _ _) as [[]|].
  - intros (Hp & Hv & Hpar). exists tt. split; [done|]. apply bind_ok. exists tt. split.
    + apply check_ok. destruct (wk_previous w); [|done]. apply negb_false_iff. auto.
    + rewrite try_for_ok, Forall_forall. intros prefix [rest E]%parents_elem. apply check_ok.
      by rewrite (Hpar _ _ E).
Qed.

Section Steps.
Context `{X : External} `{J : WorkspaceJson}.

Lemma snapshot_entry_ok w e w' :
  0 <= wk_total w <= MAX_WORKSPACE_BYTES ->
  snapshot_entry w e = Ok w' <->
  admissible w (entry_item e) /\ w' = walk_next w (entry_item e).
Proof.
  intros Hw. unfold snapshot_entry. rewrite bind_ok. split.
  - intros ([] & (Hp & Hv & Hpar)%check_position_ok & H). destruct e as [p|p x c].
    + injection H as <-. split; [split; simpl; auto; lia|].
      unfold walk_next. simpl. by rewrite Z.add_0_r.
    + apply bind_ok in H as (t & [-> Ht]%add_bytes_ok & [= <-]). by split.
  - intros [[Hp Hv Hpar Hb] ->]. exists tt. rewrite check_position_ok. split; [done|].
    destruct e as [p|p x c]; simpl in *.
    + unfold walk_next. simpl. by rewrite Z.add_0_r.
    + rewrite bind_ok. eexists. by rewrite add_bytes_ok.
Qed.

Lemma receipt_entry_ok w e w' :
  0 <= wk_total w <= MAX_WORKSPACE_BYTES ->
  receipt_entry w e = Ok w' <->
  admissible w (receipt_item e) /\ w' = walk_next w (receipt_item e).
Proof.
  intros Hw. unfold receipt_entry. rewrite bind_ok. split.
  - intros ([d t] & Hd & H). apply bind_ok in H as ([] & (Hp & Hv & Hpar)%check_position_ok & [= <-]).
    destruct e as [p|p x z g]; simpl in *.
    + injection Hd as <- <-. split; [split; simpl; auto; lia|].
      unfold walk_next. simpl. by rewrite Z.add_0_r.
    + apply bind_ok in Hd as (t' & [-> Ht]%add_bytes_ok & [= <- <-]). by split.
  - intros [[Hp Hv Hpar Hb] ->].
    exists (it_directory (receipt_item e), wk_total w + it_size (receipt_item e)). split.
    + destruct e as [p|p x z g]; simpl in *; [by rewrite Z.add_0_r|].
      rewrite bind_ok. eexists. by rewrite add_bytes_ok.
    + rewrite bind_ok. exists tt. by rewrite check_position_ok.
Qed.

End Steps.

Section Theorems.
Context `{X : External} `{J : WorkspaceJson}.

Lemma entry_item_bytes l : items_bytes (entry_item <$> l) = total_bytes l.
Proof.
  unfold items_bytes, total_bytes. induction l as [|e l IH]; [done|].
  rewrite fmap_cons. cbn [foldr]. by rewrite IH.
Qed.

Lemma receipt_item_of e : receipt_item (entry_receipt e) = entry_item e.
Proof. by destruct e. Qed.

Lemma entry_listing l :
  listing (entry_item <$> l) <->
  Forall (fun e => validate_path (entry_path e) = Ok tt) l /\
  Sorted str_lt (entry_path <$> l) /\ parents_listed l /\ total_bytes l <= MAX_WORKSPACE_BYTES.
Proof.
  assert (it_path <$> (entry_item <$> l) = entry_path <$> l) as Ep
    by (rewrite <- list_fmap_compose; by apply list_fmap_ext).
  split.
  - intros [Hp Hs Hpar Hb]. rewrite Forall_fmap in Hp. rewrite Ep in Hs.
    rewrite entry_item_bytes in Hb. split_and!; [done|by apply StronglySorted_Sorted| |done].
    intros e prefix rest He E. destruct (Hpar (entry_item e) prefix rest) as (j & Hj & <- & Hd);
      [by apply list_elem_of_fmap_2|done|].
    apply list_elem_of_fmap in Hj as (d & -> & Hd'). by destruct d.
  - intros (Hp & Hs & Hpar & Hb). split.
    + by rewrite Forall_fmap.
    + rewrite Ep. apply Sorted_StronglySorted; [|done]. intros ? ? ?. apply str_lt_trans.
    + intros i prefix rest (e & -> & He)%list_elem_of_fmap E.
      exists (entry_item (Directory prefix)). split; [|done].
      apply list_elem_of_fmap_2. by apply (Hpar e prefix rest).
    + by rewrite entry_item_bytes.
Qed.

Lemma snapshot_fold l w :
  try_fold snapshot_entry walk_start l = Ok w <->
  listing (entry_item <$> l) /\ w = walk_of (entry_item <$> l).
Proof.
  apply fold_listing.
  - apply Forall_true. intros e. destruct e; simpl; [done|apply slen_nonneg].
  - intros. by apply snapshot_entry_ok.
Qed.

Lemma receipt_fold l w :
  try_fold receipt_entry walk_start (entry_receipt <$> l) = Ok w <->
  listing (entry_item <$> l) /\ w = walk_of (entry_item <$> l).
Proof.
  assert (receipt_item <$> (entry_receipt <$> l) = entry_item <$> l) as Ei
    by (rewrite <- list_fmap_compose; apply list_fmap_ext; intros; apply receipt_item_of).
  rewrite (fold_listing receipt_item), Ei; [done| |].
  - rewrite Forall_fmap. apply Forall_true. intros e. simpl.
    destruct e; simpl; [done|apply slen_nonneg].
  - intros. by apply receipt_entry_ok.
Qed.

Lemma validate_snapshot_valid s : validate_snapshot s = Ok tt <-> valid_snapshot s.
Proof.
  unfold validate_snapshot. rewrite bind_ok. split.
  - intros ([] & Hc%check_ok & H). apply bind_ok in H as (w & [Hl _]%snapshot_fold & He).
    apply entry_listing in Hl as (? & ? & ? & ?). bool_prop.
    destruct (snapshot_to_vec s) as [b|] eqn:E; [|done]. apply check_ok in He. bool_prop.
    split; eauto.
  - intros [Hv Hc Hp Hs Hpar Hb (b & E & He)]. exists tt. rewrite check_ok, orb_false_iff.
    rewrite negb_false_iff, Z.eqb_eq, Z.ltb_ge. split; [done|]. rewrite bind_ok.
    exists (walk_of (entry_item <$> sn_entries s)). rewrite snapshot_fold, entry_listing, E.
    split; [done|]. rewrite check_ok. by apply Z.ltb_ge.
Qed.

Lemma snapshot_digest_ok s d :
  snapshot_digest s = Ok d <->
  valid_snapshot s /\ exists b, snapshot_to_vec s = Some b /\ d = sha256 b.
Proof.
  unfold snapshot_digest. rewrite bind_ok. split.
  - intros ([] & Hv%validate_snapshot_valid & H). split; [done|].
    destruct (snapshot_to_vec s); naive_solver.
  - intros [Hv%validate_snapshot_valid (b & E & ->)]. exists tt. by rewrite E.
Qed.

Lemma snapshot_digest_total s : valid_snapshot s -> exists d, snapshot_digest s = Ok d.
Proof. intros V. destruct (vs_encoded s V) as (b & E & _). eexists. apply snapshot_digest_ok. eauto. Qed.

Lemma snapshot_digest_binds `{!WorkspaceJsonLaws J} s s' d :
  snapshot_digest s = Ok d -> snapshot_digest s' = Ok d -> s = s' \/ sha256_collision.
Proof.
  rewrite !snapshot_digest_ok. intros (_ & b & Eb & ->) (_ & b' & Eb' & E).
  destruct (sha256_eq_or_collision _ _ E) as [<-|]; [left|by right].
  by eapply snapshot_to_vec_inj.
Qed.

Lemma snapshot_receipt_ok s r :
  snapshot_receipt s = Ok r <->
  exists d, snapshot_digest s = Ok d /\
    r = {| rc_version := 1; rc_digest := d; rc_total_bytes := total_bytes (sn_entries s);
           rc_entries := entry_receipt <$> sn_entries s |}.
Proof. unfold snapshot_receipt. rewrite bind_ok. naive_solver. Qed.

Lemma receipt_of_valid s r :
  snapshot_receipt s = Ok r -> validate_receipt r = Ok tt.
Proof.
  intros (d & [V _]%snapshot_digest_ok & ->)%snapshot_receipt_ok.
  unfold validate_receipt. simpl. rewrite bind_ok. exists tt.
  rewrite check_ok, Z.ltb_ge. unfold llen. rewrite length_fmap. split; [apply V|].
  rewrite bind_ok. exists (walk_of (entry_item <$> sn_entries s)).
  rewrite receipt_fold, entry_listing, check_ok, walk_of_total, entry_item_bytes, Z.eqb_refl.
  split; [|done]. split; [|done]. by destruct V.
Qed.

(** C28. The workspace checkpoint format: [WorkspaceSnapshot::validate] accepts a
    snapshot exactly when it is version 1, has at most 32 entries with safe
    relative paths in strict order, lists every parent as a directory, and stays
    within the content and encoding bounds. The receipt of an accepted snapshot
    is itself accepted, and no other snapshot has that receipt or that digest,
    unless SHA-256 collides. *)
Theorem validate_snapshot_exact `{!WorkspaceJsonLaws J} s :
  (validate_snapshot s = Ok tt <-> valid_snapshot s) /\
  (valid_snapshot s ->
   exists r, snapshot_receipt s = Ok r /\ validate_receipt r = Ok tt /\
     forall s' r', snapshot_receipt s' = Ok r' -> rc_digest r' = rc_digest r ->
       s' = s \/ sha256_collision).
Proof.
  split; [apply validate_snapshot_valid|]. intros V.
  destruct (snapshot_digest_total s V) as [d Ed].
  eexists. assert (snapshot_receipt s = Ok _) as Hr by (apply snapshot_receipt_ok; eauto).
  split; [exact Hr|]. split; [by eapply receipt_of_valid|].
  intros s' r' (d' & Ed' & ->)%snapshot_receipt_ok E. simpl in E. subst d'.
  by eapply snapshot_digest_binds.
Qed.

End Theorems.
