(* ===== verification/WorkspaceFiles.v ===== *)
(** * Seeding and capturing a workspace (agent-runtime, executor/workspace_transfer.rs)

    [seed] writes a snapshot below a workspace root and reads it back, [capture]
    walks the root and returns the snapshot of what it holds. The file system
    below the root is a map from relative paths to inodes; the executor calls
    both after it has proved that no process of the step is left, so nothing
    else changes the tree meanwhile. A capture returns exactly the tree it walks,
    in whatever order the directories are read, and a seeded snapshot is the one
    that is captured. *)

From stdpp Require Import base gmap sets list strings sorting.
From Stdlib Require Import Ascii ZArith Lia.
From S2P Require Import Prelude Text Bytes Domain DagContract DagMatrix WorkspaceSnapshot.

Open Scope Z_scope.

(** ** The file system below a workspace root *)

Inductive FileKind : Type :=
| KDir
| KRegular (contents : string)
| KOther.

Record Inode := {
  i_dev : Z;
  i_ino : Z;
  i_mode : Z;
  i_nlink : Z;
  i_kind : FileKind
}.

(** Relative paths; the root is the empty path. A symbolic link is [KOther]: no
    path is resolved through one, since [seed] creates every directory it writes
    to and [visit] descends into directories only. *)
Abbreviation FileSystem := (gmap string Inode).

(** The errors the calls report. *)
Inductive Errno : Type := ENOENT | ENOTDIR | EEXIST | EACCES | ELOOP.

(** [Result<_, String>]: an operating system error or a fixed message. *)
Inductive TransferError : Type :=
| Os (e : Errno)
| Message (m : string).

(** The kernel the agent runs on: the file mode creation mask, whether this
    process may use permission bits of a mode, the device and inode number of
    the next file, and the order in which a directory lists its names. *)
Record Host := {
  umask : Z;
  grants : Z -> Z -> bool;
  allocate : FileSystem -> Z * Z;
  read_order : FileSystem -> string -> list string
}.

Definition may_read : Z := 4.
Definition may_write : Z := 2.
Definition may_search : Z := 1.

Definition join (directory name : string) : string :=
  if is_empty directory then name else directory +:+ "/" +:+ name.
(** The directory a path lies in. *)
Definition parent_of (path : string) : string :=
  match rsplit_once "/" path with Some (directory, _) => directory | None => "" end.
Definition is_child (directory path : string) : bool :=
  negb (is_empty path) && String.eqb (parent_of path) directory.

Section Calls.
Context (h : Host).

(** Path resolution: every directory on the way exists and may be searched. *)
Definition search (fs : FileSystem) (directory : string) : result TransferError () :=
  match fs !! directory with
  | None => Err (Os ENOENT)
  | Some i => match i_kind i with
              | KDir => check (negb (grants h (i_mode i) may_search)) (Os EACCES)
              | KRegular _ | KOther => Err (Os ENOTDIR)
              end
  end.
Definition resolve (fs : FileSystem) (path : string) : result TransferError () :=
  if is_empty path then Ok tt else try_for (search fs) ("" :: reverse (parents path)).

Definition symlink_metadata (fs : FileSystem) (path : string) : result TransferError Inode :=
  resolve fs path ;; ok_or (fs !! path) (Os ENOENT).

Definition read_dir (fs : FileSystem) (path : string) : result TransferError (list string) :=
  i ← symlink_metadata fs path;
  match i_kind i with
  | KDir => check (negb (grants h (i_mode i) may_read)) (Os EACCES) ;; Ok (read_order h fs path)
  | KRegular _ | KOther => Err (Os ENOTDIR)
  end.

(** [OpenOptions::new().read(true).custom_flags(O_NOFOLLOW).open]. *)
Definition open_nofollow (fs : FileSystem) (path : string) : result TransferError Inode :=
  i ← symlink_metadata fs path;
  match i_kind i with
  | KOther => Err (Os ELOOP)
  | KDir | KRegular _ => check (negb (grants h (i_mode i) may_read)) (Os EACCES) ;; Ok i
  end.

(** [fs::create_dir] and [open] with [create_new]: the name is new, its directory
    is writable. *)
Definition create (fs : FileSystem) (path : string) (mode : Z) (kind : FileKind) :
    result TransferError FileSystem :=
  resolve fs path ;;
  check (match fs !! path with Some _ => true | None => false end) (Os EEXIST) ;;
  d ← ok_or (fs !! parent_of path) (Os ENOENT);
  check (negb (grants h (i_mode d) may_write)) (Os EACCES) ;;
  let '(dev, ino) := allocate h fs in
  Ok (<[path := {| i_dev := dev; i_ino := ino; i_mode := Z.ldiff mode (umask h);
                   i_nlink := 1; i_kind := kind |}]> fs).

Definition write_all (fs : FileSystem) (path contents : string) : FileSystem :=
  alter (fun i => {| i_dev := i_dev i; i_ino := i_ino i; i_mode := i_mode i;
                     i_nlink := i_nlink i; i_kind := KRegular contents |}) path fs.

(** ** Capture *)

Record Collected := { co_entries : list WorkspaceEntry; co_bytes : Z }.

Definition same_file (a b : Inode) : bool := (i_dev a =? i_dev b) && (i_ino a =? i_ino b).
Definition is_dir (i : Inode) : bool := match i_kind i with KDir => true | _ => false end.

(** The branch of [visit] for a regular file with one link. *)
Definition visit_file (fs : FileSystem) (relative : string) (metadata : Inode) (contents : string)
    (c : Collected) : result TransferError Collected :=
  check (MAX_WORKSPACE_BYTES - co_bytes c <? slen contents) (Message "workspace_content_limit") ;;
  opened ← open_nofollow fs relative;
  match i_kind opened with
  | KRegular now =>
      check (negb (i_nlink opened =? 1) || negb (same_file opened metadata))
        (Message "workspace_file_replaced") ;;
      let read := stake (Z.to_nat (MAX_WORKSPACE_BYTES + 1 - co_bytes c)) now in
      let bytes := co_bytes c + slen read in
      check (MAX_WORKSPACE_BYTES <? bytes) (Message "workspace_content_limit") ;;
      Ok {| co_entries := co_entries c ++
              [File relative (negb (Z.land (i_mode metadata) 73 =? 0)) read];
            co_bytes := bytes |}
  | KDir | KOther => Err (Message "workspace_file_replaced")
  end.

(** The body of the loop up to the recursive call; [true] asks for it. *)
Definition visit_item (fs : FileSystem) (relative : string) (c : Collected) :
    result TransferError (bool * Collected) :=
  if String.eqb relative "spool" then Ok (false, c)
  else
    map_err (fun e => Message (workspace_error_display e)) (validate_path relative) ;;
    check (MAX_WORKSPACE_ENTRIES <=? llen (co_entries c)) (Message "workspace_entry_limit") ;;
    metadata ← symlink_metadata fs relative;
    match i_kind metadata with
    | KDir => Ok (true, {| co_entries := co_entries c ++ [Directory relative];
                           co_bytes := co_bytes c |})
    | KRegular contents =>
        if i_nlink metadata =? 1
        then c ← visit_file fs relative metadata contents c; Ok (false, c)
        else Err (Message "workspace_unsupported_entry")
    | KOther => Err (Message "workspace_unsupported_entry")
    end.

(** [fuel] is the number of levels below; the depth limit is reached first. *)
Fixpoint visit (fuel : nat) (fs : FileSystem) (directory : string) (depth : Z) (c : Collected) :
    result TransferError Collected :=
  check (MAX_WORKSPACE_DEPTH <? depth) (Message "workspace_depth_limit") ;;
  match fuel with
  | O => Err (Message "workspace_depth_limit")
  | S fuel =>
      names ← read_dir fs directory;
      try_fold (fun c name =>
        let relative := join directory name in
        if utf8_valid relative then
          visit_item fs relative c ≫= fun '((recurse, c) : bool * Collected) =>
          if recurse then visit fuel fs relative (depth + 1) c else Ok c
        else Err (Message "workspace_non_utf8_path")) c names
  end.

Definition capture (fs : FileSystem) `{J : WorkspaceJson} (control : Inode) :
    result TransferError WorkspaceSnapshot :=
  current ← symlink_metadata fs "";
  check (negb (is_dir current) || negb (same_file control current))
    (Message "workspace_leaf_replaced") ;;
  c ← visit 9 fs "" 0 {| co_entries := []; co_bytes := 0 |};
  let snapshot := {| sn_version := 1;
    sn_entries := sort_by (fun a b => str_ltb (entry_path a) (entry_path b)) (co_entries c) |} in
  map_err (fun e => Message (workspace_error_display e)) (validate_snapshot snapshot) ;;
  current ← symlink_metadata fs "";
  check (negb (same_file control current) || negb (is_dir current))
    (Message "workspace_leaf_replaced") ;;
  Ok snapshot.

(** ** Seed *)

Definition seed_entry (fs : FileSystem) (e : WorkspaceEntry) : result TransferError FileSystem :=
  match e with
  | Directory path => create fs path 511 KDir
  | File path executable contents =>
      fs ← create fs path (if executable then 448 else 384) (KRegular "");
      Ok (write_all fs path contents)
  end.

(** An error ends the execution; the files it leaves behind are not modelled. *)
Definition seed `{X : External} `{J : WorkspaceJson} (fs : FileSystem) (s : WorkspaceSnapshot) :
    result TransferError FileSystem :=
  map_err (fun e => Message (workspace_error_display e)) (validate_snapshot s) ;;
  fs ← try_fold seed_entry fs (sn_entries s);
  control ← open_nofollow fs "";
  actual ← capture fs control;
  actual ← map_err (fun e => Message (workspace_error_display e)) (snapshot_digest actual);
  wanted ← map_err (fun e => Message (workspace_error_display e)) (snapshot_digest s);
  check (negb (String.eqb actual wanted)) (Message "seed_readback_mismatch") ;;
  Ok fs.
End Calls.

(** ** What a capture shows *)

(** The entry a supported node is captured as. *)
Definition node_entry (path : string) (i : Inode) : option WorkspaceEntry :=
  match i_kind i with
  | KDir => Some (Directory path)
  | KRegular contents =>
      if i_nlink i =? 1
      then Some (File path (negb (Z.land (i_mode i) 73 =? 0)) contents) else None
  | KOther => None
  end.

(** Agent spool files are not part of the workspace. *)
Definition in_spool (path : string) : bool :=
  existsb (String.eqb "spool") (path :: parents path).
Definition in_workspace (path : string) : Prop := path <> "" /\ in_spool path = false.

Definition find_entry (path : string) (s : WorkspaceSnapshot) : option WorkspaceEntry :=
  head (List.filter (fun e => String.eqb (entry_path e) path) (sn_entries s)).

(** The nodes of the workspace are the entries of the snapshot. *)
Definition pictures (fs : FileSystem) (s : WorkspaceSnapshot) : Prop :=
  (forall path e, in_workspace path -> find_entry path s = Some e ->
     exists i, fs !! path = Some i /\ node_entry path i = Some e) /\
  (forall path i, in_workspace path -> fs !! path = Some i ->
     exists e, find_entry path s = Some e /\ node_entry path i = Some e).

Definition tree_ok (fs : FileSystem) : Prop :=
  (exists root, fs !! "" = Some root /\ i_kind root = KDir) /\
  forall path i, fs !! path = Some i -> path <> "" ->
    exists d, fs !! parent_of path = Some d /\ i_kind d = KDir.

(** The agent may list and search the directories and read the files. *)
Definition readable (h : Host) (fs : FileSystem) : Prop :=
  forall path i, fs !! path = Some i -> in_spool path = false ->
    grants h (i_mode i) may_read = true /\
    (i_kind i = KDir -> grants h (i_mode i) may_search = true).

(** [read_dir] lists every name of a directory once; the owner of a file may use
    the owner bits of its mode, which the creation mask leaves alone. *)
Record lawful_host (h : Host) : Prop := {
  lh_order fs directory :
    join directory <$> read_order h fs directory ≡ₚ
    List.filter (is_child directory) (map_to_list fs).*1;
  lh_umask : Z.land (umask h) 448 = 0;
  lh_owner mode bit : bit ∈ [1; 2; 4] -> Z.land mode (64 * bit) = 64 * bit ->
    grants h mode bit = true
}.

(** ** The walk, flattened *)

Lemma stake_all n s : (String.length s <= n)%nat -> stake n s = s.
Proof.
  revert n. induction s as [|a s IH]; intros [|n] Hn; simpl in *; [done|done|lia|].
  rewrite IH; [done|lia].
Qed.

Lemma try_fold_fmap {E A B S} (f : S -> B -> result E S) (g : A -> B) s l :
  try_fold (fun s a => f s (g a)) s l = try_fold f s (g <$> l).
Proof.
  revert s. induction l as [|a l IH]; intros s; simpl; [done|].
  unfold mbind, result_bind. destruct (f s (g a)); [apply IH|done].
Qed.

Lemma parent_of_join d n : contains_char "/" n = false -> d <> "" -> parent_of (join d n) = d.
Proof.
  intros Hn Hd. unfold parent_of, join. destruct d; [done|]. simpl is_empty. cbn iota.
  by rewrite rsplit_slash_app.
Qed.

Lemma parent_shorter p : p <> "" -> (String.length (parent_of p) < String.length p)%nat.
Proof.
  intros Hp. unfold parent_of. destruct (rsplit_once "/" p) as [[l r]|] eqn:E.
  - apply rsplit_slash_some in E as [-> _]. rewrite !string_length_app. simpl. lia.
  - destruct p; [done|]. simpl. lia.
Qed.

Lemma parents_parent p : parents p = if contains_char "/" p then parent_of p :: parents (parent_of p) else [].
Proof.
  rewrite parents_unfold. unfold parent_of.
  destruct (rsplit_once "/" p) as [[l r]|] eqn:E.
  - destruct (contains_char "/" p) eqn:C; [done|]. apply rsplit_slash_none in C. congruence.
  - apply rsplit_slash_none in E. by rewrite E.
Qed.

Section Walk.
Context (h : Host) (fs : FileSystem).

Definition child_paths (directory : string) : list string :=
  join directory <$> read_order h fs directory.
Definition dir_at (path : string) : bool :=
  match fs !! path with Some i => is_dir i | None => false end.

Fixpoint walked (fuel : nat) (directory : string) : list string :=
  match fuel with
  | O => []
  | S fuel =>
      child_paths directory ≫= fun p =>
        if String.eqb p "spool" then []
        else p :: (if dir_at p then walked fuel p else [])
  end.

(** The directories the walk opens can be listed, within the depth limit. *)
Fixpoint dirs_ok (fuel : nat) (directory : string) (depth : Z) : Prop :=
  depth <= MAX_WORKSPACE_DEPTH /\
  match fuel with
  | O => False
  | S fuel =>
      is_ok (read_dir h fs directory) = true /\
      Forall (fun p => p <> "spool" -> dir_at p = true -> dirs_ok fuel p (depth + 1))
        (child_paths directory)
  end.

Definition visit_path (c : Collected) (p : string) : result TransferError Collected :=
  if utf8_valid p then visit_item h fs p c ≫= fun r => Ok r.2
  else Err (Message "workspace_non_utf8_path").

Lemma symlink_metadata_ok p i :
  symlink_metadata h fs p = Ok i <-> resolve h fs p = Ok tt /\ fs !! p = Some i.
Proof.
  unfold symlink_metadata. rewrite bind_ok. split.
  - intros ([] & ? & H). destruct (fs !! p); naive_solver.
  - intros [? ->]. by exists tt.
Qed.

Lemma visit_item_recurses p c r c' :
  p <> "spool" -> visit_item h fs p c = Ok (r, c') -> r = dir_at p.
Proof.
  intros Hp. unfold visit_item. rewrite (proj2 (String.eqb_neq _ _)) by done. intros H.
  apply bind_ok in H as ([] & _ & H). apply bind_ok in H as ([] & _ & H).
  apply bind_ok in H as (i & [_ Hi]%symlink_metadata_ok & H). unfold dir_at, is_dir. rewrite Hi.
  destruct (i_kind i); [by injection H as <- _| |done].
  destruct (i_nlink i =? 1); [|done]. by apply bind_ok in H as (? & _ & [= <- _]).
Qed.

(** One name of the loop in [visit]. *)
Definition visit_child (fuel : nat) (depth : Z) (c : Collected) (p : string) :
    result TransferError Collected :=
  if utf8_valid p then
    visit_item h fs p c ≫= fun '((recurse, c) : bool * Collected) =>
    if recurse then visit h fuel fs p depth c else Ok c
  else Err (Message "workspace_non_utf8_path").

Lemma visit_unfold fuel directory depth c c' :
  visit h (S fuel) fs directory depth c = Ok c' <->
  depth <= MAX_WORKSPACE_DEPTH /\ is_ok (read_dir h fs directory) = true /\
  try_fold (visit_child fuel (depth + 1)) c (child_paths directory) = Ok c'.
Proof.
  cbn [visit]. rewrite guard_ok, Z.ltb_ge. unfold child_paths.
  rewrite <- (try_fold_fmap (visit_child fuel (depth + 1)) (join directory)).
  destruct (read_dir h fs directory) as [names|e] eqn:E; cbn; [|naive_solver].
  assert (names = read_order h fs directory) as ->; [|naive_solver].
  unfold read_dir in E. apply bind_ok in E as (i & _ & E). destruct (i_kind i); [|done..].
  by apply guard_ok in E as [_ [= <-]].
Qed.

Lemma visit_child_flat fuel depth c p c' :
  (forall depth c c', visit h fuel fs p depth c = Ok c' <->
     dirs_ok fuel p depth /\ try_fold visit_path c (walked fuel p) = Ok c') ->
  visit_child fuel depth c p = Ok c' <->
  (p <> "spool" -> dir_at p = true -> dirs_ok fuel p depth) /\
  try_fold visit_path c (if String.eqb p "spool" then []
                         else p :: (if dir_at p then walked fuel p else [])) = Ok c'.
Proof.
  intros IH. unfold visit_child. destruct (String.eqb_spec p "spool") as [->|Hp].
  { unfold visit_item. simpl. naive_solver. }
  cbn [try_fold]. rewrite bind_ok. unfold visit_path at 1. destruct (utf8_valid p); [|naive_solver].
  rewrite bind_ok. split.
  - intros ([r c1] & Hi & H). pose proof (visit_item_recurses _ _ _ _ Hp Hi) as ->.
    destruct (dir_at p); [apply IH in H as [Hd H]|]; (split; [done|]); exists c1;
      rewrite Hi; done.
  - intros [Hd (c1 & H1 & H)]. apply bind_ok in H1 as ([r c2] & Hi & [= ->]).
    pose proof (visit_item_recurses _ _ _ _ Hp Hi) as ->. exists (dir_at p, c1).
    split; [done|]. destruct (dir_at p); [|done]. apply IH. auto.
Qed.

Lemma visit_flat fuel directory depth c c' :
  visit h fuel fs directory depth c = Ok c' <->
  dirs_ok fuel directory depth /\ try_fold visit_path c (walked fuel directory) = Ok c'.
Proof.
  revert directory depth c c'. induction fuel as [|fuel IH]; intros directory depth c c'.
  { simpl. rewrite guard_ok. naive_solver. }
  rewrite visit_unfold. cbn [dirs_ok walked].
  enough (forall ps c, try_fold (visit_child fuel (depth + 1)) c ps = Ok c' <->
    Forall (fun p => p <> "spool" -> dir_at p = true -> dirs_ok fuel p (depth + 1)) ps /\
    try_fold visit_path c (ps ≫= fun p => if String.eqb p "spool" then []
      else p :: (if dir_at p then walked fuel p else [])) = Ok c') as E by (rewrite E; tauto).
  intros ps. induction ps as [|p ps IHp]; intros c1; [cbn; naive_solver|].
  rewrite bind_cons, try_fold_app, Forall_cons. cbn [try_fold]. rewrite !bind_ok.
  split.
  - intros (c2 & [Hd H1]%(visit_child_flat fuel (depth + 1) c1 p c2 (IH p)) & [Hf H2]%IHp). eauto.
  - intros [[Hd Hf] (c2 & H1 & H2)]. exists c2.
    rewrite (visit_child_flat fuel (depth + 1) c1 p c2 (IH p)), IHp. eauto.
Qed.

(** ** What one path adds *)

Record shows (p : string) (e : WorkspaceEntry) : Prop := {
  sh_utf8 : utf8_valid p = true;
  sh_path : validate_path p = Ok tt;
  sh_node : exists i, symlink_metadata h fs p = Ok i /\ node_entry p i = Some e /\
    (is_dir i = false -> grants h (i_mode i) may_read = true)
}.

Definition collect (c : Collected) (es : list WorkspaceEntry) : Collected :=
  {| co_entries := co_entries c ++ es; co_bytes := co_bytes c + total_bytes es |}.

Lemma visit_file_ok p i contents c c' :
  symlink_metadata h fs p = Ok i -> i_kind i = KRegular contents -> i_nlink i = 1 ->
  0 <= co_bytes c <= MAX_WORKSPACE_BYTES ->
  visit_file h fs p i contents c = Ok c' <->
  grants h (i_mode i) may_read = true /\
  co_bytes c + slen contents <= MAX_WORKSPACE_BYTES /\
  c' = collect c [File p (negb (Z.land (i_mode i) 73 =? 0)) contents].
Proof.
  intros Hm Hk Hn Hb. unfold visit_file. rewrite guard_ok, Z.ltb_ge, bind_ok.
  unfold open_nofollow. rewrite Hm. cbn. rewrite Hk. setoid_rewrite guard_ok.
  unfold same_file, collect. split.
  - intros (Hl & o & [Hg Ho] & H). injection Ho as <-. rewrite Hk, Hn, !Z.eqb_refl in H. cbn in H.
    rewrite stake_all in H by (unfold slen in Hl; lia). apply guard_ok in H as [Hm' [= <-]].
    apply negb_false_iff in Hg. cbn. rewrite !Z.add_0_r. apply Z.ltb_ge in Hm'. done.
  - intros (Hg & Hl & ->). split; [lia|]. exists i. rewrite Hg, Hk, Hn, !Z.eqb_refl. cbn.
    split; [done|]. rewrite stake_all by (unfold slen in Hl; lia).
    apply guard_ok. rewrite Z.ltb_ge, Z.add_0_r. done.
Qed.

Lemma visit_path_ok p c c' :
  p <> "spool" -> 0 <= co_bytes c <= MAX_WORKSPACE_BYTES ->
  visit_path c p = Ok c' <->
  llen (co_entries c) < MAX_WORKSPACE_ENTRIES /\
  exists e, shows p e /\ co_bytes c + entry_size e <= MAX_WORKSPACE_BYTES /\ c' = collect c [e].
Proof.
  intros Hp Hb. unfold visit_path, visit_item. rewrite (proj2 (String.eqb_neq _ _)) by done. split.
  - destruct (utf8_valid p) eqn:Hu; [|done]. intros ([r c1] & H & [= <-])%bind_ok.
    apply seq_ok in H as [Hv%map_err_ok H]. apply guard_ok in H as [Hc%Z.leb_gt H].
    split; [done|]. apply bind_ok in H as (i & Hi & H).
    destruct (i_kind i) as [|contents|] eqn:Hk; [| |done].
    + injection H as <- <-. exists (Directory p). unfold collect. cbn.
      rewrite !Z.add_0_r. split; [|split; [lia|done]]. split; [done..|].
      exists i. unfold node_entry, is_dir. by rewrite Hk.
    + destruct (Z.eqb_spec (i_nlink i) 1) as [Hn|]; [|done].
      apply bind_ok in H as (c2 & H & [= <- <-]).
      apply (visit_file_ok p i contents) in H as (Hg & Hl & ->); [|done..].
      eexists. split; [|split; [|done]]; [|done]. split; [done..|].
      exists i. unfold node_entry, is_dir. by rewrite Hk, Hn.
  - intros (Hc & e & [Hu Hv (i & Hi & He & Hg)] & Hl & ->). rewrite Hu. apply bind_ok.
    exists (dir_at p, collect c [e]). split; [|done]. rewrite seq_ok, map_err_ok, guard_ok, Z.leb_gt.
    split; [done|]. split; [done|]. apply bind_ok. exists i. split; [done|].
    pose proof (proj1 (symlink_metadata_ok _ _) Hi) as [_ Hf]. unfold dir_at. rewrite Hf.
    unfold node_entry, is_dir in *. destruct (i_kind i) as [|contents|] eqn:Hk; [| |done].
    + injection He as <-. unfold collect. cbn. by rewrite !Z.add_0_r.
    + destruct (Z.eqb_spec (i_nlink i) 1) as [Hn|]; [|done]. injection He as <-. apply bind_ok.
      eexists. split; [|done]. apply (visit_file_ok p i contents); auto.
Qed.

Lemma total_bytes_cons e l : total_bytes (e :: l) = entry_size e + total_bytes l.
Proof. done. Qed.

Lemma entry_size_nonneg e : 0 <= entry_size e.
Proof. destruct e; [done|apply slen_nonneg]. Qed.

Lemma total_bytes_nonneg l : 0 <= total_bytes l.
Proof.
  induction l as [|e l IH]; [done|]. rewrite total_bytes_cons. pose proof (entry_size_nonneg e). lia.
Qed.

Lemma collect_nil c : collect c [] = c.
Proof. unfold collect. rewrite app_nil_r. cbn. rewrite Z.add_0_r. by destruct c. Qed.

Lemma collect_cons c e es : collect (collect c [e]) es = collect c (e :: es).
Proof.
  unfold collect. cbn [co_entries co_bytes]. rewrite <- app_assoc, !total_bytes_cons.
  f_equal. cbn. lia.
Qed.

Lemma visit_paths_ok l c c' :
  "spool" ∉ l -> 0 <= co_bytes c <= MAX_WORKSPACE_BYTES ->
  llen (co_entries c) <= MAX_WORKSPACE_ENTRIES ->
  try_fold visit_path c l = Ok c' <->
  exists es, Forall2 shows l es /\ llen (co_entries c) + llen es <= MAX_WORKSPACE_ENTRIES /\
    co_bytes c + total_bytes es <= MAX_WORKSPACE_BYTES /\ c' = collect c es.
Proof.
  revert c. induction l as [|p l IH]; intros c Hl Hb Hc.
  { cbn [try_fold]. split.
    - intros [= <-]. exists []. rewrite collect_nil. cbn. rewrite !Z.add_0_r.
      split; [constructor|]. split; [done|]. split; [lia|done].
    - intros (es & ->%Forall2_nil_inv_l & _ & _ & ->). by rewrite collect_nil. }
  apply not_elem_of_cons in Hl as [Hp Hl]. cbn [try_fold]. rewrite bind_ok.
  assert (forall e, co_bytes (collect c [e]) = co_bytes c + entry_size e) as Eb
    by (intros e; cbn; lia).
  assert (forall e, llen (co_entries (collect c [e])) = llen (co_entries c) + 1) as Ee
    by (intros e; cbn; by rewrite llen_app).
  split.
  - intros (c1 & H1 & H2). apply visit_path_ok in H1 as (Hn & e & He & Hs & ->); [|done..].
    pose proof (entry_size_nonneg e).
    apply IH in H2 as (es & Hes & Hle & Hbs & ->); [|done|rewrite Eb; lia|rewrite Ee; lia].
    rewrite Eb in Hbs. rewrite Ee in Hle.
    exists (e :: es). rewrite collect_cons, total_bytes_cons, llen_cons.
    split; [by constructor|]. split; [lia|]. split; [lia|done].
  - intros (es & Hes & Hle & Hbs & ->). inversion Hes as [|? e ? es' He Hes']; subst.
    rewrite total_bytes_cons in Hbs. rewrite llen_cons in Hle.
    pose proof (total_bytes_nonneg es'). pose proof (entry_size_nonneg e).
    pose proof (llen_nonneg es'). exists (collect c [e]). split.
    + apply visit_path_ok; [done..|]. split; [lia|]. exists e. split; [done|]. split; [lia|done].
    + apply IH; [done|rewrite Eb; lia|rewrite Ee; lia|].
      exists es'. rewrite collect_cons, Eb, Ee. split; [done|]. split; [lia|]. split; [lia|done].
Qed.
End Walk.

(** ** The paths of a tree *)

Lemma in_spool_parent p : in_spool p = String.eqb "spool" p || in_spool (parent_of p).
Proof.
  unfold in_spool. cbn [existsb]. f_equal. rewrite parents_parent.
  destruct (contains_char "/" p) eqn:E; [done|].
  apply rsplit_slash_none in E. unfold parent_of. by rewrite E.
Qed.

Lemma parents_of_parent p q : q ∈ parents p -> q = parent_of p \/ q ∈ parents (parent_of p).
Proof.
  rewrite parents_parent. destruct (contains_char "/" p); [|by intros ?%elem_of_nil].
  by rewrite elem_of_cons.
Qed.

Lemma parent_in_parents p : parent_of p <> "" -> parent_of p ∈ parents p.
Proof.
  intros Hp. rewrite parents_parent. destruct (contains_char "/" p) eqn:E; [by left|].
  apply rsplit_slash_none in E. unfold parent_of in Hp. by rewrite E in Hp.
Qed.

Lemma parents_shorter p q : q ∈ parents p -> (String.length q <= String.length (parent_of p))%nat.
Proof.
  intros [->|[rest ->]%parents_elem]%parents_of_parent; [done|].
  rewrite string_length_app. lia.
Qed.

Lemma parents_trans p q r : p ∈ parents q -> q ∈ parents r -> p ∈ parents r.
Proof.
  rewrite !parents_elem. intros [a ->] [b ->]. exists (a +:+ "/" +:+ b). by rewrite slash_assoc.
Qed.

Lemma in_spool_parents p q : q ∈ parents p -> in_spool p = false -> in_spool q = false.
Proof.
  unfold in_spool. intros Hq. rewrite !existsb_eqb_false, !elem_of_cons. intros Hn [<-|Hs]; apply Hn.
  - by right.
  - right. by eapply parents_trans.
Qed.

(** Two siblings have no descendant in common. *)
Lemma siblings_apart p1 p2 q :
  parent_of p1 = parent_of p2 -> p1 <> "" -> p2 <> "" ->
  (q = p1 \/ p1 ∈ parents q) -> (q = p2 \/ p2 ∈ parents q) -> p1 = p2.
Proof.
  intros E H1 H2. remember (String.length q) as n eqn:En. revert q En.
  induction (lt_wf n) as [n _ IH]. intros q -> [->|Hq1] [->|Hq2]; [done| | |].
  - apply parents_shorter in Hq2. pose proof (parent_shorter p2 H2). rewrite E in Hq2. lia.
  - apply parents_shorter in Hq1. pose proof (parent_shorter p1 H1). rewrite E in H. lia.
  - apply (IH (String.length (parent_of q)) ltac:(apply parent_shorter; intros ->; by apply elem_of_nil in Hq1) (parent_of q));
      [done|..].
    + apply parents_of_parent in Hq1. naive_solver.
    + apply parents_of_parent in Hq2. naive_solver.
Qed.

Section Paths.
Context (h : Host) (L : lawful_host h) (fs : FileSystem) (T : tree_ok fs).

Lemma child_paths_elem directory p :
  p ∈ child_paths h fs directory <-> is_Some (fs !! p) /\ p <> "" /\ parent_of p = directory.
Proof using L.
  unfold child_paths. rewrite (lh_order h L). unfold is_child.
  rewrite list_elem_of_In, filter_In, <- list_elem_of_In, list_elem_of_fmap.
  rewrite andb_true_iff, String.eqb_eq, negb_true_iff.
  assert (is_empty p = false <-> p <> "") as -> by (destruct p; naive_solver).
  split.
  - intros (([q i] & -> & Hq%elem_of_map_to_list) & ? & ?). cbn in *. eauto.
  - intros ([i Hi] & ? & ?). split; [|done]. exists (p, i). by rewrite elem_of_map_to_list.
Qed.

Lemma child_paths_nodup directory : NoDup (child_paths h fs directory).
Proof using L.
  unfold child_paths. rewrite (lh_order h L). apply NoDup_ListNoDup, List.NoDup_filter.
  apply NoDup_ListNoDup, NoDup_fst_map_to_list.
Qed.

Lemma walked_elem fuel directory p :
  p ∈ walked h fs (S fuel) directory <->
  exists q, q ∈ child_paths h fs directory /\ q <> "spool" /\
    (p = q \/ (dir_at fs q = true /\ p ∈ walked h fs fuel q)).
Proof.
  cbn [walked]. rewrite list_elem_of_bind. split.
  - intros (q & Hp & Hq). exists q. split; [done|].
    destruct (String.eqb_spec q "spool") as [E|Hne]; [by apply elem_of_nil in Hp|].
    split; [done|]. apply elem_of_cons in Hp as [->|Hp]; [by left|right].
    destruct (dir_at fs q); [done|by apply elem_of_nil in Hp].
  - intros (q & Hq & Hne & Hp). exists q. rewrite (proj2 (String.eqb_neq _ _)) by done.
    split; [|done]. rewrite elem_of_cons. destruct Hp as [->|[-> Hp]]; auto.
Qed.

Lemma walked_sound fuel directory p :
  in_spool directory = false -> p ∈ walked h fs fuel directory ->
  in_workspace p /\ is_Some (fs !! p).
Proof using L.
  revert directory. induction fuel as [|fuel IH]; intros d Hd; [by intros ?%elem_of_nil|].
  intros (q & (Hf & Hq & Hp)%child_paths_elem & Hne & H)%walked_elem.
  assert (in_spool q = false) as Hs.
  { rewrite in_spool_parent, Hp, Hd, orb_false_r. by apply String.eqb_neq. }
  destruct H as [->|[_ H]]; [done|]. by apply IH in H.
Qed.

Lemma walked_below fuel p q : p <> "" -> q ∈ walked h fs fuel p -> p ∈ parents q.
Proof using L.
  revert p. induction fuel as [|fuel IH]; intros p Hp; [by intros ?%elem_of_nil|].
  intros (c & (_ & Hc & <-)%child_paths_elem & _ & H)%walked_elem.
  pose proof (parent_in_parents c Hp). destruct H as [->|[_ H]]; [done|].
  apply IH in H; [|done]. by eapply parents_trans.
Qed.

Lemma walked_nodup fuel directory : NoDup (walked h fs fuel directory).
Proof using L.
  revert directory. induction fuel as [|fuel IH]; intros d; [constructor|]. cbn [walked].
  apply NoDup_bind; [| |apply child_paths_nodup].
  - intros p1 p2 q (_ & H1 & E1)%child_paths_elem (_ & H2 & E2)%child_paths_elem Hq1 Hq2.
    assert (forall p, p <> "" -> q ∈ (if String.eqb p "spool" then []
      else p :: (if dir_at fs p then walked h fs fuel p else [])) -> q = p \/ p ∈ parents q) as Hb.
    { intros p Hp. destruct (String.eqb p "spool"); [by intros ?%elem_of_nil|].
      intros [->|H]%elem_of_cons; [by left|right].
      destruct (dir_at fs p); [by eapply walked_below|by apply elem_of_nil in H]. }
    apply (siblings_apart p1 p2 q); [congruence|auto..].
  - intros p (_ & Hp & _)%child_paths_elem. destruct (String.eqb p "spool"); [constructor|].
    destruct (dir_at fs p) eqn:E; [|apply NoDup_singleton]. constructor; [|done].
    intros H%walked_below%parents_shorter; [|done]. pose proof (parent_shorter p Hp). lia.
Qed.

Lemma walked_closed fuel directory depth p :
  dirs_ok h fs fuel directory depth ->
  (parent_of p = directory \/
   (parent_of p ∈ walked h fs fuel directory /\ dir_at fs (parent_of p) = true)) ->
  is_Some (fs !! p) -> p <> "" -> p <> "spool" -> p ∈ walked h fs fuel directory.
Proof using L.
  intros Hd Hp Hf He Hs. revert directory depth Hd Hp.
  induction fuel as [|fuel IH]; intros d depth [_ Hd] Hp; [done|]. destruct Hd as [_ Hd].
  rewrite Forall_forall in Hd. apply walked_elem. destruct Hp as [Hp|[Hp Hdir]].
  - exists p. split; [by apply child_paths_elem|]. auto.
  - apply walked_elem in Hp as (q & Hq & Hne & Hp). exists q. split; [done|]. split; [done|]. right.
    destruct Hp as [<-|[Hdq Hp]].
    + split; [done|]. eapply IH; [by apply Hd|by left].
    + split; [done|]. eapply IH; [by apply Hd|by right].
Qed.

Lemma walked_all fuel depth p :
  dirs_ok h fs fuel "" depth -> in_workspace p -> is_Some (fs !! p) -> p ∈ walked h fs fuel "".
Proof using L T.
  intros Hd. remember (String.length p) as n eqn:En. revert p En.
  induction (lt_wf n) as [n _ IH]. intros p -> [Hp Hs] Hf.
  rewrite in_spool_parent in Hs. bool_prop.
  destruct Hf as [i Hi]. destruct (proj2 T p i Hi Hp) as (d & Ed & Kd).
  eapply walked_closed; [done| |by eexists|done|done].
  destruct (decide (parent_of p = "")) as [E|Hne]; [by left|right]. split.
  - eapply IH; [by apply parent_shorter|done|done|by eexists].
  - unfold dir_at, is_dir. by rewrite Ed, Kd.
Qed.

Lemma ancestors_dirs p i q :
  fs !! p = Some i -> p <> "" -> q = "" \/ q ∈ parents p ->
  exists d, fs !! q = Some d /\ i_kind d = KDir.
Proof using T.
  intros Hi Hp [->|Hq]; [apply T|]. revert i Hi Hp Hq. remember (String.length p) as n eqn:En.
  revert p En. induction (lt_wf n) as [n _ IH]. intros p -> i Hi Hp Hq.
  destruct (proj2 T p i Hi Hp) as (d & Ed & Kd). apply parents_of_parent in Hq as [->|Hq]; [eauto|].
  eapply (IH _ (parent_shorter p Hp) (parent_of p)); [done|done| |done].
  intros E. rewrite E in Hq; by apply elem_of_nil in Hq.
Qed.

Lemma metadata_readable p i :
  readable h fs -> fs !! p = Some i -> in_spool p = false -> symlink_metadata h fs p = Ok i.
Proof using T.
  intros R Hi Hs. apply symlink_metadata_ok. split; [|done]. unfold resolve.
  destruct (decide (p = "")) as [->|Hp]; [done|]. destruct (is_empty p); [done|].
  apply try_for_ok, Forall_forall. intros q Hq.
  rewrite elem_of_cons, elem_of_reverse in Hq.
  destruct (ancestors_dirs p i q Hi Hp Hq) as (d & Ed & Kd). unfold search. rewrite Ed, Kd.
  apply check_ok, negb_false_iff. apply (R q d Ed); [|done].
  destruct Hq as [->|Hq]; [done|]. by eapply in_spool_parents.
Qed.
End Paths.

(** ** Depth *)

Lemma split_slash_app l r :
  contains_char "/" r = false -> split_char "/" (l +:+ "/" +:+ r) = split_char "/" l ++ [r].
Proof.
  intros Hr. induction l as [|a l IH]; cbn [String.append split_char].
  - cbn. by rewrite split_char_none.
  - change (String "/" r) with ("/" +:+ r). rewrite IH. destruct (Ascii.eqb a "/"); [done|].
    pose proof (split_char_ne "/" l). by destruct (split_char "/" l).
Qed.

Lemma validate_path_ok p :
  validate_path p = Ok tt ->
  p <> "" /\ llen (split_char "/" p) <= MAX_WORKSPACE_DEPTH /\ "" ∉ split_char "/" p /\
  (forall part rest, split_char "/" p = part :: rest -> part <> "spool").
Proof.
  unfold validate_path. rewrite check_ok. intros H. bool_prop.
  match goal with H : existsb _ (split_char _ _) = false |- _ => rename H into He end.
  split; [by intros ->|]. split; [done|]. split.
  - intros Hin. apply not_true_iff_false in He. apply He, existsb_exists. exists "".
    split; [by apply list_elem_of_In|done].
  - intros part rest E. rewrite E in *. cbn in *. bool_prop. done.
Qed.

Definition level (p : string) : Z := if is_empty p then 0 else llen (split_char "/" p).

Lemma level_parent p : validate_path p = Ok tt -> level p = level (parent_of p) + 1.
Proof.
  intros (Hp & _ & Hn & _)%validate_path_ok. unfold level, parent_of.
  destruct p as [|a p]; [done|]. cbn [is_empty].
  destruct (rsplit_once "/" (String a p)) as [[l r]|] eqn:E.
  - apply rsplit_slash_some in E as [E Hr]. rewrite E in *.
    rewrite split_slash_app in * by done. rewrite llen_app. destruct l; [|done].
    destruct Hn. cbn. by left.
  - apply rsplit_slash_none in E. by rewrite split_char_none.
Qed.

Lemma valid_not_spool p : validate_path p = Ok tt -> in_workspace p.
Proof.
  intros V. pose proof (validate_path_ok p V) as (Hp & _ & _ & Hs). split; [done|].
  unfold in_spool. rewrite existsb_eqb_false, elem_of_cons, parents_elem.
  intros [<-|[rest ->]]; [by apply (Hs "spool" [])|].
  by apply (Hs "spool" (split_char "/" rest)).
Qed.

(** ** Snapshots and trees *)

Lemma node_entry_path p i e : node_entry p i = Some e -> entry_path e = p.
Proof.
  unfold node_entry. destruct (i_kind i); [by intros [= <-]| |done].
  destruct (i_nlink i =? 1); [by intros [= <-]|done].
Qed.

Lemma sorted_paths_nodup (l : list string) : Sorted str_lt l -> NoDup l.
Proof.
  intros H%Sorted_StronglySorted; [|intros ? ? ?; apply str_lt_trans].
  induction H as [|p l Hs IH Hp]; constructor; [|done]. intros Hin.
  rewrite Forall_forall in Hp. by apply (str_lt_ne p p); [apply Hp|].
Qed.

Lemma find_entry_elem p s e :
  Sorted str_lt (entry_path <$> sn_entries s) ->
  find_entry p s = Some e <-> e ∈ sn_entries s /\ entry_path e = p.
Proof.
  intros N%sorted_paths_nodup. unfold find_entry. induction (sn_entries s) as [|x l IH].
  { cbn. split; [done|]. by intros [?%elem_of_nil _]. }
  apply NoDup_cons in N as [Hx N]. specialize (IH N). cbn [List.filter].
  rewrite elem_of_cons. destruct (String.eqb_spec (entry_path x) p) as [E|Hne].
  - cbn. split; [intros [= <-]; auto|]. intros [[->|He] E']; [done|]. destruct Hx.
    rewrite E, <- E'. by apply list_elem_of_fmap_2.
  - rewrite IH. naive_solver.
Qed.

Lemma total_bytes_perm l1 l2 : l1 ≡ₚ l2 -> total_bytes l1 = total_bytes l2.
Proof. induction 1; rewrite ?total_bytes_cons; lia. Qed.

#[export] Instance entry_before_strict :
  StrictOrderBool (fun a b => str_ltb (entry_path a) (entry_path b)).
Proof. split; intros; [by eapply str_ltb_trans|apply str_ltb_irrefl]. Qed.

Lemma sort_entries l s :
  l ≡ₚ sn_entries s -> Sorted str_lt (entry_path <$> sn_entries s) ->
  sort_by (fun a b => str_ltb (entry_path a) (entry_path b)) l = sn_entries s.
Proof.
  intros Hp Hs. pose proof (sorted_paths_nodup _ Hs) as N.
  apply (sorted_unique (fun a b => str_ltb (entry_path a) (entry_path b))).
  - apply sort_by_sorted; [apply _| |rewrite Hp; by apply NoDup_fmap_1 in N].
    intros x y Hx Hy. rewrite Hp in Hx, Hy.
    destruct (str_ltb (entry_path x) (entry_path y)) eqn:E1; [auto|].
    destruct (str_ltb (entry_path y) (entry_path x)) eqn:E2; [auto|]. left.
    assert (find_entry (entry_path x) s = Some x) as Fx by (by apply find_entry_elem).
    assert (find_entry (entry_path x) s = Some y) as Fy.
    { apply find_entry_elem; [done|]. split; [done|]. symmetry. by apply str_ltb_total. }
    congruence.
  - clear -Hs. induction (sn_entries s) as [|x l IH]; [constructor|].
    cbn in Hs. inversion Hs as [|? ? Hl Hx]; subst. constructor; [by apply IH|].
    destruct l; constructor. by inversion Hx.
  - by rewrite sort_by_perm.
Qed.

Section Capture.
Context `{J : WorkspaceJson} (h : Host) (L : lawful_host h) (fs : FileSystem) (T : tree_ok fs).

Lemma walked_no_spool fuel : "spool" ∉ walked h fs fuel "".
Proof using L. by intros [[_ ?] _]%(walked_sound h L). Qed.

Lemma visit_root_ok c' :
  visit h 9 fs "" 0 {| co_entries := []; co_bytes := 0 |} = Ok c' <->
  dirs_ok h fs 9 "" 0 /\
  exists es, Forall2 (shows h fs) (walked h fs 9 "") es /\ llen es <= MAX_WORKSPACE_ENTRIES /\
    total_bytes es <= MAX_WORKSPACE_BYTES /\ c' = {| co_entries := es; co_bytes := total_bytes es |}.
Proof using L.
  rewrite visit_flat, visit_paths_ok; [|apply walked_no_spool|done|done].
  unfold collect. cbn [co_entries co_bytes app]. setoid_rewrite Z.add_0_l. done.
Qed.

Lemma capture_ok control s :
  capture h fs control = Ok s <->
  (exists root, fs !! "" = Some root /\ is_dir root = true /\ same_file control root = true) /\
  valid_snapshot s /\
  exists c, visit h 9 fs "" 0 {| co_entries := []; co_bytes := 0 |} = Ok c /\
    s = {| sn_version := 1;
           sn_entries := sort_by (fun a b => str_ltb (entry_path a) (entry_path b)) (co_entries c) |}.
Proof.
  unfold capture. rewrite bind_ok. split.
  - intros (root & Hroot & H). apply guard_ok in H as [Hc H]. apply bind_ok in H as (c & Hv & H).
    apply seq_ok in H as [Hs%map_err_ok%validate_snapshot_valid H].
    apply bind_ok in H as (root' & _ & H). apply guard_ok in H as [_ [= <-]].
    apply symlink_metadata_ok in Hroot as [_ Hroot]. bool_prop. eauto 10.
  - intros ((root & Hroot & Hd & Hs) & V & c & Hv & ->). exists root.
    assert (symlink_metadata h fs "" = Ok root) as Hm by (by apply symlink_metadata_ok).
    split; [done|]. rewrite guard_ok, Hd, Hs. split; [done|]. rewrite bind_ok. exists c.
    split; [done|]. rewrite seq_ok, map_err_ok, validate_snapshot_valid. split; [done|].
    rewrite Hm. cbn. rewrite Hs, Hd. done.
Qed.

Lemma capture_sound control s :
  capture h fs control = Ok s ->
  valid_snapshot s /\ pictures fs s /\ Forall (fun e => utf8_valid (entry_path e) = true) (sn_entries s).
Proof using L T.
  intros (_ & V & c & (Hd & es & Hes & _ & _ & ->)%visit_root_ok & ->)%capture_ok.
  cbn [co_entries] in *. split; [done|]. pose proof (vs_sorted _ V) as Hs.
  assert (forall e, e ∈ es -> exists p, p ∈ walked h fs 9 "" /\ shows h fs p e) as Hback.
  { intros e (k & Hk)%list_elem_of_lookup.
    destruct (Forall2_lookup_r _ _ _ _ _ Hes Hk) as (p & Hp & Hsh). exists p.
    split; [by eapply list_elem_of_lookup_2|done]. }
  assert (forall p e, shows h fs p e -> exists i, fs !! p = Some i /\ node_entry p i = Some e) as Hsh.
  { intros p e [_ _ (i & [_ Hi]%symlink_metadata_ok & He & _)]. eauto. }
  split; [split|].
  - intros p e Hp [He <-]%find_entry_elem; [|done]. cbn in He. rewrite sort_by_perm in He.
    destruct (Hback e He) as (q & _ & (i & Hi & Hn)%Hsh).
    pose proof (node_entry_path _ _ _ Hn) as ->. eauto.
  - intros p i Hp Hi. assert (p ∈ walked h fs 9 "") as Hw by (by eapply walked_all).
    apply list_elem_of_lookup in Hw as (k & Hk).
    destruct (Forall2_lookup_l _ _ _ _ _ Hes Hk) as (e & He & (i' & Hi' & Hn)%Hsh).
    rewrite Hi in Hi'. injection Hi' as <-. exists e. split; [|done].
    apply find_entry_elem; [done|]. cbn. rewrite sort_by_perm.
    split; [by eapply list_elem_of_lookup_2|by eapply node_entry_path].
  - apply Forall_forall. cbn. intros e He. rewrite sort_by_perm in He.
    destruct (Hback e He) as (q & _ & Hq). pose proof (Hsh _ _ Hq) as (i & _ & Hn).
    apply node_entry_path in Hn as ->. by destruct Hq.
Qed.

Context (s : WorkspaceSnapshot) (V : valid_snapshot s) (P : pictures fs s) (R : readable h fs).
Context (U : Forall (fun e => utf8_valid (entry_path e) = true) (sn_entries s)).

Lemma pictured_valid p i : in_workspace p -> fs !! p = Some i -> validate_path p = Ok tt.
Proof using V P.
  intros Hp Hi. destruct (proj2 P p i Hp Hi) as (e & [He <-]%find_entry_elem & _); [|apply V].
  pose proof (vs_paths s V) as F. rewrite Forall_forall in F. by apply F.
Qed.

Lemma pictured_dirs_ok fuel directory depth i :
  depth + Z.of_nat fuel = 9 -> level directory = depth ->
  fs !! directory = Some i -> i_kind i = KDir -> in_spool directory = false ->
  dirs_ok h fs fuel directory depth.
Proof using L T V P R.
  revert directory depth i. induction fuel as [|fuel IH]; intros d depth i Hf Hl Hi Hk Hs.
  - exfalso. assert (in_workspace d) as Hw.
    { split; [|done]. intros ->. cbn in Hl. lia. }
    pose proof (validate_path_ok d (pictured_valid d i Hw Hi)) as (Hd & Hp & _).
    unfold level in Hl. destruct d; [done|]. cbn in Hl. unfold MAX_WORKSPACE_DEPTH in Hp.
    cbn in Hp. lia.
  - split; [unfold MAX_WORKSPACE_DEPTH; lia|]. split.
    + unfold read_dir. rewrite (metadata_readable h fs T d i R Hi Hs). cbn. rewrite Hk.
      by rewrite (proj1 (R d i Hi Hs)).
    + apply Forall_forall. intros p Hp Hne Hdir.
      apply child_paths_elem in Hp as ([j Hj] & He & Hpar); [|done].
      assert (in_workspace p) as Hw.
      { split; [done|]. rewrite in_spool_parent, Hpar, Hs, orb_false_r. by apply String.eqb_neq. }
      unfold dir_at, is_dir in Hdir. rewrite Hj in Hdir. eapply IH; [lia| |done| |apply Hw].
      * rewrite level_parent by (by eapply pictured_valid). rewrite Hpar. lia.
      * by destruct (i_kind j).
Qed.

Lemma pictured_shows p :
  p ∈ walked h fs 9 "" -> exists e, find_entry p s = Some e /\ shows h fs p e.
Proof using L T V P R U.
  intros ([Hp Hs] & i & Hi)%(walked_sound h L); [|done].
  destruct (proj2 P p i (conj Hp Hs) Hi) as (e & He & Hn). exists e. split; [done|]. split.
  - apply find_entry_elem in He as [He <-]; [|apply V]. rewrite Forall_forall in U. by apply U.
  - by eapply pictured_valid.
  - exists i. split; [by apply metadata_readable|]. split; [done|]. intros _. by apply (R p).
Qed.

Lemma pictured_entries :
  exists es, Forall2 (shows h fs) (walked h fs 9 "") es /\ es ≡ₚ sn_entries s.
Proof using L T V P R U.
  assert (Forall (fun p => exists e, find_entry p s = Some e /\ shows h fs p e) (walked h fs 9 "")) as F
    by (apply Forall_forall; intros; by apply pictured_shows).
  apply Forall_exists_Forall2_l in F as [es F]. exists es.
  split; [eapply Forall2_impl; [exact F|by intros ? ? [_ ?]]|].
  assert (entry_path <$> es = walked h fs 9 "") as Ep.
  { clear -F V. induction F as [|p e l es [He _] F IH]; cbn; [done|]. rewrite IH. f_equal.
    apply find_entry_elem in He; [by destruct He|apply V]. }
  apply NoDup_Permutation.
  - eapply NoDup_fmap_1. rewrite Ep. by apply walked_nodup.
  - eapply NoDup_fmap_1. apply sorted_paths_nodup, V.
  - intros e. split.
    + intros (k & Hk)%list_elem_of_lookup.
      destruct (Forall2_lookup_r _ _ _ _ _ F Hk) as (p & _ & He & _).
      by apply find_entry_elem in He as [? _]; [|apply V].
    + intros He. pose proof (vs_paths s V) as Fv. rewrite Forall_forall in Fv.
      assert (find_entry (entry_path e) s = Some e) as Hfe by (by apply find_entry_elem; [apply V|]).
      pose proof (valid_not_spool _ (Fv e He)) as Hw.
      destruct (proj1 P _ _ Hw Hfe) as (i & Hi & _).
      destruct (proj1 T) as (root & Hroot & Kroot).
      assert (entry_path e ∈ walked h fs 9 "") as Hin.
      { eapply (walked_all h L fs T 9 0); [|done|by eexists].
        by eapply (pictured_dirs_ok 9 "" 0 root). }
      apply list_elem_of_lookup in Hin as (k & Hk).
      destruct (Forall2_lookup_l _ _ _ _ _ F Hk) as (e' & He' & Hf & _).
      rewrite Hfe in Hf. injection Hf as ->. by eapply list_elem_of_lookup_2.
Qed.

Lemma capture_complete control root :
  fs !! "" = Some root -> same_file control root = true -> capture h fs control = Ok s.
Proof using L T V P R U.
  intros Hroot Hc. pose proof (proj1 T) as (root' & Hroot' & Kroot).
  rewrite Hroot in Hroot'. injection Hroot' as <-.
  destruct pictured_entries as (es & Hes & Hp). apply capture_ok. split.
  { exists root. unfold is_dir. by rewrite Kroot. }
  split; [done|]. exists {| co_entries := es; co_bytes := total_bytes es |}. split.
  - apply visit_root_ok. split; [by eapply pictured_dirs_ok|]. exists es.
    unfold llen. rewrite (Permutation_length Hp), (total_bytes_perm _ _ Hp).
    split; [done|]. split; [apply V|]. split; [apply V|done].
  - cbn [co_entries]. rewrite (sort_entries _ _ Hp) by apply V.
    rewrite <- (vs_version s V). by destruct s.
Qed.
End Capture.

(** ** Seeding *)

(** A root the agent owns, empty but for its spool. *)
Record fresh_root (h : Host) (fs : FileSystem) : Prop := {
  fr_tree : tree_ok fs;
  fr_root root bit : fs !! "" = Some root -> bit ∈ [1; 2; 4] -> grants h (i_mode root) bit = true;
  fr_empty path i : fs !! path = Some i -> path <> "" -> in_spool path = true
}.

Record seeded (h : Host) (fs0 : FileSystem) (l : list WorkspaceEntry) (fs : FileSystem) : Prop := {
  sd_others p : p ∉ entry_path <$> l -> fs !! p = fs0 !! p;
  sd_nodes e : e ∈ l -> exists i, fs !! entry_path e = Some i /\
    node_entry (entry_path e) i = Some e /\ grants h (i_mode i) may_read = true /\
    (i_kind i = KDir -> grants h (i_mode i) may_write = true /\ grants h (i_mode i) may_search = true)
}.

Section Modes.
Context (h : Host) (L : lawful_host h).

Lemma owner_bits mode : Z.land (Z.ldiff mode (umask h)) 448 = Z.land mode 448.
Proof using L.
  apply Z.bits_inj'. intros n _. rewrite !Z.land_spec, Z.ldiff_spec.
  pose proof (f_equal (fun z => Z.testbit z n) (lh_umask h L)) as E. cbn beta in E.
  rewrite Z.land_spec, Z.bits_0 in E.
  destruct (Z.testbit 448 n), (Z.testbit (umask h) n); rewrite ?andb_false_r, ?andb_true_r; done.
Qed.

Lemma created_granted mode bit :
  bit ∈ [1; 2; 4] -> Z.land (Z.land mode 448) (64 * bit) = 64 * bit ->
  grants h (Z.ldiff mode (umask h)) bit = true.
Proof using L.
  intros Hb Hm. apply (lh_owner h L); [done|].
  assert (64 * bit = Z.land 448 (64 * bit)) as E.
  { rewrite !elem_of_cons, elem_of_nil in Hb. by destruct Hb as [->|[->|[->|[]]]]. }
  rewrite E at 1. rewrite Z.land_assoc, owner_bits. done.
Qed.

Lemma created_executable (executable : bool) :
  negb (Z.land (Z.ldiff (if executable then 448 else 384) (umask h)) 73 =? 0) = executable.
Proof using L.
  destruct executable.
  - apply negb_true_iff, Z.eqb_neq. intros E. apply (f_equal (fun z => Z.land z 64)) in E.
    rewrite <- Z.land_assoc in E. change (Z.land 73 64) with (Z.land 448 64) in E.
    rewrite Z.land_assoc, owner_bits in E. done.
  - apply negb_false_iff, Z.eqb_eq. apply Z.bits_inj'. intros n _.
    rewrite Z.land_spec, Z.ldiff_spec, Z.bits_0.
    pose proof (f_equal (fun z => Z.testbit z n) (eq_refl : Z.land 384 73 = 0)) as E. cbn beta in E.
    rewrite Z.land_spec, Z.bits_0 in E.
    destruct (Z.testbit 384 n), (Z.testbit 73 n), (Z.testbit (umask h) n); done.
Qed.
End Modes.

Section Seed.
Context (h : Host) (L : lawful_host h) (fs0 : FileSystem) (F : fresh_root h fs0).

Lemma seeded_root l fs root :
  Forall (fun e => validate_path (entry_path e) = Ok tt) l -> seeded h fs0 l fs ->
  fs0 !! "" = Some root -> fs !! "" = Some root.
Proof.
  intros Hv [So _] Hr. rewrite So; [done|]. intros (e & E & He)%list_elem_of_fmap.
  rewrite Forall_forall in Hv. apply Hv, validate_path_ok in He as [He _]. congruence.
Qed.

(** What [create] needs of the directories above. *)
Lemma seeded_above l fs p q :
  Forall (fun e => validate_path (entry_path e) = Ok tt) l -> seeded h fs0 l fs ->
  (forall prefix rest, p = prefix +:+ "/" +:+ rest -> Directory prefix ∈ l) ->
  q = "" \/ q ∈ parents p ->
  exists d, fs !! q = Some d /\ i_kind d = KDir /\
    grants h (i_mode d) may_write = true /\ grants h (i_mode d) may_search = true.
Proof using L F.
  intros Hv S Hpar [->|[rest E]%parents_elem].
  - destruct (proj1 (fr_tree h fs0 F)) as (root & Hr & Kr). exists root.
    split; [by eapply seeded_root|]. split; [done|].
    split; apply (fr_root h fs0 F root); [done| |done|]; set_solver.
  - destruct (sd_nodes h fs0 l fs S (Directory q) (Hpar _ _ E)) as (i & Hi & Hn & _ & Hg).
    cbn in Hi, Hn. exists i. split; [done|]. unfold node_entry in Hn.
    destruct (i_kind i) as [|?|]; [auto| |done]. by destruct (i_nlink i =? 1).
Qed.

Lemma create_ok l fs p mode kind :
  Forall (fun e => validate_path (entry_path e) = Ok tt) l -> seeded h fs0 l fs ->
  validate_path p = Ok tt -> p ∉ entry_path <$> l ->
  (forall prefix rest, p = prefix +:+ "/" +:+ rest -> Directory prefix ∈ l) ->
  exists dev ino, create h fs p mode kind =
    Ok (<[p := {| i_dev := dev; i_ino := ino; i_mode := Z.ldiff mode (umask h);
                  i_nlink := 1; i_kind := kind |}]> fs).
Proof using L F.
  intros Hv S Vp Hp Hpar. unfold create.
  assert (forall q, q = "" \/ q ∈ parents p -> exists d, fs !! q = Some d /\ i_kind d = KDir /\
    grants h (i_mode d) may_write = true /\ grants h (i_mode d) may_search = true) as Ha
    by (intros; by eapply seeded_above).
  assert (resolve h fs p = Ok tt) as ->.
  { unfold resolve. destruct (is_empty p); [done|]. apply try_for_ok, Forall_forall.
    intros q Hq. rewrite elem_of_cons, elem_of_reverse in Hq.
    destruct (Ha q Hq) as (d & Hd & Kd & _ & Hs). unfold search. by rewrite Hd, Kd, Hs. }
  destruct (valid_not_spool p Vp) as [Hne Hs].
  assert (fs !! p = None) as ->.
  { rewrite (sd_others _ _ _ _ S) by done. destruct (fs0 !! p) as [i|] eqn:E; [|done].
    by rewrite (fr_empty h fs0 F p i E Hne) in Hs. }
  assert (parent_of p = "" \/ parent_of p ∈ parents p) as Hq.
  { destruct (decide (parent_of p = "")); [by left|right; by apply parent_in_parents]. }
  destruct (Ha _ Hq) as (d & -> & _ & Hw & _). cbn. rewrite Hw. cbn.
  destruct (allocate h fs) as [dev ino]. eauto.
Qed.

Lemma seeded_insert l fs e i :
  seeded h fs0 l fs -> entry_path e ∉ entry_path <$> l ->
  node_entry (entry_path e) i = Some e -> grants h (i_mode i) may_read = true ->
  (i_kind i = KDir -> grants h (i_mode i) may_write = true /\ grants h (i_mode i) may_search = true) ->
  seeded h fs0 (l ++ [e]) (<[entry_path e := i]> fs).
Proof.
  intros [So Sn] Hp Hn Hr Hd. split.
  - intros p. rewrite fmap_app, not_elem_of_app. intros [Hl He].
    rewrite lookup_insert_ne; [auto|]. intros E. apply He. rewrite <- E. by left.
  - intros x [Hx| ->%list_elem_of_singleton]%elem_of_app.
    + destruct (Sn x Hx) as (j & Hj & ?). exists j. rewrite lookup_insert_ne; [done|].
      intros E. apply Hp. rewrite E. by apply list_elem_of_fmap_2.
    + exists i. by rewrite lookup_insert_eq.
Qed.

Lemma seed_entry_ok l fs e :
  Forall (fun e => validate_path (entry_path e) = Ok tt) l -> seeded h fs0 l fs ->
  validate_path (entry_path e) = Ok tt -> entry_path e ∉ entry_path <$> l ->
  (forall prefix rest, entry_path e = prefix +:+ "/" +:+ rest -> Directory prefix ∈ l) ->
  exists fs', seed_entry h fs e = Ok fs' /\ seeded h fs0 (l ++ [e]) fs'.
Proof using L F.
  intros Hv S Ve He Hpar. destruct e as [p|p x c]; unfold seed_entry; cbn [entry_path] in *.
  - destruct (create_ok l fs p 511 KDir Hv S Ve He Hpar) as (dev & ino & ->).
    eexists. split; [done|]. apply seeded_insert; [done..| |].
    + apply created_granted; [done|set_solver|done].
    + split; apply created_granted; [done|set_solver|done|done|set_solver|done].
  - destruct (create_ok l fs p (if x then 448 else 384) (KRegular "") Hv S Ve He Hpar)
      as (dev & ino & ->). eexists. split; [done|]. unfold write_all. cbn.
    rewrite alter_insert_eq. apply seeded_insert; [done|done| | |done].
    + unfold node_entry. cbn. by rewrite created_executable.
    + apply created_granted; [done|set_solver|by destruct x].
Qed.

Lemma seed_entries_ok l :
  listing (entry_item <$> l) ->
  exists fs, try_fold (seed_entry h) fs0 l = Ok fs /\ seeded h fs0 l fs.
Proof using L F.
  induction l as [|e l IH] using rev_ind; intros Hl.
  { exists fs0. split; [done|]. split; [done|]. by intros ? ?%elem_of_nil. }
  pose proof Hl as Hl'. rewrite fmap_app in Hl. apply listing_snoc in Hl as [Hl He].
  2: { apply Forall_app. split; [rewrite Forall_fmap|constructor; [|constructor]];
       [apply Forall_true; intros|]; apply entry_size_nonneg. }
  destruct (IH Hl) as (fs & Hf & S).
  apply entry_listing in Hl' as (_ & Hs%sorted_paths_nodup & _ & _).
  rewrite fmap_app, NoDup_app in Hs. destruct Hs as (_ & Hd & _).
  pose proof (ls_sorted _ Hl) as Hst. apply entry_listing in Hl as (Hv & _).
  destruct (seed_entry_ok l fs e) as (fs' & Hf' & S'); [done|done|apply He| | |].
  - intros Hin. apply (Hd _ Hin). by left.
  - intros prefix rest E. apply (ad_parents _ _ He) in E.
    apply walk_of_paths in E as (i & (x & -> & Hx)%list_elem_of_fmap & <- & Hdir); [|done].
    by destruct x.
  - exists fs'. split; [|done]. rewrite try_fold_app, Hf. cbn. by rewrite Hf'.
Qed.

End Seed.

Section RoundTrip.
Context `{X : External} `{J : WorkspaceJson} (h : Host) (L : lawful_host h).
Context (fs0 : FileSystem) (F : fresh_root h fs0) (s : WorkspaceSnapshot) (V : valid_snapshot s).

Lemma seeded_lookup fs p i :
  seeded h fs0 (sn_entries s) fs -> fs !! p = Some i ->
  (exists e, e ∈ sn_entries s /\ p = entry_path e) \/
  (fs0 !! p = Some i /\ (p = "" \/ in_spool p = true)).
Proof using F.
  intros [So _] Hi. destruct (decide (p ∈ entry_path <$> sn_entries s)) as [Hp|Hp].
  - left. apply list_elem_of_fmap in Hp as (e & -> & He). eauto.
  - right. rewrite So in Hi by done. split; [done|].
    destruct (decide (p = "")); [by left|right]. by eapply (fr_empty h fs0 F).
Qed.

Lemma seeded_tree fs : seeded h fs0 (sn_entries s) fs -> tree_ok fs.
Proof using L F V.
  intros S. pose proof (fr_tree h fs0 F) as T0. split.
  { destruct (proj1 T0) as (root & Hr & Kr). exists root. split; [|done].
    eapply (seeded_root h fs0); [|done|done]. apply V. }
  intros p i Hi Hp. destruct (seeded_lookup fs p i S Hi) as [(e & He & ->)|[H0 Hsp]].
  - destruct (seeded_above h L fs0 F (sn_entries s) fs (entry_path e) (parent_of (entry_path e)))
      as (d & Hd & Kd & _); [apply V|done| | |eauto].
    + intros. by eapply (vs_parents s V).
    + destruct (decide (parent_of (entry_path e) = "")); [by left|right; by apply parent_in_parents].
  - destruct (proj2 T0 p i H0 Hp) as (d & Hd & Kd). exists d. split; [|done].
    rewrite (sd_others _ _ _ _ S); [done|]. intros (e & E & He)%list_elem_of_fmap.
    destruct Hsp as [?|Hsp]; [done|]. pose proof (vs_paths s V) as Fv. rewrite Forall_forall in Fv.
    destruct (valid_not_spool _ (Fv e He)) as [Hne Hs]. rewrite <- E in Hs, Hne.
    rewrite in_spool_parent, Hs, orb_false_r in Hsp. apply String.eqb_eq in Hsp as <-. done.
Qed.

Lemma seeded_pictures fs : seeded h fs0 (sn_entries s) fs -> pictures fs s.
Proof using F V.
  intros S. split.
  - intros p e _ [He <-]%find_entry_elem; [|apply V].
    destruct (sd_nodes _ _ _ _ S e He) as (i & Hi & Hn & _). eauto.
  - intros p i [Hp Hs] Hi. destruct (seeded_lookup fs p i S Hi) as [(e & He & ->)|[_ [?|?]]];
      [|done|congruence].
    exists e. rewrite find_entry_elem by apply V. split; [done|].
    destruct (sd_nodes _ _ _ _ S e He) as (j & Hj & Hn & _). congruence.
Qed.

Lemma seeded_readable fs : seeded h fs0 (sn_entries s) fs -> readable h fs.
Proof using L F V.
  intros S p i Hi Hs. destruct (seeded_lookup fs p i S Hi) as [(e & He & ->)|[H0 [->|?]]].
  - destruct (sd_nodes _ _ _ _ S e He) as (j & Hj & _ & Hr & Hd). rewrite Hi in Hj.
    injection Hj as <-. split; [done|]. intros K. by apply Hd.
  - split; [|intros _]; apply (fr_root h fs0 F i); [done|set_solver|done|set_solver].
  - congruence.
Qed.

End RoundTrip.

(** C27. [capture] is exact: whatever order the directories are listed in, a
    snapshot it returns is valid, holds precisely the directories and the
    single-link regular files of the workspace with their contents and whether
    they are executable, and nothing of the spool; and a tree that a valid
    snapshot describes is captured as that snapshot. *)
Theorem capture_exact `{J : WorkspaceJson} (h : Host) (fs : FileSystem) (control : Inode) s :
  lawful_host h -> tree_ok fs ->
  (capture h fs control = Ok s ->
   valid_snapshot s /\ pictures fs s /\
   Forall (fun e => utf8_valid (entry_path e) = true) (sn_entries s)) /\
  (valid_snapshot s -> pictures fs s ->
   Forall (fun e => utf8_valid (entry_path e) = true) (sn_entries s) -> readable h fs ->
   option_map (same_file control) (fs !! "") = Some true -> capture h fs control = Ok s).
Proof.
  intros L T. split; [by apply capture_sound|]. intros V P U R Hc.
  destruct (fs !! "") as [root|] eqn:E; [|done]. injection Hc as Hc.
  by eapply capture_complete.
Qed.

(** C21. A workspace checkpoint survives the trip through an agent's file system:
    seeding a valid snapshot below an empty root succeeds, read back included,
    leaves the spool alone, and a capture of the seeded root, in any directory
    order, is the same snapshot. *)
Theorem seed_capture_roundtrip `{X : External} `{J : WorkspaceJson} (h : Host) (fs : FileSystem) s :
  lawful_host h -> fresh_root h fs -> valid_snapshot s ->
  Forall (fun e => utf8_valid (entry_path e) = true) (sn_entries s) ->
  exists fs', seed h fs s = Ok fs' /\
    (forall path, in_spool path = true \/ path = "" -> fs' !! path = fs !! path) /\
    (forall control, option_map (same_file control) (fs' !! "") = Some true ->
       capture h fs' control = Ok s).
Proof.
  intros L F V U.
  assert (listing (entry_item <$> sn_entries s)) as Hl by (apply entry_listing; by destruct V).
  destruct (seed_entries_ok h L fs F _ Hl) as (fs' & Hf & S). exists fs'.
  pose proof (seeded_tree h L fs F s V fs' S) as T.
  pose proof (seeded_pictures h fs F s V fs' S) as P.
  pose proof (seeded_readable h L fs F s V fs' S) as R.
  destruct (proj1 T) as (root & Hr & Kr).
  assert (forall control, same_file control root = true -> capture h fs' control = Ok s) as Hc
    by (intros; by eapply capture_complete).
  split; [|split].
  - unfold seed. rewrite seq_ok, map_err_ok, validate_snapshot_valid. split; [done|].
    apply bind_ok. exists fs'. split; [done|]. apply bind_ok. exists root. split.
    { unfold open_nofollow. rewrite (metadata_readable h fs' T "" root R Hr eq_refl). cbn.
      by rewrite Kr, (proj1 (R "" root Hr eq_refl)). }
    apply bind_ok. exists s. split; [apply Hc; unfold same_file; by rewrite !Z.eqb_refl|].
    destruct (snapshot_digest_total s V) as [d ->]. cbn. by rewrite String.eqb_refl.
  - intros p Hp. apply (sd_others _ _ _ _ S). intros (e & -> & He)%list_elem_of_fmap.
    pose proof (vs_paths s V) as Fv. rewrite Forall_forall in Fv.
    destruct (valid_not_spool _ (Fv e He)) as [Hne Hs]. destruct Hp; congruence.
  - intros control E. rewrite Hr in E. injection E as E. auto.
Qed.
