(* ===== verification/StoreTables.v ===== *)
(** * The controller store: tables and statements

    The rows of one tenant as the migrations declare them, the statements the
    store runs over them and the helpers every transaction shares. Every
    statement of the store is filtered by [organization_id] and row level
    security binds the transaction to one organization, so the model is the
    slice of the database that organization sees. A transaction runs under the
    organization's advisory lock; it is one function on the state, and an error
    leaves the state as it was. [clock_timestamp()] is one instant, the argument
    [now], in microseconds. A statement that updates [nodes.status] runs the
    trigger of migration 18, which moves a node back to blocked while one of
    its dependencies is open. An event of [append_event_and_outbox] is a row of
    [build_events] here; the audit record written with it is in [AuditChain.v],
    and trigger ingress appends it for the events of the builds it admits. *)

From stdpp Require Import base gmap sets list strings pretty.
From Stdlib Require Import ZArith Lia.
From S2P Require Import Prelude Text Bytes Domain DagContract.

Open Scope Z_scope.

(** ** Record update *)

Class Update {R T : Type} (f : R -> T) := update : T -> R -> R.
Arguments update {R T} f {_} v r : simpl nomatch.

Notation "r <| f := v |>" := (update f v r)
  (at level 40, left associativity, f at level 200, v at level 200).

(** The setter of field [f], read off the rebuilt record [rebuilt r]. *)
Ltac derive_setter rebuilt f :=
  let v := fresh "v" in let r := fresh "r" in
  intros v r;
  let t := eval cbv beta delta [rebuilt] in (rebuilt r) in
  let t := eval pattern (f r) in t in
  match t with ?setter _ => exact (setter v) end.

(** ** Columns *)

Notation Uuid := string (only parsing).

Inductive BuildStatus : Type :=
| BQueued | BRunning | BSucceeded | BFailed | BAborted | BReconciliation.
Inductive NodeStatus : Type :=
| NBlocked | NQueued | NOffered | NRunning | NSucceeded | NFailed | NAborted | NSkipped
| NReconciliation.
Inductive AttemptStatus : Type :=
| AQueued | AOffered | AAccepted | ARunning | AFinalizing | ASucceeded | AFailed | ACancelling
| AAborted | AReconciliation.
Inductive LogicalOutcome : Type := LSucceeded | LFailed | LAborted | LSkipped.
Inductive TerminalOutcome : Type := OSucceeded | OFailed | OAborted.
Inductive EffectClass : Type := Idempotent | ExternallyIdempotent | NonIdempotent.
Inductive EffectStatus : Type :=
| EPrepared | EApplied | EConfirmed | EUncertain | EReleasePending | EAbandoned.
Inductive DeliveryState : Type := DPending | DDelivered | DAbandoned.

#[export] Instance BuildStatus_eq_dec : EqDecision BuildStatus.
Proof. solve_decision. Defined.
#[export] Instance NodeStatus_eq_dec : EqDecision NodeStatus.
Proof. solve_decision. Defined.
#[export] Instance AttemptStatus_eq_dec : EqDecision AttemptStatus.
Proof. solve_decision. Defined.
#[export] Instance LogicalOutcome_eq_dec : EqDecision LogicalOutcome.
Proof. solve_decision. Defined.
#[export] Instance TerminalOutcome_eq_dec : EqDecision TerminalOutcome.
Proof. solve_decision. Defined.
#[export] Instance EffectClass_eq_dec : EqDecision EffectClass.
Proof. solve_decision. Defined.
#[export] Instance EffectStatus_eq_dec : EqDecision EffectStatus.
Proof. solve_decision. Defined.

Definition build_status_str (s : BuildStatus) : string :=
  match s with
  | BQueued => "queued" | BRunning => "running" | BSucceeded => "succeeded"
  | BFailed => "failed" | BAborted => "aborted" | BReconciliation => "reconciliation_required"
  end.

Definition outcome_str (o : TerminalOutcome) : string :=
  match o with OSucceeded => "succeeded" | OFailed => "failed" | OAborted => "aborted" end.

(** The status an outcome gives to an attempt, a node and a build. *)
Definition outcome_attempt (o : TerminalOutcome) : AttemptStatus :=
  match o with OSucceeded => ASucceeded | OFailed => AFailed | OAborted => AAborted end.
Definition outcome_node (o : TerminalOutcome) : NodeStatus :=
  match o with OSucceeded => NSucceeded | OFailed => NFailed | OAborted => NAborted end.
Definition outcome_logical (o : TerminalOutcome) : LogicalOutcome :=
  match o with OSucceeded => LSucceeded | OFailed => LFailed | OAborted => LAborted end.
Definition outcome_build (o : TerminalOutcome) : BuildStatus :=
  match o with OSucceeded => BSucceeded | OFailed => BFailed | OAborted => BAborted end.

(** ** Rows *)

Record Build := MkBuild {
  b_project : Uuid;
  b_pipeline : option Uuid;
  b_revision : option Z;
  b_generation : option Z;
  b_revision_digest : option string;
  b_key : string;
  b_digest : string;
  b_status : BuildStatus;
  b_priority : Z;
  b_created_at : Z;
  b_completed_at : option Z;
  b_cancelled_at : option Z;
  b_dag_mode : bool;
  b_contract : option Value;
  b_notify_targets : Value;
  b_namespace : option Uuid;
  b_ws_generation : Z;
  b_snapshot : option Value;
  b_receipt : option Value;
  b_closed : bool;
  b_affinity_agent : option string
}.

Record Node := MkNode {
  n_build : Uuid;
  n_key : string;
  n_status : NodeStatus;
  n_capabilities : list string;
  n_trust_pool : string;
  n_priority : Z;
  n_queued_at : Z;
  n_spec : Value;
  n_kind : DagNodeKind;
  n_fail_fast : bool;
  n_max_attempts : Z;
  n_outcome : option LogicalOutcome;
  n_cancelled_at : option Z
}.

Record Attempt := MkAttempt {
  a_node : Uuid;
  a_ordinal : Z;
  a_status : AttemptStatus;
  a_fence : Z;
  a_owner : option string;
  a_expires : option Z;
  a_summary : option Value;
  a_created_at : Z;
  a_completed_at : option Z;
  a_retry_of : option Uuid;
  a_epoch : Z;
  a_ready_at : option Z
}.

Record Dependency := MkDependency {
  d_build : Uuid;
  d_parent : Uuid;
  d_child : Uuid;
  d_condition : DependencyCondition
}.

Record Effect := MkEffect {
  e_attempt : Uuid;
  e_fence : Z;
  e_key : string;
  e_class : EffectClass;
  e_status : EffectStatus;
  e_payload : Value;
  e_outcome : option Value;
  e_reconciliation : option Value;
  e_observation : option Value;
  e_shadow_replay : option Value
}.

Record Event := MkEvent { ev_build : Uuid; ev_kind : string; ev_payload : Value }.

Record Delivery := MkDelivery {
  dl_kind : string;
  dl_mapping : string;
  dl_target : Value;
  dl_build_status : BuildStatus;
  dl_generation : Z;
  dl_repost : bool;
  dl_in_flight : bool;
  dl_state : DeliveryState;
  dl_attempts : Z;
  dl_next_attempt_at : Z;
  dl_last_error : option string;
  dl_delivered_at : option Z;
  dl_rec_attempts : Z;
  dl_rec_due_at : option Z;
  dl_rec_claim : option Uuid;
  dl_rec_lease_until : option Z;
  dl_rec_error : option string
}.

Record Pipeline := MkPipeline {
  p_project : Uuid;
  p_revision : Z;
  p_generation : Z
}.

Record Session := MkSession {
  s_trust_pool : string;
  s_epoch : Z;
  s_features : list string;
  s_capabilities : list string;
  s_updated_at : Z
}.

Record RestorePoint := MkRestorePoint { rp_epoch : Z; rp_lsn : option string }.
Record RestoreEpoch := MkRestoreEpoch {
  re_epoch : Z; re_lsn : string; re_reason : string; re_affected : Z }.

(** The tables; a primary key is the key of its map. *)
Record Db := MkDb {
  builds : gmap Uuid Build;
  nodes : gmap Uuid Node;
  attempts : gmap Uuid Attempt;
  deps : list Dependency;
  effects : list Effect;
  events : list Event;
  deliveries : gmap (Uuid * Z) Delivery;
  dead_letters : gmap Uuid Value;
  pipelines : gmap Uuid Pipeline;
  pipeline_states : gmap (Uuid * Z) string;
  revision_digests : gmap (Uuid * Z) string;
  sessions : gmap string Session;
  restore_points : gmap string RestorePoint;
  restore_epochs : gmap string RestoreEpoch;
  restore_epoch : Z
}.

(** ** Setters *)
Definition rebuilt_build (r : Build) : Build :=
  MkBuild (b_project r) (b_pipeline r) (b_revision r) (b_generation r) (b_revision_digest r)
    (b_key r) (b_digest r) (b_status r) (b_priority r) (b_created_at r) (b_completed_at r)
    (b_cancelled_at r) (b_dag_mode r) (b_contract r) (b_notify_targets r) (b_namespace r)
    (b_ws_generation r) (b_snapshot r) (b_receipt r) (b_closed r) (b_affinity_agent r).
#[export] Instance set_b_status : Update b_status := ltac:(derive_setter rebuilt_build b_status).
#[export] Instance set_b_completed_at : Update b_completed_at := ltac:(derive_setter rebuilt_build b_completed_at).
#[export] Instance set_b_cancelled_at : Update b_cancelled_at := ltac:(derive_setter rebuilt_build b_cancelled_at).
#[export] Instance set_b_namespace : Update b_namespace := ltac:(derive_setter rebuilt_build b_namespace).
#[export] Instance set_b_ws_generation : Update b_ws_generation := ltac:(derive_setter rebuilt_build b_ws_generation).
#[export] Instance set_b_snapshot : Update b_snapshot := ltac:(derive_setter rebuilt_build b_snapshot).
#[export] Instance set_b_receipt : Update b_receipt := ltac:(derive_setter rebuilt_build b_receipt).
#[export] Instance set_b_closed : Update b_closed := ltac:(derive_setter rebuilt_build b_closed).
#[export] Instance set_b_affinity_agent : Update b_affinity_agent := ltac:(derive_setter rebuilt_build b_affinity_agent).

Definition rebuilt_node (r : Node) : Node :=
  MkNode (n_build r) (n_key r) (n_status r) (n_capabilities r) (n_trust_pool r) (n_priority r)
    (n_queued_at r) (n_spec r) (n_kind r) (n_fail_fast r) (n_max_attempts r) (n_outcome r)
    (n_cancelled_at r).
#[export] Instance set_n_status : Update n_status := ltac:(derive_setter rebuilt_node n_status).
#[export] Instance set_n_queued_at : Update n_queued_at := ltac:(derive_setter rebuilt_node n_queued_at).
#[export] Instance set_n_max_attempts : Update n_max_attempts := ltac:(derive_setter rebuilt_node n_max_attempts).
#[export] Instance set_n_outcome : Update n_outcome := ltac:(derive_setter rebuilt_node n_outcome).
#[export] Instance set_n_cancelled_at : Update n_cancelled_at := ltac:(derive_setter rebuilt_node n_cancelled_at).

Definition rebuilt_attempt (r : Attempt) : Attempt :=
  MkAttempt (a_node r) (a_ordinal r) (a_status r) (a_fence r) (a_owner r) (a_expires r)
    (a_summary r) (a_created_at r) (a_completed_at r) (a_retry_of r) (a_epoch r) (a_ready_at r).
#[export] Instance set_a_status : Update a_status := ltac:(derive_setter rebuilt_attempt a_status).
#[export] Instance set_a_fence : Update a_fence := ltac:(derive_setter rebuilt_attempt a_fence).
#[export] Instance set_a_owner : Update a_owner := ltac:(derive_setter rebuilt_attempt a_owner).
#[export] Instance set_a_expires : Update a_expires := ltac:(derive_setter rebuilt_attempt a_expires).
#[export] Instance set_a_summary : Update a_summary := ltac:(derive_setter rebuilt_attempt a_summary).
#[export] Instance set_a_completed_at : Update a_completed_at := ltac:(derive_setter rebuilt_attempt a_completed_at).
#[export] Instance set_a_epoch : Update a_epoch := ltac:(derive_setter rebuilt_attempt a_epoch).
#[export] Instance set_a_ready_at : Update a_ready_at := ltac:(derive_setter rebuilt_attempt a_ready_at).

Definition rebuilt_effect (r : Effect) : Effect :=
  MkEffect (e_attempt r) (e_fence r) (e_key r) (e_class r) (e_status r) (e_payload r)
    (e_outcome r) (e_reconciliation r) (e_observation r) (e_shadow_replay r).
#[export] Instance set_e_status : Update e_status := ltac:(derive_setter rebuilt_effect e_status).

Definition rebuilt_delivery (r : Delivery) : Delivery :=
  MkDelivery (dl_kind r) (dl_mapping r) (dl_target r) (dl_build_status r) (dl_generation r)
    (dl_repost r) (dl_in_flight r) (dl_state r) (dl_attempts r) (dl_next_attempt_at r)
    (dl_last_error r) (dl_delivered_at r) (dl_rec_attempts r) (dl_rec_due_at r) (dl_rec_claim r)
    (dl_rec_lease_until r) (dl_rec_error r).
#[export] Instance set_dl_build_status : Update dl_build_status := ltac:(derive_setter rebuilt_delivery dl_build_status).
#[export] Instance set_dl_generation : Update dl_generation := ltac:(derive_setter rebuilt_delivery dl_generation).
#[export] Instance set_dl_repost : Update dl_repost := ltac:(derive_setter rebuilt_delivery dl_repost).
#[export] Instance set_dl_in_flight : Update dl_in_flight := ltac:(derive_setter rebuilt_delivery dl_in_flight).
#[export] Instance set_dl_state : Update dl_state := ltac:(derive_setter rebuilt_delivery dl_state).
#[export] Instance set_dl_attempts : Update dl_attempts := ltac:(derive_setter rebuilt_delivery dl_attempts).
#[export] Instance set_dl_next_attempt_at : Update dl_next_attempt_at := ltac:(derive_setter rebuilt_delivery dl_next_attempt_at).
#[export] Instance set_dl_last_error : Update dl_last_error := ltac:(derive_setter rebuilt_delivery dl_last_error).
#[export] Instance set_dl_delivered_at : Update dl_delivered_at := ltac:(derive_setter rebuilt_delivery dl_delivered_at).
#[export] Instance set_dl_rec_attempts : Update dl_rec_attempts := ltac:(derive_setter rebuilt_delivery dl_rec_attempts).
#[export] Instance set_dl_rec_due_at : Update dl_rec_due_at := ltac:(derive_setter rebuilt_delivery dl_rec_due_at).
#[export] Instance set_dl_rec_claim : Update dl_rec_claim := ltac:(derive_setter rebuilt_delivery dl_rec_claim).
#[export] Instance set_dl_rec_lease_until : Update dl_rec_lease_until := ltac:(derive_setter rebuilt_delivery dl_rec_lease_until).
#[export] Instance set_dl_rec_error : Update dl_rec_error := ltac:(derive_setter rebuilt_delivery dl_rec_error).

Definition rebuilt_session (r : Session) : Session :=
  MkSession (s_trust_pool r) (s_epoch r) (s_features r) (s_capabilities r) (s_updated_at r).
#[export] Instance set_s_updated_at : Update s_updated_at := ltac:(derive_setter rebuilt_session s_updated_at).

Definition rebuilt_db (r : Db) : Db :=
  MkDb (builds r) (nodes r) (attempts r) (deps r) (effects r) (events r) (deliveries r)
    (dead_letters r) (pipelines r) (pipeline_states r) (revision_digests r) (sessions r)
    (restore_points r) (restore_epochs r) (restore_epoch r).
#[export] Instance set_builds : Update builds := ltac:(derive_setter rebuilt_db builds).
#[export] Instance set_nodes : Update nodes := ltac:(derive_setter rebuilt_db nodes).
#[export] Instance set_attempts : Update attempts := ltac:(derive_setter rebuilt_db attempts).
#[export] Instance set_deps : Update deps := ltac:(derive_setter rebuilt_db deps).
#[export] Instance set_effects : Update effects := ltac:(derive_setter rebuilt_db effects).
#[export] Instance set_events : Update events := ltac:(derive_setter rebuilt_db events).
#[export] Instance set_deliveries : Update deliveries := ltac:(derive_setter rebuilt_db deliveries).
#[export] Instance set_dead_letters : Update dead_letters := ltac:(derive_setter rebuilt_db dead_letters).
#[export] Instance set_sessions : Update sessions := ltac:(derive_setter rebuilt_db sessions).
#[export] Instance set_restore_epochs : Update restore_epochs := ltac:(derive_setter rebuilt_db restore_epochs).
#[export] Instance set_restore_epoch : Update restore_epoch := ltac:(derive_setter rebuilt_db restore_epoch).

(** ** Statements *)

(** [UPDATE t SET f WHERE P]. *)
Definition update_where {A} (P : Uuid -> A -> bool) (f : A -> A) (t : gmap Uuid A) : gmap Uuid A :=
  map_imap (fun k x => Some (if P k x then f x else x)) t.

(** [EXISTS (SELECT 1 FROM t WHERE P)] and [count( * )]. *)
Definition exists_row {A} (P : Uuid -> A -> bool) (t : gmap Uuid A) : bool :=
  existsb (fun kx => P (fst kx) (snd kx)) (map_to_list t).
Definition count_rows {A} (P : Uuid -> A -> bool) (t : gmap Uuid A) : Z :=
  llen (List.filter (fun kx => P (fst kx) (snd kx)) (map_to_list t)).

(** [status IN (...)]. *)
Definition one_status {S} `{EqDecision S} (l : list S) (s : S) : bool := bool_decide (s ∈ l).

Definition settled_node (s : NodeStatus) : bool :=
  one_status [NSucceeded; NFailed; NAborted; NSkipped] s.
Definition terminal_build (s : BuildStatus) : bool :=
  one_status [BSucceeded; BFailed; BAborted] s.
Definition terminal_attempt (s : AttemptStatus) : bool :=
  one_status [ASucceeded; AFailed; AAborted] s.
Definition leased_attempt (s : AttemptStatus) : bool :=
  one_status [AOffered; AAccepted; ARunning; AFinalizing; ACancelling] s.

(** A dependency that keeps its child from running; the join with [nodes]
    drops a dependency whose parent row is missing. *)
Definition unsatisfied (ns : gmap Uuid Node) (d : Dependency) : bool :=
  match ns !! d_parent d with
  | None => false
  | Some p =>
      match d_condition d with
      | Succeeded => negb (bool_decide (n_status p = NSucceeded))
      | Completed => negb (settled_node (n_status p))
      end
  end.

(** [NOT EXISTS] an unsatisfied dependency of [child]. *)
Definition ready (db : Db) (child : Uuid) : bool :=
  negb (existsb (fun d => String.eqb (d_child d) child && unsatisfied (nodes db) d) (deps db)).

(** The trigger [nodes_translate_compatibility_retry_readiness]: what it makes
    of the row [new] that replaces [old]. *)
Definition enters_queue (old new : Node) : bool :=
  negb (bool_decide (n_status old = n_status new)) && one_status [NQueued; NBlocked] (n_status new).

Definition translate_readiness (now : Z) (db : Db) (id : Uuid) (old new : Node) : Node :=
  if negb (enters_queue old new) then new
  else if bool_decide (n_status new = NBlocked) || negb (ready db id)
  then new <| n_status := NBlocked |> <| n_queued_at := n_queued_at old |>
  else new <| n_queued_at := now |>.

(** The newest queued attempt of its node. *)
Definition newest_queued (attempts : gmap Uuid Attempt) (a : Attempt) : bool :=
  bool_decide (a_status a = AQueued)
  && negb (exists_row (fun _ o =>
       bool_decide (a_status o = AQueued) && String.eqb (a_node o) (a_node a)
       && (a_ordinal a <? a_ordinal o)) attempts).

(** What the trigger leaves of a row, and the [ready_at] of an attempt: that of
    the newest queued attempt follows its node into or out of the queue. *)
Definition stepped (now : Z) (P : Uuid -> Node -> bool) (f : Node -> Node) (db : Db) (id : Uuid)
    (n : Node) : Node :=
  if P id n then translate_readiness now db id n (f n) else n.

Definition readiness (now : Z) (P : Uuid -> Node -> bool) (f : Node -> Node) (db : Db)
    (a : Attempt) : option Z :=
  match nodes db !! a_node a with
  | Some n =>
      if P (a_node a) n && enters_queue n (f n) && newest_queued (attempts db) a then
        if bool_decide (n_status (stepped now P f db (a_node a) n) = NBlocked) then None
        else Some (Z.max (a_created_at a) now)
      else a_ready_at a
  | None => a_ready_at a
  end.

Definition readied (r : option Z) (a : Attempt) : Attempt := a <| a_ready_at := r |>.

(** [UPDATE nodes SET f WHERE P] with the trigger. *)
Definition update_nodes (now : Z) (P : Uuid -> Node -> bool) (f : Node -> Node) (db : Db) : Db :=
  db <| attempts := (fun a => readied (readiness now P f db a) a) <$> attempts db |>
     <| nodes := map_imap (fun id n => Some (stepped now P f db id n)) (nodes db) |>.

Definition update_attempts (P : Uuid -> Attempt -> bool) (f : Attempt -> Attempt) (db : Db) : Db :=
  db <| attempts := update_where P f (attempts db) |>.
Definition update_builds (P : Uuid -> Build -> bool) (f : Build -> Build) (db : Db) : Db :=
  db <| builds := update_where P f (builds db) |>.
Definition update_effects (P : Effect -> bool) (f : Effect -> Effect) (db : Db) : Db :=
  db <| effects := (fun e => if P e then f e else e) <$> effects db |>.

(** A condition on the node an attempt belongs to, as the [UPDATE attempts ...
    FROM nodes] statements join them. *)
Definition joined (db : Db) (Q : Uuid -> Node -> bool) (a : Attempt) : bool :=
  match nodes db !! a_node a with Some n => Q (a_node a) n | None => false end.
Definition of_build (build : Uuid) (n : Node) : bool := String.eqb (n_build n) build.

(** ** Errors and PostgreSQL functions *)

(** [StoreError], and a loop cut short by its fuel. *)
Inductive StoreError : Type :=
| Database
| PipelineDisabled (pipeline : Uuid) (generation : Z)
| PipelineStateConflict (message : string)
| InvalidPipelineState (message : string)
| InvalidAgentSession
| SequentialIntegrity (message : string)
| InvalidDag (message : string)
| IdempotencyConflict (message : string)
| InvalidAuditOperation (message : string)
| InvalidRecoveryOperation (message : string)
| InvalidEffectPayload (message : string)
| InvalidTrustPool
| IncompleteAdmission
| CorruptAuditChain (organization : Uuid) (sequence : Z)
| InvalidTriggerIngress (message : string)
| TriggerIngressConflict (message : string)
| TriggerPaused (trigger : Uuid) (generation : Z)
| Unfinished.

(** A transaction: the value it returns and the state it commits. *)
Notation tx A := (result StoreError (A * Db)%type).

(** [hashtextextended] and the text of a [jsonb] value. *)
Class Postgres := {
  hashtextextended : string -> Z -> Z;
  jsonb_text : Value -> string
}.

(** [v -> name] and [v ->> name]. *)
Definition field (v : Value) (name : string) : option Value :=
  match v with VObject m => bget name m | _ => None end.
Definition field_text `{Postgres} (v : Value) (name : string) : option string :=
  match field v name with
  | None | Some VNull => None
  | Some (VString s) => Some s
  | Some (VNumber t) => Some t
  | Some (VBool b) => Some (if b then "true" else "false")%string
  | Some v => Some (jsonb_text v)
  end.
Definition json_z (z : Z) : Value := VNumber (fmt_z z).

(** Equality of JSON values. *)
Fixpoint value_eqb (v w : Value) : bool :=
  match v, w with
  | VNull, VNull => true
  | VBool a, VBool b => Bool.eqb a b
  | VNumber s, VNumber t | VString s, VString t => String.eqb s t
  | VArray l, VArray m =>
      (fix go l m := match l, m with
       | [], [] => true
       | x :: l, y :: m => value_eqb x y && go l m
       | _, _ => false
       end) l m
  | VObject l, VObject m =>
      (fix go l m := match l, m with
       | [], [] => true
       | (k, x) :: l, (k', y) :: m => String.eqb k k' && value_eqb x y && go l m
       | _, _ => false
       end) l m
  | _, _ => false
  end.

(** ** Events *)

Definition validate_audit_actor (actor : string) : result StoreError () :=
  check (is_empty actor || (512 <? slen actor) || negb (String.eqb (trim actor) actor)
         || existsb char_is_control (chars actor))
    (InvalidAuditOperation "audit actor subject must be non-empty, canonical, and bounded").

Definition append_event_and_outbox (build : Uuid) (kind : string) (payload : Value) (db : Db) : Db :=
  db <| events := events db ++ [MkEvent build kind payload] |>.

(** ** Pipelines and sessions *)

Definition lock_build_pipeline_truth (db : Db) (build : Uuid) :
    result StoreError (Uuid * Z * Z * string) :=
  match b ← builds db !! build; p ← b_pipeline b; g ← b_generation b; Some (p, g) with
  | None => Err (PipelineStateConflict
                   "build is missing its pipeline operational-state binding")
  | Some (pipeline, admitted) =>
      match p ← pipelines db !! pipeline;
            s ← pipeline_states db !! (pipeline, p_generation p);
            Some (p_generation p, s) with
      | None => Err (PipelineStateConflict
                       "build pipeline operational-state truth is missing")
      | Some (current, state) => Ok (pipeline, admitted, current, state)
      end
  end.

Definition lock_enabled_build_pipeline (db : Db) (build : Uuid) : result StoreError (Uuid * Z) :=
  truth ← lock_build_pipeline_truth db build;
  let '(pipeline, admitted, current, state) := truth in
  if String.eqb state "disabled" then Err (PipelineDisabled pipeline current)
  else if negb (String.eqb state "enabled")
  then Err (InvalidPipelineState
              ("stored pipeline operational state '" +:+ state +:+ "' is invalid"))
  else if negb (current =? admitted)
  then Err (PipelineStateConflict
              ("build pipeline generation " +:+ fmt_z admitted
               +:+ " is stale; current generation is " +:+ fmt_z current))
  else Ok (pipeline, current).

(** The [match] on the lock that several transactions share. *)
Definition pipeline_enabled (db : Db) (build : Uuid) : result StoreError bool :=
  match lock_enabled_build_pipeline db build with
  | Ok _ => Ok true
  | Err (PipelineDisabled _ _) | Err (PipelineStateConflict _) => Ok false
  | Err e => Err e
  end.

Definition lock_enabled_pipeline_binding (db : Db) (project pipeline : Uuid)
    (revision generation : Z) : result StoreError string :=
  check ((revision <=? 0) || (generation <=? 0))
    (InvalidPipelineState
       "pipeline admission binding must use positive revision and generation") ;;
  match p ← pipelines db !! pipeline;
        s ← pipeline_states db !! (pipeline, p_generation p);
        d ← revision_digests db !! (pipeline, p_revision p);
        if String.eqb (p_project p) project then Some (p, s, d) else None with
  | None => Err (PipelineStateConflict
                   "pipeline admission binding does not identify a saved pipeline")
  | Some (p, state, digest) =>
      if String.eqb state "disabled" then Err (PipelineDisabled pipeline (p_generation p))
      else if negb (String.eqb state "enabled")
      then Err (InvalidPipelineState
                  ("stored pipeline operational state '" +:+ state +:+ "' is invalid"))
      else if negb (p_revision p =? revision) || negb (p_generation p =? generation)
      then Err (PipelineStateConflict
                  ("pipeline admission binding is stale: current revision/generation is "
                   +:+ fmt_z (p_revision p) +:+ "/" +:+ fmt_z (p_generation p)))
      else if negb (slen digest =? 32)
      then Err (PipelineStateConflict "saved pipeline revision digest is not SHA-256 sized")
      else Ok digest
  end.

(** A session epoch is a [u64] the query binds as an [i64]. *)
Definition session_epoch_i64 (epoch : Z) : result StoreError Z :=
  if epoch <=? i64_max then Ok epoch else Err InvalidAgentSession.

Definition lock_agent_session (db : Db) (agent : string) (epoch : Z) : result StoreError bool :=
  epoch ← session_epoch_i64 epoch;
  Ok (match sessions db !! agent with Some s => s_epoch s =? epoch | None => false end).

(** The check that opens a transaction of an agent; [None] is a caller
    without a session. *)
Definition in_session (db : Db) (agent : string) (epoch : option Z) : result StoreError bool :=
  match epoch with
  | None => Ok true
  | Some epoch => lock_agent_session db agent epoch
  end.

Definition open_agent_session (now : Z) (agent trust_pool : string) (epoch : Z)
    (features capabilities : list string) (db : Db) : tx bool :=
  epoch ← session_epoch_i64 epoch;
  check (epoch <=? 0) Database ;;
  let opened := db <| sessions :=
    <[agent := MkSession trust_pool epoch features capabilities now]> (sessions db) |> in
  match sessions db !! agent with
  | Some s => if s_epoch s <? epoch then Ok (true, opened) else Ok (false, db)
  | None => Ok (true, opened)
  end.

Definition authorize_agent_session (now : Z) (agent : string) (epoch : Z) (db : Db) : tx bool :=
  epoch ← session_epoch_i64 epoch;
  match sessions db !! agent with
  | Some s =>
      if s_epoch s =? epoch
      then Ok (true, db <| sessions := <[agent := s <| s_updated_at := now |>]> (sessions db) |>)
      else Ok (false, db)
  | None => Ok (false, db)
  end.

(** ** Lemmas on statements *)

Lemma lookup_update_where {A} P (f : A -> A) t k :
  update_where P f t !! k = (fun x => if P k x then f x else x) <$> t !! k.
Proof. unfold update_where. rewrite map_lookup_imap. by destruct (t !! k). Qed.

Lemma exists_row_true {A} (P : Uuid -> A -> bool) t :
  exists_row P t = true <-> exists k x, t !! k = Some x /\ P k x = true.
Proof.
  unfold exists_row. rewrite existsb_exists. split.
  - intros ([k x] & Hin & HP). exists k, x. split; [|done].
    by apply elem_of_map_to_list, list_elem_of_In.
  - intros (k & x & Hk & HP). exists (k, x). split; [|done].
    by apply list_elem_of_In, elem_of_map_to_list.
Qed.

Lemma exists_row_false {A} (P : Uuid -> A -> bool) t :
  exists_row P t = false <-> forall k x, t !! k = Some x -> P k x = false.
Proof.
  rewrite <- not_true_iff_false, exists_row_true. split.
  - intros H k x Hk. apply not_true_iff_false. intros HP. apply H. eauto.
  - intros H (k & x & Hk & HP). rewrite (H k x Hk) in HP. done.
Qed.

Lemma count_rows_zero {A} (P : Uuid -> A -> bool) t :
  (count_rows P t =? 0) = negb (exists_row P t).
Proof.
  unfold count_rows, exists_row, llen.
  induction (map_to_list t) as [|x l IH]; simpl; [done|].
  destruct (P (fst x) (snd x)); simpl; done.
Qed.

Lemma count_rows_pos {A} (P : Uuid -> A -> bool) t : (0 <? count_rows P t) = exists_row P t.
Proof.
  rewrite <- (negb_involutive (exists_row P t)), <- count_rows_zero.
  assert (0 <= count_rows P t) by (unfold count_rows, llen; lia).
  destruct (Z.eqb_spec (count_rows P t) 0); simpl; [apply Z.ltb_ge | apply Z.ltb_lt]; lia.
Qed.

Lemma lookup_nodes_update_nodes now P f db k :
  nodes (update_nodes now P f db) !! k = stepped now P f db k <$> nodes db !! k.
Proof.
  unfold update_nodes. cbn. rewrite map_lookup_imap. by destruct (nodes db !! k).
Qed.

Lemma lookup_attempts_update_nodes now P f db i :
  attempts (update_nodes now P f db) !! i =
  (fun a => readied (readiness now P f db a) a) <$> attempts db !! i.
Proof. unfold update_nodes. cbn. by rewrite lookup_fmap. Qed.

Lemma lookup_attempts_update_attempts P f db i :
  attempts (update_attempts P f db) !! i =
  (fun a => if P i a then f a else a) <$> attempts db !! i.
Proof. unfold update_attempts. cbn. apply lookup_update_where. Qed.

Lemma lookup_builds_update_builds P f db k :
  builds (update_builds P f db) !! k = (fun b => if P k b then f b else b) <$> builds db !! k.
Proof. unfold update_builds. cbn. apply lookup_update_where. Qed.

Fixpoint value_eqb_refl (v : Value) : value_eqb v v = true.
Proof.
  destruct v as [|[]| | |l|m]; simpl; try done; try apply String.eqb_refl.
  - induction l as [|x l IH]; [done|]. by rewrite value_eqb_refl, IH.
  - induction m as [|[k x] m IH]; [done|]. by rewrite String.eqb_refl, value_eqb_refl, IH.
Qed.
