(* ===== verification/AuditChain.v ===== *)
(** * The tenant audit chain (controller-store/src/audit.rs)

    One organization's [audit_events], [audit_chain_heads] and
    [audit_retention_policies] rows (migration 11), the append every module of
    the store goes through, the export, the bounded page and their verifiers.
    An event's hash covers the event and the hash before it. The rows are kept
    in insertion order; a query that orders by [sequence] sorts them. The event
    id is [Uuid::new_v4()] and the time the system clock, both arguments, in
    [Stamp]. A [Uuid] is its hyphenated text, [as_bytes] what [Uuid::parse_str]
    reads from it. *)

From stdpp Require Import base gmap list sorting strings.
From Stdlib Require Import Ascii ZArith Lia.
From S2P Require Import Prelude Text Bytes Domain DagContract StoreTables.

Open Scope Z_scope.

(** ** Rows *)

Definition ZERO_HASH : string := srepeat "000" 32.
Definition MAX_AUDIT_EXPORT : Z := 100000.
Definition MAX_AUDIT_PAGE : Z := 10000.

Record AuditEvent := MkAuditEvent {
  ae_sequence : Z;
  ae_event_id : Uuid;
  ae_category : string;
  ae_actor_subject : string;
  ae_action : string;
  ae_subject : string;
  ae_payload : Value;
  ae_occurred_at_unix_ms : Z;
  ae_previous_hash : string;
  ae_event_hash : string
}.

Record AuditRetentionPolicy := MkRetention {
  retain_until_unix_ms : Z;
  legal_hold : bool
}.

Record AuditTables := MkAuditTables {
  at_head : option (Z * string);
  at_events : list AuditEvent;
  at_retention : option AuditRetentionPolicy
}.

Record AuditExport := MkAuditExport {
  ax_organization : Uuid;
  ax_events : list AuditEvent;
  ax_next_sequence : Z;
  ax_head_hash : string;
  ax_retention : option AuditRetentionPolicy
}.

Record AuditPage := MkAuditPage {
  ap_organization : Uuid;
  ap_after_sequence : Z;
  ap_previous_hash : string;
  ap_events : list AuditEvent;
  ap_next_after_sequence : option Z;
  ap_chain_next_sequence : Z;
  ap_chain_head_hash : string;
  ap_retention : option AuditRetentionPolicy
}.

Definition empty_audit : AuditTables := MkAuditTables None [] None.

(** [Uuid::new_v4()] and [SystemTime::now()], in milliseconds since the epoch. *)
Record Stamp := MkStamp { st_event_id : Uuid; st_clock : Z }.

(** What a [jsonb] column or parameter reads back as. *)
Class AuditJson := { jsonb : Value -> Value }.

(** [jsonb] stores one representation of a value, and [serde_json] writes
    different bytes for different values. *)
Class AuditJsonLaws `{DagExternal} (J : AuditJson) : Prop := {
  jsonb_stored v : jsonb (jsonb v) = jsonb v;
  json_to_vec_inj v w b : json_to_vec v = Ok b -> json_to_vec w = Ok b -> v = w
}.

(** ** Hashing *)

Section Chain.
Context `{External} `{DagExternal} `{AuditJson}.

Definition uuid_bytes (u : Uuid) : string := default "" (uuid_parse u).

Definition hash_event_preimage (organization : Uuid) (e : AuditEvent) (payload : string) : string :=
  "mcloving-audit-v1" +:+ nul +:+ uuid_bytes organization +:+ i64_bytes (ae_sequence e)
  +:+ uuid_bytes (ae_event_id e) +:+ framed (ae_category e) +:+ framed (ae_actor_subject e)
  +:+ framed (ae_action e) +:+ framed (ae_subject e) +:+ framed payload
  +:+ i64_bytes (ae_occurred_at_unix_ms e) +:+ ae_previous_hash e.

(** The hash of an event's fields; its own [ae_event_hash] is not among them. *)
Definition hash_event (organization : Uuid) (e : AuditEvent) : result StoreError string :=
  payload ← map_err (fun m => InvalidAuditOperation ("audit payload is not serializable: " +:+ m))
    (json_to_vec (ae_payload e));
  Ok (sha256 (hash_event_preimage organization e payload)).

Definition digest_array (value : string) : result StoreError string :=
  check (negb (slen value =? 32))
    (InvalidAuditOperation "audit digest is not exactly 32 bytes") ;;
  Ok value.

Definition verify_audit_event_hash (organization : Uuid) (e : AuditEvent) :
    result StoreError () :=
  expected ← hash_event organization e;
  check (negb (String.eqb (ae_event_hash e) expected))
    (CorruptAuditChain organization (ae_sequence e)).

(** ** Appending *)

Definition validate_field (f : string * string * Z) : result StoreError () :=
  let '(label, value, max) := f in
  check (is_empty value || (max <? slen value) || existsb char_is_control (chars value))
    (InvalidAuditOperation ("audit " +:+ label +:+ " is outside its bounds")).

Definition validate_fields (category actor action subject : string) : result StoreError () :=
  try_for validate_field
    [("category", category, 64); ("actor subject", actor, 512);
     ("action", action, 128); ("subject", subject, 1024)].

(** The head row, seeded with the column defaults when it is missing. *)
Definition seeded_head (t : AuditTables) : Z * string := default (1, ZERO_HASH) (at_head t).

Definition lock_audit_head (t : AuditTables) : AuditTables :=
  MkAuditTables (Some (seeded_head t)) (at_events t) (at_retention t).

(** [PRIMARY KEY (sequence)], [UNIQUE (event_id)], [UNIQUE (event_hash)]. *)
Definition same_audit_key (e e' : AuditEvent) : bool :=
  (ae_sequence e =? ae_sequence e') || String.eqb (ae_event_id e) (ae_event_id e')
  || String.eqb (ae_event_hash e) (ae_event_hash e').

(** The stored row: its payload is a [jsonb] column. *)
Definition stored_event (e : AuditEvent) : AuditEvent :=
  MkAuditEvent (ae_sequence e) (ae_event_id e) (ae_category e) (ae_actor_subject e)
    (ae_action e) (ae_subject e) (jsonb (ae_payload e)) (ae_occurred_at_unix_ms e)
    (ae_previous_hash e) (ae_event_hash e).

Definition insert_audit_event (e : AuditEvent) (t : AuditTables) : result StoreError AuditTables :=
  check (existsb (same_audit_key e) (at_events t)) Database ;;
  check (i64_max <? ae_sequence e + 1) Database ;;
  Ok (MkAuditTables (Some (ae_sequence e + 1, ae_event_hash e))
        (at_events t ++ [stored_event e]) (at_retention t)).

Definition append_audit_record (organization : Uuid) (category actor action subject : string)
    (payload : Value) (stamp : Stamp) (t : AuditTables) :
    result StoreError (AuditEvent * AuditTables) :=
  validate_fields category actor action subject ;;
  let (sequence, head) := seeded_head t in
  previous ← digest_array head;
  check (st_clock stamp <? 0)
    (InvalidAuditOperation "system clock precedes the Unix epoch") ;;
  check (i64_max <? st_clock stamp) (InvalidAuditOperation "audit timestamp overflow") ;;
  let fields hash := MkAuditEvent sequence (st_event_id stamp) category actor action subject
    (jsonb payload) (st_clock stamp) previous hash in
  hash ← hash_event organization (fields "");
  t ← insert_audit_event (fields hash) t;
  Ok (fields hash, t).

Definition append_audit_event (organization : Uuid) (category actor action subject : string)
    (payload : Value) (stamp : Stamp) (t : AuditTables) :
    result StoreError (AuditEvent * AuditTables) :=
  validate_fields category actor action subject ;;
  append_audit_record organization category actor action subject payload stamp t.

Definition audit_category_for_event (kind : string) : string :=
  if contains_str "credential" kind then "credential_grant"
  else if contains_str "approval" kind || contains_str "approved" kind then "approval"
  else if contains_str "artifact" kind || contains_str "object" kind then "artifact"
  else "scheduling".

(** The audit half of a build event; its [build_events] row is
    [append_event_and_outbox]. *)
Definition append_audit_record_for_build_event (organization build : Uuid)
    (category actor kind : string) (payload : Value) (stamp : Stamp) (t : AuditTables) :
    result StoreError (AuditEvent * AuditTables) :=
  append_audit_record organization category actor kind ("build:" +:+ build) payload stamp t.

(** ** Retention *)

Definition upsert_retention (init : AuditRetentionPolicy)
    (f : AuditRetentionPolicy -> AuditRetentionPolicy) (t : AuditTables) :
    AuditRetentionPolicy * AuditTables :=
  let policy := match at_retention t with Some p => f p | None => init end in
  (policy, MkAuditTables (at_head t) (at_events t) (Some policy)).

Definition extend_audit_retention (organization : Uuid) (until : Z) (stamp : Stamp)
    (t : AuditTables) : result StoreError (AuditRetentionPolicy * AuditTables) :=
  check (until <? 0)
    (InvalidAuditOperation "audit retention timestamp must be non-negative") ;;
  let (policy, t) := upsert_retention (MkRetention until false)
    (fun p => MkRetention (Z.max (retain_until_unix_ms p) until) (legal_hold p))
    (lock_audit_head t) in
  appended ← append_audit_record organization "admin" "system:controller"
    "audit.retention.extended" "tenant:self"
    (VObject [("retain_until_unix_ms", json_z (retain_until_unix_ms policy))]) stamp t;
  Ok (policy, appended.2).

Definition set_audit_legal_hold (organization : Uuid) (hold : bool) (stamp : Stamp)
    (t : AuditTables) : result StoreError (AuditRetentionPolicy * AuditTables) :=
  let (policy, t) := upsert_retention (MkRetention 0 hold)
    (fun p => MkRetention (retain_until_unix_ms p) hold) (lock_audit_head t) in
  appended ← append_audit_record organization "admin" "system:controller"
    (if hold then "audit.legal_hold.placed" else "audit.legal_hold.released") "tenant:self"
    (VObject [("legal_hold", VBool hold)]) stamp t;
  Ok (policy, appended.2).

(** ** Reading *)

Definition by_sequence (e e' : AuditEvent) : Prop := ae_sequence e <= ae_sequence e'.
#[global] Instance by_sequence_dec : RelDecision by_sequence.
Proof. intros e e'. apply Z.le_dec. Defined.

(** [ORDER BY sequence]. *)
Definition ordered_events (l : list AuditEvent) : list AuditEvent := merge_sort by_sequence l.

Definition event_from_row (e : AuditEvent) : result StoreError AuditEvent :=
  digest_array (ae_previous_hash e) ;; digest_array (ae_event_hash e) ;; Ok e.

Fixpoint collect_rows (rows : list AuditEvent) : result StoreError (list AuditEvent) :=
  match rows with
  | [] => Ok []
  | row :: rows => e ← event_from_row row; l ← collect_rows rows; Ok (e :: l)
  end.

Definition export_audit_events (organization : Uuid) (t : AuditTables) :
    result StoreError (AuditExport * AuditTables) :=
  let t := lock_audit_head t in
  let rows := take (Z.to_nat (MAX_AUDIT_EXPORT + 1)) (ordered_events (at_events t)) in
  check (MAX_AUDIT_EXPORT <? llen rows)
    (InvalidAuditOperation "audit export exceeds its bounded event limit") ;;
  events ← collect_rows rows;
  let (next, head) := seeded_head t in
  head ← digest_array head;
  Ok (MkAuditExport organization events next head (at_retention t), t).

(** The loop of both verifiers; [advance] is how it counts. *)
Fixpoint verify_events (advance : Z -> result StoreError Z) (organization : Uuid)
    (expected : Z) (previous : string) (events : list AuditEvent) :
    result StoreError (Z * string) :=
  match events with
  | [] => Ok (expected, previous)
  | e :: events =>
      check (negb (ae_sequence e =? expected) || negb (String.eqb (ae_previous_hash e) previous))
        (CorruptAuditChain organization (ae_sequence e)) ;;
      verify_audit_event_hash organization e ;;
      expected ← advance expected;
      verify_events advance organization expected (ae_event_hash e) events
  end.

Definition verify_audit_export (x : AuditExport) : result StoreError () :=
  last ← verify_events (fun z => Ok (z + 1)) (ax_organization x) 1 ZERO_HASH (ax_events x);
  let '(expected, previous) := last in
  check (negb (ax_next_sequence x =? expected) || negb (String.eqb (ax_head_hash x) previous))
    (CorruptAuditChain (ax_organization x) expected).

Definition checked_next (z : Z) : result StoreError Z :=
  ok_or (checked_add_i64 z 1) (InvalidAuditOperation "audit page sequence overflow").

Definition verify_audit_page (p : AuditPage) : result StoreError () :=
  first ← checked_next (ap_after_sequence p);
  reached ← verify_events checked_next (ap_organization p) first (ap_previous_hash p)
    (ap_events p);
  let '(expected, previous) := reached in
  match ap_next_after_sequence p with
  | Some cursor =>
      check (negb (bool_decide (ae_sequence <$> last (ap_events p) = Some cursor))
             || (ap_chain_next_sequence p <=? expected))
        (CorruptAuditChain (ap_organization p) expected)
  | None =>
      check (negb (expected =? ap_chain_next_sequence p)
             || negb (String.eqb previous (ap_chain_head_hash p)))
        (CorruptAuditChain (ap_organization p) expected)
  end.

Definition verify_audit_chain (organization : Uuid) (t : AuditTables) :
    result StoreError (AuditExport * AuditTables) :=
  exported ← export_audit_events organization t;
  verify_audit_export exported.1 ;;
  Ok exported.

(** [after_sequence] is an [i64] and [limit] a [u32]. *)
Definition export_audit_page (organization : Uuid) (after limit : Z) (t : AuditTables) :
    result StoreError (AuditPage * AuditTables) :=
  check ((after <? 0) || (limit =? 0) || (MAX_AUDIT_PAGE <? limit))
    (InvalidAuditOperation "audit page cursor or limit is outside its bounds") ;;
  let t := lock_audit_head t in
  let (next, last_hash) := seeded_head t in
  check (next <=? after)
    (InvalidAuditOperation "audit page cursor is beyond the chain head") ;;
  previous ←
    (if after =? 0 then Ok ZERO_HASH
     else e ← ok_or (head (filter (fun e => ae_sequence e = after) (at_events t)))
            (InvalidAuditOperation "audit page cursor does not identify a chain event");
          digest_array (ae_event_hash e));
  let rows := take (Z.to_nat (limit + 1))
    (ordered_events (filter (fun e => after < ae_sequence e) (at_events t))) in
  let has_more := limit <? llen rows in
  events ← collect_rows (if has_more then take (Z.to_nat limit) rows else rows);
  let cursor := if has_more then ae_sequence <$> last events else None in
  last_hash ← digest_array last_hash;
  let page := MkAuditPage organization after previous events cursor next last_hash (at_retention t) in
  verify_audit_page page ;;
  Ok (page, t).

End Chain.
