(* ===== verification/AuditHistory.v ===== *)
(** * What the audit chain guarantees

    [linked] is the chain a verifier accepts, said without the loop. Every
    history of appends, retention changes and reads keeps the table linked up to
    its head, so the export and every page verify; a page holds exactly the
    events after its cursor; a head hash and length that verify pin down every
    event before them, up to a SHA-256 collision. *)

From stdpp Require Import base gmap list sorting strings.
From Stdlib Require Import Ascii ZArith Lia.
From S2P Require Import Prelude Text Bytes Domain DagContract StoreTables AuditChain.

Open Scope Z_scope.

Section Linked.
Context `{External} `{DagExternal}.

(** ** The chain *)

Inductive linked (organization : Uuid) : Z -> string -> list AuditEvent -> Prop :=
| linked_nil n previous : linked organization n previous []
| linked_cons n previous e events :
    ae_sequence e = n -> ae_previous_hash e = previous ->
    hash_event organization e = Ok (ae_event_hash e) ->
    linked organization (n + 1) (ae_event_hash e) events ->
    linked organization n previous (e :: events).

Definition chain_hash (previous : string) (events : list AuditEvent) : string :=
  from_option ae_event_hash previous (last events).

Lemma chain_hash_cons previous e events :
  chain_hash previous (e :: events) = chain_hash (ae_event_hash e) events.
Proof. unfold chain_hash. rewrite last_cons. by destruct (last events). Qed.

Lemma chain_hash_snoc previous events e : chain_hash previous (events ++ [e]) = ae_event_hash e.
Proof. unfold chain_hash. by rewrite last_snoc. Qed.

Lemma linked_app org n previous l k :
  linked org n previous (l ++ k) <->
  linked org n previous l /\ linked org (n + llen l) (chain_hash previous l) k.
Proof.
  revert n previous. induction l as [|e l IH]; intros n previous; cbn [app].
  { unfold llen. simpl. rewrite Z.add_0_r. split; [split; [constructor|done]|tauto]. }
  rewrite chain_hash_cons. replace (n + llen (e :: l)) with (n + 1 + llen l)
    by (unfold llen; simpl; lia).
  split.
  - inversion 1; subst. destruct (IH (ae_sequence e + 1) (ae_event_hash e)) as [[? ?] _]; [done|].
    split; [by constructor|done].
  - intros [Hl ?]. inversion Hl; subst. constructor; [done..|]. by apply IH.
Qed.

Lemma linked_sequence org n previous l i e :
  linked org n previous l -> l !! i = Some e -> ae_sequence e = n + Z.of_nat i.
Proof.
  intros Hl. revert i. induction Hl; intros [|i]; simpl; [done..| |].
  - intros [= <-]. lia.
  - intros Hi. rewrite (IHHl i Hi). lia.
Qed.

Lemma verify_hash_ok org e :
  verify_audit_event_hash org e = Ok tt <-> hash_event org e = Ok (ae_event_hash e).
Proof.
  unfold verify_audit_event_hash. rewrite bind_ok. split.
  - intros (h & -> & Hc%check_ok). bool_prop. by subst.
  - intros ->. eexists. split; [done|]. apply check_ok. by rewrite String.eqb_refl.
Qed.

(** ** The verifiers, exactly *)

Lemma verify_events_sound advance org n previous l n' p' :
  (forall z z', advance z = Ok z' -> z' = z + 1) ->
  verify_events advance org n previous l = Ok (n', p') ->
  linked org n previous l /\ n' = n + llen l /\ p' = chain_hash previous l.
Proof.
  intros Ha. revert n previous. induction l as [|e l IH]; intros n previous; cbn [verify_events].
  { intros [= <- <-]. unfold llen, chain_hash. simpl. split; [constructor|]. split; [lia|done]. }
  rewrite seq_ok, seq_ok, bind_ok. intros (Hc%check_ok & Hh%verify_hash_ok & z & Hz & Hv).
  bool_prop. apply Ha in Hz as ->. apply IH in Hv as (Hl & -> & ->).
  rewrite chain_hash_cons. split; [by constructor|]. split; [unfold llen; simpl; lia|done].
Qed.

Lemma verify_events_complete advance org n previous l :
  (forall z, n <= z < n + llen l -> advance z = Ok (z + 1)) ->
  linked org n previous l ->
  verify_events advance org n previous l = Ok (n + llen l, chain_hash previous l).
Proof.
  intros Ha Hl. induction Hl as [n p|n p e l Hs Hp Hh Hl IH].
  { cbn. unfold llen, chain_hash. simpl. by rewrite Z.add_0_r. }
  cbn [verify_events]. rewrite Hs, Hp, Z.eqb_refl, String.eqb_refl. cbn.
  rewrite (proj2 (verify_hash_ok org e) Hh). cbn.
  rewrite Ha by (unfold llen; simpl; lia). cbn. rewrite IH.
  - rewrite chain_hash_cons. do 2 f_equal. unfold llen. simpl. lia.
  - intros z Hz. apply Ha. unfold llen in *. simpl. lia.
Qed.

Definition chain_verified (x : AuditExport) : Prop :=
  linked (ax_organization x) 1 ZERO_HASH (ax_events x) /\
  ax_next_sequence x = 1 + llen (ax_events x) /\
  ax_head_hash x = chain_hash ZERO_HASH (ax_events x).

Lemma verify_audit_export_ok x : verify_audit_export x = Ok tt <-> chain_verified x.
Proof.
  unfold verify_audit_export, chain_verified. rewrite bind_ok. split.
  - intros ([n p] & Hv & Hc%check_ok).
    apply verify_events_sound in Hv as (Hl & -> & ->); [|by intros ? ? [= <-]].
    bool_prop. by subst.
  - intros (Hl & Hn & Hh). eexists. split; [by apply verify_events_complete|].
    cbn. rewrite Hn, Hh, Z.eqb_refl, String.eqb_refl. done.
Qed.

End Linked.

(** ** Histories *)

(** One committed call on the chain, by the public operation or by another
    module of the store; a call that fails is rolled back. *)
Inductive AuditCall : Type :=
| AppendEvent (category actor action subject : string) (payload : Value) (stamp : Stamp)
| AppendAudit (category actor action subject : string) (payload : Value) (stamp : Stamp)
| ExtendRetention (until : Z) (stamp : Stamp)
| SetLegalHold (hold : bool) (stamp : Stamp)
| ExportAudit
| ReadPage (after limit : Z).

Section History.
Context `{ExternalLaws} `{DagExternal} `{!AuditJson} `{!AuditJsonLaws _}.

Definition committed {A} (t : AuditTables) (r : result StoreError (A * AuditTables)) : AuditTables :=
  match r with Ok (_, t') => t' | Err _ => t end.

Definition audit_call (organization : Uuid) (t : AuditTables) (c : AuditCall) : AuditTables :=
  match c with
  | AppendEvent category actor action subject payload stamp =>
      committed t (append_audit_event organization category actor action subject payload stamp t)
  | AppendAudit category actor action subject payload stamp =>
      committed t (append_audit_record organization category actor action subject payload stamp t)
  | ExtendRetention until stamp => committed t (extend_audit_retention organization until stamp t)
  | SetLegalHold hold stamp => committed t (set_audit_legal_hold organization hold stamp t)
  | ExportAudit => committed t (export_audit_events organization t)
  | ReadPage after limit => committed t (export_audit_page organization after limit t)
  end.

Definition audit_history (organization : Uuid) (calls : list AuditCall) : AuditTables :=
  fold_left (audit_call organization) calls empty_audit.

(** The table is linked up to its head, the head is the last event's hash and
    every hash is a digest. *)
Record chain_ok (organization : Uuid) (t : AuditTables) : Prop := {
  ok_linked : linked organization 1 ZERO_HASH (at_events t);
  ok_head : seeded_head t = (1 + llen (at_events t), chain_hash ZERO_HASH (at_events t));
  ok_digests : Forall (fun e => slen (ae_previous_hash e) = 32 /\ slen (ae_event_hash e) = 32)
                 (at_events t);
  ok_length : 1 + llen (at_events t) <= i64_max
}.

Lemma digest_array_ok s d : digest_array s = Ok d <-> d = s /\ slen s = 32.
Proof.
  unfold digest_array. rewrite seq_ok, check_ok. split.
  - intros [? [= <-]]. by bool_prop.
  - intros [-> ->]. done.
Qed.

Lemma hash_event_length org e h : hash_event org e = Ok h -> slen h = 32.
Proof.
  unfold hash_event. rewrite bind_ok. intros (b & _ & [= <-]). unfold slen. by rewrite sha256_length.
Qed.

(** The hash of an event ignores the hash it carries, and storing a canonical
    payload keeps it. *)
Lemma hash_event_stored org e p h :
  ae_payload e = jsonb p ->
  hash_event org (stored_event (MkAuditEvent (ae_sequence e) (ae_event_id e) (ae_category e)
    (ae_actor_subject e) (ae_action e) (ae_subject e) (ae_payload e) (ae_occurred_at_unix_ms e)
    (ae_previous_hash e) h)) = hash_event org e.
Proof. intros Hp. unfold hash_event, stored_event. cbn. by rewrite Hp, jsonb_stored. Qed.

(** What one append does: a row at the end, linked to the head it found. *)
Lemma append_audit_record_ok org category actor action subject payload stamp t e t' :
  chain_ok org t ->
  append_audit_record org category actor action subject payload stamp t = Ok (e, t') ->
  chain_ok org t' /\ at_events t' = at_events t ++ [stored_event e] /\
  at_retention t' = at_retention t /\ ae_sequence e = 1 + llen (at_events t) /\
  slen (ae_event_hash e) = 32 /\ hash_event org e = Ok (ae_event_hash e) /\
  Ok () = validate_fields category actor action subject /\
  (ae_category e, ae_actor_subject e, ae_action e, ae_subject e, ae_payload e)
    = (category, actor, action, subject, jsonb payload).
Proof.
  intros Hok. unfold append_audit_record. rewrite seq_ok. intros [Hf Hr].
  rewrite (ok_head _ _ Hok) in Hr. cbv zeta in Hr.
  rewrite bind_ok in Hr. destruct Hr as (p & [-> Hp]%digest_array_ok & Hr).
  rewrite !seq_ok, bind_ok in Hr. destruct Hr as (_ & _ & h & Hh & Hr).
  rewrite bind_ok in Hr. destruct Hr as (t1 & Ht & [= <- <-]).
  unfold insert_audit_event in Ht. rewrite !seq_ok, !check_ok in Ht.
  destruct Ht as (Hk & Hb & [= <-]). cbn in *. bool_prop.
  pose proof (hash_event_length _ _ _ Hh) as H32.
  assert (hash_event org (stored_event (MkAuditEvent (1 + llen (at_events t)) (st_event_id stamp)
    category actor action subject (jsonb payload) (st_clock stamp)
    (chain_hash ZERO_HASH (at_events t)) h)) = Ok h) as Hs.
  { rewrite <- Hh. by eapply (hash_event_stored org (MkAuditEvent _ _ _ _ _ _ _ _ _ _)). }
  split; [|by rewrite Hf].
  destruct Hok as [Hl _ Hd _]. split; cbn [at_events at_head at_retention].
  - apply linked_app. split; [done|]. repeat (constructor; try done).
  - rewrite chain_hash_snoc. unfold seeded_head. cbn. f_equal. unfold llen.
    rewrite length_app. simpl. lia.
  - apply Forall_app. split; [done|]. repeat constructor; done.
  - unfold llen in *. rewrite length_app. simpl. lia.
Qed.

Lemma lock_audit_head_ok org t : chain_ok org t -> chain_ok org (lock_audit_head t).
Proof. intros [? Hh ? ?]. split; [done|exact Hh|done..]. Qed.

Lemma empty_audit_ok org : chain_ok org empty_audit.
Proof. split; [constructor|done|constructor|done]. Qed.

Lemma upsert_retention_ok org init f t :
  chain_ok org t -> chain_ok org (upsert_retention init f (lock_audit_head t)).2.
Proof. intros [? Hh ? ?]. split; [done|exact Hh|done..]. Qed.
(** ** Reading a linked table *)

Lemma linked_sorted org n p l : linked org n p l -> StronglySorted by_sequence l.
Proof.
  intros Hl. induction Hl as [|n p e l Hs Hp Hh Hl IH]; constructor; [done|].
  apply Forall_lookup. intros i e' Hi. unfold by_sequence.
  rewrite (linked_sequence _ _ _ _ _ _ Hl Hi). lia.
Qed.

Lemma ordered_linked org n p l : linked org n p l -> ordered_events l = l.
Proof.
  intros Hl. unfold ordered_events.
  assert (Total by_sequence) by (intros ? ?; unfold by_sequence; lia).
  assert (Transitive by_sequence) by (intros ? ? ?; unfold by_sequence; lia).
  apply (StronglySorted_unique_strong by_sequence); [|by apply StronglySorted_merge_sort|
    by eapply linked_sorted|apply merge_sort_Permutation].
  intros x y Hx Hy Lx Ly. rewrite merge_sort_Permutation in Hx.
  apply list_elem_of_lookup in Hx as [i Hi], Hy as [j Hj]. unfold by_sequence in *.
  rewrite (linked_sequence _ _ _ _ _ _ Hl Hi), (linked_sequence _ _ _ _ _ _ Hl Hj) in *.
  assert (i = j) as -> by lia. congruence.
Qed.

Lemma filter_after_linked org n p l a :
  linked org n p l -> filter (fun e => a < ae_sequence e) l = drop (Z.to_nat (a - n + 1)) l.
Proof.
  intros Hl. induction Hl as [|n p e l Hs Hp Hh Hl IH]; [by rewrite drop_nil|].
  destruct (decide (a < n)).
  - rewrite filter_cons_True by lia. rewrite IH.
    replace (Z.to_nat (a - (n + 1) + 1)) with 0%nat by lia.
    by replace (Z.to_nat (a - n + 1)) with 0%nat by lia.
  - rewrite filter_cons_False by lia. rewrite IH.
    replace (Z.to_nat (a - n + 1)) with (S (Z.to_nat (a - (n + 1) + 1))) by lia. done.
Qed.

Lemma filter_at_linked org n p l i e :
  linked org n p l -> l !! i = Some e ->
  head (filter (fun e => ae_sequence e = n + Z.of_nat i) l) = Some e.
Proof.
  intros Hl. revert i. induction Hl as [|n p e' l Hs Hp Hh Hl IH]; intros [|i]; simpl; [done..| |].
  - intros [= <-]. rewrite filter_cons_True by lia. done.
  - intros Hi. rewrite filter_cons_False by lia. rewrite <- (IH i Hi).
    f_equal. apply list_filter_iff. intros x. lia.
Qed.

Lemma collect_rows_ok l :
  Forall (fun e => slen (ae_previous_hash e) = 32 /\ slen (ae_event_hash e) = 32) l ->
  collect_rows l = Ok l.
Proof.
  induction 1 as [|e l [Hp He] Hl IH]; [done|]. cbn [collect_rows]. unfold event_from_row.
  rewrite (proj2 (digest_array_ok _ _) (conj eq_refl Hp)).
  rewrite (proj2 (digest_array_ok _ _) (conj eq_refl He)). cbn. by rewrite IH.
Qed.

Lemma chain_hash_digest org t :
  chain_ok org t -> digest_array (chain_hash ZERO_HASH (at_events t))
                    = Ok (chain_hash ZERO_HASH (at_events t)).
Proof.
  intros Hok. apply digest_array_ok. split; [done|]. unfold chain_hash.
  destruct (last (at_events t)) as [e|] eqn:E; [|done]. cbn.
  apply last_Some_elem_of in E. pose proof (ok_digests _ _ Hok) as Hd.
  rewrite Forall_forall in Hd. by destruct (Hd e E).
Qed.

Lemma export_audit_events_ok org t :
  chain_ok org t -> llen (at_events t) <= MAX_AUDIT_EXPORT ->
  export_audit_events org t
  = Ok (MkAuditExport org (at_events t) (1 + llen (at_events t))
          (chain_hash ZERO_HASH (at_events t)) (at_retention t), lock_audit_head t).
Proof.
  intros Hok Hlen. pose proof (chain_hash_digest _ _ Hok) as Hdig. destruct Hok as [Hl Hh Hd _].
  unfold export_audit_events. cbn [lock_audit_head at_events at_retention].
  rewrite (ordered_linked _ _ _ _ Hl). rewrite take_ge by (unfold llen, MAX_AUDIT_EXPORT in *; lia).
  rewrite (proj2 (Z.ltb_ge _ _)) by lia. cbn [check]. rewrite (collect_rows_ok _ Hd).
  cbn [mbind result_bind].
  change (seeded_head (lock_audit_head t)) with (seeded_head t). rewrite Hh.
  cbn [mbind result_bind]. by rewrite Hdig.
Qed.

(** The page after cursor [a]: at most [limit] events, and the next cursor when
    some are left. *)
Definition page_of (org : Uuid) (a limit : nat) (t : AuditTables) : AuditPage :=
  MkAuditPage org (Z.of_nat a) (chain_hash ZERO_HASH (take a (at_events t)))
    (take limit (drop a (at_events t)))
    (if decide (a + limit < length (at_events t))%nat then Some (Z.of_nat (a + limit)) else None)
    (1 + llen (at_events t)) (chain_hash ZERO_HASH (at_events t)) (at_retention t).

Lemma chain_hash_take_drop l a :
  chain_hash (chain_hash ZERO_HASH (take a l)) (drop a l) = chain_hash ZERO_HASH l.
Proof.
  rewrite <- (take_drop a l) at 3. unfold chain_hash. rewrite last_app.
  by destruct (last (drop a l)).
Qed.

Lemma checked_next_ok z : z < i64_max -> i64_min <= z -> checked_next z = Ok (z + 1).
Proof.
  intros Hz Hm. unfold checked_next, checked_add_i64, in_i64.
  rewrite (proj2 (Z.leb_le _ _)), (proj2 (Z.leb_le _ _)) by lia. done.
Qed.

(** The last event of a full page carries the next cursor. *)
Lemma page_cursor org l a limit :
  linked org 1 ZERO_HASH l -> (0 < limit)%nat -> (a + limit < length l)%nat ->
  ae_sequence <$> last (take limit (drop a l)) = Some (Z.of_nat (a + limit)).
Proof.
  intros Hl Hlim Hd. rewrite last_lookup, length_take, length_drop, Nat.min_l by lia.
  rewrite lookup_take_lt, lookup_drop by lia.
  destruct (lookup_lt_is_Some_2 l (a + pred limit)) as [e He]; [lia|].
  rewrite He. cbn [fmap option_fmap option_map].
  rewrite (linked_sequence _ _ _ _ _ _ Hl He). f_equal. lia.
Qed.

(** The hash a page starts from is the one of the event at its cursor. *)
Lemma page_previous org t a :
  chain_ok org t -> (a <= length (at_events t))%nat ->
  (if Z.of_nat a =? 0 then Ok ZERO_HASH
   else e ← ok_or (head (filter (fun e => ae_sequence e = Z.of_nat a) (at_events t)))
          (InvalidAuditOperation "audit page cursor does not identify a chain event");
        digest_array (ae_event_hash e))
  = Ok (chain_hash ZERO_HASH (take a (at_events t))).
Proof.
  intros [Hl _ Hd _] Ha. destruct a as [|a]; [done|]. rewrite (proj2 (Z.eqb_neq _ _)) by lia.
  destruct (lookup_lt_is_Some_2 (at_events t) a) as [e He]; [lia|].
  replace (Z.of_nat (S a)) with (1 + Z.of_nat a) by lia.
  rewrite (filter_at_linked _ _ _ _ _ _ Hl He). cbn [ok_or mbind result_bind].
  rewrite (take_S_r _ _ _ He), chain_hash_snoc. apply digest_array_ok. split; [done|].
  rewrite Forall_lookup in Hd. by destruct (Hd _ _ He).
Qed.

Lemma linked_drop org l a :
  linked org 1 ZERO_HASH l -> (a <= length l)%nat ->
  linked org (1 + Z.of_nat a) (chain_hash ZERO_HASH (take a l)) (drop a l).
Proof.
  intros Hl Ha. rewrite <- (take_drop a l) in Hl. apply linked_app in Hl as [_ Hl].
  unfold llen in Hl. by rewrite length_take, Nat.min_l in Hl.
Qed.

Lemma verify_page_of org a limit t :
  chain_ok org t -> (a <= length (at_events t))%nat -> (0 < limit)%nat ->
  verify_audit_page (page_of org a limit t) = Ok tt.
Proof.
  intros [Hl _ _ Hb] Ha Hlim. unfold verify_audit_page.
  cbn [page_of ap_after_sequence ap_organization ap_previous_hash ap_events
       ap_next_after_sequence ap_chain_next_sequence ap_chain_head_hash].
  unfold llen in *. rewrite checked_next_ok by (unfold i64_min; lia). cbn [mbind result_bind].
  pose proof (linked_drop _ _ _ Hl Ha) as Ht.
  rewrite <- (take_drop limit (drop a (at_events t))) in Ht. apply linked_app in Ht as [Ht _].
  replace (Z.of_nat a + 1) with (1 + Z.of_nat a) by lia.
  rewrite (verify_events_complete checked_next) by
    (try done; unfold llen; rewrite length_take, length_drop; intros z Hz;
     apply checked_next_ok; unfold i64_min; lia).
  cbn [mbind result_bind]. unfold llen. rewrite length_take, length_drop.
  case_decide as Hd; apply check_ok.
  - rewrite (page_cursor _ _ _ _ Hl Hlim Hd), bool_decide_eq_true_2 by done.
    cbn [negb orb]. apply Z.leb_gt. lia.
  - rewrite (take_ge (drop _ _)) by (rewrite length_drop; lia).
    rewrite chain_hash_take_drop, String.eqb_refl. apply orb_false_iff. split; [|done].
    apply negb_false_iff, Z.eqb_eq. lia.
Qed.

Lemma export_audit_page_ok org a limit t :
  chain_ok org t -> (a <= length (at_events t))%nat -> 0 < Z.of_nat limit <= MAX_AUDIT_PAGE ->
  export_audit_page org (Z.of_nat a) (Z.of_nat limit) t
  = Ok (page_of org a limit t, lock_audit_head t).
Proof.
  intros Hok Ha Hlim. pose proof (verify_page_of org a limit t Hok Ha ltac:(lia)) as Hv.
  pose proof (chain_hash_digest _ _ Hok) as Hdig.
  pose proof (page_previous _ _ _ Hok Ha) as Hprev. destruct Hok as [Hl Hh Hd Hb].
  unfold export_audit_page. rewrite (proj2 (Z.ltb_ge (Z.of_nat a) 0)),
    (proj2 (Z.eqb_neq (Z.of_nat limit) 0)), (proj2 (Z.ltb_ge MAX_AUDIT_PAGE _)) by lia.
  cbn [orb check].
  change (seeded_head (lock_audit_head t)) with (seeded_head t). rewrite Hh.
  cbn [mbind result_bind lock_audit_head at_events at_retention].
  rewrite (proj2 (Z.leb_gt _ _)) by (unfold llen; lia). cbn [mbind result_bind check].
  rewrite Hprev, (filter_after_linked _ _ _ _ _ Hl). cbn [mbind result_bind].
  replace (Z.to_nat (Z.of_nat a - 1 + 1)) with a by lia.
  rewrite (ordered_linked _ _ _ _ (linked_drop _ _ _ Hl Ha)).
  replace (Z.to_nat (Z.of_nat limit + 1)) with (S limit) by lia. rewrite Nat2Z.id.
  assert ((if Z.of_nat limit <? llen (take (S limit) (drop a (at_events t)))
           then take limit (take (S limit) (drop a (at_events t)))
           else take (S limit) (drop a (at_events t))) = take limit (drop a (at_events t))) as ->.
  { unfold llen. rewrite length_take. destruct (Z.ltb_spec (Z.of_nat limit)
      (Z.of_nat (S limit `min` length (drop a (at_events t))))).
    - by rewrite take_take, Nat.min_l by lia.
    - by rewrite !take_ge by lia. }
  rewrite collect_rows_ok by by apply Forall_take, Forall_drop.
  cbn [mbind result_bind]. rewrite Hdig. cbn [mbind result_bind].
  assert ((if Z.of_nat limit <? llen (take (S limit) (drop a (at_events t)))
           then ae_sequence <$> last (take limit (drop a (at_events t))) else None)
          = ap_next_after_sequence (page_of org a limit t)) as ->.
  { unfold llen. rewrite length_take, length_drop.
    cbn [page_of ap_next_after_sequence]. case_decide as Hm.
    - rewrite (proj2 (Z.ltb_lt _ _)) by lia. apply (page_cursor _ _ _ _ Hl); lia.
    - by rewrite (proj2 (Z.ltb_ge _ _)) by lia. }
  unfold page_of in Hv. cbn [page_of ap_next_after_sequence]. by rewrite Hv.
Qed.

(** ** Every history *)

Definition retained_until (t : AuditTables) : Z := from_option retain_until_unix_ms 0 (at_retention t).

(** What a call may do to a linked table. *)
Record grows (organization : Uuid) (t t' : AuditTables) : Prop := {
  grows_ok : chain_ok organization t';
  grows_events : at_events t `prefix_of` at_events t';
  grows_retention : retained_until t <= retained_until t'
}.

Lemma grows_refl org t : chain_ok org t -> grows org t t.
Proof. intros Hok. split; done || lia. Qed.

Lemma grows_trans org t1 t2 t3 : grows org t1 t2 -> grows org t2 t3 -> grows org t1 t3.
Proof. intros [? ? ?] [? ? ?]. split; [done|by etrans|lia]. Qed.

Lemma lock_grows org t : chain_ok org t -> grows org t (lock_audit_head t).
Proof. intros Hok. split; [by apply lock_audit_head_ok|done|cbn; unfold retained_until; simpl; lia]. Qed.

Lemma append_grows org category actor action subject payload stamp t e t' :
  chain_ok org t ->
  append_audit_record org category actor action subject payload stamp t = Ok (e, t') ->
  grows org t t'.
Proof.
  intros Hok Ha. apply append_audit_record_ok in Ha as (Hok' & He & Hr & _); [|done].
  split; [done|rewrite He; by eexists|]. unfold retained_until. rewrite Hr. lia.
Qed.

Lemma upsert_grows org init f t :
  chain_ok org t -> 0 <= retain_until_unix_ms init ->
  (forall p, retain_until_unix_ms p <= retain_until_unix_ms (f p)) ->
  grows org t (upsert_retention init f (lock_audit_head t)).2.
Proof.
  intros Hok Hi Hf. split; [by apply upsert_retention_ok|done|].
  unfold retained_until, upsert_retention. cbn. destruct (at_retention t); cbn; [apply Hf|done].
Qed.

(** A retention change: the policy row, then its audit record. *)
Lemma retain_grows org init f action payload stamp t p t' :
  chain_ok org t -> 0 <= retain_until_unix_ms init ->
  (forall p, retain_until_unix_ms p <= retain_until_unix_ms (f p)) ->
  (let (policy, t) := upsert_retention init f (lock_audit_head t) in
   appended ← append_audit_record org "admin" "system:controller" action "tenant:self"
     (payload policy) stamp t;
   Ok (policy, appended.2)) = Ok (p, t') ->
  grows org t t'.
Proof.
  intros Hok Hi Hf E. pose proof (upsert_grows org init f t Hok Hi Hf) as Hg.
  destruct (upsert_retention _ _ _) as [q t1]. rewrite bind_ok in E.
  destruct E as ([e t2] & Ha & [= <- <-]). eapply grows_trans; [exact Hg|].
  by eapply append_grows; [apply Hg|].
Qed.

Lemma export_locks org t x t' : export_audit_events org t = Ok (x, t') -> t' = lock_audit_head t.
Proof.
  unfold export_audit_events. rewrite seq_ok, bind_ok. intros (_ & l & _ & E).
  destruct (seeded_head _). rewrite bind_ok in E. by destruct E as (? & _ & [= _ <-]).
Qed.

Lemma page_locks org a n t x t' : export_audit_page org a n t = Ok (x, t') -> t' = lock_audit_head t.
Proof.
  unfold export_audit_page. rewrite seq_ok. intros (_ & E). destruct (seeded_head _).
  rewrite seq_ok, bind_ok in E. destruct E as (_ & ? & _ & E).
  repeat (rewrite bind_ok in E; destruct E as (? & _ & E)). by injection E.
Qed.

Lemma audit_call_grows org t c : chain_ok org t -> grows org t (audit_call org t c).
Proof.
  intros Hok. destruct c as [cat actor action subject payload stamp|cat actor action subject payload stamp
    |until stamp|hold stamp| |a l]; cbn [audit_call]; unfold committed.
  - destruct (append_audit_event _ _ _ _ _ _ _ _) as [[e t']|] eqn:E; [|by apply grows_refl].
    unfold append_audit_event in E. rewrite seq_ok in E. destruct E as [_ E]. by eapply append_grows.
  - destruct (append_audit_record _ _ _ _ _ _ _ _) as [[e t']|] eqn:E; [|by apply grows_refl].
    by eapply append_grows.
  - destruct (extend_audit_retention _ _ _ _) as [[p t']|] eqn:E; [|by apply grows_refl].
    unfold extend_audit_retention in E. rewrite seq_ok, check_ok in E. destruct E as [Hu E].
    bool_prop. eapply (retain_grows _ _ _ _
      (fun p => VObject [("retain_until_unix_ms", json_z (retain_until_unix_ms p))])); cycle -1;
      [exact E|done..|cbn; lia].
  - destruct (set_audit_legal_hold _ _ _ _) as [[p t']|] eqn:E; [|by apply grows_refl].
    unfold set_audit_legal_hold in E.
    eapply (retain_grows _ _ _ _ (fun _ => VObject [("legal_hold", VBool hold)])); cycle -1;
      [exact E|done..|cbn; lia].
  - destruct (export_audit_events _ _) as [[x t']|] eqn:E; [|by apply grows_refl].
    apply export_locks in E as ->. by apply lock_grows.
  - destruct (export_audit_page _ _ _ _) as [[x t']|] eqn:E; [|by apply grows_refl].
    apply page_locks in E as ->. by apply lock_grows.
Qed.

Lemma audit_calls_grow org calls t :
  chain_ok org t -> grows org t (fold_left (audit_call org) calls t).
Proof.
  revert t. induction calls as [|c calls IH]; intros t Hok; cbn; [by apply grows_refl|].
  pose proof (audit_call_grows org t c Hok) as Hg. eapply grows_trans; [exact Hg|].
  apply IH, Hg.
Qed.

Lemma audit_history_ok org calls : chain_ok org (audit_history org calls).
Proof. apply audit_calls_grow, empty_audit_ok. Qed.

Definition verifies (organization : Uuid) (t : AuditTables) : Prop :=
  exists x, verify_audit_chain organization t = Ok (x, lock_audit_head t) /\
            ax_events x = at_events t.

Lemma chain_ok_verifies org t :
  chain_ok org t -> llen (at_events t) <= MAX_AUDIT_EXPORT -> verifies org t.
Proof.
  intros Hok Hlen. unfold verifies, verify_audit_chain.
  rewrite (export_audit_events_ok _ _ Hok Hlen). cbn [mbind result_bind fst].
  match goal with |- context [verify_audit_export ?x] =>
    assert (verify_audit_export x = Ok tt) as ->
      by (apply verify_audit_export_ok; split_and!; [apply Hok|done..]) end.
  eexists. by split.
Qed.

(** C10. Whatever is appended, retained, put on hold or read, and whichever calls
    fail, the chain the table holds verifies while it is within the export
    bound; the events of an earlier moment stay a prefix of every later one and
    the retention time never moves back. *)
Theorem audit_history_verifies org calls more :
  let t := audit_history org calls in
  let t' := audit_history org (calls ++ more) in
  (llen (at_events t') <= MAX_AUDIT_EXPORT -> verifies org t') /\
  at_events t `prefix_of` at_events t' /\ retained_until t <= retained_until t'.
Proof.
  cbv zeta. split; [apply chain_ok_verifies, audit_history_ok|].
  unfold audit_history at 2 4. rewrite fold_left_app.
  destruct (audit_calls_grow org more (audit_history org calls)); [apply audit_history_ok|done].
Qed.

(** ** Reading every page *)

(** Following the cursors from the start of the chain. *)
Fixpoint read_pages (fuel : nat) (organization : Uuid) (after limit : Z) (t : AuditTables) :
    result StoreError (list AuditEvent) :=
  match fuel with
  | O => Err Unfinished
  | S fuel =>
      read ← export_audit_page organization after limit t;
      match ap_next_after_sequence read.1 with
      | None => Ok (ap_events read.1)
      | Some cursor =>
          rest ← read_pages fuel organization cursor limit read.2;
          Ok (ap_events read.1 ++ rest)
      end
  end.

Lemma read_pages_from org limit t fuel a :
  chain_ok org t -> 0 < Z.of_nat limit <= MAX_AUDIT_PAGE -> (a <= length (at_events t))%nat ->
  (length (at_events t) - a < fuel)%nat ->
  read_pages fuel org (Z.of_nat a) (Z.of_nat limit) t = Ok (drop a (at_events t)).
Proof.
  intros Hok Hlim. revert t a Hok. induction fuel as [|fuel IH]; intros t a Hok Ha Hf; [lia|].
  cbn [read_pages]. rewrite (export_audit_page_ok _ _ _ _ Hok Ha Hlim).
  cbn [mbind result_bind fst snd page_of ap_next_after_sequence ap_events].
  case_decide as Hd.
  - rewrite (IH _ _ (lock_audit_head_ok _ _ Hok)) by (cbn; lia). cbn.
    f_equal. rewrite <- (take_drop limit (drop a (at_events t))) at 2. by rewrite drop_drop.
  - by rewrite take_ge by (rewrite length_drop; lia).
Qed.

(** C35. After any history, pages read from the start by following each page's
    cursor, with any page size the code takes, are all accepted by the page
    verifier and are together the whole chain, in order, each event once. *)
Theorem audit_pages_cover org calls limit :
  0 < limit <= MAX_AUDIT_PAGE ->
  let t := audit_history org calls in
  read_pages (S (length (at_events t))) org 0 limit t = Ok (at_events t).
Proof.
  intros Hlim t. rewrite <- (Z2Nat.id limit) in * by lia.
  apply (read_pages_from _ _ _ _ 0); [apply audit_history_ok|done|lia..].
Qed.

(** ** The head pins down the chain *)

(** A [Uuid] printed by [Uuid::to_string]. *)
Definition uuid_text (u : Uuid) : Prop := exists b, uuid_parse u = Some b /\ uuid_to_string b = u.

(** The types of the fields: [i64], [Uuid], [String] and a 32-byte digest. *)
Definition event_typed (e : AuditEvent) : Prop :=
  in_i64 (ae_sequence e) = true /\ uuid_text (ae_event_id e) /\
  Forall u64_len [ae_category e; ae_actor_subject e; ae_action e; ae_subject e] /\
  (forall b, json_to_vec (ae_payload e) = Ok b -> u64_len b) /\
  in_i64 (ae_occurred_at_unix_ms e) = true.

Lemma unique_uuid : unique_code uuid_text uuid_bytes.
Proof.
  intros u v s t (a & Ha & Eu) (b & Hb & Ev) E. unfold uuid_bytes in E. rewrite Ha, Hb in E. cbn in E.
  apply sapp_inj_length in E as [-> ->]; [|by rewrite (uuid_parse_length _ _ Ha), (uuid_parse_length _ _ Hb)].
  split; congruence.
Qed.

(** Equal hashes come from equal events, of one organization. *)
Lemma hash_event_inj org org' e e' h :
  uuid_text org -> uuid_text org' -> event_typed e -> event_typed e' ->
  hash_event org e = Ok h -> hash_event org' e' = Ok h -> ae_event_hash e = ae_event_hash e' ->
  (org = org' /\ e = e') \/ sha256_collision.
Proof.
  intros Ho Ho' (Hs & Hi & Hf & Hp & Hc) (Hs' & Hi' & Hf' & Hp' & Hc') He He' Eh.
  unfold hash_event in He, He'. rewrite bind_ok in He, He'.
  destruct He as (b & Hb%map_err_ok & [= <-]), He' as (b' & Hb'%map_err_ok & [= E]).
  symmetry in E. apply sha256_eq_or_collision in E as [E|]; [left|by right].
  unfold hash_event_preimage in E. do 2 apply sapp_inj in E.
  apply unique_uuid in E as [-> E]; [|done..]. split; [done|].
  apply unique_i64 in E as [E1 E]; [|done..]. apply unique_uuid in E as [E2 E]; [|done..].
  rewrite !Forall_cons in Hf, Hf'. destruct_and!.
  repeat match type of E with framed ?x +:+ _ = framed ?y +:+ _ =>
    let Ex := fresh "Ef" in apply unique_framed in E as [Ex E]; [|by auto..] end.
  apply unique_i64 in E as [E3 E]; [|done..]. subst b'.
  pose proof (json_to_vec_inj _ _ _ Hb Hb') as Ev.
  destruct e, e'. cbn in *. by subst.
Qed.

Definition export_typed (x : AuditExport) : Prop :=
  uuid_text (ax_organization x) /\ Forall event_typed (ax_events x).

Lemma linked_identified org org' l k :
  uuid_text org -> uuid_text org' -> Forall event_typed l -> Forall event_typed k ->
  linked org 1 ZERO_HASH l -> linked org' 1 ZERO_HASH k ->
  length l = length k -> chain_hash ZERO_HASH l = chain_hash ZERO_HASH k ->
  l = k /\ (l = [] \/ org = org') \/ sha256_collision.
Proof.
  intros Ho Ho'. revert k. induction l as [|e l IH] using rev_ind; intros k Hl Hk Ll Lk En Eh.
  { destruct k; [left; auto|done]. }
  destruct k as [|e' k _] using rev_ind; rewrite !length_app in En; simpl in En; [lia|].
  rewrite !chain_hash_snoc in Eh. rewrite Forall_app, Forall_singleton in Hl, Hk.
  destruct Hl as [Hl He], Hk as [Hk He'].
  apply linked_app in Ll as [Ll Le], Lk as [Lk Le'].
  inversion Le as [|? ? ? ? _ Hp Hh _]; inversion Le' as [|? ? ? ? _ Hp' Hh' _]; subst.
  destruct (hash_event_inj org org' e e' (ae_event_hash e)) as [[<- <-]|]; try done;
    [by rewrite Eh| |by right].
  destruct (IH k) as [[-> _]|]; try done; [lia|congruence|left; auto|by right].
Qed.

(** C34. Two exports the verifier accepts that name the same head hash and the
    same next sequence hold the same events, and belong to the same
    organization when there are any, or exhibit a SHA-256 collision. *)
Theorem audit_head_identifies x y :
  export_typed x -> export_typed y ->
  verify_audit_export x = Ok tt -> verify_audit_export y = Ok tt ->
  ax_next_sequence x = ax_next_sequence y -> ax_head_hash x = ax_head_hash y ->
  (ax_events x = ax_events y /\ (ax_events x = [] \/ ax_organization x = ax_organization y))
  \/ sha256_collision.
Proof.
  intros [Ho Hx] [Ho' Hy] (Lx & Nx & Ex)%verify_audit_export_ok (Ly & Ny & Ey)%verify_audit_export_ok
    En Eh.
  apply linked_identified; try done; [unfold llen in *; lia|congruence].
Qed.

End History.
