(* ===== verification/ScheduleCalendar.v ===== *)
(** * The native schedule calendar (controller-store/src/schedule_calendar.rs)

    Five-field cron expressions with Jenkins-style [H] fields, as the sets of
    civil-time values they allow, one 64-bit mask per field. [H] draws from
    [java.util.Random] seeded by an MD5 digest. Arithmetic is the release
    profile's: [i32] additions wrap and a shift takes its amount modulo 64. *)

From stdpp Require Import base gmap list strings.
From Stdlib Require Import Ascii ZArith Lia.
From S2P Require Import Prelude Text Bytes Domain DagContract StoreTables.

Open Scope Z_scope.

Definition JENKINS_CRON_HASH_V1 : string := "jenkins-core-2.516.1:cron-hash-v1".
Definition DEFAULT_SCHEDULE_HORIZON : Z := 64.
Definition MAX_SCHEDULE_HORIZON : Z := 4096.

Definition FIELD_LOWER : list Z := [0; 0; 1; 1; 0].
Definition FIELD_UPPER : list Z := [59; 23; 31; 12; 7].
Definition field_lower (index : nat) : Z := nth index FIELD_LOWER 0.
Definition field_upper (index : nat) : Z := nth index FIELD_UPPER 0.

Record ScheduleCalendar := MkCalendar {
  sc_timezone : string;
  sc_calendar : string;
  sc_expression : string;
  sc_bits : list Z;
  sc_hash_seed : string;
  sc_horizon_slots : Z
}.

(** [md5::Md5::digest]. *)
Class Md5Hash := { md5 : string -> string }.
Class Md5Laws (M : Md5Hash) : Prop := { md5_length m : String.length (md5 m) = 16%nat }.

(** ** Masks *)

Definition bit_set (bits value : Z) : bool :=
  (0 <=? value) && (value <? 64) && Z.testbit bits value.

(** [1u64 << cursor]. *)
Definition shl1 (cursor : Z) : Z := Z.shiftl 1 (cursor mod 64).

(** [while cursor <= end { bits |= 1u64 << cursor; cursor += step }]; [None] when
    the fuel runs out. *)
Fixpoint step_bits (fuel : nat) (bits cursor last step : Z) : option Z :=
  match fuel with
  | O => None
  | S fuel =>
      if cursor <=? last
      then step_bits fuel (Z.lor bits (shl1 cursor)) (wrap_i32 (cursor + step)) last step
      else Some bits
  end.

(** A field has at most 60 values, and a wrapped cursor comes back at most as
    often. *)
Definition STEP_FUEL : nat := 200.

Definition range_bits (start last step : Z) : result StoreError Z :=
  ok_or (step_bits STEP_FUEL 0 start last step) Unfinished.

(** ** [JenkinsHash] *)

Definition LCG_MUL : Z := 25214903917.
Definition LCG_ADD : Z := 11.
Definition LCG_MOD : Z := 2 ^ 48.

Section Hash.
Context `{Md5Hash}.

Definition digest_byte (digest : string) (i : nat) : Z :=
  match String.get i digest with Some c => byte_val c | None => 0 end.

(** The two halves of the digest, folded and packed big-endian. *)
Definition folded_seed (digest : string) : Z :=
  fold_left (fun value i => value * 256 + Z.lxor (digest_byte digest i) (digest_byte digest (i + 8)))
    (seq 0 8) 0.

Definition hash_from_seed (seed : string) : Z :=
  Z.lxor (folded_seed (md5 seed)) LCG_MUL mod LCG_MOD.
End Hash.

Definition lcg (seed : Z) : Z := (seed * LCG_MUL + LCG_ADD) mod LCG_MOD.

(** [next_bits(31)]: the drawn value and the new seed. *)
Definition next_bits31 (seed : Z) : Z * Z := (Z.shiftr (lcg seed) 17, lcg seed).

Definition is_power_of_two (n : Z) : bool := (0 <? n) && (Z.land n (n - 1) =? 0).

(** One turn of the rejection loop of [nextInt]. *)
Definition draw (n seed : Z) : (Z * Z) + Z :=
  let (bits, seed) := next_bits31 seed in
  let val := Z.rem bits n in
  if 0 <? wrap_i32 (wrap_i32 (bits - val) + n) then inl (val, seed) else inr seed.

(** [loop { ... }], at most [2 ^ depth] turns. *)
Fixpoint draws (depth : nat) (n seed : Z) : (Z * Z) + Z :=
  match depth with
  | O => draw n seed
  | S depth =>
      match draws depth n seed with
      | inl drawn => inl drawn
      | inr seed => draws depth n seed
      end
  end.

Definition DRAW_DEPTH : nat := 23.

(** [JenkinsHash::next]; every caller passes [n > 0]. *)
Definition hash_next (n seed : Z) : result StoreError (Z * Z) :=
  if is_power_of_two n
  then let (bits, seed) := next_bits31 seed in Ok (Z.shiftr (n * bits) 31, seed)
  else match draws DRAW_DEPTH n seed with
       | inl drawn => Ok drawn
       | inr _ => Err Unfinished
       end.

(** ** Parsing *)

Definition parse_positive (text : string) : result StoreError Z :=
  value ← ok_or (parse_i32 text)
    (InvalidTriggerIngress ("schedule step '" +:+ text +:+ "' is not an integer"));
  check (value <=? 0) (InvalidTriggerIngress "schedule step must be positive") ;;
  Ok value.

Definition parse_bounded (text : string) (lower upper : Z) : result StoreError Z :=
  value ← ok_or (parse_i32 text)
    (InvalidTriggerIngress ("schedule value '" +:+ text +:+ "' is not an integer"));
  check ((value <? lower) || (upper <? value))
    (InvalidTriggerIngress ("schedule value " +:+ fmt_z value +:+ " is outside "
       +:+ fmt_z lower +:+ ".." +:+ fmt_z upper)) ;;
  Ok value.

(** [hash_upper]: days of the month hash in 1..28, days of the week in 0..6. *)
Definition hash_upper (index : nat) (upper : Z) : Z :=
  match index with 2%nat => 28 | 4%nat => 6 | _ => upper end.

(** The text between [H(] and the end: its range and step, 0 for none. *)
Definition parse_hash_range (inner : string) : result StoreError (string * Z) :=
  match rsplit_once ")/" inner with
  | Some (range_text, step_text) => step ← parse_positive step_text; Ok (range_text, step)
  | None =>
      match strip_suffix ")" inner with
      | Some range_text => Ok (range_text, 0)
      | None => Err (InvalidTriggerIngress "schedule H range is malformed")
      end
  end.

Definition parse_hash_part (part : string) (index : nat) (lower upper hash : Z) :
    result StoreError (Z * Z) :=
  let hash_upper := hash_upper index upper in
  if String.eqb part "H"
  then drawn ← hash_next (hash_upper - lower + 1) hash;
       let '(value, hash) := drawn in Ok (shl1 (lower + value), hash)
  else match strip_prefix "H/" part with
  | Some rest =>
      step ← parse_positive rest;
      check (hash_upper - lower + 1 <? step)
        (InvalidTriggerIngress "schedule H step exceeds field range") ;;
      drawn ← hash_next step hash;
      let '(value, hash) := drawn in
      bits ← range_bits (lower + value) hash_upper step; Ok (bits, hash)
  | None =>
  match strip_prefix "H(" part with
  | Some inner =>
      parsed ← parse_hash_range inner;
      let '(range_text, step) := parsed in
      bounds ← ok_or (split_once "-" range_text)
        (InvalidTriggerIngress "schedule H range requires start-end");
      let '(start_text, end_text) := bounds in
      start ← parse_bounded start_text lower hash_upper;
      last ← parse_bounded end_text lower hash_upper;
      check (last <? start) (InvalidTriggerIngress "schedule H range end precedes start") ;;
      if step =? 0
      then drawn ← hash_next (last - start + 1) hash;
           let '(value, hash) := drawn in Ok (shl1 (start + value), hash)
      else
        check (last - start + 1 <? step)
          (InvalidTriggerIngress "schedule H step exceeds named range") ;;
        drawn ← hash_next step hash;
        let '(value, hash) := drawn in
        bits ← range_bits (start + value) last step; Ok (bits, hash)
  | None =>
      Err (InvalidTriggerIngress ("unsupported schedule hash field '" +:+ part +:+ "'"))
  end end.

Definition parse_field_part (part : string) (index : nat) (lower upper hash : Z) :
    result StoreError (Z * Z) :=
  check (is_empty part) (InvalidTriggerIngress "schedule field part is empty") ;;
  if String.eqb part "*" then bits ← range_bits lower upper 1; Ok (bits, hash)
  else match strip_prefix "*/" part with
  | Some rest =>
      step ← parse_positive rest; bits ← range_bits lower upper step; Ok (bits, hash)
  | None =>
  if starts_with "H" part then parse_hash_part part index lower upper hash
  else match split_once "-" part with
  | Some (start_text, rest) =>
      start ← parse_bounded start_text lower upper;
      ending ← match split_once "/" rest with
               | Some (end_text, step_text) => step ← parse_positive step_text; Ok (end_text, step)
               | None => Ok (rest, 1)
               end;
      let '(end_text, step) := ending in
      last ← parse_bounded end_text lower upper;
      check (last <? start) (InvalidTriggerIngress "schedule range end precedes start") ;;
      bits ← range_bits start last step; Ok (bits, hash)
  | None =>
  match split_once "/" part with
  | Some (start_text, step_text) =>
      start ← parse_bounded start_text lower upper;
      step ← parse_positive step_text;
      bits ← range_bits start upper step; Ok (bits, hash)
  | None => value ← parse_bounded part lower upper; Ok (shl1 value, hash)
  end end end.

Definition parse_field (field : string) (index : nat) (hash : Z) : result StoreError (Z * Z) :=
  try_fold (fun state part =>
    let '(bits, hash) := state in
    parsed ← parse_field_part part index (field_lower index) (field_upper index) hash;
    let '(more, hash) := parsed in Ok (Z.lor bits more, hash))
    (0, hash) (split_char "," field).

(** The loop over the fields, from [index] on. *)
Fixpoint parse_fields (index : nat) (fields : list string) (hash : Z) :
    result StoreError (list Z) :=
  match fields with
  | [] => Ok []
  | field :: fields =>
      parsed ← parse_field field index hash;
      let '(bits, hash) := parsed in
      check (bits =? 0)
        (InvalidTriggerIngress ("schedule field " +:+ fmt_nat index +:+ " matches no values")) ;;
      rest ← parse_fields (S index) fields hash;
      Ok (bits :: rest)
  end.

(** Sunday is 0 and 7. *)
Definition normalize_day_of_week (bits : Z) : Z :=
  if bit_set bits 7 then Z.land (Z.lor bits 1) (Z.lxor (2 ^ 64 - 1) (2 ^ 7)) else bits.

Section Calendar.
Context `{Md5Hash}.

Definition parse_cron_expression (expression hash_seed : string) : result StoreError (list Z) :=
  let fields := split_ascii_whitespace expression in
  check (negb (llen fields =? 5))
    (InvalidTriggerIngress "schedule expression must contain exactly five fields") ;;
  bits ← parse_fields 0 fields (hash_from_seed hash_seed);
  Ok (alter normalize_day_of_week 4%nat bits).

Definition validate_text_value (name value : string) (max : Z) : result StoreError () :=
  check (is_empty value || (max <? slen value) || negb (String.eqb (trim value) value))
    (InvalidTriggerIngress ("schedule configuration '" +:+ name
       +:+ "' must be a non-empty trimmed string of at most " +:+ fmt_z max +:+ " bytes")).

Definition required_text (configuration : Value) (name : string) (max : Z) :
    result StoreError string :=
  value ← ok_or (field configuration name ≫= as_str)
    (InvalidTriggerIngress ("schedule configuration requires '" +:+ name +:+ "'"));
  validate_text_value name value max ;;
  Ok value.

Definition hash_seed_from_configuration (configuration : Value) (expression : string) :
    result StoreError string :=
  match field configuration "jenkins_full_item_name" ≫= as_str with
  | Some name => validate_text_value "jenkins_full_item_name" name 512 ;; Ok name
  | None =>
      if existsb (contains_char "H") (split_ascii_whitespace expression)
      then required_text configuration "schedule_identity_sha256" 64
      else Ok ""
  end.

(** [Value::as_i64]. *)
Definition as_i64 (v : Value) : option Z :=
  match v with VNumber text => parse_i64 text | _ => None end.

Definition horizon_of (configuration : Value) : result StoreError Z :=
  match field configuration "horizon_slots" with
  | None => Ok DEFAULT_SCHEDULE_HORIZON
  | Some value =>
      horizon ← ok_or (as_i64 value)
        (InvalidTriggerIngress "horizon_slots must be a positive integer");
      check ((horizon <? 1) || (MAX_SCHEDULE_HORIZON <? horizon))
        (InvalidTriggerIngress ("horizon_slots must be between 1 and "
           +:+ fmt_z MAX_SCHEDULE_HORIZON)) ;;
      Ok horizon
  end.

Definition calendar_from_configuration (configuration : Value) :
    result StoreError ScheduleCalendar :=
  timezone ← required_text configuration "timezone" 128;
  calendar ← required_text configuration "calendar" 128;
  expression ← required_text configuration "expression" 512;
  horizon ← horizon_of configuration;
  hash_seed ← hash_seed_from_configuration configuration expression;
  bits ← parse_cron_expression expression hash_seed;
  Ok (MkCalendar timezone calendar expression bits hash_seed horizon).

End Calendar.

(** The civil time of an instant in a zone. *)
Record Civil := MkCivil {
  cv_minute : Z; cv_hour : Z; cv_day_of_month : Z; cv_month : Z; cv_day_of_week : Z
}.

Definition mask (c : ScheduleCalendar) (index : nat) : Z := nth index (sc_bits c) 0.

Definition matches_local (c : ScheduleCalendar) (t : Civil) : bool :=
  bit_set (mask c 0) (cv_minute t) && bit_set (mask c 1) (cv_hour t)
  && bit_set (mask c 3) (cv_month t) && bit_set (mask c 2) (cv_day_of_month t)
  && bit_set (mask c 4) (Z.rem (cv_day_of_week t) 7).

(** * What the loops compute

    The step loop yields an arithmetic progression, and ends even when its
    cursor wraps; [nextInt] always returns a value below its bound: its rejection
    loop cannot run for [2 ^ 22 + 2] turns, since two consecutive seeds of the
    generator differ by an odd number and [LCG_MUL ^ (2 ^ 22) - 1] is [2 ^ 24] times
    an odd one, so the seeds leave the narrow window that is rejected. *)

(** ** Masks and progressions *)

(** [first], [first + step], ... up to [last]. *)
Record Run := MkRun { run_first : Z; run_last : Z; run_step : Z }.

Definition in_run (v : Z) (r : Run) : Prop :=
  run_first r <= v <= run_last r /\ (run_step r | v - run_first r).

Lemma shl1_testbit c v : 0 <= c < 64 -> 0 <= v -> Z.testbit (shl1 c) v = (v =? c).
Proof.
  intros Hc Hv. unfold shl1. rewrite Z.mod_small, Z.shiftl_1_l, Z.pow2_bits_eqb by lia.
  apply Z.eqb_sym.
Qed.

Lemma wrap_i32_small z : i32_min <= z <= i32_max -> wrap_i32 z = z.
Proof. unfold wrap_i32, i32_min, i32_max. intros. rewrite Z.mod_small; lia. Qed.

Lemma step_bits_exact fuel bits c last step :
  0 <= c -> last < 64 -> 0 < step -> step + last <= i32_max ->
  (Z.to_nat (last - c + 1) < fuel)%nat ->
  exists r, step_bits fuel bits c last step = Some r /\
    forall v, 0 <= v -> Z.testbit r v = true <->
      Z.testbit bits v = true \/ in_run v (MkRun c last step).
Proof.
  revert bits c. induction fuel as [|fuel IH]; intros bits c Hc Hl Hs Ho Hf; [lia|].
  cbn [step_bits]. destruct (Z.leb_spec c last) as [Hle|Hgt].
  - rewrite wrap_i32_small by (unfold i32_min; lia).
    destruct (IH (Z.lor bits (shl1 c)) (c + step)) as (r & -> & Hr); [lia..|].
    exists r. split; [done|]. intros v Hv. rewrite Hr, Z.lor_spec, shl1_testbit by lia.
    rewrite orb_true_iff, Z.eqb_eq. unfold in_run. cbn.
    split.
    + intros [[?| ->]|[? [k Hk]]]; [by left|right; split; [lia|exists 0; lia]|].
      right. split; [lia|]. exists (k + 1). lia.
    + intros [?|[? [k Hk]]]; [by left; left|].
      destruct (decide (v = c)) as [->|]; [by left; right|]. right.
      assert (0 < k) by nia. split; [nia|]. exists (k - 1). lia.
  - exists bits. split; [done|]. intros v Hv. unfold in_run. cbn. split; [by left|].
    intros [?|[? _]]; [done|lia].
Qed.

(** The loop also ends when the cursor wraps: it then comes back below where it
    was, by twice the distance of the step to [2 ^ 31]. *)
Lemma step_bits_wraps p fuel bits last step :
  i32_max - 64 <= step <= i32_max -> last < 64 -> (p < 64)%nat ->
  (2 * p + 4 < fuel)%nat ->
  is_Some (step_bits fuel bits (Z.of_nat p) last step).
Proof.
  revert fuel bits. induction (lt_wf p) as [p _ IH]; intros fuel bits Hs Hl Hp Hf.
  destruct fuel as [|[|fuel]]; try lia.
  cbn [step_bits]. destruct (Z.leb_spec (Z.of_nat p) last); [|by eexists].
  destruct (decide (Z.of_nat p + step <= i32_max)).
  { rewrite (wrap_i32_small (Z.of_nat p + step)) by (unfold i32_min, i32_max in *; lia).
    rewrite (proj2 (Z.leb_gt _ last)) by (unfold i32_max in *; lia). by eexists. }
  assert (wrap_i32 (Z.of_nat p + step) = Z.of_nat p + step - 2 ^ 32) as E1.
  { unfold wrap_i32, i32_max in *. rewrite <- (Z.mod_unique_pos _ _ 1 (Z.of_nat p + step - 2 ^ 31)); lia. }
  rewrite E1. rewrite (proj2 (Z.leb_le _ last)) by (unfold i32_max in *; lia).
  assert (wrap_i32 (Z.of_nat p + step - 2 ^ 32 + step) = Z.of_nat p - 2 * (2 ^ 31 - step)) as E2.
  { rewrite wrap_i32_small; unfold i32_max, i32_min in *; lia. }
  rewrite E2. destruct (decide (0 <= Z.of_nat p - 2 * (2 ^ 31 - step))).
  - rewrite <- (Z2Nat.id (Z.of_nat p - _)) by done.
    apply (IH (Z.to_nat (Z.of_nat p - 2 * (2 ^ 31 - step)))); unfold i32_max in *; lia.
  - destruct fuel as [|fuel]; [lia|]. cbn [step_bits].
    destruct (Z.leb_spec (Z.of_nat p - 2 * (2 ^ 31 - step)) last); [|by eexists].
    destruct fuel as [|fuel]; [lia|]. cbn [step_bits].
    rewrite wrap_i32_small by (unfold i32_max, i32_min in *; lia).
    rewrite (proj2 (Z.leb_gt _ last)) by (unfold i32_max in *; lia). by eexists.
Qed.

#[local] Opaque step_bits.

Lemma range_bits_total start last step :
  0 <= start < 64 -> last < 64 -> 0 < step <= i32_max ->
  exists r, range_bits start last step = Ok r.
Proof.
  intros Hc Hl Hs. unfold range_bits.
  assert (is_Some (step_bits STEP_FUEL 0 start last step)) as [r ->]; [|by exists r].
  destruct (decide (step + last <= i32_max)).
  - destruct (step_bits_exact STEP_FUEL 0 start last step) as (r & -> & _);
      unfold STEP_FUEL; [lia..|by eexists].
  - rewrite <- (Z2Nat.id start) by lia. apply step_bits_wraps; unfold STEP_FUEL; lia.
Qed.

Lemma range_bits_exact start last step :
  0 <= start -> last < 64 -> 0 < step -> step + last <= i32_max -> start < 64 ->
  exists r, range_bits start last step = Ok r /\
    forall v, 0 <= v -> Z.testbit r v = true <-> in_run v (MkRun start last step).
Proof.
  intros. destruct (step_bits_exact STEP_FUEL 0 start last step) as (r & E & Hr);
    [unfold STEP_FUEL; lia..|].
  exists r. unfold range_bits. rewrite E. split; [done|]. intros v Hv. rewrite Hr by done.
  rewrite Z.bits_0. naive_solver.
Qed.

(** ** [nextInt] returns, below its bound *)

Definition seed_ok (seed : Z) : Prop := 0 <= seed < LCG_MOD.

(** The seeds for which a draw below 61 may be rejected. *)
Definition rejected_window (seed : Z) : Prop := LCG_MOD - 60 * 2 ^ 17 <= seed < LCG_MOD.

Lemma lcg_ok seed : seed_ok (lcg seed).
Proof. unfold seed_ok, lcg. apply Z.mod_pos_bound. done. Qed.

Lemma next_bits31_range seed : 0 <= (next_bits31 seed).1 < 2 ^ 31.
Proof.
  pose proof (lcg_ok seed) as [? ?]. unfold next_bits31, LCG_MOD in *. cbn [fst].
  rewrite Z.shiftr_div_pow2 by lia. split; [by apply Z.div_pos|].
  apply Z.div_lt_upper_bound; lia.
Qed.

Lemma draw_drawn n seed v seed' :
  0 < n -> draw n seed = inl (v, seed') -> 0 <= v < n /\ seed_ok seed'.
Proof.
  intros Hn. unfold draw. pose proof (next_bits31_range seed) as Hb. unfold next_bits31 in *.
  cbn [fst] in *. case_match; [|done]. intros [= <- <-]. split; [|apply lcg_ok].
  apply Z.rem_bound_pos; lia.
Qed.

Lemma draw_rejected n seed seed' :
  0 < n <= 60 -> draw n seed = inr seed' -> seed' = lcg seed /\ rejected_window seed'.
Proof.
  intros Hn. unfold draw. pose proof (next_bits31_range seed) as Hb. unfold next_bits31 in *.
  cbn [fst] in *. destruct (0 <? _) eqn:E; [done|]. intros [= <-]. split; [done|].
  pose proof (lcg_ok seed) as [? ?]. split; [|done]. bool_prop.
  pose proof (Z.rem_bound_pos (Z.shiftr (lcg seed) 17) n ltac:(lia) ltac:(lia)).
  pose proof (Z.rem_le (Z.shiftr (lcg seed) 17) n ltac:(lia) ltac:(lia)).
  rewrite (wrap_i32_small (_ - _)) in E by (unfold i32_min, i32_max; lia).
  destruct (decide (Z.shiftr (lcg seed) 17 + n < 2 ^ 31)).
  { rewrite wrap_i32_small in E by (unfold i32_min, i32_max; lia). lia. }
  rewrite Z.shiftr_div_pow2 in * by lia. unfold LCG_MOD in *.
  pose proof (Z.mul_div_le (lcg seed) (2 ^ 17) ltac:(done)). lia.
Qed.

(** [2 ^ depth] rejected draws are that many consecutive seeds in the window. *)
Lemma draws_rejected depth n seed seed' :
  0 < n <= 60 -> draws depth n seed = inr seed' ->
  seed' = Nat.iter (2 ^ depth) lcg seed /\
  forall k, (0 < k <= 2 ^ depth)%nat -> rejected_window (Nat.iter k lcg seed).
Proof.
  intros Hn. revert seed seed'. induction depth as [|depth IH]; intros seed seed'; cbn [draws].
  - intros [-> Hw]%draw_rejected; [|done]. split; [done|]. intros k Hk. cbn in Hk.
    by replace k with 1%nat by lia.
  - destruct (draws depth n seed) as [?|mid] eqn:E; [done|]. apply IH in E as [-> H1].
    intros [-> H2]%IH. rewrite Nat.pow_succ_r'.
    replace (2 * 2 ^ depth)%nat with (2 ^ depth + 2 ^ depth)%nat by lia.
    rewrite <- Nat.iter_add. split; [done|]. intros k Hk.
    destruct (decide (k <= 2 ^ depth)%nat); [apply H1; lia|].
    replace k with (k - 2 ^ depth + 2 ^ depth)%nat by lia. rewrite Nat.iter_add. apply H2. lia.
Qed.

Lemma draws_drawn depth n seed v seed' :
  0 < n -> draws depth n seed = inl (v, seed') -> 0 <= v < n /\ seed_ok seed'.
Proof.
  intros Hn. revert seed. induction depth as [|depth IH]; intros seed; cbn [draws].
  - by apply draw_drawn.
  - destruct (draws depth n seed) as [[]|mid] eqn:E; [|by apply IH].
    intros [= <- <-]. by apply (IH seed).
Qed.

(** The distance of consecutive seeds is multiplied by [LCG_MUL] at each step. *)
Definition gap (seed : Z) (k : nat) : Z := Nat.iter (S k) lcg seed - Nat.iter k lcg seed.

Lemma lcg_sub a b : (lcg a - lcg b) mod LCG_MOD = LCG_MUL * (a - b) mod LCG_MOD.
Proof. unfold lcg. rewrite <- Zminus_mod. f_equal. lia. Qed.

Lemma gap_step seed k : gap seed k mod LCG_MOD = LCG_MUL ^ Z.of_nat k * gap seed 0 mod LCG_MOD.
Proof.
  induction k as [|k IH]; [by rewrite Z.mul_1_l|].
  rewrite Nat2Z.inj_succ, Z.pow_succ_r, <- Z.mul_assoc by lia.
  rewrite <- Z.mul_mod_idemp_r, <- IH, Z.mul_mod_idemp_r by done.
  unfold gap. cbn [Nat.iter nat_rect]. apply lcg_sub.
Qed.

Lemma odd_lcg seed : Z.odd (lcg seed) = negb (Z.odd seed).
Proof.
  unfold lcg. rewrite Z.mod_eq by done. rewrite Z.odd_sub, Z.odd_mul.
  change (Z.odd LCG_MOD) with false. rewrite andb_false_l, xorb_false_r.
  rewrite Z.odd_add, Z.odd_mul. change (Z.odd LCG_MUL) with true.
  rewrite andb_true_r. change (Z.odd LCG_ADD) with true. by rewrite xorb_true_r.
Qed.

Lemma gap_odd seed : Z.odd (gap seed 0) = true.
Proof.
  unfold gap. cbn [Nat.iter nat_rect]. rewrite Z.odd_sub, odd_lcg. by destruct (Z.odd seed).
Qed.

Lemma pow_square_mod a m j : 0 < m ->
  a ^ (2 ^ Z.of_nat j) mod m = Nat.iter j (fun x => x * x mod m) (a mod m).
Proof.
  intros Hm. induction j as [|j IH]; [by rewrite Z.pow_1_r|]. rewrite Nat.iter_succ.
  assert (0 <= 2 ^ Z.of_nat j) by (apply Z.pow_nonneg; lia).
  rewrite <- IH, <- Z.mul_mod, <- Z.pow_add_r by lia. do 2 f_equal.
  rewrite Nat2Z.inj_succ, Z.pow_succ_r by lia. lia.
Qed.

(** [LCG_MUL ^ (2 ^ 22)] is 1 plus an odd multiple of [2 ^ 24]. *)
Lemma multiplier_far : LCG_MUL ^ (2 ^ 22) mod LCG_MOD = 1 + 2 ^ 24 * 6026729.
Proof.
  change 22 with (Z.of_nat 22). rewrite pow_square_mod by done. vm_compute. reflexivity.
Qed.

(** So a gap after [2 ^ 22] steps is far from the gap at the start. *)
Lemma gap_far seed far :
  Z.of_nat far = 2 ^ 22 -> Z.abs (gap seed 0) < 2 ^ 23 -> 2 ^ 23 <= Z.abs (gap seed far).
Proof.
  intros Hf H0. pose proof (gap_step seed far) as Hs. rewrite Hf in Hs.
  rewrite <- Z.mul_mod_idemp_l, multiplier_far in Hs by done.
  pose proof (gap_odd seed) as Ho. revert Hs H0 Ho.
  generalize (gap seed far) (gap seed 0). intros g d Hs H0 Ho.
  apply Z.odd_spec in Ho as [e ->].
  rewrite (Z.mod_eq g), (Z.mod_eq (_ * _)) in Hs by done.
  generalize dependent (g / LCG_MOD). intros t Hs.
  generalize dependent ((1 + 2 ^ 24 * 6026729) * (2 * e + 1) / LCG_MOD). intros u Hs.
  unfold LCG_MOD in Hs. lia.
Qed.

(** No run of more than [2 ^ 22 + 1] seeds stays in the window. *)
Lemma window_left seed m :
  2 ^ 22 + 2 <= Z.of_nat m ->
  (forall k, (0 < k <= m)%nat -> rejected_window (Nat.iter k lcg seed)) -> False.
Proof.
  intros Hm Hw.
  assert (exists far, Z.of_nat far = 2 ^ 22) as [far Hf] by (eexists; by apply Z2Nat.id).
  assert (forall k, (k <= far)%nat -> Z.abs (gap (lcg seed) k) < 2 ^ 23) as Hgap.
  { intros k Hk. unfold gap. rewrite <- !Nat.iter_succ_r.
    destruct (Hw (S k)); [lia|]. destruct (Hw (S (S k))); [lia|]. unfold LCG_MOD in *. lia. }
  pose proof (gap_far _ _ Hf (Hgap 0%nat ltac:(lia))). specialize (Hgap far ltac:(lia)). lia.
Qed.

(** [next(n)] returns a value of [0 .. n - 1] from every seed. *)
Lemma hash_next_total n seed :
  0 < n <= 60 -> exists v seed', hash_next n seed = Ok (v, seed') /\ 0 <= v < n /\ seed_ok seed'.
Proof.
  intros Hn. unfold hash_next. destruct (is_power_of_two n).
  - pose proof (next_bits31_range seed) as Hb. unfold next_bits31 in *. cbn [fst] in Hb.
    eexists _, _. split; [done|]. split; [|apply lcg_ok].
    rewrite Z.shiftr_div_pow2 by lia. split; [apply Z.div_pos; nia|].
    apply Z.div_lt_upper_bound; nia.
  - destruct (draws DRAW_DEPTH n seed) as [[v seed']|seed'] eqn:E.
    + eexists _, _. split; [done|]. by eapply draws_drawn; [lia|].
    + exfalso. apply draws_rejected in E as [_ Hw]; [|done].
      eapply window_left; [|exact Hw]. unfold DRAW_DEPTH. rewrite Nat2Z.inj_pow. done.
Qed.
