(* ===== verification/CronMeaning.v ===== *)
(** * What a schedule expression means

    An expression printed from its parts parses to exactly the values the parts
    name, so a calendar matches a civil time when every field does; [H] stands
    for some value or progression of its range. Parsing never runs out of fuel,
    whatever the text. *)

From stdpp Require Import base gmap list strings pretty.
From Stdlib Require Import Ascii ZArith Lia.
From S2P Require Import Prelude Text Bytes Domain DagContract StoreTables ScheduleCalendar.
From S2P Require Import ComponentReceipts.

Open Scope Z_scope.

(** ** Expressions and what they print as *)

(** [*], [*/s]; [a], [a-b], [a/s], [a-b/s]; [H], [H/s], [H(a-b)], [H(a-b)/s]. *)
Inductive Part : Type :=
| Every (step : option Z)
| Span (first : Z) (last step : option Z)
| Hashed (within : option (Z * Z)) (step : option Z).

Definition print_tail (mark : string) (o : option Z) : string :=
  match o with Some z => mark +:+ fmt_z z | None => "" end.

Definition print_part (p : Part) : string :=
  match p with
  | Every step => "*" +:+ print_tail "/" step
  | Span first last step => fmt_z first +:+ print_tail "-" last +:+ print_tail "/" step
  | Hashed within step =>
      "H" +:+ match within with
              | Some (a, b) => "(" +:+ fmt_z a +:+ "-" +:+ fmt_z b +:+ ")"
              | None => ""
              end +:+ print_tail "/" step
  end.

Definition print_field (parts : list Part) : string := sjoin "," (map print_part parts).
Definition print_expression (fields : list (list Part)) : string :=
  sjoin " " (map print_field fields).

(** The values a part may draw from: the whole field or its named range. *)
Definition hash_range (index : nat) (within : option (Z * Z)) : Z * Z :=
  default (field_lower index, hash_upper index (field_upper index)) within.

(** The progression a part stands for; [H] leaves its start open. *)
Definition part_run (index : nat) (p : Part) (r : Run) : Prop :=
  match p with
  | Every step => r = MkRun (field_lower index) (field_upper index) (default 1 step)
  | Span first (Some last) step => r = MkRun first last (default 1 step)
  | Span first None (Some step) => r = MkRun first (field_upper index) step
  | Span first None None => r = MkRun first first 1
  | Hashed within None =>
      exists v, (hash_range index within).1 <= v <= (hash_range index within).2 /\ r = MkRun v v 1
  | Hashed within (Some step) =>
      exists o, 0 <= o < step /\
        r = MkRun ((hash_range index within).1 + o) (hash_range index within).2 step
  end.

(** Values within the field, ranges in order, and steps that do not overflow. *)
Definition part_ok (index : nat) (p : Part) : Prop :=
  let step_ok step := forall s, step = Some s -> 1 <= s <= i32_max - field_upper index in
  match p with
  | Every step => step_ok step
  | Span first last step =>
      field_lower index <= first <= field_upper index /\ step_ok step /\
      forall b, last = Some b -> first <= b <= field_upper index
  | Hashed within step =>
      (forall a b, within = Some (a, b) ->
         field_lower index <= a <= b /\ b <= hash_upper index (field_upper index)) /\
      forall s, step = Some s ->
        1 <= s <= (hash_range index within).2 - (hash_range index within).1 + 1
  end.

(** ** Reading them back *)

Definition plain (s : string) : Prop := all_bytes is_ascii_digit s = true.

Lemma fmt_z_plain z : 0 <= z -> plain (fmt_z z).
Proof.
  intros Hz. destruct (fmt_z_cases z) as [[_ ->]|[? _]]; [|lia]. by apply pretty_N_digits.
Qed.

Lemma fmt_z_digit z : 0 <= z -> exists c t, fmt_z z = String c t /\ is_ascii_digit c = true.
Proof.
  intros Hz. pose proof (fmt_z_plain z Hz) as Hp. unfold plain in Hp.
  destruct (fmt_z_cases z) as [[_ E]|[? _]]; [|lia]. rewrite E in *.
  destruct (pretty_N_digits (Z.to_N z)) as (_ & _ & Hne).
  destruct (pretty (Z.to_N z)) as [|c t]; [done|]. cbn in Hp. apply andb_true_iff in Hp as [? _].
  by exists c, t.
Qed.

Lemma split_once_app c l r : contains_char c l = false -> split_once c (l +:+ String c r) = Some (l, r).
Proof.
  unfold contains_char, any_bytes. rewrite negb_false_iff.
  induction l as [|a l IH]; cbn.
  - by rewrite Ascii.eqb_refl.
  - rewrite Ascii.eqb_sym. intros [Ha Hl]%andb_true_iff. apply negb_true_iff in Ha.
    by rewrite Ha, IH.
Qed.

Lemma split_once_absent c s : contains_char c s = false -> split_once c s = None.
Proof.
  pose proof (split_once_spec c s) as H. destruct (split_once c s) as [[l r]|]; [|done].
  destruct H as [-> _]. unfold contains_char, any_bytes. rewrite all_bytes_app. cbn.
  by rewrite Ascii.eqb_refl, andb_false_r.
Qed.

Lemma plain_no c s : is_ascii_digit c = false -> plain s -> contains_char c s = false.
Proof. apply contains_char_false. Qed.

Lemma contains_char_app c a b : contains_char c (a +:+ b) = contains_char c a || contains_char c b.
Proof. unfold contains_char, any_bytes. rewrite all_bytes_app. apply negb_andb. Qed.

Lemma parse_positive_print s : 1 <= s <= i32_max -> parse_positive (fmt_z s) = Ok s.
Proof.
  intros Hs. unfold parse_positive. rewrite parse_i32_fmt_z.
  - cbn. by rewrite (proj2 (Z.leb_gt _ _)) by lia.
  - unfold in_i32, i32_min, i32_max in *. apply andb_true_iff. rewrite !Z.leb_le. lia.
Qed.

Lemma parse_bounded_print v lower upper :
  lower <= v <= upper -> 0 <= v <= 64 -> parse_bounded (fmt_z v) lower upper = Ok v.
Proof.
  intros Hv Hb. unfold parse_bounded. rewrite parse_i32_fmt_z.
  - cbn. by rewrite (proj2 (Z.ltb_ge _ _)), (proj2 (Z.ltb_ge _ _)) by lia.
  - unfold in_i32, i32_min, i32_max in *. apply andb_true_iff. rewrite !Z.leb_le. lia.
Qed.

Lemma field_bounds index : (index < 5)%nat ->
  0 <= field_lower index <= field_upper index /\ field_upper index <= 59 /\
  hash_upper index (field_upper index) <= field_upper index /\
  field_lower index <= hash_upper index (field_upper index).
Proof. intros H. do 5 (destruct index as [|index]; [vm_compute; intuition discriminate|]). lia. Qed.

#[local] Opaque field_lower field_upper hash_upper range_bits parse_positive.

(** A mask is the set of values of a progression. *)
Definition mask_of (bits : Z) (P : Z -> Prop) : Prop :=
  forall v, 0 <= v -> Z.testbit bits v = true <-> P v.

Lemma range_bits_mask start last step :
  0 <= start < 64 -> last < 64 -> 1 <= step <= i32_max - last ->
  exists bits, range_bits start last step = Ok bits /\
    mask_of bits (fun v => in_run v (MkRun start last step)).
Proof. intros. apply range_bits_exact; lia. Qed.

Lemma shl1_mask v : 0 <= v < 64 -> mask_of (shl1 v) (fun w => in_run w (MkRun v v 1)).
Proof.
  intros Hv w Hw. rewrite shl1_testbit by lia. rewrite Z.eqb_eq. unfold in_run. cbn.
  split; [intros ->; split; [lia|exists 0; lia]|intros [? _]; lia].
Qed.

Lemma step_default index step :
  (forall s, step = Some s -> 1 <= s <= i32_max - field_upper index) -> (index < 5)%nat ->
  1 <= default 1 step <= i32_max - field_upper index.
Proof.
  intros Hs Hi. pose proof (field_bounds index Hi). destruct step as [s|]; cbn [from_option id]; [by apply Hs|].
  unfold i32_max. lia.
Qed.

Section Parts.
Context (index : nat) (Hi : (index < 5)%nat).

(** The part [p] parses, to the mask of a progression it stands for. *)
Definition part_parses (p : Part) (hash : Z) : Prop :=
  exists r bits hash',
    parse_field_part (print_part p) index (field_lower index) (field_upper index) hash
      = Ok (bits, hash') /\
    part_run index p r /\ mask_of bits (fun v => in_run v r).

Lemma every_parses step hash : part_ok index (Every step) -> part_parses (Every step) hash.
Proof.
  intros Hok. pose proof (field_bounds index Hi) as (Hl & Hu & _).
  pose proof (step_default index step Hok Hi) as Hs.
  destruct (range_bits_mask (field_lower index) (field_upper index) (default 1 step))
    as (bits & E & Hm); [lia..|].
  exists (MkRun (field_lower index) (field_upper index) (default 1 step)), bits, hash.
  split_and!; [|done..]. unfold parse_field_part. destruct step as [s|]; cbn [from_option id print_part] in *.
  - cbn. rewrite parse_positive_print by lia.
    cbn. by rewrite E.
  - cbn. by rewrite E.
Qed.

(** A part that begins with a digit is a number or a range. *)
Lemma span_form a rest hash lower upper :
  0 <= a ->
  parse_field_part (fmt_z a +:+ rest) index lower upper hash =
  match split_once "-" (fmt_z a +:+ rest) with
  | Some (start_text, rest) =>
      start ← parse_bounded start_text lower upper;
      ending ← match split_once "/" rest with
               | Some (end_text, step_text) => step ← parse_positive step_text; Ok (end_text, step)
               | None => Ok (rest, 1)
               end;
      let '(end_text, step) := ending in
      last ← parse_bounded end_text lower upper;
      check (last <? start) (InvalidTriggerIngress "schedule range end precedes start") ;;
      bits ← range_bits start last step; Ok (bits, hash)
  | None =>
  match split_once "/" (fmt_z a +:+ rest) with
  | Some (start_text, step_text) =>
      start ← parse_bounded start_text lower upper;
      step ← parse_positive step_text;
      bits ← range_bits start upper step; Ok (bits, hash)
  | None => value ← parse_bounded (fmt_z a +:+ rest) lower upper; Ok (shl1 value, hash)
  end end.
Proof.
  intros Ha. destruct (fmt_z_digit a Ha) as (c & t & -> & Hc). unfold parse_field_part.
  assert (Ascii.eqb c "*" = false /\ Ascii.eqb "*" c = false /\ Ascii.eqb "H" c = false) as (E1 & E2 & E3).
  { split_and!; apply Ascii.eqb_neq; intros ?; subst; done. }
  cbn [String.append is_empty check mbind result_bind String.eqb strip_prefix].
  rewrite E1, E2. unfold starts_with. cbn [strip_prefix]. by rewrite E3.
Qed.

Lemma span_parses a b step hash : part_ok index (Span a b step) -> part_parses (Span a b step) hash.
Proof.
  intros (Ha & Hs & Hb). pose proof (field_bounds index Hi) as (Hl & Hu & _).
  pose proof (step_default index step Hs Hi) as Hd.
  pose proof (fmt_z_plain a ltac:(lia)) as Pa. unfold part_parses. cbn [print_part].
  rewrite span_form by lia. destruct b as [b|]; cbn [print_tail].
  - specialize (Hb b eq_refl). pose proof (fmt_z_plain b ltac:(lia)) as Pb.
    destruct (range_bits_mask a b (default 1 step)) as (bits & E & Hm); [lia..|].
    exists (MkRun a b (default 1 step)), bits, hash. split_and!; [|done..].
    rewrite !sapp_assoc. cbn [String.append]. rewrite split_once_app by by apply plain_no.
    rewrite parse_bounded_print by lia. cbn [mbind result_bind].
    destruct step as [s|]; cbn [print_tail from_option id String.append] in *.
    + rewrite split_once_app by by apply plain_no. rewrite parse_positive_print by lia.
      cbn [mbind result_bind]. rewrite parse_bounded_print by lia. cbn [mbind result_bind].
      rewrite (proj2 (Z.ltb_ge _ _)) by lia. cbn [check mbind result_bind]. by rewrite E.
    + rewrite sapp_nil_r, split_once_absent by by apply plain_no. cbn [mbind result_bind].
      rewrite parse_bounded_print by lia. cbn [mbind result_bind].
      rewrite (proj2 (Z.ltb_ge _ _)) by lia. cbn [check mbind result_bind]. by rewrite E.
  - cbn [String.append]. destruct step as [s|]; cbn [print_tail from_option id String.append] in *.
    + pose proof (fmt_z_plain s ltac:(lia)) as Ps.
      destruct (range_bits_mask a (field_upper index) s) as (bits & E & Hm); [lia..|].
      exists (MkRun a (field_upper index) s), bits, hash. split_and!; [|done..].
      rewrite split_once_absent.
      2:{ rewrite contains_char_app, plain_no by done. cbn.
          change (contains_char "-" (fmt_z s) = false). by apply plain_no. }
      rewrite split_once_app by by apply plain_no.
      rewrite parse_bounded_print, parse_positive_print by lia. cbn [mbind result_bind].
      by rewrite E.
    + exists (MkRun a a 1), (shl1 a), hash. split_and!; [|done|apply shl1_mask; lia].
      rewrite sapp_nil_r, !split_once_absent by by apply plain_no.
      by rewrite parse_bounded_print by lia.
Qed.
Lemma hash_range_bounds within step :
  part_ok index (Hashed within step) ->
  0 <= (hash_range index within).1 <= (hash_range index within).2 /\
  (hash_range index within).2 <= 59.
Proof.
  intros [Hw _]. pose proof (field_bounds index Hi) as (Hl & Hu & Hh & Hlh).
  destruct within as [[a b]|]; unfold hash_range; cbn [from_option id fst snd]; [|lia].
  destruct (Hw a b eq_refl). lia.
Qed.

(** The two ways a hashed part uses its draw. *)
Lemma hash_any within hash lo hi :
  hash_range index within = (lo, hi) -> 0 <= lo <= hi -> hi <= 59 ->
  exists r bits hash',
    (drawn ← hash_next (hi - lo + 1) hash; let '(value, hash) := drawn in
     Ok (shl1 (lo + value), hash)) = Ok (bits, hash') /\
    part_run index (Hashed within None) r /\ mask_of bits (fun v => in_run v r).
Proof.
  intros E Hl Hu. destruct (hash_next_total (hi - lo + 1) hash) as (v & hash' & -> & Hv & _); [lia|].
  cbn [mbind result_bind]. exists (MkRun (lo + v) (lo + v) 1), (shl1 (lo + v)), hash'.
  split_and!; [done| |apply shl1_mask; lia]. cbn [part_run]. rewrite E. exists (lo + v).
  cbn [fst snd]. split; [lia|done].
Qed.

Lemma hash_stepped within hash lo hi step :
  hash_range index within = (lo, hi) -> 0 <= lo <= hi -> hi <= 59 -> 1 <= step <= hi - lo + 1 ->
  exists r bits hash',
    (drawn ← hash_next step hash; let '(value, hash) := drawn in
     bits ← range_bits (lo + value) hi step; Ok (bits, hash)) = Ok (bits, hash') /\
    part_run index (Hashed within (Some step)) r /\ mask_of bits (fun v => in_run v r).
Proof.
  intros E Hl Hu Hs. destruct (hash_next_total step hash) as (v & hash' & -> & Hv & _); [lia|].
  cbn [mbind result_bind]. destruct (range_bits_mask (lo + v) hi step) as (bits & Eb & Hm);
    [unfold i32_max; lia..|].
  exists (MkRun (lo + v) hi step), bits, hash'. rewrite Eb.
  split_and!; [done| |done]. cbn [part_run]. rewrite E. by exists v.
Qed.

Lemma hash_form rest hash lower upper :
  parse_field_part (String "H" rest) index lower upper hash
  = parse_hash_part (String "H" rest) index lower upper hash.
Proof. by destruct rest. Qed.

Lemma hash_range_text a b tail :
  plain (fmt_z a) -> plain (fmt_z b) ->
  split_once "-" (fmt_z a +:+ "-" +:+ fmt_z b +:+ tail) = Some (fmt_z a, fmt_z b +:+ tail).
Proof. intros Pa Pb. cbn [String.append]. by rewrite split_once_app by by apply plain_no. Qed.

Lemma no_paren s : plain s -> all_bytes (fun x => negb (Ascii.eqb x ")")) s = true.
Proof.
  intros Hs. eapply all_bytes_impl; [|exact Hs]. intros c Hc. apply negb_true_iff, Ascii.eqb_neq.
  by intros ->.
Qed.

Lemma hash_range_reads a b step :
  plain (fmt_z a) -> plain (fmt_z b) -> (forall s, step = Some s -> 1 <= s <= i32_max) ->
  parse_hash_range (fmt_z a +:+ String "-" (fmt_z b +:+ String ")" (print_tail "/" step)))
  = Ok (fmt_z a +:+ String "-" (fmt_z b), default 0 step).
Proof.
  intros Pa Pb Hs. unfold parse_hash_range.
  replace (fmt_z a +:+ String "-" (fmt_z b +:+ String ")" (print_tail "/" step)))
    with ((fmt_z a +:+ String "-" (fmt_z b)) +:+ String ")" (print_tail "/" step))
    by by rewrite sapp_assoc.
  destruct step as [s|]; cbn [print_tail String.append from_option id].
  - specialize (Hs s eq_refl). pose proof (fmt_z_plain s ltac:(lia)) as Ps.
    pose proof (rsplit_once_last ")" "/" (fmt_z a +:+ String "-" (fmt_z b)) (fmt_z s)) as Hr.
    cbn [String.append] in Hr. rewrite Hr by (cbn; by apply no_paren).
    by rewrite parse_positive_print.
  - assert (rsplit_once ")/" ((fmt_z a +:+ String "-" (fmt_z b)) +:+ ")") = None) as ->.
    { destruct (rsplit_once _ _) as [[l r]|] eqn:E; [|done]. apply rsplit_once_Some in E.
      assert (contains_char "/" ((fmt_z a +:+ String "-" (fmt_z b)) +:+ ")") = false) as Hc.
      { rewrite !contains_char_app, (plain_no "/" (fmt_z a)) by done.
        change (String "-" (fmt_z b)) with ("-" +:+ fmt_z b).
        by rewrite contains_char_app, (plain_no "/" (fmt_z b)). }
      rewrite E, !contains_char_app in Hc. cbn in Hc. by destruct (contains_char "/" l). }
    by rewrite (proj2 (strip_suffix_Some ")" _ _) eq_refl).
Qed.

Lemma hash_whole_parses step hash :
  part_ok index (Hashed None step) -> part_parses (Hashed None step) hash.
Proof.
  intros Hok. pose proof (hash_range_bounds _ _ Hok) as Hb. destruct Hok as [_ Hs].
  unfold part_parses. cbn [print_part String.append]. rewrite hash_form. unfold parse_hash_part.
  unfold hash_range in Hb, Hs. cbn [from_option id fst snd] in Hb, Hs.
  destruct step as [s|]; cbn [print_tail String.append String.eqb strip_prefix].
  - specialize (Hs s eq_refl). cbn. rewrite parse_positive_print by (unfold i32_max; lia).
    cbn [mbind result_bind]. rewrite (proj2 (Z.ltb_ge _ s)) by lia. cbn [check mbind result_bind].
    apply (hash_stepped None hash (field_lower index) (hash_upper index (field_upper index)) s); [done|lia..].
  - cbn. apply (hash_any None hash (field_lower index) (hash_upper index (field_upper index))); [done|lia..].
Qed.

Lemma hash_within_parses a b step hash :
  part_ok index (Hashed (Some (a, b)) step) -> part_parses (Hashed (Some (a, b)) step) hash.
Proof.
  intros Hok. pose proof (hash_range_bounds _ _ Hok) as Hb. destruct Hok as [Hw Hs].
  destruct (Hw a b eq_refl) as [Ha Hbu]. pose proof (field_bounds index Hi) as (Hl & Hu & Hh & Hlh).
  unfold part_parses. cbn [print_part]. rewrite !sapp_assoc. cbn [String.append].
  rewrite hash_form. unfold parse_hash_part.
  unfold hash_range in Hb, Hs. cbn [from_option id fst snd] in Hb, Hs.
  pose proof (fmt_z_plain a ltac:(lia)) as Pa. pose proof (fmt_z_plain b ltac:(lia)) as Pb.
  assert (String.eqb (String "H" (String "(" (fmt_z a +:+ String "-" (fmt_z b +:+ String ")"
    (print_tail "/" step))))) "H" = false) as -> by done.
  cbn [strip_prefix Ascii.eqb Bool.eqb].
  rewrite hash_range_reads by (try done; intros s ->; specialize (Hs s eq_refl); unfold i32_max; lia).
  cbn [mbind result_bind]. rewrite split_once_app by by apply plain_no. cbn [ok_or mbind result_bind].
  rewrite !parse_bounded_print by lia. cbn [mbind result_bind].
  rewrite (proj2 (Z.ltb_ge b a)) by lia. cbn [check mbind result_bind].
  destruct step as [s|]; cbn [from_option id].
  - specialize (Hs s eq_refl). rewrite (proj2 (Z.eqb_neq s 0)), (proj2 (Z.ltb_ge _ s)) by lia.
    cbn [check mbind result_bind]. apply (hash_stepped (Some (a, b)) hash a b s); [done|lia..].
  - cbn. apply (hash_any (Some (a, b)) hash a b); [done|lia..].
Qed.
Lemma part_parses_ok p hash : part_ok index p -> part_parses p hash.
Proof.
  destruct p as [step|a b step|[[a b]|] step]; [apply every_parses|apply span_parses|
    apply hash_within_parses|apply hash_whole_parses].
Qed.

(** The runs [rs] of a field's parts, and the values they hold together. *)
Definition field_runs (parts : list Part) (rs : list Run) : Prop := Forall2 (part_run index) parts rs.
Definition in_runs (v : Z) (rs : list Run) : Prop := Exists (in_run v) rs.

Lemma parts_parse parts hash bits0 :
  Forall (part_ok index) parts ->
  exists rs bits hash',
    try_fold (fun state part =>
      let '(bits, hash) := state in
      parsed ← parse_field_part part index (field_lower index) (field_upper index) hash;
      let '(more, hash) := parsed in Ok (Z.lor bits more, hash))
      (bits0, hash) (map print_part parts) = Ok (bits, hash') /\
    field_runs parts rs /\
    forall v, 0 <= v -> Z.testbit bits v = true <-> Z.testbit bits0 v = true \/ in_runs v rs.
Proof.
  intros Hp. revert hash bits0. induction Hp as [|p parts Hp Hparts IH]; intros hash bits0.
  - exists [], bits0, hash. split_and!; [done|constructor|]. unfold in_runs.
    setoid_rewrite Exists_nil. tauto.
  - cbn [map try_fold]. destruct (part_parses_ok p hash Hp) as (r & bits & hash' & -> & Hr & Hm).
    cbn [mbind result_bind]. destruct (IH hash' (Z.lor bits0 bits)) as (rs & bits' & hash'' & E & Hrs & Hv).
    exists (r :: rs), bits', hash''. split_and!; [exact E|by constructor|].
    intros v Hv0. rewrite Hv, Z.lor_spec, orb_true_iff, (Hm v Hv0) by done.
    unfold in_runs. rewrite Exists_cons. tauto.
Qed.
End Parts.

(** ** Joining and splitting *)

Lemma split_char_cons c w s :
  contains_char c w = false -> split_char c (w +:+ String c s) = w :: split_char c s.
Proof.
  unfold contains_char, any_bytes. rewrite negb_false_iff.
  induction w as [|a w IH]; cbn; [by rewrite Ascii.eqb_refl|].
  rewrite Ascii.eqb_sym. intros [Ha Hw]%andb_true_iff. apply negb_true_iff in Ha. by rewrite Ha, IH.
Qed.

Lemma split_char_join c l :
  l <> [] -> Forall (fun w => contains_char c w = false) l -> split_char c (sjoin (schar c) l) = l.
Proof.
  intros Hne Hl. induction Hl as [|w l Hw Hl IH]; [done|].
  destruct l as [|w' l]; [by apply split_char_none|].
  change (sjoin (schar c) (w :: w' :: l)) with (w +:+ String c (sjoin (schar c) (w' :: l))).
  rewrite split_char_cons, IH; done.
Qed.

Definition word_ok (w : string) : Prop := w <> "" /\ all_bytes (fun c => negb (is_ascii_whitespace c)) w = true.

Lemma ascii_words_take cur w s :
  all_bytes (fun c => negb (is_ascii_whitespace c)) w = true ->
  ascii_words_go cur (w +:+ s) = ascii_words_go (srev_app w cur) s.
Proof.
  revert cur. induction w as [|c w IH]; intros cur; cbn; [done|].
  intros [Hc Hw]%andb_true_iff. apply negb_true_iff in Hc. rewrite Hc. by apply IH.
Qed.

Lemma srev_app_nonempty w cur : w <> "" -> is_empty (srev_app w cur) = false.
Proof.
  assert (forall w cur, is_empty cur = false -> is_empty (srev_app w cur) = false) as H.
  { induction w0 as [|c w0 IH]; intros cur0 Hc; [done|]. by apply IH. }
  destruct w; [done|]. intros _. cbn [srev_app]. apply H. done.
Qed.

Lemma split_words_join l :
  Forall word_ok l -> split_ascii_whitespace (sjoin " " l) = l.
Proof.
  unfold split_ascii_whitespace. induction 1 as [|w l [Hne Hw] Hl IH]; [done|].
  pose proof (srev_app_nonempty w "" Hne) as He.
  assert (srev (srev_app w "") = w) as Hr by apply srev_involutive.
  destruct l as [|w' l].
  - cbn [sjoin]. rewrite <- (sapp_nil_r w) at 1. rewrite ascii_words_take by done.
    cbn [ascii_words_go]. by rewrite He, Hr.
  - change (sjoin " " (w :: w' :: l)) with (w +:+ String " " (sjoin " " (w' :: l))).
    rewrite ascii_words_take by done. cbn [ascii_words_go].
    change (is_ascii_whitespace " ") with true. cbv iota. by rewrite He, Hr, IH.
Qed.

(** The characters of a printed part. *)
Definition part_char (c : ascii) : bool :=
  is_ascii_digit c || one_of ["*"; "-"; "/"; "H"; "("; ")"]%char c.

Lemma fmt_z_chars z : 0 <= z -> all_bytes part_char (fmt_z z) = true.
Proof.
  intros Hz. eapply all_bytes_impl; [|by apply fmt_z_plain]. intros c Hc. unfold part_char.
  by rewrite Hc.
Qed.

Lemma print_tail_chars mark o :
  all_bytes part_char mark = true -> (forall z, o = Some z -> 0 <= z) ->
  all_bytes part_char (print_tail mark o) = true.
Proof.
  intros Hm Ho. destruct o as [z|]; [|done]. cbn. rewrite all_bytes_app, Hm. apply fmt_z_chars.
  by apply Ho.
Qed.

Lemma print_part_chars index p :
  (index < 5)%nat -> part_ok index p ->
  all_bytes part_char (print_part p) = true /\ print_part p <> "".
Proof.
  intros Hi Hok. pose proof (field_bounds index Hi) as (Hl & _).
  destruct p as [step|a b step|within step]; cbn [print_part].
  - split; [|done]. cbn in Hok. rewrite all_bytes_app, print_tail_chars; [done..|].
    intros z Hz. specialize (Hok z Hz). lia.
  - destruct Hok as (Ha & Hs & Hb). split.
    + rewrite !all_bytes_app, fmt_z_chars by lia. rewrite !print_tail_chars; [done..| |done|].
      * intros z Hz. specialize (Hs z Hz). lia.
      * intros z Hz. specialize (Hb z Hz). lia.
    + destruct (fmt_z_digit a ltac:(lia)) as (c & t & -> & _). done.
  - pose proof (hash_range_bounds index Hi _ _ Hok) as Hr. destruct Hok as [Hw Hs].
    split; [|done]. rewrite !all_bytes_app, (print_tail_chars "/" step); [|done|].
    + destruct within as [[a b]|]; [|done]. destruct (Hw a b eq_refl).
      by rewrite !all_bytes_app, !fmt_z_chars by lia.
    + intros z Hz. specialize (Hs z Hz). lia.
Qed.

Lemma part_char_word w : all_bytes part_char w = true ->
  all_bytes (fun c => negb (is_ascii_whitespace c)) w = true.
Proof. apply all_bytes_impl. intros [[] [] [] [] [] [] [] []]; done. Qed.

Lemma join_word_ok l :
  l <> [] -> Forall (fun w => all_bytes part_char w = true /\ w <> "") l -> word_ok (sjoin "," l).
Proof.
  intros Hne Hl. induction Hl as [|w l [Hc Hn] Hl IH]; [done|].
  destruct l as [|w' l]; [split; [done|by apply part_char_word]|].
  change (sjoin "," (w :: w' :: l)) with (w +:+ String "," (sjoin "," (w' :: l))).
  destruct IH as [_ Hall]; [done|]. split; [by destruct w|].
  rewrite all_bytes_app, part_char_word by done. exact Hall.
Qed.

Lemma words_of index parts :
  (index < 5)%nat -> parts <> [] -> Forall (part_ok index) parts ->
  split_char "," (print_field parts) = map print_part parts /\ word_ok (print_field parts).
Proof.
  intros Hi Hne Hp.
  assert (Forall (fun w => all_bytes part_char w = true /\ w <> "") (map print_part parts)) as Hw.
  { rewrite Forall_map. eapply Forall_impl; [exact Hp|]. intros p. by apply print_part_chars. }
  assert (map print_part parts <> []) as Hm by by destruct parts.
  unfold print_field. split; [|by apply join_word_ok].
  apply (split_char_join ","); [done|]. eapply Forall_impl; [exact Hw|].
  intros w [Hc _]. by eapply contains_char_false; [|exact Hc].
Qed.

(** Every part of field [index] on is valid, and every field has one. *)
Definition fields_ok (index : nat) (fields : list (list Part)) : Prop :=
  forall k parts, fields !! k = Some parts -> parts <> [] /\ Forall (part_ok (index + k)) parts.

Lemma fields_ok_cons index parts fields :
  fields_ok index (parts :: fields) ->
  (parts <> [] /\ Forall (part_ok index) parts) /\ fields_ok (S index) fields.
Proof.
  intros H. split.
  - rewrite <- (Nat.add_0_r index). by apply (H 0%nat).
  - intros k ps Hk. rewrite Nat.add_succ_comm. by apply (H (S k)).
Qed.

(** A run that is not empty makes its field's mask nonzero. *)
Lemma part_run_inhabited index p r :
  (index < 5)%nat -> part_ok index p -> part_run index p r -> 0 <= run_first r /\ in_run (run_first r) r.
Proof.
  intros Hi Hok Hr. pose proof (field_bounds index Hi) as (Hl & _).
  assert (0 <= run_first r <= run_last r) as Hb.
  { destruct p as [step|a b step|within step]; cbn [part_ok part_run] in Hok, Hr.
    - subst r. cbn. lia.
    - destruct Hok as (Ha & _ & Hb). destruct b as [b|]; [specialize (Hb b eq_refl)|clear Hb; destruct step];
        subst r; cbn; lia.
    - pose proof (hash_range_bounds index Hi within step Hok). destruct Hok as [_ Hs].
      destruct step as [s|]; [specialize (Hs s eq_refl)|]; destruct Hr as (o & Ho & ->); cbn; lia. }
  split; [lia|]. split; [lia|]. exists 0. lia.
Qed.

Lemma fields_parse index fields hash :
  fields_ok index fields -> (index + length fields <= 5)%nat ->
  exists runs bits, parse_fields index (map print_field fields) hash = Ok bits /\
    length runs = length fields /\ length bits = length fields /\
    forall k parts rs b, fields !! k = Some parts -> runs !! k = Some rs -> bits !! k = Some b ->
      field_runs (index + k) parts rs /\ mask_of b (fun v => in_runs v rs).
Proof.
  revert index hash. induction fields as [|parts fields IH]; intros index hash Hok Hlen.
  { exists [], []. by split_and!. }
  apply fields_ok_cons in Hok as [[Hne Hp] Hok]. cbn [length] in Hlen.
  destruct (words_of index parts) as [Hw _]; [lia|done..|].
  destruct (parts_parse index ltac:(lia) parts hash 0 Hp) as (rs & b & hash' & E & Hrs & Hv).
  assert (mask_of b (fun v => in_runs v rs)) as Hm.
  { intros v Hv0. rewrite Hv, Z.bits_0 by done. naive_solver. }
  destruct (IH (S index) hash' Hok) as (runs & bits & Ef & Hl1 & Hl2 & Hk); [lia|].
  exists (rs :: runs), (b :: bits). cbn [map parse_fields length]. split_and!; [|lia..|].
  - unfold parse_field. rewrite Hw, E. cbn [mbind result_bind].
    assert (b <> 0) as Hb.
    { intros ->. destruct Hrs as [|p r ps rs Hr _]; [done|]. apply Forall_cons in Hp as [Hp _].
      destruct (part_run_inhabited index p r) as [H0 Hin]; [lia|done..|].
      assert (in_runs (run_first r) (r :: rs)) as Hx by by left.
      apply Hm in Hx; [|done]. by rewrite Z.bits_0 in Hx. }
    rewrite (proj2 (Z.eqb_neq _ _) Hb). cbn [check mbind result_bind]. by rewrite Ef.
  - intros [|k] parts' rs' b'; cbn.
    + intros [= <-] [= <-] [= <-]. by rewrite Nat.add_0_r.
    + intros. rewrite Nat.add_succ_r, <- Nat.add_succ_l. by eapply Hk.
Qed.

(** ** The calendar *)

Definition civil_values (t : Civil) : list Z :=
  [cv_minute t; cv_hour t; cv_day_of_month t; cv_month t; cv_day_of_week t].

(** What PostgreSQL's [extract] yields: Sunday is day 0. *)
Definition civil_time (t : Civil) : Prop :=
  0 <= cv_minute t < 60 /\ 0 <= cv_hour t < 24 /\ 1 <= cv_day_of_month t <= 31 /\
  1 <= cv_month t <= 12 /\ 0 <= cv_day_of_week t <= 6.

(** Field [k] of the expression names the value [v]; a Sunday is also day 7. *)
Definition names (k : nat) (v : Z) (rs : list Run) : Prop :=
  in_runs v rs \/ (k = 4%nat /\ v = 0 /\ in_runs 7 rs).

Lemma bit_set_mask b P v : mask_of b P -> 0 <= v < 64 -> bit_set b v = true <-> P v.
Proof.
  intros Hm Hv. unfold bit_set. rewrite (proj2 (Z.leb_le _ _)), (proj2 (Z.ltb_lt _ _)) by lia.
  apply Hm. lia.
Qed.

Lemma bit_set_sunday b P v :
  mask_of b P -> 0 <= v <= 6 -> bit_set (normalize_day_of_week b) v = true <-> P v \/ (v = 0 /\ P 7).
Proof.
  intros Hm Hv. unfold normalize_day_of_week.
  pose proof (bit_set_mask b P 7 Hm ltac:(lia)) as H7.
  destruct (bit_set b 7).
  - unfold bit_set. rewrite (proj2 (Z.leb_le 0 _)), (proj2 (Z.ltb_lt _ _)) by lia. cbn [andb].
    rewrite Z.land_spec, Z.lor_spec.
    assert (Z.testbit (Z.lxor (2 ^ 64 - 1) (2 ^ 7)) v = true /\ Z.testbit 1 v = (v =? 0)) as [-> ->].
    { assert (v = 0 \/ v = 1 \/ v = 2 \/ v = 3 \/ v = 4 \/ v = 5 \/ v = 6) as Hc by lia.
      by destruct_or! Hc; subst. }
    rewrite andb_true_r, orb_true_iff, Z.eqb_eq, (Hm v) by lia. naive_solver.
  - rewrite (bit_set_mask b P) by (done || lia). naive_solver.
Qed.

(** A field's mask after the last step of the parser. *)
Lemma field_mask k b rs v :
  mask_of b (fun v => in_runs v rs) -> 0 <= v < 64 -> (k = 4%nat -> v <= 6) ->
  bit_set (if decide (k = 4%nat) then normalize_day_of_week b else b) v = true <-> names k v rs.
Proof.
  intros Hm Hv H4. unfold names. case_decide as Hk.
  - rewrite (bit_set_sunday b _ v Hm) by (specialize (H4 Hk); lia). naive_solver.
  - rewrite (bit_set_mask b _ v Hm) by lia. naive_solver.
Qed.

Lemma print_words e :
  length e = 5%nat -> fields_ok 0 e ->
  split_ascii_whitespace (print_expression e) = map print_field e.
Proof.
  intros Hl Hok. apply split_words_join, Forall_map, Forall_lookup. intros k parts Hk.
  destruct (Hok k parts Hk) as [Hne Hp]. apply (words_of k); [|done..].
  apply lookup_lt_Some in Hk. lia.
Qed.

Lemma matches_names bits runs c t :
  length bits = 5%nat -> length runs = 5%nat ->
  sc_bits c = alter normalize_day_of_week 4%nat bits -> civil_time t ->
  (forall k b rs, bits !! k = Some b -> runs !! k = Some rs -> mask_of b (fun v => in_runs v rs)) ->
  matches_local c t = true <->
  forall k v rs, civil_values t !! k = Some v -> runs !! k = Some rs -> names k v rs.
Proof.
  intros Hb Hr Hc Ht Hm. destruct bits as [|b0 [|b1 [|b2 [|b3 [|b4 []]]]]]; try done.
  destruct runs as [|r0 [|r1 [|r2 [|r3 [|r4 []]]]]]; try done. clear Hb Hr.
  unfold matches_local, mask. rewrite Hc. cbn [alter list_alter nth].
  destruct Ht as (H0 & H1 & H2 & H3 & H4). rewrite Z.rem_small by lia.
  rewrite !andb_true_iff.
  assert (forall k b rs v, [b0; b1; b2; b3; b4] !! k = Some b -> [r0; r1; r2; r3; r4] !! k = Some rs ->
    0 <= v < 64 -> (k = 4%nat -> v <= 6) ->
    bit_set (if decide (k = 4%nat) then normalize_day_of_week b else b) v = true <-> names k v rs)
    as Hf by (intros k b rs v Eb Er; apply field_mask; by eapply Hm).
  pose proof (Hf 0%nat b0 r0 (cv_minute t) eq_refl eq_refl) as E0.
  pose proof (Hf 1%nat b1 r1 (cv_hour t) eq_refl eq_refl) as E1.
  pose proof (Hf 2%nat b2 r2 (cv_day_of_month t) eq_refl eq_refl) as E2.
  pose proof (Hf 3%nat b3 r3 (cv_month t) eq_refl eq_refl) as E3.
  pose proof (Hf 4%nat b4 r4 (cv_day_of_week t) eq_refl eq_refl) as E4.
  cbn [decide Nat.eq_dec] in E0, E1, E2, E3, E4.
  rewrite E0, E1, E2, E3, E4 by lia. split.
  - intros ((((? & ?) & ?) & ?) & ?) k v rs.
    do 5 (destruct k as [|k]; [by intros [= <-] [= <-]|]). done.
  - intros H. split_and!; by apply H.
Qed.

(** C26. A schedule expression built from valid parts parses whatever its hash
    seed, and the calendar then matches a civil time exactly when every one of
    the five fields names the time's value: a value of one of its stepped
    ranges, Sunday being 0 or 7, and for [H] of a progression within the part's
    range that the seed selects. *)
Theorem cron_meaning `{Md5Hash} e seed :
  length e = 5%nat -> fields_ok 0 e ->
  exists bits runs,
    parse_cron_expression (print_expression e) seed = Ok bits /\
    length runs = 5%nat /\
    (forall k parts rs, e !! k = Some parts -> runs !! k = Some rs -> field_runs k parts rs) /\
    forall c t, sc_bits c = bits -> civil_time t ->
      matches_local c t = true <->
      forall k v rs, civil_values t !! k = Some v -> runs !! k = Some rs -> names k v rs.
Proof.
  intros Hl Hok. destruct (fields_parse 0 e (hash_from_seed seed) Hok ltac:(lia))
    as (runs & bits & Ep & Hr & Hb & Hk).
  exists (alter normalize_day_of_week 4%nat bits), runs. split_and!.
  - unfold parse_cron_expression. rewrite (print_words e Hl Hok). unfold llen.
    rewrite length_map, Hl. cbn [Z.of_nat Z.eqb negb check mbind result_bind]. by rewrite Ep.
  - congruence.
  - intros k parts rs Hp Hrs. destruct (lookup_lt_is_Some_2 bits k) as [b Eb].
    { apply lookup_lt_Some in Hp. lia. }
    by destruct (Hk k parts rs b Hp Hrs Eb).
  - intros c t Hc Ht. apply matches_names with bits; [congruence|congruence|done..|].
    intros k b rs Eb Hrs. destruct (lookup_lt_is_Some_2 e k) as [parts Hp].
    { apply lookup_lt_Some in Eb. lia. }
    by destruct (Hk k parts rs b Hp Hrs Eb).
Qed.

(** ** Parsing any text ends *)

Definition finished {A} (r : result StoreError A) : Prop := errs_in (fun e => e <> Unfinished) r.

#[local] Transparent parse_positive.

Lemma parse_positive_range t s : parse_positive t = Ok s -> 1 <= s <= i32_max.
Proof.
  unfold parse_positive. rewrite bind_ok. intros (v & Hv & Hc). rewrite seq_ok, check_ok in Hc.
  destruct Hc as [Hc [= <-]]. bool_prop. split; [lia|].
  destruct (parse_i32 t) as [w|] eqn:E; [|done]. injection Hv as ->. unfold parse_i32 in E.
  destruct (parse_signed t) as [w|]; [|done]. cbn in E. destruct (in_i32 w) eqn:Hw; [|done].
  injection E as ->. unfold in_i32 in Hw. bool_prop. lia.
Qed.

Lemma parse_bounded_range t lower upper v : parse_bounded t lower upper = Ok v -> lower <= v <= upper.
Proof.
  unfold parse_bounded. rewrite bind_ok. intros (w & _ & Hc). rewrite seq_ok, check_ok in Hc.
  destruct Hc as [Hc [= <-]]. bool_prop. lia.
Qed.

Lemma range_bits_finished start last step :
  0 <= start < 64 -> last < 64 -> 1 <= step <= i32_max -> finished (range_bits start last step).
Proof. intros. destruct (range_bits_total start last step) as [r ->]; [lia..|]. apply errs_ok. Qed.

Lemma hash_next_finished n hash : 0 < n <= 60 -> finished (hash_next n hash).
Proof. intros Hn. destruct (hash_next_total n hash Hn) as (v & h & -> & _). apply errs_ok. Qed.

Lemma finished_bind {A B} (f : A -> result StoreError B) r :
  finished r -> (forall a, r = Ok a -> finished (f a)) -> finished (r ≫= f).
Proof. apply errs_bind. Qed.

Lemma parse_positive_finished t : finished (parse_positive t).
Proof. unfold finished, parse_positive. errs_solve. Qed.

Lemma parse_bounded_finished t lower upper : finished (parse_bounded t lower upper).
Proof. unfold finished, parse_bounded. errs_solve. Qed.

#[local] Opaque parse_positive parse_bounded.

Lemma hash_next_range n hash d : 0 < n <= 60 -> hash_next n hash = Ok d -> 0 <= d.1 < n.
Proof. intros Hn. destruct (hash_next_total n hash Hn) as (v & h & -> & Hv & _). by intros [= <-]. Qed.

(** The hashed forms stay below 60 values, so every draw and loop ends. *)
Ltac finish_step :=
  match goal with
  | |- finished (Ok _) => apply errs_ok
  | |- finished (Err _) => apply errs_err; discriminate
  | |- finished (check _ _) => apply errs_check; discriminate
  | |- finished (ok_or _ _) => apply errs_ok_or; discriminate
  | |- finished (parse_positive _) => apply parse_positive_finished
  | |- finished (parse_bounded _ _ _) => apply parse_bounded_finished
  | |- finished (_ ≫= _) => apply finished_bind; [|intros ? ?]
  | H : parse_positive _ = Ok _ |- _ => apply parse_positive_range in H
  | H : parse_bounded _ _ _ = Ok _ |- _ => apply parse_bounded_range in H
  | H : check _ _ = Ok _ |- _ => apply check_ok in H; bool_prop
  | H : hash_next ?n _ = Ok _ |- _ => apply hash_next_range in H; [|lia]
  | |- finished (match ?o with _ => _ end) => destruct o eqn:?; subst
  end.

Lemma parse_hash_range_finished t : finished (parse_hash_range t).
Proof. unfold parse_hash_range. repeat finish_step. Qed.

Lemma parse_hash_range_step t r : parse_hash_range t = Ok r -> r.2 = 0 \/ 1 <= r.2 <= i32_max.
Proof.
  unfold parse_hash_range. destruct (rsplit_once _ _) as [[? ?]|].
  - rewrite bind_ok. intros (step & Hs%parse_positive_range & [= <-]). by right.
  - destruct (strip_suffix _ _); [|done]. intros [= <-]. by left.
Qed.

Lemma parse_hash_part_finished part index hash :
  (index < 5)%nat ->
  finished (parse_hash_part part index (field_lower index) (field_upper index) hash).
Proof.
  intros Hi. pose proof (field_bounds index Hi) as (Hl & Hu & Hh & Hlh). unfold parse_hash_part.
  destruct (String.eqb part "H"); [|destruct (strip_prefix "H/" part); [|destruct (strip_prefix "H(" part)]].
  - repeat finish_step. apply hash_next_finished; lia.
  - repeat finish_step; [apply hash_next_finished; lia|]. cbn in *. apply range_bits_finished; lia.
  - repeat (apply parse_hash_range_finished || finish_step).
    all: match goal with H : parse_hash_range _ = _ |- _ => apply parse_hash_range_step in H end.
    all: cbn in *; bool_prop; try (apply hash_next_finished; lia).
    finish_step. cbn in *. apply range_bits_finished; lia.
  - finish_step.
Qed.

Lemma ending_step (rest : string) r :
  (match split_once "/" rest with
   | Some (end_text, step_text) => step ← parse_positive step_text; Ok (end_text, step)
   | None => Ok (rest, 1)
   end : result StoreError (string * Z)) = Ok r -> 1 <= r.2 <= i32_max.
Proof.
  destruct (split_once _ _) as [[? ?]|].
  - rewrite bind_ok. by intros (step & Hs%parse_positive_range & [= <-]).
  - by intros [= <-].
Qed.

Lemma parse_field_part_finished part index hash :
  (index < 5)%nat ->
  finished (parse_field_part part index (field_lower index) (field_upper index) hash).
Proof.
  intros Hi. pose proof (field_bounds index Hi) as (Hl & Hu & Hh & Hlh). unfold parse_field_part.
  repeat ((by apply parse_hash_part_finished) || finish_step);
    try (apply range_bits_finished; unfold i32_max in *; lia).
  match goal with H : match split_once "/" _ with _ => _ end = Ok _ |- _ =>
    apply ending_step in H end.
  cbn in *. apply range_bits_finished; lia.
Qed.

Lemma parse_fields_finished index fields hash :
  (index + length fields <= 5)%nat -> finished (parse_fields index fields hash).
Proof.
  revert index hash. induction fields as [|f fields IH]; intros index hash Hl; cbn [parse_fields length] in *.
  { apply errs_ok. }
  apply finished_bind.
  - unfold parse_field. apply errs_try_fold. intros [bits h] part.
    apply finished_bind; [apply parse_field_part_finished; lia|]. intros [more h'] _. apply errs_ok.
  - intros [bits h] _. repeat finish_step. apply IH. lia.
Qed.

(** Parsing a schedule expression ends for every text and every hash seed:
    neither the step loops, whatever [i32] step they are given, nor the
    rejection loop of [nextInt] runs out of the turns the model allows. *)
Theorem cron_parse_total `{Md5Hash} expression seed :
  parse_cron_expression expression seed <> Err Unfinished.
Proof.
  assert (finished (parse_cron_expression expression seed)) as Hf; [|by intros E; apply (Hf _ E)].
  unfold parse_cron_expression. apply finished_bind; [finish_step|].
  intros [] Hl%check_ok. bool_prop. unfold llen in Hl.
  apply finished_bind; [|intros; apply errs_ok]. apply parse_fields_finished. lia.
Qed.

(** Reading a concrete mask over a range of values. *)
Lemma bit_set_table b lo hi f v :
  lo <= v < hi ->
  forallb (fun w => Bool.eqb (bit_set b w) (f w)) (seqZ lo (hi - lo)) = true ->
  bit_set b v = f v.
Proof.
  intros Hv Hall. rewrite forallb_forall in Hall. apply eqb_prop, Hall.
  apply list_elem_of_In, elem_of_seqZ. lia.
Qed.

(** A step close to the largest [i32] overflows the cursor of the step loop:
    the release build wraps it, and an expression that names minute 5 alone fires
    at every minute from 0 to 5 (a debug build panics there). *)
Theorem cron_step_wraps `{Md5Hash} seed :
  exists bits, parse_cron_expression "5/2147483647 * * * *" seed = Ok bits /\
  forall c t, sc_bits c = bits -> civil_time t -> matches_local c t = true <-> cv_minute t <= 5.
Proof.
  exists [2 ^ 63 + 63; 2 ^ 24 - 1; 2 ^ 32 - 2; 2 ^ 13 - 2; 127]. split.
  - unfold parse_cron_expression. generalize (hash_from_seed seed) as hash. intros hash.
    vm_compute. reflexivity.
  - intros c t Hc (H0 & H1 & H2 & H3 & H4). unfold matches_local, mask. rewrite Hc. cbn [nth].
    rewrite Z.rem_small by lia.
    rewrite (bit_set_table _ 0 60 (fun v => v <=? 5)), (bit_set_table _ 0 24 (fun _ => true)),
      (bit_set_table _ 1 13 (fun _ => true)), (bit_set_table _ 1 32 (fun _ => true)),
      (bit_set_table _ 0 7 (fun _ => true)) by (lia || by vm_compute).
    rewrite !andb_true_r. apply Z.leb_le.
Qed.
