(* ===== verification/WorkspaceStore.v ===== *)
(** * Workspace checkpoints in the store (controller-store/src/workspace.rs)

    A contained sequential build owns a namespace, a generation, the snapshot of
    the last step and its receipt. [initialize] opens the namespace empty,
    [grant] offers the checkpoint to an attempt, [normalize] and [commit] verify
    what the attempt returns and advance the generation, and [validate_history]
    rebuilds the chain of checkpoints from the terminal summaries. *)

From stdpp Require Import base gmap sets list strings pretty.
From Stdlib Require Import ZArith Lia.
From S2P Require Import Prelude Text Bytes Domain WorkspaceSnapshot DagContract StoreTables.

Open Scope Z_scope.

(** ** Third-party code *)

(** [TerminalReceipt], what [normalize] leaves of a transfer. *)
Record TerminalReceipt := {
  te_version : Z;
  te_organization : string;
  te_build : string;
  te_namespace : string;
  te_generation : Z;
  te_input_digest : string;
  te_receipt : option WorkspaceSnapshotReceipt;
  te_error : option string
}.

(** The derived [serde_json] conversions; an error is its text. [bytes_value] is
    the value of a [u8; 32] array. *)
Class WorkspaceValues := {
  snapshot_to_value : WorkspaceSnapshot -> result string Value;
  snapshot_from_value : Value -> result string WorkspaceSnapshot;
  receipt_to_value : WorkspaceSnapshotReceipt -> result string Value;
  receipt_from_value : Value -> result string WorkspaceSnapshotReceipt;
  transfer_from_value : Value -> result string WorkspaceTransferResult;
  terminal_from_value : Value -> result string TerminalReceipt;
  bytes_value : string -> Value
}.

(** The parameters of this file: the crates, and the organization of the slice. *)
Class WorkspaceTransfer := {
  wt_external :: External;
  wt_json :: WorkspaceJson;
  wt_values :: WorkspaceValues;
  organization : Uuid
}.

(** ** Operations *)

Definition invalid {A} (message : string) : result StoreError A := Err (SequentialIntegrity message).
Definition invalid_json {A} (r : result string A) : result StoreError A := map_err SequentialIntegrity r.
Definition invalid_workspace {A} (r : result WorkspaceError A) : result StoreError A :=
  map_err (fun e => SequentialIntegrity (workspace_error_display e)) r.

Definition empty_snapshot : WorkspaceSnapshot := {| sn_version := 1; sn_entries := [] |}.

Section Checkpoints.
Context `{WT : WorkspaceTransfer}.

(** [namespace] is the identifier [Uuid::new_v4] draws. *)
Definition initialize (namespace : Uuid) (b : Build) : result StoreError Build :=
  v ← invalid_json (snapshot_to_value empty_snapshot);
  Ok (match b_namespace b with
      | Some _ => b
      | None => b <| b_namespace := Some namespace |> <| b_snapshot := Some v |>
      end).

Definition validate_checkpoint (generation : Z) (snapshot : option WorkspaceSnapshot)
    (receipt : option Value) (closed : bool) (step_count : Z) :
    result StoreError (option WorkspaceSnapshotReceipt) :=
  check (negb ((1 <=? step_count) && (step_count <=? 64))
         || negb ((0 <=? generation) && (generation <=? step_count)))
    (SequentialIntegrity "workspace checkpoint generation exceeds the build layout") ;;
  receipt ← match receipt with
            | None => Ok None
            | Some v => r ← invalid_json (receipt_from_value v); Ok (Some r)
            end;
  match receipt with Some r => invalid_workspace (validate_receipt r) | None => Ok tt end ;;
  check (xorb (generation =? 0) (match receipt with None => true | Some _ => false end))
    (SequentialIntegrity "workspace generation and receipt presence disagree") ;;
  (if closed then
     check (match snapshot with Some _ => true | None => false end)
       (SequentialIntegrity "closed workspace retained checkpoint bytes")
   else
     match snapshot with
     | None => invalid "open workspace missing snapshot"
     | Some s =>
         actual ← invalid_workspace (snapshot_receipt s);
         if generation =? 0
         then check (match sn_entries s with [] => false | _ :: _ => true end)
                (SequentialIntegrity "initial workspace is not empty")
         else check (negb (bool_decide (receipt = Some actual)))
                (SequentialIntegrity "workspace checkpoint differs from its durable receipt")
     end) ;;
  Ok receipt.

Definition grant (build : Uuid) (namespace : option Uuid) (generation : Z)
    (snapshot : option Value) (closed : bool) (receipt : option Value) (step_count : Z) :
    result StoreError (option WorkspaceGrant) :=
  match namespace with
  | None => Ok None
  | Some namespace =>
      check closed (SequentialIntegrity "closed workspace cannot be assigned") ;;
      v ← ok_or snapshot (SequentialIntegrity "missing workspace checkpoint");
      snapshot ← invalid_json (snapshot_from_value v);
      validate_checkpoint generation (Some snapshot) receipt false step_count ≫= fun _ =>
      digest ← invalid_workspace (snapshot_digest snapshot);
      let grant := {| gr_version := 1; gr_organization := organization; gr_build := build;
                      gr_namespace := namespace; gr_generation := generation;
                      gr_digest := digest; gr_snapshot := snapshot |} in
      invalid_workspace (validate_grant grant) ;;
      Ok (Some grant)
  end.

(** The object [normalize] leaves in place of the bytes. *)
Definition normalized_transfer (t : WorkspaceTransferResult) (receipt : option Value) : Value :=
  VObject [("build_id", VString (tr_build t)); ("error", default VNull (VString <$> tr_error t));
           ("generation", json_z (tr_generation t));
           ("input_digest", bytes_value (tr_input_digest t));
           ("namespace_id", VString (tr_namespace t));
           ("organization_id", VString (tr_organization t));
           ("receipt", default VNull receipt); ("version", json_z (tr_version t))].

Definition normalize (summary : Value) :
    result StoreError (Value * option WorkspaceTransferResult) :=
  match summary with
  | VObject m =>
      match bget "workspace_transfer" m with
      | None => Ok (summary, None)
      | Some value =>
          transfer ← invalid_json (transfer_from_value value);
          invalid_workspace (validate_transfer transfer) ;;
          receipt ← match tr_snapshot transfer with
                    | None => Ok None
                    | Some s =>
                        r ← invalid_workspace (snapshot_receipt s);
                        v ← invalid_json (receipt_to_value r);
                        Ok (Some v)
                    end;
          Ok (VObject (binsert "workspace_transfer" (normalized_transfer transfer receipt) m),
              Some transfer)
      end
  | _ => Ok (summary, None)
  end.

(** [jsonb_array_length(dag_contract->'sequential_layout'->'steps')]. *)
Definition step_count (b : Build) : result StoreError Z :=
  match c ← b_contract b; l ← field c "sequential_layout"; field l "steps" with
  | Some (VArray steps) => Ok (llen steps)
  | _ => Err Database
  end.

Definition commit (build : Uuid) (b : Build) (transfer : option WorkspaceTransferResult)
    (outcome : TerminalOutcome) : result StoreError Build :=
  match b_namespace b with
  | None => match transfer with
            | Some _ => invalid "workspace transfer supplied for legacy build"
            | None => Ok b
            end
  | Some namespace =>
      steps ← step_count b;
      granted ← grant build (Some namespace) (b_ws_generation b) (b_snapshot b) (b_closed b)
        (b_receipt b) steps;
      current ← ok_or granted (SequentialIntegrity "missing workspace ownership");
      match transfer with
      | None => check (bool_decide (outcome = OSucceeded))
                  (SequentialIntegrity "successful workspace attempt omitted transfer") ;; Ok b
      | Some t =>
          check (negb (String.eqb (tr_organization t) organization)
                 || negb (String.eqb (tr_build t) build)
                 || negb (String.eqb (tr_namespace t) namespace)
                 || negb (tr_generation t =? gr_generation current)
                 || negb (String.eqb (tr_input_digest t) (gr_digest current)))
            (SequentialIntegrity "workspace ownership or checkpoint generation mismatch") ;;
          match tr_snapshot t with
          | Some s =>
              r ← invalid_workspace (snapshot_receipt s);
              sv ← invalid_json (snapshot_to_value s);
              rv ← invalid_json (receipt_to_value r);
              Ok (b <| b_ws_generation := b_ws_generation b + 1 |> <| b_snapshot := Some sv |>
                    <| b_receipt := Some rv |>)
          | None => check (bool_decide (outcome = OSucceeded))
                      (SequentialIntegrity "successful workspace attempt reported capture failure") ;;
                    Ok b
          end
      end
  end.

(** ** The chain of checkpoints *)

(** What [validate_history] reads of a [SequentialBuildResult]: the attempts in
    stage, step and attempt order. *)
Record AttemptHistory := { ah_status : string; ah_summary : option Value }.
Record BuildHistory := {
  bh_build : Uuid;
  bh_namespace : option Uuid;
  bh_generation : Z;
  bh_receipt : option Value;
  bh_attempts : list AttemptHistory
}.

Record Chain := {
  ch_generation : Z;
  ch_digest : string;
  ch_last : option WorkspaceSnapshotReceipt
}.

Definition terminal_value (summary : Value) : option Value :=
  match field summary "workspace_transfer" with
  | Some v => Some v
  | None => v ← field summary "requested_summary"; field v "workspace_transfer"
  end.

Definition chain_attempt (build namespace : Uuid) (c : Chain) (a : AttemptHistory) :
    result StoreError Chain :=
  match s ← ah_summary a; terminal_value s with
  | None => check (String.eqb (ah_status a) "succeeded")
              (SequentialIntegrity "successful workspace result missing checkpoint receipt") ;; Ok c
  | Some value =>
      terminal ← invalid_json (terminal_from_value value);
      check (negb (te_version terminal =? 1)
             || negb (String.eqb (te_organization terminal) organization)
             || negb (String.eqb (te_build terminal) build)
             || negb (String.eqb (te_namespace terminal) namespace)
             || negb (te_generation terminal =? ch_generation c)
             || negb (String.eqb (te_input_digest terminal) (ch_digest c))
             || negb (existsb (String.eqb (ah_status a)) ["succeeded"; "failed"; "aborted"]))
        (SequentialIntegrity "workspace terminal receipt ownership or checkpoint chain differs") ;;
      match te_receipt terminal, te_error terminal with
      | Some receipt, None =>
          invalid_workspace (validate_receipt receipt) ;;
          Ok {| ch_generation := ch_generation c + 1; ch_digest := rc_digest receipt;
                ch_last := Some receipt |}
      | None, Some error =>
          check (is_empty error || (1024 <? slen error) || String.eqb (ah_status a) "succeeded")
            (SequentialIntegrity "workspace terminal receipt has contradictory capture outcome") ;;
          Ok c
      | _, _ => invalid "workspace terminal receipt has contradictory capture outcome"
      end
  end.

Definition validate_history (h : BuildHistory) : result StoreError () :=
  match bh_namespace h with
  | None => Ok tt
  | Some namespace =>
      digest ← invalid_workspace (snapshot_digest empty_snapshot);
      c ← try_fold (chain_attempt (bh_build h) namespace)
        {| ch_generation := 0; ch_digest := digest; ch_last := None |} (bh_attempts h);
      stored ← match bh_receipt h with
               | None => Ok None
               | Some v => r ← invalid_json (receipt_from_value v); Ok (Some r)
               end;
      check (negb (ch_generation c =? bh_generation h) || negb (bool_decide (ch_last c = stored)))
        (SequentialIntegrity "workspace build receipt differs from terminal checkpoint history")
  end.

End Checkpoints.

(** What the conversions promise: a printed value is read back, and the empty
    snapshot is printed in a few bytes. *)
Class WorkspaceTransferLaws (WT : WorkspaceTransfer) : Prop := {
  wt_json_laws :: WorkspaceJsonLaws wt_json;
  snapshot_value s v : snapshot_to_value s = Ok v -> snapshot_from_value v = Ok s;
  receipt_value r v : receipt_to_value r = Ok v -> receipt_from_value v = Ok r;
  terminal_value_read t r rv :
    option_map receipt_to_value r = option_map Ok rv ->
    terminal_from_value (normalized_transfer t rv) =
    Ok {| te_version := tr_version t; te_organization := tr_organization t; te_build := tr_build t;
          te_namespace := tr_namespace t; te_generation := tr_generation t;
          te_input_digest := tr_input_digest t; te_receipt := r; te_error := tr_error t |};
  empty_to_vec : exists b, snapshot_to_vec empty_snapshot = Some b /\
    slen b <= MAX_WORKSPACE_ENCODED_BYTES
}.

(** ** Frames *)

(** Two build rows that differ in the columns of the workspace at most. *)
Definition same_but_workspace (b b' : Build) : Prop :=
  b' = b <| b_ws_generation := b_ws_generation b' |>
         <| b_snapshot := b_snapshot b' |> <| b_receipt := b_receipt b' |>.

Lemma commit_frame `{WT : WorkspaceTransfer} id b t o b' :
  commit id b t o = Ok b' -> same_but_workspace b b'.
Proof.
  assert (same_but_workspace b b) as Hb by (unfold same_but_workspace; by destruct b).
  unfold commit. intros H. destruct (b_namespace b) as [ns|]; [|by destruct t; inv_ok].
  apply bind_ok in H as (n & _ & H). apply bind_ok in H as (g & _ & H).
  apply bind_ok in H as (c & _ & H). destruct t as [t|]; [|by apply guard_ok in H as [_ [= <-]]].
  apply guard_ok in H as [_ H]. destruct (tr_snapshot t) as [s|]; [|by apply guard_ok in H as [_ [= <-]]].
  apply bind_ok in H as (r & _ & H). apply bind_ok in H as (sv & _ & H).
  apply bind_ok in H as (rv & _ & [= <-]). by destruct b.
Qed.
