(* ===== verification/DagRuntime.v ===== *)
(** * The running DAG: admission, advancement, cancellation and outcome

    The transactions of [controller-store/src/dag.rs] over the tables of
    StoreTables: a contract becomes a build with its nodes, first attempts and
    dependencies ([admit_dag]); a terminal attempt retries its node or settles
    it and advances what depended on it ([advance_dag_after_attempt]); a build
    is cancelled ([cancel_dag_build]); and the status of the build is derived
    from its nodes ([derive_build_outcome]), recording one notification per
    target when it becomes terminal. The loop of [advance_blocked_nodes] has
    one unit of fuel per node and one more; every round but the last settles or
    queues a blocked node. *)

From stdpp Require Import base gmap sets list strings pretty.
From Stdlib Require Import ZArith Lia.
From S2P Require Import Prelude Text Bytes Domain DagContract StoreTables.

Open Scope Z_scope.

(** [mcloving_domain::notifications]: a delivery is cut off after thirty
    seconds; an outcome that follows one in flight waits five more. *)
Definition DELIVERY_DEADLINE_SECONDS : Z := 30.
Definition STALE_WRITE_QUIET_SECONDS : Z := DELIVERY_DEADLINE_SECONDS + 5.
Definition seconds (s : Z) : Z := s * 1000000.

(** ** Terminal notifications *)

Section Runtime.
Context `{PG : Postgres} `{DX : DagExternal}.

Definition fresh_delivery (now : Z) (target : Value) (kind mapping : string) (status : BuildStatus) :
    Delivery :=
  MkDelivery kind mapping target status 1 false false DPending 0 now None None 0 None None None None.

(** [ON CONFLICT ... DO UPDATE]. *)
Definition reset_delivery (now : Z) (status : BuildStatus) (d : Delivery) : Delivery :=
  d <| dl_build_status := status |>
    <| dl_generation := dl_generation d + 1 |>
    <| dl_state := DPending |>
    <| dl_attempts := 0 |>
    <| dl_next_attempt_at :=
         if dl_in_flight d then now + seconds STALE_WRITE_QUIET_SECONDS else now |>
    <| dl_in_flight := false |>
    <| dl_rec_attempts := 0 |>
    <| dl_rec_due_at := None |>
    <| dl_rec_claim := None |>
    <| dl_rec_lease_until := None |>
    <| dl_rec_error := None |>
    <| dl_repost := false |>
    <| dl_last_error := None |>
    <| dl_delivered_at := None |>.

(** The insertion of target number [index]; [kind] and [mapping_id] are not null. *)
Definition record_delivery (now : Z) (build : Uuid) (status : BuildStatus) (db : Db)
    (target : Z * Value) : result StoreError Db :=
  let '(index, target) := target in
  match field_text target "kind", field_text target "mapping_id" with
  | Some kind, Some mapping =>
      let row := match deliveries db !! (build, index) with
                 | Some d => reset_delivery now status d
                 | None => fresh_delivery now target kind mapping status
                 end in
      Ok (db <| deliveries := <[(build, index) := row]> (deliveries db) |>)
  | _, _ => Err Database
  end.

(** [(created_at, id) < (created_at, id)]. *)
Definition created_before (l r : Z * Uuid) : bool :=
  (fst l <? fst r) || ((fst l =? fst r) && str_ltb (snd l) (snd r)).

Definition same_text (v w : Value) (name : string) : bool :=
  match field_text v name, field_text w name with
  | Some a, Some b => String.eqb a b
  | _, _ => false
  end.

(** An earlier build's attempt that holds the commit status [target] names. *)
Definition status_held (db : Db) (build : Uuid) (target : Value) : bool :=
  match builds db !! build with
  | None => false
  | Some own =>
      existsb (fun kd =>
        let '((other, _), o) := kd in
        negb (String.eqb other build) && String.eqb (dl_kind o) "github_status" && dl_in_flight o
        && same_text (dl_target o) target "repository"
        && same_text (dl_target o) target "commit"
        && same_text (dl_target o) target "context"
        && match builds db !! other with
           | Some b => created_before (b_created_at b, other) (b_created_at own, build)
           | None => false
           end) (map_to_list (deliveries db))
  end.

Definition delay_held (now : Z) (build : Uuid) (db : Db) : Db :=
  db <| deliveries := map_imap (fun k d =>
    Some (if String.eqb (fst k) build && String.eqb (dl_kind d) "github_status"
             && status_held db build (dl_target d)
          then d <| dl_next_attempt_at := now + seconds STALE_WRITE_QUIET_SECONDS |>
          else d)) (deliveries db) |>.

Definition numbered (l : list Value) : list (Z * Value) :=
  zip (map Z.of_nat (seq 0 (length l))) l.

Definition record_terminal_notifications (now : Z) (build : Uuid) (status : BuildStatus) (db : Db) :
    result StoreError Db :=
  let targets := match builds db !! build with
                 | Some b => default [] (as_array (b_notify_targets b))
                 | None => []
                 end in
  db ← try_fold (record_delivery now build status) db (numbered targets);
  Ok (append_event_and_outbox build "dag.build_terminal"
        (VObject [("notifications", json_z (llen targets));
                  ("status", VString (build_status_str status))])
        (delay_held now build db)).

(** ** The outcome of a build *)

Definition in_build (build : Uuid) (P : Node -> bool) (_ : Uuid) (n : Node) : bool :=
  of_build build n && P n.
Definition is_row (id : Uuid) {A} (k : Uuid) (_ : A) : bool := String.eqb k id.
Definition is_outcome (o : LogicalOutcome) (n : Node) : bool := bool_decide (n_outcome n = Some o).
Definition node_cancelled (n : Node) : bool := bool_decide (n_cancelled_at n ≠ None).

Definition derive_build_outcome (now : Z) (build : Uuid) (db : Db) : result StoreError Db :=
  let count P := count_rows (in_build build P) (nodes db) in
  let pending := count (fun n => negb (settled_node (n_status n))) in
  let failed := count (is_outcome LFailed) in
  let aborted := count (is_outcome LAborted) in
  let active := count (fun n => one_status [NOffered; NRunning] (n_status n)) in
  let reconciliation_required := count (fun n => bool_decide (n_status n = NReconciliation)) in
  let cancelled := exists_row (in_build build node_cancelled) (nodes db) in
  if pending =? 0 then
    match builds db !! build with
    | None => Err Database
    | Some b =>
        let status :=
          if 0 <? failed then BFailed
          else if bool_decide (b_cancelled_at b ≠ None) || (0 <? aborted) then BAborted
          else BSucceeded in
        let db' := update_builds (is_row build) (fun b =>
          b <| b_status := status |>
            <| b_completed_at := Some now |>
            <| b_snapshot := if b_namespace b then None else b_snapshot b |>
            <| b_closed := (if b_namespace b then true else false) || b_closed b |>) db in
        if negb (terminal_build (b_status b))
        then record_terminal_notifications now build status db'
        else Ok db'
    end
  else
    let status :=
      if 0 <? reconciliation_required then BReconciliation
      else if (0 <? active) || cancelled then BRunning
      else BQueued in
    Ok (update_builds (is_row build) (fun b =>
          b <| b_status := status |> <| b_completed_at := None |>) db).

(** ** Advancing blocked nodes *)

Definition summary_reason (reason : string) : Value := VObject [("reason", VString reason)].

Definition abort_attempt (now : Z) (reason : string) (a : Attempt) : Attempt :=
  a <| a_status := AAborted |>
    <| a_summary := Some (summary_reason reason) |>
    <| a_completed_at := Some now |>.

(** A parent that will never succeed. *)
Definition lost_parent (ns : gmap Uuid Node) (d : Dependency) : bool :=
  match ns !! d_parent d with
  | Some p => one_status [NFailed; NAborted; NSkipped] (n_status p)
  | None => false
  end.
Definition impossible (db : Db) (child : Uuid) : bool :=
  existsb (fun d => String.eqb (d_child d) child && bool_decide (d_condition d = Succeeded)
                    && lost_parent (nodes db) d) (deps db).

Definition settle_node (s : NodeStatus) (o : LogicalOutcome) (n : Node) : Node :=
  n <| n_status := s |> <| n_outcome := Some o |>.

(** Which nodes the two statements of a round update. *)
Definition skippable (db : Db) (build id : Uuid) (n : Node) : bool :=
  of_build build n && bool_decide (n_status n = NBlocked) && negb (bool_decide (n_kind n = Post))
  && impossible db id.
Definition readiable (db : Db) (build id : Uuid) (n : Node) : bool :=
  of_build build n && bool_decide (n_status n = NBlocked) && ready db id.

Definition skip_pass (now : Z) (build : Uuid) (db : Db) : bool * Db :=
  let skipped := exists_row (skippable db build) (nodes db) in
  let db := update_nodes now (skippable db build) (settle_node NSkipped LSkipped) db in
  (skipped,
   if skipped then
     update_attempts (fun _ a => bool_decide (a_status a = AQueued)
       && joined db (fun _ n => of_build build n && bool_decide (n_status n = NSkipped)) a)
       (abort_attempt now "dependency_not_succeeded") db
   else db).

(** [SET ready_at = node.queued_at] of a queued attempt whose node is queued. *)
Definition stamp_ready (build : Uuid) (ns : gmap Uuid Node) (a : Attempt) : Attempt :=
  match ns !! a_node a with
  | Some n =>
      if of_build build n && bool_decide (n_status n = NQueued)
         && bool_decide (a_status a = AQueued) && bool_decide (a_ready_at a = None)
      then a <| a_ready_at := Some (n_queued_at n) |> else a
  | None => a
  end.

Definition ready_pass (now : Z) (build : Uuid) (db : Db) : bool * Db :=
  let readied := exists_row (readiable db build) (nodes db) in
  let db := update_nodes now (readiable db build)
    (fun n => n <| n_status := NQueued |> <| n_queued_at := now |>) db in
  (readied,
   if readied then db <| attempts := stamp_ready build (nodes db) <$> attempts db |> else db).

Fixpoint advance_loop (fuel : nat) (now : Z) (build : Uuid) (db : Db) : result StoreError Db :=
  match fuel with
  | O => Err Unfinished
  | S fuel =>
      let '(skipped, db) := skip_pass now build db in
      let '(readied, db) := ready_pass now build db in
      if negb skipped && negb readied then Ok db else advance_loop fuel now build db
  end.

Definition advance_blocked_nodes (now : Z) (build : Uuid) (db : Db) : result StoreError Db :=
  advance_loop (S (size (nodes db))) now build db.

Definition unstarted (n : Node) : bool := one_status [NBlocked; NQueued] (n_status n).
Definition no_outcome (n : Node) : bool := bool_decide (n_outcome n = None).

Definition mark_unstarted_skipped (now : Z) (build : Uuid) (exclude_post : bool) (db : Db) : Db :=
  let spared n := negb exclude_post || negb (bool_decide (n_kind n = Post)) in
  let db := update_attempts (fun _ a => bool_decide (a_status a = AQueued)
    && joined db (fun _ n => of_build build n && unstarted n && spared n) a)
    (abort_attempt now "fail_fast_skipped") db in
  update_nodes now (fun _ n => of_build build n && unstarted n && spared n && no_outcome n)
    (settle_node NSkipped LSkipped) db.

(** [n.id <> $3]. *)
Definition other_node (node id : Uuid) : bool := negb (String.eqb id node).

Definition fence_unstarted_dag_work (now : Z) (build node : Uuid) (db : Db) : Db :=
  let db := update_attempts (fun _ a => one_status [AQueued; AOffered] (a_status a)
    && joined db (fun id n => of_build build n && other_node node id) a)
    (fun a => abort_attempt now "pipeline_operational_generation_fenced" a <| a_expires := None |>)
    db in
  let db := update_nodes now (fun id n => of_build build n && other_node node id
      && one_status [NBlocked; NQueued; NOffered] (n_status n) && no_outcome n)
    (settle_node NAborted LAborted) db in
  let running id n := of_build build n && other_node node id
    && bool_decide (n_status n = NRunning) in
  let db := db <| nodes := update_where running
    (fun n => n <| n_cancelled_at := Some now |>) (nodes db) |> in
  update_attempts (fun _ a => one_status [AAccepted; ARunning; AFinalizing] (a_status a)
    && joined db running a) (fun a => a <| a_status := ACancelling |>) db.

(** ** After an attempt *)

(** [INSERT INTO attempts ... RETURNING ready_at]: the keys of the table, the
    node it refers to, and the trigger [attempts_preserve_compatibility_readiness]. *)
Definition insert_attempt (id : Uuid) (a : Attempt) (db : Db) : tx (option Z) :=
  let taken o := (String.eqb (a_node o) (a_node a) && (a_ordinal o =? a_ordinal a))
                 || (bool_decide (a_retry_of a ≠ None)
                     && bool_decide (a_retry_of o = a_retry_of a)) in
  match attempts db !! id, nodes db !! a_node a with
  | None, Some n =>
      check (exists_row (fun _ => taken) (attempts db)) Database ;;
      let a := if bool_decide (a_status a = AQueued) && bool_decide (n_status n = NBlocked)
               then a <| a_ready_at := None |> else a in
      Ok (a_ready_at a, db <| attempts := <[id := a]> (attempts db) |>)
  | _, _ => Err Database
  end.

(** A new attempt that nobody was offered. *)
Definition queued_attempt (now : Z) (node : Uuid) (ordinal : Z) (retry_of : option Uuid) (epoch : Z)
    (ready_at : option Z) : Attempt :=
  MkAttempt node ordinal AQueued 0 None None None now None retry_of epoch ready_at.

(** The retry of a failed attempt: a new attempt, and its node back in the
    queue unless it has an outcome. *)
Definition retry_node (now : Z) (node attempt retry : Uuid) (ordinal : Z) (db : Db) :
    result StoreError Db :=
  inserted ← insert_attempt retry
    (queued_attempt now node (ordinal + 1) (Some attempt) 1
       (if ready db node then Some now else None)) db;
  let '(ready_at, db) := inserted in
  Ok (update_nodes now (fun id n => String.eqb id node && no_outcome n) (fun n =>
        n <| n_status := if ready_at then NQueued else NBlocked |>
          <| n_cancelled_at := None |>
          <| n_queued_at := default (n_queued_at n) ready_at |>) db).

(** Fail-fast: active peers are asked to stop, unstarted ones are skipped. *)
Definition fail_fast_peers (now : Z) (build node : Uuid) (db : Db) : Db :=
  let active id n := of_build build n && other_node node id
    && one_status [NOffered; NRunning] (n_status n) in
  let db := db <| nodes := update_where active
    (fun n => n <| n_cancelled_at := Some now |>) (nodes db) |> in
  let db := update_attempts (fun _ a =>
      one_status [AOffered; AAccepted; ARunning; AFinalizing] (a_status a) && joined db active a)
    (fun a => a <| a_status := ACancelling |>) db in
  mark_unstarted_skipped now build true db.

Definition has_effect (attempt : Uuid) (P : Effect -> bool) (db : Db) : bool :=
  existsb (fun e => String.eqb (e_attempt e) attempt && P e) (effects db).

(** [Ok (false, _)] is a build that is not a DAG, which the caller settles. *)
Definition advance_dag_after_attempt (now : Z) (retry build node attempt : Uuid)
    (outcome : TerminalOutcome) (db : Db) : tx bool :=
  match builds db !! build, nodes db !! node, attempts db !! attempt with
  | Some b, Some n, Some a =>
    if negb (of_build build n && String.eqb (a_node a) node) then Err Database
    else if negb (b_dag_mode b) then Ok (false, db)
    else
      enabled ← pipeline_enabled db build;
      let cancelled := bool_decide (b_cancelled_at b ≠ None) || node_cancelled n in
      if enabled && bool_decide (outcome = OFailed) && (a_ordinal a <? n_max_attempts n)
         && negb cancelled
         && negb (has_effect attempt (fun e => bool_decide (e_class e = NonIdempotent)
              && negb (bool_decide (e_status e = EAbandoned))) db)
      then
        db ← retry_node now node attempt retry (a_ordinal a) db;
        let db := append_event_and_outbox build "dag.node_retry_scheduled"
          (VObject [("attempt_id", VString retry);
                    ("max_attempts", json_z (n_max_attempts n));
                    ("node_id", VString node);
                    ("node_key", VString (n_key n));
                    ("ordinal", json_z (a_ordinal a + 1))]) db in
        db ← derive_build_outcome now build db;
        Ok (true, db)
      else if negb (no_outcome n) then Ok (true, db)
      else
        let db := update_nodes now (is_row node) (fun n =>
          settle_node (outcome_node outcome) (outcome_logical outcome) n
            <| n_cancelled_at := None |>) db in
        let event kind extra db := append_event_and_outbox build kind
          (VObject ([("attempt_id", VString attempt)] ++ extra
                    ++ [("node_id", VString node);
                        ("node_key", VString (n_key n));
                        ("outcome", VString (outcome_str outcome))])) db in
        if negb enabled then
          db ← derive_build_outcome now build (fence_unstarted_dag_work now build node db);
          Ok (true, event "dag.pipeline_generation_fenced" [] db)
        else
          let db := if bool_decide (outcome = OFailed) && n_fail_fast n
                    then fail_fast_peers now build node db else db in
          db ← advance_blocked_nodes now build db;
          db ← derive_build_outcome now build db;
          Ok (true, event "dag.node_terminal" [("fail_fast", VBool (n_fail_fast n))] db)
  | _, _, _ => Err Database
  end.

(** ** Cancelling *)

Definition cancel_dag_build (now : Z) (build : Uuid) (db : Db) : tx bool :=
  match builds db !! build with
  | Some b =>
    if b_dag_mode b && one_status [BQueued; BRunning] (b_status b)
       && bool_decide (b_cancelled_at b = None)
    then
      let db := update_builds (is_row build) (fun b => b <| b_cancelled_at := Some now |>) db in
      let db := update_attempts (fun _ a => bool_decide (a_status a = AQueued)
        && joined db (fun _ n => of_build build n && unstarted n) a)
        (abort_attempt now "dag_cancelled_before_execution") db in
      let db := update_nodes now (fun _ n => of_build build n && unstarted n && no_outcome n)
        (settle_node NAborted LAborted) db in
      let active (_ : Uuid) n := of_build build n && one_status [NOffered; NRunning] (n_status n) in
      let db := db <| nodes := update_where active
        (fun n => n <| n_cancelled_at := Some now |>) (nodes db) |> in
      let db := update_attempts (fun _ a =>
          one_status [AOffered; AAccepted; ARunning; AFinalizing] (a_status a)
          && joined db active a) (fun a => a <| a_status := ACancelling |>) db in
      db ← derive_build_outcome now build db;
      Ok (true, db)
    else Ok (false, db)
  | None => Ok (false, db)
  end.

(** ** Admission *)

Definition TRIGGER_DAG_IDEMPOTENCY_PREFIX : string := "mcloving-trigger-v1-".

Record DagNodeAdmission := { adm_node : Uuid; adm_attempt : Uuid }.
Record DagAdmission := {
  adm_build : Uuid; adm_nodes : bmap DagNodeAdmission; adm_created : bool }.

(** The build of a project with an idempotency key, which is unique. *)
Definition find_build (db : Db) (project : Uuid) (key : string) : option (Uuid * Build) :=
  head (List.filter (fun kb => String.eqb (b_project (snd kb)) project
                               && String.eqb (b_key (snd kb)) key) (map_to_list (builds db))).

Definition option_eqb {A} (eqb : A -> A -> bool) (x y : option A) : bool :=
  match x, y with
  | Some x, Some y => eqb x y
  | None, None => true
  | _, _ => false
  end.

(** The first attempt of every node of a build, by node key. *)
Definition admitted_nodes (db : Db) (build : Uuid) : bmap DagNodeAdmission :=
  foldr (fun ka m =>
    let '(attempt, a) := ka in
    match nodes db !! a_node a with
    | Some n =>
        if of_build build n && (a_ordinal a =? 1)
        then binsert (n_key n) {| adm_node := a_node a; adm_attempt := attempt |} m else m
    | None => m
    end) [] (map_to_list (attempts db)).

Definition existing_dag_admission (input : NewDagBuild) (contract : Value) (db : Db) :
    result StoreError DagAdmission :=
  match find_build db (project_id input) (idempotency_key input) with
  | None => Err Database
  | Some (id, b) =>
      check (negb (option_eqb String.eqb (b_pipeline b) (Some (pipeline_id input)))
             || negb (option_eqb Z.eqb (b_revision b) (Some (pipeline_revision input)))
             || negb (option_eqb Z.eqb (b_generation b)
                        (Some (pipeline_operational_generation input)))
             || negb (b_dag_mode b)
             || negb (String.eqb (b_digest b) (pipeline_digest input))
             || negb (option_eqb value_eqb (b_contract b) (Some contract))
             || (bool_decide (is_Some (field contract "sequential_layout"))
                 && negb (option_eqb String.eqb (b_revision_digest b)
                            (Some (pipeline_digest input)))))
        (IdempotencyConflict "idempotency key already belongs to a different build contract") ;;
      let admitted := admitted_nodes db id in
      check (negb (llen admitted =? llen (build_nodes input))
             || existsb (fun node => negb (bcontains (node_key node) admitted)) (build_nodes input))
        (IdempotencyConflict "idempotent DAG exists with a different node contract") ;;
      Ok {| adm_build := id; adm_nodes := admitted; adm_created := false |}
  end.

Definition new_node (now : Z) (build : Uuid) (node : NewDagNode) : Node :=
  MkNode build (node_key node) (match dependencies node with [] => NQueued | _ => NBlocked end)
    (node_capabilities node) (required_trust_pool node) (node_priority node) now
    (execution_spec node) (node_kind node) (fail_fast node) (max_attempts node) None None.

(** One round of the first loop: the node and its first attempt, under the
    identifiers [Uuid::new_v4] gave. *)
Definition admit_node (now : Z) (build : Uuid) (state : bmap DagNodeAdmission * Db)
    (entry : NewDagNode * (Uuid * Uuid)) : result StoreError (bmap DagNodeAdmission * Db) :=
  let '(admitted, db) := state in
  let '(node, (node_id, attempt_id)) := entry in
  check (bool_decide (is_Some (nodes db !! node_id))) Database ;;
  let db := db <| nodes := <[node_id := new_node now build node]> (nodes db) |> in
  inserted ← insert_attempt attempt_id
    (queued_attempt now node_id 1 None 1
       (match dependencies node with [] => Some now | _ => None end)) db;
  Ok (binsert (node_key node) {| adm_node := node_id; adm_attempt := attempt_id |} admitted,
      snd inserted).

(** The rows of [node_dependencies] the second loop inserts for one node. *)
Definition node_edges (build : Uuid) (admitted : bmap DagNodeAdmission) (node : NewDagNode) :
    list Dependency :=
  omap (fun d =>
    child ← bget (node_key node) admitted;
    parent ← bget (dep_node_key d) admitted;
    Some (MkDependency build (adm_node parent) (adm_node child) (dep_condition d)))
    (dependencies node).

Definition new_build (now : Z) (input : NewDagBuild) (contract : Value) (digest : string) : Build :=
  MkBuild (project_id input) (Some (pipeline_id input)) (Some (pipeline_revision input))
    (Some (pipeline_operational_generation input)) (Some digest) (idempotency_key input)
    (pipeline_digest input) BQueued (build_priority input) now None None true (Some contract)
    (notify_targets input) None 0 None None false None.

Definition invalid_dag {A} (r : result dag_fault A) : result StoreError A :=
  map_err (fun f => match f with
                    | DFail e => InvalidDag (dag_error_display e)
                    | DPanic | DFuel => Unfinished
                    end) r.

(** [build] and [ids] are the identifiers the admission draws, [ids] one node
    and one attempt identifier for each round of the loop. *)
Definition admit_dag_contract_transaction (now : Z) (build : Uuid) (ids : nat -> Uuid * Uuid)
    (input : NewDagBuild) (contract : Value) (sequential : bool) (db : Db) : tx DagAdmission :=
  invalid_dag (validate_dag_contract input) ;;
  match find_build db (project_id input) (idempotency_key input) with
  | Some _ => admission ← existing_dag_admission input contract db; Ok (admission, db)
  | None =>
      digest ← lock_enabled_pipeline_binding db (project_id input) (pipeline_id input)
        (pipeline_revision input) (pipeline_operational_generation input);
      check (sequential && negb (String.eqb digest (pipeline_digest input)))
        (InvalidDag "sequential semantic digest differs from the saved revision") ;;
      check (bool_decide (is_Some (builds db !! build))) Database ;;
      let db := db <| builds := <[build := new_build now input contract digest]> (builds db) |> in
      admitted ← try_fold (admit_node now build) ([], db) 
        (zip (build_nodes input) (map ids (seq 0 (length (build_nodes input)))));
      let '(admitted, db) := admitted in
      let edges := concat (map (node_edges build admitted) (build_nodes input)) in
      let db := db <| deps := deps db ++ edges |> in
      Ok ({| adm_build := build; adm_nodes := admitted; adm_created := true |},
          append_event_and_outbox build "dag.admitted"
            (VObject [("build_id", VString build);
                      ("edges", json_z (llen (concat (map dependencies (build_nodes input)))));
                      ("nodes", json_z (llen admitted))]) db)
  end.

Definition admit_dag_transaction (now : Z) (build : Uuid) (ids : nat -> Uuid * Uuid)
    (input : NewDagBuild) (db : Db) : tx DagAdmission :=
  invalid_dag (validate_dag_contract input) ;;
  admit_dag_contract_transaction now build ids input (normalized_dag_contract input) false db.

Definition admit_dag (now : Z) (build : Uuid) (ids : nat -> Uuid * Uuid) (input : NewDagBuild)
    (db : Db) : tx DagAdmission :=
  check (starts_with TRIGGER_DAG_IDEMPOTENCY_PREFIX (idempotency_key input))
    (InvalidDag "trigger DAG idempotency namespace is reserved") ;;
  invalid_dag (validate_dag_contract input) ;;
  admit_dag_transaction now build ids input db.

Definition replay_trigger_dag (input : NewDagBuild) (db : Db) : result StoreError DagAdmission :=
  check (negb (starts_with TRIGGER_DAG_IDEMPOTENCY_PREFIX (idempotency_key input)))
    (InvalidDag "trigger DAG replay requires the reserved idempotency namespace") ;;
  invalid_dag (validate_dag_contract input) ;;
  match find_build db (project_id input) (idempotency_key input) with
  | None => Err (IdempotencyConflict "trigger DAG replay does not identify an existing build")
  | Some _ => existing_dag_admission input (normalized_dag_contract input) db
  end.

End Runtime.
