(* ===== verification/TriggerTables.v ===== *)
(** * Trigger ingress: tables and statements (controller-store/src/trigger_ingress.rs)

    The trigger tables of one organization (migrations 28, 38 and 42): the
    definitions with their immutable versions, the delivery ledger, the receipts
    of deliveries that were not admitted, the schedule watermarks and the
    schedule slots; the CHECK constraints and guard triggers every statement
    runs under; and the queries and updates the operations are made of. The rows
    are the structs the code reads them into. A column whose CHECK lists its
    values is the enum the code parses it into. [TriggerDb] joins the tables with
    the store of builds and pipelines and with the audit chain; the organization
    is the section's variable, an [input.organization_id] selects it. Times are
    milliseconds; a reading of the database clock is in microseconds, as is the
    [updated_at] of a slot. *)

From stdpp Require Import base gmap sets list sorting strings.
From Stdlib Require Import Ascii ZArith Lia.
From S2P Require Import Prelude Text Bytes Domain DagContract StoreTables AuditChain.
From S2P Require Import ScheduleCalendar.

Open Scope Z_scope.

(** ** Columns *)

Inductive TriggerKind : Type := ScmWebhook | Schedule | Upstream | RemoteApi | Plugin.
Inductive PipelineTriggerState : Type := TriggerEnabled | TriggerIsPaused.
Inductive TriggerDeliveryStatus : Type := TPending | TRetryWait | TAdmitted | TDeadLettered.
Inductive SlotOutcome : Type := SlotOpen | SlotClaimed | SlotFired | SlotSkipped.

#[export] Instance TriggerKind_eq_dec : EqDecision TriggerKind.
Proof. solve_decision. Defined.
#[export] Instance PipelineTriggerState_eq_dec : EqDecision PipelineTriggerState.
Proof. solve_decision. Defined.
#[export] Instance TriggerDeliveryStatus_eq_dec : EqDecision TriggerDeliveryStatus.
Proof. solve_decision. Defined.
#[export] Instance SlotOutcome_eq_dec : EqDecision SlotOutcome.
Proof. solve_decision. Defined.

Definition trigger_kind_str (k : TriggerKind) : string :=
  match k with
  | ScmWebhook => "scm_webhook" | Schedule => "schedule" | Upstream => "upstream"
  | RemoteApi => "remote_api" | Plugin => "plugin"
  end.
Definition trigger_state_str (s : PipelineTriggerState) : string :=
  match s with TriggerEnabled => "enabled" | TriggerIsPaused => "paused" end.

(** ** Rows *)

(** A row of [pipeline_trigger_versions] with its definition's identity. *)
Record PipelineTrigger := MkTrigger {
  pt_organization : Uuid;
  pt_project : Uuid;
  pt_pipeline : Uuid;
  pt_trigger : Uuid;
  pt_generation : Z;
  pt_kind : TriggerKind;
  pt_state : PipelineTriggerState;
  pt_implementation_sha256 : string;
  pt_configuration_sha256 : string;
  pt_filter_sha256 : string;
  pt_event_source_identity : string;
  pt_source_generation : string;
  pt_configuration : Value;
  pt_deduplication_window_seconds : Z;
  pt_max_delivery_attempts : Z;
  pt_delivery_ttl_seconds : Z;
  pt_actor_subject : string;
  pt_reason : string;
  pt_idempotency_key : string;
  pt_audit_sequence : Z;
  pt_audit_event_hash : string
}.

(** A row of [pipeline_trigger_definitions], by trigger. *)
Record TriggerDefinition := MkDefinition {
  tdef_project : Uuid;
  tdef_pipeline : Uuid;
  tdef_current_generation : Z
}.

(** A row of [trigger_deliveries]. *)
Record TriggerDelivery := MkTriggerDelivery {
  td_organization : Uuid;
  td_project : Uuid;
  td_pipeline : Uuid;
  td_trigger : Uuid;
  td_trigger_generation : Z;
  td_delivery_id : string;
  td_event_id : string;
  td_event_kind : string;
  td_caller_identity : string;
  td_payload_sha256 : string;
  td_canonical_payload : Value;
  td_parameters : Value;
  td_requested_platform : string;
  td_requested_trust_pool : string;
  td_event_time : Z;
  td_accepted_at : Z;
  td_expires_at : Z;
  td_status : TriggerDeliveryStatus;
  td_attempt_count : Z;
  td_next_attempt_at : Z;
  td_claim_owner : option string;
  td_claim_fence : Z;
  td_claim_expires_at : option Z;
  td_redrive_of : option string;
  td_redrive_ordinal : option Z;
  td_build : option Uuid;
  td_terminal_reason : option string;
  td_audit_sequence : Z;
  td_audit_event_hash : string
}.

(** A row of [webhook_receipts]. *)
Record WebhookReceipt := MkReceipt {
  wr_organization : Uuid;
  wr_trigger : Uuid;
  wr_delivery_id : string;
  wr_event : string;
  wr_body_sha256 : string;
  wr_status : string;
  wr_reason : string;
  wr_caller_identity : string;
  wr_recorded_at : Z;
  wr_audit_sequence : Z
}.

(** A row of [trigger_schedule_watermarks]. *)
Record TriggerScheduleWatermark := MkWatermark {
  sw_organization : Uuid;
  sw_project : Uuid;
  sw_pipeline : Uuid;
  sw_trigger : Uuid;
  sw_trigger_generation : Z;
  sw_timezone : string;
  sw_calendar : string;
  sw_expression : string;
  sw_schedule_identity_sha256 : string;
  sw_last_resolved_slot : option Z;
  sw_last_delivery_id : option string
}.

(** A row of [trigger_schedule_slots], by trigger, generation and time. *)
Record ScheduleSlot := MkSlot {
  sl_project : Uuid;
  sl_pipeline : Uuid;
  sl_outcome : SlotOutcome;
  sl_delivery_id : option string;
  sl_updated_at : Z
}.

Record TriggerDb := MkTriggerDb {
  ti_store : Db;
  ti_audit : AuditTables;
  ti_definitions : gmap Uuid TriggerDefinition;
  ti_versions : gmap (Uuid * Z) PipelineTrigger;
  ti_deliveries : gmap (Uuid * string) TriggerDelivery;
  ti_receipts : gmap (Uuid * string) WebhookReceipt;
  ti_watermarks : gmap (Uuid * Z) TriggerScheduleWatermark;
  ti_slots : gmap (Uuid * Z * Z) ScheduleSlot
}.

(** ** Setters *)

Definition rebuilt_trigger_delivery (r : TriggerDelivery) : TriggerDelivery :=
  MkTriggerDelivery (td_organization r) (td_project r) (td_pipeline r) (td_trigger r)
    (td_trigger_generation r) (td_delivery_id r) (td_event_id r) (td_event_kind r)
    (td_caller_identity r) (td_payload_sha256 r) (td_canonical_payload r) (td_parameters r)
    (td_requested_platform r) (td_requested_trust_pool r) (td_event_time r) (td_accepted_at r)
    (td_expires_at r) (td_status r) (td_attempt_count r) (td_next_attempt_at r)
    (td_claim_owner r) (td_claim_fence r) (td_claim_expires_at r) (td_redrive_of r)
    (td_redrive_ordinal r) (td_build r) (td_terminal_reason r) (td_audit_sequence r)
    (td_audit_event_hash r).
#[export] Instance set_td_status : Update td_status := ltac:(derive_setter rebuilt_trigger_delivery td_status).
#[export] Instance set_td_attempt_count : Update td_attempt_count := ltac:(derive_setter rebuilt_trigger_delivery td_attempt_count).
#[export] Instance set_td_next_attempt_at : Update td_next_attempt_at := ltac:(derive_setter rebuilt_trigger_delivery td_next_attempt_at).
#[export] Instance set_td_claim_owner : Update td_claim_owner := ltac:(derive_setter rebuilt_trigger_delivery td_claim_owner).
#[export] Instance set_td_claim_fence : Update td_claim_fence := ltac:(derive_setter rebuilt_trigger_delivery td_claim_fence).
#[export] Instance set_td_claim_expires_at : Update td_claim_expires_at := ltac:(derive_setter rebuilt_trigger_delivery td_claim_expires_at).
#[export] Instance set_td_build : Update td_build := ltac:(derive_setter rebuilt_trigger_delivery td_build).
#[export] Instance set_td_terminal_reason : Update td_terminal_reason := ltac:(derive_setter rebuilt_trigger_delivery td_terminal_reason).

Definition rebuilt_watermark (r : TriggerScheduleWatermark) : TriggerScheduleWatermark :=
  MkWatermark (sw_organization r) (sw_project r) (sw_pipeline r) (sw_trigger r)
    (sw_trigger_generation r) (sw_timezone r) (sw_calendar r) (sw_expression r)
    (sw_schedule_identity_sha256 r) (sw_last_resolved_slot r) (sw_last_delivery_id r).
#[export] Instance set_sw_last_resolved_slot : Update sw_last_resolved_slot := ltac:(derive_setter rebuilt_watermark sw_last_resolved_slot).
#[export] Instance set_sw_last_delivery_id : Update sw_last_delivery_id := ltac:(derive_setter rebuilt_watermark sw_last_delivery_id).

Definition rebuilt_slot (r : ScheduleSlot) : ScheduleSlot :=
  MkSlot (sl_project r) (sl_pipeline r) (sl_outcome r) (sl_delivery_id r) (sl_updated_at r).
#[export] Instance set_sl_outcome : Update sl_outcome := ltac:(derive_setter rebuilt_slot sl_outcome).
#[export] Instance set_sl_delivery_id : Update sl_delivery_id := ltac:(derive_setter rebuilt_slot sl_delivery_id).
#[export] Instance set_sl_updated_at : Update sl_updated_at := ltac:(derive_setter rebuilt_slot sl_updated_at).

Definition rebuilt_trigger_db (r : TriggerDb) : TriggerDb :=
  MkTriggerDb (ti_store r) (ti_audit r) (ti_definitions r) (ti_versions r) (ti_deliveries r)
    (ti_receipts r) (ti_watermarks r) (ti_slots r).
#[export] Instance set_ti_store : Update ti_store := ltac:(derive_setter rebuilt_trigger_db ti_store).
#[export] Instance set_ti_audit : Update ti_audit := ltac:(derive_setter rebuilt_trigger_db ti_audit).
#[export] Instance set_ti_definitions : Update ti_definitions := ltac:(derive_setter rebuilt_trigger_db ti_definitions).
#[export] Instance set_ti_versions : Update ti_versions := ltac:(derive_setter rebuilt_trigger_db ti_versions).
#[export] Instance set_ti_deliveries : Update ti_deliveries := ltac:(derive_setter rebuilt_trigger_db ti_deliveries).
#[export] Instance set_ti_receipts : Update ti_receipts := ltac:(derive_setter rebuilt_trigger_db ti_receipts).
#[export] Instance set_ti_watermarks : Update ti_watermarks := ltac:(derive_setter rebuilt_trigger_db ti_watermarks).
#[export] Instance set_ti_slots : Update ti_slots := ltac:(derive_setter rebuilt_trigger_db ti_slots).

(** ** Constraints and guards *)

Section Statements.
Context `{Postgres}.

(** [floor(extract(epoch FROM clock_timestamp()) * 1000)]: the clock is read in
    microseconds. *)
Definition trigger_database_unix_ms (now : Z) : Z := now / 1000.

Definition terminal_delivery (s : TriggerDeliveryStatus) : bool :=
  match s with TAdmitted | TDeadLettered => true | TPending | TRetryWait => false end.

Definition is_some {A} (o : option A) : bool := match o with Some _ => true | None => false end.

(** The CHECK of migration 28 that ties a delivery's status to its build, its
    reason and its claim. *)
Definition delivery_status_ok (d : TriggerDelivery) : bool :=
  match td_status d with
  | TPending | TRetryWait =>
      negb (is_some (td_build d)) && negb (is_some (td_terminal_reason d))
      && Bool.eqb (is_some (td_claim_owner d)) (is_some (td_claim_expires_at d))
  | TAdmitted =>
      is_some (td_build d) && negb (is_some (td_terminal_reason d))
      && negb (is_some (td_claim_owner d)) && negb (is_some (td_claim_expires_at d))
  | TDeadLettered =>
      negb (is_some (td_build d)) && is_some (td_terminal_reason d)
      && negb (is_some (td_claim_owner d)) && negb (is_some (td_claim_expires_at d))
  end.

(** The CHECKs of [trigger_deliveries]. Those on the text columns follow from
    [validate_text], which every value written there has passed. *)
Definition delivery_row_ok (d : TriggerDelivery) : bool :=
  (0 <? td_trigger_generation d) && (slen (jsonb_text (td_canonical_payload d)) <=? 262144)
  && (slen (jsonb_text (td_parameters d)) <=? 65536) && (0 <=? td_event_time d)
  && (0 <=? td_accepted_at d) && (td_accepted_at d <? td_expires_at d)
  && (0 <=? td_attempt_count d) && (0 <=? td_next_attempt_at d) && (0 <=? td_claim_fence d)
  && from_option (Z.leb 0) true (td_claim_expires_at d)
  && from_option (Z.ltb 0) true (td_redrive_ordinal d) && (0 <? td_audit_sequence d)
  && delivery_status_ok d
  && Bool.eqb (is_some (td_redrive_of d)) (is_some (td_redrive_ordinal d)).

(** [mcloving_guard_trigger_delivery_mutation]; no statement sets an identity
    column. *)
Definition guard_trigger_delivery (old new : TriggerDelivery) : bool :=
  negb (terminal_delivery (td_status old))
  && (td_attempt_count old <=? td_attempt_count new)
  && (td_attempt_count new <=? td_attempt_count old + 1)
  && (td_claim_fence old <=? td_claim_fence new)
  && (td_claim_fence new <=? td_claim_fence old + 1)
  && negb ((td_claim_fence new =? td_claim_fence old + 1)
           && (negb (is_some (td_claim_owner new)) || negb (is_some (td_claim_expires_at new))))
  && negb ((td_claim_fence new =? td_claim_fence old)
           && negb (bool_decide (td_claim_owner new = td_claim_owner old))
           && is_some (td_claim_owner new))
  && negb (bool_decide (td_status old = TRetryWait) && bool_decide (td_status new = TPending)).

(** [mcloving_guard_trigger_schedule_watermark]. *)
Definition guard_watermark (old new : TriggerScheduleWatermark) : bool :=
  match sw_last_resolved_slot old, sw_last_resolved_slot new, sw_last_delivery_id new with
  | Some previous, Some next, Some delivery =>
      (previous <? next) && negb (bool_decide (sw_last_delivery_id old = Some delivery))
  | _, _, _ => false
  end.

(** [mcloving_guard_trigger_schedule_slot] and the CHECK of migration 42. *)
Definition guard_slot (old new : ScheduleSlot) : bool :=
  match sl_outcome old with
  | SlotFired | SlotSkipped => false
  | SlotOpen => one_status [SlotClaimed; SlotSkipped; SlotFired] (sl_outcome new)
  | SlotClaimed => one_status [SlotOpen; SlotFired; SlotSkipped] (sl_outcome new)
  end
  && negb (bool_decide (sl_outcome new = SlotFired)
           && (negb (is_some (sl_delivery_id new))
               || bool_decide (sl_delivery_id new = sl_delivery_id old))).
Definition slot_row_ok (s : ScheduleSlot) : bool :=
  match sl_outcome s with
  | SlotFired => is_some (sl_delivery_id s)
  | SlotClaimed => true
  | SlotOpen | SlotSkipped => negb (is_some (sl_delivery_id s))
  end.

(** ** Statements *)

(** [INSERT INTO trigger_deliveries]: its keys are the delivery, the event, and
    the ordinal of a redrive. *)
Definition delivery_conflict (d : TriggerDelivery) (e : TriggerDelivery) : bool :=
  String.eqb (td_trigger d) (td_trigger e)
  && (String.eqb (td_delivery_id d) (td_delivery_id e)
      || String.eqb (td_event_id d) (td_event_id e)
      || (is_some (td_redrive_of d) && bool_decide (td_redrive_of d = td_redrive_of e)
          && bool_decide (td_redrive_ordinal d = td_redrive_ordinal e))).

Definition some_delivery (P : TriggerDelivery -> bool) (t : TriggerDb) : bool :=
  existsb P (map_to_list (ti_deliveries t)).*2.

Definition insert_delivery (d : TriggerDelivery) (t : TriggerDb) : result StoreError TriggerDb :=
  check (some_delivery (delivery_conflict d) t) Database ;;
  check (negb (delivery_row_ok d)) Database ;;
  Ok (t <| ti_deliveries := <[(td_trigger d, td_delivery_id d) := d]> (ti_deliveries t) |>).

(** [UPDATE trigger_deliveries ... WHERE trigger_id AND delivery_id]. *)
Definition update_delivery (trigger : Uuid) (delivery : string)
    (f : TriggerDelivery -> TriggerDelivery) (t : TriggerDb) : result StoreError TriggerDb :=
  match ti_deliveries t !! (trigger, delivery) with
  | None => Ok t
  | Some d =>
      check (negb (guard_trigger_delivery d (f d))) Database ;;
      check (negb (delivery_row_ok (f d))) Database ;;
      Ok (t <| ti_deliveries := <[(trigger, delivery) := f d]> (ti_deliveries t) |>)
  end.

(** [UPDATE trigger_schedule_slots SET ..., updated_at = clock_timestamp()
    WHERE P]: every row it meets passes the guard. *)
Definition touched (now : Z) (f : ScheduleSlot -> ScheduleSlot) (s : ScheduleSlot) : ScheduleSlot :=
  f s <| sl_updated_at := now |>.
Definition update_slots (now : Z) (P : Uuid * Z * Z -> ScheduleSlot -> bool)
    (f : ScheduleSlot -> ScheduleSlot) (t : TriggerDb) : result StoreError TriggerDb :=
  check (existsb (fun ks => P ks.1 ks.2
                    && negb (guard_slot ks.2 (touched now f ks.2) && slot_row_ok (touched now f ks.2)))
           (map_to_list (ti_slots t))) Database ;;
  Ok (t <| ti_slots := map_imap (fun k s => Some (if P k s then touched now f s else s)) (ti_slots t) |>).

(** The current version of a trigger: the join of its definition with
    [pipeline_trigger_versions]. *)
Definition current_version (t : TriggerDb) (trigger : Uuid) :
    option (TriggerDefinition * PipelineTrigger) :=
  d ← ti_definitions t !! trigger;
  v ← ti_versions t !! (trigger, tdef_current_generation d);
  Some (d, v).

(** The pipeline's operational generation and state. *)
Definition pipeline_truth (t : TriggerDb) (project pipeline : Uuid) : option (Z * string) :=
  p ← pipelines (ti_store t) !! pipeline;
  s ← pipeline_states (ti_store t) !! (pipeline, p_generation p);
  if String.eqb (p_project p) project then Some (p_generation p, s) else None.

(** The test of the pipeline's state that acceptance, claim and redrive share. *)
Definition require_enabled_pipeline (pipeline : Uuid) (truth : Z * string) : result StoreError () :=
  check (String.eqb truth.2 "disabled") (PipelineDisabled pipeline truth.1) ;;
  check (negb (String.eqb truth.2 "enabled"))
    (InvalidPipelineState ("stored pipeline operational state '" +:+ truth.2 +:+ "' is invalid")).

End Statements.
