(* ===== verification/TriggerValidation.v ===== *)
(** * Trigger ingress: inputs and their validation (trigger_ingress.rs)

    The requests of the trigger operations and every check the code makes of
    them before it touches a row: bounded canonical texts, digests of canonical
    JSON, the configuration and filter each kind of trigger allows, and the
    match of a delivery against the stored configuration. An [expect] on a field
    that validation has required is [Unfinished]. *)

From stdpp Require Import base gmap list strings.
From Stdlib Require Import Ascii ZArith Lia.
From S2P Require Import Prelude Text Bytes Domain DagContract StoreTables ScheduleCalendar.
From S2P Require Import TriggerTables.

Open Scope Z_scope.

Definition MAX_TEXT_BYTES : Z := 512.
Definition MAX_REASON_BYTES : Z := 2048.
Definition MAX_CONFIGURATION_BYTES : Z := 64 * 1024.
Definition MAX_PAYLOAD_BYTES : Z := 256 * 1024.
Definition MAX_CLOCK_SKEW_MS : Z := 5 * 60 * 1000.
Definition MAX_WINDOW_SECONDS : Z := 30 * 24 * 60 * 60.

(** ** Requests *)

Record PipelineTriggerWrite := MkTriggerWrite {
  tw_project : Uuid;
  tw_pipeline : Uuid;
  tw_trigger : Uuid;
  tw_expected_generation : Z;
  tw_kind : TriggerKind;
  tw_state : PipelineTriggerState;
  tw_implementation_sha256 : string;
  tw_configuration_sha256 : string;
  tw_filter_sha256 : string;
  tw_event_source_identity : string;
  tw_source_generation : string;
  tw_configuration : Value;
  tw_deduplication_window_seconds : Z;
  tw_max_delivery_attempts : Z;
  tw_delivery_ttl_seconds : Z;
  tw_actor_subject : string;
  tw_reason : string;
  tw_idempotency_key : string
}.

Record TriggerScheduleSlot := MkScheduleSlot {
  ts_timezone : string;
  ts_calendar : string;
  ts_expression : string;
  ts_schedule_identity_sha256 : string;
  ts_expected_last_resolved_slot : option Z;
  ts_resolved_slot : Z
}.

Record NewTriggerDelivery := MkNewDelivery {
  nd_project : Uuid;
  nd_pipeline : Uuid;
  nd_trigger : Uuid;
  nd_expected_trigger_generation : Z;
  nd_delivery_id : string;
  nd_event_id : string;
  nd_event_kind : string;
  nd_caller_identity : string;
  nd_payload_sha256 : string;
  nd_canonical_payload : Value;
  nd_parameters : Value;
  nd_requested_platform : string;
  nd_requested_trust_pool : string;
  nd_event_time : Z;
  nd_accepted_at : Z;
  nd_schedule_slot : option TriggerScheduleSlot
}.

(** [hex::encode] and [hex::decode]. *)
Class TriggerHex := { hex_encode : string -> string; hex_decode : string -> option string }.
Class TriggerHexLaws (X : TriggerHex) : Prop := {
  hex_decode_encode s : hex_decode (hex_encode s) = Some s
}.

Section Validation.
Context `{External} `{DagExternal} `{Md5Hash} `{TriggerHex}.

Definition invalid_ingress {A} (message : string) : result StoreError A :=
  Err (InvalidTriggerIngress message).

Definition validate_text (name value : string) (maximum : Z) : result StoreError () :=
  check (is_empty value || (maximum <? slen value) || negb (String.eqb (trim value) value)
         || existsb char_is_control (chars value))
    (InvalidTriggerIngress (name +:+ " must be non-empty, canonical, and at most "
       +:+ fmt_z maximum +:+ " bytes")).

(** [serde_json::to_vec], its error reported. *)
Definition ingress_to_vec (value : Value) : result StoreError string :=
  map_err InvalidTriggerIngress (json_to_vec value).

Definition validate_object (name : string) (value : Value) (maximum : Z) : result StoreError () :=
  check (negb (is_some (as_object value))) (InvalidTriggerIngress (name +:+ " must be an object")) ;;
  bytes ← ingress_to_vec value;
  check (maximum <? slen bytes)
    (InvalidTriggerIngress (name +:+ " exceeds " +:+ fmt_z maximum +:+ " bytes")).

Definition zero_digest : string := srepeat "000" 32.
Definition validate_digest (name digest : string) : result StoreError () :=
  check (String.eqb digest zero_digest) (InvalidTriggerIngress (name +:+ " cannot be all zero")).

Definition parse_configuration_digest (configuration : Value) (name : string) :
    result StoreError string :=
  value ← ok_or (field configuration name ≫= as_str)
    (InvalidTriggerIngress ("trigger configuration requires '" +:+ name +:+ "'"));
  bytes ← ok_or (hex_decode value)
    (InvalidTriggerIngress ("trigger configuration '" +:+ name +:+ "' is not hexadecimal"));
  check (negb (slen bytes =? 32))
    (InvalidTriggerIngress ("trigger configuration '" +:+ name +:+ "' is not SHA-256 sized")) ;;
  validate_digest name bytes ;;
  Ok bytes.

(** ** Configurations *)

Definition allowed_configuration (kind : TriggerKind) : list string :=
  match kind with
  | ScmWebhook => ["provider"; "repository_identity"; "filter"]
  | Schedule =>
      ["timezone"; "calendar"; "expression"; "schedule_identity_sha256";
       "resolver_implementation_sha256"; "horizon_slots"; "jenkins_hash_algorithm_version";
       "jenkins_full_item_name"; "jenkins_hash_inputs_sha256"; "filter"]
  | Upstream => ["upstream_pipeline_id"; "filter"]
  | RemoteApi => ["audience"; "filter"]
  | Plugin => []
  end.

Definition allowed_filter (kind : TriggerKind) : list string :=
  match kind with
  | ScmWebhook => ["event_kinds"; "branches"; "path_prefixes"]
  | Schedule => ["event_kinds"]
  | Upstream => ["event_kinds"; "statuses"]
  | RemoteApi => ["event_kinds"; "request_methods"]
  | Plugin => []
  end.

Definition allowed_payload (kind : TriggerKind) : list string :=
  match kind with
  | ScmWebhook => ["repository_identity"; "revision"; "branch"; "paths"]
  | Schedule =>
      ["timezone"; "calendar"; "expression"; "schedule_identity_sha256";
       "expected_last_resolved_slot_unix_ms"; "resolved_slot_unix_ms"]
  | Upstream => ["upstream_pipeline_id"; "upstream_build_id"; "status"]
  | RemoteApi => ["audience"; "request_id"; "request_method"]
  | Plugin => []
  end.

(** The loop over [object.keys()] that the three validators share. *)
Definition allowed_keys (kind : TriggerKind) (what : string) (allowed : list string)
    (object : bmap Value) : result StoreError () :=
  try_for (fun key =>
    check (negb (existsb (String.eqb key) allowed))
      (InvalidTriggerIngress ("unsupported " +:+ trigger_kind_str kind +:+ what +:+ key +:+ "'")))
    object.*1.

Definition require_text (kind : TriggerKind) (configuration : Value) (name : string) :
    result StoreError () :=
  value ← ok_or (field configuration name ≫= as_str)
    (InvalidTriggerIngress (trigger_kind_str kind +:+ " trigger configuration requires '"
       +:+ name +:+ "'"));
  validate_text name value MAX_TEXT_BYTES.

(** [configuration.get(name).and_then(Value::as_str).expect(...)]. *)
Definition expect_text (configuration : Value) (name : string) : result StoreError string :=
  ok_or (field configuration name ≫= as_str) Unfinished.

Definition validate_schedule_configuration (configuration : Value) : result StoreError () :=
  require_text Schedule configuration "timezone" ;;
  require_text Schedule configuration "calendar" ;;
  timezone ← expect_text configuration "timezone";
  validate_text "timezone" timezone 128 ;;
  calendar ← expect_text configuration "calendar";
  validate_text "calendar" calendar 128 ;;
  require_text Schedule configuration "expression" ;;
  require_text Schedule configuration "schedule_identity_sha256" ;;
  require_text Schedule configuration "resolver_implementation_sha256" ;;
  try_for (fun name => parse_configuration_digest configuration name ;; Ok tt)
    ["schedule_identity_sha256"; "resolver_implementation_sha256"] ;;
  let jenkins_hash_fields :=
    ["jenkins_hash_algorithm_version"; "jenkins_full_item_name"; "jenkins_hash_inputs_sha256"] in
  let supplied := length (List.filter (fun name => is_some (field configuration name))
                            jenkins_hash_fields) in
  check (negb (Nat.eqb supplied 0) && negb (Nat.eqb supplied 3))
    (InvalidTriggerIngress
       "Jenkins hash evidence must supply algorithm, full item name, and input digest together") ;;
  (if Nat.eqb supplied 3
   then require_text Schedule configuration "jenkins_hash_algorithm_version" ;;
        require_text Schedule configuration "jenkins_full_item_name" ;;
        parse_configuration_digest configuration "jenkins_hash_inputs_sha256" ;;
        algorithm ← expect_text configuration "jenkins_hash_algorithm_version";
        check (negb (String.eqb algorithm JENKINS_CRON_HASH_V1))
          (InvalidTriggerIngress
             ("unsupported jenkins_hash_algorithm_version '" +:+ algorithm +:+ "'"))
   else Ok tt) ;;
  calendar_from_configuration configuration ;;
  Ok tt.

Definition validate_kind_configuration (kind : TriggerKind) (configuration : Value) :
    result StoreError () :=
  object ← ok_or (as_object configuration)
    (InvalidTriggerIngress "trigger configuration must be an object");
  allowed_keys kind " trigger configuration field '" (allowed_configuration kind) object ;;
  match kind with
  | ScmWebhook =>
      require_text kind configuration "provider" ;;
      require_text kind configuration "repository_identity"
  | Schedule => validate_schedule_configuration configuration
  | Upstream =>
      require_text kind configuration "upstream_pipeline_id" ;;
      upstream ← expect_text configuration "upstream_pipeline_id";
      ok_or (uuid_parse upstream) (InvalidTriggerIngress "upstream_pipeline_id must be a UUID") ;;
      Ok tt
  | RemoteApi => require_text kind configuration "audience"
  | Plugin => invalid_ingress "plugin trigger class has no installed admitted implementation"
  end.

(** One value of a filter array; [seen] are the values before it. *)
Definition filter_value (name : string) (seen : list string) (value : Value) :
    result StoreError (list string) :=
  text ← ok_or (as_str value)
    (InvalidTriggerIngress ("trigger filter '" +:+ name +:+ "' contains a non-string"));
  validate_text ("filter." +:+ name) text MAX_TEXT_BYTES ;;
  check (existsb (String.eqb text) seen)
    (InvalidTriggerIngress ("trigger filter '" +:+ name +:+ "' must contain unique values")) ;;
  Ok (text :: seen).

Definition validate_filter_configuration (kind : TriggerKind) (filter : Value) :
    result StoreError () :=
  object ← ok_or (as_object filter) (InvalidTriggerIngress "trigger filter must be an object");
  allowed_keys kind " trigger filter '" (allowed_filter kind) object ;;
  try_for (fun entry : string * Value =>
    let '(name, value) := entry in
    values ← ok_or (as_array value)
      (InvalidTriggerIngress ("trigger filter '" +:+ name +:+ "' must be an array"));
    check (128 <? llen values)
      (InvalidTriggerIngress ("trigger filter '" +:+ name +:+ "' exceeds 128 entries")) ;;
    try_fold (filter_value name) [] values ;;
    Ok tt) object.

Definition validate_trigger_write (input : PipelineTriggerWrite) : result StoreError () :=
  check (tw_expected_generation input <? 0)
    (InvalidTriggerIngress "expected trigger generation cannot be negative") ;;
  validate_digest "implementation_sha256" (tw_implementation_sha256 input) ;;
  validate_digest "configuration_sha256" (tw_configuration_sha256 input) ;;
  validate_digest "filter_sha256" (tw_filter_sha256 input) ;;
  validate_text "event_source_identity" (tw_event_source_identity input) MAX_TEXT_BYTES ;;
  validate_text "source_generation" (tw_source_generation input) MAX_TEXT_BYTES ;;
  validate_text "actor_subject" (tw_actor_subject input) MAX_TEXT_BYTES ;;
  validate_text "reason" (tw_reason input) MAX_REASON_BYTES ;;
  validate_text "idempotency_key" (tw_idempotency_key input) 256 ;;
  validate_object "configuration" (tw_configuration input) MAX_CONFIGURATION_BYTES ;;
  check (negb ((1 <=? tw_deduplication_window_seconds input)
               && (tw_deduplication_window_seconds input <=? MAX_WINDOW_SECONDS))
         || negb ((1 <=? tw_max_delivery_attempts input) && (tw_max_delivery_attempts input <=? 100))
         || negb ((1 <=? tw_delivery_ttl_seconds input)
                  && (tw_delivery_ttl_seconds input <=? MAX_WINDOW_SECONDS)))
    (InvalidTriggerIngress "trigger windows and attempt limit are outside their bounds") ;;
  canonical ← ingress_to_vec (tw_configuration input);
  check (negb (String.eqb (sha256 canonical) (tw_configuration_sha256 input)))
    (InvalidTriggerIngress "configuration SHA-256 does not match canonical JSON") ;;
  filter ← ok_or (field (tw_configuration input) "filter")
    (InvalidTriggerIngress "trigger configuration requires a filter object");
  validate_object "configuration.filter" filter MAX_CONFIGURATION_BYTES ;;
  filter_canonical ← ingress_to_vec filter;
  check (negb (String.eqb (sha256 filter_canonical) (tw_filter_sha256 input)))
    (InvalidTriggerIngress "filter SHA-256 does not match canonical filter JSON") ;;
  validate_filter_configuration (tw_kind input) filter ;;
  validate_kind_configuration (tw_kind input) (tw_configuration input).

(** ** Deliveries *)

Definition validate_delivery (input : NewTriggerDelivery) : result StoreError () :=
  check (nd_expected_trigger_generation input <=? 0)
    (InvalidTriggerIngress "expected trigger generation must be positive") ;;
  validate_text "delivery_id" (nd_delivery_id input) MAX_TEXT_BYTES ;;
  validate_text "event_id" (nd_event_id input) MAX_TEXT_BYTES ;;
  validate_text "event_kind" (nd_event_kind input) 256 ;;
  validate_text "caller_identity" (nd_caller_identity input) MAX_TEXT_BYTES ;;
  validate_digest "payload_sha256" (nd_payload_sha256 input) ;;
  validate_object "canonical_payload" (nd_canonical_payload input) MAX_PAYLOAD_BYTES ;;
  validate_object "parameters" (nd_parameters input) MAX_CONFIGURATION_BYTES ;;
  validate_text "requested_platform" (nd_requested_platform input) 128 ;;
  validate_text "requested_trust_pool" (nd_requested_trust_pool input) 128 ;;
  check ((nd_event_time input <? 0) || (nd_accepted_at input <? 0))
    (InvalidTriggerIngress "trigger timestamps cannot be negative") ;;
  canonical ← ingress_to_vec (nd_canonical_payload input);
  check (negb (String.eqb (sha256 canonical) (nd_payload_sha256 input)))
    (InvalidTriggerIngress "payload SHA-256 does not match canonical JSON").

Definition filter_strings (value : Value) (name : string) : result StoreError (list string) :=
  let invalid := InvalidTriggerIngress ("stored trigger filter '" +:+ name +:+ "' is invalid") in
  values ← ok_or (as_array value) invalid;
  try_fold (fun texts value => text ← ok_or (as_str value) invalid; Ok (texts ++ [text])) [] values.

Definition filter_allows (filter : bmap Value) (name supplied : string) : result StoreError bool :=
  match bget name filter with
  | None => Ok true
  | Some value =>
      allowed ← filter_strings value name;
      Ok (bool_decide (allowed = []) || existsb (String.eqb supplied) allowed)
  end.

(** A filter that must let [supplied] pass. *)
Definition require_allowed (filter : bmap Value) (name supplied message : string) :
    result StoreError () :=
  allowed ← filter_allows filter name supplied;
  check (negb allowed) (TriggerIngressConflict message).

Definition required_payload_text (kind : TriggerKind) (payload : bmap Value) (name : string) :
    result StoreError string :=
  value ← ok_or (bget name payload ≫= as_str)
    (InvalidTriggerIngress (trigger_kind_str kind +:+ " trigger payload requires '" +:+ name +:+ "'"));
  validate_text name value MAX_TEXT_BYTES ;;
  Ok value.

(** A payload text that must repeat the configured one. *)
Definition require_configured (kind : TriggerKind) (configuration : Value) (payload : bmap Value)
    (name message : string) : result StoreError () :=
  configured ← expect_text configuration name;
  supplied ← required_payload_text kind payload name;
  check (negb (String.eqb supplied configured)) (TriggerIngressConflict message).

Definition supplied_paths (payload : bmap Value) : result StoreError (option (list string)) :=
  match bget "paths" payload with
  | None => Ok None
  | Some value =>
      paths ← ok_or (as_array value) (InvalidTriggerIngress "SCM trigger paths must be an array");
      check (128 <? llen paths) (InvalidTriggerIngress "SCM trigger paths exceed 128 entries") ;;
      texts ← try_fold (fun texts path =>
        text ← ok_or (as_str path) (InvalidTriggerIngress "SCM trigger path must be a string");
        validate_text "path" text MAX_TEXT_BYTES ;;
        Ok (texts ++ [text])) [] paths;
      Ok (Some texts)
  end.

Definition require_path (filter : bmap Value) (paths : option (list string)) :
    result StoreError () :=
  match bget "path_prefixes" filter with
  | None => Ok tt
  | Some value =>
      prefixes ← filter_strings value "path_prefixes";
      match prefixes with
      | [] => Ok tt
      | _ =>
          paths ← ok_or paths (InvalidTriggerIngress "SCM trigger payload requires paths");
          check (negb (existsb (fun path => existsb (fun prefix => starts_with prefix path) prefixes)
                         paths))
            (TriggerIngressConflict "SCM path is filtered")
      end
  end.

Definition validate_delivery_against_configuration (kind : TriggerKind)
    (input : NewTriggerDelivery) (configuration : Value) : result StoreError () :=
  payload ← ok_or (field (nd_canonical_payload input) "payload" ≫= as_object)
    (InvalidTriggerIngress "trigger payload body must be an object");
  filter ← ok_or (field configuration "filter" ≫= as_object)
    (InvalidTriggerIngress "stored trigger filter is invalid");
  allowed_keys kind " trigger payload field '" (allowed_payload kind) payload ;;
  require_allowed filter "event_kinds" (nd_event_kind input) "trigger event kind is filtered" ;;
  match kind with
  | ScmWebhook =>
      require_configured kind configuration payload "repository_identity"
        "SCM repository identity was substituted" ;;
      required_payload_text kind payload "revision" ;;
      branch ← required_payload_text kind payload "branch";
      require_allowed filter "branches" branch "SCM branch is filtered" ;;
      paths ← supplied_paths payload;
      require_path filter paths
  | Schedule =>
      check (negb (String.eqb (nd_event_kind input) "schedule"))
        (TriggerIngressConflict "schedule trigger requires schedule event kind")
  | Upstream =>
      require_configured kind configuration payload "upstream_pipeline_id"
        "upstream pipeline identity was substituted" ;;
      build ← required_payload_text kind payload "upstream_build_id";
      ok_or (uuid_parse build)
        (InvalidTriggerIngress "upstream build identity must be a UUID") ;;
      status ← required_payload_text kind payload "status";
      require_allowed filter "statuses" status "upstream result status is filtered"
  | RemoteApi =>
      require_configured kind configuration payload "audience"
        "remote-build audience was substituted" ;;
      request ← required_payload_text kind payload "request_id";
      check (negb (String.eqb request (nd_event_id input)))
        (TriggerIngressConflict
           "remote-build request identity must equal the durable event identity") ;;
      method ← required_payload_text kind payload "request_method";
      require_allowed filter "request_methods" method "remote-build request method is filtered"
  | Plugin => invalid_ingress "plugin trigger class has no installed admitted implementation"
  end.

Definition verify_schedule_configuration (slot : TriggerScheduleSlot) (configuration : Value) :
    result StoreError () :=
  let is_text name text := bool_decide (field configuration name ≫= as_str = Some text) in
  matches ←
    (if is_text "timezone" (ts_timezone slot) && is_text "calendar" (ts_calendar slot)
        && is_text "expression" (ts_expression slot)
     then identity ← parse_configuration_digest configuration "schedule_identity_sha256";
          Ok (String.eqb identity (ts_schedule_identity_sha256 slot))
     else Ok false);
  check (negb matches)
    (TriggerIngressConflict "schedule watermark identity differs from the configured schedule").

(** ** Replays *)

Definition trigger_matches_write (organization : Uuid) (trigger : PipelineTrigger)
    (input : PipelineTriggerWrite) : bool :=
  String.eqb (pt_organization trigger) organization
  && String.eqb (pt_project trigger) (tw_project input)
  && String.eqb (pt_pipeline trigger) (tw_pipeline input)
  && String.eqb (pt_trigger trigger) (tw_trigger input)
  && bool_decide (pt_kind trigger = tw_kind input)
  && bool_decide (pt_state trigger = tw_state input)
  && String.eqb (pt_implementation_sha256 trigger) (tw_implementation_sha256 input)
  && String.eqb (pt_configuration_sha256 trigger) (tw_configuration_sha256 input)
  && String.eqb (pt_filter_sha256 trigger) (tw_filter_sha256 input)
  && String.eqb (pt_event_source_identity trigger) (tw_event_source_identity input)
  && String.eqb (pt_source_generation trigger) (tw_source_generation input)
  && value_eqb (pt_configuration trigger) (tw_configuration input)
  && (pt_deduplication_window_seconds trigger =? tw_deduplication_window_seconds input)
  && (pt_max_delivery_attempts trigger =? tw_max_delivery_attempts input)
  && (pt_delivery_ttl_seconds trigger =? tw_delivery_ttl_seconds input)
  && String.eqb (pt_actor_subject trigger) (tw_actor_subject input)
  && String.eqb (pt_reason trigger) (tw_reason input)
  && String.eqb (pt_idempotency_key trigger) (tw_idempotency_key input).

Definition schedule_slot_matches_delivery (delivery : TriggerDelivery)
    (slot : option TriggerScheduleSlot) : bool :=
  match slot with
  | None => true
  | Some slot =>
      (td_event_time delivery =? ts_resolved_slot slot)
      && bool_decide
           ((payload ← field (td_canonical_payload delivery) "payload";
             identity ← field payload "schedule_identity_sha256"; as_str identity)
            = Some (hex_encode (ts_schedule_identity_sha256 slot)))
  end.

(** What the two comparisons of a replay have in common. *)
Definition same_delivery (organization : Uuid) (delivery : TriggerDelivery)
    (input : NewTriggerDelivery) : bool :=
  String.eqb (td_organization delivery) organization
  && String.eqb (td_project delivery) (nd_project input)
  && String.eqb (td_pipeline delivery) (nd_pipeline input)
  && String.eqb (td_trigger delivery) (nd_trigger input)
  && String.eqb (td_delivery_id delivery) (nd_delivery_id input)
  && String.eqb (td_event_id delivery) (nd_event_id input)
  && String.eqb (td_event_kind delivery) (nd_event_kind input)
  && String.eqb (td_caller_identity delivery) (nd_caller_identity input)
  && String.eqb (td_payload_sha256 delivery) (nd_payload_sha256 input)
  && value_eqb (td_canonical_payload delivery) (nd_canonical_payload input)
  && String.eqb (td_requested_platform delivery) (nd_requested_platform input)
  && String.eqb (td_requested_trust_pool delivery) (nd_requested_trust_pool input).

Definition delivery_matches (organization : Uuid) (delivery : TriggerDelivery)
    (input : NewTriggerDelivery) : bool :=
  same_delivery organization delivery input
  && (td_trigger_generation delivery =? nd_expected_trigger_generation input)
  && value_eqb (td_parameters delivery) (nd_parameters input)
  && (td_event_time delivery =? nd_event_time input)
  && schedule_slot_matches_delivery delivery (nd_schedule_slot input).

(** [Receipt] carries the digest of the raw body, which the store does not read. *)
Inductive DeliveryTiming : Type := Declared | Receipt (body_sha256 : string).

Definition delivery_matches_timed (organization : Uuid) (delivery : TriggerDelivery)
    (input : NewTriggerDelivery) (timing : DeliveryTiming) : bool :=
  match timing with
  | Declared => delivery_matches organization delivery input
  | Receipt _ =>
      same_delivery organization delivery input && negb (is_some (nd_schedule_slot input))
  end.

End Validation.
