(* ===== verification/TriggerSchedule.v ===== *)
(** * Trigger ingress: schedule slots (trigger_ingress.rs)

    The slots of a schedule trigger: how they are enumerated and kept
    materialized up to a horizon, the watermark a delivery advances, the claim of
    the latest due slot and its recovery. The civil time of an instant is
    PostgreSQL's [timezone]; an unknown zone is a database error. A row that the
    code picks before it takes the trigger's lock is an argument of what runs
    under the lock, since other transactions commit in between. *)

From stdpp Require Import base gmap list sorting strings.
From Stdlib Require Import Ascii ZArith Lia.
From S2P Require Import Prelude Text Bytes Domain DagContract StoreTables AuditChain.
From S2P Require Import ScheduleCalendar TriggerTables TriggerValidation.

Open Scope Z_scope.

(** [extract(... FROM timezone(zone, instant))] of an instant in milliseconds. *)
Class CivilTime := { timezone_civil : string -> Z -> option Civil }.

Definition MINUTE_MS : Z := 60000.

(** ** Enumeration *)

Section Schedule.
Context `{External} `{DagExternal} `{Md5Hash} `{TriggerHex} `{Postgres} `{CivilTime}.

Definition clamp (lo hi z : Z) : Z := Z.max lo (Z.min hi z).

(** The minutes the query walks past its first row. *)
Definition oversample (limit : Z) : Z := clamp (60 * 24 * 2) (60 * 24 * 400) (limit * 8).

(** [date_trunc('minute', ...) + interval '1 minute']. *)
Definition series_start (from : Z) : Z := Z.max (from - 1) 0 / MINUTE_MS * MINUTE_MS + MINUTE_MS.

Definition series (from limit : Z) : list Z :=
  map (fun i => series_start from + Z.of_nat i * MINUTE_MS) (seq 0 (S (Z.to_nat (oversample limit)))).

(** The rows of the query: an instant and its civil time. *)
Definition civil_row (zone : string) (instant : Z) : result StoreError (Z * Civil) :=
  civil ← ok_or (timezone_civil zone instant) Database; Ok (instant, civil).
Fixpoint civil_rows (zone : string) (instants : list Z) : result StoreError (list (Z * Civil)) :=
  match instants with
  | [] => Ok []
  | instant :: instants =>
      row ← civil_row zone instant; rows ← civil_rows zone instants; Ok (row :: rows)
  end.

Definition enumerate_schedule_slots (calendar : ScheduleCalendar) (from limit : Z) :
    result StoreError (list Z) :=
  rows ← civil_rows (sc_timezone calendar) (series from limit);
  let due := List.filter (fun row => (from <=? row.1) && matches_local calendar row.2) rows in
  let slots := (take (Z.to_nat limit) due).*1 in
  check (bool_decide (slots = []) && (0 <? limit))
    (InvalidTriggerIngress
       "native schedule calendar produced no upcoming slots in the search window") ;;
  Ok slots.

(** ** Materialization *)

Definition slots_of (t : TriggerDb) (trigger : Uuid) (generation : Z) : list (Z * ScheduleSlot) :=
  omap (fun ks => let '(tr, g, time, s) := ks in
          if String.eqb tr trigger && (g =? generation) then Some (time, s) else None)
    (map_to_list (ti_slots t)).

Definition max_time (l : list Z) : Z := fold_right Z.max (-1) l.

(** [INSERT ... ON CONFLICT DO NOTHING]. *)
Definition insert_slot (now : Z) (project pipeline trigger : Uuid) (generation : Z)
    (t : TriggerDb) (time : Z) : result StoreError TriggerDb :=
  check (time <? 0) Database ;;
  Ok (match ti_slots t !! (trigger, generation, time) with
      | Some _ => t
      | None => t <| ti_slots :=
          <[(trigger, generation, time) := MkSlot project pipeline SlotOpen None now]> (ti_slots t) |>
      end).

Definition materialize_from (now_ms last_existing : Z) : Z :=
  let now_floor := now_ms / MINUTE_MS * MINUTE_MS in
  if 0 <=? last_existing then Z.max (last_existing + 1) (now_floor + MINUTE_MS) else now_floor.

(** [now] is the clock of the inserts, [now_ms] the time the caller read. *)
Definition materialize_schedule_slots_for_trigger (now : Z) (project pipeline trigger : Uuid)
    (generation : Z) (configuration : Value) (now_ms : Z) (t : TriggerDb) :
    result StoreError TriggerDb :=
  calendar ← calendar_from_configuration configuration;
  let slots := slots_of t trigger generation in
  let open_future := llen (List.filter (fun ts => bool_decide (sl_outcome ts.2 = SlotOpen)
                                                  && (now_ms <? ts.1)) slots) in
  if sc_horizon_slots calendar <=? open_future then Ok t
  else
    candidates ← enumerate_schedule_slots calendar (materialize_from now_ms (max_time slots.*1))
      (sc_horizon_slots calendar - open_future);
    try_fold (insert_slot now project pipeline trigger generation) t candidates.

(** The enabled schedules, as their definitions and current versions. *)
Definition enabled_schedules (t : TriggerDb) : list (Uuid * TriggerDefinition * PipelineTrigger) :=
  omap (fun kd => let '(trigger, d) := kd in
          match current_version t trigger with
          | Some (_, v) =>
              if bool_decide (pt_kind v = Schedule) && bool_decide (pt_state v = TriggerEnabled)
              then Some (trigger, d, v) else None
          | None => None
          end) (map_to_list (ti_definitions t)).

Definition extend_schedule_horizons (now : Z) (t : TriggerDb) : result StoreError (() * TriggerDb) :=
  t ← try_fold (fun t entry =>
    let '(trigger, d, v) := entry in
    materialize_schedule_slots_for_trigger now (tdef_project d) (tdef_pipeline d) trigger
      (tdef_current_generation d) (pt_configuration v) (trigger_database_unix_ms now) t)
    t (enabled_schedules t);
  Ok (tt, t).

(** ** The watermark *)

Definition verify_schedule_slot_membership (trigger : Uuid) (generation resolved : Z)
    (t : TriggerDb) : result StoreError () :=
  check (negb (is_some (ti_slots t !! (trigger, generation, resolved))))
    (TriggerIngressConflict "resolved schedule slot is outside the materialized native slot set").

(** [UPDATE trigger_schedule_watermarks]. *)
Definition advance_watermark (key : Uuid * Z) (current : TriggerScheduleWatermark)
    (slot : TriggerScheduleSlot) (delivery : string) (t : TriggerDb) : result StoreError TriggerDb :=
  let next := current <| sw_last_resolved_slot := Some (ts_resolved_slot slot) |>
                      <| sw_last_delivery_id := Some delivery |> in
  check (negb (guard_watermark current next)) Database ;;
  Ok (t <| ti_watermarks := <[key := next]> (ti_watermarks t) |>).

Definition slot_is (trigger : Uuid) (generation time : Z) (outcomes : list SlotOutcome)
    (key : Uuid * Z * Z) (s : ScheduleSlot) : bool :=
  bool_decide (key = (trigger, generation, time)) && one_status outcomes (sl_outcome s).

Definition fired_with (delivery : string) (s : ScheduleSlot) : ScheduleSlot :=
  s <| sl_outcome := SlotFired |> <| sl_delivery_id := Some delivery |>.

Definition advance_schedule_for_delivery (organization : Uuid) (now : Z)
    (input : NewTriggerDelivery) (generation : Z) (slot : TriggerScheduleSlot)
    (configuration : Value) (t : TriggerDb) : result StoreError TriggerDb :=
  validate_text "timezone" (ts_timezone slot) 128 ;;
  validate_text "calendar" (ts_calendar slot) 128 ;;
  validate_text "expression" (ts_expression slot) MAX_TEXT_BYTES ;;
  validate_digest "schedule_identity_sha256" (ts_schedule_identity_sha256 slot) ;;
  check ((ts_resolved_slot slot <? 0) || negb (nd_event_time input =? ts_resolved_slot slot)
         || from_option (fun previous => (previous <? 0) || (ts_resolved_slot slot <=? previous))
              false (ts_expected_last_resolved_slot slot))
    (InvalidTriggerIngress "schedule delivery must bind its exact monotonic resolved slot") ;;
  verify_schedule_configuration slot configuration ;;
  verify_schedule_slot_membership (nd_trigger input) generation (ts_resolved_slot slot) t ;;
  let key := (nd_trigger input, generation) in
  t ← match ti_watermarks t !! key with
      | Some current =>
          check (negb (bool_decide (sw_last_resolved_slot current
                                    = ts_expected_last_resolved_slot slot))
                 || from_option (fun previous => ts_resolved_slot slot <=? previous) false
                      (sw_last_resolved_slot current))
            (TriggerIngressConflict
               "schedule delivery is duplicate, reordered, or based on a stale watermark") ;;
          advance_watermark key current slot (nd_delivery_id input) t
      | None =>
          check (is_some (ts_expected_last_resolved_slot slot))
            (TriggerIngressConflict "initial schedule delivery expected a prior watermark") ;;
          Ok (t <| ti_watermarks := <[key :=
            MkWatermark organization (nd_project input) (nd_pipeline input) (nd_trigger input)
              generation (ts_timezone slot) (ts_calendar slot) (ts_expression slot)
              (ts_schedule_identity_sha256 slot) (Some (ts_resolved_slot slot))
              (Some (nd_delivery_id input))]> (ti_watermarks t) |>)
      end;
  let due := slot_is (nd_trigger input) generation (ts_resolved_slot slot) [SlotOpen; SlotClaimed] in
  let fired := length (List.filter (fun ks => due ks.1 ks.2) (map_to_list (ti_slots t))) in
  t ← update_slots now due (fired_with (nd_delivery_id input)) t;
  check (negb (Nat.eqb fired 1))
    (TriggerIngressConflict "schedule slot was skipped or already fired") ;;
  Ok t.

(** ** Firing *)

(** Five minutes, in microseconds. *)
Definition CLAIM_LEASE_US : Z := 5 * 60 * 1000 * 1000.

Definition stale_claim (now : Z) (s : ScheduleSlot) : bool :=
  bool_decide (sl_outcome s = SlotClaimed) && (sl_updated_at s <? now - CLAIM_LEASE_US).

(** The slots the scan may pick at [now_ms]. *)
Definition due_slot (now now_ms : Z) (t : TriggerDb) (key : Uuid * Z * Z) (s : ScheduleSlot) : bool :=
  let '(trigger, generation, time) := key in
  match current_version t trigger with
  | Some (d, v) =>
      (generation =? tdef_current_generation d) && bool_decide (pt_kind v = Schedule)
      && bool_decide (pt_state v = TriggerEnabled)
      && (bool_decide (sl_outcome s = SlotOpen) || stale_claim now s) && (time <=? now_ms)
  | None => false
  end.

(** The trigger, generation, project and pipeline of an earliest due slot. *)
Definition earliest (l : list ((Uuid * Z * Z) * ScheduleSlot)) :
    option ((Uuid * Z * Z) * ScheduleSlot) :=
  fold_right (fun ks best =>
    match best with
    | Some kb => if ks.1.2 <=? kb.1.2 then Some ks else Some kb
    | None => Some ks
    end) None l.
Record DueTrigger := MkDue {
  due_trigger : Uuid; due_generation : Z; due_project : Uuid; due_pipeline : Uuid
}.
Definition pick_due_trigger (now now_ms : Z) (t : TriggerDb) : option DueTrigger :=
  (fun ks => let '((trigger, generation, _), s) := ks in
     MkDue trigger generation (sl_project s) (sl_pipeline s))
  <$> earliest (List.filter (fun ks => due_slot now now_ms t ks.1 ks.2) (map_to_list (ti_slots t))).

(** A due row of one generation with an outcome in the list. *)
Definition due_of (due : DueTrigger) (now_ms : Z) (outcomes : list SlotOutcome)
    (key : Uuid * Z * Z) (s : ScheduleSlot) : bool :=
  let '(trigger, generation, time) := key in
  String.eqb trigger (due_trigger due) && (generation =? due_generation due)
  && one_status outcomes (sl_outcome s) && (time <=? now_ms).

Definition due_times (due : DueTrigger) (now_ms : Z) (t : TriggerDb) : list Z :=
  merge_sort Z.le
    (omap (fun ks => if due_of due now_ms [SlotOpen] ks.1 ks.2 then Some ks.1.2 else None)
       (map_to_list (ti_slots t))).

Definition set_outcome (o : SlotOutcome) (s : ScheduleSlot) : ScheduleSlot := s <| sl_outcome := o |>.
Definition reopened (s : ScheduleSlot) : ScheduleSlot :=
  s <| sl_outcome := SlotOpen |> <| sl_delivery_id := None |>.

Definition get_text (configuration : Value) (name : string) : string :=
  default "" (field configuration name ≫= as_str).

Definition json_option_z (o : option Z) : Value :=
  match o with Some z => json_z z | None => VNull end.

(** The delivery of a claimed slot. *)
Definition schedule_delivery (due : DueTrigger) (v : PipelineTrigger) (expected_last : option Z)
    (latest now_ms : Z) : result StoreError NewTriggerDelivery :=
  let configuration := pt_configuration v in
  let timezone := get_text configuration "timezone" in
  let calendar := get_text configuration "calendar" in
  let expression := get_text configuration "expression" in
  identity ← parse_configuration_digest configuration "schedule_identity_sha256";
  let delivery := "schedule:" +:+ due_trigger due +:+ ":" +:+ fmt_z (due_generation due)
                  +:+ ":" +:+ fmt_z latest in
  let payload := VObject
    [("event_kind", VString "schedule"); ("event_time_unix_ms", json_z latest);
     ("payload", VObject
        [("calendar", VString calendar);
         ("expected_last_resolved_slot_unix_ms", json_option_z expected_last);
         ("expression", VString expression); ("resolved_slot_unix_ms", json_z latest);
         ("schedule_identity_sha256", VString (hex_encode identity));
         ("timezone", VString timezone)])] in
  bytes ← ingress_to_vec payload;
  Ok (MkNewDelivery (due_project due) (due_pipeline due) (due_trigger due) (due_generation due)
        delivery delivery "schedule" (pt_event_source_identity v) (sha256 bytes) payload
        (VObject []) "linux" "trusted-linux" latest now_ms
        (Some (MkScheduleSlot timezone calendar expression identity expected_last latest))).

(** The first transaction of [fire_one_due_schedule_slot] from the trigger's lock
    on; [now] is the clock of its updates, [now_ms] the time read before the
    pick, and [locked] the slots other transactions hold, which [SKIP LOCKED]
    leaves out. *)
Definition claim_due_slot (now now_ms : Z) (locked : list Z) (due : DueTrigger) (t : TriggerDb) :
    result StoreError (option NewTriggerDelivery * TriggerDb) :=
  t ← update_slots now (fun k s => due_of due now_ms [SlotClaimed] k s && stale_claim now s)
        reopened t;
  let times := List.filter (fun time => negb (existsb (Z.eqb time) locked)) (due_times due now_ms t) in
  match last times with
  | None => Ok (None, t)
  | Some latest =>
      t ← try_fold (fun t time =>
        update_slots now (slot_is (due_trigger due) (due_generation due) time [SlotOpen])
          (set_outcome SlotSkipped) t) t (removelast times);
      t ← update_slots now (slot_is (due_trigger due) (due_generation due) latest [SlotOpen])
            (set_outcome SlotClaimed) t;
      let skip := update_slots now (due_of due now_ms [SlotOpen; SlotClaimed]) (set_outcome SlotSkipped) t in
      match current_version t (due_trigger due) with
      | Some (d, v) =>
          if negb (tdef_current_generation d =? due_generation due) then t ← skip; Ok (None, t)
          else if negb (bool_decide (pt_state v = TriggerEnabled)) then t ← skip; Ok (None, t)
          else
            let expected := ti_watermarks t !! (due_trigger due, due_generation due)
                            ≫= sw_last_resolved_slot in
            input ← schedule_delivery due v expected latest now_ms;
            Ok (Some input, t)
      | None => t ← skip; Ok (None, t)
      end
  end.

(** The recovery of a claimed slot that could not be admitted; its own errors
    are ignored. *)
Definition reopen_slot (now : Z) (trigger : Uuid) (generation time : Z) (t : TriggerDb) : TriggerDb :=
  match update_slots now (slot_is trigger generation time [SlotClaimed]) reopened t with
  | Ok t' => t'
  | Err _ => t
  end.

End Schedule.
