(* ===== verification/TriggerIngress.v ===== *)
(** * Trigger ingress: the delivery ledger (trigger_ingress.rs)

    One definition for each operation on triggers and deliveries: configuration,
    acceptance, the receipts of deliveries that are not admitted, the claim, the
    admission of a claimed delivery as a DAG, its failure and its redrive. An
    operation is one transaction: an error leaves the tables as they were. A
    reading of the database clock, in microseconds, is an argument for each place
    the code reads it, and an audit record's identity is its [Stamp]. The audit
    record of a build event, which [append_event_and_outbox] writes with the
    event, is appended after the transaction of the DAG, for each event of it. *)

From stdpp Require Import base gmap list sorting strings.
From Stdlib Require Import Ascii ZArith Lia.
From S2P Require Import Prelude Text Bytes Domain DagContract StoreTables AuditChain.
From S2P Require Import ScheduleCalendar TriggerTables TriggerValidation TriggerSchedule.
From S2P Require Import DagRuntime.

Open Scope Z_scope.

(** ** Requests and outcomes *)

Inductive TriggerPutOutcome : Type :=
| TriggerCreated (trigger : PipelineTrigger)
| TriggerRevised (trigger : PipelineTrigger)
| TriggerReplayed (trigger : PipelineTrigger)
| PreconditionFailed (current_generation : Z).

Inductive TriggerDeliveryAdmission : Type :=
| DeliveryCreated (delivery : TriggerDelivery)
| DeliveryReplayed (delivery : TriggerDelivery).

Record NewWebhookReceipt := MkNewReceipt {
  nr_trigger : Uuid;
  nr_expected_trigger_generation : Z;
  nr_delivery_id : string;
  nr_event : string;
  nr_body_sha256 : string;
  nr_status : string;
  nr_reason : string;
  nr_caller_identity : string
}.

Inductive WebhookReceiptOutcome : Type :=
| ReceiptRecorded (receipt : WebhookReceipt)
| ReceiptReplayed (receipt : WebhookReceipt).

Record TriggerDeliveryClaimRequest := MkClaimRequest {
  cr_trigger : Uuid;
  cr_delivery_id : string;
  cr_worker_identity : string;
  cr_now : Z;
  cr_lease_expires_at : Z
}.

Inductive TriggerDeliveryClaimOutcome : Type :=
| DeliveryClaimed (delivery : TriggerDelivery)
| DeliveryNotDue (delivery : TriggerDelivery)
| DeliveryLeased (delivery : TriggerDelivery)
| DeliveryTerminal (delivery : TriggerDelivery).

Record TriggerDeliveryDagAdmissionRequest := MkAdmissionRequest {
  ar_trigger : Uuid;
  ar_delivery_id : string;
  ar_worker_identity : string;
  ar_claim_fence : Z
}.

Inductive TriggerDeliveryDagAdmission : Type :=
| AdmittedDag (delivery : TriggerDelivery) (admission : DagAdmission)
| AdmissionDeadLettered (delivery : TriggerDelivery)
| AdmissionLeaseLost (delivery : TriggerDelivery).

Record TriggerDeliveryFailureRequest := MkFailureRequest {
  fr_trigger : Uuid;
  fr_delivery_id : string;
  fr_worker_identity : string;
  fr_claim_fence : Z;
  fr_now : Z;
  fr_retry_at : Z;
  fr_retryable : bool;
  fr_reason : string
}.

Inductive TriggerDeliveryFailure : Type :=
| RetryScheduled (delivery : TriggerDelivery)
| FailureDeadLettered (delivery : TriggerDelivery)
| FailureLeaseLost (delivery : TriggerDelivery).

Record TriggerDeliveryRedrive := MkRedrive {
  rd_project : Uuid;
  rd_pipeline : Uuid;
  rd_trigger : Uuid;
  rd_dead_letter_delivery_id : string;
  rd_new_delivery_id : string;
  rd_new_event_id : string;
  rd_actor_subject : string;
  rd_accepted_at : Z
}.

Section Ingress.
Context `{External} `{DagExternal} `{Md5Hash} `{TriggerHex} `{Postgres} `{CivilTime} `{AuditJson}.
Context (organization : Uuid).

(** ** Shared steps *)

Definition conflict (message : string) : StoreError := TriggerIngressConflict message.

Definition delivery_subject (trigger : Uuid) (delivery : string) : string :=
  "trigger:" +:+ trigger +:+ ":delivery:" +:+ delivery.
Definition trigger_subject (pipeline trigger : Uuid) : string :=
  "pipeline:" +:+ pipeline +:+ ":trigger:" +:+ trigger.

Definition append_trigger_audit (actor action subject : string) (payload : Value) (stamp : Stamp)
    (t : TriggerDb) : result StoreError (AuditEvent * TriggerDb) :=
  appended ← append_audit_record organization "trigger" actor action subject payload stamp
    (ti_audit t);
  Ok (appended.1, t <| ti_audit := appended.2 |>).

Definition lock_head (t : TriggerDb) : TriggerDb := t <| ti_audit := lock_audit_head (ti_audit t) |>.

Definition json_bytes (digest : string) : Value :=
  VArray (map (fun b => json_z (Z.of_nat (nat_of_ascii b))) (String.list_ascii_of_string digest)).
Definition json_slot (slot : option TriggerScheduleSlot) : Value :=
  match slot with
  | None => VNull
  | Some s => VObject
      [("calendar", VString (ts_calendar s));
       ("expected_last_resolved_slot_unix_ms", json_option_z (ts_expected_last_resolved_slot s));
       ("expression", VString (ts_expression s));
       ("resolved_slot_unix_ms", json_z (ts_resolved_slot s));
       ("schedule_identity_sha256", json_bytes (ts_schedule_identity_sha256 s));
       ("timezone", VString (ts_timezone s))]
  end.

(** The row a statement of the operation has just written or locked. *)
Definition get_delivery (trigger : Uuid) (delivery : string) (t : TriggerDb) :
    result StoreError TriggerDelivery :=
  ok_or (ti_deliveries t !! (trigger, delivery)) Database.

Definition existing_delivery (trigger : Uuid) (delivery : string) (t : TriggerDb) :
    result StoreError TriggerDelivery :=
  ok_or (ti_deliveries t !! (trigger, delivery)) (conflict "trigger delivery does not exist").

Definition deliveries_where (P : TriggerDelivery -> bool) (t : TriggerDb) : list TriggerDelivery :=
  List.filter P (map_to_list (ti_deliveries t)).*2.

(** [WHERE trigger_id AND (delivery_id = $3 OR event_id = $4)]. *)
Definition has_identity (trigger : Uuid) (delivery event : string) (d : TriggerDelivery) : bool :=
  String.eqb (td_trigger d) trigger
  && (String.eqb (td_delivery_id d) delivery || String.eqb (td_event_id d) event).

(** The test of the trigger's state that acceptance, claim and redrive share. *)
Definition require_enabled_trigger (trigger : Uuid) (v : PipelineTrigger) : result StoreError () :=
  check (bool_decide (pt_state v = TriggerIsPaused)) (TriggerPaused trigger (pt_generation v)).

(** The pipeline's truth where the row must exist. *)
Definition locked_pipeline (t : TriggerDb) (project pipeline : Uuid) : result StoreError () :=
  truth ← ok_or (pipeline_truth t project pipeline) Database;
  require_enabled_pipeline pipeline truth.

Definition acknowledged (trigger : Uuid) (delivery event : string) (t : TriggerDb) : bool :=
  is_some (ti_receipts t !! (trigger, delivery)) || is_some (ti_receipts t !! (trigger, event)).

(** ** Reading *)

Definition pipeline_trigger (t : TriggerDb) (project pipeline trigger : Uuid) :
    option PipelineTrigger :=
  dv ← current_version t trigger;
  if String.eqb (tdef_project dv.1) project && String.eqb (tdef_pipeline dv.1) pipeline
  then Some dv.2 else None.

Definition pipeline_trigger_generation (t : TriggerDb) (project pipeline trigger : Uuid)
    (generation : Z) : result StoreError (option PipelineTrigger) :=
  check (generation <=? 0) (InvalidTriggerIngress "trigger generation must be positive") ;;
  Ok (d ← ti_definitions t !! trigger;
      if String.eqb (tdef_project d) project && String.eqb (tdef_pipeline d) pipeline
      then ti_versions t !! (trigger, generation) else None).

Definition trigger_delivery (t : TriggerDb) (trigger : Uuid) (delivery : string) :
    result StoreError (option TriggerDelivery) :=
  check (is_empty delivery || (MAX_TEXT_BYTES <? slen delivery))
    (InvalidTriggerIngress "delivery id is out of bounds") ;;
  Ok (ti_deliveries t !! (trigger, delivery)).

Definition webhook_receipt (t : TriggerDb) (trigger : Uuid) (delivery : string) :
    result StoreError (option WebhookReceipt) :=
  validate_text "delivery_id" delivery MAX_TEXT_BYTES ;;
  Ok (ti_receipts t !! (trigger, delivery)).

Definition trigger_schedule_watermark (t : TriggerDb) (trigger : Uuid) (generation : Z) :
    option TriggerScheduleWatermark := ti_watermarks t !! (trigger, generation).

(** ** Configuration *)

(** [INSERT INTO pipeline_trigger_versions]: the key, the idempotency key and
    the size of the stored configuration. *)
Definition insert_version (v : PipelineTrigger) (t : TriggerDb) : result StoreError TriggerDb :=
  check (is_some (ti_versions t !! (pt_trigger v, pt_generation v))) Database ;;
  check (existsb (fun w => String.eqb (pt_trigger w) (pt_trigger v)
                           && String.eqb (pt_idempotency_key w) (pt_idempotency_key v))
           (map_to_list (ti_versions t)).*2) Database ;;
  check (65536 <? slen (jsonb_text (pt_configuration v))) Database ;;
  Ok (t <| ti_versions := <[(pt_trigger v, pt_generation v) := v]> (ti_versions t) |>).

Definition written_version (input : PipelineTriggerWrite) (generation : Z) (audit : AuditEvent) :
    PipelineTrigger :=
  MkTrigger organization (tw_project input) (tw_pipeline input) (tw_trigger input) generation
    (tw_kind input) (tw_state input) (tw_implementation_sha256 input)
    (tw_configuration_sha256 input) (tw_filter_sha256 input) (tw_event_source_identity input)
    (tw_source_generation input) (jsonb (tw_configuration input))
    (tw_deduplication_window_seconds input) (tw_max_delivery_attempts input)
    (tw_delivery_ttl_seconds input) (tw_actor_subject input) (tw_reason input)
    (tw_idempotency_key input) (ae_sequence audit) (ae_event_hash audit).

Definition put_payload (input : PipelineTriggerWrite) (generation : Z) : Value :=
  VObject
    [("configuration_sha256", VString (hex_encode (tw_configuration_sha256 input)));
     ("event_source_identity", VString (tw_event_source_identity input));
     ("filter_sha256", VString (hex_encode (tw_filter_sha256 input)));
     ("generation", json_z generation);
     ("implementation_sha256", VString (hex_encode (tw_implementation_sha256 input)));
     ("kind", VString (trigger_kind_str (tw_kind input)));
     ("pipeline_id", VString (tw_pipeline input)); ("project_id", VString (tw_project input));
     ("reason", VString (tw_reason input));
     ("source_generation", VString (tw_source_generation input));
     ("state", VString (trigger_state_str (tw_state input)));
     ("trigger_id", VString (tw_trigger input))].

(** What follows the precondition: the audit record, the version, the
    definition's new generation and, for a schedule, the slots. *)
Definition write_version (stamp : Stamp) (skip_at now : Z) (input : PipelineTriggerWrite)
    (generation : Z) (created : bool) (t : TriggerDb) : result StoreError TriggerDb :=
  appended ← append_trigger_audit (tw_actor_subject input)
    (if created then "trigger.created" else "trigger.revised")
    (trigger_subject (tw_pipeline input) (tw_trigger input)) (put_payload input generation) stamp t;
  let '(audit, t) := appended in
  t ← insert_version (written_version input generation audit) t;
  let t := t <| ti_definitions := <[tw_trigger input :=
      MkDefinition (tw_project input) (tw_pipeline input) generation]> (ti_definitions t) |> in
  if bool_decide (tw_kind input = Schedule)
  then
    t ← update_slots skip_at (fun k s => String.eqb k.1.1 (tw_trigger input)
                                         && (k.1.2 <? generation)
                                         && one_status [SlotOpen; SlotClaimed] (sl_outcome s))
          (set_outcome SlotSkipped) t;
    materialize_schedule_slots_for_trigger now (tw_project input) (tw_pipeline input)
      (tw_trigger input) generation (tw_configuration input) (trigger_database_unix_ms now) t
  else Ok t.

(** The trigger returned is read back after the commit, here from the state the
    transaction leaves. *)
Definition put_pipeline_trigger (stamp : Stamp) (skip_at now : Z) (input : PipelineTriggerWrite)
    (t : TriggerDb) : result StoreError (TriggerPutOutcome * TriggerDb) :=
  validate_trigger_write input ;;
  check (negb (from_option (fun p => String.eqb (p_project p) (tw_project input)) false
                 (pipelines (ti_store t) !! tw_pipeline input)))
    (conflict "trigger does not identify a saved pipeline") ;;
  match List.find (fun v => String.eqb (pt_trigger v) (tw_trigger input)
                            && String.eqb (pt_idempotency_key v) (tw_idempotency_key input))
          (map_to_list (ti_versions t)).*2 with
  | Some trigger =>
      check (negb (trigger_matches_write organization trigger input))
        (conflict "trigger idempotency key was reused for a different configuration") ;;
      Ok (TriggerReplayed trigger, t)
  | None =>
      let read_back t := ok_or (pipeline_trigger t (tw_project input) (tw_pipeline input)
                                  (tw_trigger input))
                           (conflict "committed trigger configuration is missing") in
      let current := d ← ti_definitions t !! tw_trigger input;
        if String.eqb (tdef_project d) (tw_project input)
           && String.eqb (tdef_pipeline d) (tw_pipeline input)
        then Some (tdef_current_generation d) else None in
      match current with
      | None =>
          if negb (tw_expected_generation input =? 0) then Ok (PreconditionFailed 0, t)
          else
            check (is_some (ti_definitions t !! tw_trigger input)) Database ;;
            t ← write_version stamp skip_at now input 1 true t;
            trigger ← read_back t;
            Ok (TriggerCreated trigger, t)
      | Some current =>
          if negb (current =? tw_expected_generation input) then Ok (PreconditionFailed current, t)
          else
            t ← write_version stamp skip_at now input (current + 1) false t;
            trigger ← read_back t;
            Ok (TriggerRevised trigger, t)
      end
  end.

(** ** Receipts *)

Definition receipt_payload (input : NewWebhookReceipt) (recorded_at : Z) : Value :=
  VObject
    [("body_sha256", VString (hex_encode (nr_body_sha256 input)));
     ("delivery_id", VString (nr_delivery_id input)); ("event", VString (nr_event input));
     ("provider", VString "github"); ("reason", VString (nr_reason input));
     ("recorded_at_unix_ms", json_z recorded_at); ("status", VString (nr_status input));
     ("trigger_id", VString (nr_trigger input))].

Definition record_unadmitted_webhook_delivery (stamp : Stamp) (now : Z) (input : NewWebhookReceipt)
    (t : TriggerDb) : result StoreError (WebhookReceiptOutcome * TriggerDb) :=
  validate_text "delivery_id" (nr_delivery_id input) MAX_TEXT_BYTES ;;
  validate_text "event" (nr_event input) MAX_TEXT_BYTES ;;
  validate_text "caller_identity" (nr_caller_identity input) MAX_TEXT_BYTES ;;
  check (negb (existsb (String.eqb (nr_status input)) ["ignored"; "filtered"]))
    (InvalidTriggerIngress "webhook receipt status must be ignored or filtered") ;;
  check (is_empty (nr_reason input) || (1024 <? slen (nr_reason input)))
    (InvalidTriggerIngress "webhook receipt reason is out of bounds") ;;
  match ti_receipts t !! (nr_trigger input, nr_delivery_id input) with
  | Some receipt =>
      if String.eqb (wr_event receipt) (nr_event input)
         && String.eqb (wr_body_sha256 receipt) (nr_body_sha256 input)
      then Ok (ReceiptReplayed receipt, t)
      else Err (conflict "delivery ID was reused for different webhook input")
  | None =>
      check (some_delivery (has_identity (nr_trigger input) (nr_delivery_id input)
                              (nr_delivery_id input)) t)
        (conflict "delivery ID was reused for an event that is not admissible") ;;
      d ← ok_or (ti_definitions t !! nr_trigger input)
        (conflict "delivery does not identify a configured trigger");
      check (negb (tdef_current_generation d =? nr_expected_trigger_generation input))
        (conflict ("trigger generation changed from "
           +:+ fmt_z (nr_expected_trigger_generation input) +:+ " to "
           +:+ fmt_z (tdef_current_generation d))) ;;
      let t := lock_head t in
      let recorded_at := trigger_database_unix_ms now in
      appended ← append_trigger_audit (nr_caller_identity input) "trigger.delivery_unadmitted"
        (delivery_subject (nr_trigger input) (nr_delivery_id input))
        (receipt_payload input recorded_at) stamp t;
      let '(audit, t) := appended in
      let receipt := MkReceipt organization (nr_trigger input) (nr_delivery_id input)
        (nr_event input) (nr_body_sha256 input) (nr_status input) (nr_reason input)
        (nr_caller_identity input) recorded_at (ae_sequence audit) in
      check (recorded_at <? 0) Database ;;
      Ok (ReceiptRecorded receipt,
          t <| ti_receipts := <[(nr_trigger input, nr_delivery_id input) := receipt]>
                (ti_receipts t) |>)
  end.

End Ingress.
