(* ===== verification/TriggerDeliveries.v ===== *)
(** * Trigger ingress: the life of a delivery (trigger_ingress.rs)

    Acceptance under either timing, the scan for due deliveries, the claim with
    its fence, the admission of the claimed delivery together with its DAG, the
    failure and the redrive of a dead letter; and the runner that fires the
    schedules. *)

From stdpp Require Import base gmap list sorting strings.
From Stdlib Require Import Ascii ZArith Lia.
From S2P Require Import Prelude Text Bytes Domain DagContract StoreTables AuditChain.
From S2P Require Import ScheduleCalendar TriggerTables TriggerValidation TriggerSchedule.
From S2P Require Import DagRuntime TriggerIngress.

Open Scope Z_scope.

Section Deliveries.
Context `{External} `{DagExternal} `{Md5Hash} `{TriggerHex} `{Postgres} `{CivilTime} `{AuditJson}.
Context (organization : Uuid).

(** ** Acceptance *)

(** The lookup acceptance makes before and after it locks the definition. *)
Definition find_accepted (input : NewTriggerDelivery) (timing : DeliveryTiming) (t : TriggerDb) :
    result StoreError (option TriggerDelivery) :=
  match deliveries_where (has_identity (nd_trigger input) (nd_delivery_id input)
                            (nd_event_id input)) t with
  | [] => Ok None
  | [delivery] =>
      check (negb (delivery_matches_timed organization delivery input timing))
        (conflict "delivery or event ID was reused for different trigger input") ;;
      Ok (Some delivery)
  | _ => Err (conflict "delivery and event IDs identify different accepted deliveries")
  end.

Definition saturate (z : Z) : Z := clamp i64_min i64_max z.

(** The event time, the acceptance time and the expiry of a new delivery. *)
Definition delivery_times (input : NewTriggerDelivery) (timing : DeliveryTiming)
    (v : PipelineTrigger) (accepted_at : Z) : result StoreError (Z * Z) :=
  let event_time := match timing with Declared => nd_event_time input | Receipt _ => accepted_at end in
  check ((saturate (accepted_at + MAX_CLOCK_SKEW_MS) <? event_time)
         || (event_time <? saturate (accepted_at - pt_deduplication_window_seconds v * 1000)))
    (InvalidTriggerIngress "trigger event is outside its configured replay/skew window") ;;
  expires_at ← ok_or (checked_add_i64 accepted_at (pt_delivery_ttl_seconds v * 1000))
    (InvalidTriggerIngress "trigger delivery expiry overflows");
  Ok (event_time, expires_at).

Definition accepted_payload (input : NewTriggerDelivery) (generation event_time accepted_at
    expires_at : Z) : Value :=
  VObject
    [("accepted_at_unix_ms", json_z accepted_at); ("delivery_id", VString (nd_delivery_id input));
     ("event_id", VString (nd_event_id input)); ("event_kind", VString (nd_event_kind input));
     ("event_time_unix_ms", json_z event_time); ("expires_at_unix_ms", json_z expires_at);
     ("payload_sha256", VString (hex_encode (nd_payload_sha256 input)));
     ("pipeline_id", VString (nd_pipeline input)); ("project_id", VString (nd_project input));
     ("schedule_slot", json_slot (nd_schedule_slot input));
     ("trigger_generation", json_z generation); ("trigger_id", VString (nd_trigger input))].

Definition accepted_delivery (input : NewTriggerDelivery) (generation event_time accepted_at
    expires_at : Z) (audit : AuditEvent) : TriggerDelivery :=
  MkTriggerDelivery organization (nd_project input) (nd_pipeline input) (nd_trigger input) generation
    (nd_delivery_id input) (nd_event_id input) (nd_event_kind input) (nd_caller_identity input)
    (nd_payload_sha256 input) (jsonb (nd_canonical_payload input)) (jsonb (nd_parameters input))
    (nd_requested_platform input) (nd_requested_trust_pool input) event_time accepted_at expires_at
    TPending 0 accepted_at None 0 None None None None None (ae_sequence audit) (ae_event_hash audit).

(** The slot a schedule's delivery must carry, and no other's may. *)
Definition accept_slot (fired_at : Z) (input : NewTriggerDelivery) (v : PipelineTrigger)
    (t : TriggerDb) : result StoreError TriggerDb :=
  match pt_kind v, nd_schedule_slot input with
  | Schedule, Some slot =>
      advance_schedule_for_delivery organization fired_at input (pt_generation v) slot
        (pt_configuration v) t
  | Schedule, None =>
      Err (InvalidTriggerIngress "schedule delivery requires an exact resolved slot")
  | _, Some _ =>
      Err (InvalidTriggerIngress "only schedule triggers may carry a resolved schedule slot")
  | _, None => Ok t
  end.

(** What a first acceptance asks of the trigger before it changes a row. *)
Definition admissible (input : NewTriggerDelivery) (v : PipelineTrigger) (t : TriggerDb) :
    result StoreError () :=
  check (acknowledged (nd_trigger input) (nd_delivery_id input) (nd_event_id input) t)
    (conflict "delivery ID was already acknowledged as unadmitted") ;;
  check (negb (pt_generation v =? nd_expected_trigger_generation input))
    (conflict ("trigger generation changed from "
       +:+ fmt_z (nd_expected_trigger_generation input) +:+ " to " +:+ fmt_z (pt_generation v))) ;;
  require_enabled_trigger (nd_trigger input) v ;;
  check (negb (String.eqb (pt_event_source_identity v) (nd_caller_identity input)))
    (conflict "authenticated caller does not match the configured event source") ;;
  validate_delivery_against_configuration (pt_kind v) input (pt_configuration v).

(** [fired_at] is the clock of the slot's update, [now] the reading under the
    audit head's lock. *)
Definition accept_trigger_delivery_timed (stamp : Stamp) (fired_at now : Z)
    (input : NewTriggerDelivery) (timing : DeliveryTiming) (t : TriggerDb) :
    result StoreError (TriggerDeliveryAdmission * TriggerDb) :=
  validate_delivery input ;;
  existing ← find_accepted input timing t;
  match existing with
  | Some delivery => Ok (DeliveryReplayed delivery, t)
  | None =>
      v ← ok_or (pipeline_trigger t (nd_project input) (nd_pipeline input) (nd_trigger input))
        (conflict "delivery does not identify a configured trigger");
      serialized_existing ← find_accepted input timing t;
      match serialized_existing with
      | Some delivery => Ok (DeliveryReplayed delivery, t)
      | None =>
          admissible input v t ;;
          t ← accept_slot fired_at input v t;
          truth ← ok_or (pipeline_truth t (nd_project input) (nd_pipeline input))
            (conflict "trigger pipeline no longer exists");
          require_enabled_pipeline (nd_pipeline input) truth ;;
          let t := lock_head t in
          let accepted_at := trigger_database_unix_ms now in
          times ← delivery_times input timing v accepted_at;
          let '(event_time, expires_at) := times in
          appended ← append_trigger_audit organization (nd_caller_identity input)
            "trigger.delivery_accepted" (delivery_subject (nd_trigger input) (nd_delivery_id input))
            (accepted_payload input (pt_generation v) event_time accepted_at expires_at) stamp t;
          let '(audit, t) := appended in
          t ← insert_delivery
                (accepted_delivery input (pt_generation v) event_time accepted_at expires_at audit) t;
          delivery ← get_delivery (nd_trigger input) (nd_delivery_id input) t;
          Ok (DeliveryCreated delivery, t)
      end
  end.

Definition accept_trigger_delivery (stamp : Stamp) (fired_at now : Z) (input : NewTriggerDelivery)
    (t : TriggerDb) : result StoreError (TriggerDeliveryAdmission * TriggerDb) :=
  accept_trigger_delivery_timed stamp fired_at now input Declared t.

(** ** The scan and the claim *)

Definition unclaimed_at (now_ms : Z) (d : TriggerDelivery) : bool :=
  negb (is_some (td_claim_owner d))
  || from_option (fun expires => expires <=? now_ms) false (td_claim_expires_at d).

(** A row of the scan's join. *)
Definition due_delivery (now_ms : Z) (t : TriggerDb) (d : TriggerDelivery) : bool :=
  negb (terminal_delivery (td_status d)) && (td_next_attempt_at d <=? now_ms)
  && unclaimed_at now_ms d
  && from_option (fun dv => bool_decide (pt_state dv.2 = TriggerEnabled)) false
       (current_version t (td_trigger d))
  && from_option (fun truth => String.eqb truth.2 "enabled") false
       (pipeline_truth t (td_project d) (td_pipeline d)).

(** [ORDER BY next_attempt_at, accepted_at, delivery_id], the identifiers by
    their bytes. *)
Definition due_before (d e : TriggerDelivery) : Prop :=
  td_next_attempt_at d < td_next_attempt_at e
  \/ (td_next_attempt_at d = td_next_attempt_at e
      /\ (td_accepted_at d < td_accepted_at e
          \/ (td_accepted_at d = td_accepted_at e
              /\ String.leb (td_delivery_id d) (td_delivery_id e) = true))).
#[local] Instance due_before_dec : RelDecision due_before.
Proof. intros d e. unfold due_before. apply _. Defined.

Definition due_trigger_deliveries (now : Z) (now_unix_ms limit : Z) (t : TriggerDb) :
    result StoreError (list TriggerDelivery) :=
  check ((now_unix_ms <? 0) || negb ((1 <=? limit) && (limit <=? 128)))
    (InvalidTriggerIngress
       "due trigger delivery scan requires a non-negative time and limit from 1 to 128") ;;
  Ok (take (Z.to_nat limit)
        (merge_sort due_before
           (deliveries_where (due_delivery (trigger_database_unix_ms now) t) t))).

(** [claim_expires_at_unix_ms.unwrap_or(0) > now] of an owned delivery. *)
Definition leased_at (now_ms : Z) (d : TriggerDelivery) : bool :=
  is_some (td_claim_owner d) && (now_ms <? default 0 (td_claim_expires_at d)).

Definition released (d : TriggerDelivery) : TriggerDelivery :=
  d <| td_claim_owner := None |> <| td_claim_expires_at := None |>.

Definition dead_lettered (reason : string) (d : TriggerDelivery) : TriggerDelivery :=
  released (d <| td_status := TDeadLettered |> <| td_terminal_reason := Some reason |>).

Definition claimed_by (worker : string) (fence lease : Z) (d : TriggerDelivery) : TriggerDelivery :=
  d <| td_claim_owner := Some worker |> <| td_claim_fence := fence |>
    <| td_claim_expires_at := Some lease |>.

(** [first] is the reading before the audit head's lock, [now] the one under it. *)
Definition claim_trigger_delivery (stamp : Stamp) (first now : Z)
    (input : TriggerDeliveryClaimRequest) (t : TriggerDb) :
    result StoreError (TriggerDeliveryClaimOutcome * TriggerDb) :=
  validate_text "delivery_id" (cr_delivery_id input) MAX_TEXT_BYTES ;;
  validate_text "worker_identity" (cr_worker_identity input) MAX_TEXT_BYTES ;;
  check ((cr_now input <? 0) || (cr_lease_expires_at input <=? cr_now input)
         || (15 * 60 * 1000 <? cr_lease_expires_at input - cr_now input))
    (InvalidTriggerIngress
       "delivery claim requires a positive lease of at most fifteen minutes") ;;
  current ← existing_delivery (cr_trigger input) (cr_delivery_id input) t;
  if terminal_delivery (td_status current) then Ok (DeliveryTerminal current, t)
  else
    dv ← ok_or (current_version t (cr_trigger input)) Database;
    require_enabled_trigger (cr_trigger input) dv.2 ;;
    locked_pipeline t (td_project current) (td_pipeline current) ;;
    let preliminary := trigger_database_unix_ms first in
    let now_ms := trigger_database_unix_ms now in
    let subject := delivery_subject (cr_trigger input) (cr_delivery_id input) in
    if preliminary <? td_next_attempt_at current then Ok (DeliveryNotDue current, t)
    else if (preliminary <? td_expires_at current) && leased_at preliminary current
    then Ok (DeliveryLeased current, t)
    else
      let t := lock_head t in
      if now_ms <? td_next_attempt_at current then Ok (DeliveryNotDue current, t)
      else if td_expires_at current <=? now_ms
      then
        appended ← append_trigger_audit organization (cr_worker_identity input)
          "trigger.delivery_dead_lettered" subject
          (VObject [("reason", VString "delivery expired before claim")]) stamp t;
        t ← update_delivery (cr_trigger input) (cr_delivery_id input)
              (dead_lettered "delivery expired before claim") appended.2;
        delivery ← get_delivery (cr_trigger input) (cr_delivery_id input) t;
        Ok (DeliveryTerminal delivery, t)
      else if leased_at now_ms current then Ok (DeliveryLeased current, t)
      else
        let fence := td_claim_fence current + 1 in
        lease ← ok_or (checked_add_i64 now_ms (cr_lease_expires_at input - cr_now input))
          (InvalidTriggerIngress "delivery claim lease overflows");
        appended ← append_trigger_audit organization (cr_worker_identity input)
          "trigger.delivery_claimed" subject
          (VObject [("claim_fence", json_z fence); ("lease_expires_at_unix_ms", json_z lease)])
          stamp t;
        t ← update_delivery (cr_trigger input) (cr_delivery_id input)
              (claimed_by (cr_worker_identity input) fence lease) appended.2;
        delivery ← get_delivery (cr_trigger input) (cr_delivery_id input) t;
        Ok (DeliveryClaimed delivery, t).

(** The test of the claim that admission and failure share. *)
Definition require_claim (worker : string) (fence : Z) (d : TriggerDelivery) (message : string) :
    result StoreError () :=
  check (negb (bool_decide (td_claim_owner d = Some worker)) || negb (td_claim_fence d =? fence))
    (conflict message).

(** ** Admission *)

(** The audit records of the events a transaction of the store has appended. *)
Fixpoint audit_build_events (stamps : nat -> Stamp) (events : list Event) (t : TriggerDb) :
    result StoreError TriggerDb :=
  match events with
  | [] => Ok t
  | e :: events =>
      appended ← append_audit_record_for_build_event organization (ev_build e)
        (audit_category_for_event (ev_kind e)) "system:controller" (ev_kind e) (ev_payload e)
        (stamps 0%nat) (ti_audit t);
      audit_build_events (fun i => stamps (S i)) events (t <| ti_audit := appended.2 |>)
  end.

Definition in_store {A} (stamps : nat -> Stamp) (f : Db -> tx A) (t : TriggerDb) :
    result StoreError (A * TriggerDb) :=
  done ← f (ti_store t);
  t' ← audit_build_events stamps (drop (length (events (ti_store t))) (events done.2))
         (t <| ti_store := done.2 |>);
  Ok (done.1, t').

Definition dead_letter_expired_trigger_dag_admission (stamp : Stamp)
    (input : TriggerDeliveryDagAdmissionRequest) (admitted_at : Z) (t : TriggerDb) :
    result StoreError (TriggerDelivery * TriggerDb) :=
  let reason := "delivery expired before atomic DAG admission" in
  appended ← append_trigger_audit organization (ar_worker_identity input)
    "trigger.delivery_dead_lettered" (delivery_subject (ar_trigger input) (ar_delivery_id input))
    (VObject [("admitted_at_unix_ms", json_z admitted_at); ("reason", VString reason)]) stamp t;
  t ← update_delivery (ar_trigger input) (ar_delivery_id input)
        (fun d => dead_lettered reason (d <| td_attempt_count := td_attempt_count d + 1 |>))
        appended.2;
  delivery ← get_delivery (ar_trigger input) (ar_delivery_id input) t;
  Ok (delivery, t).

(** The clock readings and the identities of an admission: [ac_now] under the
    audit head's lock, [ac_dag] the DAG's own, [ac_bind] and [ac_lease] the two of
    the binding update, for the expiry and for the lease, and [ac_late] the one
    after it has bound nothing. *)
Record AdmissionClock := MkAdmissionClock {
  ac_now : Z; ac_dag : Z; ac_bind : Z; ac_lease : Z; ac_late : Z }.
Record AdmissionIds := MkAdmissionIds {
  ai_build : Uuid;
  ai_nodes : nat -> Uuid * Uuid;
  ai_stamp : Stamp;
  ai_stamps : nat -> Stamp
}.

Definition admitted_with (build : Uuid) (d : TriggerDelivery) : TriggerDelivery :=
  released (d <| td_status := TAdmitted |> <| td_build := Some build |>
              <| td_attempt_count := td_attempt_count d + 1 |>).

(** The rows the binding update meets. *)
Definition bindable (input : TriggerDeliveryDagAdmissionRequest) (bind_ms lease_ms : Z)
    (d : TriggerDelivery) : bool :=
  bool_decide (td_claim_owner d = Some (ar_worker_identity input))
  && (td_claim_fence d =? ar_claim_fence input) && (bind_ms <? td_expires_at d)
  && from_option (fun expires => lease_ms <? expires) false (td_claim_expires_at d).

(** The inner transaction; [None] when the update binds no row and the savepoint
    is rolled back. *)
Definition bind_dag (clock : AdmissionClock) (ids : AdmissionIds)
    (input : TriggerDeliveryDagAdmissionRequest) (dag : NewDagBuild) (t : TriggerDb) :
    result StoreError (option (DagAdmission * TriggerDb)) :=
  admitted ← in_store (ai_stamps ids)
    (admit_dag_transaction (ac_dag clock) (ai_build ids) (ai_nodes ids) dag) t;
  let '(admission, t) := admitted in
  d ← get_delivery (ar_trigger input) (ar_delivery_id input) t;
  if bindable input (trigger_database_unix_ms (ac_bind clock))
       (trigger_database_unix_ms (ac_lease clock)) d
  then
    t ← update_delivery (ar_trigger input) (ar_delivery_id input)
          (admitted_with (adm_build admission)) t;
    appended ← append_trigger_audit organization (ar_worker_identity input)
      "trigger.delivery_admitted" (delivery_subject (ar_trigger input) (ar_delivery_id input))
      (VObject [("build_id", VString (adm_build admission))]) (ai_stamp ids) t;
    Ok (Some (admission, appended.2))
  else Ok None.

Definition admit_trigger_delivery_dag (clock : AdmissionClock) (ids : AdmissionIds)
    (input : TriggerDeliveryDagAdmissionRequest) (dag : NewDagBuild) (t : TriggerDb) :
    result StoreError (TriggerDeliveryDagAdmission * TriggerDb) :=
  validate_text "delivery_id" (ar_delivery_id input) MAX_TEXT_BYTES ;;
  validate_text "worker_identity" (ar_worker_identity input) MAX_TEXT_BYTES ;;
  check (ar_claim_fence input <=? 0)
    (InvalidTriggerIngress "trigger DAG admission requires a positive claim fence") ;;
  check (negb (String.eqb (organization_id dag) organization))
    (conflict "trigger delivery and DAG organizations differ") ;;
  current ← existing_delivery (ar_trigger input) (ar_delivery_id input) t;
  check (terminal_delivery (td_status current))
    (conflict "terminal trigger delivery cannot admit another DAG") ;;
  check (negb (String.eqb (td_project current) (project_id dag))
         || negb (String.eqb (td_pipeline current) (pipeline_id dag)))
    (conflict "trigger delivery and DAG pipeline bindings differ") ;;
  require_claim (ar_worker_identity input) (ar_claim_fence input) current
    "delivery completion claim is stale or belongs to another worker" ;;
  lock_enabled_pipeline_binding (ti_store t) (project_id dag) (pipeline_id dag)
    (pipeline_revision dag) (pipeline_operational_generation dag) ;;
  let t := lock_head t in
  let admitted_at := trigger_database_unix_ms (ac_now clock) in
  if td_expires_at current <=? admitted_at
  then
    dead ← dead_letter_expired_trigger_dag_admission (ai_stamp ids) input admitted_at t;
    Ok (AdmissionDeadLettered dead.1, dead.2)
  else if default 0 (td_claim_expires_at current) <=? admitted_at
  then Ok (AdmissionLeaseLost current, t)
  else
    bound ← bind_dag clock ids input dag t;
    match bound with
    | Some (admission, t) =>
        delivery ← get_delivery (ar_trigger input) (ar_delivery_id input) t;
        Ok (AdmittedDag delivery admission, t)
    | None =>
        let late := trigger_database_unix_ms (ac_late clock) in
        if td_expires_at current <=? late
        then
          dead ← dead_letter_expired_trigger_dag_admission (ai_stamp ids) input late t;
          Ok (AdmissionDeadLettered dead.1, dead.2)
        else
          delivery ← get_delivery (ar_trigger input) (ar_delivery_id input) t;
          Ok (AdmissionLeaseLost delivery, t)
    end.

(** ** Failure *)

Definition retry_time (input : TriggerDeliveryFailureRequest) (now_ms : Z) (d : TriggerDelivery) :
    result StoreError Z :=
  let overflow := InvalidTriggerIngress "delivery retry time overflows" in
  if fr_retryable input
  then delay ← ok_or (checked_add_i64 (fr_retry_at input) (- fr_now input)) overflow;
       ok_or (checked_add_i64 now_ms delay) overflow
  else Ok (td_next_attempt_at d).

Definition failed_delivery (dead : bool) (attempt retry_at : Z) (reason : string)
    (d : TriggerDelivery) : TriggerDelivery :=
  let d := d <| td_attempt_count := attempt |> in
  if dead then dead_lettered reason d
  else released (d <| td_status := TRetryWait |> <| td_next_attempt_at := retry_at |>
                   <| td_terminal_reason := None |>).

Definition fail_trigger_delivery (stamp : Stamp) (now : Z) (input : TriggerDeliveryFailureRequest)
    (t : TriggerDb) : result StoreError (TriggerDeliveryFailure * TriggerDb) :=
  validate_text "delivery_id" (fr_delivery_id input) MAX_TEXT_BYTES ;;
  validate_text "worker_identity" (fr_worker_identity input) MAX_TEXT_BYTES ;;
  validate_text "reason" (fr_reason input) MAX_REASON_BYTES ;;
  check ((fr_claim_fence input <=? 0) || (fr_now input <? 0)
         || (fr_retryable input && (fr_retry_at input <=? fr_now input)))
    (InvalidTriggerIngress "delivery failure requires a positive future retry time") ;;
  current ← existing_delivery (fr_trigger input) (fr_delivery_id input) t;
  v ← ok_or (ti_versions t !! (fr_trigger input, td_trigger_generation current))
    (conflict "trigger delivery does not exist");
  check (terminal_delivery (td_status current))
    (conflict "terminal trigger delivery cannot fail again") ;;
  require_claim (fr_worker_identity input) (fr_claim_fence input) current
    "delivery failure claim is stale or belongs to another worker" ;;
  let t := lock_head t in
  let now_ms := trigger_database_unix_ms now in
  if default 0 (td_claim_expires_at current) <=? now_ms then Ok (FailureLeaseLost current, t)
  else
    retry_at ← retry_time input now_ms current;
    let attempt := td_attempt_count current + 1 in
    let dead := negb (fr_retryable input) || (pt_max_delivery_attempts v <=? attempt)
                || (td_expires_at current <=? now_ms) in
    appended ← append_trigger_audit organization (fr_worker_identity input)
      (if dead then "trigger.delivery_dead_lettered" else "trigger.delivery_retry_scheduled")
      (delivery_subject (fr_trigger input) (fr_delivery_id input))
      (VObject [("attempt_count", json_z attempt); ("reason", VString (fr_reason input));
                ("retry_at_unix_ms", if dead then VNull else json_z retry_at)]) stamp t;
    t ← update_delivery (fr_trigger input) (fr_delivery_id input)
          (failed_delivery dead attempt retry_at (fr_reason input)) appended.2;
    delivery ← get_delivery (fr_trigger input) (fr_delivery_id input) t;
    Ok (if dead then FailureDeadLettered delivery else RetryScheduled delivery, t).

(** ** Redrive *)

Definition redrive_identity (input : TriggerDeliveryRedrive) (d : TriggerDelivery) : bool :=
  has_identity (rd_trigger input) (rd_new_delivery_id input) (rd_new_event_id input) d
  && String.eqb (td_project d) (rd_project input) && String.eqb (td_pipeline d) (rd_pipeline input).

(** The lookup redrive makes before and after it locks the dead letter. *)
Definition find_redriven (input : TriggerDeliveryRedrive) (t : TriggerDb) :
    result StoreError (option TriggerDelivery) :=
  match deliveries_where (redrive_identity input) t with
  | [] => Ok None
  | [replay] =>
      check (negb (String.eqb (td_delivery_id replay) (rd_new_delivery_id input))
             || negb (String.eqb (td_event_id replay) (rd_new_event_id input))
             || negb (bool_decide (td_redrive_of replay
                                   = Some (rd_dead_letter_delivery_id input))))
        (conflict "redrive delivery or event identity was reused") ;;
      Ok (Some replay)
  | _ => Err (conflict "redrive delivery and event IDs identify different deliveries")
  end.

Definition max_ordinal (l : list TriggerDelivery) : Z :=
  fold_right (fun d m => Z.max (default 0 (td_redrive_ordinal d)) m) 0 l.
Definition redrive_ordinal (trigger : Uuid) (dead_letter : string) (t : TriggerDb) : Z :=
  max_ordinal (deliveries_where (fun d => String.eqb (td_trigger d) trigger
    && bool_decide (td_redrive_of d = Some dead_letter)) t) + 1.

Definition redriven_delivery (input : TriggerDeliveryRedrive) (o : TriggerDelivery)
    (ordinal accepted_at expires_at : Z) (audit : AuditEvent) : TriggerDelivery :=
  MkTriggerDelivery organization (td_project o) (td_pipeline o) (rd_trigger input)
    (td_trigger_generation o) (rd_new_delivery_id input) (rd_new_event_id input) (td_event_kind o)
    (td_caller_identity o) (td_payload_sha256 o) (jsonb (td_canonical_payload o))
    (jsonb (td_parameters o)) (td_requested_platform o) (td_requested_trust_pool o)
    (td_event_time o) accepted_at expires_at TPending 0 accepted_at None 0 None
    (Some (rd_dead_letter_delivery_id input)) (Some ordinal) None None
    (ae_sequence audit) (ae_event_hash audit).

Definition redrive_trigger_delivery (stamp : Stamp) (now : Z) (input : TriggerDeliveryRedrive)
    (t : TriggerDb) : result StoreError (TriggerDeliveryAdmission * TriggerDb) :=
  validate_text "dead_letter_delivery_id" (rd_dead_letter_delivery_id input) MAX_TEXT_BYTES ;;
  validate_text "new_delivery_id" (rd_new_delivery_id input) MAX_TEXT_BYTES ;;
  validate_text "new_event_id" (rd_new_event_id input) MAX_TEXT_BYTES ;;
  validate_text "actor_subject" (rd_actor_subject input) MAX_TEXT_BYTES ;;
  check ((rd_accepted_at input <? 0)
         || String.eqb (rd_dead_letter_delivery_id input) (rd_new_delivery_id input))
    (InvalidTriggerIngress "redrive requires a new delivery identity and valid acceptance time") ;;
  replay ← find_redriven input t;
  match replay with
  | Some replay => Ok (DeliveryReplayed replay, t)
  | None =>
      o ← ok_or (o ← ti_deliveries t !! (rd_trigger input, rd_dead_letter_delivery_id input);
                 if String.eqb (td_project o) (rd_project input)
                    && String.eqb (td_pipeline o) (rd_pipeline input) then Some o else None)
        (conflict "dead-letter delivery selected for redrive does not exist");
      check (negb (bool_decide (td_status o = TDeadLettered)))
        (conflict "only a dead-lettered delivery can be redriven") ;;
      serialized_replay ← find_redriven input t;
      match serialized_replay with
      | Some replay => Ok (DeliveryReplayed replay, t)
      | None =>
          check (acknowledged (rd_trigger input) (rd_new_delivery_id input) (rd_new_event_id input) t)
            (conflict "redrive delivery or event ID was already acknowledged as unadmitted") ;;
          dv ← ok_or (current_version t (rd_trigger input)) Database;
          require_enabled_trigger (rd_trigger input) dv.2 ;;
          check (negb (String.eqb (pt_event_source_identity dv.2) (td_caller_identity o)))
            (conflict "dead-letter redrive is denied after event-source identity rotation") ;;
          locked_pipeline t (td_project o) (td_pipeline o) ;;
          v ← ok_or (ti_versions t !! (rd_trigger input, td_trigger_generation o)) Database;
          let ordinal := redrive_ordinal (rd_trigger input) (rd_dead_letter_delivery_id input) t in
          let t := lock_head t in
          let accepted_at := trigger_database_unix_ms now in
          expires_at ← ok_or (checked_add_i64 accepted_at (pt_delivery_ttl_seconds v * 1000))
            (InvalidTriggerIngress "redrive expiry overflows");
          appended ← append_trigger_audit organization (rd_actor_subject input)
            "trigger.delivery_redriven"
            (delivery_subject (rd_trigger input) (rd_new_delivery_id input))
            (VObject [("dead_letter_delivery_id", VString (rd_dead_letter_delivery_id input));
                      ("redrive_ordinal", json_z ordinal);
                      ("trigger_generation", json_z (td_trigger_generation o))]) stamp t;
          let '(audit, t) := appended in
          t ← insert_delivery (redriven_delivery input o ordinal accepted_at expires_at audit) t;
          delivery ← get_delivery (rd_trigger input) (rd_new_delivery_id input) t;
          Ok (DeliveryCreated delivery, t)
      end
  end.

End Deliveries.

(** * The schedule runner

    [fire_one_due_schedule_slot] is three transactions: the claim of the latest
    due slot of a trigger, the acceptance of its delivery and, when that fails,
    the recovery of the slot. What one of them commits stays when a later one
    fails, so the runner returns its result with the tables it leaves. *)

(** The readings of the clock in one firing, the slots other controllers hold
    locked, and the stamp of its audit record. *)
Record Firing := MkFiring {
  fi_now : Z;
  fi_scan : Z;
  fi_claim : Z;
  fi_locked : list Z;
  fi_fired : Z;
  fi_accept : Z;
  fi_reopen : Z;
  fi_stamp : Stamp
}.

Section Runner.
Context `{External} `{DagExternal} `{Md5Hash} `{TriggerHex} `{Postgres} `{CivilTime} `{AuditJson}.
Context (organization : Uuid).

Definition admitted_delivery (a : TriggerDeliveryAdmission) : TriggerDelivery :=
  match a with DeliveryCreated d | DeliveryReplayed d => d end.

Definition fire_one_due_schedule_slot (f : Firing) (t : TriggerDb) :
    result StoreError (option TriggerDelivery) * TriggerDb :=
  let now_ms := trigger_database_unix_ms (fi_now f) in
  match pick_due_trigger (fi_scan f) now_ms t with
  | None => (Ok None, t)
  | Some due =>
      match claim_due_slot (fi_claim f) now_ms (fi_locked f) due t with
      | Err e => (Err e, t)
      | Ok (None, t) => (Ok None, t)
      | Ok (Some input, t) =>
          match accept_trigger_delivery organization (fi_stamp f) (fi_fired f) (fi_accept f) input t with
          | Ok (admission, t) => (Ok (Some (admitted_delivery admission)), t)
          | Err e =>
              (Err e, reopen_slot (fi_reopen f) (nd_trigger input)
                        (nd_expected_trigger_generation input) (nd_event_time input) t)
          end
      end
  end.

(** The loop over [0..limit], counting what it fires. *)
Fixpoint fire_due (limit : nat) (firings : nat -> Firing) (fired : Z) (t : TriggerDb) :
    result StoreError Z * TriggerDb :=
  match limit with
  | O => (Ok fired, t)
  | S limit =>
      match fire_one_due_schedule_slot (firings 0%nat) t with
      | (Err e, t) => (Err e, t)
      | (Ok None, t) => (Ok fired, t)
      | (Ok (Some _), t) => fire_due limit (fun i => firings (S i)) (fired + 1) t
      end
  end.

Definition process_due_schedule_slots (limit : Z) (firings : nat -> Firing) (extend_at : Z)
    (t : TriggerDb) : result StoreError Z * TriggerDb :=
  if limit <=? 0
  then (Err (InvalidTriggerIngress "schedule scan limit must be positive"), t)
  else
    match fire_due (Z.to_nat limit) firings 0 t with
    | (Err e, t) => (Err e, t)
    | (Ok fired, t) =>
        match extend_schedule_horizons extend_at t with
        | Ok (_, t) => (Ok fired, t)
        | Err e => (Err e, t)
        end
    end.

Definition count_schedule_deliveries (trigger : Uuid) (t : TriggerDb) : Z :=
  llen (deliveries_where (fun d => String.eqb (td_trigger d) trigger
                                   && String.eqb (td_event_kind d) "schedule") t).

End Runner.
