(* ===== verification/TriggerTransfer.v ===== *)
(** * Trigger ingress: the transfer of a quiesced trigger (trigger_ingress.rs)

    The snapshot a paused trigger is exported as, its two digests and its
    verification against the audit anchor kept apart from it. A struct that
    derives [Serialize] is written as the object of its fields in declaration
    order, a digest as the array of its bytes. The statements run with the
    privileges they need. *)

From stdpp Require Import base gmap list sorting strings.
From Stdlib Require Import Ascii ZArith Lia.
From S2P Require Import Prelude Text Bytes Domain DagContract StoreTables AuditChain.
From S2P Require Import ScheduleCalendar TriggerTables TriggerValidation TriggerSchedule.
From S2P Require Import TriggerIngress TriggerDeliveries.

Open Scope Z_scope.

Definition TRIGGER_TRANSFER_SCHEMA_VERSION : Z := 2.

Record TriggerTransferSnapshot := MkSnapshot {
  tx_schema_version : Z;
  tx_organization : Uuid;
  tx_project : Uuid;
  tx_pipeline : Uuid;
  tx_trigger : Uuid;
  tx_current_generation : Z;
  tx_versions : list PipelineTrigger;
  tx_deliveries : list TriggerDelivery;
  tx_schedule_watermarks : list TriggerScheduleWatermark;
  tx_webhook_receipts : list WebhookReceipt;
  tx_handoff_audit_event : AuditEvent;
  tx_audit_sequence : Z;
  tx_audit_event_hash : string;
  tx_state_sha256 : string
}.

(** ** Serialization *)

Definition json_option_string (o : option string) : Value :=
  match o with Some s => VString s | None => VNull end.

Definition delivery_status_str (s : TriggerDeliveryStatus) : string :=
  match s with
  | TPending => "pending" | TRetryWait => "retry_wait" | TAdmitted => "admitted"
  | TDeadLettered => "dead_lettered"
  end.

Definition json_version (v : PipelineTrigger) : Value :=
  VObject
    [("organization_id", VString (pt_organization v)); ("project_id", VString (pt_project v));
     ("pipeline_id", VString (pt_pipeline v)); ("trigger_id", VString (pt_trigger v));
     ("generation", json_z (pt_generation v)); ("kind", VString (trigger_kind_str (pt_kind v)));
     ("state", VString (trigger_state_str (pt_state v)));
     ("implementation_sha256", json_bytes (pt_implementation_sha256 v));
     ("configuration_sha256", json_bytes (pt_configuration_sha256 v));
     ("filter_sha256", json_bytes (pt_filter_sha256 v));
     ("event_source_identity", VString (pt_event_source_identity v));
     ("source_generation", VString (pt_source_generation v));
     ("configuration", pt_configuration v);
     ("deduplication_window_seconds", json_z (pt_deduplication_window_seconds v));
     ("max_delivery_attempts", json_z (pt_max_delivery_attempts v));
     ("delivery_ttl_seconds", json_z (pt_delivery_ttl_seconds v));
     ("actor_subject", VString (pt_actor_subject v)); ("reason", VString (pt_reason v));
     ("idempotency_key", VString (pt_idempotency_key v));
     ("audit_sequence", json_z (pt_audit_sequence v));
     ("audit_event_hash", json_bytes (pt_audit_event_hash v))].

Definition json_delivery (d : TriggerDelivery) : Value :=
  VObject
    [("organization_id", VString (td_organization d)); ("project_id", VString (td_project d));
     ("pipeline_id", VString (td_pipeline d)); ("trigger_id", VString (td_trigger d));
     ("trigger_generation", json_z (td_trigger_generation d));
     ("delivery_id", VString (td_delivery_id d)); ("event_id", VString (td_event_id d));
     ("event_kind", VString (td_event_kind d)); ("caller_identity", VString (td_caller_identity d));
     ("payload_sha256", json_bytes (td_payload_sha256 d));
     ("canonical_payload", td_canonical_payload d); ("parameters", td_parameters d);
     ("requested_platform", VString (td_requested_platform d));
     ("requested_trust_pool", VString (td_requested_trust_pool d));
     ("event_time_unix_ms", json_z (td_event_time d));
     ("accepted_at_unix_ms", json_z (td_accepted_at d));
     ("expires_at_unix_ms", json_z (td_expires_at d));
     ("status", VString (delivery_status_str (td_status d)));
     ("attempt_count", json_z (td_attempt_count d));
     ("next_attempt_at_unix_ms", json_z (td_next_attempt_at d));
     ("claim_owner", json_option_string (td_claim_owner d));
     ("claim_fence", json_z (td_claim_fence d));
     ("claim_expires_at_unix_ms", json_option_z (td_claim_expires_at d));
     ("redrive_of_delivery_id", json_option_string (td_redrive_of d));
     ("redrive_ordinal", json_option_z (td_redrive_ordinal d));
     ("build_id", json_option_string (td_build d));
     ("terminal_reason", json_option_string (td_terminal_reason d));
     ("audit_sequence", json_z (td_audit_sequence d));
     ("audit_event_hash", json_bytes (td_audit_event_hash d))].

Definition json_watermark (w : TriggerScheduleWatermark) : Value :=
  VObject
    [("organization_id", VString (sw_organization w)); ("project_id", VString (sw_project w));
     ("pipeline_id", VString (sw_pipeline w)); ("trigger_id", VString (sw_trigger w));
     ("trigger_generation", json_z (sw_trigger_generation w));
     ("timezone", VString (sw_timezone w)); ("calendar", VString (sw_calendar w));
     ("expression", VString (sw_expression w));
     ("schedule_identity_sha256", json_bytes (sw_schedule_identity_sha256 w));
     ("last_resolved_slot_unix_ms", json_option_z (sw_last_resolved_slot w));
     ("last_delivery_id", json_option_string (sw_last_delivery_id w))].

Definition json_receipt (r : WebhookReceipt) : Value :=
  VObject
    [("organization_id", VString (wr_organization r)); ("trigger_id", VString (wr_trigger r));
     ("delivery_id", VString (wr_delivery_id r)); ("event", VString (wr_event r));
     ("body_sha256", json_bytes (wr_body_sha256 r)); ("status", VString (wr_status r));
     ("reason", VString (wr_reason r)); ("caller_identity", VString (wr_caller_identity r));
     ("recorded_at_unix_ms", json_z (wr_recorded_at r));
     ("audit_sequence", json_z (wr_audit_sequence r))].

Definition json_audit_event (e : AuditEvent) : Value :=
  VObject
    [("sequence", json_z (ae_sequence e)); ("event_id", VString (ae_event_id e));
     ("category", VString (ae_category e)); ("actor_subject", VString (ae_actor_subject e));
     ("action", VString (ae_action e)); ("subject", VString (ae_subject e));
     ("payload", ae_payload e); ("occurred_at_unix_ms", json_z (ae_occurred_at_unix_ms e));
     ("previous_hash", json_bytes (ae_previous_hash e));
     ("event_hash", json_bytes (ae_event_hash e))].

(** The fields of [LedgerDigestInput], which open [DigestInput] too. *)
Definition ledger_fields (s : TriggerTransferSnapshot) : list (string * Value) :=
  [("schema_version", json_z (tx_schema_version s));
   ("organization_id", VString (tx_organization s)); ("project_id", VString (tx_project s));
   ("pipeline_id", VString (tx_pipeline s)); ("trigger_id", VString (tx_trigger s));
   ("current_generation", json_z (tx_current_generation s));
   ("versions", VArray (map json_version (tx_versions s)));
   ("deliveries", VArray (map json_delivery (tx_deliveries s)));
   ("schedule_watermarks", VArray (map json_watermark (tx_schedule_watermarks s)));
   ("webhook_receipts", VArray (map json_receipt (tx_webhook_receipts s)))].

Definition snapshot_fields (s : TriggerTransferSnapshot) : list (string * Value) :=
  ledger_fields s
  ++ [("handoff_audit_event", json_audit_event (tx_handoff_audit_event s));
      ("audit_sequence", json_z (tx_audit_sequence s));
      ("audit_event_hash", json_bytes (tx_audit_event_hash s))].

Section Transfer.
Context `{External} `{DagExternal} `{Md5Hash} `{TriggerHex} `{Postgres} `{CivilTime} `{AuditJson}.

Definition trigger_transfer_ledger_digest (s : TriggerTransferSnapshot) : result StoreError string :=
  canonical ← ingress_to_vec (VObject (ledger_fields s));
  Ok (sha256 ("mcloving-trigger-transfer-ledger-v2" +:+ nul +:+ canonical)).

Definition compute_trigger_transfer_snapshot_digest (s : TriggerTransferSnapshot) :
    result StoreError string :=
  canonical ← ingress_to_vec (VObject (snapshot_fields s));
  Ok (sha256 ("mcloving-trigger-transfer-v2" +:+ nul +:+ canonical)).

(** ** Verification *)

Definition same_identity (s : TriggerTransferSnapshot) (organization project pipeline trigger : Uuid) :
    bool :=
  String.eqb organization (tx_organization s) && String.eqb project (tx_project s)
  && String.eqb pipeline (tx_pipeline s) && String.eqb trigger (tx_trigger s).

Definition version_ok (s : TriggerTransferSnapshot) (expected : Z) (v : PipelineTrigger) : bool :=
  same_identity s (pt_organization v) (pt_project v) (pt_pipeline v) (pt_trigger v)
  && (pt_generation v =? expected) && negb (is_empty (pt_actor_subject v))
  && negb (is_empty (pt_reason v)) && negb (is_empty (pt_idempotency_key v))
  && (0 <? pt_audit_sequence v) && negb (String.eqb (pt_audit_event_hash v) zero_digest).

Fixpoint verify_versions (s : TriggerTransferSnapshot) (expected : Z) (l : list PipelineTrigger) :
    result StoreError () :=
  match l with
  | [] => Ok tt
  | v :: l =>
      check (negb (version_ok s expected v))
        (conflict "trigger transfer version lineage is incomplete or substituted") ;;
      verify_versions s (expected + 1) l
  end.

Definition has_generation (s : TriggerTransferSnapshot) (generation : Z) : bool :=
  existsb (fun v => pt_generation v =? generation) (tx_versions s).

Definition delivery_ok (s : TriggerTransferSnapshot) (seen : list TriggerDelivery)
    (d : TriggerDelivery) : bool :=
  same_identity s (td_organization d) (td_project d) (td_pipeline d) (td_trigger d)
  && has_generation s (td_trigger_generation d)
  && negb (existsb (fun e => String.eqb (td_delivery_id e) (td_delivery_id d)) seen)
  && negb (existsb (fun e => String.eqb (td_event_id e) (td_event_id d)) seen)
  && negb (is_some (td_claim_owner d)) && negb (is_some (td_claim_expires_at d))
  && (0 <? td_audit_sequence d) && negb (String.eqb (td_audit_event_hash d) zero_digest).

(** [seen] are the deliveries the two sets hold. *)
Fixpoint verify_deliveries (s : TriggerTransferSnapshot) (seen l : list TriggerDelivery) :
    result StoreError () :=
  match l with
  | [] => Ok tt
  | d :: l =>
      check (negb (delivery_ok s seen d))
        (conflict ("trigger transfer delivery ledger is incomplete, duplicated, claimed, or "
           +:+ "substituted")) ;;
      verify_deliveries s (d :: seen) l
  end.

Definition receipt_ok (s : TriggerTransferSnapshot) (seen : list string) (r : WebhookReceipt) : bool :=
  String.eqb (wr_organization r) (tx_organization s) && String.eqb (wr_trigger r) (tx_trigger s)
  && existsb (String.eqb (wr_status r)) ["ignored"; "filtered"] && negb (is_empty (wr_reason r))
  && negb (is_empty (wr_event r)) && negb (is_empty (wr_caller_identity r))
  && (0 <=? wr_recorded_at r) && (0 <? wr_audit_sequence r)
  && negb (existsb (fun d => String.eqb (td_delivery_id d) (wr_delivery_id r)
                             || String.eqb (td_event_id d) (wr_delivery_id r)) (tx_deliveries s))
  && negb (existsb (String.eqb (wr_delivery_id r)) seen).

Fixpoint verify_receipts (s : TriggerTransferSnapshot) (seen : list string)
    (l : list WebhookReceipt) : result StoreError () :=
  match l with
  | [] => Ok tt
  | r :: l =>
      check (negb (receipt_ok s seen r))
        (conflict "trigger transfer webhook receipts are duplicated, admitted, or substituted") ;;
      verify_receipts s (wr_delivery_id r :: seen) l
  end.

(** The delivery a watermark ends at. *)
Definition watermark_delivery_ok (w : TriggerScheduleWatermark) (slot : Z) (d : TriggerDelivery) :
    bool :=
  let payload name := p ← field (td_canonical_payload d) "payload"; o ← as_object p; bget name o in
  let is_text name text := bool_decide (payload name ≫= as_str = Some text) in
  (td_trigger_generation d =? sw_trigger_generation w) && String.eqb (td_event_kind d) "schedule"
  && (td_event_time d =? slot)
  && from_option (fun v => value_eqb v (json_z slot)) false (payload "resolved_slot_unix_ms")
  && is_text "schedule_identity_sha256" (hex_encode (sw_schedule_identity_sha256 w))
  && is_text "timezone" (sw_timezone w) && is_text "calendar" (sw_calendar w)
  && is_text "expression" (sw_expression w).

Definition verify_watermark (s : TriggerTransferSnapshot) (seen : list Z)
    (w : TriggerScheduleWatermark) : result StoreError () :=
  check (negb (same_identity s (sw_organization w) (sw_project w) (sw_pipeline w) (sw_trigger w)
               && has_generation s (sw_trigger_generation w)
               && negb (existsb (Z.eqb (sw_trigger_generation w)) seen)))
    (conflict "trigger transfer schedule watermark is incomplete or substituted") ;;
  last_delivery ← ok_or (sw_last_delivery_id w)
    (conflict "trigger transfer schedule watermark omits its delivery lineage");
  slot ← ok_or (sw_last_resolved_slot w)
    (conflict "trigger transfer schedule watermark omits its resolved slot");
  d ← ok_or (List.find (fun d => String.eqb (td_delivery_id d) last_delivery) (tx_deliveries s))
    (conflict "trigger transfer schedule watermark references an unknown delivery");
  check (negb (watermark_delivery_ok w slot d))
    (conflict "trigger transfer schedule watermark does not match its exact delivery").

Fixpoint verify_watermarks (s : TriggerTransferSnapshot) (seen : list Z)
    (l : list TriggerScheduleWatermark) : result StoreError () :=
  match l with
  | [] => Ok tt
  | w :: l =>
      verify_watermark s seen w ;; verify_watermarks s (sw_trigger_generation w :: seen) l
  end.

Definition handoff_payload (s : TriggerTransferSnapshot) (ledger : string) : Value :=
  VObject
    [("current_generation", json_z (tx_current_generation s));
     ("delivery_count", json_z (llen (tx_deliveries s)));
     ("ledger_sha256", VString (hex_encode ledger)); ("pipeline_id", VString (tx_pipeline s));
     ("project_id", VString (tx_project s));
     ("schedule_watermark_count", json_z (llen (tx_schedule_watermarks s)));
     ("trigger_id", VString (tx_trigger s)); ("version_count", json_z (llen (tx_versions s)));
     ("webhook_receipt_count", json_z (llen (tx_webhook_receipts s)))].

Definition verify_anchor (s : TriggerTransferSnapshot) (anchor : string) : result StoreError () :=
  check (negb (tx_schema_version s =? TRIGGER_TRANSFER_SCHEMA_VERSION)
         || (tx_current_generation s <=? 0) || (tx_audit_sequence s <=? 0)
         || String.eqb (tx_audit_event_hash s) zero_digest || String.eqb anchor zero_digest)
    (InvalidTriggerIngress "trigger transfer snapshot schema or generation is invalid") ;;
  check (negb (String.eqb (tx_audit_event_hash s) anchor)
         || negb (ae_sequence (tx_handoff_audit_event s) =? tx_audit_sequence s)
         || negb (String.eqb (ae_event_hash (tx_handoff_audit_event s)) anchor))
    (conflict "trigger transfer does not match the independently retained audit anchor") ;;
  map_err (fun _ => conflict "trigger transfer handoff audit event hash is invalid")
    (verify_audit_event_hash (tx_organization s) (tx_handoff_audit_event s)).

Definition verify_trigger_transfer_snapshot (s : TriggerTransferSnapshot) (anchor : string) :
    result StoreError () :=
  verify_anchor s anchor ;;
  verify_versions s 1 (tx_versions s) ;;
  check (negb (bool_decide (pt_generation <$> last (tx_versions s) = Some (tx_current_generation s)))
         || negb (bool_decide (pt_state <$> last (tx_versions s) = Some TriggerIsPaused)))
    (conflict "trigger transfer requires a complete lineage ending in a paused generation") ;;
  verify_deliveries s [] (tx_deliveries s) ;;
  verify_receipts s [] (tx_webhook_receipts s) ;;
  verify_watermarks s [] (tx_schedule_watermarks s) ;;
  ledger ← trigger_transfer_ledger_digest s;
  let e := tx_handoff_audit_event s in
  check (negb (String.eqb (ae_category e) "trigger")
         || negb (String.eqb (ae_action e) "trigger.handoff_exported")
         || negb (String.eqb (ae_subject e) (trigger_subject (tx_pipeline s) (tx_trigger s)))
         || is_empty (ae_actor_subject e)
         || negb (value_eqb (ae_payload e) (handoff_payload s ledger)))
    (conflict "trigger transfer handoff audit commitment does not match its ledger") ;;
  actual ← compute_trigger_transfer_snapshot_digest s;
  check (negb (String.eqb actual (tx_state_sha256 s)))
    (conflict "trigger transfer snapshot digest does not match its state").

(** ** Export *)

Definition by_generation (v w : PipelineTrigger) : Prop := pt_generation v <= pt_generation w.
Definition by_delivery (d e : TriggerDelivery) : Prop :=
  String.leb (td_delivery_id d) (td_delivery_id e) = true.
Definition by_slot_generation (v w : TriggerScheduleWatermark) : Prop :=
  sw_trigger_generation v <= sw_trigger_generation w.
Definition by_receipt (q r : WebhookReceipt) : Prop :=
  String.leb (wr_delivery_id q) (wr_delivery_id r) = true.
#[local] Instance by_generation_dec : RelDecision by_generation.
Proof. intros v w. apply Z.le_dec. Defined.
#[local] Instance by_delivery_dec : RelDecision by_delivery.
Proof. intros v w. unfold by_delivery. apply _. Defined.
#[local] Instance by_slot_generation_dec : RelDecision by_slot_generation.
Proof. intros v w. apply Z.le_dec. Defined.
#[local] Instance by_receipt_dec : RelDecision by_receipt.
Proof. intros v w. unfold by_receipt. apply _. Defined.

(** A claim the export may take back. *)
Definition claim_lapsed (project pipeline trigger : Uuid) (now_ms : Z) (d : TriggerDelivery) : bool :=
  String.eqb (td_project d) project && String.eqb (td_pipeline d) pipeline
  && String.eqb (td_trigger d) trigger && is_some (td_claim_owner d)
  && from_option (fun expires => expires <=? now_ms) false (td_claim_expires_at d).

Definition reap_claims (project pipeline trigger : Uuid) (now_ms : Z) (t : TriggerDb) :
    result StoreError TriggerDb :=
  let lapsed := claim_lapsed project pipeline trigger now_ms in
  check (some_delivery (fun d => lapsed d && negb (guard_trigger_delivery d (released d)
                                                   && delivery_row_ok (released d))) t) Database ;;
  Ok (t <| ti_deliveries := (fun d => if lapsed d then released d else d) <$> ti_deliveries t |>).

Definition rows_of {K A} `{Countable K} (P : A -> bool) (m : gmap K A) : list A :=
  List.filter P (map_to_list m).*2.

(** The ledger of a trigger, in the order of the queries. *)
Definition trigger_ledger (organization project pipeline trigger : Uuid) (current : Z)
    (t : TriggerDb) : TriggerTransferSnapshot :=
  let mine p q r := String.eqb p project && String.eqb q pipeline && String.eqb r trigger in
  MkSnapshot TRIGGER_TRANSFER_SCHEMA_VERSION organization project pipeline trigger current
    (merge_sort by_generation (rows_of (fun v => String.eqb (pt_trigger v) trigger) (ti_versions t)))
    (merge_sort by_delivery
       (rows_of (fun d => mine (td_project d) (td_pipeline d) (td_trigger d)) (ti_deliveries t)))
    (merge_sort by_slot_generation
       (rows_of (fun w => mine (sw_project w) (sw_pipeline w) (sw_trigger w)) (ti_watermarks t)))
    (merge_sort by_receipt (rows_of (fun r => String.eqb (wr_trigger r) trigger) (ti_receipts t)))
    (MkAuditEvent 0 "" "" "" "" "" VNull 0 "" "") 0 "" zero_digest.

Definition with_handoff (s : TriggerTransferSnapshot) (audit : AuditEvent) : TriggerTransferSnapshot :=
  MkSnapshot (tx_schema_version s) (tx_organization s) (tx_project s) (tx_pipeline s) (tx_trigger s)
    (tx_current_generation s) (tx_versions s) (tx_deliveries s) (tx_schedule_watermarks s)
    (tx_webhook_receipts s) audit (ae_sequence audit) (ae_event_hash audit) (tx_state_sha256 s).
Definition with_state (s : TriggerTransferSnapshot) (state : string) : TriggerTransferSnapshot :=
  MkSnapshot (tx_schema_version s) (tx_organization s) (tx_project s) (tx_pipeline s) (tx_trigger s)
    (tx_current_generation s) (tx_versions s) (tx_deliveries s) (tx_schedule_watermarks s)
    (tx_webhook_receipts s) (tx_handoff_audit_event s) (tx_audit_sequence s)
    (tx_audit_event_hash s) state.

Definition export_quiesced_trigger_state (organization : Uuid) (stamp : Stamp) (now : Z)
    (project pipeline trigger : Uuid) (actor : string) (t : TriggerDb) :
    result StoreError (TriggerTransferSnapshot * TriggerDb) :=
  validate_text "actor_subject" actor MAX_TEXT_BYTES ;;
  current ← ok_or (v ← pipeline_trigger t project pipeline trigger;
                   if bool_decide (pt_state v = TriggerIsPaused) then Some (pt_generation v) else None)
    (conflict "trigger handoff requires the exact current generation to be paused");
  t ← reap_claims project pipeline trigger (trigger_database_unix_ms now) t;
  let s := trigger_ledger organization project pipeline trigger current t in
  check (existsb (fun d => is_some (td_claim_owner d) || is_some (td_claim_expires_at d))
           (tx_deliveries s))
    (conflict "trigger handoff cannot export an actively claimed delivery") ;;
  ledger ← trigger_transfer_ledger_digest s;
  appended ← append_trigger_audit organization actor "trigger.handoff_exported"
    (trigger_subject pipeline trigger) (handoff_payload s ledger) stamp t;
  let '(audit, t) := appended in
  let s := with_handoff s audit in
  state ← compute_trigger_transfer_snapshot_digest s;
  let s := with_state s state in
  verify_trigger_transfer_snapshot s (ae_event_hash audit) ;;
  Ok (s, t).

End Transfer.
