(* ===== verification/Sequential.v ===== *)
(** * Contained sequential builds (controller-store/src/sequential.rs)

    [SequentialDagBuild::new] accepts a dag and a layout only when the dag is one
    chain of shell steps grouped into stages; [admit_sequential_dag] admits it and
    opens its workspace. An accepted build is a chain whose nodes are the rows of
    the layout, and a step's stage and ordinals are those of its position. *)

From stdpp Require Import base gmap sets list strings pretty.
From Stdlib Require Import Ascii ZArith Lia.
From S2P Require Import Prelude Text Bytes Domain DagContract DagGraph DagMatrix.
From S2P Require Import WorkspaceSnapshot.
From S2P Require Import StoreTables WorkspaceStore DagRuntime.

Open Scope Z_scope.

(** ** Data *)

Record SequentialStepLayout := {
  sl_node_key : string;
  sl_stage_id : string;
  sl_stage_name : string;
  sl_stage_ordinal : Z;
  sl_step_ordinal : Z;
  sl_execution_ordinal : Z
}.

Record SequentialDagBuild := {
  sq_dag : NewDagBuild;
  sq_layout : list SequentialStepLayout;
  sq_workspace_transfer : bool
}.

(** ** Stage identifiers *)

Definition to_ascii_lowercase (ch : string) : string :=
  match ch with
  | String c EmptyString =>
      if is_ascii_uppercase c then schar (byte_of (byte_val c + 32)) else ch
  | _ => ch
  end.

Definition stage_char (ch : string) : bool :=
  match ch with
  | String c EmptyString =>
      is_ascii_lowercase c || is_ascii_digit c || one_of ["."; "_"; "-"]%char c
  | _ => false
  end.

(** The result so far and [invalid_run]. *)
Definition push_stage_char (state : string * bool) (ch : string) : string * bool :=
  let '(result, invalid_run) := state in
  if stage_char ch then (result +:+ ch, false)
  else if invalid_run then (result, true) else (result +:+ "-", true).

Fixpoint drop_leading (c : ascii) (s : string) : string :=
  match s with
  | String a t => if Ascii.eqb a c then drop_leading c t else s
  | EmptyString => s
  end.
(** [s.trim_matches(c)]. *)
Definition trim_matches (c : ascii) (s : string) : string :=
  srev (drop_leading c (srev (drop_leading c s))).

Definition normalized_stage_id (name : string) : string :=
  trim_matches "-" (fst (foldl push_stage_char ("", false) (map to_ascii_lowercase (chars name)))).

(** ** Validation *)

Definition invalid_sequential {A} (message : string) : result StoreError A := Err (InvalidDag message).

Definition shell_spec (script : string) : Value :=
  VObject [("steps", VArray [VObject [
              ("args", VArray [VString "-xe"; VString "-c"; VString script]);
              ("env", VObject []); ("kind", VString "process"); ("mode", VString "direct");
              ("program", VString "/bin/sh"); ("timeout_seconds", VNull)]]);
           ("version", VNumber "1")].

(** [execution_spec.pointer("/steps/0/args/2").and_then(Value::as_str)]. *)
Definition spec_script (spec : Value) : option string :=
  steps ← field spec "steps"; l ← as_array steps; step ← head l;
  args ← field step "args"; l ← as_array args; script ← l !! 2%nat; as_str script.

(** The sets and the sum the loop carries. *)
Record LayoutState := {
  ls_keys : bmap ();
  ls_stages : bmap ();
  ls_script_bytes : Z
}.

(** The [match] on the previous row; [None] is its error arm. *)
Definition place_row (stages : bmap ()) (previous : option SequentialStepLayout)
    (row : SequentialStepLayout) : option (bmap ()) :=
  match previous with
  | None =>
      if (sl_stage_ordinal row =? 1) && (sl_step_ordinal row =? 1)
      then Some (binsert (sl_stage_id row) tt stages) else None
  | Some previous =>
      if (sl_stage_ordinal row =? sl_stage_ordinal previous)
         && String.eqb (sl_stage_id row) (sl_stage_id previous)
         && String.eqb (sl_stage_name row) (sl_stage_name previous)
         && (sl_step_ordinal row =? sl_step_ordinal previous + 1)
      then Some stages
      else if (sl_stage_ordinal row =? sl_stage_ordinal previous + 1)
              && (sl_step_ordinal row =? 1) && negb (bcontains (sl_stage_id row) stages)
      then Some (binsert (sl_stage_id row) tt stages)
      else None
  end.

Definition expected_dependencies (previous : option SequentialStepLayout) : list DagDependency :=
  match previous with
  | None => []
  | Some p => [{| dep_node_key := sl_node_key p; dep_condition := Succeeded |}]
  end.

#[export] Instance DagDependency_eq_dec : EqDecision DagDependency.
Proof. solve_decision. Defined.

Definition node_policy (previous : option SequentialStepLayout) (node : NewDagNode) : bool :=
  bool_decide (node_kind node = Work)
  && bool_decide (dependencies node = expected_dependencies previous)
  && bool_decide (required_capabilities node = [])
  && String.eqb (required_platform node) "linux"
  && String.eqb (required_trust_pool node) "migration-deny-authority"
  && (node_priority node =? 0) && negb (fail_fast node) && (max_attempts node =? 1).

Definition layout_row (nodes : bmap NewDagNode) (index : Z) (previous : option SequentialStepLayout)
    (st : LayoutState) (row : SequentialStepLayout) : result StoreError LayoutState :=
  check (negb (sl_execution_ordinal row =? index + 1) || bcontains (sl_node_key row) (ls_keys st)
         || is_empty (sl_stage_name row) || (96 <? slen (sl_stage_name row))
         || is_empty (sl_stage_id row)
         || negb (String.eqb (sl_stage_id row) (normalized_stage_id (sl_stage_name row))))
    (InvalidDag "invalid sequential layout identity") ;;
  stages ← ok_or (place_row (ls_stages st) previous row)
    (InvalidDag "sequential stage and step ordinals must be contiguous");
  check (32 <? sl_stage_ordinal row) (InvalidDag "sequential stage bound exceeded") ;;
  node ← ok_or (bget (sl_node_key row) nodes) (InvalidDag "layout has no matching node");
  check (negb (node_policy previous node))
    (InvalidDag "sequential node policy or dependency mismatch") ;;
  script ← ok_or (spec_script (execution_spec node))
    (InvalidDag "sequential process must contain a literal shell script");
  check (is_empty script || (4096 <? slen script) || contains_char "000" script
         || starts_with "#!" script) (InvalidDag "invalid sequential shell literal") ;;
  let script_bytes := ls_script_bytes st + slen script in
  check ((4096 <? script_bytes) || negb (value_eqb (execution_spec node) (shell_spec script)))
    (InvalidDag "sequential process shape or aggregate literal bound mismatch") ;;
  Ok {| ls_keys := binsert (sl_node_key row) tt (ls_keys st); ls_stages := stages;
        ls_script_bytes := script_bytes |}.

Fixpoint layout_rows (nodes : bmap NewDagNode) (index : Z) (previous : option SequentialStepLayout)
    (st : LayoutState) (rows : list SequentialStepLayout) : result StoreError () :=
  match rows with
  | [] => Ok tt
  | row :: rows =>
      st ← layout_row nodes index previous st row;
      layout_rows nodes (index + 1) (Some row) st rows
  end.

Section Sequential.
Context `{DX : DagExternal} `{WT : WorkspaceTransfer}.

Definition new_sequential (dag : NewDagBuild) (layout : list SequentialStepLayout) :
    result StoreError SequentialDagBuild :=
  invalid_dag (validate_dag_contract dag) ;;
  check (has_targets (notify_targets dag))
    (InvalidDag "sequential admission carries no notification targets") ;;
  check (starts_with TRIGGER_DAG_IDEMPOTENCY_PREFIX (idempotency_key dag)
         || negb (build_priority dag =? 0) || (pipeline_revision dag <=? 0)
         || (pipeline_operational_generation dag <=? 0) || (llen layout =? 0) || (64 <? llen layout)
         || negb (llen layout =? llen (build_nodes dag)))
    (InvalidDag "invalid sequential admission bounds or binding") ;;
  let layout := sort_by (fun l r => sl_execution_ordinal l <? sl_execution_ordinal r) layout in
  let nodes := foldl (fun m node => binsert (node_key node) node m) [] (build_nodes dag) in
  layout_rows nodes 0 None {| ls_keys := []; ls_stages := []; ls_script_bytes := 0 |} layout ;;
  Ok {| sq_dag := dag; sq_layout := layout; sq_workspace_transfer := false |}.

Definition with_workspace_transfer (b : SequentialDagBuild) : SequentialDagBuild :=
  let dag := sq_dag b in
  let node n := {| node_key := node_key n; node_kind := node_kind n;
    dependencies := dependencies n; required_capabilities := [WORKSPACE_TRANSFER_CAPABILITY];
    required_platform := required_platform n; required_trust_pool := required_trust_pool n;
    node_priority := node_priority n; execution_spec := execution_spec n;
    fail_fast := fail_fast n; max_attempts := max_attempts n |} in
  {| sq_dag := {| organization_id := organization_id dag; project_id := project_id dag;
       pipeline_id := pipeline_id dag; pipeline_revision := pipeline_revision dag;
       pipeline_operational_generation := pipeline_operational_generation dag;
       idempotency_key := idempotency_key dag; pipeline_digest := pipeline_digest dag;
       build_priority := build_priority dag; build_nodes := map node (build_nodes dag);
       notify_targets := notify_targets dag |};
     sq_layout := sq_layout b; sq_workspace_transfer := true |}.

(** [serde] prints the fields of a row in a map. *)
Definition row_json (row : SequentialStepLayout) : Value :=
  VObject [("execution_ordinal", json_z (sl_execution_ordinal row));
           ("node_key", VString (sl_node_key row)); ("stage_id", VString (sl_stage_id row));
           ("stage_name", VString (sl_stage_name row));
           ("stage_ordinal", json_z (sl_stage_ordinal row));
           ("step_ordinal", json_z (sl_step_ordinal row))].

Definition sequential_contract (b : SequentialDagBuild) : Value :=
  match normalized_dag_contract (sq_dag b) with
  | VObject m =>
      let m := binsert "sequential_layout"
        (VObject [("steps", VArray (map row_json (sq_layout b))); ("version", VNumber "1")]) m in
      VObject (if sq_workspace_transfer b
               then binsert "workspace_transfer" (VObject [("version", VNumber "1")]) m else m)
  | v => v
  end.

(** [namespace] is the identifier [initialize] draws. *)
Definition admit_sequential_dag (now : Z) (build : Uuid) (ids : nat -> Uuid * Uuid)
    (namespace : Uuid) (input : SequentialDagBuild) (db : Db) : tx DagAdmission :=
  admit_dag_contract_transaction now build ids (sq_dag input) (sequential_contract input) true db
  ≫= fun '((admission, db) : DagAdmission * Db) =>
  if adm_created admission && sq_workspace_transfer input then
    b ← ok_or (builds db !! adm_build admission) Database;
    b' ← initialize namespace b;
    Ok (admission, db <| builds := <[adm_build admission := b']> (builds db) |>)
  else Ok (admission, db).

End Sequential.

(** ** What an accepted layout promises *)

Definition in_stage (id : string) (l : list SequentialStepLayout) : list SequentialStepLayout :=
  List.filter (fun r => String.eqb (sl_stage_id r) id) l.

(** The stages the rows have opened. *)
Definition opened (l : list SequentialStepLayout) : list string := remove_dups (sl_stage_id <$> l).

(** Rows in execution order.  A stage's rows lie together and share its name; its
    number is its position among the stages, and the number of a step its position
    in the stage. *)
Record staged (l : list SequentialStepLayout) : Prop := {
  sg_order i row : l !! i = Some row -> sl_execution_ordinal row = Z.of_nat i + 1;
  sg_keys : NoDup (sl_node_key <$> l);
  sg_stage r r' : r ∈ l -> r' ∈ l -> sl_stage_ordinal r = sl_stage_ordinal r' <-> sl_stage_id r = sl_stage_id r';
  sg_names r : r ∈ l -> sl_stage_id r = normalized_stage_id (sl_stage_name r) /\ sl_stage_id r <> "";
  sg_bound r : r ∈ l -> 1 <= sl_stage_ordinal r <= 32;
  sg_name r r' : r ∈ l -> r' ∈ l -> sl_stage_id r = sl_stage_id r' -> sl_stage_name r = sl_stage_name r';
  sg_together i j k r s t : (i <= j <= k)%nat -> l !! i = Some r -> l !! j = Some s -> l !! k = Some t ->
    sl_stage_id r = sl_stage_id t -> sl_stage_id s = sl_stage_id r;
  sg_stages i row : l !! i = Some row -> sl_stage_ordinal row = llen (opened (take (S i) l));
  sg_steps i row : l !! i = Some row ->
    sl_step_ordinal row = llen (in_stage (sl_stage_id row) (take (S i) l))
}.

(** The node of a row: a shell step that waits for the step before it alone. *)
Record shell_step (previous : option SequentialStepLayout) (node : NewDagNode) (script : string) :
    Prop := {
  ss_policy : node_policy previous node = true;
  ss_script : script <> "" /\ contains_char "000" script = false;
  ss_spec : value_eqb (execution_spec node) (shell_spec script) = true
}.

Definition before {A} (l : list A) (i : nat) : option A :=
  match i with O => None | S i => l !! i end.

(** ** Rows *)

Lemma in_stage_app id l1 l2 : in_stage id (l1 ++ l2) = in_stage id l1 ++ in_stage id l2.
Proof. apply List.filter_app. Qed.

Lemma in_stage_none id l : (forall r, r ∈ l -> sl_stage_id r <> id) -> in_stage id l = [].
Proof.
  intros H. unfold in_stage. induction l as [|r l IH]; [done|]. cbn.
  rewrite (proj2 (String.eqb_neq _ _)) by (apply H; by left). apply IH. intros x Hx. apply H. by right.
Qed.

Lemma length_remove_dups_snoc (l : list string) x :
  length (remove_dups (l ++ [x])) = (length (remove_dups l) + if decide (x ∈ l) then 0 else 1)%nat.
Proof.
  induction l as [|a l IH]; [done|]. cbn [app remove_dups].
  pose proof (elem_of_cons l x a). pose proof (elem_of_app l [x] a) as Ha.
  rewrite list_elem_of_singleton in Ha.
  destruct (decide_rel _ a (l ++ [x])), (decide_rel _ a l), (decide (x ∈ l)), (decide (x ∈ a :: l));
    cbn [length]; rewrite ?IH; try lia; naive_solver.
Qed.

Lemma opened_snoc l row :
  llen (opened (l ++ [row]))
  = llen (opened l) + if decide (sl_stage_id row ∈ sl_stage_id <$> l) then 0 else 1.
Proof.
  unfold opened, llen. rewrite fmap_app. change (sl_stage_id <$> [row]) with [sl_stage_id row].
  rewrite length_remove_dups_snoc. case_decide; lia.
Qed.

Lemma opened_app l k : llen (opened l) <= llen (opened (l ++ k)).
Proof.
  induction k as [|x k IH] using rev_ind; [rewrite app_nil_r; lia|].
  rewrite app_assoc, opened_snoc. case_decide; lia.
Qed.

Lemma opened_take l i j : (i <= j)%nat -> llen (opened (take i l)) <= llen (opened (take j l)).
Proof.
  intros Hi. rewrite <- (take_drop i (take j l)), take_take, Nat.min_l by done. apply opened_app.
Qed.

Lemma staged_nil : staged [].
Proof. split; try done; first [apply NoDup_nil_2|by intros ? ?%elem_of_nil|by intros ? ? ?%elem_of_nil]. Qed.

(** All rows so far of the last row's stage are counted by its step ordinal. *)
Lemma staged_last_step l p :
  staged l -> last l = Some p -> sl_step_ordinal p = llen (in_stage (sl_stage_id p) l).
Proof.
  intros S Hl. rewrite last_lookup in Hl. rewrite (sg_steps l S _ _ Hl).
  apply lookup_lt_Some in Hl. rewrite take_ge; [done|lia].
Qed.

Lemma staged_ordinal_le l i j r s :
  staged l -> (i <= j)%nat -> l !! i = Some r -> l !! j = Some s ->
  sl_stage_ordinal r <= sl_stage_ordinal s <= llen (opened l).
Proof.
  intros S Hij Hi Hj. rewrite (sg_stages l S _ _ Hi), (sg_stages l S _ _ Hj).
  split; [apply opened_take; lia|]. rewrite <- (take_drop (Datatypes.S j) l) at 2. apply opened_app.
Qed.

Lemma staged_last_ordinal l p :
  staged l -> last l = Some p -> sl_stage_ordinal p = llen (opened l).
Proof.
  intros S Hl. rewrite last_lookup in Hl. rewrite (sg_stages l S _ _ Hl).
  apply lookup_lt_Some in Hl. rewrite take_ge; [done|lia].
Qed.

Lemma lookup_snoc {A} (l : list A) x i y :
  (l ++ [x]) !! i = Some y -> l !! i = Some y \/ (i = length l /\ y = x).
Proof.
  intros [?|[Hi H]]%lookup_app_Some; [by left|right].
  apply list_lookup_singleton_Some in H as [E ->]. split; [lia|done].
Qed.

(** What the [match] on the previous row grants a row after staged rows. *)
Record placed (l : list SequentialStepLayout) (row : SequentialStepLayout) : Prop := {
  pl_stage : sl_stage_ordinal row = llen (opened (l ++ [row]));
  pl_least : 1 <= sl_stage_ordinal row;
  pl_same r : r ∈ l -> sl_stage_ordinal r = sl_stage_ordinal row <-> sl_stage_id r = sl_stage_id row;
  pl_name r : r ∈ l -> sl_stage_id r = sl_stage_id row -> sl_stage_name r = sl_stage_name row;
  pl_step : sl_step_ordinal row = llen (in_stage (sl_stage_id row) l) + 1
}.

Lemma place_row_placed l row stages stages' :
  staged l -> (forall id, bcontains id stages = true <-> id ∈ sl_stage_id <$> l) ->
  place_row stages (last l) row = Some stages' -> placed l row.
Proof.
  intros S Hst Hp. unfold place_row in Hp. destruct (last l) as [p|] eqn:El.
  - assert (p ∈ l) as Hpl by (by apply last_Some_elem_of). pose proof (sg_bound l S p Hpl).
    pose proof (staged_last_ordinal l p S El) as Hop. destruct (_ && _ && _ && _) eqn:E1.
    + bool_prop. assert (sl_stage_id row = sl_stage_id p) as Eid by done.
      split; rewrite ?opened_snoc, ?Eid.
      * rewrite decide_True; [lia|]. by apply list_elem_of_fmap_2.
      * lia.
      * intros r Hr. rewrite <- (sg_stage l S r p Hr Hpl). lia.
      * intros r Hr E. rewrite (sg_name l S r p Hr Hpl E). done.
      * rewrite <- (staged_last_step l p S El). done.
    + destruct (_ && _ && negb _) eqn:E2; [|done]. bool_prop.
      assert (sl_stage_id row ∉ sl_stage_id <$> l) as Hnew by (rewrite <- Hst; congruence).
      assert (forall r, r ∈ l -> sl_stage_id r <> sl_stage_id row) as Hd.
      { intros r Hr E. apply Hnew. rewrite <- E. by apply list_elem_of_fmap_2. }
      split; rewrite ?opened_snoc.
      * rewrite decide_False by done. lia.
      * lia.
      * intros r Hr. specialize (Hd r Hr). split; [|done].
        apply list_elem_of_lookup in Hr as (i & Hi).
        pose proof (staged_ordinal_le l i i r r S (le_n i) Hi Hi). lia.
      * intros r Hr E. by destruct (Hd r Hr).
      * by rewrite in_stage_none.
  - apply last_None in El as ->. destruct (_ && _) eqn:E; [|done]. bool_prop.
    split; [done|lia|by intros ? ?%elem_of_nil..|done].
Qed.

(** A row in the stage of an earlier one joins the rows between them. *)
Lemma placed_together l row i j r s :
  staged l -> placed l row -> (i <= j)%nat -> l !! i = Some r -> l !! j = Some s ->
  sl_stage_id r = sl_stage_id row -> sl_stage_id s = sl_stage_id r.
Proof.
  intros S P Hij Hi Hj E. pose proof (staged_ordinal_le l i j r s S Hij Hi Hj).
  apply (pl_same l row P) in E as Eo; [|by eapply list_elem_of_lookup_2].
  pose proof (pl_stage l row P). pose proof (opened_app l [row]).
  rewrite E. apply (pl_same l row P); [by eapply list_elem_of_lookup_2|lia].
Qed.

Lemma staged_snoc l row :
  staged l -> placed l row ->
  sl_execution_ordinal row = llen l + 1 -> sl_node_key row ∉ sl_node_key <$> l ->
  sl_stage_id row = normalized_stage_id (sl_stage_name row) -> sl_stage_id row <> "" ->
  sl_stage_ordinal row <= 32 -> staged (l ++ [row]).
Proof.
  intros S P Ho Hk Hn Hne Hb. pose proof P as [Hord Hleast Hsame Hname Hstep]. split.
  - intros i r [Hi|[-> ->]]%lookup_snoc; [by apply (sg_order l S)|]. done.
  - rewrite fmap_app. apply NoDup_app. split; [apply S|]. split; [|apply NoDup_singleton].
    intros k Hk1 ->%list_elem_of_singleton. done.
  - intros r r' [Hr| ->%list_elem_of_singleton]%elem_of_app [Hr'| ->%list_elem_of_singleton]%elem_of_app;
      [by apply (sg_stage l S)|by apply Hsame| |done].
    specialize (Hsame r' Hr'). split; intros E; symmetry; by apply Hsame.
  - intros r [Hr| ->%list_elem_of_singleton]%elem_of_app; [by apply (sg_names l S)|done].
  - intros r [Hr| ->%list_elem_of_singleton]%elem_of_app; [by apply (sg_bound l S)|done].
  - intros r r' [Hr| ->%list_elem_of_singleton]%elem_of_app [Hr'| ->%list_elem_of_singleton]%elem_of_app;
      [by apply (sg_name l S)|by apply Hname| |done]. intros E. symmetry. by apply Hname.
  - intros i j k r s t Hle Hi Hj [Hk'|[-> ->]]%lookup_snoc E.
    + apply lookup_lt_Some in Hk' as Hlt.
      rewrite lookup_app_l in Hi by lia. rewrite lookup_app_l in Hj by lia.
      by apply (sg_together l S i j k r s t).
    + apply lookup_snoc in Hj as [Hj|[-> ->]]; [|done]. apply lookup_lt_Some in Hj as Hlt.
      rewrite lookup_app_l in Hi by lia. apply (placed_together l row i j); try done; lia.
  - intros i r [Hi|[-> ->]]%lookup_snoc.
    + rewrite take_app_le by (apply lookup_lt_Some in Hi; lia). by apply (sg_stages l S).
    + rewrite take_ge by (rewrite length_app; cbn; lia). done.
  - intros i r [Hi|[-> ->]]%lookup_snoc.
    + rewrite take_app_le by (apply lookup_lt_Some in Hi; lia). by apply (sg_steps l S).
    + rewrite take_ge by (rewrite length_app; cbn; lia). rewrite in_stage_app, llen_app. cbn.
      by rewrite String.eqb_refl.
Qed.

Definition chained (nodes : bmap NewDagNode) (l : list SequentialStepLayout) : Prop :=
  forall i row, l !! i = Some row -> exists node script,
    bget (sl_node_key row) nodes = Some node /\ shell_step (before l i) node script.

Record loop_state (l : list SequentialStepLayout) (st : LayoutState) : Prop := {
  lo_keys_wf : bmap_wf (ls_keys st);
  lo_stages_wf : bmap_wf (ls_stages st);
  lo_keys k : bcontains k (ls_keys st) = true <-> k ∈ sl_node_key <$> l;
  lo_stages id : bcontains id (ls_stages st) = true <-> id ∈ sl_stage_id <$> l
}.

Lemma elem_of_fmap_snoc {A} (f : A -> string) l x k :
  k ∈ f <$> (l ++ [x]) <-> k = f x \/ k ∈ f <$> l.
Proof.
  rewrite fmap_app, elem_of_app. change (f <$> [x]) with [f x]. rewrite list_elem_of_singleton. tauto.
Qed.

Lemma before_app {A} (l k : list A) i : (i < length l)%nat -> before (l ++ k) i = before l i.
Proof. destruct i as [|i]; [done|]. intros Hi. cbn. apply lookup_app_l. lia. Qed.

Lemma before_length {A} (l k : list A) : before (l ++ k) (length l) = last l.
Proof.
  destruct l as [|x l _] using rev_ind; [done|]. rewrite last_snoc, length_app, Nat.add_comm. cbn.
  rewrite <- app_assoc, lookup_app_r, Nat.sub_diag by done. done.
Qed.

Lemma place_row_stages l stages previous row stages' :
  bmap_wf stages -> previous = last l ->
  (forall id, bcontains id stages = true <-> id ∈ sl_stage_id <$> l) ->
  place_row stages previous row = Some stages' ->
  bmap_wf stages' /\ forall id, bcontains id stages' = true <-> id ∈ sl_stage_id <$> (l ++ [row]).
Proof.
  intros W -> Hs H. assert (stages' = binsert (sl_stage_id row) tt stages \/
    (stages' = stages /\ sl_stage_id row ∈ sl_stage_id <$> l)) as [->|[-> Hin]].
  { unfold place_row in H. destruct (last l) as [p|] eqn:El.
    - destruct (_ && _ && _ && _) eqn:E.
      + injection H as <-. bool_prop. right. split; [done|].
        assert (sl_stage_id row = sl_stage_id p) as -> by done.
        apply list_elem_of_fmap_2. by apply last_Some_elem_of.
      + destruct (_ && _ && negb _); [|done]. injection H as <-. by left.
    - destruct (_ && _); [|done]. injection H as <-. by left. }
  - split; [by apply binsert_wf|]. intros id. rewrite elem_of_fmap_snoc, <- Hs, bcontains_binsert, orb_true_iff by done.
    rewrite String.eqb_eq. naive_solver.
  - split; [done|]. intros id. rewrite elem_of_fmap_snoc, Hs. naive_solver.
Qed.

Lemma layout_row_ok nodes l st row st' :
  staged l -> loop_state l st -> chained nodes l ->
  layout_row nodes (llen l) (last l) st row = Ok st' ->
  staged (l ++ [row]) /\ loop_state (l ++ [row]) st' /\ chained nodes (l ++ [row]).
Proof.
  intros S [Wk Ws Hk Hs] C H. unfold layout_row in H. apply guard_ok in H as [Hc H].
  apply bind_ok in H as (stages & Hp & H). apply guard_ok in H as [H32 H].
  apply bind_ok in H as (node & Hn & H). apply guard_ok in H as [Hpol H].
  apply bind_ok in H as (script & Hsc & H). apply guard_ok in H as [Hlit H].
  apply guard_ok in H as [Hspec [= <-]]. bool_prop.
  destruct (place_row _ _ _) as [stages0|] eqn:Epl; [|done]. injection Hp as ->.
  destruct (place_row_stages l _ _ _ _ Ws eq_refl Hs Epl) as [Ws' Hs'].
  split; [|split; [split|]].
  - apply staged_snoc; try done.
    + by eapply place_row_placed.
    + intros Hin%Hk. congruence.
    + intros E. rewrite E in *. done.
  - by apply binsert_wf.
  - done.
  - intros k. cbn. rewrite elem_of_fmap_snoc, <- Hk, bcontains_binsert, orb_true_iff by done.
    rewrite String.eqb_eq. naive_solver.
  - done.
  - intros i r [Hi|[-> ->]]%lookup_snoc.
    + rewrite before_app by (by eapply lookup_lt_Some). by apply C.
    + rewrite before_length. destruct (bget _ _) as [n|]; [|done]. injection Hn as ->.
      exists node, script. split; [done|]. split; [done| |done]. split; [|done]. by intros ->.
Qed.

Lemma layout_rows_ok nodes rows l st :
  staged l -> loop_state l st -> chained nodes l ->
  layout_rows nodes (llen l) (last l) st rows = Ok tt ->
  staged (l ++ rows) /\ chained nodes (l ++ rows).
Proof.
  revert l st. induction rows as [|row rows IH]; intros l st S Hl C H; [by rewrite app_nil_r|].
  cbn [layout_rows] in H. apply bind_ok in H as (st' & Hr & H).
  destruct (layout_row_ok nodes l st row st' S Hl C Hr) as (S' & Hl' & C').
  rewrite cons_middle, app_assoc. apply (IH _ st'); [done..|].
  by rewrite last_snoc, llen_app.
Qed.

Lemma nodes_map_elem l m k n :
  bmap_wf m -> bget k (foldl (fun m node => binsert (node_key node) node m) m l) = Some n ->
  (n ∈ l /\ node_key n = k) \/ bget k m = Some n.
Proof.
  revert m. induction l as [|x l IH]; intros m W H; [by right|]. cbn in H.
  apply IH in H as [[? ?]|H]; [by left; split; [right|]| |by apply binsert_wf].
  rewrite bget_binsert in H by done. destruct (String.eqb_spec (node_key x) k) as [<-|]; [|by right].
  injection H as ->. left. split; [by left|done].
Qed.

(** C22. An accepted sequential admission is one chain: its layout lists every
    node of the dag once, in execution order; each node waits for the node of the
    row before it alone and runs one shell script without retries; the rows of a
    stage lie together under one name and the identifier derived from it; and the
    number of a stage is its position among the stages, from one and without
    gaps, as the number of a step is its position in its stage. *)
Theorem sequential_chain `{DX : DagExternal} dag layout b :
  new_sequential dag layout = Ok b ->
  sq_dag b = dag /\ sq_layout b ≡ₚ layout /\ staged (sq_layout b) /\
  node_key <$> build_nodes dag ≡ₚ sl_node_key <$> sq_layout b /\
  forall i row, sq_layout b !! i = Some row -> exists node script,
    node ∈ build_nodes dag /\ node_key node = sl_node_key row /\
    shell_step (before (sq_layout b) i) node script.
Proof.
  unfold new_sequential. intros H. apply seq_ok in H as [_ H]. apply guard_ok in H as [_ H].
  apply guard_ok in H as [Hb H]. apply seq_ok in H as [H [= <-]]. cbn [sq_dag sq_layout]. bool_prop.
  apply (layout_rows_ok _ _ []) in H as [S C]; [|apply staged_nil| |done].
  2: { split; [constructor..| |]; intros k; by rewrite elem_of_nil. }
  cbn [app] in *. pose proof (sort_by_perm (fun l r => sl_execution_ordinal l <? sl_execution_ordinal r)
    layout) as Hperm.
  assert (forall i row, sort_by (fun l r => sl_execution_ordinal l <? sl_execution_ordinal r) layout
    !! i = Some row -> exists node script, node ∈ build_nodes dag /\ node_key node = sl_node_key row /\
    shell_step (before (sort_by (fun l r => sl_execution_ordinal l <? sl_execution_ordinal r) layout) i)
      node script) as Hrow.
  { intros i row Hi. destruct (C i row Hi) as (node & script & Hn & Hs).
    apply nodes_map_elem in Hn as [[? ?]|?]; [eauto 10|done|constructor]. }
  split; [done|]. split; [done|]. split; [done|]. split; [|done].
  symmetry. apply submseteq_length_Permutation.
  - apply NoDup_submseteq; [apply S|]. intros k (row & -> & Hin)%list_elem_of_fmap.
    apply list_elem_of_lookup in Hin as (i & Hi). destruct (Hrow i row Hi) as (node & _ & Hn & <- & _).
    by apply list_elem_of_fmap_2.
  - rewrite !length_fmap, (Permutation_length Hperm). unfold llen in *. lia.
Qed.
