(* ===== verification/Scheduler.v ===== *)
(** * The scheduler: claims, offers, leases and expiry

    The transactions of [controller-store/src/scheduler.rs] and the workspace
    affinity of [affinity.rs]: an agent claims the best compatible queued node
    and receives an offer under a new fence, accepts it, renews its lease, and
    an expired lease is resolved by the next poll. [locked] tells the rows
    another transaction holds, which [FOR UPDATE ... SKIP LOCKED] passes over. *)

From stdpp Require Import base gmap sets list strings pretty.
From Stdlib Require Import ZArith Lia.
From S2P Require Import Prelude Text Bytes Domain DagContract StoreTables DagRuntime.

Open Scope Z_scope.

Definition WORKSPACE_AFFINITY_FEATURE : string := "build-workspace-affinity-v1".
Definition WORKSPACE_AFFINITY_CAPABILITY : string := "workspace-affinity-v1".

Record ClaimRequest := {
  scheduler_id : string;
  agent_id : string;
  capabilities : list string;
  trust_pool : string;
  lease_seconds : Z;
  fairness_seed : Z
}.

Record ClaimedAttempt := {
  claimed_build : Uuid;
  claimed_node : Uuid;
  claimed_attempt : Uuid;
  claimed_fence : Z;
  claimed_epoch : Z;
  claimed_agent : string
}.

Record AcceptedOffer := { offer_cancellation_requested : bool }.

Inductive LeaseRenewalDisposition : Type :=
| Renewed (cancellation_requested : bool)
| TerminalNoOp
| Rejected (cause : string).

Inductive WaitReason : Type :=
| WaitReady
| NoQueuedWork
| TrustPoolMismatch (required offered : string)
| CapabilityMismatch (required missing : bmap ()).

(** [required <@ offered]. *)
Definition covers (offered required : list string) : bool :=
  forallb (fun c => bool_decide (c ∈ offered)) required.

Section Scheduler.
Context `{PG : Postgres} `{DX : DagExternal}.

(** ** Workspace affinity *)

Definition is_work (n : Node) : bool := bool_decide (n_kind n = Work).
Definition wants_affinity (n : Node) : bool :=
  bool_decide (WORKSPACE_AFFINITY_CAPABILITY ∈ n_capabilities n).

(** More than one work node, and every one of them asks for affinity. *)
Definition affinity_layout (db : Db) (build : Uuid) : bool :=
  (1 <? count_rows (in_build build is_work) (nodes db))
  && negb (exists_row (in_build build (fun n => is_work n && negb (wants_affinity n))) (nodes db)).

Definition record_successful_agent (build : Uuid) (agent : string) (node : Uuid) (db : Db) :
    result StoreError Db :=
  match nodes db !! node, builds db !! build with
  | Some n, Some b =>
      if negb (of_build build n && is_work n && wants_affinity n) then Ok db
      else if b_dag_mode b && bool_decide (b_namespace b = None)
              && match b_affinity_agent b with Some pinned => String.eqb pinned agent | None => true end
              && affinity_layout db build
      then Ok (update_builds (is_row build) (fun b =>
                 b <| b_affinity_agent := Some (default agent (b_affinity_agent b)) |>) db)
      else match b_affinity_agent b with
           | Some pinned =>
               check (negb (String.eqb pinned agent))
                 (SequentialIntegrity ("workspace affinity agent mismatch: pinned " +:+ pinned
                                       +:+ ", got " +:+ agent)) ;; Ok db
           | None => Ok db
           end
  | _, _ => Ok db
  end.

(** The session of the pinned agent that could still run node [n]. *)
Definition session_serves (now : Z) (db : Db) (agent : string) (n : Node) : bool :=
  match sessions db !! agent with
  | Some s =>
      bool_decide (WORKSPACE_AFFINITY_CAPABILITY ∈ s_capabilities s)
      && bool_decide (WORKSPACE_AFFINITY_FEATURE ∈ s_features s)
      && String.eqb (n_trust_pool n) (s_trust_pool s)
      && covers (s_capabilities s) (n_capabilities n)
      && (now - seconds 300 <? s_updated_at s)
  | None => false
  end.

(** The builds the query of [fail_orphaned_affinity_builds] selects. *)
Definition orphaned (now : Z) (db : Db) (build : Uuid) (b : Build) : bool :=
  match b_affinity_agent b with
  | None => false
  | Some agent =>
      let queued_work n := bool_decide (n_status n = NQueued) && is_work n && wants_affinity n in
      b_dag_mode b && one_status [BQueued; BRunning] (b_status b)
      && bool_decide (b_namespace b = None) && bool_decide (b_cancelled_at b = None)
      && exists_row (fun id n => of_build build n && queued_work n
           && bool_decide (n_cancelled_at n = None)
           && exists_row (fun _ a => String.eqb (a_node a) id
                && bool_decide (a_status a = AQueued)) (attempts db)) (nodes db)
      && exists_row (in_build build (fun n => queued_work n && negb (session_serves now db agent n)))
           (nodes db)
  end.

Definition fail_orphan (now : Z) (db : Db) (row : Uuid * string) : result StoreError Db :=
  let '(build, agent) := row in
  let summary := VObject [("agent_id", VString agent);
                          ("reason", VString "workspace_affinity_agent_gone")] in
  let waiting n := one_status [NBlocked; NQueued; NOffered] (n_status n) in
  let db := update_attempts (fun _ a => one_status [AQueued; AOffered] (a_status a)
      && joined db (in_build build waiting) a)
    (fun a => a <| a_status := AAborted |> <| a_summary := Some summary |>
                <| a_completed_at := Some now |> <| a_expires := None |>) db in
  let db := update_nodes now (in_build build (fun n => waiting n && no_outcome n))
    (settle_node NAborted LAborted) db in
  let db := update_builds (fun id b => String.eqb id build
      && one_status [BQueued; BRunning] (b_status b))
    (fun b => b <| b_status := BFailed |> <| b_completed_at := Some now |>) db in
  record_terminal_notifications now build BFailed
    (append_event_and_outbox build "build.workspace_affinity_agent_gone" summary db).

Definition fail_orphaned_affinity_builds (now : Z) (db : Db) : result StoreError Db :=
  try_fold (fail_orphan now) db
    (omap (fun kb => let '(build, b) := kb in
       if orphaned now db build b
       then agent ← b_affinity_agent b; Some (build, agent) else None)
       (map_to_list (builds db))).

(** ** Claims *)

(** The joins with [pipeline_definitions] and its enabled state. *)
Definition pipeline_current (db : Db) (b : Build) : bool :=
  match b_pipeline b, b_generation b with
  | Some pipeline, Some generation =>
      match pipelines db !! pipeline with
      | Some p =>
          String.eqb (p_project p) (b_project b) && (p_generation p =? generation)
          && option_eqb String.eqb (pipeline_states db !! (pipeline, p_generation p))
               (Some "enabled"%string)
      | None => false
      end
  | _, _ => false
  end.

(** No open dependency within the node's build. *)
Definition dependencies_met (db : Db) (id : Uuid) (n : Node) : bool :=
  negb (existsb (fun d =>
    String.eqb (d_build d) (n_build n) && String.eqb (d_child d) id
    && match nodes db !! d_parent d with
       | Some p => String.eqb (n_build p) (d_build d)
       | None => false
       end
    && unsatisfied (nodes db) d) (deps db)).

(** What [claim_next] and [explain_wait] ask of a node and its build alike. *)
Definition schedulable (db : Db) (id : Uuid) (n : Node) (b : Build) : bool :=
  pipeline_current db b
  && bool_decide (n_status n = NQueued)
  && (bool_decide (b_status b = BQueued) || (b_dag_mode b && bool_decide (b_status b = BRunning)))
  && bool_decide (b_cancelled_at b = None) && bool_decide (n_cancelled_at n = None)
  && dependencies_met db id n.

(** Work of a pinned build goes to the pinned agent only. *)
Definition pin_allows (agent : string) (n : Node) (b : Build) : bool :=
  match b_affinity_agent b with
  | None => true
  | Some pinned => String.eqb pinned agent || negb (is_work n)
  end.

(** Before the pin, an affinity build goes only to an agent that covers every
    work node, all of its own trust pool. *)
Definition may_pin (db : Db) (req : ClaimRequest) (n : Node) (b : Build) : bool :=
  bool_decide (b_affinity_agent b ≠ None)
  || bool_decide (b_namespace b ≠ None)
  || negb (is_work n)
  || negb (wants_affinity n)
  || negb (b_dag_mode b && affinity_layout db (n_build n))
  || (negb (exists_row (in_build (n_build n) (fun w =>
              is_work w && negb (covers (capabilities req) (n_capabilities w)))) (nodes db))
      && negb (exists_row (in_build (n_build n) (fun w =>
              is_work w && wants_affinity w
              && negb (String.eqb (n_trust_pool w) (trust_pool req)))) (nodes db))).

(** Affinity work runs one node at a time. *)
Definition single_flight (db : Db) (id : Uuid) (n : Node) (b : Build) : bool :=
  bool_decide (b_namespace b ≠ None)
  || negb (b_dag_mode b && affinity_layout db (n_build n))
  || negb (exists_row (fun w_id w => of_build (n_build n) w && is_work w
             && negb (String.eqb w_id id) && one_status [NOffered; NRunning] (n_status w))
             (nodes db)).

Definition claimable (db : Db) (req : ClaimRequest) (id : Uuid) (n : Node) (b : Build) : bool :=
  schedulable db id n b
  && covers (capabilities req) (n_capabilities n)
  && String.eqb (n_trust_pool n) (trust_pool req)
  && pin_allows (agent_id req) n b
  && may_pin db req n b
  && single_flight db id n b.

(** [ORDER BY priority DESC, queued_at, hashtextextended(id, seed), id]. *)
Definition claim_before (seed : Z) (l r : Uuid * Node) : bool :=
  let key (x : Uuid * Node) := hashtextextended (fst x) seed in
  (n_priority (snd r) <? n_priority (snd l))
  || ((n_priority (snd l) =? n_priority (snd r))
      && ((n_queued_at (snd l) <? n_queued_at (snd r))
          || ((n_queued_at (snd l) =? n_queued_at (snd r))
              && ((key l <? key r) || ((key l =? key r) && str_ltb (fst l) (fst r)))))).

(** [LIMIT 1] of the rows in an order. *)
Definition first_row {A} (lt : A -> A -> bool) (l : list A) : option A :=
  foldr (fun x best => match best with
                       | Some y => if lt y x then Some y else Some x
                       | None => Some x
                       end) None l.

(** The rows of the claim query: a node, its build and its queued attempt. *)
Definition claim_rows (locked : Uuid -> bool) (req : ClaimRequest) (db : Db) :
    list (Uuid * Node * Uuid) :=
  omap (fun ka =>
    let '(attempt, a) := ka in
    n ← nodes db !! a_node a;
    b ← builds db !! n_build n;
    if bool_decide (a_status a = AQueued) && claimable db req (a_node a) n b
       && negb (locked attempt || locked (a_node a) || locked (n_build n))
    then Some (a_node a, n, attempt) else None) (map_to_list (attempts db)).

Definition candidate (locked : Uuid -> bool) (req : ClaimRequest) (db : Db) :
    option (Uuid * Node * Uuid) :=
  first_row (fun l r => claim_before (fairness_seed req) (fst l) (fst r))
    (claim_rows locked req db).

(** The statements that create the offer; [fence] is a [bigint]. *)
Definition offer (now : Z) (req : ClaimRequest) (build node attempt : Uuid) (a : Attempt) (db : Db) :
    tx ClaimedAttempt :=
  check (i64_max <? a_fence a + 1) Database ;;
  let fence := a_fence a + 1 in
  let db := update_attempts (is_row attempt) (fun a =>
    a <| a_status := AOffered |> <| a_fence := fence |> <| a_owner := Some (agent_id req) |>
      <| a_expires := Some (now + seconds (lease_seconds req)) |>
      <| a_epoch := restore_epoch db |>) db in
  let db := update_nodes now (is_row node) (fun n => n <| n_status := NOffered |>) db in
  let db := update_builds (fun id b => String.eqb id build && bool_decide (b_status b = BQueued))
    (fun b => b <| b_status := BRunning |>) db in
  Ok ({| claimed_build := build; claimed_node := node; claimed_attempt := attempt;
         claimed_fence := fence; claimed_epoch := restore_epoch db;
         claimed_agent := agent_id req |},
      append_event_and_outbox build "attempt.offered"
        (VObject [("agent_id", VString (agent_id req));
                  ("attempt_id", VString attempt);
                  ("fence", json_z fence);
                  ("node_id", VString node);
                  ("restore_epoch", json_z (restore_epoch db));
                  ("scheduler_id", VString (scheduler_id req));
                  ("trust_pool", VString (trust_pool req))]) db).

(** [Ok (None, db)] with the first [db] is a rollback. *)
Definition claim_next_with_session (now : Z) (locked : Uuid -> bool) (req : ClaimRequest)
    (session : option Z) (db : Db) : tx (option ClaimedAttempt) :=
  if (lease_seconds req <=? 0) || is_empty (trim (trust_pool req)) then Ok (None, db)
  else
    current ← in_session db (agent_id req) session;
    if negb current then Ok (None, db)
    else
      db' ← match session with
            | Some _ => fail_orphaned_affinity_builds now db
            | None => Ok db
            end;
      match candidate locked req db' with
      | None => Ok (None, db)
      | Some (node, n, attempt) =>
          enabled ← pipeline_enabled db' (n_build n);
          if negb enabled then Ok (None, db)
          else match attempts db' !! attempt with
               | None => Err Database
               | Some a =>
                   claimed ← offer now req (n_build n) node attempt a db';
                   let '(claimed, db'') := claimed in Ok (Some claimed, db'')
               end
      end.

(** ** Offers and leases *)

(** [a.lease_expires_at > clock_timestamp()]; a null deadline is not later. *)
Definition lease_live (now : Z) (a : Attempt) : bool :=
  match a_expires a with Some t => now <? t | None => false end.
Definition lease_expired (now : Z) (a : Attempt) : bool :=
  match a_expires a with Some t => t <=? now | None => false end.
Definition owned_by (agent : string) (a : Attempt) : bool :=
  match a_owner a with Some o => String.eqb o agent | None => false end.

(** The authority an agent names: exact fence, epoch and owner. *)
Definition exact_authority (agent : string) (fence epoch : Z) (a : Attempt) : bool :=
  (a_fence a =? fence) && (a_epoch a =? epoch) && owned_by agent a.
Definition current_authority (db : Db) (agent : string) (fence epoch : Z) (a : Attempt) : bool :=
  exact_authority agent fence epoch a && (a_epoch a =? restore_epoch db).

(** An attempt with its node and build. *)
Definition attempt_rows (db : Db) (attempt : Uuid) : option (Attempt * Node * Build) :=
  a ← attempts db !! attempt;
  n ← nodes db !! a_node a;
  b ← builds db !! n_build n;
  Some (a, n, b).

Definition set_attempt (attempt : Uuid) (f : Attempt -> Attempt) (db : Db) : Db :=
  update_attempts (is_row attempt) f db.
Definition set_node_status (now : Z) (node : Uuid) (s : NodeStatus) (db : Db) : Db :=
  update_nodes now (is_row node) (fun n => n <| n_status := s |>) db.

Definition accept_offer_with_session (now : Z) (attempt : Uuid) (fence epoch : Z) (agent : string)
    (session : option Z) (db : Db) : tx (option AcceptedOffer) :=
  current ← in_session db agent session;
  if negb current then Ok (None, db)
  else match attempt_rows db attempt with
  | None => Ok (None, db)
  | Some (a, n, b) =>
      if negb (current_authority db agent fence epoch a && lease_live now a
               && one_status [AOffered; AAccepted; ARunning; ACancelling] (a_status a))
      then Ok (None, db)
      else
        let accepted := {| offer_cancellation_requested :=
          bool_decide (b_cancelled_at b ≠ None) || node_cancelled n
          || bool_decide (a_status a = ACancelling) |} in
        enabled ← pipeline_enabled db (n_build n);
        if negb enabled then Ok (None, db)
        else if negb (bool_decide (a_status a = AOffered)) then Ok (Some accepted, db)
        else
          let db := set_attempt attempt (fun a => a <| a_status := AAccepted |>) db in
          let db := set_node_status now (a_node a) NRunning db in
          Ok (Some accepted,
              append_event_and_outbox (n_build n) "attempt.accepted"
                (VObject [("agent_id", VString agent);
                          ("attempt_id", VString attempt);
                          ("fence", json_z fence);
                          ("node_id", VString (a_node a));
                          ("restore_epoch", json_z epoch)]) db)
  end.

Definition working (s : AttemptStatus) : bool :=
  one_status [AAccepted; ARunning; AFinalizing; ACancelling] s.

Definition record_lease_renewal_rejection (attempt : Uuid) (fence : Z) (agent cause : string)
    (db : Db) : Db :=
  match a ← attempts db !! attempt; n ← nodes db !! a_node a; Some (a, n) with
  | Some (a, n) =>
      if (a_fence a =? fence) && owned_by agent a && working (a_status a)
         && (a_epoch a =? restore_epoch db)
      then append_event_and_outbox (n_build n) "attempt.lease_renewal_rejected"
             (VObject [("agent_id", VString agent); ("attempt_id", VString attempt);
                       ("cause", VString cause); ("fence", json_z fence)]) db
      else db
  | None => db
  end.

Definition renew_attempt_lease_with_session (now : Z) (attempt : Uuid) (fence epoch : Z)
    (agent : string) (session : option Z) (lease_seconds : Z) (db : Db) :
    tx LeaseRenewalDisposition :=
  if lease_seconds <=? 0 then Ok (Rejected "invalid_lease_window", db)
  else
    current ← in_session db agent session;
    if negb current then
      Ok (Rejected "agent_session_stale",
          record_lease_renewal_rejection attempt fence agent "agent_session_stale" db)
    else
      let row := a ← attempts db !! attempt; n ← nodes db !! a_node a; Some (a, n) in
      enabled ← match row with
                | Some (a, n) =>
                    if exact_authority agent fence epoch a && working (a_status a)
                    then pipeline_enabled db (n_build n) else Ok true
                | None => Ok true
                end;
      if negb enabled then Ok (Renewed true, db)
      else
        let renewal := match attempt_rows db attempt with
                       | Some (a, n, b) =>
                           if current_authority db agent fence epoch a && lease_live now a
                              && working (a_status a)
                           then Some (bool_decide (b_cancelled_at b ≠ None) || node_cancelled n)
                           else None
                       | None => None
                       end in
        match renewal with
        | Some cancellation_requested =>
            Ok (Renewed cancellation_requested,
                set_attempt attempt
                  (fun a => a <| a_expires := Some (now + seconds lease_seconds) |>) db)
        | None =>
            match attempts db !! attempt with
            | Some a =>
                if current_authority db agent fence epoch a && terminal_attempt (a_status a)
                then Ok (TerminalNoOp, db)
                else Ok (Rejected "lease_not_current",
                         record_lease_renewal_rejection attempt fence agent "lease_not_current" db)
            | None => Ok (Rejected "lease_not_current", db)
            end
        end.

(** ** Expiry *)

Definition CONTROLLER_EFFECT_PREPARED : string := "mcloving.controller-effect-prepared/v1".
Definition controller_prepared (e : Effect) : bool :=
  option_eqb String.eqb (field_text (e_payload e) "schema_version") (Some CONTROLLER_EFFECT_PREPARED).

(** The effects of this fence that must not be repeated blindly. *)
Definition protected_effect (attempt : Uuid) (fence : Z) (e : Effect) : bool :=
  String.eqb (e_attempt e) attempt && (e_fence e =? fence)
  && (bool_decide (e_class e = NonIdempotent) || controller_prepared e)
  && one_status [EPrepared; EApplied; EConfirmed; EUncertain; EReleasePending] (e_status e).

(** A contained sequential step whose StartWork was recorded under this fence. *)
Definition sequential_process_uncertain (db : Db) (attempt : Uuid) (a : Attempt) (n : Node)
    (b : Build) : bool :=
  b_dag_mode b
  && match b_contract b with
     | Some c => bool_decide (is_Some (field c "sequential_layout"))
     | None => false
     end
  && existsb (fun e => String.eqb (ev_build e) (n_build n) && String.eqb (ev_kind e) "attempt.running"
       && option_eqb value_eqb (field (ev_payload e) "attempt_id") (Some (VString attempt))
       && option_eqb value_eqb (field (ev_payload e) "fence") (Some (json_z (a_fence a))))
     (events db).

(** [ORDER BY lease_expires_at, id]. *)
Definition expires_before (l r : Uuid * Attempt) : bool :=
  let t (x : Uuid * Attempt) := default 0 (a_expires (snd x)) in
  (t l <? t r) || ((t l =? t r) && str_ltb (fst l) (fst r)).

Definition expired_rows (now : Z) (locked : Uuid -> bool) (db : Db) : list (Uuid * Attempt) :=
  List.filter (fun ka =>
    let '(id, a) := ka in
    leased_attempt (a_status a) && lease_expired now a
    && bool_decide (is_Some (attempt_rows db id))
    && negb (locked id || locked (a_node a))) (map_to_list (attempts db)).

(** What follows [advance_dag_after_attempt] when it answers [false]: the one
    node of the build and the build take the outcome. *)
Definition settle_single (now : Z) (build node : Uuid) (outcome : TerminalOutcome) (db : Db) : Db :=
  update_builds (is_row build) (fun b =>
    b <| b_status := outcome_build outcome |> <| b_completed_at := Some now |>)
    (set_node_status now node (outcome_node outcome) db).

Definition advance_or_settle (now : Z) (retry build node attempt : Uuid) (outcome : TerminalOutcome)
    (db : Db) : result StoreError Db :=
  advanced ← advance_dag_after_attempt now retry build node attempt outcome db;
  Ok (if fst advanced : bool then snd advanced else settle_single now build node outcome (snd advanced)).

(** An expired lease whose build is cancelled or fenced, with nothing to reconcile. *)
Definition abort_expired (now : Z) (retry build node attempt : Uuid) (a : Attempt) (enabled : bool)
    (db : Db) : tx bool :=
  let reason := (if enabled then "cancellation_lease_expired"
                 else "pipeline_operational_generation_fenced")%string in
  let db := set_attempt attempt (fun a => abort_attempt now reason a <| a_expires := None |>) db in
  db ← advance_or_settle now retry build node attempt OAborted db;
  Ok (true, append_event_and_outbox build
              (if enabled then "attempt.cancellation_lease_expired"
               else "attempt.pipeline_generation_fenced")
              (VObject [("attempt_id", VString attempt); ("fence", json_z (a_fence a));
                        ("node_id", VString node)]) db).

(** An expired lease that returns to the queue or waits for reconciliation. *)
Definition release_expired (now : Z) (build node attempt : Uuid) (a : Attempt)
    (requires_reconciliation : bool) (uncertain confirmed : Z) (db : Db) : Db :=
  let db := set_attempt attempt (fun a =>
    a <| a_status := if requires_reconciliation then AReconciliation else AQueued |>
      <| a_owner := None |> <| a_expires := None |>) db in
  let db := set_node_status now node
    (if requires_reconciliation then NReconciliation else NQueued) db in
  let db :=
    if requires_reconciliation then
      update_builds (is_row build)
        (fun b => b <| b_status := BReconciliation |> <| b_completed_at := None |>) db
    else
      update_builds (fun id b => String.eqb id build && bool_decide (b_status b = BRunning)
                                 && bool_decide (b_cancelled_at b = None))
        (fun b => b <| b_status := BQueued |>) db in
  append_event_and_outbox build
    (if requires_reconciliation then "attempt.lease_expired_reconciliation_required"
     else "attempt.lease_expired")
    (VObject [("attempt_id", VString attempt); ("confirmed_effects", json_z confirmed);
              ("fence", json_z (a_fence a)); ("node_id", VString node);
              ("uncertain_effects", json_z uncertain)]) db.

(** [retry] is the identifier an aborted DAG node's advancement would draw. *)
Definition requeue_one_expired (now : Z) (locked : Uuid -> bool) (retry : Uuid) (db : Db) : tx bool :=
  match first_row expires_before (expired_rows now locked db) with
  | None => Ok (false, db)
  | Some (attempt, _) =>
      match attempt_rows db attempt with
      | None => Err Database
      | Some (a, n, b) =>
          let build := n_build n in
          let node := a_node a in
          let cancellation_requested := node_cancelled n || bool_decide (b_cancelled_at b ≠ None) in
          enabled ← pipeline_enabled db build;
          let protected := List.filter (protected_effect attempt (a_fence a)) (effects db) in
          let uncertain := llen (List.filter
            (fun e => negb (bool_decide (e_status e = EConfirmed))) protected) in
          let requires_reconciliation := negb (llen protected =? 0)
            || sequential_process_uncertain db attempt a n b in
          let db := update_effects (fun e => protected_effect attempt (a_fence a) e
              && one_status [EPrepared; EApplied] (e_status e))
            (fun e => e <| e_status := EUncertain |>) db in
          if (cancellation_requested || negb enabled) && negb requires_reconciliation
          then abort_expired now retry build node attempt a enabled db
          else Ok (true, release_expired now build node attempt a requires_reconciliation uncertain
                           (llen protected - uncertain) db)
      end
  end.

(** Every poll resolves one expired lease before it claims. *)
Definition reconcile_expired_and_claim_next (now : Z) (locked : Uuid -> bool) (retry : Uuid)
    (req : ClaimRequest) (session : option Z) (db : Db) : tx (option ClaimedAttempt) :=
  requeued ← requeue_one_expired now locked retry db;
  claim_next_with_session now locked req session (snd requeued).

(** ** Diagnostics *)

Definition explain_rows (db : Db) : list (Uuid * Node) :=
  List.filter (fun kn =>
    let '(id, n) := kn in
    match builds db !! n_build n with
    | Some b => schedulable db id n b
    | None => false
    end) (map_to_list (nodes db)).

(** [ORDER BY (required_trust_pool = $2) DESC, priority DESC, queued_at, id]. *)
Definition explain_before (pool : string) (l r : Uuid * Node) : bool :=
  let own (x : Uuid * Node) := String.eqb (n_trust_pool (snd x)) pool in
  (own l && negb (own r))
  || (Bool.eqb (own l) (own r)
      && ((n_priority (snd r) <? n_priority (snd l))
          || ((n_priority (snd l) =? n_priority (snd r))
              && ((n_queued_at (snd l) <? n_queued_at (snd r))
                  || ((n_queued_at (snd l) =? n_queued_at (snd r))
                      && str_ltb (fst l) (fst r)))))).

Definition string_set (l : list string) : bmap () := foldr (fun s m => binsert s tt m) [] l.

Definition explain_wait (db : Db) (offered : list string) (pool : string) :
    result StoreError WaitReason :=
  check (is_empty (trim pool) || negb (String.eqb (trim pool) pool)) InvalidTrustPool ;;
  Ok (if existsb (fun kn => covers offered (n_capabilities (snd kn))
                            && String.eqb (n_trust_pool (snd kn)) pool) (explain_rows db)
      then WaitReady
      else match first_row (explain_before pool) (explain_rows db) with
           | None => NoQueuedWork
           | Some (_, n) =>
               if negb (String.eqb (n_trust_pool n) pool)
               then TrustPoolMismatch (n_trust_pool n) pool
               else CapabilityMismatch (string_set (n_capabilities n))
                      (List.filter (fun kv => negb (bool_decide (fst kv ∈ offered)))
                         (string_set (n_capabilities n)))
           end).

End Scheduler.
