(* ===== verification/Attempts.v ===== *)
(** * Attempts: running, finishing, cancelling, retrying and restoring

    The transactions of [controller-store/src/lib.rs] that move attempts, nodes
    and builds: a single-node admission, the start of a process, the publication
    of a terminal outcome by the lease owner, recovery after an agent reconnects,
    cancellation by an owner and its acknowledgement by an agent, an operator's
    reconciliation and retry, and the activation of a restored backup. Identifiers
    that [Uuid::new_v4] draws are arguments. *)

From stdpp Require Import base gmap sets list strings pretty.
From Stdlib Require Import ZArith Lia.
From S2P Require Import Prelude Text Bytes Domain DagContract StoreTables WorkspaceStore.
From S2P Require Import DagRuntime Scheduler.

Open Scope Z_scope.

(** ** Data *)

Inductive AgentCancellationOutcome : Type :=
| Terminated | AlreadyExited | IdentityMismatch | ReconciliationRequired.
#[export] Instance AgentCancellationOutcome_eq_dec : EqDecision AgentCancellationOutcome.
Proof. solve_decision. Defined.

Inductive AgentCancellationDisposition : Type :=
| CompletedCancellation | RetireStale | StillReconciling | DischargeRecovered.

Inductive CancellationDecision : Type :=
| CancellationAccepted | AlreadyRequested | NotCancellable (status : option BuildStatus).

Inductive RetryDecision : Type :=
| Scheduled (attempt : Uuid) (ordinal : Z) (created : bool) | DeadLettered | Ineligible.

Record NewBuild := {
  nb_project : Uuid;
  nb_pipeline : Uuid;
  nb_revision : Z;
  nb_generation : Z;
  nb_key : string;
  nb_digest : string;
  nb_priority : Z;
  nb_node_key : string;
  nb_capabilities : list string;
  nb_trust_pool : string;
  nb_spec : Value
}.

Record BuildAdmission := {
  ba_build : Uuid; ba_node : Uuid; ba_attempt : Uuid; ba_created : bool }.

Section Attempts.
Context `{PG : Postgres} `{DX : DagExternal} `{WT : WorkspaceTransfer}.

(** ** Running and finishing *)

Definition mark_attempt_running_with_session (now : Z) (attempt : Uuid) (fence epoch : Z)
    (agent : string) (session : option Z) (db : Db) : tx bool :=
  current ← in_session db agent session;
  if negb current then Ok (false, db)
  else match a ← attempts db !! attempt; n ← nodes db !! a_node a; Some (a, n) with
  | None => Ok (false, db)
  | Some (a, n) =>
      if negb (current_authority db agent fence epoch a && lease_live now a
               && one_status [AAccepted; ARunning] (a_status a))
      then Ok (false, db)
      else
        enabled ← pipeline_enabled db (n_build n);
        if negb enabled then Ok (false, db)
        else if bool_decide (a_status a = ARunning) then Ok (true, db)
        else
          let db := set_attempt attempt (fun a => a <| a_status := ARunning |>) db in
          let db := update_nodes now (fun id n => String.eqb id (a_node a)
              && one_status [NOffered; NRunning] (n_status n))
            (fun n => n <| n_status := NRunning |>) db in
          Ok (true, append_event_and_outbox (n_build n) "attempt.running"
                      (VObject [("attempt_id", VString attempt); ("fence", json_z fence);
                                ("node_id", VString (a_node a));
                                ("restore_epoch", json_z epoch)]) db)
  end.

(** The summary of a publication that a cancellation replaced. *)
Definition substituted_summary (outcome : TerminalOutcome) (summary : Value) : Value :=
  VObject [("reason", VString "cancelled_before_terminal_publication");
           ("requested_outcome", VString (outcome_str outcome));
           ("requested_summary", summary)].

(** A retry of a publication that cancellation has already substituted. *)
Definition is_substitution (stored : Value) (outcome : TerminalOutcome) (summary : Value) : bool :=
  option_eqb String.eqb (field stored "reason" ≫= as_str)
    (Some "cancelled_before_terminal_publication"%string)
  && option_eqb String.eqb (field stored "requested_outcome" ≫= as_str)
       (Some (outcome_str outcome))
  && option_eqb value_eqb (field stored "requested_summary") (Some summary).

(** The answer to a publication when the attempt is already terminal. *)
Definition replayed_publication (a : Attempt) (outcome : TerminalOutcome) (summary : Value)
    (cancellation_aborts : bool) : option TerminalOutcome :=
  let substituted := cancellation_aborts && bool_decide (a_status a = AAborted)
    && match a_summary a with
       | Some stored => is_substitution stored outcome summary
       | None => false
       end in
  if substituted then Some OAborted
  else if bool_decide (a_status a = outcome_attempt outcome)
          && option_eqb value_eqb (a_summary a) (Some summary)
  then Some outcome else None.

Definition unsettled_effect (attempt : Uuid) (fence : option Z) (e : Effect) : bool :=
  String.eqb (e_attempt e) attempt
  && match fence with Some f => e_fence e =? f | None => true end
  && one_status [EUncertain; EReleasePending] (e_status e).

Definition absent {A} (o : option A) : bool := match o with Some _ => false | None => true end.

(** A controller effect whose evidence does not support the outcome. *)
Definition incomplete_effect (attempt : Uuid) (fence : option Z) (outcome : TerminalOutcome)
    (e : Effect) : bool :=
  String.eqb (e_attempt e) attempt
  && match fence with Some f => e_fence e =? f | None => true end
  && controller_prepared e
  && (if bool_decide (e_status e = EAbandoned) then bool_decide (outcome = OSucceeded)
      else negb (bool_decide (e_status e = EConfirmed))
           || absent (e_outcome e)
           || absent (e_observation e)
           || absent (e_shadow_replay e)
           || (match e_outcome e with
               | Some r => option_eqb String.eqb (field_text r "status") (Some "ambiguous"%string)
               | None => false
               end
               && absent (e_reconciliation e))).

(** Park an attempt, its node and its build for reconciliation. *)
Definition park (now : Z) (build node attempt : Uuid) (keep_owner : bool) (db : Db) : Db :=
  let db := set_attempt attempt (fun a =>
    a <| a_status := AReconciliation |>
      <| a_owner := if keep_owner then a_owner a else None |> <| a_expires := None |>) db in
  let db := set_node_status now node NReconciliation db in
  update_builds (is_row build)
    (fun b => b <| b_status := BReconciliation |> <| b_completed_at := None |>) db.

(** The rows of a committed publication. *)
Definition publish (now : Z) (retry build node attempt : Uuid) (agent : string)
    (outcome : TerminalOutcome) (summary : Value) (db : Db) : result StoreError Db :=
  let db := set_attempt attempt (fun a =>
    a <| a_status := outcome_attempt outcome |> <| a_summary := Some summary |>
      <| a_completed_at := Some now |> <| a_expires := None |>) db in
  db ← (if bool_decide (outcome = OSucceeded) then record_successful_agent build agent node db
        else Ok db);
  advance_or_settle now retry build node attempt outcome db.

(** [Ok (Some o, _)] is a publication under outcome [o]. *)
Definition finalize_attempt_with_session (now : Z) (retry attempt : Uuid) (fence epoch : Z)
    (agent : string) (session : option Z) (outcome : TerminalOutcome) (summary : Value)
    (cancellation_aborts : bool) (db : Db) : tx (option TerminalOutcome) :=
  normalized ← normalize summary;
  let '(summary, workspace_result) := normalized in
  current ← in_session db agent session;
  if negb current then Ok (None, db)
  else match attempts db !! attempt with
  | None => Ok (None, db)
  | Some a =>
    if negb (current_authority db agent fence epoch a) then Ok (None, db)
    else if terminal_attempt (a_status a)
    then Ok (replayed_publication a outcome summary cancellation_aborts, db)
    else match attempt_rows db attempt with
    | None => Ok (None, db)
    | Some (_, n, b) =>
      if negb (lease_live now a && working (a_status a)) then Ok (None, db)
      else
        let cancelling := bool_decide (a_status a = ACancelling) || node_cancelled n in
        let substitute := cancellation_aborts && cancelling in
        let published := if substitute then OAborted else outcome in
        let stored := if substitute then substituted_summary outcome summary else summary in
        let build := n_build n in
        let node := a_node a in
        let uncertain :=
          llen (List.filter (unsettled_effect attempt (Some fence)) (effects db)) in
        if 0 <? uncertain then
          Ok (None, append_event_and_outbox build "attempt.terminal_reconciliation_required"
                      (VObject [("agent_id", VString agent);
                                ("attempt_id", VString attempt);
                                ("attempted_outcome", VString (outcome_str published));
                                ("fence", json_z fence);
                                ("node_id", VString node);
                                ("restore_epoch", json_z epoch);
                                ("uncertain_effects", json_z uncertain)])
                      (park now build node attempt false db))
        else if existsb (incomplete_effect attempt (Some fence) published) (effects db)
        then Ok (None, db)
        else
          b' ← commit build b workspace_result published;
          db ← publish now retry build node attempt agent published stored
            (db <| builds := <[build := b']> (builds db) |>);
          Ok (Some published,
              append_event_and_outbox build "attempt.terminal"
                (VObject [("attempt_id", VString attempt); ("fence", json_z fence);
                          ("outcome", VString (outcome_str published));
                          ("restore_epoch", json_z epoch)]) db)
    end
  end.

(** ** Recovery after a reconnect *)

Definition recoverable_finalization_status (s : AttemptStatus) : bool :=
  one_status [ARunning; AFinalizing; ACancelling] s.

(** [local_phase] is the phase the agent journalled. *)
Definition recover_agent_finalization_with_session (now : Z) (attempt : Uuid) (fence epoch : Z)
    (agent : string) (session : option Z) (local_phase : string) (lease_seconds : Z) (db : Db) :
    tx bool :=
  let phase := if String.eqb local_phase "finalizing" then Some AFinalizing
               else if String.eqb local_phase "cancelling" then Some ACancelling else None in
  match phase with
  | None => Ok (false, db)
  | Some phase =>
    if lease_seconds <=? 0 then Ok (false, db)
    else
      current ← in_session db agent session;
      if negb current then Ok (false, db)
      else match attempts db !! attempt with
      | None => Ok (false, db)
      | Some a =>
          if negb (current_authority db agent fence epoch a) then Ok (false, db)
          else if recoverable_finalization_status (a_status a)
          then Ok (true, set_attempt attempt (fun a =>
                   a <| a_status := phase |>
                     <| a_expires := Some (now + seconds lease_seconds) |>) db)
          else Ok (terminal_attempt (a_status a), db)
      end
  end.

Definition record_recovered_discharge (attempt : Uuid) (fence : Z) (agent reason : string)
    (db : Db) : Db :=
  match a ← attempts db !! attempt; n ← nodes db !! a_node a; Some n with
  | None => db
  | Some n =>
      if existsb (fun e =>
           String.eqb (ev_build e) (n_build n)
           && String.eqb (ev_kind e) "attempt.recovered_discharge_authorized"
           && option_eqb String.eqb (field_text (ev_payload e) "attempt_id") (Some attempt)
           && option_eqb String.eqb (field_text (ev_payload e) "fence") (Some (fmt_z fence))
           && option_eqb String.eqb (field_text (ev_payload e) "agent_id") (Some agent)) (events db)
      then db
      else append_event_and_outbox (n_build n) "attempt.recovered_discharge_authorized"
             (VObject [("agent_id", VString agent); ("attempt_id", VString attempt);
                       ("fence", json_z fence); ("reason", VString reason)]) db
  end.

Definition termination_str (o : AgentCancellationOutcome) : string :=
  match o with
  | Terminated => "terminated"
  | AlreadyExited => "already_exited"
  | IdentityMismatch => "identity_mismatch"
  | ReconciliationRequired => "unverifiable"
  end.

(** The reason, the event and the answer of a completed cancellation; [None]
    for the outcome that parks the attempt instead. *)
Definition cancellation_result (recovery : bool) (o : AgentCancellationOutcome) :
    option (string * string * AgentCancellationDisposition) :=
  match o with
  | Terminated =>
      Some (if recovery then "agent_recovery_terminated" else "agent_confirmed_cancellation",
            if recovery then "attempt.recovery_terminated" else "attempt.cancellation_completed",
            CompletedCancellation)%string
  | AlreadyExited =>
      Some (if recovery then "agent_recovery_process_already_exited"
            else "agent_process_already_exited",
            if recovery then "attempt.recovery_process_already_exited"
            else "attempt.cancellation_completed",
            CompletedCancellation)%string
  | IdentityMismatch =>
      Some (if recovery then "agent_recovery_stale_process" else "agent_process_identity_mismatch",
            if recovery then "attempt.recovery_stale_process"
            else "attempt.cancellation_stale_process",
            RetireStale)%string
  | ReconciliationRequired => None
  end.

(** The session pool must be the pool the node requires. *)
Definition cancellation_authority (db : Db) (agent : string) (fence epoch session : Z) (a : Attempt)
    (n : Node) : bool :=
  current_authority db agent fence epoch a
  && match sessions db !! agent with
     | Some s => (s_epoch s =? session) && String.eqb (s_trust_pool s) (n_trust_pool n)
     | None => false
     end
  && one_status [AAccepted; ARunning; ACancelling; AAborted; AReconciliation] (a_status a).

Definition complete_agent_cancellation (now : Z) (retry attempt : Uuid) (fence epoch : Z)
    (agent : string) (session : Z) (outcome : AgentCancellationOutcome) (db : Db) :
    tx AgentCancellationDisposition :=
  let unverifiable := bool_decide (outcome = ReconciliationRequired) in
  let discharge reason := Ok (DischargeRecovered,
                              record_recovered_discharge attempt fence agent reason db) in
  current ← lock_agent_session db agent session;
  if negb current then Ok (RetireStale, db)
  else match attempt_rows db attempt with
  | Some (a, n, b) =>
    if negb (cancellation_authority db agent fence epoch session a n) then
      if unverifiable then discharge "fenced_authority_disowned"%string else Ok (RetireStale, db)
    else if bool_decide (a_status a = AAborted) then
      if unverifiable then discharge "attempt_already_terminal"%string
      else
        let reason := a_summary a ≫= fun s => field s "reason" ≫= as_str in
        Ok (if bool_decide (reason = Some "agent_process_identity_mismatch"%string)
               || bool_decide (reason = Some "agent_recovery_stale_process"%string)
            then RetireStale else CompletedCancellation, db)
    else if bool_decide (a_status a = AReconciliation) then
      if unverifiable
         && exists_row (fun _ o => bool_decide (a_retry_of o = Some attempt)) (attempts db)
      then discharge "operator_retry_superseded"%string
      else Ok (StillReconciling, db)
    else
      let build := n_build n in
      let node := a_node a in
      let uncertain :=
        llen (List.filter (unsettled_effect attempt (Some fence)) (effects db)) in
      if unverifiable || (0 <? uncertain) then
        Ok (StillReconciling,
            append_event_and_outbox build "attempt.cancellation_reconciliation_required"
              (VObject [("agent_id", VString agent); ("attempt_id", VString attempt);
                        ("fence", json_z fence);
                        ("process_termination", VString (termination_str outcome));
                        ("uncertain_effects", json_z uncertain)])
              (park now build node attempt true db))
      else
        let recovery := bool_decide (b_cancelled_at b = None)
          && one_status [AAccepted; ARunning; ACancelling] (a_status a) in
        if bool_decide (b_cancelled_at b = None) && negb recovery then Ok (RetireStale, db)
        else match cancellation_result recovery outcome with
        | None => Err Unfinished
        | Some (reason, kind, disposition) =>
            let db := set_attempt attempt
              (fun a => abort_attempt now reason a <| a_expires := None |>) db in
            db ← advance_or_settle now retry build node attempt OAborted db;
            Ok (disposition,
                append_event_and_outbox build kind
                  (VObject [("agent_id", VString agent); ("attempt_id", VString attempt);
                            ("fence", json_z fence);
                            ("process_termination", VString (termination_str outcome))]) db)
        end
  | None => if unverifiable then discharge "fenced_authority_disowned"%string
            else Ok (RetireStale, db)
  end.

(** ** Cancellation by the owner *)

(** The newest attempt of a build; the rows of [ORDER BY ordinal DESC LIMIT 1]. *)
Definition newest_attempt (db : Db) (build : Uuid) : option (Uuid * Attempt) :=
  first_row (fun l r : Uuid * Attempt => a_ordinal (snd r) <? a_ordinal (snd l))
    (List.filter (fun ka => joined db (in_build build (fun _ => true)) (snd ka))
       (map_to_list (attempts db))).

Definition request_cancellation_decision_as (now : Z) (project build : Uuid) (actor : string)
    (db : Db) : tx CancellationDecision :=
  validate_audit_actor actor ;;
  match builds db !! build with
  | None => Ok (NotCancellable None, db)
  | Some b =>
    if negb (String.eqb (b_project b) project) then Ok (NotCancellable None, db)
    else if absent (b_pipeline b) || absent (b_generation b)
    then Ok (NotCancellable (Some (b_status b)), db)
    else
      truth ← lock_build_pipeline_truth db build;
      let requested := bool_decide (b_cancelled_at b ≠ None) in
      if negb (one_status [BQueued; BRunning] (b_status b)) then
        Ok (if requested && negb (bool_decide (b_status b = BReconciliation))
            then AlreadyRequested else NotCancellable (Some (b_status b)), db)
      else if b_dag_mode b then
        cancelled ← cancel_dag_build now build db;
        let '(done, db') := cancelled in
        if negb done
        then Ok (if requested then AlreadyRequested else NotCancellable (Some (b_status b)), db)
        else Ok (CancellationAccepted,
                 append_event_and_outbox build "build.cancellation_requested"
                   (VObject [("dag", VBool true)]) db')
      else match newest_attempt db build with
      | None => Ok (NotCancellable (Some (b_status b)), db)
      | Some (attempt, a) =>
        if requested then Ok (AlreadyRequested, db)
        else
          let queued := bool_decide (b_status b = BQueued) in
          let db :=
            if queued then
              let db := update_attempts (fun id a => String.eqb id attempt
                  && bool_decide (a_status a = AQueued))
                (abort_attempt now "cancelled_before_execution") db in
              let db := update_nodes now (fun id n => String.eqb id (a_node a)
                  && bool_decide (n_status n = NQueued))
                (fun n => n <| n_status := NAborted |>) db in
              update_builds (is_row build) (fun b =>
                b <| b_status := BAborted |> <| b_cancelled_at := Some now |>
                  <| b_completed_at := Some now |>) db
            else
              let db := update_builds (is_row build)
                (fun b => b <| b_cancelled_at := Some now |>) db in
              update_attempts (fun id a => String.eqb id attempt
                  && one_status [AOffered; AAccepted; ARunning; AFinalizing] (a_status a))
                (fun a => a <| a_status := ACancelling |>) db in
          Ok (CancellationAccepted,
              append_event_and_outbox build "build.cancellation_requested"
                (VObject [("attempt_id", VString attempt); ("node_id", VString (a_node a));
                          ("terminal", VBool queued)]) db)
      end
  end.

(** ** Reconciliation by an operator *)

Definition reconciliation_event (attempt : Uuid) (e : Event) : bool :=
  String.eqb (ev_kind e) "attempt.reconciliation_terminal"
  && option_eqb String.eqb (field_text (ev_payload e) "attempt_id") (Some attempt).

Definition reconciliation_payload (attempt : Uuid) (fence epoch : Z) (actor : string)
    (outcome : TerminalOutcome) (summary : Value) : Value :=
  VObject [("actor", VString actor); ("attempt_id", VString attempt); ("fence", json_z fence);
           ("outcome", VString (outcome_str outcome)); ("restore_epoch", json_z epoch);
           ("summary", summary)].

Definition same_reconciliation (attempt : Uuid) (fence : Z) (actor : string)
    (outcome : TerminalOutcome) (summary : Value) (e : Event) : bool :=
  reconciliation_event attempt e
  && option_eqb String.eqb (field_text (ev_payload e) "fence") (Some (fmt_z fence))
  && option_eqb String.eqb (field_text (ev_payload e) "actor") (Some actor)
  && option_eqb String.eqb (field_text (ev_payload e) "outcome") (Some (outcome_str outcome))
  && option_eqb value_eqb (field (ev_payload e) "summary") (Some summary).

(** A summary that would publish workspace bytes nobody verified. *)
Definition claims_transfer (summary : Value) : bool :=
  negb (absent (field summary "workspace_transfer"))
  || negb (absent (field summary "requested_summary" ≫= fun s => field s "workspace_transfer")).

(** The guard of the [UPDATE attempts ... RETURNING] that settles the attempt. *)
Definition reconcilable (db : Db) (attempt : Uuid) (fence : Z) (outcome : TerminalOutcome)
    (a : Attempt) : bool :=
  (a_fence a =? fence) && bool_decide (a_status a = AReconciliation)
  && bool_decide (a_expires a = None)
  && negb (exists_row (fun _ o => bool_decide (a_retry_of o = Some attempt)) (attempts db))
  && absent (dead_letters db !! attempt)
  && negb (existsb (unsettled_effect attempt None) (effects db))
  && negb (existsb (incomplete_effect attempt None outcome) (effects db)).

Definition finalize_reconciled_attempt (now : Z) (retry attempt : Uuid) (fence : Z) (actor : string)
    (outcome : TerminalOutcome) (summary : Value) (db : Db) : tx bool :=
  if is_empty actor || (256 <? slen actor) then Ok (false, db)
  else
    let rows := attempt_rows db attempt in
    let workspace_mode := match rows with
                          | Some (_, _, b) => negb (absent (b_namespace b)) | None => false end in
    let affinity_work :=
      match a ← attempts db !! attempt; nodes db !! a_node a with
      | Some n => is_work n && wants_affinity n && affinity_layout db (n_build n)
      | None => false
      end in
    let succeeded := bool_decide (outcome = OSucceeded) in
    if workspace_mode && (succeeded || claims_transfer summary) then Ok (false, db)
    else if affinity_work && succeeded then Ok (false, db)
    else if existsb (same_reconciliation attempt fence actor outcome summary) (events db)
    then Ok (true, db)
    else match a ← attempts db !! attempt; n ← nodes db !! a_node a; Some (a, n) with
    | None => Ok (false, db)
    | Some (a, n) =>
      if negb (reconcilable db attempt fence outcome a) then Ok (false, db)
      else
        let build := n_build n in
        let db := set_attempt attempt (fun a =>
          a <| a_status := outcome_attempt outcome |> <| a_summary := Some summary |>
            <| a_completed_at := Some now |>) db in
        db ← match a_owner a with
             | Some agent =>
                 if succeeded then record_successful_agent build agent (a_node a) db else Ok db
             | None => Ok db
             end;
        db ← advance_or_settle now retry build (a_node a) attempt outcome db;
        Ok (true, append_event_and_outbox build "attempt.reconciliation_terminal"
                    (reconciliation_payload attempt fence (a_epoch a) actor outcome summary) db)
    end.

(** ** Retries by an operator *)

Definition terminalize_dead_lettered_reconciliation (now : Z) (attempt node build : Uuid)
    (reason : string) (db : Db) : result StoreError Db :=
  match attempts db !! attempt with
  | Some a =>
    if negb (bool_decide (a_status a = AReconciliation)) then Ok db
    else
      let db := set_attempt attempt (fun a =>
        a <| a_status := AFailed |>
          <| a_summary := Some (VObject [("dead_lettered", VBool true); ("reason", VString reason)]) |>
          <| a_completed_at := Some now |>) db in
      let db := set_node_status now node NFailed db in
      let open := match builds db !! build with
                  | Some b => negb (terminal_build (b_status b)) | None => false end in
      let db := update_builds (fun id b => String.eqb id build && negb (terminal_build (b_status b)))
        (fun b => b <| b_status := BFailed |> <| b_completed_at := Some now |>) db in
      if open then record_terminal_notifications now build BFailed db else Ok db
  | None => Ok db
  end.

(** [WITH RECURSIVE descendants]: the nodes reachable from [node] along the
    dependencies; every round but the last adds an identifier of the table. *)
Definition children_of (db : Db) (parents : list Uuid) : list Uuid :=
  omap (fun d => if bool_decide (d_parent d ∈ parents) then Some (d_child d) else None) (deps db).
Fixpoint descendants (fuel : nat) (db : Db) (found : list Uuid) : list Uuid :=
  match fuel with
  | O => found
  | S fuel => descendants fuel db (found ++ children_of db found)
  end.

Definition latest_attempt (db : Db) (node : Uuid) : option (Uuid * Attempt) :=
  first_row (fun l r : Uuid * Attempt => a_ordinal (snd r) <? a_ordinal (snd l))
    (List.filter (fun ka => String.eqb (a_node (snd ka)) node) (map_to_list (attempts db))).

(** The skipped nodes a retry of [node] reopens, with their newest attempt. *)
Definition skipped_nodes (db : Db) (build node : Uuid) : list (Uuid * (Uuid * Attempt)) :=
  let below := descendants (length (deps db)) db (children_of db [node]) in
  let fail_fast_skipped a :=
    bool_decide (a_status a = AAborted)
    && option_eqb String.eqb (a_summary a ≫= fun s => field_text s "reason")
         (Some "fail_fast_skipped"%string) in
  sort_by (fun l r => str_ltb (fst l) (fst r))
    (omap (fun kn =>
       let '(id, n) := kn in
       latest ← latest_attempt db id;
       if of_build build n && bool_decide (n_status n = NSkipped)
          && bool_decide (n_outcome n = Some LSkipped)
          && (bool_decide (id ∈ below) || fail_fast_skipped (snd latest))
       then Some (id, latest) else None) (map_to_list (nodes db))).

Definition has_dependencies (db : Db) (node : Uuid) : bool :=
  existsb (fun d => String.eqb (d_child d) node) (deps db).

(** One round of the loop over the skipped nodes; [ids] draws the identifier. *)
Definition reopen_skipped (now : Z) (ids : Uuid -> Uuid) (db : Db)
    (row : Uuid * (Uuid * Attempt)) : result StoreError Db :=
  let '(node, (previous, a)) := row in
  let waits := has_dependencies db node in
  inserted ← insert_attempt (ids node)
    (queued_attempt now node (a_ordinal a + 1) (Some previous) (restore_epoch db)
       (if waits then None else Some now)) db;
  Ok (update_nodes now (fun id n => String.eqb id node && bool_decide (n_status n = NSkipped)
          && bool_decide (n_outcome n = Some LSkipped))
        (fun n => n <| n_status := if waits then NBlocked else NQueued |>
                    <| n_outcome := None |> <| n_cancelled_at := None |>
                    <| n_queued_at := now |>) (snd inserted)).

(** The retry of a node of a DAG, and of the skipped nodes it reopens. *)
Definition retry_dag_node (now : Z) (child : Uuid) (ids : Uuid -> Uuid) (build node attempt : Uuid)
    (ordinal max_attempts : Z) (db : Db) : result StoreError Db :=
  inserted ← insert_attempt child
    (queued_attempt now node (ordinal + 1) (Some attempt) (restore_epoch db)
       (if ready db node then Some now else None)) db;
  let '(ready_at, db) := inserted in
  let db := update_nodes now (is_row node) (fun n =>
    n <| n_status := if ready_at then NQueued else NBlocked |>
      <| n_outcome := None |> <| n_cancelled_at := None |>
      <| n_max_attempts := Z.max (n_max_attempts n) max_attempts |>
      <| n_queued_at := default (n_queued_at n) ready_at |>) db in
  try_fold (reopen_skipped now ids) db (skipped_nodes db build node).

(** The retry of the one node of a build that is not a DAG. *)
Definition retry_single (now : Z) (child node attempt : Uuid) (ordinal : Z) (db : Db) :
    result StoreError Db :=
  inserted ← insert_attempt child
    (queued_attempt now node (ordinal + 1) (Some attempt) (restore_epoch db) (Some now)) db;
  Ok (update_nodes now (is_row node)
        (fun n => n <| n_status := NQueued |> <| n_queued_at := now |>) (snd inserted)).

(** [json_to_vec] fails on no value of this shape; its digest is not a column of
    the model. *)
Definition dead_letter (now : Z) (attempt node build : Uuid) (ordinal max_attempts : Z)
    (reason : string) (db : Db) : result StoreError Db :=
  let payload := VObject [("attempt_id", VString attempt); ("max_attempts", json_z max_attempts);
                          ("ordinal", json_z ordinal); ("reason", VString reason)] in
  map_err InvalidEffectPayload (json_to_vec payload) ;;
  let db := match dead_letters db !! attempt with
            | Some _ => db
            | None => append_event_and_outbox build "attempt.dead_lettered" payload
                        (db <| dead_letters := <[attempt := payload]> (dead_letters db) |>)
            end in
  terminalize_dead_lettered_reconciliation now attempt node build reason db.

Definition schedule_retry_as (now : Z) (child : Uuid) (ids : Uuid -> Uuid) (attempt : Uuid)
    (max_attempts : Z) (reason actor : string) (db : Db) : tx RetryDecision :=
  if negb ((1 <=? max_attempts) && (max_attempts <=? 16)) || is_empty reason || (1024 <? slen reason)
  then Ok (Ineligible, db)
  else
    validate_audit_actor actor ;;
    match attempt_rows db attempt with
    | None => Ok (Ineligible, db)
    | Some (a, n, b) =>
      let build := n_build n in
      let node := a_node a in
      if negb (absent (b_namespace b)) || bool_decide (b_cancelled_at b ≠ None)
         || existsb (fun e => String.eqb (ev_build e) build && reconciliation_event attempt e)
              (events db)
         || negb (one_status [AFailed; AReconciliation] (a_status a))
      then Ok (Ineligible, db)
      else match first_row (fun l r : Uuid * Attempt => str_ltb (fst l) (fst r))
                   (List.filter (fun ko => bool_decide (a_retry_of (snd ko) = Some attempt))
                      (map_to_list (attempts db))) with
      | Some (existing, o) => Ok (Scheduled existing (a_ordinal o) false, db)
      | None =>
        enabled ← pipeline_enabled db build;
        if negb enabled
           || has_effect attempt (fun e => bool_decide (e_class e = NonIdempotent)) db
        then Ok (Ineligible, db)
        else if negb (absent (dead_letters db !! attempt)) then
          db ← terminalize_dead_lettered_reconciliation now attempt node build reason db;
          Ok (DeadLettered, db)
        else if max_attempts <=? a_ordinal a then
          db ← dead_letter now attempt node build (a_ordinal a) max_attempts reason db;
          Ok (DeadLettered, db)
        else
          db ← (if b_dag_mode b
                then retry_dag_node now child ids build node attempt (a_ordinal a) max_attempts db
                else retry_single now child node attempt (a_ordinal a) db);
          let db := update_builds (is_row build) (fun b =>
            b <| b_status := BQueued |> <| b_completed_at := None |>
              <| b_cancelled_at := None |>) db in
          Ok (Scheduled child (a_ordinal a + 1) true,
              append_event_and_outbox build "attempt.retry_scheduled"
                (VObject [("attempt_id", VString child); ("dag", VBool (b_dag_mode b));
                          ("ordinal", json_z (a_ordinal a + 1)); ("reason", VString reason);
                          ("retry_of", VString attempt)]) db)
      end
    end.

(** ** Restoring a backup *)

(** The rows the loop over the affected attempts updates. *)
Definition restore_attempt (now epoch : Z) (backup lsn : string) (db : Db) (row : Uuid * Attempt) :
    Db :=
  let '(attempt, a) := row in
  match nodes db !! a_node a with
  | None => db
  | Some n =>
      let stale e := String.eqb (e_attempt e) attempt && one_status [EPrepared; EApplied] (e_status e) in
      let uncertain := llen (List.filter stale (effects db)) in
      append_event_and_outbox (n_build n) "attempt.restore_reconciliation_required"
        (VObject [("attempt_id", VString attempt); ("attempt_restore_epoch", json_z (a_epoch a));
                  ("backup_id", VString backup); ("recovery_lsn", VString lsn);
                  ("restore_epoch", json_z epoch); ("uncertain_effects", json_z uncertain)])
        (update_effects stale (fun e => e <| e_status := EUncertain |>)
           (park now (n_build n) (a_node a) attempt false db))
  end.

(** [others] counts the affected attempts of the other tenants. *)
Definition activate_restore_epoch (now others : Z) (backup reason : string) (db : Db) :
    tx (option RestoreEpoch) :=
  check (is_empty backup || (256 <? slen backup) || is_empty reason || (1024 <? slen reason))
    (InvalidRecoveryOperation "backup id and restore reason must be non-empty and bounded") ;;
  match restore_epochs db !! backup with
  | Some existing => Ok (Some existing, db)
  | None =>
    match p ← restore_points db !! backup; lsn ← rp_lsn p; Some (rp_epoch p, lsn) with
    | None => Ok (None, db)
    | Some (point_epoch, lsn) =>
        check (negb (point_epoch =? restore_epoch db))
          (InvalidRecoveryOperation
             ("recovery point belongs to restore epoch " +:+ fmt_z point_epoch
              +:+ ", current epoch is " +:+ fmt_z (restore_epoch db))) ;;
        check (i64_max <? restore_epoch db + 1) (InvalidRecoveryOperation "restore epoch overflow") ;;
        let epoch := restore_epoch db + 1 in
        let affected := sort_by (fun l r => str_ltb (fst l) (fst r))
          (List.filter (fun ka => leased_attempt (a_status (snd ka))
                                  && bool_decide (is_Some (nodes db !! a_node (snd ka))))
             (map_to_list (attempts db))) in
        let row := MkRestoreEpoch epoch lsn reason (llen affected + others) in
        let db := db <| restore_epoch := epoch |>
                     <| restore_epochs := <[backup := row]> (restore_epochs db) |> in
        Ok (Some row, foldl (restore_attempt now epoch backup lsn) db affected)
    end
  end.

(** ** Admission of a single node *)

Definition new_single_build (now : Z) (input : NewBuild) (digest : string) : Build :=
  MkBuild (nb_project input) (Some (nb_pipeline input)) (Some (nb_revision input))
    (Some (nb_generation input)) (Some digest) (nb_key input) (nb_digest input) BQueued
    (nb_priority input) now None None false None (VArray []) None 0 None None false None.

Definition new_single_node (now : Z) (build : Uuid) (input : NewBuild) : Node :=
  MkNode build (nb_node_key input) NQueued (nb_capabilities input) (nb_trust_pool input)
    (nb_priority input) now (nb_spec input) Work false 1 None None.

(** The rows of [existing_admission]: the first attempts of the build's nodes,
    at most two of them. *)
Definition existing_admission (input : NewBuild) (db : Db) : result StoreError (option BuildAdmission) :=
  match find_build db (nb_project input) (nb_key input) with
  | None => Ok None
  | Some (build, b) =>
      match List.filter (fun ka => (a_ordinal (snd ka) =? 1)
                                   && joined db (in_build build (fun _ => true)) (snd ka))
              (map_to_list (attempts db)) with
      | [] => Ok None
      | [(attempt, a)] =>
          match nodes db !! a_node a with
          | None => Err Database
          | Some n =>
              if option_eqb String.eqb (b_pipeline b) (Some (nb_pipeline input))
                 && option_eqb Z.eqb (b_revision b) (Some (nb_revision input))
                 && option_eqb Z.eqb (b_generation b) (Some (nb_generation input))
                 && String.eqb (b_digest b) (nb_digest input)
                 && (b_priority b =? nb_priority input)
                 && negb (b_dag_mode b)
                 && String.eqb (n_key n) (nb_node_key input)
                 && bool_decide (n_capabilities n = nb_capabilities input)
                 && String.eqb (n_trust_pool n) (nb_trust_pool input)
                 && (n_priority n =? nb_priority input)
                 && value_eqb (n_spec n) (nb_spec input)
              then Ok (Some {| ba_build := build; ba_node := a_node a; ba_attempt := attempt;
                               ba_created := false |})
              else Err (IdempotencyConflict
                          "idempotency key already belongs to a different build contract")
          end
      | _ => Err (IdempotencyConflict
                    "idempotent single-node build has a different node contract")
      end
  end.

Definition admit_build (now : Z) (build node attempt : Uuid) (input : NewBuild) (db : Db) :
    tx BuildAdmission :=
  check (is_empty (trim (nb_trust_pool input))
         || negb (String.eqb (trim (nb_trust_pool input)) (nb_trust_pool input)))
    InvalidTrustPool ;;
  existing ← existing_admission input db;
  match existing with
  | Some admission => Ok (admission, db)
  | None =>
      digest ← lock_enabled_pipeline_binding db (nb_project input) (nb_pipeline input)
        (nb_revision input) (nb_generation input);
      match find_build db (nb_project input) (nb_key input) with
      | Some _ => Err IncompleteAdmission
      | None =>
          check (bool_decide (is_Some (builds db !! build))) Database ;;
          let db := db <| builds := <[build := new_single_build now input digest]> (builds db) |> in
          check (bool_decide (is_Some (nodes db !! node))) Database ;;
          let db := db <| nodes := <[node := new_single_node now build input]> (nodes db) |> in
          inserted ← insert_attempt attempt (queued_attempt now node 1 None 1 (Some now)) db;
          Ok ({| ba_build := build; ba_node := node; ba_attempt := attempt; ba_created := true |},
              append_event_and_outbox build "build.admitted"
                (VObject [("attempt_id", VString attempt); ("build_id", VString build);
                          ("node_id", VString node)]) (snd inserted))
      end
  end.

End Attempts.
