(* ===== verification/WorkspaceChain.v ===== *)
(** * The chain of workspace checkpoints

    What [commit] publishes is what [validate_history] later accepts: every
    sequence of terminal publications of a build, substituted by a cancellation
    or not, with attempts that end without a transfer in between, leaves a build
    row and terminal summaries that agree. *)

From stdpp Require Import base gmap sets list strings pretty.
From Stdlib Require Import ZArith Lia.
From S2P Require Import Prelude Text Bytes Domain WorkspaceSnapshot DagContract StoreTables.
From S2P Require Import WorkspaceStore DagRuntime Scheduler Attempts.

Open Scope Z_scope.

(** ** Publishing a sequence of attempts *)

(** An attempt that [finalize_attempt] publishes, as a cancellation substitutes
    it or not, or one that ends in another way under a status and a summary. *)
Inductive Ending : Type :=
| Published (substitute : bool) (outcome : TerminalOutcome) (summary : Value)
| Ended (status : string) (summary : option Value).

Section Chain.
Context `{WT : WorkspaceTransfer}.

Definition ending_step (build : Uuid) (state : Build * list AttemptHistory) (e : Ending) :
    result StoreError (Build * list AttemptHistory) :=
  let '(b, history) := state in
  match e with
  | Published substitute outcome summary =>
      normalize summary ≫= fun '((summary, transfer) : Value * option WorkspaceTransferResult) =>
      let published := if substitute then OAborted else outcome in
      let stored := if substitute then substituted_summary outcome summary else summary in
      b ← commit build b transfer published;
      Ok (b, history ++ [{| ah_status := outcome_str published; ah_summary := Some stored |}])
  | Ended status summary =>
      Ok (b, history ++ [{| ah_status := status; ah_summary := summary |}])
  end.

(** A summary that hides no transfer where a substitution would keep one, and an
    ending that claims neither success nor a transfer. *)
Definition plain_ending (e : Ending) : Prop :=
  match e with
  | Published substitute _ summary =>
      substitute = false -> (v ← field summary "requested_summary"; field v "workspace_transfer") = None
  | Ended status summary => status <> "succeeded" /\ (s ← summary; terminal_value s) = None
  end.

Definition history_of (build : Uuid) (b : Build) (history : list AttemptHistory) : BuildHistory :=
  {| bh_build := build; bh_namespace := b_namespace b; bh_generation := b_ws_generation b;
     bh_receipt := b_receipt b; bh_attempts := history |}.

(** ** Taking the operations apart *)

Lemma bget_binsert_same {V} k (v : V) m : bget k (binsert k v m) = Some v.
Proof.
  induction m as [|[a b] m IH]; cbn; [by rewrite String.eqb_refl|].
  destruct (String.eqb_spec a k) as [->|Hne]; [cbn; by rewrite String.eqb_refl|].
  destruct (str_ltb k a); cbn; [by rewrite String.eqb_refl|].
  by rewrite (proj2 (String.eqb_neq _ _)).
Qed.

Lemma invalid_workspace_ok {A} (r : result WorkspaceError A) a : invalid_workspace r = Ok a <-> r = Ok a.
Proof. apply map_err_ok. Qed.
Lemma invalid_json_ok {A} (r : result string A) a : invalid_json r = Ok a <-> r = Ok a.
Proof. apply map_err_ok. Qed.

(** The receipt a transfer leaves, and its value. *)
Definition leaves (t : WorkspaceTransferResult) (r : option WorkspaceSnapshotReceipt)
    (rv : option Value) : Prop :=
  match tr_snapshot t with
  | None => r = None /\ rv = None
  | Some s => exists r0 v, snapshot_receipt s = Ok r0 /\ receipt_to_value r0 = Ok v /\
      r = Some r0 /\ rv = Some v
  end.

Lemma normalize_ok summary summary' transfer :
  normalize summary = Ok (summary', transfer) ->
  match transfer with
  | None => summary' = summary /\ field summary "workspace_transfer" = None
  | Some t => validate_transfer t = Ok tt /\ exists r rv, leaves t r rv /\
      field summary' "workspace_transfer" = Some (normalized_transfer t rv)
  end.
Proof.
  unfold normalize. intros H. destruct summary as [| | | | |m]; try by (injection H as <- <-).
  destruct (bget "workspace_transfer" m) as [v|] eqn:E; [|injection H as <- <-; split; [done|exact E]].
  apply bind_ok in H as (t & _ & H). apply seq_ok in H as [Hv%invalid_workspace_ok H].
  apply bind_ok in H as (rv & Hr & [= <- <-]). split; [done|]. unfold leaves.
  destruct (tr_snapshot t) as [s|].
  - apply bind_ok in Hr as (r0 & Hr0%invalid_workspace_ok & Hr).
    apply bind_ok in Hr as (v0 & Hv0%invalid_json_ok & [= <-]).
    exists (Some r0), (Some v0). split; [by exists r0, v0|]. apply bget_binsert_same.
  - injection Hr as <-. exists None, None. split; [done|]. apply bget_binsert_same.
Qed.

Lemma validate_transfer_ok t :
  validate_transfer t = Ok tt ->
  tr_version t = 1 /\
  match tr_snapshot t with
  | Some s => tr_error t = None
  | None => exists e, tr_error t = Some e /\ is_empty e = false /\ slen e <= 1024
  end.
Proof.
  unfold validate_transfer, validate_identity. intros H. apply seq_ok in H as [Hi H].
  apply guard_ok in Hi as [Hi _]. bool_prop. split; [done|]. apply seq_ok in H as [H _].
  destruct (tr_snapshot t), (tr_error t) as [e|]; try done.
  apply check_ok in H. bool_prop. eauto.
Qed.

Lemma grant_ok build ns generation snapshot closed receipt steps g :
  grant build (Some ns) generation snapshot closed receipt steps = Ok (Some g) ->
  closed = false /\ gr_generation g = generation /\
  exists v s, snapshot = Some v /\ snapshot_from_value v = Ok s /\ gr_snapshot g = s /\
    snapshot_digest s = Ok (gr_digest g) /\
    is_ok (validate_checkpoint generation (Some s) receipt false steps) = true.
Proof.
  unfold grant. intros H. apply guard_ok in H as [-> H]. apply bind_ok in H as (v & Hv & H).
  apply bind_ok in H as (s & Hs%invalid_json_ok & H). apply bind_ok in H as (r & Hr & H).
  apply bind_ok in H as (d & Hd%invalid_workspace_ok & H). apply seq_ok in H as [_ [= <-]].
  destruct snapshot as [v0|]; [|done]. injection Hv as ->. split; [done|]. split; [done|].
  exists v, s. by rewrite Hr.
Qed.

(** What [commit] has checked, and the row it leaves. *)
Record committed_row (build ns : Uuid) (b : Build) (transfer : option WorkspaceTransferResult)
    (outcome : TerminalOutcome) (b' : Build) (v : Value) (s : WorkspaceSnapshot) (d : string) : Prop := {
  cr_open : b_closed b = false;
  cr_value : b_snapshot b = Some v;
  cr_snapshot : snapshot_from_value v = Ok s;
  cr_digest : snapshot_digest s = Ok d;
  cr_checked : exists n, step_count b = Ok n /\
    is_ok (validate_checkpoint (b_ws_generation b) (Some s) (b_receipt b) false n) = true;
  cr_transfer t : transfer = Some t ->
    tr_organization t = organization /\ tr_build t = build /\ tr_namespace t = ns /\
    tr_generation t = b_ws_generation b /\ tr_input_digest t = d;
  cr_row : match t ← transfer; tr_snapshot t with
    | Some s' => exists r sv rv, snapshot_receipt s' = Ok r /\ snapshot_to_value s' = Ok sv /\
        receipt_to_value r = Ok rv /\
        b' = b <| b_ws_generation := b_ws_generation b + 1 |> <| b_snapshot := Some sv |>
               <| b_receipt := Some rv |>
    | None => b' = b /\ outcome <> OSucceeded
    end
}.

Lemma commit_ok build ns b transfer outcome b' :
  b_namespace b = Some ns -> commit build b transfer outcome = Ok b' ->
  exists v s d, committed_row build ns b transfer outcome b' v s d.
Proof.
  intros Hns H. unfold commit in H. rewrite Hns in H. apply bind_ok in H as (n & Hn & H).
  apply bind_ok in H as (g & Hg & H). apply bind_ok in H as (c & Hc & H).
  destruct g as [g|]; [|done]. injection Hc as <-.
  apply grant_ok in Hg as (Ho & Hgen & v & s & Hv & Hs & _ & Hd & Hchk).
  exists v, s, (gr_digest g). destruct transfer as [t|].
  - apply guard_ok in H as [Ht H]. bool_prop. split; eauto.
    + intros ? [= <-]. split_and!; congruence.
    + cbn. destruct (tr_snapshot t) as [s'|].
      * apply bind_ok in H as (r & Hr%invalid_workspace_ok & H).
        apply bind_ok in H as (sv & Hsv%invalid_json_ok & H).
        apply bind_ok in H as (rv & Hrv%invalid_json_ok & [= <-]). eauto 10.
      * apply guard_ok in H as [Hne [= <-]]. by apply bool_decide_eq_false in Hne.
  - apply guard_ok in H as [Hne [= <-]]. apply bool_decide_eq_false in Hne. split; eauto; done.
Qed.

(** ** The chain and the row *)

Record tied (b : Build) (c : Chain) : Prop := {
  ti_generation : ch_generation c = b_ws_generation b;
  ti_digest : exists v s, b_snapshot b = Some v /\ snapshot_from_value v = Ok s /\
    snapshot_digest s = Ok (ch_digest c);
  ti_last : match b_receipt b with
            | None => ch_last c = None
            | Some rv => exists r, receipt_from_value rv = Ok r /\ ch_last c = Some r
            end
}.

Context {LT : WorkspaceTransferLaws WT}.

Lemma empty_valid : valid_snapshot empty_snapshot.
Proof using LT.
  destruct empty_to_vec as (bytes & Eb & Hb).
  split; cbn; [done|done|constructor|constructor|by intros ? ? ? ?%elem_of_nil|done|eauto].
Qed.

Lemma outcome_known o : existsb (String.eqb (outcome_str o)) ["succeeded"; "failed"; "aborted"] = true.
Proof. by destruct o. Qed.

Lemma outcome_succeeded o : String.eqb (outcome_str o) "succeeded" = bool_decide (o = OSucceeded).
Proof. by destruct o. Qed.

Lemma stored_value substitute outcome summary summary' transfer :
  plain_ending (Published substitute outcome summary) -> normalize summary = Ok (summary', transfer) ->
  terminal_value (if substitute then substituted_summary outcome summary' else summary') =
  match transfer with None => None | Some _ => field summary' "workspace_transfer" end.
Proof.
  intros Hp H%normalize_ok. unfold terminal_value. destruct transfer as [t|].
  - destruct H as (_ & r & rv & _ & Hf). rewrite Hf. destruct substitute; cbn; [|by rewrite Hf].
    unfold field in Hf at 1. by destruct summary'; try discriminate Hf.
  - destruct H as [-> Hf]. destruct substitute; cbn; [by destruct summary|]. rewrite Hf. by apply Hp.
Qed.

Lemma published_tied build ns b c substitute outcome summary b' history history' :
  b_namespace b = Some ns -> tied b c -> plain_ending (Published substitute outcome summary) ->
  ending_step build (b, history) (Published substitute outcome summary) = Ok (b', history') ->
  exists a c', history' = history ++ [a] /\ chain_attempt build ns c a = Ok c' /\ tied b' c' /\
    b_namespace b' = Some ns.
Proof.
  intros Hns [Tg (v0 & s0 & Hv0 & Hs0 & Td) Tl] Hp H. unfold ending_step in H.
  apply bind_ok in H as ([summary' transfer] & Hn & H). apply bind_ok in H as (b1 & Hc & [= <- <-]).
  set (published := if substitute then OAborted else outcome) in *.
  set (stored := if substitute then substituted_summary outcome summary' else summary') in *.
  exists {| ah_status := outcome_str published; ah_summary := Some stored |}.
  enough (exists c', chain_attempt build ns c
    {| ah_status := outcome_str published; ah_summary := Some stored |} = Ok c' /\ tied b1 c' /\
    b_namespace b1 = Some ns) as (c' & ?) by (by exists c').
  apply (commit_ok build ns) in Hc as (v & s & d & [Ho Hv Hs Hd _ Ht Hr]); [|done].
  assert (d = ch_digest c) as -> by congruence.
  unfold chain_attempt. cbn [ah_summary ah_status mbind option_bind].
  unfold stored. rewrite (stored_value _ _ _ _ _ Hp Hn). apply normalize_ok in Hn. destruct transfer as [t|].
  - destruct Hn as (Vt & r & rv & Hl & ->). apply validate_transfer_ok in Vt as [V1 Verr].
    destruct (Ht t eq_refl) as (E1 & E2 & E3 & E4 & E5). unfold leaves in Hl. cbn in Hr.
    rewrite (terminal_value_read t r rv).
    2: { destruct (tr_snapshot t); [destruct Hl as (? & ? & ? & ? & -> & ->); cbn; congruence|].
         by destruct Hl as [-> ->]. }
    cbn [invalid_json map_err mbind result_bind te_version te_organization te_build te_namespace
      te_generation te_input_digest te_receipt te_error ah_status]. rewrite V1, E1, E2, E3, E4, E5, Tg, outcome_known, !String.eqb_refl, !Z.eqb_refl. cbn.
    destruct (tr_snapshot t) as [s'|].
    + destruct Hl as (r0 & v' & Hr0 & Hv' & -> & ->). rewrite Verr.
      rewrite (receipt_of_valid s' r0 Hr0). cbn.
      destruct Hr as (r1 & sv & rv1 & Hr1 & Hsv & Hrv & ->). eexists. split; [done|].
      assert (r1 = r0) as -> by congruence. apply snapshot_receipt_ok in Hr0 as (d' & Hd' & ->).
      split; [|by destruct b]. split; cbn; [lia| |].
      * exists sv, s'. split; [done|]. split; [by apply snapshot_value|done].
      * eexists. split; [by apply receipt_value|done].
    + destruct Hl as [-> ->], Verr as (e & -> & -> & Hlen), Hr as [-> Hne].
      rewrite (proj2 (Z.ltb_ge _ _)) by done. rewrite outcome_succeeded, bool_decide_eq_false_2 by done.
      cbn. eexists. split; [done|]. split; [|done]. split; eauto.
  - cbn in Hr. destruct Hr as [-> Hne]. rewrite outcome_succeeded, bool_decide_eq_false_2 by done. cbn.
    eexists. split; [done|]. split; [|done]. split; eauto.
Qed.

Lemma endings_tied build ns b c history endings b' history' c0 :
  b_namespace b = Some ns -> tied b c -> Forall plain_ending endings ->
  try_fold (chain_attempt build ns) c0 history = Ok c ->
  try_fold (ending_step build) (b, history) endings = Ok (b', history') ->
  exists c', try_fold (chain_attempt build ns) c0 history' = Ok c' /\ tied b' c' /\
    b_namespace b' = Some ns.
Proof.
  revert b c history. induction endings as [|e endings IH]; intros b c history Hns T Hp Hc H.
  { injection H as <- <-. by exists c. }
  apply Forall_cons in Hp as [Hp Hps]. cbn [try_fold] in H. apply bind_ok in H as ([b1 h1] & He & H).
  assert (exists a c1, h1 = history ++ [a] /\ chain_attempt build ns c a = Ok c1 /\ tied b1 c1 /\
    b_namespace b1 = Some ns) as (a & c1 & -> & Ha & T1 & Hns1).
  { destruct e as [substitute outcome summary|status summary]; [by eapply published_tied|].
    injection He as <- <-. destruct Hp as [Hne Hnone]. eexists _, c. split; [done|].
    unfold chain_attempt. cbn [ah_summary ah_status]. rewrite Hnone.
    by rewrite (proj2 (String.eqb_neq _ _)). }
  eapply (IH b1 c1); [done..| |done]. rewrite try_fold_app, Hc. cbn. by rewrite Ha.
Qed.

(** C12. The checkpoint chain. From an opened workspace, a sequence of plain
    endings that the store commits leaves terminal summaries and a build row that
    [validate_history] accepts: the generation counts the published snapshots,
    each receipt names the digest of the checkpoint it started from, and the row
    holds the last receipt. An ending is plain if it is a published summary, as
    sent or substituted by a cancellation, that the agent sent without a
    [workspace_transfer] nested below [requested_summary], or an ending without
    publication that claims neither success nor a transfer. The condition on the
    nested value is needed: the store commits such a summary, and the history no
    longer validates. *)
Theorem committed_history_valid build namespace (row b0 b : Build) endings history :
  b_namespace row = None -> b_ws_generation row = 0 -> b_receipt row = None ->
  initialize namespace row = Ok b0 -> Forall plain_ending endings ->
  try_fold (ending_step build) (b0, []) endings = Ok (b, history) ->
  validate_history (history_of build b history) = Ok tt.
Proof.
  intros Hns Hg Hr Hi Hp H. unfold initialize in Hi. apply bind_ok in Hi as (v & Hv%invalid_json_ok & Hi).
  rewrite Hns in Hi. injection Hi as <-.
  destruct (snapshot_digest_total empty_snapshot empty_valid) as [d Hd].
  set (c0 := {| ch_generation := 0; ch_digest := d; ch_last := None |}).
  destruct (endings_tied build namespace (row <| b_namespace := Some namespace |>
    <| b_snapshot := Some v |>) c0 [] endings b history c0) as (c & Hc & [Tg _ Tl] & Hn); [done| |done..|].
  { split; [done| |cbn; by rewrite Hr]. exists v, empty_snapshot.
    split; [done|]. split; [by apply snapshot_value|done]. }
  unfold validate_history, history_of. cbn [bh_namespace bh_build bh_attempts bh_receipt bh_generation].
  rewrite Hn. apply bind_ok. exists d. split; [by apply invalid_workspace_ok|].
  apply bind_ok. exists c. split; [exact Hc|]. apply bind_ok. exists (ch_last c).
  rewrite check_ok, Tg, Z.eqb_refl, bool_decide_eq_true_2 by done. split; [|done].
  destruct (b_receipt b) as [rv|]; [|by rewrite Tl]. by destruct Tl as (r & -> & ->).
Qed.

End Chain.
