(* ===== verification/Lifecycle.v ===== *)
(** * The life of builds: histories of transactions

    The transactions of DagRuntime, Sequential, Scheduler and Attempts as one type of
    operations, and the histories they make from a store without builds. A step
    is a transaction that commits, at any instant, with any arguments; one that
    fails or rolls back leaves the state alone. Transactions outside the model
    (pipelines, sessions, effects, notifications, logs) may change their own
    tables between any two steps. The second half follows the rows of one
    attempt through a step: [may] says for which causes each operation
    may change a row, and [moves] that rows change for such causes only. *)

From stdpp Require Import base gmap sets list strings pretty relations.
From Stdlib Require Import ZArith Lia.
From S2P Require Import Prelude Text Bytes Domain DagContract StoreTables DagRuntime Scheduler.
From S2P Require Import WorkspaceStore Sequential.
From S2P Require Import Attempts.

Open Scope Z_scope.

Section Lifecycle.
Context `{PG : Postgres} `{DX : DagExternal} `{WT : WorkspaceTransfer}.

(** ** Histories *)

Inductive operation : Type :=
| AdmitDag (build : Uuid) (ids : nat -> Uuid * Uuid) (input : NewDagBuild) (contract : Value)
    (sequential : bool)
| AdmitSequential (build : Uuid) (ids : nat -> Uuid * Uuid) (namespace : Uuid)
    (input : SequentialDagBuild)
| AdmitBuild (build node attempt : Uuid) (input : NewBuild)
| Claim (locked : Uuid -> bool) (req : ClaimRequest) (session : option Z)
| Accept (attempt : Uuid) (fence epoch : Z) (agent : string) (session : option Z)
| Renew (attempt : Uuid) (fence epoch : Z) (agent : string) (session : option Z) (lease : Z)
| Expire (locked : Uuid -> bool) (retry : Uuid)
| Run (attempt : Uuid) (fence epoch : Z) (agent : string) (session : option Z)
| Finalize (retry attempt : Uuid) (fence epoch : Z) (agent : string) (session : option Z)
    (outcome : TerminalOutcome) (summary : Value) (cancellation_aborts : bool)
| Recover (attempt : Uuid) (fence epoch : Z) (agent : string) (session : option Z)
    (local_phase : string) (lease : Z)
| CompleteCancellation (retry attempt : Uuid) (fence epoch : Z) (agent : string) (session : Z)
    (outcome : AgentCancellationOutcome)
| Cancel (project build : Uuid) (actor : string)
| Reconcile (retry attempt : Uuid) (fence : Z) (actor : string) (outcome : TerminalOutcome)
    (summary : Value)
| Retry (child : Uuid) (ids : Uuid -> Uuid) (attempt : Uuid) (max_attempts : Z)
    (reason actor : string)
| Restore (others : Z) (backup reason : string).

(** The state a transaction commits. *)
Definition committed {A} (r : tx A) : option Db :=
  match r with Ok (_, db) => Some db | Err _ => None end.

Definition perform (now : Z) (op : operation) (db : Db) : option Db :=
  match op with
  | AdmitDag build ids input contract sequential =>
      committed (admit_dag_contract_transaction now build ids input contract sequential db)
  | AdmitSequential build ids namespace input =>
      committed (admit_sequential_dag now build ids namespace input db)
  | AdmitBuild build node attempt input => committed (admit_build now build node attempt input db)
  | Claim locked req session => committed (claim_next_with_session now locked req session db)
  | Accept attempt fence epoch agent session =>
      committed (accept_offer_with_session now attempt fence epoch agent session db)
  | Renew attempt fence epoch agent session lease =>
      committed (renew_attempt_lease_with_session now attempt fence epoch agent session lease db)
  | Expire locked retry => committed (requeue_one_expired now locked retry db)
  | Run attempt fence epoch agent session =>
      committed (mark_attempt_running_with_session now attempt fence epoch agent session db)
  | Finalize retry attempt fence epoch agent session outcome summary aware =>
      committed (finalize_attempt_with_session now retry attempt fence epoch agent session outcome
        summary aware db)
  | Recover attempt fence epoch agent session local_phase lease =>
      committed (recover_agent_finalization_with_session now attempt fence epoch agent session
        local_phase lease db)
  | CompleteCancellation retry attempt fence epoch agent session outcome =>
      committed (complete_agent_cancellation now retry attempt fence epoch agent session outcome db)
  | Cancel project build actor =>
      committed (request_cancellation_decision_as now project build actor db)
  | Reconcile retry attempt fence actor outcome summary =>
      committed (finalize_reconciled_attempt now retry attempt fence actor outcome summary db)
  | Retry child ids attempt max_attempts reason actor =>
      committed (schedule_retry_as now child ids attempt max_attempts reason actor db)
  | Restore others backup reason => committed (activate_restore_epoch now others backup reason db)
  end.

(** A transaction outside the model keeps the tables of the lifecycle. *)
Definition outside (db db' : Db) : Prop :=
  builds db' = builds db /\ nodes db' = nodes db /\ attempts db' = attempts db
  /\ deps db' = deps db /\ dead_letters db' = dead_letters db
  /\ restore_epoch db' = restore_epoch db.

(** A step by an operation that [allowed] admits. *)
Inductive step (allowed : operation -> Prop) : Db -> Db -> Prop :=
| step_perform now op db db' : allowed op -> perform now op db = Some db' -> step allowed db db'
| step_outside db db' : outside db db' -> step allowed db db'.

(** A store before its first build. *)
Definition initial (db : Db) : Prop :=
  builds db = ∅ /\ nodes db = ∅ /\ attempts db = ∅ /\ deps db = [] /\ dead_letters db = ∅.

Definition reachable (allowed : operation -> Prop) (db : Db) : Prop :=
  exists start, initial start /\ rtc (step allowed) start db.

Definition any_operation (_ : operation) : Prop := True.
Definition no_retry (op : operation) : Prop :=
  match op with Retry _ _ _ _ _ _ => False | _ => True end.

(** ** The rows of one attempt *)

(** The columns no transaction rewrites. *)
Definition same_identity (a a' : Attempt) : Prop :=
  a_node a' = a_node a /\ a_ordinal a' = a_ordinal a /\ a_retry_of a' = a_retry_of a.

(** Why a row changes. [Working], [Publishing] and [Parking] are requests of an
    agent under a fence; the controller stops a leased attempt, withdraws one that
    no agent accepted, and lets a lease lapse; an operator decides what waits for
    reconciliation. *)
Inductive cause : Type :=
| Quiet
| Offering (agent : string)
| Working (agent : string) (fence : Z)
| Publishing (agent : string) (fence : Z)
| Parking (agent : string) (fence : Z)
| Stopping
| Withdrawing
| Lapsing
| Restoring
| Deciding.

(** The attempt, agent, fence and epoch an agent's request names. *)
Definition request (op : operation) : option (Uuid * string * Z * Z) :=
  match op with
  | Accept attempt fence epoch agent _ => Some (attempt, agent, fence, epoch)
  | Renew attempt fence epoch agent _ _ => Some (attempt, agent, fence, epoch)
  | Run attempt fence epoch agent _ => Some (attempt, agent, fence, epoch)
  | Finalize _ attempt fence epoch agent _ _ _ _ => Some (attempt, agent, fence, epoch)
  | Recover attempt fence epoch agent _ _ _ => Some (attempt, agent, fence, epoch)
  | CompleteCancellation _ attempt fence epoch agent _ _ => Some (attempt, agent, fence, epoch)
  | _ => None
  end.

Definition requested (op : operation) (i : Uuid) (agent : string) (fence : Z) : Prop :=
  match request op with
  | Some (attempt, a, f, _) => attempt = i /\ a = agent /\ f = fence
  | None => False
  end.

(** The requests by which an agent ends its attempt. *)
Definition settles (op : operation) : bool :=
  match op with
  | Finalize _ _ _ _ _ _ _ _ _ | CompleteCancellation _ _ _ _ _ _ _ => true
  | _ => false
  end.

(** The operations that may stop or withdraw attempts; a request of an agent
    only attempts other than its own. *)
Definition steers (op : operation) (i : Uuid) : Prop :=
  match op with
  | Claim _ _ _ | Expire _ _ | Cancel _ _ _ | Reconcile _ _ _ _ _ _ => True
  | Finalize _ attempt _ _ _ _ _ _ _ | CompleteCancellation _ attempt _ _ _ _ _ => attempt <> i
  | _ => False
  end.

(** The lease of the row has run out when the sweep reads it. *)
Definition lapses (now : Z) (op : operation) (db : Db) (i : Uuid) : Prop :=
  match op with
  | Expire _ _ => exists a, attempts db !! i = Some a /\ lease_expired now a = true
  | _ => False
  end.

Definition parked (db : Db) (i : Uuid) : Prop :=
  exists a, attempts db !! i = Some a /\ a_status a = AReconciliation.

Definition restores (op : operation) : bool := match op with Restore _ _ _ => true | _ => false end.

(** What an operation that takes [db] to [db'] may do to the row [i]. *)
Definition may (now : Z) (op : operation) (db db' : Db) (i : Uuid) (c : cause) : Prop :=
  match c with
  | Quiet => True
  | Offering agent => match op with Claim _ req _ => agent_id req = agent | _ => False end
  | Working agent fence => requested op i agent fence
  | Publishing agent fence => settles op = true /\ requested op i agent fence
  | Parking agent fence => settles op = true /\ requested op i agent fence /\ parked db' i
  | Stopping | Withdrawing => steers op i
  | Lapsing => lapses now op db i
  | Restoring => restores op = true
  | Deciding =>
      match op with
      | Reconcile _ attempt _ _ _ _ => attempt = i
      | Retry _ _ attempt _ _ _ => attempt = i
      | _ => False
      end
  end.

(** One change of a row, by its status, fence and owner. *)
Inductive move (a a' : Attempt) : cause -> Prop :=
| move_quiet : same_identity a a' -> a_status a' = a_status a -> a_fence a' = a_fence a ->
    a_owner a' = a_owner a -> a_epoch a' = a_epoch a -> a_summary a' = a_summary a ->
    move a a' Quiet
| move_offer agent : same_identity a a' -> a_status a = AQueued -> a_status a' = AOffered ->
    a_fence a' = a_fence a + 1 -> a_fence a' <= i64_max -> a_owner a' = Some agent ->
    move a a' (Offering agent)
| move_work agent fence : same_identity a a' -> leased_attempt (a_status a) = true ->
    a_owner a = Some agent -> a_fence a = fence ->
    working (a_status a') = true -> a_fence a' = a_fence a -> a_owner a' = a_owner a ->
    move a a' (Working agent fence)
| move_publish agent fence : same_identity a a' -> working (a_status a) = true ->
    a_owner a = Some agent -> a_fence a = fence ->
    terminal_attempt (a_status a') = true -> a_fence a' = a_fence a -> a_owner a' = a_owner a ->
    move a a' (Publishing agent fence)
| move_park agent fence : same_identity a a' -> working (a_status a) = true ->
    a_owner a = Some agent -> a_fence a = fence ->
    a_status a' = AReconciliation -> a_fence a' = a_fence a -> move a a' (Parking agent fence)
| move_stop : same_identity a a' ->
    one_status [AOffered; AAccepted; ARunning; AFinalizing] (a_status a) = true ->
    a_status a' = ACancelling -> a_fence a' = a_fence a -> a_owner a' = a_owner a ->
    move a a' Stopping
| move_withdraw : same_identity a a' -> one_status [AQueued; AOffered] (a_status a) = true ->
    a_status a' = AAborted -> a_fence a' = a_fence a -> a_owner a' = a_owner a ->
    move a a' Withdrawing
| move_lapse : same_identity a a' -> leased_attempt (a_status a) = true ->
    a_status a' = AQueued /\ a_owner a' = None \/ a_status a' = AReconciliation
    \/ a_status a' = AAborted -> a_fence a' = a_fence a -> move a a' Lapsing
| move_restore : same_identity a a' -> leased_attempt (a_status a) = true ->
    a_status a' = AReconciliation -> a_fence a' = a_fence a -> move a a' Restoring
| move_decide : same_identity a a' -> a_status a = AReconciliation ->
    terminal_attempt (a_status a') = true -> a_fence a' = a_fence a -> a_owner a' = a_owner a ->
    move a a' Deciding.

(** A change of the row [i] for one of the causes [P] permits. *)
Definition moved (P : Uuid -> cause -> Prop) (i : Uuid) (a a' : Attempt) : Prop :=
  exists c, P i c /\ move a a' c.

(** The causes of the controller's own statements, and of none at all. *)
Definition control (_ : Uuid) (c : cause) : Prop := c = Quiet \/ c = Stopping \/ c = Withdrawing.
Definition any_cause (_ : Uuid) (_ : cause) : Prop := True.

Definition fresh (a : Attempt) : Prop := a_status a = AQueued /\ a_fence a = 0 /\ a_owner a = None.

(** What happens to every attempt row between two states. *)
Definition moves (P : Uuid -> cause -> Prop) (db db' : Db) : Prop :=
  forall i,
    match attempts db !! i, attempts db' !! i with
    | Some a, Some a' => rtc (moved P i) a a'
    | None, Some a' => exists a0, fresh a0 /\ rtc (moved P i) a0 a'
    | Some _, None => False
    | None, None => True
    end.

Lemma moves_same P db db' : attempts db' = attempts db -> moves P db db'.
Proof. intros E i. rewrite E. destruct (attempts db !! i); [apply rtc_refl | done]. Qed.

Lemma moves_trans P db1 db2 db3 : moves P db1 db2 -> moves P db2 db3 -> moves P db1 db3.
Proof.
  intros H1 H2 i. specialize (H1 i). specialize (H2 i).
  destruct (attempts db1 !! i), (attempts db2 !! i), (attempts db3 !! i); try done.
  - by etrans.
  - destruct H1 as (x & ? & ?). exists x. split; [done | by etrans].
Qed.

Lemma moved_mono (P Q : Uuid -> cause -> Prop) i a a' :
  (forall c, P i c -> Q i c) -> rtc (moved P i) a a' -> rtc (moved Q i) a a'.
Proof. intros H. induction 1 as [|x y z (c & HP & Hc) _ IH]; [done|]. eapply rtc_l; [|done]. exists c. auto. Qed.

Lemma moves_mono (P Q : Uuid -> cause -> Prop) db db' :
  (forall i c, P i c -> Q i c) -> moves P db db' -> moves Q db db'.
Proof.
  intros H M i. specialize (M i). destruct (attempts db !! i), (attempts db' !! i); try done.
  - eapply moved_mono; [apply H | done].
  - destruct M as (a0 & Hf & M). exists a0. split; [done|]. eapply moved_mono; [apply H | done].
Qed.

Lemma moves_any P db db' : moves P db db' -> moves any_cause db db'.
Proof. by apply moves_mono. Qed.

Lemma moves_rows (P : Uuid -> cause -> Prop) db db' (g : Uuid -> Attempt -> Attempt) :
  (forall i, attempts db' !! i = g i <$> attempts db !! i) ->
  (forall i a, attempts db !! i = Some a -> moved P i a (g i a)) -> moves P db db'.
Proof.
  intros E H i. rewrite E. destruct (attempts db !! i) eqn:Hi; simpl; [|done].
  apply rtc_once. by apply H.
Qed.

Lemma move_refl a : move a a Quiet.
Proof. by apply move_quiet. Qed.

(** Permissions that let a row be. *)
Definition lenient (P : Uuid -> cause -> Prop) : Prop := forall i, P i Quiet.

Lemma moves_update_attempts (P : Uuid -> cause -> Prop) W f db :
  lenient P -> (forall i a, attempts db !! i = Some a -> W i a = true -> moved P i a (f a)) ->
  moves P db (update_attempts W f db).
Proof.
  intros HP H. eapply moves_rows; [intros i; apply lookup_attempts_update_attempts|].
  intros i a Hi. simpl. destruct (W i a) eqn:HW; [by eapply H|].
  exists Quiet. split; [apply HP | apply move_refl].
Qed.

Lemma moves_update_nodes (P : Uuid -> cause -> Prop) now W f db :
  lenient P -> moves P db (update_nodes now W f db).
Proof.
  intros HP.
  eapply (moves_rows _ _ _ (fun _ a => readied _ a)); [intros i; apply lookup_attempts_update_nodes|].
  intros i a Hi. exists Quiet. split; [apply HP | by apply move_quiet].
Qed.

Lemma control_lenient : lenient control.
Proof. intros i. by left. Qed.

Lemma may_lenient now op db db' : lenient (may now op db db').
Proof. by intros i. Qed.

Lemma any_lenient : lenient any_cause.
Proof. by intros i. Qed.

End Lifecycle.

#[export] Hint Resolve control_lenient may_lenient any_lenient : core.
