(* ===== verification/StoreFrames.v ===== *)
(** * What the transactions of the store leave alone

    Deriving a build's outcome, recording its notifications and pinning an
    agent touch builds, deliveries and events only; the statements over nodes
    and attempts keep the other tables. *)

From stdpp Require Import base gmap sets list strings pretty relations.
From Stdlib Require Import ZArith Lia.
From S2P Require Import Prelude Text Bytes Domain DagContract StoreTables DagRuntime Scheduler.
From S2P Require Import WorkspaceStore Sequential.
From S2P Require Import Attempts Lifecycle.

Open Scope Z_scope.

(** Take the branches of a transaction apart. *)
Ltac inv_tx_step :=
  match goal with
  | H : Some _ = None |- _ => discriminate H
  | H : None = Some _ |- _ => discriminate H
  | H : (_, _) = (_, _) |- _ => injection H as H; try subst
  | H : Some _ = Some _ |- _ => injection H as H; try subst
  | H : context [mbind ?f ?r] |- _ => progress (unfold mbind, result_bind, option_bind in H)
  | H : context [fmap ?f ?r] |- _ => progress (unfold fmap, option_fmap, option_map in H)
  | H : context [option_bind] |- _ => progress (unfold option_bind in H)
  | H : committed ?r = Some _ |- _ => unfold committed in H
  | H : match ?x with _ => _ end = _ |- _ =>
      first [ is_var x; destruct x | let E := fresh "Hm" in destruct x eqn:E ]
  end.
Ltac inv_tx := repeat first [ inv_ok_step | inv_tx_step ].

(** A build row keeps its mode and its cancellation. *)
Definition same_build (b b' : Build) : Prop :=
  b_dag_mode b' = b_dag_mode b /\ b_cancelled_at b' = b_cancelled_at b
  /\ b_project b' = b_project b /\ b_pipeline b' = b_pipeline b
  /\ b_generation b' = b_generation b.

(** Everything but builds, deliveries and events. *)
Record kept (db db' : Db) : Prop := {
  kept_nodes : nodes db' = nodes db;
  kept_attempts : attempts db' = attempts db;
  kept_deps : deps db' = deps db;
  kept_dead_letters : dead_letters db' = dead_letters db;
  kept_epoch : restore_epoch db' = restore_epoch db;
  kept_effects : effects db' = effects db;
  kept_pipelines : pipelines db' = pipelines db;
  kept_states : pipeline_states db' = pipeline_states db;
  kept_sessions : sessions db' = sessions db;
  kept_builds : forall k, option_Forall2 same_build (builds db !! k) (builds db' !! k)
}.

#[export] Instance same_build_preorder : PreOrder same_build.
Proof.
  split; [by repeat split|].
  intros b1 b2 b3 (? & ? & ? & ? & ?) (? & ? & ? & ? & ?). repeat split; congruence.
Qed.

#[export] Instance kept_preorder : PreOrder kept.
Proof.
  split.
  - intros db. by split.
  - intros d1 d2 d3 H1 H2. split; try (by etrans; [apply H2|apply H1]).
    intros k. etrans; [apply H1|apply H2].
Qed.

Lemma kept_event build kind payload db : kept db (append_event_and_outbox build kind payload db).
Proof. by split. Qed.

Lemma kept_update_builds P f db :
  (forall b, same_build b (f b)) -> kept db (update_builds P f db).
Proof.
  intros Hf. split; try done. intros k. rewrite lookup_builds_update_builds.
  destruct (builds db !! k) as [b|]; simpl; [|constructor].
  constructor. destruct (P k b); [apply Hf | reflexivity].
Qed.

Section Frames.
Context `{PG : Postgres} `{DX : DagExternal} `{WT : WorkspaceTransfer}.

Lemma kept_deliveries f db : kept db (db <| deliveries := f |>).
Proof. by split. Qed.

Lemma try_fold_kept {A} (f : Db -> A -> result StoreError Db) l db db' :
  (forall d x d', f d x = Ok d' -> kept d d') -> try_fold f db l = Ok db' -> kept db db'.
Proof.
  intros Hf. revert db. induction l as [|x l IH]; intros db H; simpl in H; inv_tx; [done|].
  etrans; [by eapply Hf | by apply IH].
Qed.

Lemma record_terminal_notifications_kept now build status db db' :
  record_terminal_notifications now build status db = Ok db' -> kept db db'.
Proof.
  unfold record_terminal_notifications. intros H. inv_tx.
  etrans; [|apply kept_event]. etrans; [|apply kept_deliveries].
  eapply try_fold_kept; [|done]. intros d [index target] d' Hd.
  unfold record_delivery in Hd. inv_tx; apply kept_deliveries.
Qed.

Lemma derive_build_outcome_kept now build db db' :
  derive_build_outcome now build db = Ok db' -> kept db db'.
Proof.
  unfold derive_build_outcome. intros H. inv_tx.
  all: try (etrans; [|by eapply record_terminal_notifications_kept]).
  all: apply kept_update_builds; by repeat split.
Qed.

Lemma record_successful_agent_kept build agent node db db' :
  record_successful_agent build agent node db = Ok db' -> kept db db'.
Proof.
  unfold record_successful_agent. intros H. inv_tx; try reflexivity.
  apply kept_update_builds; by repeat split.
Qed.

(** Opening the workspace of a new build touches its row alone. *)
Lemma admit_sequential_kept now build ids namespace input db r db' :
  admit_sequential_dag now build ids namespace input db = Ok (r, db') ->
  exists d, admit_dag_contract_transaction now build ids (sq_dag input) (sequential_contract input)
    true db = Ok (r, d) /\ kept d db'.
Proof.
  unfold admit_sequential_dag. intros H. apply bind_ok in H as ([adm d] & Ha & H).
  destruct (adm_created adm && sq_workspace_transfer input).
  2: { injection H as <- <-. by exists d. }
  apply bind_ok in H as (b & Hb & H). apply bind_ok in H as (b' & Hi & [= <- <-]).
  exists d. split; [done|]. destruct (builds d !! adm_build adm) as [b0|] eqn:E; [|done].
  injection Hb as ->. split; try done. intros k. cbn.
  destruct (decide (k = adm_build adm)) as [->|Hne]; [|by rewrite lookup_insert_ne].
  rewrite lookup_insert_eq, E. constructor. unfold initialize in Hi.
  apply bind_ok in Hi as (v & _ & [= <-]). by destruct (b_namespace b).
Qed.

End Frames.
