(* ===== verification/TriggerMoves.v ===== *)
(** * The life of a delivery, as a machine

    [delivery_move] is what one call may do to one delivery: accept it, claim it
    under a fresh fence, admit or fail it under a live claim, give it up when it
    has expired, or take its lapsed claim back. The call is an event of the
    machine, with the delivery, the worker and the fence it names and the clock
    it reads; every operation on the ledger makes at most such a move of each
    delivery, at its own event. *)

From stdpp Require Import base gmap list sorting strings relations.
From Stdlib Require Import Ascii ZArith Lia.
From S2P Require Import Prelude Text Bytes Domain DagContract StoreTables AuditChain.
From S2P Require Import ScheduleCalendar TriggerTables TriggerValidation TriggerSchedule.
From S2P Require Import DagRuntime TriggerIngress TriggerDeliveries TriggerTransfer.

Open Scope Z_scope.

(** ** The machine *)

(** A delivery as it enters the ledger. *)
Record fresh_delivery (d : TriggerDelivery) : Prop := {
  fresh_status : td_status d = TPending;
  fresh_attempts : td_attempt_count d = 0;
  fresh_fence : td_claim_fence d = 0;
  fresh_owner : td_claim_owner d = None;
  fresh_lease : td_claim_expires_at d = None;
  fresh_build : td_build d = None;
  fresh_reason : td_terminal_reason d = None;
  fresh_due : td_next_attempt_at d = td_accepted_at d;
  fresh_ttl : td_accepted_at d < td_expires_at d
}.

(** What a call asks of a delivery; times are milliseconds of the database clock.
    A failure names its delay when it may be retried. *)
Inductive delivery_event : Type :=
| Accepting (key : Uuid * string)
| Claiming (key : Uuid * string) (worker : string) (span now : Z)
| Admitting (key : Uuid * string) (worker : string) (fence now bind lease late : Z)
| Failing (key : Uuid * string) (worker : string) (fence : Z) (delay : option Z) (reason : string)
    (now : Z)
| Exporting (trigger : Uuid) (now : Z)
| Elsewhere.

(** [worker] holds the claim [fence], and its lease has not run out at [now]. *)
Definition live_claim (worker : string) (fence now : Z) (d : TriggerDelivery) : Prop :=
  td_claim_owner d = Some worker /\ td_claim_fence d = fence
  /\ now < default 0 (td_claim_expires_at d).

Definition open_delivery (d : TriggerDelivery) : Prop := terminal_delivery (td_status d) = false.

Section Machine.
Context (versions : gmap (Uuid * Z) PipelineTrigger) (key : Uuid * string).

(** One move of the delivery at [key], at an event that names it. *)
Inductive delivery_move : delivery_event -> option TriggerDelivery -> option TriggerDelivery -> Prop :=
| move_accept d :
    fresh_delivery d -> is_Some (versions !! (key.1, td_trigger_generation d)) ->
    delivery_move (Accepting key) None (Some d)
| move_claim d worker span now :
    open_delivery d -> td_next_attempt_at d <= now < td_expires_at d -> leased_at now d = false ->
    0 < span <= 15 * 60 * 1000 ->
    delivery_move (Claiming key worker span now) (Some d)
      (Some (claimed_by worker (td_claim_fence d + 1) (now + span) d))
| move_admit d worker fence build now bind lease late :
    open_delivery d -> live_claim worker fence now d -> now < td_expires_at d ->
    live_claim worker fence lease d -> bind < td_expires_at d ->
    delivery_move (Admitting key worker fence now bind lease late) (Some d)
      (Some (admitted_with build d))
| move_retry d worker fence v delay reason now :
    open_delivery d -> live_claim worker fence now d -> now < td_expires_at d ->
    versions !! (key.1, td_trigger_generation d) = Some v ->
    td_attempt_count d + 1 < pt_max_delivery_attempts v -> 0 < delay ->
    delivery_move (Failing key worker fence (Some delay) reason now) (Some d)
      (Some (failed_delivery false (td_attempt_count d + 1) (now + delay) reason d))
| move_give_up d worker fence v delay reason now :
    open_delivery d -> live_claim worker fence now d ->
    versions !! (key.1, td_trigger_generation d) = Some v ->
    delay = None \/ pt_max_delivery_attempts v <= td_attempt_count d + 1 \/ td_expires_at d <= now ->
    delivery_move (Failing key worker fence delay reason now) (Some d)
      (Some (dead_lettered reason (d <| td_attempt_count := td_attempt_count d + 1 |>)))
| move_expire d worker span now :
    open_delivery d -> td_expires_at d <= now ->
    delivery_move (Claiming key worker span now) (Some d)
      (Some (dead_lettered "delivery expired before claim" d))
| move_expire_claimed d worker fence now bind lease late :
    open_delivery d -> td_claim_owner d = Some worker -> td_claim_fence d = fence ->
    td_expires_at d <= now \/ td_expires_at d <= late ->
    delivery_move (Admitting key worker fence now bind lease late) (Some d)
      (Some (dead_lettered "delivery expired before atomic DAG admission"
               (d <| td_attempt_count := td_attempt_count d + 1 |>)))
| move_reap d worker lease now :
    open_delivery d -> td_claim_owner d = Some worker -> td_claim_expires_at d = Some lease ->
    lease <= now ->
    delivery_move (Exporting (td_trigger d) now) (Some d) (Some (released d)).

(** At each event of a history the delivery stays or makes one move. *)
Inductive delivery_run : list delivery_event -> option TriggerDelivery -> option TriggerDelivery -> Prop :=
| run_end x : delivery_run [] x x
| run_stay e l x y : delivery_run l x y -> delivery_run (e :: l) x y
| run_move e l x y z : delivery_move e x y -> delivery_run l y z -> delivery_run (e :: l) x z.

End Machine.

(** Every delivery of [t] stays or makes one move. *)
Definition delivery_moves (e : delivery_event) (t t' : TriggerDb) : Prop :=
  forall k, ti_deliveries t' !! k = ti_deliveries t !! k
            \/ delivery_move (ti_versions t) k e (ti_deliveries t !! k) (ti_deliveries t' !! k).

Lemma delivery_moves_same e t t' : ti_deliveries t' = ti_deliveries t -> delivery_moves e t t'.
Proof. intros E k. left. by rewrite E. Qed.

Lemma delivery_moves_insert e t t' k d :
  ti_deliveries t' = <[k := d]> (ti_deliveries t) ->
  delivery_move (ti_versions t) k e (ti_deliveries t !! k) (Some d) -> delivery_moves e t t'.
Proof.
  intros E Hm k'. rewrite E. destruct (decide (k = k')) as [<-|Hk].
  - right. by rewrite lookup_insert_eq.
  - left. by rewrite lookup_insert_ne.
Qed.

(** ** What the statements change *)

Section Statements.
Context `{External} `{DagExternal} `{Md5Hash} `{TriggerHex} `{Postgres} `{CivilTime} `{AuditJson}.
Context (organization : Uuid).

Lemma append_trigger_audit_ok actor action subject payload stamp t e t' :
  append_trigger_audit organization actor action subject payload stamp t = Ok (e, t') ->
  exists a, append_audit_record organization "trigger" actor action subject payload stamp (ti_audit t)
            = Ok (e, a) /\ t' = t <| ti_audit := a |>.
Proof.
  unfold append_trigger_audit. rewrite bind_ok. intros ([e' a] & Ha & [= <- <-]). by exists a.
Qed.

Lemma insert_delivery_ok d t t' :
  insert_delivery d t = Ok t' ->
  some_delivery (delivery_conflict d) t = false /\ delivery_row_ok d = true
  /\ t' = t <| ti_deliveries := <[(td_trigger d, td_delivery_id d) := d]> (ti_deliveries t) |>.
Proof.
  unfold insert_delivery. rewrite !guard_ok. intros (Hc & Hr & [= <-]). by bool_prop.
Qed.

Lemma some_delivery_false P t k d :
  some_delivery P t = false -> ti_deliveries t !! k = Some d -> P d = false.
Proof.
  unfold some_delivery. intros Hs Hd. destruct (P d) eqn:E; [|done].
  rewrite <- Hs. symmetry. apply existsb_exists. exists d. split; [|done].
  apply list_elem_of_In, list_elem_of_fmap. exists (k, d). split; [done|].
  by apply elem_of_map_to_list.
Qed.

(** An update of a row that is there. *)
Lemma update_delivery_ok tr id f t d t' :
  ti_deliveries t !! (tr, id) = Some d -> update_delivery tr id f t = Ok t' ->
  guard_trigger_delivery d (f d) = true /\ delivery_row_ok (f d) = true
  /\ t' = t <| ti_deliveries := <[(tr, id) := f d]> (ti_deliveries t) |>.
Proof.
  intros Hd. unfold update_delivery. rewrite Hd, !guard_ok. intros (Hg & Hr & [= <-]).
  by bool_prop.
Qed.

Lemma ok_or_ok {E A} (o : option A) (e : E) a : ok_or o e = Ok a <-> o = Some a.
Proof. destruct o; cbn; naive_solver. Qed.

Lemma existing_delivery_ok tr id t d :
  existing_delivery tr id t = Ok d -> ti_deliveries t !! (tr, id) = Some d.
Proof. apply ok_or_ok. Qed.

(** ** What the operations change *)

Definition with_audit (a : AuditTables) (t : TriggerDb) : TriggerDb := t <| ti_audit := a |>.
Definition with_row (a : AuditTables) (k : Uuid * string) (d : TriggerDelivery) (t : TriggerDb) :
    TriggerDb :=
  t <| ti_audit := a |> <| ti_deliveries := <[k := d]> (ti_deliveries t) |>.

Lemma with_audit_same t : t = with_audit (ti_audit t) t.
Proof. by destruct t. Qed.

(** The audit tables after locks of the head and appends. *)
Inductive audit_next : AuditTables -> AuditTables -> Prop :=
| audit_same a : audit_next a a
| audit_locked a a' : audit_next (lock_audit_head a) a' -> audit_next a a'
| audit_appended a category actor action subject payload stamp e b a' :
    append_audit_record organization category actor action subject payload stamp a = Ok (e, b) ->
    audit_next b a' -> audit_next a a'.

#[local] Hint Constructors audit_next : core.

Lemma audit_next_trans a b c : audit_next a b -> audit_next b c -> audit_next a c.
Proof. induction 1; eauto. Qed.

(** An audit record and the update of one row. *)
Lemma audited_update_ok actor action subject payload stamp tr id f t d t' A (k : TriggerDelivery -> A) r :
  ti_deliveries t !! (tr, id) = Some d ->
  (appended ← append_trigger_audit organization actor action subject payload stamp t;
   t ← update_delivery tr id f appended.2;
   delivery ← get_delivery tr id t;
   Ok (k delivery, t)) = Ok (r, t') ->
  exists a, r = k (f d) /\ t' = with_row a (tr, id) (f d) t /\ audit_next (ti_audit t) a
            /\ guard_trigger_delivery d (f d) = true /\ delivery_row_ok (f d) = true.
Proof.
  intros Hd. rewrite bind_ok. intros ([e t1] & (a & Ha & ->)%append_trigger_audit_ok & Hr).
  cbn [snd] in Hr. rewrite bind_ok in Hr. destruct Hr as (t2 & Hu & Hr).
  eapply update_delivery_ok in Hu as (Hg & Hok & Et); [|exact Hd]. subst t2.
  rewrite bind_ok in Hr. destruct Hr as (d' & Hget%ok_or_ok & [= <- <-]).
  cbn in Hget. rewrite lookup_insert_eq in Hget. injection Hget as <-. exists a.
  split_and!; eauto.
Qed.

(** The claim: at most the row of the delivery changes. *)
Lemma claim_ok stamp first now input t o t' :
  claim_trigger_delivery organization stamp first now input t = Ok (o, t') ->
  let k := (cr_trigger input, cr_delivery_id input) in
  let now_ms := trigger_database_unix_ms now in
  exists d a, ti_deliveries t !! k = Some d /\ audit_next (ti_audit t) a /\
    match o with
    | DeliveryClaimed d' =>
        open_delivery d /\ td_next_attempt_at d <= now_ms < td_expires_at d
        /\ leased_at now_ms d = false
        /\ 0 < cr_lease_expires_at input - cr_now input <= 15 * 60 * 1000
        /\ d' = claimed_by (cr_worker_identity input) (td_claim_fence d + 1)
                  (now_ms + (cr_lease_expires_at input - cr_now input)) d
        /\ t' = with_row a k d' t /\ delivery_row_ok d' = true
    | DeliveryTerminal d' =>
        (d' = d /\ ~ open_delivery d /\ t' = with_audit a t)
        \/ (open_delivery d /\ td_expires_at d <= now_ms
            /\ d' = dead_lettered "delivery expired before claim" d /\ t' = with_row a k d' t
            /\ delivery_row_ok d' = true)
    | DeliveryNotDue d' | DeliveryLeased d' => d' = d /\ open_delivery d /\ t' = with_audit a t
    end.
Proof.
  intros Hr k now_ms. unfold claim_trigger_delivery in Hr. rewrite !seq_ok, check_ok in Hr.
  destruct Hr as (_ & _ & Hl & Hr).
  rewrite bind_ok in Hr. destruct Hr as (d & Hd%existing_delivery_ok & Hr). bool_prop.
  exists d. destruct (terminal_delivery (td_status d)) eqn:Ht.
  { injection Hr as <- <-. exists (ti_audit t). split; [done|]. split; [done|]. left. split_and!; [done| |].
    - unfold open_delivery. by rewrite Ht.
    - apply with_audit_same. }
  rewrite bind_ok in Hr. destruct Hr as (dv & _ & Hr). rewrite !seq_ok in Hr.
  destruct Hr as (_ & _ & Hr). cbv zeta in Hr.
  destruct (trigger_database_unix_ms first <? _) eqn:B1.
  { injection Hr as <- <-. exists (ti_audit t). split_and!; [done..|apply with_audit_same]. }
  destruct (_ && leased_at _ d) eqn:B2.
  { injection Hr as <- <-. exists (ti_audit t). split_and!; [done..|apply with_audit_same]. }
  destruct (now_ms <? td_next_attempt_at d) eqn:B3; fold now_ms in Hr; rewrite B3 in Hr.
  { injection Hr as <- <-. exists (lock_audit_head (ti_audit t)). split_and!; eauto. }
  destruct (td_expires_at d <=? now_ms) eqn:B4; bool_prop.
  { eapply audited_update_ok in Hr as (a & -> & -> & Ha & _ & Hrow); [|exact Hd].
    exists a. split; [done|]. split; [by constructor|]. right. by split_and!. }
  destruct (leased_at now_ms d) eqn:B5.
  { injection Hr as <- <-. exists (lock_audit_head (ti_audit t)). split_and!; eauto. }
  rewrite bind_ok in Hr. destruct Hr as (lease & Hlease%ok_or_ok & Hr).
  eapply audited_update_ok in Hr as (a & -> & -> & Ha & _ & Hrow); [|exact Hd].
  exists a. split; [done|]. split; [by constructor|]. unfold checked_add_i64 in Hlease.
  destruct (in_i64 _); [|done]. injection Hlease as <-. split_and!; done || lia.
Qed.

Lemma require_claim_ok worker fence d message :
  require_claim worker fence d message = Ok tt ->
  td_claim_owner d = Some worker /\ td_claim_fence d = fence.
Proof.
  unfold require_claim. rewrite check_ok, orb_false_iff. intros [Ho Hf]. bool_prop.
  by apply bool_decide_eq_true in Ho.
Qed.

Lemma retry_time_ok input now_ms d z :
  retry_time input now_ms d = Ok z -> fr_retryable input = true ->
  z = now_ms + (fr_retry_at input - fr_now input).
Proof.
  intros Hz Hr. unfold retry_time in Hz. rewrite Hr, bind_ok in Hz.
  destruct Hz as (delay & Hd%ok_or_ok & Hz%ok_or_ok). unfold checked_add_i64 in *.
  destruct (in_i64 (fr_retry_at _ + _)); [|done]. injection Hd as <-.
  destruct (in_i64 _); [|done]. injection Hz as <-. lia.
Qed.

(** The failure of a claimed delivery. *)
Lemma fail_ok stamp now input t o t' :
  fail_trigger_delivery organization stamp now input t = Ok (o, t') ->
  let k := (fr_trigger input, fr_delivery_id input) in
  let now_ms := trigger_database_unix_ms now in
  exists d v a, ti_deliveries t !! k = Some d
    /\ ti_versions t !! (fr_trigger input, td_trigger_generation d) = Some v /\ open_delivery d
    /\ audit_next (ti_audit t) a /\
    match o with
    | RetryScheduled d' =>
        live_claim (fr_worker_identity input) (fr_claim_fence input) now_ms d
        /\ now_ms < td_expires_at d /\ td_attempt_count d + 1 < pt_max_delivery_attempts v
        /\ fr_retryable input = true /\ 0 < fr_retry_at input - fr_now input
        /\ d' = failed_delivery false (td_attempt_count d + 1)
                  (now_ms + (fr_retry_at input - fr_now input)) (fr_reason input) d
        /\ t' = with_row a k d' t /\ delivery_row_ok d' = true
    | FailureDeadLettered d' =>
        live_claim (fr_worker_identity input) (fr_claim_fence input) now_ms d
        /\ (fr_retryable input = false \/ pt_max_delivery_attempts v <= td_attempt_count d + 1
            \/ td_expires_at d <= now_ms)
        /\ d' = dead_lettered (fr_reason input) (d <| td_attempt_count := td_attempt_count d + 1 |>)
        /\ t' = with_row a k d' t /\ delivery_row_ok d' = true
    | FailureLeaseLost d' => d' = d /\ t' = with_audit a t
    end.
Proof.
  intros Hr k now_ms. unfold fail_trigger_delivery in Hr. rewrite !seq_ok, check_ok in Hr.
  destruct Hr as (_ & _ & _ & Hf & Hr). rewrite bind_ok in Hr.
  destruct Hr as (d & Hd%existing_delivery_ok & Hr). rewrite bind_ok in Hr.
  destruct Hr as (v & Hv%ok_or_ok & Hr). rewrite !seq_ok, check_ok in Hr.
  destruct Hr as (Ho & [Hw Hfence]%require_claim_ok & Hr). cbv zeta in Hr. fold now_ms in Hr.
  exists d, v. destruct (default 0 _ <=? now_ms) eqn:B; bool_prop.
  { injection Hr as <- <-. exists (lock_audit_head (ti_audit t)). split_and!; eauto. }
  rewrite bind_ok in Hr. destruct Hr as (retry_at & Hretry & Hr).
  eapply (audited_update_ok _ _ _ _ _ _ _ _ (lock_head t)) in Hr as (a & -> & -> & Ha & _ & Hrow); [|exact Hd].
  exists a. split_and!; [done..|by constructor|]. destruct (negb _ || _ || _) eqn:Bd.
  - split; [done|]. split; [|done]. apply orb_true_iff in Bd as [Bd|Bd]; [|bool_prop; auto].
    apply orb_true_iff in Bd as [Bd|Bd]; bool_prop; auto.
  - apply orb_false_iff in Bd as [[Br Bm]%orb_false_iff Be]. bool_prop.
    rewrite Br in *. apply retry_time_ok in Hretry as ->; [|done]. cbn [andb] in *. bool_prop.
    split_and!; done || lia.
Qed.

Lemma audit_build_events_ok stamps l t t' :
  audit_build_events organization stamps l t = Ok t' ->
  exists a, t' = with_audit a t /\ audit_next (ti_audit t) a.
Proof.
  revert stamps t. induction l as [|e l IH]; intros stamps t; cbn [audit_build_events].
  - intros [= <-]. exists (ti_audit t). split; [apply with_audit_same|done].
  - rewrite bind_ok. intros ([e' a] & Ha & (b & -> & Hb)%IH). exists b. split; [done|].
    unfold append_audit_record_for_build_event in Ha. eauto.
Qed.

Lemma in_store_ok {A} stamps (f : Db -> tx A) t x t' :
  in_store organization stamps f t = Ok (x, t') ->
  exists db a, f (ti_store t) = Ok (x, db) /\ t' = with_audit a (t <| ti_store := db |>)
               /\ audit_next (ti_audit t) a.
Proof.
  unfold in_store. rewrite bind_ok. intros ([y db] & Hf & Hr). rewrite bind_ok in Hr.
  destruct Hr as (t1 & (a & -> & Ha)%audit_build_events_ok & [= <- <-]). by exists db, a.
Qed.

Lemma bindable_ok input b l d :
  bindable input b l d = true ->
  live_claim (ar_worker_identity input) (ar_claim_fence input) l d /\ b < td_expires_at d.
Proof.
  unfold bindable. rewrite !andb_true_iff, bool_decide_eq_true. intros (((Ho & Hf) & He) & Hl).
  bool_prop. split; [|done]. split_and!; [done..|]. destruct (td_claim_expires_at d); cbn in *; bool_prop; done.
Qed.

Lemma dead_letter_ok stamp input now_ms t d x t' :
  ti_deliveries t !! (ar_trigger input, ar_delivery_id input) = Some d ->
  dead_letter_expired_trigger_dag_admission organization stamp input now_ms t = Ok (x, t') ->
  exists a, x = dead_lettered "delivery expired before atomic DAG admission"
                  (d <| td_attempt_count := td_attempt_count d + 1 |>)
            /\ t' = with_row a (ar_trigger input, ar_delivery_id input) x t
            /\ audit_next (ti_audit t) a /\ delivery_row_ok x = true.
Proof.
  intros Hd Hr. unfold dead_letter_expired_trigger_dag_admission in Hr. cbv zeta in Hr.
  eapply audited_update_ok with (k := fun d => d) in Hr as (a & -> & -> & Ha & _ & Hrow); [|exact Hd].
  by exists a.
Qed.

Lemma bind_dag_ok clock ids input dag t d r :
  ti_deliveries t !! (ar_trigger input, ar_delivery_id input) = Some d ->
  bind_dag organization clock ids input dag t = Ok r ->
  match r with
  | None => True
  | Some (admission, t') => exists db a,
      bindable input (trigger_database_unix_ms (ac_bind clock))
        (trigger_database_unix_ms (ac_lease clock)) d = true
      /\ admit_dag_transaction (ac_dag clock) (ai_build ids) (ai_nodes ids) dag (ti_store t)
          = Ok (admission, db)
      /\ t' = with_row a (ar_trigger input, ar_delivery_id input)
                (admitted_with (adm_build admission) d) (t <| ti_store := db |>)
      /\ audit_next (ti_audit t) a
      /\ delivery_row_ok (admitted_with (adm_build admission) d) = true
  end.
Proof.
  intros Hd. unfold bind_dag. rewrite bind_ok. intros ([admission t1] & Hs & Hr).
  apply in_store_ok in Hs as (db & a & Hadm & Et & Ha). subst t1. rewrite bind_ok in Hr.
  destruct Hr as (d' & Hd'%ok_or_ok & Hr). cbn in Hd'. rewrite Hd in Hd'. injection Hd' as <-.
  destruct (bindable _ _ _ _) eqn:B; [|by injection Hr as <-]. rewrite bind_ok in Hr.
  destruct Hr as (t2 & Hu & Hr). eapply update_delivery_ok in Hu as (_ & Hrow & Et); [|exact Hd].
  subst t2. rewrite bind_ok in Hr.
  destruct Hr as ([e t3] & (a' & Ha' & Et)%append_trigger_audit_ok & [= <-]). cbn [snd]. subst t3.
  exists db, a'. split_and!; [done..| |done]. eapply audit_next_trans; eauto.
Qed.

(** The admission of a claimed delivery and its DAG. *)
Lemma admit_ok clock ids input dag t o t' :
  admit_trigger_delivery_dag organization clock ids input dag t = Ok (o, t') ->
  let k := (ar_trigger input, ar_delivery_id input) in
  let now_ms := trigger_database_unix_ms (ac_now clock) in
  let bind_ms := trigger_database_unix_ms (ac_bind clock) in
  let lease_ms := trigger_database_unix_ms (ac_lease clock) in
  exists d a, ti_deliveries t !! k = Some d /\ open_delivery d
    /\ td_claim_owner d = Some (ar_worker_identity input)
    /\ td_claim_fence d = ar_claim_fence input /\ audit_next (ti_audit t) a /\
    match o with
    | AdmittedDag d' admission => exists db,
        live_claim (ar_worker_identity input) (ar_claim_fence input) now_ms d
        /\ now_ms < td_expires_at d
        /\ live_claim (ar_worker_identity input) (ar_claim_fence input) lease_ms d
        /\ bind_ms < td_expires_at d
        /\ admit_dag_transaction (ac_dag clock) (ai_build ids) (ai_nodes ids) dag (ti_store t)
            = Ok (admission, db)
        /\ td_project d = project_id dag /\ td_pipeline d = pipeline_id dag
        /\ d' = admitted_with (adm_build admission) d
        /\ t' = with_row a k d' (t <| ti_store := db |>) /\ delivery_row_ok d' = true
    | AdmissionDeadLettered d' =>
        (td_expires_at d <= now_ms
         \/ td_expires_at d <= trigger_database_unix_ms (ac_late clock))
        /\ d' = dead_lettered "delivery expired before atomic DAG admission"
                  (d <| td_attempt_count := td_attempt_count d + 1 |>)
        /\ t' = with_row a k d' t /\ delivery_row_ok d' = true
    | AdmissionLeaseLost d' => d' = d /\ t' = with_audit a t
    end.
Proof.
  intros Hr k now_ms bind_ms lease_ms. unfold admit_trigger_delivery_dag in Hr. rewrite !seq_ok, !check_ok in Hr.
  destruct Hr as (_ & _ & _ & _ & Hr). rewrite bind_ok in Hr.
  destruct Hr as (d & Hd%existing_delivery_ok & Hr). rewrite !seq_ok, !check_ok in Hr.
  destruct Hr as (Ho & Hbind & [Hw Hfence]%require_claim_ok & Hr). rewrite bind_ok in Hr.
  destruct Hr as (digest & _ & Hr). cbv zeta in Hr. exists d.
  destruct (td_expires_at d <=? _) eqn:B1.
  { rewrite bind_ok in Hr. destruct Hr as ([x t1] & Hx & [= <- <-]). cbn [fst snd].
    eapply dead_letter_ok in Hx as (a & -> & -> & Ha & Hrow); [|exact Hd]. bool_prop.
    exists a. do 4 (split; [done|]). split; [by constructor|]. split; [by auto|done]. }
  destruct (default 0 _ <=? _) eqn:B2.
  { injection Hr as <- <-. exists (lock_audit_head (ti_audit t)). split_and!; eauto. }
  rewrite bind_ok in Hr. destruct Hr as (r & Hb & Hr).
  eapply (bind_dag_ok _ _ _ _ (lock_head t)) in Hb; [|exact Hd]. destruct r as [[admission t1]|].
  - destruct Hb as (db & a & [Hl He]%bindable_ok & Hadm & Et & Ha & Hrow). subst t1. rewrite bind_ok in Hr.
    destruct Hr as (d' & Hget%ok_or_ok & [= <- <-]). cbn in Hget.
    rewrite lookup_insert_eq in Hget. injection Hget as <-. bool_prop.
    exists a. split_and!; [done..|by constructor|]. exists db. by split_and!.
  - clear Hb. destruct (td_expires_at d <=? trigger_database_unix_ms (ac_late clock)) eqn:B3.
    + rewrite bind_ok in Hr. destruct Hr as ([x t1] & Hx & [= <- <-]). cbn [fst snd].
      eapply dead_letter_ok in Hx as (a & -> & -> & Ha & Hrow); [|exact Hd]. bool_prop.
      exists a. do 4 (split; [done|]). split; [by constructor|]. split; [by auto|done].
    + rewrite bind_ok in Hr. destruct Hr as (d' & Hget%ok_or_ok & [= <- <-]). cbn in Hget.
      rewrite Hd in Hget. injection Hget as <-. exists (lock_audit_head (ti_audit t)). split_and!; eauto.
Qed.

End Statements.
