(* ===== verification/TriggerEffects.v ===== *)
(** * What the trigger operations change

    The statements over schedule slots keep every ended slot and fire none,
    except the one that fires the slot of an accepted delivery; acceptance and
    redrive add one row to the ledger; a configuration adds one version. *)

From stdpp Require Import base gmap list sorting strings relations.
From Stdlib Require Import Ascii ZArith Lia.
From S2P Require Import Prelude Text Bytes Domain DagContract StoreTables AuditChain.
From S2P Require Import ScheduleCalendar TriggerTables TriggerValidation TriggerSchedule.
From S2P Require Import DagRuntime TriggerIngress TriggerDeliveries TriggerTransfer TriggerMoves.

Open Scope Z_scope.

(** ** Slots *)

Notation slot_table := (gmap (Uuid * Z * Z) ScheduleSlot).

Definition ended_slot (s : ScheduleSlot) : Prop :=
  sl_outcome s = SlotFired \/ sl_outcome s = SlotSkipped.

(** No slot fires, and the ended ones stay. *)
Record quiet (m m' : slot_table) : Prop := {
  quiet_ended k s : m !! k = Some s -> ended_slot s -> m' !! k = Some s;
  quiet_fired k s : m' !! k = Some s -> sl_outcome s = SlotFired -> m !! k = Some s
}.

#[export] Instance quiet_preorder : PreOrder quiet.
Proof.
  split; [by split|]. intros m1 m2 m3 [E1 F1] [E2 F2]. split.
  - intros k s Hk He. apply E2; [|done]. by apply E1.
  - intros k s Hk Hf. apply F1; [|done]. by apply F2.
Qed.

Section Slots.
Context `{External} `{DagExternal} `{Md5Hash} `{TriggerHex} `{Postgres} `{CivilTime} `{AuditJson}.
Context (organization : Uuid).

Lemma guard_slot_open s s' : guard_slot s s' = true -> ~ ended_slot s.
Proof. unfold guard_slot, ended_slot. by destruct (sl_outcome s); intros Hg [?|?]. Qed.

Lemma update_slots_ok now P f t t' :
  update_slots now P f t = Ok t' ->
  (forall k s, ti_slots t !! k = Some s -> P k s = true ->
     guard_slot s (touched now f s) = true /\ slot_row_ok (touched now f s) = true)
  /\ t' = t <| ti_slots :=
       map_imap (fun k s => Some (if P k s then touched now f s else s)) (ti_slots t) |>.
Proof.
  unfold update_slots. rewrite guard_ok. intros [Hc [= <-]]. split; [|done].
  intros k s Hk HP. destruct (guard_slot s (touched now f s) && slot_row_ok (touched now f s)) eqn:E;
    [by bool_prop|].
  exfalso. apply not_true_iff_false in Hc. apply Hc, existsb_exists. exists (k, s).
  split; [by apply list_elem_of_In, elem_of_map_to_list|]. cbn. by rewrite HP, E.
Qed.

Lemma lookup_updated (now : Z) (P : Uuid * Z * Z -> ScheduleSlot -> bool)
    (f : ScheduleSlot -> ScheduleSlot) (m : slot_table) (k : Uuid * Z * Z) :
  map_imap (fun k s => Some (if P k s then touched now f s else s)) m !! k
  = (fun s => if P k s then touched now f s else s) <$> m !! k.
Proof. rewrite map_lookup_imap. by destruct (m !! k). Qed.

Lemma update_slots_quiet now P f t t' :
  (forall s, sl_outcome (f s) <> SlotFired) ->
  update_slots now P f t = Ok t' -> exists m, t' = t <| ti_slots := m |> /\ quiet (ti_slots t) m.
Proof.
  intros Hf [Hg ->]%update_slots_ok. eexists. split; [done|]. split; intros k s.
  - intros Hk He. rewrite lookup_updated, Hk. cbn. destruct (P k s) eqn:E; [|done].
    destruct (Hg k s Hk E) as [Hs%guard_slot_open _]. done.
  - rewrite lookup_updated. intros (s0 & Hs & Hk)%fmap_Some. destruct (P k s0); subst s; [|done].
    intros Ht. by destruct (Hf s0).
Qed.

Lemma insert_slot_quiet now project pipeline trigger generation t time t' :
  insert_slot now project pipeline trigger generation t time = Ok t' ->
  exists m, t' = t <| ti_slots := m |> /\ quiet (ti_slots t) m.
Proof.
  unfold insert_slot. rewrite guard_ok. intros [_ [= <-]]. destruct (ti_slots t !! _) eqn:E.
  - exists (ti_slots t). split; [by destruct t|done].
  - eexists. split; [done|]. split; intros k s.
    + intros Hk _. rewrite lookup_insert_ne; [done|]. intros <-. congruence.
    + intros [[<- <-]|[? ?]]%lookup_insert_Some; done.
Qed.

(** A sequence of statements that only touch slots. *)
Definition slots_only (t t' : TriggerDb) : Prop :=
  exists m, t' = t <| ti_slots := m |> /\ quiet (ti_slots t) m.

#[global] Instance slots_only_preorder : PreOrder slots_only.
Proof.
  split.
  - intros t. exists (ti_slots t). split; [by destruct t|done].
  - intros t1 t2 t3 (m1 & -> & Q1) (m2 & -> & Q2). exists m2. split; [done|]. by etrans.
Qed.

Lemma try_fold_slots_only {A} (f : TriggerDb -> A -> result StoreError TriggerDb) l t t' :
  (forall t x t', f t x = Ok t' -> slots_only t t') -> try_fold f t l = Ok t' -> slots_only t t'.
Proof.
  intros Hf. revert t. induction l as [|x l IH]; intros t; cbn [try_fold].
  - by intros [= <-].
  - rewrite bind_ok. intros (t1 & Hx & Hl). etrans; [by eapply Hf|]. by apply IH.
Qed.

Lemma materialize_slots_only now project pipeline trigger generation configuration now_ms t t' :
  materialize_schedule_slots_for_trigger now project pipeline trigger generation configuration
    now_ms t = Ok t' -> slots_only t t'.
Proof.
  unfold materialize_schedule_slots_for_trigger. rewrite bind_ok. intros (calendar & _ & Hr).
  cbv zeta in Hr. destruct (_ <=? _); [by injection Hr as <-|]. rewrite bind_ok in Hr.
  destruct Hr as (slots & _ & Hr). eapply try_fold_slots_only; [|exact Hr].
  intros. by eapply insert_slot_quiet.
Qed.

Lemma extend_slots_only now t x t' : extend_schedule_horizons now t = Ok (x, t') -> slots_only t t'.
Proof.
  unfold extend_schedule_horizons. rewrite bind_ok. intros (t1 & Hr & [= <- <-]).
  eapply try_fold_slots_only; [|exact Hr]. intros t0 [[trigger d] v] t2.
  apply materialize_slots_only.
Qed.

Lemma update_slots_only now P f t t' :
  (forall s, sl_outcome (f s) <> SlotFired) -> update_slots now P f t = Ok t' -> slots_only t t'.
Proof. apply update_slots_quiet. Qed.

Lemma claim_due_slot_only now now_ms locked due t o t' :
  claim_due_slot now now_ms locked due t = Ok (o, t') -> slots_only t t'.
Proof.
  unfold claim_due_slot. rewrite bind_ok. intros (t1 & U1 & Hr).
  apply update_slots_only in U1; [|done]. etrans; [exact U1|]. clear U1. cbv zeta in Hr.
  destruct (last _) as [latest|]; [|by injection Hr as _ <-]. rewrite bind_ok in Hr.
  destruct Hr as (t2 & U2 & Hr). rewrite bind_ok in Hr. destruct Hr as (t3 & U3 & Hr).
  apply try_fold_slots_only in U2; [|intros ? ? ?; by apply update_slots_only].
  apply update_slots_only in U3; [|done]. etrans; [exact U2|]. etrans; [exact U3|].
  assert (forall t', (t ← update_slots now (due_of due now_ms [SlotOpen; SlotClaimed])
    (set_outcome SlotSkipped) t3; Ok (None (A := NewTriggerDelivery), t)) = Ok (o, t') ->
    slots_only t3 t') as Hskip.
  { intros t4. rewrite bind_ok. intros (t5 & U5 & [= _ <-]).
    by eapply update_slots_only; [|exact U5]. }
  destruct (current_version t3 _) as [[d v]|]; [|by apply Hskip].
  destruct (negb _); [by apply Hskip|]. destruct (negb _); [by apply Hskip|].
  rewrite bind_ok in Hr. by destruct Hr as (input & _ & [= _ <-]).
Qed.

Lemma reopen_slots_only now trigger generation time t :
  slots_only t (reopen_slot now trigger generation time t).
Proof.
  unfold reopen_slot. destruct (update_slots _ _ _ _) eqn:E; [|done].
  by eapply update_slots_only; [|exact E].
Qed.

(** ** The slot of an accepted delivery *)

Lemma slot_is_true trigger generation time outcomes k s :
  slot_is trigger generation time outcomes k s = true ->
  k = (trigger, generation, time) /\ one_status outcomes (sl_outcome s) = true.
Proof. unfold slot_is. by intros [?%bool_decide_eq_true ?]%andb_true_iff. Qed.

(** The update that fires a slot meets exactly that slot. *)
Lemma fire_slot_ok now delivery trigger generation time t t' :
  let due := slot_is trigger generation time [SlotOpen; SlotClaimed] in
  update_slots now due (fired_with delivery) t = Ok t' ->
  length (List.filter (fun ks => due ks.1 ks.2) (map_to_list (ti_slots t))) = 1%nat ->
  exists s, ti_slots t !! (trigger, generation, time) = Some s /\ ~ ended_slot s
    /\ t' = t <| ti_slots := <[(trigger, generation, time) := touched now (fired_with delivery) s]>
                  (ti_slots t) |>.
Proof.
  intros due [Hg ->]%update_slots_ok Hn.
  destruct (List.filter _ _) as [|[k s] l] eqn:E; [done|].
  assert (In (k, s) (List.filter (fun ks => due ks.1 ks.2) (map_to_list (ti_slots t)))) as Hin
    by (rewrite E; by left).
  apply List.filter_In in Hin as [Hin Hd]. apply list_elem_of_In, elem_of_map_to_list in Hin.
  cbn in Hd. destruct (Hg _ _ Hin Hd) as [Ho%guard_slot_open _].
  destruct (slot_is_true _ _ _ _ _ _ Hd) as [-> _]. exists s. split_and!; [done..|].
  f_equal. apply map_eq. intros k. rewrite lookup_updated.
  destruct (decide (k = (trigger, generation, time))) as [->|Hk].
  - rewrite Hin, lookup_insert_eq. cbn [fmap option_fmap option_map]. by rewrite Hd.
  - rewrite lookup_insert_ne by done. destruct (ti_slots t !! k) as [s'|] eqn:Es; [|done].
    cbn [fmap option_fmap option_map]. destruct (due k s') eqn:Ed; [|done].
    by destruct (slot_is_true _ _ _ _ _ _ Ed).
Qed.

(** What the acceptance of a schedule's delivery does to its watermark. *)
Record watermark_advanced (input : NewTriggerDelivery) (generation : Z) (slot : TriggerScheduleSlot)
    (old : option TriggerScheduleWatermark) (w : TriggerScheduleWatermark) : Prop := {
  wa_slot : sw_last_resolved_slot w = Some (ts_resolved_slot slot);
  wa_delivery : sw_last_delivery_id w = Some (nd_delivery_id input);
  wa_new : old = None -> w = MkWatermark organization (nd_project input) (nd_pipeline input)
    (nd_trigger input) generation (ts_timezone slot) (ts_calendar slot) (ts_expression slot)
    (ts_schedule_identity_sha256 slot) (Some (ts_resolved_slot slot)) (Some (nd_delivery_id input));
  wa_old o : old = Some o -> w = o <| sw_last_resolved_slot := Some (ts_resolved_slot slot) |>
                                   <| sw_last_delivery_id := Some (nd_delivery_id input) |>
    /\ exists previous, sw_last_resolved_slot o = Some previous /\ previous < ts_resolved_slot slot
}.

Lemma advance_watermark_ok key o slot delivery t t' :
  advance_watermark key o slot delivery t = Ok t' ->
  (exists previous, sw_last_resolved_slot o = Some previous /\ previous < ts_resolved_slot slot)
  /\ t' = t <| ti_watermarks := <[key := o <| sw_last_resolved_slot := Some (ts_resolved_slot slot) |>
                                           <| sw_last_delivery_id := Some delivery |>]>
                (ti_watermarks t) |>.
Proof.
  unfold advance_watermark. cbv zeta. rewrite guard_ok. intros [Hg%negb_false_iff [= <-]].
  split; [|done]. unfold guard_watermark in Hg. cbn in Hg.
  destruct (sw_last_resolved_slot o) as [previous|]; [|done]. exists previous. by bool_prop.
Qed.

Lemma advance_schedule_ok now input generation slot configuration t t' :
  advance_schedule_for_delivery organization now input generation slot configuration t = Ok t' ->
  let key := (nd_trigger input, generation, ts_resolved_slot slot) in
  nd_event_time input = ts_resolved_slot slot
  /\ verify_schedule_configuration slot configuration = Ok tt
  /\ exists s w, ti_slots t !! key = Some s /\ ~ ended_slot s
    /\ watermark_advanced input generation slot (ti_watermarks t !! (nd_trigger input, generation)) w
    /\ t' = t <| ti_watermarks := <[(nd_trigger input, generation) := w]> (ti_watermarks t) |>
              <| ti_slots := <[key := touched now (fired_with (nd_delivery_id input)) s]>
                   (ti_slots t) |>.
Proof.
  intros Hr key. unfold advance_schedule_for_delivery in Hr. rewrite !seq_ok, check_ok in Hr.
  destruct Hr as (_ & _ & _ & _ & Hb & Hv & _ & Hr). cbv zeta in Hr. rewrite bind_ok in Hr.
  destruct Hr as (t1 & Hw & Hr). rewrite bind_ok in Hr. destruct Hr as (t2 & Hu & Hr).
  rewrite guard_ok in Hr. destruct Hr as [Hn [= <-]]. apply negb_false_iff, Nat.eqb_eq in Hn.
  apply orb_false_iff in Hb as [[_ Ht]%orb_false_iff _]. bool_prop.
  split; [done|]. split; [done|].
  assert (exists w, watermark_advanced input generation slot
      (ti_watermarks t !! (nd_trigger input, generation)) w
    /\ t1 = t <| ti_watermarks := <[(nd_trigger input, generation) := w]> (ti_watermarks t) |>)
    as (w & Hadv & ->).
  { destruct (ti_watermarks t !! (nd_trigger input, generation)) as [o|].
    - rewrite seq_ok in Hw. destruct Hw as (_ & [Hp ->]%advance_watermark_ok).
      eexists. split; [|done]. split; [done..|]. by intros ? [= <-].
    - rewrite guard_ok in Hw. destruct Hw as [_ [= <-]].
      eexists. split; [|done]. by split. }
  apply fire_slot_ok in Hu as (s & Hs & Ho & ->); [|done]. exists s, w. by split_and!.
Qed.

End Slots.

(** ** The ledger *)

Section Ledger.
Context `{External} `{DagExternal} `{Md5Hash} `{TriggerHex} `{Postgres} `{CivilTime} `{AuditJson}.
Context (organization : Uuid).

Lemma deliveries_where_nil P t k d :
  deliveries_where P t = [] -> ti_deliveries t !! k = Some d -> P d = false.
Proof.
  intros E Hd. destruct (P d) eqn:HP; [|done]. exfalso.
  assert (In d (deliveries_where P t)) as Hin.
  { apply List.filter_In. split; [|done]. apply list_elem_of_In, list_elem_of_fmap.
    exists (k, d). split; [done|]. by apply elem_of_map_to_list. }
  by rewrite E in Hin.
Qed.

Lemma elem_of_deliveries_where P t d :
  d ∈ deliveries_where P t -> exists k, ti_deliveries t !! k = Some d /\ P d = true.
Proof.
  unfold deliveries_where. intros [Hd HP]%list_elem_of_In%List.filter_In.
  apply list_elem_of_In, list_elem_of_fmap in Hd as ([k d'] & -> & Hd).
  apply elem_of_map_to_list in Hd. by exists k.
Qed.

Lemma find_accepted_none input timing t :
  find_accepted organization input timing t = Ok None ->
  deliveries_where (has_identity (nd_trigger input) (nd_delivery_id input) (nd_event_id input)) t = [].
Proof.
  unfold find_accepted. destruct (deliveries_where _ t) as [|d [|]]; [done| |done].
  by rewrite guard_ok; intros [_ ?].
Qed.

Lemma find_accepted_some input timing t d :
  find_accepted organization input timing t = Ok (Some d) ->
  deliveries_where (has_identity (nd_trigger input) (nd_delivery_id input) (nd_event_id input)) t = [d]
  /\ delivery_matches_timed organization d input timing = true.
Proof.
  unfold find_accepted. destruct (deliveries_where _ t) as [|d' [|]]; [done| |done].
  rewrite guard_ok. intros [?%negb_false_iff [= <-]]. done.
Qed.

(** The slot an acceptance fires, when the trigger is a schedule. *)
Definition slot_accepted (fired_at : Z) (input : NewTriggerDelivery) (v : PipelineTrigger)
    (t t1 : TriggerDb) : Prop :=
  match nd_schedule_slot input with
  | None => pt_kind v <> Schedule /\ t1 = t
  | Some slot =>
      pt_kind v = Schedule /\ nd_event_time input = ts_resolved_slot slot
      /\ verify_schedule_configuration slot (pt_configuration v) = Ok tt
      /\ let key := (nd_trigger input, pt_generation v, ts_resolved_slot slot) in
         exists s w, ti_slots t !! key = Some s /\ ~ ended_slot s
         /\ watermark_advanced organization input (pt_generation v) slot
              (ti_watermarks t !! (nd_trigger input, pt_generation v)) w
         /\ t1 = t <| ti_watermarks := <[(nd_trigger input, pt_generation v) := w]> (ti_watermarks t) |>
                   <| ti_slots := <[key := touched fired_at (fired_with (nd_delivery_id input)) s]>
                        (ti_slots t) |>
  end.

Lemma accept_slot_ok fired_at input v t t1 :
  accept_slot organization fired_at input v t = Ok t1 -> slot_accepted fired_at input v t t1.
Proof.
  unfold accept_slot, slot_accepted.
  destruct (pt_kind v) eqn:K, (nd_schedule_slot input) as [slot|]; try done; try by intros [= <-].
  intros (He & Hv & s & w & Hr)%advance_schedule_ok. split_and!; [done..|]. by exists s, w.
Qed.

Lemma slot_accepted_frame fired_at input v t t1 :
  slot_accepted fired_at input v t t1 ->
  ti_deliveries t1 = ti_deliveries t /\ ti_receipts t1 = ti_receipts t
  /\ ti_versions t1 = ti_versions t /\ ti_definitions t1 = ti_definitions t
  /\ ti_store t1 = ti_store t /\ ti_audit t1 = ti_audit t.
Proof.
  unfold slot_accepted. destruct (nd_schedule_slot input) as [slot|].
  - by intros (_ & _ & _ & s & w & _ & _ & _ & ->).
  - by intros [_ ->].
Qed.

(** A first acceptance. *)
Inductive accepted (fired_at now : Z) (input : NewTriggerDelivery) (timing : DeliveryTiming)
    (t : TriggerDb) (d : TriggerDelivery) (t' : TriggerDb) : Prop :=
| accepted_intro v t1 stamp a e event_time expires_at :
    validate_delivery input = Ok tt ->
    deliveries_where (has_identity (nd_trigger input) (nd_delivery_id input) (nd_event_id input)) t
      = [] ->
    pipeline_trigger t (nd_project input) (nd_pipeline input) (nd_trigger input) = Some v ->
    admissible input v t = Ok tt ->
    slot_accepted fired_at input v t t1 ->
    delivery_times input timing v (trigger_database_unix_ms now) = Ok (event_time, expires_at) ->
    append_audit_record organization "trigger" (nd_caller_identity input)
      "trigger.delivery_accepted" (delivery_subject (nd_trigger input) (nd_delivery_id input))
      (accepted_payload input (pt_generation v) event_time (trigger_database_unix_ms now)
         expires_at) stamp (lock_audit_head (ti_audit t)) = Ok (e, a) ->
    d = accepted_delivery organization input (pt_generation v) event_time
          (trigger_database_unix_ms now) expires_at e ->
    delivery_row_ok d = true ->
    t' = with_row a (nd_trigger input, nd_delivery_id input) d t1 ->
    accepted fired_at now input timing t d t'.

Lemma accept_ok stamp fired_at now input timing t o t' :
  accept_trigger_delivery_timed organization stamp fired_at now input timing t = Ok (o, t') ->
  match o with
  | DeliveryReplayed d => t' = t /\ find_accepted organization input timing t = Ok (Some d)
  | DeliveryCreated d => accepted fired_at now input timing t d t'
  end.
Proof.
  unfold accept_trigger_delivery_timed. rewrite seq_ok, bind_ok. intros (Hv & found & Hf & Hr).
  destruct found as [d|]; [by injection Hr as <- <-|]. rewrite bind_ok in Hr.
  destruct Hr as (v & Ht%ok_or_ok & Hr). rewrite Hf in Hr. cbn [mbind result_bind] in Hr.
  rewrite seq_ok, bind_ok in Hr. destruct Hr as (Ha & t1 & Hs%accept_slot_ok & Hr).
  rewrite bind_ok in Hr. destruct Hr as (truth & _ & Hr). rewrite seq_ok in Hr.
  destruct Hr as (_ & Hr). cbv zeta in Hr. rewrite bind_ok in Hr.
  destruct Hr as ([event_time expires_at] & Htimes & Hr). rewrite bind_ok in Hr.
  destruct Hr as ([e t2] & (a & Haudit & ->)%append_trigger_audit_ok & Hr). rewrite bind_ok in Hr.
  destruct Hr as (t3 & (_ & Hrow & ->)%insert_delivery_ok & Hr). rewrite bind_ok in Hr.
  destruct Hr as (d & Hget%ok_or_ok & [= <- <-]). cbn in Hget. rewrite lookup_insert_eq in Hget.
  injection Hget as <-. destruct (slot_accepted_frame _ _ _ _ _ Hs) as (_ & _ & _ & _ & _ & Eaudit).
  change (ti_audit (lock_head t1)) with (lock_audit_head (ti_audit t1)) in Haudit.
  rewrite Eaudit in Haudit. apply find_accepted_none in Hf.
  exact (accepted_intro _ _ _ _ _ _ _ v t1 stamp a e event_time expires_at
           Hv Hf Ht Ha Hs Htimes Haudit eq_refl Hrow eq_refl).
Qed.

(** A first redrive of the dead letter [o]. *)
Inductive redriven (now : Z) (input : TriggerDeliveryRedrive) (t : TriggerDb) (d : TriggerDelivery)
    (t' : TriggerDb) : Prop :=
| redriven_intro o v stamp a e expires_at :
    deliveries_where (redrive_identity input) t = [] ->
    ti_deliveries t !! (rd_trigger input, rd_dead_letter_delivery_id input) = Some o ->
    td_status o = TDeadLettered -> td_project o = rd_project input ->
    td_pipeline o = rd_pipeline input ->
    acknowledged (rd_trigger input) (rd_new_delivery_id input) (rd_new_event_id input) t = false ->
    ti_versions t !! (rd_trigger input, td_trigger_generation o) = Some v ->
    append_audit_record organization "trigger" (rd_actor_subject input)
      "trigger.delivery_redriven" (delivery_subject (rd_trigger input) (rd_new_delivery_id input))
      (VObject [("dead_letter_delivery_id", VString (rd_dead_letter_delivery_id input));
                ("redrive_ordinal", json_z (redrive_ordinal (rd_trigger input)
                                              (rd_dead_letter_delivery_id input) t));
                ("trigger_generation", json_z (td_trigger_generation o))])
      stamp (lock_audit_head (ti_audit t)) = Ok (e, a) ->
    d = redriven_delivery organization input o
          (redrive_ordinal (rd_trigger input) (rd_dead_letter_delivery_id input) t)
          (trigger_database_unix_ms now) expires_at e ->
    some_delivery (delivery_conflict d) t = false -> delivery_row_ok d = true ->
    t' = with_row a (rd_trigger input, rd_new_delivery_id input) d t ->
    redriven now input t d t'.

Lemma find_redriven_none input t :
  find_redriven input t = Ok None -> deliveries_where (redrive_identity input) t = [].
Proof.
  unfold find_redriven. destruct (deliveries_where _ t) as [|d [|]]; [done| |done].
  by rewrite guard_ok; intros [_ ?].
Qed.

Lemma redrive_ok stamp now input t r t' :
  redrive_trigger_delivery organization stamp now input t = Ok (r, t') ->
  match r with
  | DeliveryReplayed d => t' = t
  | DeliveryCreated d => redriven now input t d t'
  end.
Proof.
  unfold redrive_trigger_delivery. rewrite !seq_ok, bind_ok.
  intros (_ & _ & _ & _ & _ & found & Hf & Hr).
  destruct found as [d|]; [by injection Hr as <- <-|]. rewrite bind_ok in Hr.
  destruct Hr as (o & Ho%ok_or_ok & Hr). rewrite guard_ok, Hf in Hr.
  destruct Hr as (Hd%negb_false_iff%bool_decide_eq_true & Hr). cbn [mbind result_bind] in Hr.
  rewrite guard_ok in Hr. destruct Hr as (Hack & Hr). rewrite bind_ok in Hr.
  destruct Hr as (dv & _ & Hr). rewrite !seq_ok, bind_ok in Hr.
  destruct Hr as (_ & _ & _ & v & Hv%ok_or_ok & Hr). cbv zeta in Hr. rewrite bind_ok in Hr.
  destruct Hr as (expires_at & _ & Hr). rewrite bind_ok in Hr.
  destruct Hr as ([e t2] & (a & Haudit & ->)%append_trigger_audit_ok & Hr). rewrite bind_ok in Hr.
  destruct Hr as (t3 & (Hc & Hrow & ->)%insert_delivery_ok & Hr). rewrite bind_ok in Hr.
  destruct Hr as (d & Hget%ok_or_ok & [= <- <-]). cbn in Hget. rewrite lookup_insert_eq in Hget.
  injection Hget as <-. apply find_redriven_none in Hf.
  apply bind_Some in Ho as (o' & Ho & Hp). destruct (_ && _) eqn:B; [|done].
  injection Hp as ->. bool_prop.
  exact (redriven_intro _ _ _ _ _ o v stamp a e expires_at Hf Ho Hd H6 H7 Hack Hv Haudit
           eq_refl Hc Hrow eq_refl).
Qed.

(** A new version of a trigger. *)
Inductive configured (input : PipelineTriggerWrite) (t : TriggerDb) (v : PipelineTrigger)
    (t' : TriggerDb) : Prop :=
| configured_intro generation created stamp a e m :
    validate_trigger_write input = Ok tt ->
    match ti_definitions t !! tw_trigger input with
    | None => generation = 1 /\ created = true
    | Some d => tdef_project d = tw_project input /\ tdef_pipeline d = tw_pipeline input
                /\ generation = tdef_current_generation d + 1 /\ created = false
    end ->
    v = written_version organization input generation e ->
    ti_versions t !! (tw_trigger input, generation) = None ->
    append_audit_record organization "trigger" (tw_actor_subject input)
      (if created then "trigger.created" else "trigger.revised")
      (trigger_subject (tw_pipeline input) (tw_trigger input)) (put_payload input generation) stamp
      (ti_audit t) = Ok (e, a) -> quiet (ti_slots t) m ->
    t' = t <| ti_audit := a |>
           <| ti_versions := <[(tw_trigger input, generation) := v]> (ti_versions t) |>
           <| ti_definitions := <[tw_trigger input :=
                MkDefinition (tw_project input) (tw_pipeline input) generation]> (ti_definitions t) |>
           <| ti_slots := m |> ->
    configured input t v t'.

Lemma insert_version_ok v t t' :
  insert_version v t = Ok t' ->
  ti_versions t !! (pt_trigger v, pt_generation v) = None
  /\ t' = t <| ti_versions := <[(pt_trigger v, pt_generation v) := v]> (ti_versions t) |>.
Proof.
  unfold insert_version. rewrite !guard_ok. intros (Hn & _ & _ & [= <-]). split; [|done].
  by destruct (ti_versions t !! _).
Qed.

Lemma write_version_ok stamp skip_at now input generation created t t' :
  validate_trigger_write input = Ok tt ->
  match ti_definitions t !! tw_trigger input with
  | None => generation = 1 /\ created = true
  | Some d => tdef_project d = tw_project input /\ tdef_pipeline d = tw_pipeline input
              /\ generation = tdef_current_generation d + 1 /\ created = false
  end ->
  write_version organization stamp skip_at now input generation created t = Ok t' ->
  exists v, configured input t v t'
    /\ current_version t' (tw_trigger input)
        = Some (MkDefinition (tw_project input) (tw_pipeline input) generation, v).
Proof.
  intros Hval Hdef. unfold write_version. rewrite bind_ok.
  intros ([e t1] & (a & Haudit & ->)%append_trigger_audit_ok & Hr). rewrite bind_ok in Hr.
  destruct Hr as (t2 & (Hn & ->)%insert_version_ok & Hr). cbv zeta in Hr.
  match type of Hr with context [update_slots _ _ _ ?x] => set (t3 := x) in Hr end.
  assert (slots_only t3 t') as (m & -> & Hq).
  { destruct (bool_decide _); [|by injection Hr as <-]. rewrite bind_ok in Hr.
    destruct Hr as (t4 & Hu & Hm). etrans; [eapply update_slots_only; [|exact Hu]; done|].
    by eapply materialize_slots_only. }
  exists (written_version organization input generation e). split.
  - exact (configured_intro _ _ _ _ generation _ stamp a e m Hval Hdef eq_refl Hn Haudit Hq eq_refl).
  - unfold current_version. cbn [ti_definitions ti_versions]. cbn. rewrite lookup_insert_eq. cbn.
    by rewrite lookup_insert_eq.
Qed.

Lemma put_ok stamp skip_at now input t o t' :
  put_pipeline_trigger organization stamp skip_at now input t = Ok (o, t') ->
  match o with
  | PreconditionFailed _ | TriggerReplayed _ => t' = t
  | TriggerCreated v | TriggerRevised v => configured input t v t'
  end.
Proof.
  unfold put_pipeline_trigger. rewrite !seq_ok. intros (Hval & _ & Hr).
  destruct (List.find _ _).
  { rewrite guard_ok in Hr. by destruct Hr as [_ [= <- <-]]. }
  assert (forall generation created, match ti_definitions t !! tw_trigger input with
      | None => generation = 1 /\ created = true
      | Some d => tdef_project d = tw_project input /\ tdef_pipeline d = tw_pipeline input
                  /\ generation = tdef_current_generation d + 1 /\ created = false
      end ->
    forall (k : PipelineTrigger -> TriggerPutOutcome),
    (t ← write_version organization stamp skip_at now input generation created t;
     trigger ← ok_or (pipeline_trigger t (tw_project input) (tw_pipeline input) (tw_trigger input))
                 (conflict "committed trigger configuration is missing");
     Ok (k trigger, t)) = Ok (o, t') ->
    exists v, o = k v /\ configured input t v t') as Hwrite.
  { intros generation created Hdef k. rewrite bind_ok. intros (t1 & Hw & Hk).
    eapply write_version_ok in Hw as (v & Hc & Hcur); [|done..]. rewrite bind_ok in Hk.
    destruct Hk as (w & Hw%ok_or_ok & [= <- <-]). unfold pipeline_trigger in Hw.
    rewrite Hcur in Hw. cbn in Hw. rewrite !String.eqb_refl in Hw. injection Hw as <-.
    by exists v. }
  destruct (ti_definitions t !! tw_trigger input) as [d|]; cbn [mbind option_bind is_some] in Hr.
  - destruct (_ && _) eqn:B.
    + destruct (negb _) eqn:G; [by injection Hr as <- <-|]. bool_prop.
      eapply Hwrite in Hr as (v & -> & Hc); [exact Hc|]. by split_and!.
    + destruct (negb _); [by injection Hr as <- <-|]. by rewrite guard_ok in Hr; destruct Hr.
  - destruct (negb _); [by injection Hr as <- <-|]. rewrite guard_ok in Hr. destruct Hr as [_ Hr].
    by eapply Hwrite in Hr as (v & -> & Hc).
Qed.

(** A receipt of a delivery that is not admitted. *)
Inductive recorded (now : Z) (input : NewWebhookReceipt) (t : TriggerDb) (r : WebhookReceipt)
    (t' : TriggerDb) : Prop :=
| recorded_intro stamp a e d :
    ti_receipts t !! (nr_trigger input, nr_delivery_id input) = None ->
    some_delivery (has_identity (nr_trigger input) (nr_delivery_id input) (nr_delivery_id input)) t
      = false ->
    ti_definitions t !! nr_trigger input = Some d ->
    append_audit_record organization "trigger" (nr_caller_identity input)
      "trigger.delivery_unadmitted" (delivery_subject (nr_trigger input) (nr_delivery_id input))
      (receipt_payload input (trigger_database_unix_ms now)) stamp (lock_audit_head (ti_audit t))
      = Ok (e, a) ->
    r = MkReceipt organization (nr_trigger input) (nr_delivery_id input) (nr_event input)
          (nr_body_sha256 input) (nr_status input) (nr_reason input) (nr_caller_identity input)
          (trigger_database_unix_ms now) (ae_sequence e) ->
    t' = t <| ti_audit := a |>
           <| ti_receipts := <[(nr_trigger input, nr_delivery_id input) := r]> (ti_receipts t) |> ->
    recorded now input t r t'.

Lemma record_ok stamp now input t o t' :
  record_unadmitted_webhook_delivery organization stamp now input t = Ok (o, t') ->
  match o with
  | ReceiptReplayed r => t' = t /\ ti_receipts t !! (nr_trigger input, nr_delivery_id input) = Some r
  | ReceiptRecorded r => recorded now input t r t'
  end.
Proof.
  unfold record_unadmitted_webhook_delivery. rewrite !seq_ok. intros (_ & _ & _ & _ & _ & Hr).
  destruct (ti_receipts t !! _) as [r|] eqn:E.
  { destruct (_ && _); [by injection Hr as <- <-|done]. }
  rewrite guard_ok in Hr. destruct Hr as (Hs & Hr). rewrite bind_ok in Hr.
  destruct Hr as (d & Hd%ok_or_ok & Hr). rewrite seq_ok in Hr. destruct Hr as (_ & Hr).
  cbv zeta in Hr. rewrite bind_ok in Hr.
  destruct Hr as ([e t2] & (a & Haudit & ->)%append_trigger_audit_ok & Hr). rewrite guard_ok in Hr.
  destruct Hr as (_ & [= <- <-]).
  exact (recorded_intro _ _ _ _ _ stamp a e d E Hs Hd Haudit eq_refl eq_refl).
Qed.

(** The export: lapsed claims go, and the hand-off is recorded. *)
Lemma export_ok stamp now project pipeline trigger actor t s t' :
  export_quiesced_trigger_state organization stamp now project pipeline trigger actor t = Ok (s, t') ->
  let now_ms := trigger_database_unix_ms now in
  exists v a e ledger state,
    pipeline_trigger t project pipeline trigger = Some v /\ pt_state v = TriggerIsPaused
    /\ let t1 := t <| ti_deliveries :=
            (fun d => if claim_lapsed project pipeline trigger now_ms d then released d else d)
              <$> ti_deliveries t |> in
       let s0 := trigger_ledger organization project pipeline trigger (pt_generation v) t1 in
       trigger_transfer_ledger_digest s0 = Ok ledger
       /\ append_audit_record organization "trigger" actor "trigger.handoff_exported"
            (trigger_subject pipeline trigger) (handoff_payload s0 ledger) stamp (ti_audit t)
          = Ok (e, a)
       /\ s = with_state (with_handoff s0 e) state
       /\ verify_trigger_transfer_snapshot s (ae_event_hash e) = Ok tt
       /\ t' = with_audit a t1
       /\ some_delivery (fun d => claim_lapsed project pipeline trigger now_ms d
            && negb (guard_trigger_delivery d (released d) && delivery_row_ok (released d))) t = false.
Proof.
  intros Hr now_ms. unfold export_quiesced_trigger_state in Hr. rewrite seq_ok, bind_ok in Hr.
  destruct Hr as (_ & current & Hc%ok_or_ok & Hr). rewrite bind_ok in Hr.
  destruct Hr as (t1 & Hreap & Hr). unfold reap_claims in Hreap. cbv zeta in Hreap.
  rewrite guard_ok in Hreap. destruct Hreap as [Hg [= <-]]. cbv zeta in Hr. rewrite guard_ok in Hr.
  destruct Hr as (_ & Hr). rewrite bind_ok in Hr. destruct Hr as (ledger & Hl & Hr).
  rewrite bind_ok in Hr. destruct Hr as ([e t2] & (a & Ha & Et)%append_trigger_audit_ok & Hr).
  rewrite bind_ok in Hr. destruct Hr as (state & Hs & Hr). rewrite seq_ok in Hr.
  destruct Hr as (Hv & [= <- <-]). subst t2.
  apply bind_Some in Hc as (v & Hp & Hc). destruct (bool_decide _) eqn:B; [|done].
  injection Hc as <-. apply bool_decide_eq_true in B.
  exists v, a, e, ledger, state. cbv zeta.
  exact (conj Hp (conj B (conj Hl (conj Ha (conj eq_refl (conj Hv (conj eq_refl Hg))))))).
Qed.

End Ledger.
