(* ===== verification/TriggerHistory.v ===== *)
(** * Histories of trigger operations

    A step is one committed transaction of an operation, or of another module
    of the store, which keeps the identity of builds and may extend the audit
    chain. Each step is one of five effects: it moves deliveries along their
    machine, accepts one, redrives one, configures a trigger or records a
    receipt. The runner's calls are sequences of steps. *)

From stdpp Require Import base gmap list sorting strings relations.
From Stdlib Require Import Ascii ZArith Lia.
From S2P Require Import Prelude Text Bytes Domain DagContract StoreTables AuditChain.
From S2P Require Import ScheduleCalendar TriggerTables TriggerValidation TriggerSchedule.
From S2P Require Import DagRuntime TriggerIngress TriggerDeliveries TriggerTransfer.
From S2P Require Import StoreFrames TriggerMoves TriggerEffects.

Open Scope Z_scope.

(** ** Builds *)

(** No build goes, and none changes its project or pipeline. *)
Definition builds_kept (db db' : Db) : Prop :=
  forall k b, builds db !! k = Some b -> exists b', builds db' !! k = Some b'
    /\ b_project b' = b_project b /\ b_pipeline b' = b_pipeline b.

#[export] Instance builds_kept_preorder : PreOrder builds_kept.
Proof.
  split; [intros db k b Hb; by exists b|].
  intros d1 d2 d3 K1 K2 k b Hb. destruct (K1 k b Hb) as (b2 & H2 & E1 & E2).
  destruct (K2 k b2 H2) as (b3 & H3 & F1 & F2). exists b3. split_and!; congruence.
Qed.

(** A build of the project and pipeline. *)
Definition build_of (db : Db) (build project pipeline : Uuid) : Prop :=
  exists b, builds db !! build = Some b /\ b_project b = project /\ b_pipeline b = Some pipeline.

Lemma build_of_kept db db' build project pipeline :
  builds_kept db db' -> build_of db build project pipeline -> build_of db' build project pipeline.
Proof.
  intros K (b & Hb & E1 & E2). destruct (K _ _ Hb) as (b' & Hb' & F1 & F2).
  exists b'. split_and!; congruence.
Qed.

Section Admission.
Context `{PG : Postgres} `{DX : DagExternal}.

Lemma admit_nodes_builds now build l m db m' db' :
  try_fold (admit_node now build) (m, db) l = Ok (m', db') -> builds db' = builds db.
Proof.
  revert m db. induction l as [|e l IH]; intros m db Hr; cbn [try_fold] in Hr; inv_tx; [done|].
  destruct a as [m1 d1]. etrans; [by eapply IH|]. unfold admit_node in Hr0.
  destruct e as [node [ni ai]]. inv_tx. unfold insert_attempt in *. inv_tx. done.
Qed.

Lemma find_build_some db project key i b :
  find_build db project key = Some (i, b) -> builds db !! i = Some b /\ b_project b = project.
Proof.
  unfold find_build. intros Hh. apply head_Some_elem_of in Hh.
  apply list_elem_of_In, List.filter_In in Hh as [Hi Hp]. apply list_elem_of_In in Hi.
  apply elem_of_map_to_list in Hi. cbn in Hp. by bool_prop.
Qed.

Lemma admit_dag_builds now build ids dag db r db' :
  admit_dag_transaction now build ids dag db = Ok (r, db') ->
  builds_kept db db' /\ build_of db' (adm_build r) (project_id dag) (pipeline_id dag).
Proof.
  unfold admit_dag_transaction. rewrite bind_ok. intros (_ & _ & Hr).
  unfold admit_dag_contract_transaction in Hr. rewrite bind_ok in Hr.
  destruct Hr as (_ & _ & Hr). destruct (find_build _ _ _) as [[i b]|] eqn:E.
  - rewrite bind_ok in Hr. destruct Hr as (adm & Ha & [= <- <-]). split; [done|].
    unfold existing_dag_admission in Ha. rewrite E in Ha. rewrite !guard_ok in Ha.
    destruct Ha as (Hc & _ & [= <-]). apply find_build_some in E as [Hb Hp].
    exists b. split_and!; [done..|]. bool_prop. destruct (b_pipeline b); cbn in *; [|done].
    f_equal. by bool_prop.
  - rewrite bind_ok in Hr. destruct Hr as (digest & _ & Hr). rewrite !guard_ok, bind_ok in Hr.
    destruct Hr as (_ & Hn & [m db1] & Hf & [= <- <-]). apply admit_nodes_builds in Hf.
    apply bool_decide_eq_false, eq_None_not_Some in Hn. split.
    + intros k b Hb. exists b. split; [|done]. cbn. rewrite Hf. cbn.
      rewrite lookup_insert_ne; [done|]. intros <-. congruence.
    + eexists. split; [cbn; rewrite Hf; cbn; apply lookup_insert_eq|done].
Qed.

End Admission.

(** ** Steps *)

Section Steps.
Context `{External} `{DagExternal} `{Md5Hash} `{TriggerHex} `{Postgres} `{CivilTime} `{AuditJson}.
Context (organization : Uuid).

(** The events of the calls, from their requests and the clocks they read. *)
Definition claim_event (now : Z) (input : TriggerDeliveryClaimRequest) : delivery_event :=
  Claiming (cr_trigger input, cr_delivery_id input) (cr_worker_identity input)
    (cr_lease_expires_at input - cr_now input) (trigger_database_unix_ms now).
Definition admit_event (clock : AdmissionClock) (input : TriggerDeliveryDagAdmissionRequest) :
    delivery_event :=
  Admitting (ar_trigger input, ar_delivery_id input) (ar_worker_identity input) (ar_claim_fence input)
    (trigger_database_unix_ms (ac_now clock)) (trigger_database_unix_ms (ac_bind clock))
    (trigger_database_unix_ms (ac_lease clock)) (trigger_database_unix_ms (ac_late clock)).
Definition fail_event (now : Z) (input : TriggerDeliveryFailureRequest) : delivery_event :=
  Failing (fr_trigger input, fr_delivery_id input) (fr_worker_identity input) (fr_claim_fence input)
    (if fr_retryable input then Some (fr_retry_at input - fr_now input) else None)
    (fr_reason input) (trigger_database_unix_ms now).

(** A committed call, labelled with its event. *)
Inductive trigger_call : delivery_event -> TriggerDb -> TriggerDb -> Prop :=
| step_put stamp skip_at now input o t t' :
    put_pipeline_trigger organization stamp skip_at now input t = Ok (o, t') ->
    trigger_call Elsewhere t t'
| step_record stamp now input o t t' :
    record_unadmitted_webhook_delivery organization stamp now input t = Ok (o, t') ->
    trigger_call Elsewhere t t'
| step_accept stamp fired_at now input timing o t t' :
    accept_trigger_delivery_timed organization stamp fired_at now input timing t = Ok (o, t') ->
    trigger_call (Accepting (nd_trigger input, nd_delivery_id input)) t t'
| step_claim stamp first now input o t t' :
    claim_trigger_delivery organization stamp first now input t = Ok (o, t') ->
    trigger_call (claim_event now input) t t'
| step_admit clock ids input dag o t t' :
    admit_trigger_delivery_dag organization clock ids input dag t = Ok (o, t') ->
    trigger_call (admit_event clock input) t t'
| step_fail stamp now input o t t' :
    fail_trigger_delivery organization stamp now input t = Ok (o, t') ->
    trigger_call (fail_event now input) t t'
| step_redrive stamp now input o t t' :
    redrive_trigger_delivery organization stamp now input t = Ok (o, t') ->
    trigger_call (Accepting (rd_trigger input, rd_new_delivery_id input)) t t'
| step_export stamp now project pipeline trigger actor o t t' :
    export_quiesced_trigger_state organization stamp now project pipeline trigger actor t
      = Ok (o, t') -> trigger_call (Exporting trigger (trigger_database_unix_ms now)) t t'
| step_claim_slot now now_ms locked due o t t' :
    claim_due_slot now now_ms locked due t = Ok (o, t') -> trigger_call Elsewhere t t'
| step_reopen now trigger generation time t :
    trigger_call Elsewhere t (reopen_slot now trigger generation time t)
| step_extend now o t t' :
    extend_schedule_horizons now t = Ok (o, t') -> trigger_call Elsewhere t t'
| step_rest db a t :
    builds_kept (ti_store t) db -> audit_next organization (ti_audit t) a ->
    trigger_call Elsewhere t (with_audit a (t <| ti_store := db |>)).

Definition trigger_step (t t' : TriggerDb) : Prop := exists e, trigger_call e t t'.

Lemma call_step e t t' : trigger_call e t t' -> trigger_step t t'.
Proof. by exists e. Qed.

(** A history with the events of its calls, in order. *)
Inductive trigger_run : list delivery_event -> TriggerDb -> TriggerDb -> Prop :=
| trigger_run_end t : trigger_run [] t t
| trigger_run_call e l t1 t2 t3 :
    trigger_call e t1 t2 -> trigger_run l t2 t3 -> trigger_run (e :: l) t1 t3.

Lemma run_steps l t t' : trigger_run l t t' -> rtc trigger_step t t'.
Proof. induction 1; [done|]. eapply rtc_l; [by eapply call_step|done]. Qed.

Lemma steps_run t t' : rtc trigger_step t t' -> exists l, trigger_run l t t'.
Proof.
  induction 1 as [t|t1 t2 t3 [e He] _ [l Hl]]; [exists []; constructor|].
  exists (e :: l). by eapply trigger_run_call.
Qed.

(** Tables without a trigger, beside any store and any audit chain. *)
Definition no_triggers (t : TriggerDb) : Prop :=
  ti_definitions t = ∅ /\ ti_versions t = ∅ /\ ti_deliveries t = ∅ /\ ti_receipts t = ∅
  /\ ti_watermarks t = ∅ /\ ti_slots t = ∅.

Definition trigger_reachable (t : TriggerDb) : Prop :=
  exists start, no_triggers start /\ rtc trigger_step start t.

(** The runner makes steps only, whatever it returns. *)
Lemma fire_one_steps f t : rtc trigger_step t (fire_one_due_schedule_slot organization f t).2.
Proof.
  unfold fire_one_due_schedule_slot. cbv zeta. destruct (pick_due_trigger _ _ _) as [due|]; [|done].
  destruct (claim_due_slot _ _ _ _ _) as [[[input|] t1]|] eqn:E; [| |done];
    apply step_claim_slot, call_step in E; [|by apply rtc_once].
  eapply rtc_l; [exact E|].
  destruct (accept_trigger_delivery _ _ _ _ _ _) as [[a t2]|] eqn:Ea; apply rtc_once.
  - by eapply call_step, step_accept.
  - eapply call_step, step_reopen.
Qed.

Lemma process_due_steps limit firings extend_at t :
  rtc trigger_step t (process_due_schedule_slots organization limit firings extend_at t).2.
Proof.
  unfold process_due_schedule_slots. destruct (limit <=? 0); [done|].
  assert (forall n firings fired t, rtc trigger_step t (fire_due organization n firings fired t).2)
    as Hfire.
  { clear. induction n as [|n IH]; intros firings fired t; cbn [fire_due]; [done|].
    pose proof (fire_one_steps (firings 0%nat) t) as Hs.
    destruct (fire_one_due_schedule_slot _ _ _) as [[[d|]|] t1]; cbn in *; [|done..].
    etrans; [exact Hs|apply IH]. }
  specialize (Hfire (Z.to_nat limit) firings 0 t).
  destruct (fire_due _ _ _ _ _) as [[fired|] t1]; cbn in *; [|done].
  destruct (extend_schedule_horizons _ _) as [[x t2]|] eqn:E; cbn; [|done].
  eapply rtc_r; [exact Hfire|]. by eapply call_step, step_extend.
Qed.

(** ** Effects *)

(** Deliveries move along their machine; no row comes or goes. *)
Record progressed (e : delivery_event) (t t' : TriggerDb) : Prop := {
  pr_rows k : ti_deliveries t' !! k = ti_deliveries t !! k
    \/ exists d d', ti_deliveries t !! k = Some d /\ ti_deliveries t' !! k = Some d'
         /\ delivery_move (ti_versions t) k e (Some d) (Some d') /\ delivery_row_ok d' = true
         /\ (td_build d' = td_build d
             \/ exists b, td_build d' = Some b
                  /\ build_of (ti_store t') b (td_project d') (td_pipeline d'));
  pr_receipts : ti_receipts t' = ti_receipts t;
  pr_versions : ti_versions t' = ti_versions t;
  pr_definitions : ti_definitions t' = ti_definitions t;
  pr_watermarks : ti_watermarks t' = ti_watermarks t;
  pr_slots : quiet (ti_slots t) (ti_slots t');
  pr_builds : builds_kept (ti_store t) (ti_store t');
  pr_audit : audit_next organization (ti_audit t) (ti_audit t')
}.

Lemma progressed_audit e a t :
  audit_next organization (ti_audit t) a -> progressed e t (with_audit a t).
Proof. intros Ha. split; try done. by left. Qed.

Lemma progressed_slots e t t' : slots_only t t' -> progressed e t t'.
Proof. intros (m & -> & Hq). split; try done; [by left|constructor]. Qed.

(** One row moves, and nothing else but the audit chain. *)
Lemma progressed_row e a k d d' t :
  ti_deliveries t !! k = Some d -> audit_next organization (ti_audit t) a ->
  delivery_move (ti_versions t) k e (Some d) (Some d') -> td_build d' = td_build d ->
  delivery_row_ok d' = true -> progressed e t (with_row a k d' t).
Proof.
  intros Hd Ha Hm Hb Hrow. split; try done. intros k'. cbn.
  destruct (decide (k = k')) as [<-|Hk].
  - right. exists d, d'. rewrite lookup_insert_eq. split_and!; [done..|by left].
  - left. by rewrite lookup_insert_ne.
Qed.

Lemma progressed_refl e t : progressed e t t.
Proof. split; try done; [by left|constructor]. Qed.

Lemma claim_progressed stamp first now input o t t' :
  claim_trigger_delivery organization stamp first now input t = Ok (o, t') ->
  progressed (claim_event now input) t t'.
Proof.
  intros (d & a & Hd & Ha & Ho)%claim_ok. destruct o as [d'|d'|d'|d'].
  - destruct Ho as (H1' & H2' & H3' & H4' & -> & -> & Hrow).
    eapply progressed_row; [exact Hd|done| |done|done]. by apply move_claim.
  - destruct Ho as (_ & _ & ->). by apply progressed_audit.
  - destruct Ho as (_ & _ & ->). by apply progressed_audit.
  - destruct Ho as [(_ & _ & ->)|(H1' & H2' & -> & -> & Hrow)]; [by apply progressed_audit|].
    eapply progressed_row; [exact Hd|done| |done|done]. by apply move_expire.
Qed.

Lemma fail_progressed stamp now input o t t' :
  fail_trigger_delivery organization stamp now input t = Ok (o, t') ->
  progressed (fail_event now input) t t'.
Proof.
  intros (d & v & a & Hd & Hv & Hopen & Ha & Ho)%fail_ok. destruct o as [d'|d'|d'].
  - destruct Ho as (H1' & H2' & H3' & H4' & H5' & -> & -> & Hrow).
    eapply progressed_row; [exact Hd|done| |done|done]. unfold fail_event. rewrite H4'.
    by eapply move_retry.
  - destruct Ho as (H1' & H2' & -> & -> & Hrow).
    eapply progressed_row; [exact Hd|done| |done|done]. eapply move_give_up; [done..|].
    destruct (fr_retryable input); [|by left]. right. by destruct H2'.
  - destruct Ho as (_ & ->). by apply progressed_audit.
Qed.

Lemma admit_progressed clock ids input dag o t t' :
  admit_trigger_delivery_dag organization clock ids input dag t = Ok (o, t') ->
  progressed (admit_event clock input) t t'.
Proof.
  intros (d & a & Hd & Hopen & Hw & Hf & Ha & Ho)%admit_ok. destruct o as [d' admission|d'|d'].
  - destruct Ho as (db & Hn & Ht & Hl & He & Hadm & Hp & Hq & -> & -> & Hrow).
    apply admit_dag_builds in Hadm as [Hk Hb]. split; try done. intros k'. cbn.
    destruct (decide ((ar_trigger input, ar_delivery_id input) = k')) as [<-|Hne];
      [|left; by rewrite lookup_insert_ne].
    right. exists d, (admitted_with (adm_build admission) d). rewrite lookup_insert_eq.
    split_and!; [done..|by apply move_admit|done|]. right. exists (adm_build admission).
    cbn. by rewrite Hp, Hq.
  - destruct Ho as (He & -> & -> & Hrow).
    eapply progressed_row; [exact Hd|done| |done|done]. by apply move_expire_claimed.
  - destruct Ho as (_ & ->). by apply progressed_audit.
Qed.

Lemma lapsed_open project pipeline trigger now_ms t k d :
  some_delivery (fun d => claim_lapsed project pipeline trigger now_ms d
    && negb (guard_trigger_delivery d (released d) && delivery_row_ok (released d))) t = false ->
  ti_deliveries t !! k = Some d -> claim_lapsed project pipeline trigger now_ms d = true ->
  delivery_move (ti_versions t) k (Exporting trigger now_ms) (Some d) (Some (released d)) /\ delivery_row_ok (released d) = true.
Proof.
  intros Hs Hd Hl. eapply some_delivery_false in Hs; [|exact Hd]. rewrite Hl in Hs.
  cbn [andb] in Hs. apply negb_false_iff, andb_true_iff in Hs as [Hg Hrow]. split; [|done].
  unfold guard_trigger_delivery in Hg. rewrite !andb_true_iff in Hg.
  destruct Hg as [[[[[[[Hg _] _] _] _] _] _] _]. apply negb_true_iff in Hg.
  unfold claim_lapsed in Hl. rewrite !andb_true_iff in Hl.
  destruct Hl as [[[_ <-%String.eqb_eq] Ho] He].
  destruct (td_claim_owner d) as [w|] eqn:Ew; [|done].
  destruct (td_claim_expires_at d) as [lease|] eqn:El; [|done]. cbn in He. bool_prop.
  by eapply move_reap.
Qed.

Lemma export_progressed stamp now project pipeline trigger actor o t t' :
  export_quiesced_trigger_state organization stamp now project pipeline trigger actor t = Ok (o, t') ->
  progressed (Exporting trigger (trigger_database_unix_ms now)) t t'.
Proof.
  intros (v & a & e & ledger & state & _ & _ & _ & Ha & _ & _ & -> & Hs)%export_ok.
  split; try done.
  - intros k. cbn. rewrite lookup_fmap. destruct (ti_deliveries t !! k) as [d|] eqn:Hd; [|by left].
    cbn. destruct (claim_lapsed _ _ _ _ d) eqn:El; [|by left]. right. exists d, (released d).
    destruct (lapsed_open _ _ _ _ _ _ _ Hs Hd El). split_and!; [done..|by left].
  - eapply audit_appended; [exact Ha|constructor].
Qed.

Inductive trigger_effect (t t' : TriggerDb) : delivery_event -> Prop :=
| effect_progress e : progressed e t t' -> trigger_effect t t' e
| effect_accept fired_at now input timing d :
    accepted organization fired_at now input timing t d t' ->
    trigger_effect t t' (Accepting (nd_trigger input, nd_delivery_id input))
| effect_redrive now input d :
    redriven organization now input t d t' ->
    trigger_effect t t' (Accepting (rd_trigger input, rd_new_delivery_id input))
| effect_configure input v :
    configured organization input t v t' -> trigger_effect t t' Elsewhere
| effect_record now input r :
    recorded organization now input t r t' -> trigger_effect t t' Elsewhere.

Lemma step_effect e t t' : trigger_call e t t' -> trigger_effect t t' e.
Proof.
  destruct 1 as [? ? ? ? o ? ? E|? ? ? o ? ? E|? ? ? ? ? o ? ? E|? ? ? ? o ? ? E|? ? ? ? o ? ? E
    |? ? ? o ? ? E|? ? ? o ? ? E|? ? ? ? ? ? o ? ? E|? ? ? ? o ? ? E| |? o ? ? E|db a t Hk Ha].
  - apply put_ok in E. destruct o; try (subst; apply effect_progress, progressed_refl);
      by eapply effect_configure.
  - apply record_ok in E. destruct o; [by eapply effect_record|]. destruct E as [-> _].
    apply effect_progress, progressed_refl.
  - apply accept_ok in E. destruct o; [by eapply effect_accept|]. destruct E as [-> _].
    apply effect_progress, progressed_refl.
  - by eapply effect_progress, claim_progressed.
  - by eapply effect_progress, admit_progressed.
  - by eapply effect_progress, fail_progressed.
  - apply redrive_ok in E. destruct o; [by eapply effect_redrive|]. subst.
    apply effect_progress, progressed_refl.
  - by eapply effect_progress, export_progressed.
  - by eapply effect_progress, progressed_slots, claim_due_slot_only.
  - apply effect_progress, progressed_slots, reopen_slots_only.
  - by eapply effect_progress, progressed_slots, extend_slots_only.
  - apply effect_progress. split; try done. by left.
Qed.

End Steps.
