(* ===== verification/TriggerLedger.v ===== *)
(** * What every history of the trigger ledger keeps

    The well-formedness of the ledger, and that every effect keeps it: keys and
    event identities are unique per trigger, a delivery belongs to a version of
    its trigger, its attempts stay within the version's limit, its row agrees
    with its status, a redrive continues a dead letter under its own ordinal,
    a receipt's identifier is no delivery's, and an admitted delivery names a
    build of its pipeline. *)

From stdpp Require Import base gmap list sorting strings relations.
From Stdlib Require Import Ascii ZArith Lia.
From S2P Require Import Prelude Text Bytes Domain DagContract StoreTables AuditChain.
From S2P Require Import ScheduleCalendar TriggerTables TriggerValidation TriggerSchedule.
From S2P Require Import DagRuntime TriggerIngress TriggerDeliveries TriggerTransfer.
From S2P Require Import StoreFrames TriggerMoves TriggerEffects TriggerHistory.

Open Scope Z_scope.

(** ** What a move keeps *)

(** The columns of a delivery that are set once. *)
Definition identity_of (d : TriggerDelivery) : TriggerDelivery :=
  d <| td_status := TPending |> <| td_attempt_count := 0 |> <| td_next_attempt_at := 0 |>
    <| td_claim_owner := None |> <| td_claim_fence := 0 |> <| td_claim_expires_at := None |>
    <| td_build := None |> <| td_terminal_reason := None |>.

Record delivery_typed (d : TriggerDelivery) : Prop := {
  dt_status : delivery_status_ok d = true;
  dt_attempts : 0 <= td_attempt_count d;
  dt_fence : 0 <= td_claim_fence d;
  dt_ttl : td_accepted_at d < td_expires_at d
}.

Lemma move_open vs k e d d' : delivery_move vs k e (Some d) (Some d') -> open_delivery d.
Proof. by inversion 1. Qed.

Lemma move_identity vs k e d d' :
  delivery_move vs k e (Some d) (Some d') -> identity_of d' = identity_of d.
Proof. by inversion 1. Qed.

Lemma identity_fields d d' :
  identity_of d' = identity_of d ->
  td_trigger d' = td_trigger d /\ td_delivery_id d' = td_delivery_id d
  /\ td_event_id d' = td_event_id d /\ td_project d' = td_project d
  /\ td_pipeline d' = td_pipeline d /\ td_trigger_generation d' = td_trigger_generation d
  /\ td_redrive_of d' = td_redrive_of d /\ td_redrive_ordinal d' = td_redrive_ordinal d.
Proof. unfold identity_of. intros E. injection E. intros. by split_and!. Qed.

Lemma move_fence vs k e d d' :
  delivery_move vs k e (Some d) (Some d') ->
  td_claim_fence d <= td_claim_fence d' /\ td_attempt_count d <= td_attempt_count d' <= td_attempt_count d + 1.
Proof. inversion 1; subst; cbn; lia. Qed.

Lemma move_attempts vs k e d d' v :
  delivery_move vs k e (Some d) (Some d') ->
  vs !! (k.1, td_trigger_generation d) = Some v ->
  td_attempt_count d < pt_max_delivery_attempts v ->
  (open_delivery d' -> td_attempt_count d' < pt_max_delivery_attempts v)
  /\ td_attempt_count d' <= pt_max_delivery_attempts v.
Proof.
  inversion 1; subst; cbn in *; intros Hv Hlt; unfold open_delivery; cbn; split; try done; try lia.
  intros _. assert (v0 = v) as -> by congruence. lia.
Qed.

Lemma move_typed_delivery vs k e d d' :
  delivery_move vs k e (Some d) (Some d') -> delivery_typed d -> delivery_typed d'.
Proof.
  intros Hm [Hs Ha Hf Ht]. pose proof (move_fence _ _ _ _ _ Hm). pose proof (move_identity _ _ _ _ _ Hm) as Hi.
  split; [|lia..|].
  - inversion Hm; subst; unfold delivery_status_ok, open_delivery in *; cbn in *;
      destruct (td_status d), (td_build d), (td_terminal_reason d); cbn in *; done.
  - unfold identity_of in Hi. injection Hi. intros. congruence.
Qed.

Lemma fresh_typed d : fresh_delivery d -> delivery_typed d.
Proof.
  intros []. split; [|lia..|done]. unfold delivery_status_ok.
  by rewrite fresh_status, fresh_build, fresh_reason, fresh_owner, fresh_lease.
Qed.

(** ** The invariant *)

Section Ledger.
Context `{External} `{DagExternal} `{Md5Hash} `{TriggerHex} `{Postgres} `{CivilTime} `{AuditJson}.
Context (organization : Uuid).

(** A version of a delivery's trigger that admits it. *)
Definition version_admits (v : PipelineTrigger) (d : TriggerDelivery) : Prop :=
  pt_project v = td_project d /\ pt_pipeline v = td_pipeline d
  /\ td_attempt_count d <= pt_max_delivery_attempts v
  /\ (open_delivery d -> td_attempt_count d < pt_max_delivery_attempts v).

(** What a redrive takes over from its dead letter. *)
Definition continues (o d : TriggerDelivery) : Prop :=
  td_trigger_generation d = td_trigger_generation o /\ td_project d = td_project o
  /\ td_pipeline d = td_pipeline o /\ td_event_kind d = td_event_kind o
  /\ td_caller_identity d = td_caller_identity o /\ td_payload_sha256 d = td_payload_sha256 o
  /\ td_event_time d = td_event_time o.

Record ledger_ok (t : TriggerDb) : Prop := {
  lo_key k d : ti_deliveries t !! k = Some d -> k = (td_trigger d, td_delivery_id d);
  lo_event k d k' d' : ti_deliveries t !! k = Some d -> ti_deliveries t !! k' = Some d' ->
    k.1 = k'.1 -> td_event_id d = td_event_id d' -> k = k';
  lo_typed k d : ti_deliveries t !! k = Some d -> delivery_typed d;
  lo_row k d : ti_deliveries t !! k = Some d -> delivery_row_ok d = true;
  lo_admits k d : ti_deliveries t !! k = Some d ->
    exists v, ti_versions t !! (k.1, td_trigger_generation d) = Some v /\ version_admits v d;
  lo_version k v : ti_versions t !! k = Some v ->
    k = (pt_trigger v, pt_generation v) /\ 1 <= pt_max_delivery_attempts v
    /\ exists def, ti_definitions t !! k.1 = Some def /\ tdef_project def = pt_project v
         /\ tdef_pipeline def = pt_pipeline v /\ 1 <= k.2 <= tdef_current_generation def;
  lo_lineage trigger def g : ti_definitions t !! trigger = Some def ->
    1 <= g <= tdef_current_generation def -> is_Some (ti_versions t !! (trigger, g));
  lo_current trigger def : ti_definitions t !! trigger = Some def -> 1 <= tdef_current_generation def;
  lo_receipt k r : ti_receipts t !! k = Some r -> k = (wr_trigger r, wr_delivery_id r);
  lo_disjoint q r k d : ti_receipts t !! q = Some r -> ti_deliveries t !! k = Some d ->
    k.1 = q.1 -> k.2 <> q.2 /\ td_event_id d <> q.2;
  lo_redrive k d o : ti_deliveries t !! k = Some d -> td_redrive_of d = Some o ->
    is_Some (td_redrive_ordinal d)
    /\ exists d0, ti_deliveries t !! (k.1, o) = Some d0 /\ td_status d0 = TDeadLettered
         /\ continues d0 d;
  lo_ordinal k d k' d' : ti_deliveries t !! k = Some d -> ti_deliveries t !! k' = Some d' ->
    k.1 = k'.1 -> is_Some (td_redrive_of d) -> td_redrive_of d = td_redrive_of d' ->
    td_redrive_ordinal d = td_redrive_ordinal d' -> k = k';
  lo_build k d b : ti_deliveries t !! k = Some d -> td_build d = Some b ->
    build_of (ti_store t) b (td_project d) (td_pipeline d)
}.

Lemma no_triggers_ok t : no_triggers t -> ledger_ok t.
Proof.
  intros (Ed & Ev & Edl & Er & _ & _).
  split; intros *; rewrite ?Ed, ?Ev, ?Edl, ?Er; by rewrite ?lookup_empty.
Qed.

(** ** Progress *)

Lemma continues_identity o o' d d' :
  identity_of o' = identity_of o -> identity_of d' = identity_of d -> continues o d -> continues o' d'.
Proof.
  unfold identity_of. intros Eo Ed. injection Eo. injection Ed. unfold continues. intros.
  destruct_and!. split_and!; congruence.
Qed.

(** A row after progress comes from a row before, of the same identity. *)
Lemma progressed_back e t t' k d' :
  progressed organization e t t' -> ti_deliveries t' !! k = Some d' ->
  exists d, ti_deliveries t !! k = Some d /\ identity_of d' = identity_of d
    /\ (d' = d \/ delivery_move (ti_versions t) k e (Some d) (Some d')).
Proof.
  intros Hp Hd'. destruct (pr_rows _ _ _ _ Hp k) as [E|(d & d1 & Hd & Hd1 & Hm & _)].
  - exists d'. rewrite E in Hd'. by split_and!; [..|left].
  - assert (d1 = d') as -> by congruence. exists d. split_and!; [done|by eapply move_identity|by right].
Qed.

Lemma progressed_on e t t' k d :
  progressed organization e t t' -> ti_deliveries t !! k = Some d ->
  exists d', ti_deliveries t' !! k = Some d' /\ identity_of d' = identity_of d
    /\ (d' = d \/ delivery_move (ti_versions t) k e (Some d) (Some d')).
Proof.
  intros Hp Hd. destruct (pr_rows _ _ _ _ Hp k) as [E|(d1 & d' & Hd1 & Hd' & Hm & _)].
  - exists d. rewrite E. by split_and!; [..|left].
  - assert (d1 = d) as -> by congruence. exists d'. split_and!; [done|by eapply move_identity|by right].
Qed.

Lemma progressed_admits vs k e d d' v :
  d' = d \/ delivery_move vs k e (Some d) (Some d') -> identity_of d' = identity_of d ->
  vs !! (k.1, td_trigger_generation d) = Some v -> version_admits v d -> version_admits v d'.
Proof.
  intros [->|Hm] Hi Hv (Hp & Hq & Hle & Hlt); [done|].
  destruct (identity_fields _ _ Hi) as (_ & _ & _ & Ep & Eq & _).
  destruct (move_attempts _ _ _ _ _ _ Hm Hv) as [Ho Hl].
  { apply Hlt. by eapply move_open. }
  split_and!; [congruence..|done|done].
Qed.

Lemma progressed_ok e t t' : progressed organization e t t' -> ledger_ok t -> ledger_ok t'.
Proof.
  intros Hp Hok. split.
  - intros k d' (d & Hd & Hi & _)%(progressed_back _ _ _ _ _ Hp).
    destruct (identity_fields _ _ Hi) as (-> & -> & _). by apply (lo_key _ Hok).
  - intros k d' k2 d2' (d & Hd & Hi & _)%(progressed_back _ _ _ _ _ Hp)
      (d2 & Hd2 & Hi2 & _)%(progressed_back _ _ _ _ _ Hp).
    destruct (identity_fields _ _ Hi) as (_ & _ & -> & _).
    destruct (identity_fields _ _ Hi2) as (_ & _ & -> & _). by apply (lo_event _ Hok).
  - intros k d' (d & Hd & Hi & Hm)%(progressed_back _ _ _ _ _ Hp).
    pose proof (lo_typed _ Hok _ _ Hd). destruct Hm as [->|Hm]; [done|by eapply move_typed_delivery].
  - intros k d' Hd'. destruct (pr_rows _ _ _ _ Hp k) as [E|(d & d1 & _ & Hd1 & _ & Hrow & _)];
      [rewrite E in Hd'; by eapply (lo_row _ Hok)|congruence].
  - intros k d' (d & Hd & Hi & Hm)%(progressed_back _ _ _ _ _ Hp).
    destruct (lo_admits _ Hok _ _ Hd) as (v & Hv & Ha). rewrite (pr_versions _ _ _ _ Hp).
    destruct (identity_fields _ _ Hi) as (_ & _ & _ & _ & _ & -> & _). exists v. split; [done|].
    by eapply progressed_admits.
  - rewrite (pr_versions _ _ _ _ Hp), (pr_definitions _ _ _ _ Hp). apply (lo_version _ Hok).
  - rewrite (pr_versions _ _ _ _ Hp), (pr_definitions _ _ _ _ Hp). apply (lo_lineage _ Hok).
  - rewrite (pr_definitions _ _ _ _ Hp). apply (lo_current _ Hok).
  - rewrite (pr_receipts _ _ _ _ Hp). apply (lo_receipt _ Hok).
  - rewrite (pr_receipts _ _ _ _ Hp).
    intros q r k d' Hr (d & Hd & Hi & _)%(progressed_back _ _ _ _ _ Hp).
    destruct (identity_fields _ _ Hi) as (_ & _ & -> & _). by apply (lo_disjoint _ Hok _ r).
  - intros k d' o (d & Hd & Hi & _)%(progressed_back _ _ _ _ _ Hp).
    destruct (identity_fields _ _ Hi) as (_ & _ & _ & _ & _ & _ & -> & ->). intros Ho.
    destruct (lo_redrive _ Hok _ _ _ Hd Ho) as (Hord & d0 & Hd0 & Hs & Hc). split; [done|].
    destruct (progressed_on _ _ _ _ _ Hp Hd0) as (d0' & Hd0' & Hi0 & Hm0). exists d0'.
    split_and!; [done| |by eapply continues_identity].
    destruct Hm0 as [->|Hm0%move_open]; [done|]. unfold open_delivery in Hm0. by rewrite Hs in Hm0.
  - intros k d' k2 d2' (d & Hd & Hi & _)%(progressed_back _ _ _ _ _ Hp)
      (d2 & Hd2 & Hi2 & _)%(progressed_back _ _ _ _ _ Hp).
    destruct (identity_fields _ _ Hi) as (_ & _ & _ & _ & _ & _ & -> & ->).
    destruct (identity_fields _ _ Hi2) as (_ & _ & _ & _ & _ & _ & -> & ->).
    by apply (lo_ordinal _ Hok).
  - intros k d' b Hd' Hb. destruct (pr_rows _ _ _ _ Hp k) as [E|(d & d1 & Hd & Hd1 & Hm & _ & Hbuild)].
    + eapply build_of_kept; [apply Hp|]. eapply (lo_build _ Hok k); [by rewrite <- E|done].
    + assert (d1 = d') as -> by congruence. destruct Hbuild as [Eb|(b' & Eb & Hof)]; [|congruence].
      destruct (identity_fields _ _ (move_identity _ _ _ _ _ Hm)) as (_ & _ & _ & -> & -> & _).
      eapply build_of_kept; [apply Hp|]. eapply (lo_build _ Hok k); [done|congruence].
Qed.

(** ** New rows *)

Lemma row_ttl d : delivery_row_ok d = true -> td_accepted_at d < td_expires_at d.
Proof.
  unfold delivery_row_ok. rewrite !andb_true_iff.
  intros [[[[[[[[[_ Httl] _] _] _] _] _] _] _] _]. by bool_prop.
Qed.

Record new_row (t : TriggerDb) (d : TriggerDelivery) : Prop := {
  nw_fresh : fresh_delivery d;
  nw_row : delivery_row_ok d = true;
  nw_absent : ti_deliveries t !! (td_trigger d, td_delivery_id d) = None;
  nw_event k e : ti_deliveries t !! k = Some e -> k.1 = td_trigger d -> td_event_id e <> td_event_id d;
  nw_version : exists v, ti_versions t !! (td_trigger d, td_trigger_generation d) = Some v
    /\ pt_project v = td_project d /\ pt_pipeline v = td_pipeline d;
  nw_receipts q r : ti_receipts t !! q = Some r -> q.1 = td_trigger d ->
    td_delivery_id d <> q.2 /\ td_event_id d <> q.2;
  nw_redrive o : td_redrive_of d = Some o -> is_Some (td_redrive_ordinal d)
    /\ exists d0, ti_deliveries t !! (td_trigger d, o) = Some d0 /\ td_status d0 = TDeadLettered
         /\ continues d0 d;
  nw_ordinal k e : ti_deliveries t !! k = Some e -> k.1 = td_trigger d -> is_Some (td_redrive_of d) ->
    td_redrive_of e = td_redrive_of d -> td_redrive_ordinal e <> td_redrive_ordinal d
}.

(** [t'] is [t] with the row of [d]; slots, watermarks and the audit chain are free. *)
Record row_added (t : TriggerDb) (d : TriggerDelivery) (t' : TriggerDb) : Prop := {
  ra_rows : ti_deliveries t' = <[(td_trigger d, td_delivery_id d) := d]> (ti_deliveries t);
  ra_receipts : ti_receipts t' = ti_receipts t;
  ra_versions : ti_versions t' = ti_versions t;
  ra_definitions : ti_definitions t' = ti_definitions t;
  ra_store : ti_store t' = ti_store t
}.

Lemma row_added_cases t d t' k e :
  row_added t d t' -> ti_deliveries t' !! k = Some e ->
  k = (td_trigger d, td_delivery_id d) /\ e = d \/ ti_deliveries t !! k = Some e.
Proof.
  intros [-> _ _ _ _]. rewrite lookup_insert_Some. intros [[<- <-]|[_ ?]]; [by left|by right].
Qed.

Lemma row_added_old t d t' k e :
  new_row t d -> row_added t d t' -> ti_deliveries t !! k = Some e -> ti_deliveries t' !! k = Some e.
Proof.
  intros Hn [-> _ _ _ _] He. rewrite lookup_insert_ne; [done|]. intros <-.
  rewrite (nw_absent _ _ Hn) in He. done.
Qed.

Lemma row_added_ok t d t' : new_row t d -> row_added t d t' -> ledger_ok t -> ledger_ok t'.
Proof.
  intros Hn Ha Hok. pose proof (row_added_cases t d t') as Hc. destruct (nw_version _ _ Hn) as (v & Hv & Hp).
  split.
  - intros k e [[-> ->]|He]%Hc; [done|by apply (lo_key _ Hok)|done].
  - intros k e k' e' [[-> ->]|He]%Hc [[-> ->]|He']%Hc; try done; cbn.
    + intros Hk Hev. by destruct (nw_event _ _ Hn _ _ He').
    + intros Hk Hev. by destruct (nw_event _ _ Hn _ _ He).
    + by apply (lo_event _ Hok).
  - intros k e [[-> ->]|He]%Hc; [by apply fresh_typed, Hn|by eapply (lo_typed _ Hok)|done].
  - intros k e [[-> ->]|He]%Hc; [apply Hn|by eapply (lo_row _ Hok)|done].
  - rewrite (ra_versions _ _ _ Ha). intros k e [[-> ->]|He]%Hc; [|by apply (lo_admits _ Hok)|done].
    exists v. split; [done|]. destruct (lo_version _ Hok _ _ Hv) as (_ & Hmax & _).
    unfold version_admits. rewrite (fresh_attempts _ (nw_fresh _ _ Hn)). split_and!; [apply Hp..| |];
      intros; lia.
  - rewrite (ra_versions _ _ _ Ha), (ra_definitions _ _ _ Ha). apply (lo_version _ Hok).
  - rewrite (ra_versions _ _ _ Ha), (ra_definitions _ _ _ Ha). apply (lo_lineage _ Hok).
  - rewrite (ra_definitions _ _ _ Ha). apply (lo_current _ Hok).
  - rewrite (ra_receipts _ _ _ Ha). apply (lo_receipt _ Hok).
  - rewrite (ra_receipts _ _ _ Ha). intros q r k e Hq [[-> ->]|He]%Hc; [| |done]; cbn.
    + intros Hk. by apply (nw_receipts _ _ Hn _ _ Hq).
    + by apply (lo_disjoint _ Hok _ _ _ _ Hq).
  - intros k e o [[-> ->]|He]%Hc; [| |done]; intros Ho.
    + destruct (nw_redrive _ _ Hn _ Ho) as (Hord & d0 & Hd0 & Hs). split; [done|]. exists d0.
      split; [by eapply row_added_old|done].
    + destruct (lo_redrive _ Hok _ _ _ He Ho) as (Hord & d0 & Hd0 & Hs). split; [done|]. exists d0.
      split; [by eapply row_added_old|done].
  - intros k e k' e' [[-> ->]|He]%Hc [[-> ->]|He']%Hc; try done; cbn.
    + intros Hk Hso Ho Hord. by destruct (nw_ordinal _ _ Hn _ _ He').
    + intros Hk Hso Ho Hord. rewrite Ho in Hso. by destruct (nw_ordinal _ _ Hn _ _ He).
    + by apply (lo_ordinal _ Hok).
  - rewrite (ra_store _ _ _ Ha). intros k e b [[-> ->]|He]%Hc; [|by apply (lo_build _ Hok _ _ b He)|done].
    by rewrite (fresh_build _ (nw_fresh _ _ Hn)).
Qed.

(** The current version of a trigger, in a well-formed ledger. *)
Lemma pipeline_trigger_ok t project pipeline trigger v :
  ledger_ok t -> pipeline_trigger t project pipeline trigger = Some v ->
  ti_versions t !! (trigger, pt_generation v) = Some v /\ pt_trigger v = trigger
  /\ pt_project v = project /\ pt_pipeline v = pipeline
  /\ exists def, ti_definitions t !! trigger = Some def
       /\ tdef_current_generation def = pt_generation v.
Proof.
  intros Hok. unfold pipeline_trigger, current_version.
  destruct (ti_definitions t !! trigger) as [def|] eqn:Ed; [|done]. cbn.
  destruct (ti_versions t !! _) as [w|] eqn:Ev; [|done]. cbn.
  destruct (_ && _) eqn:B; [|done]. intros [= ->]. bool_prop.
  destruct (lo_version _ Hok _ _ Ev) as ([= Et Eg] & _ & def' & Ed' & Ep & Eq & _). cbn in Ed'.
  rewrite Ed in Ed'. injection Ed' as <-. split_and!; try congruence.
  by exists def.
Qed.

Lemma accepted_new fired_at now input timing t d t' :
  ledger_ok t -> accepted organization fired_at now input timing t d t' ->
  new_row t d /\ row_added t d t'.
Proof.
  intros Hok [v t1 stamp a e event_time expires_at _ Hnone Ht Hadm Hslot _ _ Hd Hrow Et].
  apply slot_accepted_frame in Hslot as (E1 & E2 & E3 & E4 & E5 & E6).
  destruct (pipeline_trigger_ok _ _ _ _ _ Hok Ht) as (Hv & Hvt & Hvp & Hvq & _).
  assert (forall k e, ti_deliveries t !! k = Some e -> k.1 = nd_trigger input ->
    k.2 <> nd_delivery_id input /\ td_event_id e <> nd_event_id input) as Hid.
  { intros k x Hx Hk. pose proof (lo_key _ Hok _ _ Hx) as ->. cbn in *.
    eapply deliveries_where_nil in Hnone; [|exact Hx]. unfold has_identity in Hnone.
    rewrite Hk, String.eqb_refl in Hnone. cbn [andb] in Hnone. by bool_prop. }
  subst d t'. split.
  - split; cbn [accepted_delivery td_trigger td_delivery_id td_event_id td_trigger_generation
      td_project td_pipeline td_redrive_of td_redrive_ordinal].
    + apply row_ttl in Hrow. by split.
    + done.
    + destruct (ti_deliveries t !! _) as [x|] eqn:Ex; [|done]. by destruct (Hid _ _ Ex eq_refl) as [[] _].
    + intros k x Hx Hk. by apply (Hid _ _ Hx Hk).
    + by exists v.
    + unfold admissible in Hadm. rewrite guard_ok in Hadm. destruct Hadm as [Hack _].
      unfold acknowledged in Hack. apply orb_false_iff in Hack as [A1 A2].
      intros [q1 q2] r Hq. cbn. intros ->. split; intros <-; by rewrite Hq in *.
    + done.
    + by intros ? ? _ _ [].
  - split; cbn; congruence.
Qed.

Lemma redriven_new now input t d t' :
  ledger_ok t -> redriven organization now input t d t' -> new_row t d /\ row_added t d t'.
Proof.
  intros Hok [o v stamp a e expires_at _ Ho Hdead Hp Hq Hack Hv _ Hd Hc Hrow Et].
  assert (forall k x, ti_deliveries t !! k = Some x -> k.1 = rd_trigger input ->
    delivery_conflict d x = false) as Hno.
  { intros k x Hx _. by eapply some_delivery_false in Hc. }
  assert (forall k x, ti_deliveries t !! k = Some x -> k.1 = rd_trigger input ->
    k.2 <> rd_new_delivery_id input /\ td_event_id x <> rd_new_event_id input
    /\ (td_redrive_of x = Some (rd_dead_letter_delivery_id input) ->
        td_redrive_ordinal x <> td_redrive_ordinal d)) as Hid.
  { intros k x Hx Hk. pose proof (Hno _ _ Hx Hk) as Hf. pose proof (lo_key _ Hok _ _ Hx) as ->.
    cbn in *. unfold delivery_conflict in Hf. subst d. cbn in Hf.
    rewrite Hk, String.eqb_refl in Hf. cbn [andb] in Hf. apply orb_false_iff in Hf as [Hf Hf3].
    bool_prop. split_and!; [congruence..|]. intros Er Eo. rewrite Er, Eo in Hf3. cbn in Hf3.
    by rewrite !bool_decide_eq_true_2 in Hf3. }
  destruct (lo_admits _ Hok _ _ Ho) as (v' & Hv' & Hvp & Hvq & _). cbn in Hv'.
  assert (v' = v) as -> by congruence.
  subst t'. split.
  - split; try (subst d; cbn [redriven_delivery td_trigger td_delivery_id td_event_id
      td_trigger_generation td_project td_pipeline td_redrive_of td_redrive_ordinal]).
    + apply row_ttl in Hrow. by split.
    + done.
    + destruct (ti_deliveries t !! (rd_trigger input, rd_new_delivery_id input)) as [x|] eqn:Ex;
        [|done]. by destruct (Hid _ _ Ex eq_refl) as [[] _].
    + intros k x Hx Hk. by apply (Hid _ _ Hx Hk).
    + by exists v.
    + unfold acknowledged in Hack. apply orb_false_iff in Hack as [A1 A2].
      intros [q1 q2] r Hr. cbn. intros ->. split; intros <-; by rewrite Hr in *.
    + intros ? [= <-]. split; [done|]. exists o. by split_and!.
    + intros k x Hx Hk _ Er. by apply (Hid _ _ Hx Hk).
  - subst d. by split.
Qed.

(** ** Configurations and receipts *)

Lemma configured_ok input t v t' :
  configured organization input t v t' -> ledger_ok t -> ledger_ok t'.
Proof.
  intros [generation created stamp a e m Hval Hdef Hv Hnew _ _ ->] Hok.
  assert (1 <= generation /\ forall def, ti_definitions t !! tw_trigger input = Some def ->
    tdef_project def = tw_project input /\ tdef_pipeline def = tw_pipeline input
    /\ tdef_current_generation def + 1 = generation) as [Hg Hold].
  { destruct (ti_definitions t !! tw_trigger input) as [def|] eqn:Ed; [|destruct Hdef; split; [lia|done]].
    pose proof (lo_current _ Hok _ _ Ed). destruct Hdef as (? & ? & -> & _).
    split; [lia|]. by intros ? [= <-]. }
  assert (1 <= tw_max_delivery_attempts input) as Hmax.
  { unfold validate_trigger_write in Hval. rewrite !seq_ok in Hval.
    destruct Hval as (_ & _ & _ & _ & _ & _ & _ & _ & _ & _ & Hw%check_ok & _). by bool_prop. }
  split; cbn [ti_deliveries ti_versions ti_definitions ti_receipts ti_store]; cbn.
  - apply (lo_key _ Hok).
  - apply (lo_event _ Hok).
  - apply (lo_typed _ Hok).
  - apply (lo_row _ Hok).
  - intros k d Hd. destruct (lo_admits _ Hok _ _ Hd) as (w & Hw & Ha). exists w. split; [|done].
    rewrite lookup_insert_ne; [done|]. intros E. rewrite <- E in Hw. congruence.
  - intros k w [[<- <-]|[Hk Hw]]%lookup_insert_Some.
    + subst v. split; [done|]. split; [done|]. eexists. cbn. rewrite lookup_insert_eq.
      split_and!; done || lia.
    + destruct (lo_version _ Hok _ _ Hw) as (E & Hm & def & Hd & Ep & Eq & Hr).
      split; [done|]. split; [done|]. destruct (decide (k.1 = tw_trigger input)) as [Et|Hne].
      * rewrite Et in *. destruct (Hold _ Hd) as (E1 & E2 & E3). rewrite lookup_insert_eq.
        eexists. split; [done|]. cbn. split_and!; try congruence; lia.
      * rewrite lookup_insert_ne by done. by exists def.
  - intros trigger def g [[<- <-]|[Hk Hd]]%lookup_insert_Some; cbn; intros Hr.
    + destruct (decide (g = generation)) as [->|Hne]; [by rewrite lookup_insert_eq|].
      rewrite lookup_insert_ne by congruence.
      destruct (ti_definitions t !! tw_trigger input) as [def|] eqn:Ed; [|lia].
      destruct (Hold _ eq_refl) as (_ & _ & E). apply (lo_lineage _ Hok _ _ _ Ed). lia.
    + rewrite lookup_insert_ne by congruence. by eapply (lo_lineage _ Hok).
  - intros trigger def [[<- <-]|[Hk Hd]]%lookup_insert_Some; [done|by eapply (lo_current _ Hok)].
  - apply (lo_receipt _ Hok).
  - apply (lo_disjoint _ Hok).
  - apply (lo_redrive _ Hok).
  - apply (lo_ordinal _ Hok).
  - apply (lo_build _ Hok).
Qed.

Lemma recorded_ok now input t r t' :
  recorded organization now input t r t' -> ledger_ok t -> ledger_ok t'.
Proof.
  intros [stamp a e d Hnew Hnone _ _ Hr ->] Hok. split; cbn; try apply Hok.
  - intros k x [[<- <-]|[_ Hx]]%lookup_insert_Some; [by subst r|by apply (lo_receipt _ Hok)].
  - intros q x k y [[<- <-]|[_ Hx]]%lookup_insert_Some Hy; cbn.
    + intros Hk. pose proof (lo_key _ Hok _ _ Hy) as ->. cbn in *.
      eapply some_delivery_false in Hnone; [|exact Hy]. unfold has_identity in Hnone.
      rewrite Hk, String.eqb_refl in Hnone. cbn [andb] in Hnone. by bool_prop.
    + by apply (lo_disjoint _ Hok _ _ _ _ Hx).
Qed.

Lemma effect_ok e t t' : trigger_effect organization t t' e -> ledger_ok t -> ledger_ok t'.
Proof.
  intros [e' Hp|fired_at now input timing d Ha|now input d Hr|input v Hc|now input r Hr] Hok.
  - by eapply progressed_ok.
  - destruct (accepted_new _ _ _ _ _ _ _ Hok Ha) as [Hn Hadd]. by eapply row_added_ok.
  - destruct (redriven_new _ _ _ _ _ Hok Hr) as [Hn Hadd]. by eapply row_added_ok.
  - by eapply configured_ok.
  - by eapply recorded_ok.
Qed.

Lemma steps_ok t t' : rtc (trigger_step organization) t t' -> ledger_ok t -> ledger_ok t'.
Proof. induction 1 as [|t1 t2 t3 [e Hs] _ IH]; [done|]. intros Hok. by eapply IH, effect_ok, Hok; apply step_effect. Qed.

End Ledger.
