(* ===== verification/TriggerSlots.v ===== *)
(** * Each schedule slot fires once

    In every history the fired slots of a schedule and the deliveries it made
    are one to one, and the watermark of a generation is its last fired slot. *)

From stdpp Require Import base gmap list sorting strings relations.
From Stdlib Require Import Ascii ZArith Lia.
From S2P Require Import Prelude Text Bytes Domain DagContract StoreTables AuditChain.
From S2P Require Import ScheduleCalendar TriggerTables TriggerValidation TriggerSchedule.
From S2P Require Import DagRuntime TriggerIngress TriggerDeliveries TriggerTransfer.
From S2P Require Import StoreFrames TriggerMoves TriggerEffects TriggerHistory TriggerLedger.

Open Scope Z_scope.

Section Slots.
Context `{External} `{DagExternal} `{Md5Hash} `{TriggerHex} `{Postgres} `{CivilTime} `{AuditJson}.
Context (organization : Uuid).

(** The slot at [k] has fired as the delivery [id]. *)
Definition fired_as (t : TriggerDb) (k : Uuid * Z * Z) (id : string) : Prop :=
  exists s, ti_slots t !! k = Some s /\ sl_outcome s = SlotFired /\ sl_delivery_id s = Some id.

Definition fired (t : TriggerDb) (k : Uuid * Z * Z) : Prop :=
  exists s, ti_slots t !! k = Some s /\ sl_outcome s = SlotFired.

(** A delivery a schedule made, not the redrive of one. *)
Definition scheduled (t : TriggerDb) (k : Uuid * string) (d : TriggerDelivery) : Prop :=
  ti_deliveries t !! k = Some d /\ td_redrive_of d = None
  /\ exists v, ti_versions t !! (k.1, td_trigger_generation d) = Some v /\ pt_kind v = Schedule.

Record schedule_ok (t : TriggerDb) : Prop := {
  so_delivery tr g time : fired t (tr, g, time) -> exists id d, fired_as t (tr, g, time) id
    /\ ti_deliveries t !! (tr, id) = Some d /\ td_trigger_generation d = g /\ td_redrive_of d = None;
  so_slot k d : scheduled t k d ->
    exists time, fired_as t (k.1, td_trigger_generation d, time) k.2;
  so_once tr g g' time time' id : fired_as t (tr, g, time) id -> fired_as t (tr, g', time') id ->
    g = g' /\ time = time';
  so_last tr g w : ti_watermarks t !! (tr, g) = Some w ->
    exists last id, sw_last_resolved_slot w = Some last /\ sw_last_delivery_id w = Some id
      /\ fired_as t (tr, g, last) id /\ forall time, fired t (tr, g, time) -> time <= last;
  so_marked tr g time : fired t (tr, g, time) -> is_Some (ti_watermarks t !! (tr, g))
}.

Lemma fired_as_fired t k id : fired_as t k id -> fired t k.
Proof. intros (s & ? & ? & _). by exists s. Qed.

Lemma no_triggers_schedule t : no_triggers t -> schedule_ok t.
Proof.
  intros (_ & _ & Ed & _ & Ew & Es).
  assert (forall k, ~ fired t k) as Hf.
  { intros k (s & Hs & _). by rewrite Es, lookup_empty in Hs. }
  split.
  - intros tr g time Hx. by destruct (Hf _ Hx).
  - intros k d [Hd _]. by rewrite Ed, lookup_empty in Hd.
  - intros tr g g' time time' id Hx. by destruct (Hf _ (fired_as_fired _ _ _ Hx)).
  - intros tr g w. by rewrite Ew, lookup_empty.
  - intros tr g time Hx. by destruct (Hf _ Hx).
Qed.

(** The fired slots, when no slot fires. *)
Lemma quiet_fired_as t t' k id :
  quiet (ti_slots t) (ti_slots t') -> fired_as t' k id <-> fired_as t k id.
Proof.
  intros Hq. split; intros (s & Hs & Ho & Hi); exists s; split_and!; try done.
  - by apply (quiet_fired _ _ Hq).
  - apply (quiet_ended _ _ Hq); [done|by left].
Qed.

Lemma quiet_fired_iff t t' k : quiet (ti_slots t) (ti_slots t') -> fired t' k <-> fired t k.
Proof.
  intros Hq. split; intros (s & Hs & Ho); exists s; split; try done.
  - by apply (quiet_fired _ _ Hq).
  - apply (quiet_ended _ _ Hq); [done|by left].
Qed.

(** No slot fires, the watermarks stay, and the deliveries are as they were but
    for new redrives and the deliveries of triggers of other kinds. *)
Lemma quiet_schedule_ok t t' :
  quiet (ti_slots t) (ti_slots t') -> ti_watermarks t' = ti_watermarks t ->
  (forall k d, ti_deliveries t !! k = Some d -> td_redrive_of d = None ->
     exists d', ti_deliveries t' !! k = Some d' /\ td_redrive_of d' = None
       /\ td_trigger_generation d' = td_trigger_generation d) ->
  (forall k d', scheduled t' k d' ->
     exists d, scheduled t k d /\ td_trigger_generation d' = td_trigger_generation d) ->
  schedule_ok t -> schedule_ok t'.
Proof.
  intros Hq Hw Hon Hback Hok. split.
  - intros tr g time Hf. apply (quiet_fired_iff t) in Hf; [|done].
    destruct (so_delivery _ Hok _ _ _ Hf) as (id & d & Ha & Hd & Hg & Hr).
    destruct (Hon _ _ Hd Hr) as (d' & Hd' & Hr' & Hg'). exists id, d'.
    rewrite (quiet_fired_as t t' _ _ Hq). split_and!; done || congruence.
  - intros k d' (d & Hs & ->)%Hback. destruct (so_slot _ Hok _ _ Hs) as (time & Ha). exists time.
    by rewrite (quiet_fired_as t t' _ _ Hq).
  - intros tr g g' time time' id. rewrite !(quiet_fired_as t t' _ _ Hq). apply (so_once _ Hok).
  - rewrite Hw. intros tr g w Hl. destruct (so_last _ Hok _ _ _ Hl) as (last & id & H1' & H2' & H3' & H4').
    exists last, id. rewrite (quiet_fired_as t t' _ _ Hq). split_and!; [done..|].
    intros time. rewrite (quiet_fired_iff t t' _ Hq). apply H4'.
  - rewrite Hw. intros tr g time. rewrite (quiet_fired_iff t t' _ Hq). apply (so_marked _ Hok).
Qed.

Lemma progressed_schedule e t t' : progressed organization e t t' -> schedule_ok t -> schedule_ok t'.
Proof.
  intros Hp. apply quiet_schedule_ok; [apply Hp..| |].
  - intros k d Hd Hr. destruct (progressed_on _ _ _ _ _ _ Hp Hd) as (d' & Hd' & Hi & _).
    destruct (identity_fields _ _ Hi) as (_ & _ & _ & _ & _ & Eg & Er & _).
    exists d'. split_and!; congruence.
  - intros k d' (Hd' & Hr & v & Hv & Hk).
    destruct (progressed_back _ _ _ _ _ _ Hp Hd') as (d & Hd & Hi & _).
    destruct (identity_fields _ _ Hi) as (_ & _ & _ & _ & _ & Eg & Er & _).
    exists d. split; [|done]. split_and!; [done|congruence|]. exists v.
    rewrite (pr_versions _ _ _ _ Hp), Eg in Hv. done.
Qed.

(** A new row of no schedule, or a redrive. *)
Lemma row_added_schedule t d t' :
  new_row t d -> row_added t d t' -> quiet (ti_slots t) (ti_slots t') ->
  ti_watermarks t' = ti_watermarks t ->
  (td_redrive_of d = None -> forall v,
     ti_versions t !! (td_trigger d, td_trigger_generation d) = Some v -> pt_kind v <> Schedule) ->
  schedule_ok t -> schedule_ok t'.
Proof.
  intros Hn Ha Hq Hw Hkind. apply quiet_schedule_ok; [done..| |].
  - intros k e He Hr. exists e. split; [by eapply row_added_old|done].
  - intros k e (He & Hr & v & Hv & Hk). rewrite (ra_versions _ _ _ Ha) in Hv.
    destruct (row_added_cases _ _ _ _ _ Ha He) as [[-> ->]|Hold].
    + by destruct (Hkind Hr _ Hv).
    + exists e. split; [|done]. split_and!; [done..|]. by exists v.
Qed.

(** ** A slot fires *)

Section Fires.
Context (t t' : TriggerDb) (input : NewTriggerDelivery) (d : TriggerDelivery).
Context (slot : TriggerScheduleSlot) (fired_at : Z) (s : ScheduleSlot) (w : TriggerScheduleWatermark).

Let tr := nd_trigger input.
Let g := td_trigger_generation d.
Let time := ts_resolved_slot slot.
Let id := nd_delivery_id input.

Hypothesis Hnew : new_row t d.
Hypothesis Hadd : row_added t d t'.
Hypothesis Hkey : td_trigger d = tr /\ td_delivery_id d = id /\ td_redrive_of d = None.
Hypothesis Hopen : ti_slots t !! (tr, g, time) = Some s.
Hypothesis Hended : ~ ended_slot s.
Hypothesis Hw : watermark_advanced organization input g slot (ti_watermarks t !! (tr, g)) w.
Hypothesis Hmarks : ti_watermarks t' = <[(tr, g) := w]> (ti_watermarks t).
Hypothesis Hslots :
  ti_slots t' = <[(tr, g, time) := touched fired_at (fired_with id) s]> (ti_slots t).

Lemma fires_here : fired_as t' (tr, g, time) id.
Proof. eexists. rewrite Hslots, lookup_insert_eq. by split_and!. Qed.

Lemma fires_old k i : fired_as t k i -> fired_as t' k i /\ k <> (tr, g, time).
Proof.
  intros (x & Hx & Ho & Hi). assert (k <> (tr, g, time)) as Hne.
  { intros ->. rewrite Hopen in Hx. injection Hx as <-. destruct Hended. by left. }
  split; [|done]. exists x. rewrite Hslots, lookup_insert_ne by done. done.
Qed.

Lemma fires_cases k i : fired_as t' k i -> k = (tr, g, time) /\ i = id \/ fired_as t k i.
Proof.
  intros (x & Hx & Ho & Hi). rewrite Hslots in Hx.
  apply lookup_insert_Some in Hx as [[<- <-]|[_ Hx]]; [|right; by exists x].
  left. split; [done|]. cbn in Hi. congruence.
Qed.

Lemma fired_cases k : fired t' k -> k = (tr, g, time) \/ fired t k.
Proof.
  intros (x & Hx & Ho). rewrite Hslots in Hx.
  apply lookup_insert_Some in Hx as [[<- <-]|[_ Hx]]; [by left|right; by exists x].
Qed.

Lemma fires_schedule_ok : schedule_ok t -> schedule_ok t'.
Proof.
  intros Hok. destruct Hkey as (Et & Ei & Er).
  assert (forall g' time', ~ fired_as t (tr, g', time') id) as Hfresh.
  { intros g' time' Hf.
    destruct (so_delivery _ Hok _ _ _ (fired_as_fired _ _ _ Hf)) as (i & e & Ha & He & _).
    assert (i = id) as ->.
    { destruct Hf as (x & Hx & _ & E1), Ha as (y & Hy & _ & E2). congruence. }
    pose proof (nw_absent _ _ Hnew) as Hn. rewrite Et, Ei in Hn. congruence. }
  split.
  - intros tr' g' time' [E|Hf]%fired_cases.
    + injection E as -> -> ->. exists id, d. split_and!; [apply fires_here| |done..].
      by rewrite (ra_rows _ _ _ Hadd), Et, Ei, lookup_insert_eq.
    + destruct (so_delivery _ Hok _ _ _ Hf) as (i & e & Ha & He & Hg & Hr). exists i, e.
      split_and!; [by apply fires_old| |done..]. by eapply row_added_old.
  - intros k e (He & Hr & v & Hv & Hk). rewrite (ra_versions _ _ _ Hadd) in Hv.
    destruct (row_added_cases _ _ _ _ _ Hadd He) as [[-> ->]|Hold]; cbn in *.
    + rewrite Et, Ei. exists time. apply fires_here.
    + destruct (so_slot _ Hok k e) as (time' & Ha).
      { split_and!; [done..|]. by exists v. }
      exists time'. by apply fires_old.
  - intros tr' g1 g2 t1 t2 i [[E1 ->]|F1]%fires_cases [[E2 E3]|F2]%fires_cases.
    + injection E1 as -> -> ->. injection E2 as -> ->. done.
    + injection E1 as -> -> ->. by destruct (Hfresh _ _ F2).
    + injection E2 as -> -> ->. subst i. by destruct (Hfresh _ _ F1).
    + by eapply (so_once _ Hok).
  - intros tr' g' w'. rewrite Hmarks. intros [[[= <- <-] <-]|[Hne Hl]]%lookup_insert_Some.
    + exists time, id. split_and!; [apply Hw..|apply fires_here|].
      intros time' [[= ->]|Hf]%fired_cases; [done|].
      destruct (so_marked _ Hok _ _ _ Hf) as [o Ho].
      destruct (so_last _ Hok _ _ _ Ho) as (last & i & E1 & _ & _ & Hmax).
      destruct (wa_old _ _ _ _ _ _ Hw _ Ho) as (_ & previous & E2 & Hlt).
      specialize (Hmax _ Hf). unfold time. rewrite E1 in E2. injection E2 as ->. lia.
    + destruct (so_last _ Hok _ _ _ Hl) as (last & i & E1 & E2 & Ha & Hmax). exists last, i.
      split_and!; [done..|by apply fires_old|]. intros time' [[= -> -> _]|Hf]%fired_cases; [done|].
      by apply Hmax.
  - intros tr' g' time' Hf. rewrite Hmarks. destruct (decide ((tr, g) = (tr', g'))) as [<-|Hne].
    + by rewrite lookup_insert_eq.
    + rewrite lookup_insert_ne by done. apply fired_cases in Hf as [[= -> -> ->]|Hf]; [done|].
      by eapply (so_marked _ Hok).
Qed.

End Fires.

Lemma accepted_schedule fired_at now input timing t d t' :
  ledger_ok t -> accepted organization fired_at now input timing t d t' ->
  schedule_ok t -> schedule_ok t'.
Proof.
  intros Hl Ha. destruct (accepted_new _ _ _ _ _ _ _ _ Hl Ha) as [Hn Hadd].
  destruct Ha as [v t1 stamp a e event_time expires_at _ _ Ht _ Hslot _ _ Hd _ Et].
  destruct (pipeline_trigger_ok _ _ _ _ _ Hl Ht) as (Hv & _).
  unfold slot_accepted in Hslot. destruct (nd_schedule_slot input) as [slot|].
  - destruct Hslot as (_ & _ & _ & s & w & Hs & Ho & Hw & E1).
    apply (fires_schedule_ok t t' input d slot fired_at s w); try done;
      [by subst d|by subst d|by subst d|by subst t' t1 d|by subst t' t1 d].
  - destruct Hslot as (Hk & E1). subst t1.
    apply (row_added_schedule t d t' Hn Hadd); [by subst t'|by subst t'|].
    intros _ w Hw. subst d. cbn in Hw. congruence.
Qed.

Lemma redriven_schedule now input t d t' :
  ledger_ok t -> redriven organization now input t d t' -> schedule_ok t -> schedule_ok t'.
Proof.
  intros Hl Hr. destruct (redriven_new _ _ _ _ _ _ Hl Hr) as [Hn Hadd].
  destruct Hr as [o v stamp a e expires_at _ _ _ _ _ _ _ _ Hd _ _ Et].
  apply (row_added_schedule t d t' Hn Hadd); [by subst t'|by subst t'|]. by subst d.
Qed.

Lemma configured_schedule input t v t' :
  ledger_ok t -> configured organization input t v t' -> schedule_ok t -> schedule_ok t'.
Proof.
  intros Hl [generation created stamp a e m _ _ _ Hnew _ Hq ->].
  apply quiet_schedule_ok; [done..| |].
  - intros k d Hd Hr. by exists d.
  - intros k d (Hd & Hr & w & Hw & Hk). cbn in Hd, Hw. exists d. split; [|done].
    split_and!; [done..|]. destruct (lo_admits _ Hl _ _ Hd) as (u & Hu & _). exists u. split; [done|].
    apply lookup_insert_Some in Hw as [[E _]|[_ Hw]]; [|congruence]. rewrite <- E in Hu. congruence.
Qed.

Lemma recorded_schedule now input t r t' :
  recorded organization now input t r t' -> schedule_ok t -> schedule_ok t'.
Proof.
  intros [stamp a e d _ _ _ _ _ ->]. apply quiet_schedule_ok; [done..| |].
  - intros k x Hx Hr. by exists x.
  - intros k x Hx. by exists x.
Qed.

Lemma effect_schedule e t t' :
  trigger_effect organization t t' e -> ledger_ok t -> schedule_ok t -> schedule_ok t'.
Proof.
  intros [e' Hp|fired_at now input timing d Ha|now input d Hr|input v Hc|now input r Hr] Hl.
  - by eapply progressed_schedule.
  - by eapply accepted_schedule.
  - by eapply redriven_schedule.
  - by eapply configured_schedule.
  - by eapply recorded_schedule.
Qed.

Lemma steps_schedule t t' :
  rtc (trigger_step organization) t t' -> ledger_ok t -> schedule_ok t -> schedule_ok t'.
Proof.
  induction 1 as [|t1 t2 t3 [e Hs] _ IH]; [done|]. intros Hl Hok. apply step_effect in Hs.
  apply IH; [by eapply effect_ok|by eapply effect_schedule].
Qed.

End Slots.
