(* ===== verification/TriggerClaims.v ===== *)
(** * What trigger ingress promises

    The theorems over whole histories: the delivery machine is refined, the
    ledger stays well formed and anchored in the audit chain, a schedule fires
    each slot once, a delivery is admitted once and only under a live claim, a
    worker that lost its claim is fenced off, and a repeated delivery replays. *)

From stdpp Require Import base gmap list sorting strings relations.
From Stdlib Require Import Ascii ZArith Lia.
From S2P Require Import Prelude Text Bytes Domain DagContract StoreTables AuditChain AuditHistory.
From S2P Require Import ScheduleCalendar TriggerTables TriggerValidation TriggerSchedule.
From S2P Require Import DagRuntime TriggerIngress TriggerDeliveries TriggerTransfer.
From S2P Require Import StoreFrames TriggerMoves TriggerEffects TriggerHistory TriggerLedger.
From S2P Require Import TriggerSlots.

Open Scope Z_scope.

Section Claims.
Context `{External} `{DagExternal} `{Md5Hash} `{TriggerHex} `{Postgres} `{CivilTime} `{AuditJson}.
Context (organization : Uuid).

Notation steps := (rtc (trigger_step organization)).

(** ** Refinement of the delivery machine *)

Lemma delivery_move_mono vs vs' k e x y :
  vs ⊆ vs' -> delivery_move vs k e x y -> delivery_move vs' k e x y.
Proof.
  intros Hs Hm. destruct Hm as [d Hf [v Hv]| | |? ? ? v ? ? ? ? ? ? Hv|? ? ? v ? ? ? ? ? Hv| | |].
  - apply move_accept; [done|]. exists v. by eapply lookup_weaken.
  - by apply move_claim.
  - by apply move_admit.
  - apply (move_retry _ _ _ _ _ v); try done. by eapply lookup_weaken.
  - apply (move_give_up _ _ _ _ _ v); try done. by eapply lookup_weaken.
  - by apply move_expire.
  - by apply move_expire_claimed.
  - by eapply move_reap.
Qed.

Lemma delivery_run_mono vs vs' k l x y :
  vs ⊆ vs' -> delivery_run vs k l x y -> delivery_run vs' k l x y.
Proof.
  intros Hs. induction 1; [apply run_end|by apply run_stay|].
  eapply run_move; [by eapply delivery_move_mono|done].
Qed.

Lemma effect_moves e t t' :
  ledger_ok t -> trigger_effect organization t t' e ->
  ti_versions t ⊆ ti_versions t' /\ delivery_moves e t t'.
Proof.
  intros Hok [e' Hp|fired_at now input timing d Ha|now input d Hr|input v Hc|now input r Hr].
  - split; [by rewrite (pr_versions _ _ _ _ Hp)|]. intros k.
    destruct (pr_rows _ _ _ _ Hp k) as [E|(d & d' & Hd & Hd' & Hm & _)]; [by left|].
    right. by rewrite Hd, Hd'.
  - destruct (accepted_new _ _ _ _ _ _ _ _ Hok Ha) as [Hn Hadd].
    split; [by rewrite (ra_versions _ _ _ Hadd)|].
    assert ((nd_trigger input, nd_delivery_id input) = (td_trigger d, td_delivery_id d)) as ->
      by (destruct Ha as [v t1 stamp a e0 event_time expires_at _ _ _ _ _ _ _ -> _ _]; done).
    apply (delivery_moves_insert _ _ _ _ d (ra_rows _ _ _ Hadd)). rewrite (nw_absent _ _ Hn).
    apply move_accept; [apply Hn|]. destruct (nw_version _ _ Hn) as (v & Hv & _). by exists v.
  - destruct (redriven_new _ _ _ _ _ _ Hok Hr) as [Hn Hadd].
    split; [by rewrite (ra_versions _ _ _ Hadd)|].
    assert ((rd_trigger input, rd_new_delivery_id input) = (td_trigger d, td_delivery_id d)) as ->
      by (destruct Hr as [o v stamp a e0 expires_at _ _ _ _ _ _ _ _ -> _ _ _]; done).
    apply (delivery_moves_insert _ _ _ _ d (ra_rows _ _ _ Hadd)). rewrite (nw_absent _ _ Hn).
    apply move_accept; [apply Hn|]. destruct (nw_version _ _ Hn) as (v & Hv & _). by exists v.
  - destruct Hc as [generation created stamp a e0 m _ _ _ Hnew _ _ ->]. split.
    + cbn. by apply insert_subseteq.
    + by apply delivery_moves_same.
  - destruct Hr as [stamp a e0 d _ _ _ _ _ ->]. split; [done|by apply delivery_moves_same].
Qed.

Lemma run_moves l t t' :
  ledger_ok t -> trigger_run organization l t t' ->
  ti_versions t ⊆ ti_versions t' /\
  forall k, delivery_run (ti_versions t') k l (ti_deliveries t !! k) (ti_deliveries t' !! k).
Proof.
  intros Hok Hs. induction Hs as [t|e l t1 t2 t3 Hs%step_effect Hs' IH]; [split; [done|constructor]|].
  destruct (effect_moves _ _ _ Hok Hs) as [Hv Hm].
  destruct (IH (effect_ok _ _ _ _ Hs Hok)) as [Hv' Hm']. split; [by etrans|]. intros k.
  destruct (Hm k) as [<-|Hk]; [apply run_stay, Hm'|]. eapply run_move; [|apply Hm'].
  eapply delivery_move_mono; [|exact Hk]. by etrans.
Qed.

Lemma reachable_ok t : trigger_reachable organization t -> ledger_ok t.
Proof. intros (start & Hn & Hs). eapply steps_ok; [exact Hs|by apply no_triggers_ok]. Qed.

(** What a run of the machine keeps. *)
Lemma run_settled vs k l d y :
  delivery_run vs k l (Some d) y ->
  exists d', y = Some d' /\ identity_of d' = identity_of d
    /\ td_claim_fence d <= td_claim_fence d' /\ td_attempt_count d <= td_attempt_count d'
    /\ (~ open_delivery d -> d' = d).
Proof.
  remember (Some d) as x eqn:E. intros Hm. revert d E.
  induction Hm as [x|e l x y _ IH|e l x y z Hxy Hyz IH]; intros d ->.
  - exists d. by split_and!.
  - by apply IH.
  - assert (exists e, y = Some e) as [e' ->] by (inversion Hxy; eauto).
    destruct (IH e' eq_refl) as (d' & -> & Hi & Hf & Ha & Ho). exists d'.
    pose proof (move_fence _ _ _ _ _ Hxy). pose proof (move_identity _ _ _ _ _ Hxy) as Hi'.
    split_and!; [done|congruence|lia..|]. intros Hn. by destruct Hn; eapply move_open.
Qed.

Lemma steps_settled t t' k d :
  ledger_ok t -> steps t t' -> ti_deliveries t !! k = Some d ->
  exists d', ti_deliveries t' !! k = Some d' /\ identity_of d' = identity_of d
    /\ td_claim_fence d <= td_claim_fence d' /\ td_attempt_count d <= td_attempt_count d'
    /\ (~ open_delivery d -> d' = d).
Proof.
  intros Hok [l Hl]%steps_run Hd. destruct (run_moves _ _ _ Hok Hl) as [_ Hm]. specialize (Hm k).
  rewrite Hd in Hm. by apply run_settled in Hm.
Qed.

(** C2. In every history of trigger operations, interleaved in any order and with
    any clock readings, what happens to a delivery is a run of the delivery
    machine over the events of the history's calls. At an event the delivery
    stays, or the call names it and, by the call's own clock, worker and fence: it
    is accepted once and unclaimed; claimed when it is due, unexpired and not
    leased, under the next fence and for the span asked, at most fifteen minutes;
    admitted while that worker's claim under that fence and the delivery are
    alive, both under the lock and at the binding update; failed under such a
    claim, to be retried below its version's limit of attempts and before it
    expires, given up for good otherwise; dead-lettered by a claim or an admission
    that finds it expired; or an export takes back its claim after the lease has
    run out. *)
Theorem trigger_deliveries_refine l t t' :
  trigger_reachable organization t -> trigger_run organization l t t' ->
  forall k, delivery_run (ti_versions t') k l (ti_deliveries t !! k) (ti_deliveries t' !! k).
Proof.
  intros Hok%reachable_ok Hs. by destruct (run_moves _ _ _ Hok Hs) as [_ Hm].
Qed.

(** C14. Every reachable ledger is well formed: delivery and event identities are
    unique per trigger and distinct from the receipts', versions are the complete
    lineage of their definition, each delivery belongs to a version of its
    trigger and has used no more attempts than it allows, redrives continue dead
    letters under their own ordinals, the claim, build and reason of a row agree
    with its status, and an admitted delivery names a build of its pipeline. *)
Theorem trigger_ledger_well_formed t : trigger_reachable organization t -> ledger_ok t.
Proof.
  intros (start & Hn & Hs). eapply steps_ok; [exact Hs|]. by apply no_triggers_ok.
Qed.

(** C24. An accepted delivery is never lost and its accepted columns never change,
    its fence and attempts only grow, and once it is admitted or dead-lettered its
    row is final, whatever operations follow. *)
Theorem accepted_delivery_settles t t' k d :
  trigger_reachable organization t -> steps t t' -> ti_deliveries t !! k = Some d ->
  exists d', ti_deliveries t' !! k = Some d' /\ identity_of d' = identity_of d
    /\ td_claim_fence d <= td_claim_fence d' /\ td_attempt_count d <= td_attempt_count d'
    /\ (terminal_delivery (td_status d) = true -> d' = d).
Proof.
  intros Hok%reachable_ok Hs Hd. destruct (steps_settled _ _ _ _ Hok Hs Hd) as (d' & Hd' & Hi & Hf & Ha & Ho).
  exists d'. split_and!; [done..|]. intros Ht. apply Ho. unfold open_delivery. by rewrite Ht.
Qed.

(** C8. A schedule fires each slot at most once and loses none it fired: in every
    reachable state the fired slots of a trigger and the deliveries its schedule
    made are one to one, and a generation's watermark is its last fired slot. *)
Theorem slots_fire_once t : trigger_reachable organization t -> schedule_ok t.
Proof.
  intros (start & Hn & Hs).
  eapply steps_schedule; [exact Hs|by apply no_triggers_ok|by apply no_triggers_schedule].
Qed.

(** ** Claims *)

Lemma admit_same_fence clock ids input dag t r k d :
  k = (ar_trigger input, ar_delivery_id input) -> ti_deliveries t !! k = Some d ->
  admit_trigger_delivery_dag organization clock ids input dag t = Ok r ->
  open_delivery d /\ td_claim_fence d = ar_claim_fence input.
Proof.
  intros -> Hd. destruct r as [o t']. intros (d' & a & Hd' & Ho & _ & Hf & _)%admit_ok.
  rewrite Hd in Hd'. by injection Hd' as <-.
Qed.

Lemma fail_same_fence stamp now input t r k d :
  k = (fr_trigger input, fr_delivery_id input) -> ti_deliveries t !! k = Some d ->
  fail_trigger_delivery organization stamp now input t = Ok r -> td_claim_fence d = fr_claim_fence input.
Proof.
  intros -> Hd. destruct r as [o t']. intros Hr. unfold fail_trigger_delivery in Hr.
  rewrite !seq_ok in Hr. destruct Hr as (_ & _ & _ & _ & Hr). rewrite bind_ok in Hr.
  destruct Hr as (d' & Hd'%existing_delivery_ok & Hr). rewrite Hd in Hd'. injection Hd' as <-.
  rewrite bind_ok in Hr. destruct Hr as (v & _ & Hr). rewrite !seq_ok in Hr.
  by destruct Hr as (_ & [_ Hf]%require_claim_ok & _).
Qed.

Lemma claimed_row stamp first now input t d t' :
  claim_trigger_delivery organization stamp first now input t = Ok (DeliveryClaimed d, t') ->
  exists d0, ti_deliveries t !! (cr_trigger input, cr_delivery_id input) = Some d0
    /\ td_claim_fence d = td_claim_fence d0 + 1
    /\ ti_deliveries t' !! (cr_trigger input, cr_delivery_id input) = Some d.
Proof.
  intros (d0 & a & Hd0 & _ & _ & _ & _ & _ & -> & -> & _)%claim_ok. exists d0.
  split_and!; [done..|]. cbn. by rewrite lookup_insert_eq.
Qed.

(** C23. Once another claim of the same delivery has been granted, the worker of
    an earlier claim can neither admit nor fail it: every such call under the old
    fence is an error, in every later state. *)
Theorem stale_worker_fenced t1 t2 t3 t4 t5 s1 f1 n1 in1 d1 s2 f2 n2 in2 d2 k :
  trigger_reachable organization t1 ->
  k = (cr_trigger in1, cr_delivery_id in1) -> k = (cr_trigger in2, cr_delivery_id in2) ->
  claim_trigger_delivery organization s1 f1 n1 in1 t1 = Ok (DeliveryClaimed d1, t2) -> steps t2 t3 ->
  claim_trigger_delivery organization s2 f2 n2 in2 t3 = Ok (DeliveryClaimed d2, t4) -> steps t4 t5 ->
  (forall clock ids worker dag,
     is_ok (admit_trigger_delivery_dag organization clock ids
              (MkAdmissionRequest k.1 k.2 worker (td_claim_fence d1)) dag t5) = false)
  /\ (forall stamp now worker at_ms retry_at retryable reason,
     is_ok (fail_trigger_delivery organization stamp now
              (MkFailureRequest k.1 k.2 worker (td_claim_fence d1) at_ms retry_at retryable reason) t5)
     = false).
Proof.
  intros Hok1%reachable_ok K1 K2 C1 S1 C2 S2.
  assert (ledger_ok t2) as Hok2 by (eapply effect_ok, Hok1; by eapply step_effect, step_claim).
  assert (ledger_ok t3) as Hok3 by by eapply steps_ok.
  assert (ledger_ok t4) as Hok4 by (eapply effect_ok, Hok3; by eapply step_effect, step_claim).
  apply claimed_row in C1 as (_ & _ & _ & R1), C2 as (e & He & Hf & R2).
  rewrite <- K1 in R1. rewrite <- K2 in He, R2.
  destruct (steps_settled _ _ _ _ Hok2 S1 R1) as (e' & He' & _ & Hle & _).
  destruct (steps_settled _ _ _ _ Hok4 S2 R2) as (d5 & H5' & _ & Hle' & _).
  assert (e' = e) as -> by congruence. destruct k as [tr id]. split.
  - intros clock ids worker dag. destruct (admit_trigger_delivery_dag _ _ _ _ _ _) eqn:E; [|done].
    eapply (admit_same_fence _ _ _ _ _ _ (tr, id)) in E as [_ E]; [|reflexivity|exact H5']. cbn in E. lia.
  - intros stamp now worker at_ms retry_at retryable reason.
    destruct (fail_trigger_delivery _ _ _ _ _) eqn:E; [|done].
    eapply (fail_same_fence _ _ _ _ _ (tr, id)) in E; [|reflexivity|exact H5']. cbn in E. lia.
Qed.

(** C9. A delivery is admitted only while its worker's claim and the delivery
    itself are alive at the update that binds the build, the build is of the
    delivery's project and pipeline, and it stays the delivery's only one: in
    every later state the row is unchanged and every further admission fails. *)
Theorem admission_is_exclusive clock ids input dag t d admission t' t'' :
  trigger_reachable organization t ->
  admit_trigger_delivery_dag organization clock ids input dag t = Ok (AdmittedDag d admission, t') ->
  steps t' t'' ->
  let k := (ar_trigger input, ar_delivery_id input) in
  (exists d0, ti_deliveries t !! k = Some d0
     /\ live_claim (ar_worker_identity input) (ar_claim_fence input)
          (trigger_database_unix_ms (ac_lease clock)) d0
     /\ trigger_database_unix_ms (ac_bind clock) < td_expires_at d0)
  /\ td_build d = Some (adm_build admission)
  /\ build_of (ti_store t') (adm_build admission) (td_project d) (td_pipeline d)
  /\ ti_deliveries t'' !! k = Some d
  /\ (forall clock' ids' worker fence dag',
       is_ok (admit_trigger_delivery_dag organization clock' ids'
                (MkAdmissionRequest k.1 k.2 worker fence) dag' t'') = false).
Proof.
  intros Hok%reachable_ok Ha Hs k.
  assert (ledger_ok t') as Hok' by (eapply effect_ok, Hok; by eapply step_effect, step_admit).
  apply admit_ok in Ha as (d0 & a & Hd0 & Ho & _ & _ & _ & db & _ & _ & Hl & He & Hadm & Hp & Hq & -> & -> & _).
  fold k in Hd0.
  assert (ti_deliveries (with_row a k (admitted_with (adm_build admission) d0) (t <| ti_store := db |>)) !! k
          = Some (admitted_with (adm_build admission) d0)) as Hrow by apply lookup_insert_eq.
  destruct (steps_settled _ _ _ _ Hok' Hs Hrow) as (d' & Hd' & _ & _ & _ & Hfin).
  rewrite Hfin in Hd' by done. split_and!; [by exists d0|done| |done|].
  - apply admit_dag_builds in Hadm as [_ Hb]. cbn. by rewrite Hp, Hq.
  - intros clock' ids' worker fence dag'. destruct (admit_trigger_delivery_dag _ _ _ _ _ _) eqn:E; [|done].
    by eapply (admit_same_fence _ _ _ _ _ _ k) in E as [E _]; [|reflexivity|exact Hd'].
Qed.

End Claims.
