(* ===== verification/TriggerReplay.v ===== *)
(** * Redeliveries and the scan for due work

    A delivery that was accepted once is replayed for good, whatever happens to
    it and to its trigger in between; what the scan reports as due can be
    claimed. *)

From stdpp Require Import base gmap list sorting strings relations.
From Stdlib Require Import Ascii ZArith Lia.
From S2P Require Import Prelude Text Bytes Domain DagContract StoreTables AuditChain.
From S2P Require Import ScheduleCalendar TriggerTables TriggerValidation TriggerSchedule.
From S2P Require Import DagRuntime TriggerIngress TriggerDeliveries TriggerTransfer.
From S2P Require Import StoreFrames TriggerMoves TriggerEffects TriggerHistory TriggerLedger.
From S2P Require Import TriggerClaims.

Open Scope Z_scope.

Section Replay.
Context `{External} `{DagExternal} `{Md5Hash} `{TriggerHex} `{Postgres} `{CivilTime} `{AuditJson}.
Context (organization : Uuid).

Notation steps := (rtc (trigger_step organization)).






(** ** The scan *)

(** The request of a worker that the claim takes as it is. *)
Definition claimable (input : TriggerDeliveryClaimRequest) : Prop :=
  validate_text "delivery_id" (cr_delivery_id input) MAX_TEXT_BYTES = Ok tt
  /\ validate_text "worker_identity" (cr_worker_identity input) MAX_TEXT_BYTES = Ok tt
  /\ 0 <= cr_now input < cr_lease_expires_at input
  /\ cr_lease_expires_at input - cr_now input <= 15 * 60 * 1000.

Lemma due_scan_ok now now_ms limit t l d :
  due_trigger_deliveries now now_ms limit t = Ok l -> d ∈ l ->
  exists k, ti_deliveries t !! k = Some d
    /\ due_delivery (trigger_database_unix_ms now) t d = true.
Proof.
  unfold due_trigger_deliveries. rewrite guard_ok. intros [_ [= <-]] Hin.
  apply elem_of_take in Hin as (i & Hi & _). apply list_elem_of_lookup_2 in Hi.
  rewrite merge_sort_Permutation in Hi. by apply elem_of_deliveries_where.
Qed.

(** A record and an update that the guards accept: only the record can fail. *)
Lemma audited_update_total actor action subject payload stamp tr id f t d A (k : TriggerDelivery -> A) :
  ti_deliveries t !! (tr, id) = Some d -> guard_trigger_delivery d (f d) = true ->
  delivery_row_ok (f d) = true ->
  let r := (appended ← append_trigger_audit organization actor action subject payload stamp t;
            t ← update_delivery tr id f appended.2;
            delivery ← get_delivery tr id t;
            Ok (k delivery, t)) in
  (exists t', r = Ok (k (f d), t'))
  \/ exists e, append_trigger_audit organization actor action subject payload stamp t = Err e /\ r = Err e.
Proof.
  intros Hd Hg Hr. cbv zeta.
  destruct (append_trigger_audit _ _ _ _ _ _ _) as [[e t1]|e] eqn:E; [left|right; by exists e].
  apply append_trigger_audit_ok in E as (a & _ & ->). cbn [mbind result_bind snd].
  unfold update_delivery. change (ti_deliveries (t <| ti_audit := a |>)) with (ti_deliveries t).
  rewrite Hd, Hg, Hr. cbn [negb check mbind result_bind]. unfold get_delivery. cbn.
  rewrite lookup_insert_eq. by eexists.
Qed.

Lemma row_open d :
  delivery_row_ok d = true -> open_delivery d ->
  td_build d = None /\ td_terminal_reason d = None /\ 0 <= td_claim_fence d /\ 0 <= td_next_attempt_at d.
Proof.
  unfold delivery_row_ok. rewrite !andb_true_iff.
  intros [[[[[[[[[_ _] _] Hn] Hf] _] _] _] Hs] _] Ho. bool_prop.
  unfold delivery_status_ok, open_delivery in *.
  destruct (td_status d), (td_build d), (td_terminal_reason d); by cbn in *.
Qed.

Lemma claimed_by_row worker lease d :
  delivery_row_ok d = true -> open_delivery d -> 0 <= lease ->
  delivery_row_ok (claimed_by worker (td_claim_fence d + 1) lease d) = true
  /\ guard_trigger_delivery d (claimed_by worker (td_claim_fence d + 1) lease d) = true.
Proof.
  intros Hrow Ho Hl. destruct (row_open _ Hrow Ho) as (Hb & Hr & Hf & _). split.
  - revert Hrow. unfold delivery_row_ok, delivery_status_ok, open_delivery in *. cbn.
    rewrite (proj2 (Z.leb_le 0 (td_claim_fence d + 1))), (proj2 (Z.leb_le 0 lease)) by lia.
    rewrite !andb_true_iff. intros Hrow. destruct_and!. rewrite Hb, Hr. by destruct (td_status d).
  - unfold guard_trigger_delivery, open_delivery in *. cbn. rewrite Ho, Z.eqb_refl. cbn.
    rewrite !(proj2 (Z.leb_le _ _)) by lia. rewrite (proj2 (Z.eqb_neq _ _)) by lia. cbn.
    by destruct (td_status d).
Qed.

Lemma dead_lettered_row reason d :
  delivery_row_ok d = true -> open_delivery d ->
  delivery_row_ok (dead_lettered reason d) = true
  /\ guard_trigger_delivery d (dead_lettered reason d) = true.
Proof.
  intros Hrow Ho. destruct (row_open _ Hrow Ho) as (Hb & Hr & Hf & _). split.
  - revert Hrow. unfold delivery_row_ok, delivery_status_ok. cbn. rewrite !andb_true_iff.
    intros Hrow. destruct_and!. rewrite Hb. done.
  - unfold guard_trigger_delivery, open_delivery in *. cbn. rewrite Ho. cbn.
    rewrite !(proj2 (Z.leb_le _ _)) by lia. rewrite (proj2 (Z.eqb_neq _ (_ + 1))) by lia. cbn.
    rewrite andb_false_r. by destruct (td_status d).
Qed.

(** The claim of a delivery that is due at the reading [now]. *)
Lemma claim_of_due stamp now t d input :
  let clock := trigger_database_unix_ms now in
  let subject := delivery_subject (td_trigger d) (td_delivery_id d) in
  ti_deliveries t !! (td_trigger d, td_delivery_id d) = Some d -> due_delivery clock t d = true ->
  cr_trigger input = td_trigger d -> cr_delivery_id input = td_delivery_id d -> claimable input ->
  claim_trigger_delivery organization stamp now now input t
  = if td_expires_at d <=? clock
    then
      appended ← append_trigger_audit organization (cr_worker_identity input)
        "trigger.delivery_dead_lettered" subject
        (VObject [("reason", VString "delivery expired before claim")]) stamp (lock_head t);
      t ← update_delivery (td_trigger d) (td_delivery_id d)
            (dead_lettered "delivery expired before claim") appended.2;
      delivery ← get_delivery (td_trigger d) (td_delivery_id d) t;
      Ok (DeliveryTerminal delivery, t)
    else
      lease ← ok_or (checked_add_i64 clock (cr_lease_expires_at input - cr_now input))
        (InvalidTriggerIngress "delivery claim lease overflows");
      appended ← append_trigger_audit organization (cr_worker_identity input)
        "trigger.delivery_claimed" subject
        (VObject [("claim_fence", json_z (td_claim_fence d + 1));
                  ("lease_expires_at_unix_ms", json_z lease)]) stamp (lock_head t);
      t ← update_delivery (td_trigger d) (td_delivery_id d)
            (claimed_by (cr_worker_identity input) (td_claim_fence d + 1) lease) appended.2;
      delivery ← get_delivery (td_trigger d) (td_delivery_id d) t;
      Ok (DeliveryClaimed delivery, t).
Proof.
  intros clock subject Hd Hdue Et Ei (V1 & V2 & V3 & V4). unfold due_delivery in Hdue.
  rewrite !andb_true_iff in Hdue. destruct Hdue as [[[[Hopen Hnext] Hfree] Htrig] Hpipe].
  apply negb_true_iff in Hopen.
  destruct (current_version t (td_trigger d)) as [[def v]|] eqn:Hv; [|done]. cbn in Htrig.
  destruct (pipeline_truth t _ _) as [[g state]|] eqn:Hp; [|done]. cbn in Hpipe. bool_prop. subst state.
  apply bool_decide_eq_true in Htrig.
  assert (leased_at clock d = false) as Hleased.
  { unfold leased_at. unfold unclaimed_at in Hfree. destruct (td_claim_owner d); [|done]. cbn in *.
    destruct (td_claim_expires_at d); [|done]. cbn in *. bool_prop. apply Z.ltb_ge. lia. }
  unfold claim_trigger_delivery. rewrite V1, V2. cbn [mbind result_bind].
  rewrite !(proj2 (Z.ltb_ge _ _)), (proj2 (Z.leb_gt _ _)) by lia. cbn [orb check mbind result_bind].
  rewrite Et, Ei. unfold existing_delivery. rewrite Hd. cbn [ok_or mbind result_bind].
  rewrite Hopen, Hv. unfold require_enabled_trigger, locked_pipeline. rewrite Hp.
  cbn [ok_or mbind result_bind snd]. rewrite bool_decide_eq_false_2 by (rewrite Htrig; done).
  cbn [check mbind result_bind require_enabled_pipeline]. cbv zeta. fold clock.
  rewrite (proj2 (Z.ltb_ge _ _)) by lia. by rewrite Hleased, andb_false_r.
Qed.

(** C32. What the scan for due work returns can be claimed: at the same reading of
    the clock the claim of a returned delivery is never refused as paused,
    disabled, not due or leased. It grants the next fence for exactly the lease
    asked, or dead-letters the delivery when it has expired, unless the audit
    record cannot be written or the lease overflows the clock. *)
Theorem due_scan_claimable stamp now now_ms limit t l d input :
  trigger_reachable organization t ->
  due_trigger_deliveries now now_ms limit t = Ok l -> d ∈ l ->
  cr_trigger input = td_trigger d -> cr_delivery_id input = td_delivery_id d -> claimable input ->
  let clock := trigger_database_unix_ms now in
  let lease := clock + (cr_lease_expires_at input - cr_now input) in
  let r := claim_trigger_delivery organization stamp now now input t in
  (clock < td_expires_at d /\ exists t', r = Ok (DeliveryClaimed
     (claimed_by (cr_worker_identity input) (td_claim_fence d + 1) lease d), t'))
  \/ (td_expires_at d <= clock /\ exists t', r = Ok (DeliveryTerminal
        (dead_lettered "delivery expired before claim" d), t'))
  \/ (exists action payload e, append_trigger_audit organization (cr_worker_identity input) action
        (delivery_subject (td_trigger d) (td_delivery_id d)) payload stamp (lock_head t) = Err e
        /\ r = Err e)
  \/ (i64_max < lease /\ r = Err (InvalidTriggerIngress "delivery claim lease overflows")).
Proof.
  intros Hok%reachable_ok Hscan Hin Et Ei Hc clock lease r.
  destruct (due_scan_ok _ _ _ _ _ _ Hscan Hin) as (k & Hd & Hdue). fold clock in Hdue.
  pose proof (lo_row _ Hok _ _ Hd) as Hrow. rewrite (lo_key _ Hok _ _ Hd) in Hd.
  unfold r. rewrite (claim_of_due stamp now t d input Hd Hdue Et Ei Hc). fold clock.
  destruct Hc as (_ & _ & V3 & V4). unfold due_delivery in Hdue. rewrite !andb_true_iff in Hdue.
  destruct Hdue as [[[[Hopen%negb_true_iff Hnext] _] _] _].
  destruct (row_open _ Hrow Hopen) as (_ & _ & Hf & Hn).
  destruct (td_expires_at d <=? clock) eqn:He; bool_prop.
  - destruct (dead_lettered_row "delivery expired before claim" d Hrow Hopen) as [R G].
    edestruct (fun a => audited_update_total (cr_worker_identity input) a
      (delivery_subject (td_trigger d) (td_delivery_id d))) as [[t' E]|(e & E1 & E2)];
      [exact Hd|exact G|exact R| |].
    + right. left. split; [done|]. exists t'. exact E.
    + right. right. left. eauto.
  - unfold checked_add_i64. fold lease. unfold in_i64.
    rewrite (proj2 (Z.leb_le i64_min lease)) by (unfold lease, i64_min; lia). cbn [andb].
    destruct (lease <=? i64_max) eqn:Hmax; bool_prop; cbn [ok_or mbind result_bind];
      [|right; right; right; done].
    destruct (claimed_by_row (cr_worker_identity input) lease d Hrow Hopen) as [R G]; [unfold lease; lia|].
    edestruct (fun a => audited_update_total (cr_worker_identity input) a
      (delivery_subject (td_trigger d) (td_delivery_id d))) as [[t' E]|(e & E1 & E2)];
      [exact Hd|exact G|exact R| |].
    + left. split; [done|]. exists t'. exact E.
    + right. right. left. eauto.
Qed.

End Replay.
