(* ===== verification/TriggerAudit.v ===== *)
(** * The trigger ledger and the audit chain

    Every operation on triggers only appends to the organization's audit chain,
    and each version, delivery and receipt names the record of its making. *)

From stdpp Require Import base gmap list sorting strings relations.
From Stdlib Require Import Ascii ZArith Lia.
From S2P Require Import Prelude Text Bytes Domain DagContract StoreTables AuditChain AuditHistory.
From S2P Require Import ScheduleCalendar TriggerTables TriggerValidation TriggerSchedule.
From S2P Require Import DagRuntime TriggerIngress TriggerDeliveries TriggerTransfer.
From S2P Require Import StoreFrames TriggerMoves TriggerEffects TriggerHistory TriggerLedger.

Open Scope Z_scope.

Section Audit.
Context `{ExternalLaws} `{DagExternal} `{Md5Hash} `{TriggerHex} `{Postgres} `{CivilTime}.
Context `{!AuditJson} `{!AuditJsonLaws _}.
Context (organization : Uuid).

Lemma audit_next_grows a a' : audit_next organization a a' -> chain_ok organization a -> grows organization a a'.
Proof.
  induction 1 as [a|a a' _ IH|a category actor action subject payload stamp e b a' Ha _ IH]; intros Hok.
  - by apply grows_refl.
  - eapply grows_trans; [by apply lock_grows|]. by apply IH, lock_audit_head_ok.
  - pose proof (append_grows _ _ _ _ _ _ _ _ _ _ Hok Ha) as Hg.
    eapply grows_trans; [exact Hg|]. apply IH, Hg.
Qed.

(** A record of the chain: its sequence, who did what to which subject, and the
    payload, as [jsonb] stores it. *)
Definition recorded_at (t : TriggerDb) (sequence : Z) (actor action subject : string)
    (payload : Value) (hash : string) : Prop :=
  exists e, e ∈ at_events (ti_audit t) /\ ae_sequence e = sequence /\ ae_category e = "trigger"
    /\ ae_actor_subject e = actor /\ ae_action e = action /\ ae_subject e = subject
    /\ ae_payload e = jsonb payload /\ ae_event_hash e = hash.

(** What the record of a version, of an accepted or redriven delivery and of a
    receipt says, from the columns of the row. The slot of a scheduled delivery is
    not a column of its row. *)
Definition version_payload (v : PipelineTrigger) : Value :=
  VObject
    [("configuration_sha256", VString (hex_encode (pt_configuration_sha256 v)));
     ("event_source_identity", VString (pt_event_source_identity v));
     ("filter_sha256", VString (hex_encode (pt_filter_sha256 v)));
     ("generation", json_z (pt_generation v));
     ("implementation_sha256", VString (hex_encode (pt_implementation_sha256 v)));
     ("kind", VString (trigger_kind_str (pt_kind v)));
     ("pipeline_id", VString (pt_pipeline v)); ("project_id", VString (pt_project v));
     ("reason", VString (pt_reason v)); ("source_generation", VString (pt_source_generation v));
     ("state", VString (trigger_state_str (pt_state v))); ("trigger_id", VString (pt_trigger v))].

Definition delivery_payload (slot : Value) (d : TriggerDelivery) : Value :=
  VObject
    [("accepted_at_unix_ms", json_z (td_accepted_at d)); ("delivery_id", VString (td_delivery_id d));
     ("event_id", VString (td_event_id d)); ("event_kind", VString (td_event_kind d));
     ("event_time_unix_ms", json_z (td_event_time d));
     ("expires_at_unix_ms", json_z (td_expires_at d));
     ("payload_sha256", VString (hex_encode (td_payload_sha256 d)));
     ("pipeline_id", VString (td_pipeline d)); ("project_id", VString (td_project d));
     ("schedule_slot", slot); ("trigger_generation", json_z (td_trigger_generation d));
     ("trigger_id", VString (td_trigger d))].

Definition redrive_payload (dead_letter : string) (d : TriggerDelivery) : Value :=
  VObject
    [("dead_letter_delivery_id", VString dead_letter);
     ("redrive_ordinal", json_z (default 0 (td_redrive_ordinal d)));
     ("trigger_generation", json_z (td_trigger_generation d))].

Definition unadmitted_payload (r : WebhookReceipt) : Value :=
  VObject
    [("body_sha256", VString (hex_encode (wr_body_sha256 r)));
     ("delivery_id", VString (wr_delivery_id r)); ("event", VString (wr_event r));
     ("provider", VString "github"); ("reason", VString (wr_reason r));
     ("recorded_at_unix_ms", json_z (wr_recorded_at r)); ("status", VString (wr_status r));
     ("trigger_id", VString (wr_trigger r))].

(** The record of its own making that each row names. *)
Definition version_recorded (t : TriggerDb) (v : PipelineTrigger) : Prop :=
  recorded_at t (pt_audit_sequence v) (pt_actor_subject v)
    (if pt_generation v =? 1 then "trigger.created" else "trigger.revised")
    (trigger_subject (pt_pipeline v) (pt_trigger v)) (version_payload v) (pt_audit_event_hash v).

Definition delivery_recorded (t : TriggerDb) (d : TriggerDelivery) : Prop :=
  let subject := delivery_subject (td_trigger d) (td_delivery_id d) in
  match td_redrive_of d with
  | None => exists slot,
      recorded_at t (td_audit_sequence d) (td_caller_identity d) "trigger.delivery_accepted" subject
        (delivery_payload slot d) (td_audit_event_hash d)
  | Some dead_letter => exists actor,
      recorded_at t (td_audit_sequence d) actor "trigger.delivery_redriven" subject
        (redrive_payload dead_letter d) (td_audit_event_hash d)
  end.

Definition receipt_recorded (t : TriggerDb) (r : WebhookReceipt) : Prop :=
  exists hash,
    recorded_at t (wr_audit_sequence r) (wr_caller_identity r) "trigger.delivery_unadmitted"
      (delivery_subject (wr_trigger r) (wr_delivery_id r)) (unadmitted_payload r) hash.

Record anchored (t : TriggerDb) : Prop := {
  an_chain : chain_ok organization (ti_audit t);
  an_version k v : ti_versions t !! k = Some v -> version_recorded t v;
  an_delivery k d : ti_deliveries t !! k = Some d -> delivery_recorded t d;
  an_receipt k r : ti_receipts t !! k = Some r -> receipt_recorded t r
}.

Lemma recorded_prefix t t' sequence actor action subject payload hash :
  at_events (ti_audit t) `prefix_of` at_events (ti_audit t') ->
  recorded_at t sequence actor action subject payload hash ->
  recorded_at t' sequence actor action subject payload hash.
Proof.
  intros [l El] (e & He & Hrest). exists e. split; [|done]. rewrite El. apply elem_of_app. by left.
Qed.

Lemma version_recorded_prefix t t' v :
  at_events (ti_audit t) `prefix_of` at_events (ti_audit t') ->
  version_recorded t v -> version_recorded t' v.
Proof. apply recorded_prefix. Qed.

Lemma delivery_recorded_prefix t t' d :
  at_events (ti_audit t) `prefix_of` at_events (ti_audit t') ->
  delivery_recorded t d -> delivery_recorded t' d.
Proof.
  unfold delivery_recorded. intros Hp. destruct (td_redrive_of d); intros [x Hx]; exists x;
    by eapply recorded_prefix.
Qed.

Lemma receipt_recorded_prefix t t' r :
  at_events (ti_audit t) `prefix_of` at_events (ti_audit t') ->
  receipt_recorded t r -> receipt_recorded t' r.
Proof. intros Hp [hash Hr]. exists hash. by eapply recorded_prefix. Qed.

(** The record of a delivery says nothing of its claim and its end. *)
Lemma delivery_recorded_identity t d d' :
  identity_of d' = identity_of d -> delivery_recorded t d -> delivery_recorded t d'.
Proof.
  unfold identity_of. intros E. injection E. intros. unfold delivery_recorded, delivery_payload,
    redrive_payload. destruct d, d'; cbn in *; by subst.
Qed.

(** The record an append writes. *)
Lemma append_recorded t actor action subject payload stamp a e t' :
  chain_ok organization a ->
  append_audit_record organization "trigger" actor action subject payload stamp a
    = Ok (e, ti_audit t') ->
  recorded_at t' (ae_sequence e) actor action subject payload (ae_event_hash e)
  /\ (ti_audit t = a \/ lock_audit_head (ti_audit t) = a ->
      at_events (ti_audit t) `prefix_of` at_events (ti_audit t') /\ chain_ok organization (ti_audit t')).
Proof.
  intros Hok Ha. apply append_audit_record_ok in Ha as (Hok' & He & _ & _ & _ & _ & _ & Hf); [|done].
  injection Hf as E1 E2 E3 E4 E5. split.
  - exists (stored_event e). rewrite He. split; [apply elem_of_app; right; by left|].
    split_and!; try done. cbn. by rewrite E5, jsonb_stored.
  - intros Heq. split; [|done]. rewrite He.
    assert (at_events (ti_audit t) = at_events a) as -> by (destruct Heq as [<-|<-]; done).
    by eexists.
Qed.

Lemma progressed_anchored e t t' : progressed organization e t t' -> anchored t -> anchored t'.
Proof.
  intros Hp [Hc Hv Hd Hr]. destruct (audit_next_grows _ _ (pr_audit _ _ _ _ Hp) Hc) as [Hc' Hpre _].
  split; [done| | |].
  - rewrite (pr_versions _ _ _ _ Hp). eauto using version_recorded_prefix.
  - intros k d' (d & Hk & Hi & _)%(progressed_back _ _ _ _ _ _ Hp).
    eapply delivery_recorded_identity; [exact Hi|]. eauto using delivery_recorded_prefix.
  - rewrite (pr_receipts _ _ _ _ Hp). eauto using receipt_recorded_prefix.
Qed.

(** The chain has grown, and every row is an old one or has its own record. *)
Lemma anchored_grown t t' :
  anchored t -> at_events (ti_audit t) `prefix_of` at_events (ti_audit t') ->
  chain_ok organization (ti_audit t') ->
  (forall k v, ti_versions t' !! k = Some v -> ti_versions t !! k = Some v \/ version_recorded t' v) ->
  (forall k d, ti_deliveries t' !! k = Some d ->
     ti_deliveries t !! k = Some d \/ delivery_recorded t' d) ->
  (forall k r, ti_receipts t' !! k = Some r -> ti_receipts t !! k = Some r \/ receipt_recorded t' r) ->
  anchored t'.
Proof.
  intros [_ Hv Hd Hr] Hpre Hc Nv Nd Nr. split; [done| | |].
  - intros k v [Hk|Hn]%Nv; eauto using version_recorded_prefix.
  - intros k d [Hk|Hn]%Nd; eauto using delivery_recorded_prefix.
  - intros k r [Hk|Hn]%Nr; eauto using receipt_recorded_prefix.
Qed.

(** The new version's record is of its own generation. *)
Lemma configured_anchored input v t t' :
  configured organization input t v t' -> ledger_ok t -> anchored t -> anchored t'.
Proof.
  intros [generation created stamp a e m _ Hdef Hv Hnew Happ _ Et] Hl Hok.
  assert (a = ti_audit t') as -> by by subst t'.
  destruct (append_recorded t _ _ _ _ _ _ _ t' (an_chain _ Hok) Happ) as [Hrec [Hpre Hch]]; [by left|].
  apply (anchored_grown t); try done; [|rewrite Et; by left..].
  intros k x Hk. rewrite Et in Hk. cbn in Hk.
  apply lookup_insert_Some in Hk as [[<- <-]|[_ Hx]]; [right|by left].
  subst v. unfold version_recorded. cbn.
  assert ((if generation =? 1 then "trigger.created" else "trigger.revised")
          = (if created then "trigger.created" else "trigger.revised")) as ->; [|exact Hrec].
  destruct (ti_definitions t !! tw_trigger input) as [d|] eqn:Ed; [|by destruct Hdef as [-> ->]].
  destruct Hdef as (_ & _ & -> & ->). pose proof (lo_current _ Hl _ _ Ed).
  by rewrite (proj2 (Z.eqb_neq _ 1)) by lia.
Qed.

Lemma effect_anchored e t t' : trigger_effect organization t t' e -> ledger_ok t -> anchored t -> anchored t'.
Proof.
  intros [e' Hp|fired_at now input timing d Ha|now input d Hr|input v Hc|now input r Hr] Hl Hok.
  - by eapply progressed_anchored.
  - destruct (accepted_new _ _ _ _ _ _ _ _ Hl Ha) as [Hn Hadd].
    destruct Ha as [v t1 stamp a e0 event_time expires_at _ _ _ _ _ _ Happ Hd _ Et].
    assert (a = ti_audit t') as -> by by subst t'.
    destruct (append_recorded t _ _ _ _ _ _ _ t' (lock_audit_head_ok _ _ (an_chain _ Hok)) Happ)
      as [Hrec [Hpre Hc]]; [by right|]. apply (anchored_grown t); try done.
    + rewrite (ra_versions _ _ _ Hadd). by left.
    + intros k x [[-> ->]|Hx]%(row_added_cases _ _ _ _ _ Hadd); [right|by left]. subst d.
      by exists (json_slot (nd_schedule_slot input)).
    + rewrite (ra_receipts _ _ _ Hadd). by left.
  - destruct (redriven_new _ _ _ _ _ _ Hl Hr) as [Hn Hadd].
    destruct Hr as [o v stamp a e0 expires_at _ _ _ _ _ _ _ Happ Hd _ _ Et].
    assert (a = ti_audit t') as -> by by subst t'.
    destruct (append_recorded t _ _ _ _ _ _ _ t' (lock_audit_head_ok _ _ (an_chain _ Hok)) Happ)
      as [Hrec [Hpre Hc]]; [by right|]. apply (anchored_grown t); try done.
    + rewrite (ra_versions _ _ _ Hadd). by left.
    + intros k x [[-> ->]|Hx]%(row_added_cases _ _ _ _ _ Hadd); [right|by left]. subst d.
      by exists (rd_actor_subject input).
    + rewrite (ra_receipts _ _ _ Hadd). by left.
  - by eapply configured_anchored.
  - destruct Hr as [stamp a e0 d _ _ _ Happ Hr Et].
    assert (ti_audit t' = a) as Ea by by subst t'. rewrite <- Ea in Happ.
    destruct (append_recorded t _ _ _ _ _ _ _ t' (lock_audit_head_ok _ _ (an_chain _ Hok)) Happ)
      as [Hrec [Hpre Hc]]; [by right|]. apply (anchored_grown t); try done; [by rewrite Et; left..|].
    intros k x Hk. rewrite Et in Hk. cbn in Hk.
    apply lookup_insert_Some in Hk as [[<- <-]|[_ Hx]]; [right|by left].
    exists (ae_event_hash e0). by subst r.
Qed.

(** C15. Starting from a chain that is linked and hashed, every history of trigger
    operations leaves one, which the verifier accepts up to the number of records
    an export may hold, and in it each trigger version, each delivery and each
    receipt names the record of its own making: the record at its sequence, with
    the hash the row stores, has the row's subject and, in its payload, the row's
    own columns, among them the generation of a version. *)
Theorem trigger_ledger_audited start t :
  no_triggers start -> chain_ok organization (ti_audit start) ->
  rtc (trigger_step organization) start t ->
  anchored t
  /\ (llen (at_events (ti_audit t)) <= MAX_AUDIT_EXPORT -> verifies organization (ti_audit t)).
Proof.
  intros Hn Hc Hs.
  assert (anchored start) as Hstart.
  { destruct Hn as (_ & Ev & Ed & Er & _). split; [done|..]; intros *;
      rewrite ?Ev, ?Ed, ?Er; by rewrite lookup_empty. }
  assert (anchored t) as Ht.
  { apply no_triggers_ok in Hn. clear Hc. induction Hs as [|t1 t2 t3 [e H1'] _ IH]; [done|].
    apply step_effect in H1'. apply IH; [by eapply effect_ok|by eapply effect_anchored]. }
  split; [done|]. apply chain_ok_verifies, Ht.
Qed.

End Audit.
