(* ===== verification/TriggerCatchUp.v ===== *)
(** * Catching up after downtime

    What one firing does to the slots of the trigger it picks: the latest due
    slot fires, the older ones are skipped, and no other slot changes. *)

From stdpp Require Import base gmap list sorting strings relations.
From Stdlib Require Import Ascii ZArith Lia.
From S2P Require Import Prelude Text Bytes Domain DagContract StoreTables AuditChain.
From S2P Require Import ScheduleCalendar TriggerTables TriggerValidation TriggerSchedule.
From S2P Require Import DagRuntime TriggerIngress TriggerDeliveries TriggerTransfer.
From S2P Require Import StoreFrames TriggerMoves TriggerEffects TriggerHistory TriggerLedger.
From S2P Require Import TriggerSlots TriggerClaims.

Open Scope Z_scope.

Section CatchUp.
Context `{External} `{DagExternal} `{Md5Hash} `{TriggerHex} `{Postgres} `{CivilTime} `{AuditJson}.
Context (organization : Uuid).

(** An update leaves the slots it does not select, and changes those it does. *)
Lemma update_slots_lookup now P f t t' k :
  update_slots now P f t = Ok t' ->
  ti_slots t' !! k = (fun s => if P k s then touched now f s else s) <$> ti_slots t !! k.
Proof. intros [_ ->]%update_slots_ok. apply lookup_updated. Qed.

(** ** The due times *)

Lemma elem_of_due_times due now_ms t time :
  time ∈ due_times due now_ms t <->
  exists s, ti_slots t !! (due_trigger due, due_generation due, time) = Some s
    /\ sl_outcome s = SlotOpen /\ time <= now_ms.
Proof.
  unfold due_times. rewrite merge_sort_Permutation, list_elem_of_omap. split.
  - intros ([[[tr g] time'] s] & Hin & Hif). apply elem_of_map_to_list in Hin. cbn in Hif.
    destruct (_ && _) eqn:B; [|done]. injection Hif as <-. bool_prop. subst tr g.
    exists s. split_and!; [done| |done]. by destruct (sl_outcome s).
  - intros (s & Hs & Ho & Hle). exists ((due_trigger due, due_generation due, time), s).
    split; [by apply elem_of_map_to_list|]. cbn. rewrite String.eqb_refl, Z.eqb_refl, Ho.
    by rewrite (proj2 (Z.leb_le _ _) Hle).
Qed.

Lemma due_times_sorted due now_ms t : StronglySorted Z.le (due_times due now_ms t).
Proof.
  assert (Total Z.le) by (intros x y; lia). assert (Transitive Z.le) by (intros x y z; lia).
  apply StronglySorted_merge_sort; apply _.
Qed.

Lemma due_times_nodup due now_ms t : NoDup (due_times due now_ms t).
Proof.
  unfold due_times. rewrite merge_sort_Permutation.
  assert (NoDup (map_to_list (ti_slots t)).*1) as Hn by apply NoDup_fst_map_to_list.
  induction (map_to_list (ti_slots t)) as [|[[[tr g] time] s] l IH]; cbn; [constructor|].
  cbn in Hn. apply NoDup_cons in Hn as [Hnin Hn]. specialize (IH Hn).
  destruct (_ && _) eqn:B; [|exact IH]. constructor; [|exact IH].
  intros ([[[tr' g'] time'] s'] & Hin & Hif)%list_elem_of_omap. cbn in Hif.
  destruct ((String.eqb tr' _) && _ && _ && _) eqn:B'; [|done]. injection Hif as ->. bool_prop. subst.
  apply Hnin, list_elem_of_fmap. by eexists (_, s').
Qed.

(** The last of a sorted list without repetitions, and what comes before it. *)
Lemma sorted_last (l : list Z) z :
  StronglySorted Z.le l -> NoDup l -> last l = Some z ->
  z ∈ l /\ (forall x, x ∈ l -> x <= z) /\ (forall x, x ∈ removelast l <-> x ∈ l /\ x <> z)
  /\ NoDup (removelast l).
Proof.
  induction 1 as [|x l Hs IH Hx]; [done|]. rewrite NoDup_cons. intros [Hnin Hn] Hl.
  destruct l as [|y l].
  { injection Hl as <-. split_and!; [by left|set_solver..|constructor]. }
  rewrite last_cons_cons in Hl. destruct (IH Hn Hl) as (Hz & Hmax & Hrem & Hnd).
  rewrite Forall_forall in Hx. change (removelast (x :: y :: l)) with (x :: removelast (y :: l)).
  split_and!.
  - by right.
  - intros w [->|Hw]%elem_of_cons; [by apply Hx|by apply Hmax].
  - intros w. rewrite !elem_of_cons, Hrem, elem_of_cons. split; [|tauto].
    intros [->|[? ?]]; [|tauto]. split; [by left|]. intros ->. done.
  - constructor; [|done]. rewrite Hrem. tauto.
Qed.

(** ** Skipping *)

Lemma skip_all now due l t t' :
  NoDup l ->
  (forall time, time ∈ l -> exists s,
     ti_slots t !! (due_trigger due, due_generation due, time) = Some s /\ sl_outcome s = SlotOpen) ->
  try_fold (fun t time =>
    update_slots now (slot_is (due_trigger due) (due_generation due) time [SlotOpen])
      (set_outcome SlotSkipped) t) t l = Ok t' ->
  (forall k, (forall time, time ∈ l -> k <> (due_trigger due, due_generation due, time)) ->
     ti_slots t' !! k = ti_slots t !! k)
  /\ (forall time, time ∈ l -> exists s,
        ti_slots t' !! (due_trigger due, due_generation due, time) = Some s
        /\ sl_outcome s = SlotSkipped).
Proof.
  revert t. induction l as [|x l IH]; intros t Hn Hopen Hf; cbn [try_fold] in Hf.
  { injection Hf as <-. split; [done|]. by intros time ?%elem_of_nil. }
  rewrite bind_ok in Hf. destruct Hf as (t1 & Hu & Hf). apply NoDup_cons in Hn as [Hx Hn].
  assert (forall k, k <> (due_trigger due, due_generation due, x) -> ti_slots t1 !! k = ti_slots t !! k)
    as Hother.
  { intros k Hk. rewrite (update_slots_lookup _ _ _ _ _ _ Hu).
    destruct (ti_slots t !! k) as [s|]; [|done]. cbn. unfold slot_is.
    by rewrite bool_decide_eq_false_2. }
  apply IH in Hf as [Hkeep Hskip]; [|done|].
  - split.
    + intros k Hk. rewrite Hkeep by (intros; apply Hk; by right). apply Hother, Hk. by left.
    + intros time [->|Hin]%elem_of_cons; [|by apply Hskip].
      rewrite Hkeep by (intros time Hin [= <-]; done).
      destruct (Hopen x) as (s & Hs & Ho); [by left|]. rewrite (update_slots_lookup _ _ _ _ _ _ Hu), Hs.
      cbn. unfold slot_is. rewrite bool_decide_eq_true_2, Ho by done. cbn. by eexists.
  - intros time Hin. rewrite Hother; [by apply Hopen; right|]. intros [= ->]. done.
Qed.

(** ** One firing *)

(** The slots after the claim of the latest due one. *)
Record latest_claimed (now_ms : Z) (due : DueTrigger) (latest : Z) (t t' : TriggerDb) : Prop := {
  lc_due : latest <= now_ms;
  lc_latest : exists s, ti_slots t' !! (due_trigger due, due_generation due, latest) = Some s
                        /\ sl_outcome s = SlotClaimed;
  lc_older time s :
    ti_slots t !! (due_trigger due, due_generation due, time) = Some s ->
    sl_outcome s = SlotOpen -> time <= now_ms ->
    time = latest \/ time < latest /\ exists s',
      ti_slots t' !! (due_trigger due, due_generation due, time) = Some s'
      /\ sl_outcome s' = SlotSkipped;
  lc_others k : k.1 <> (due_trigger due, due_generation due) \/ now_ms < k.2 ->
    ti_slots t' !! k = ti_slots t !! k
}.

Lemma claim_latest now now_ms due latest t t1 t2 t3 :
  update_slots now (fun k s => due_of due now_ms [SlotClaimed] k s && stale_claim now s) reopened t
    = Ok t1 ->
  last (due_times due now_ms t1) = Some latest ->
  try_fold (fun t time =>
    update_slots now (slot_is (due_trigger due) (due_generation due) time [SlotOpen])
      (set_outcome SlotSkipped) t) t1 (removelast (due_times due now_ms t1)) = Ok t2 ->
  update_slots now (slot_is (due_trigger due) (due_generation due) latest [SlotOpen])
    (set_outcome SlotClaimed) t2 = Ok t3 ->
  latest_claimed now_ms due latest t t3.
Proof.
  intros Hreopen Hlast Hskip Hclaim.
  destruct (sorted_last _ _ (due_times_sorted due now_ms t1) (due_times_nodup due now_ms t1) Hlast)
    as (Hin & Hmax & Hrem & Hnd).
  apply elem_of_due_times in Hin as (s & Hs & Ho & Hle).
  apply skip_all in Hskip as [Hkeep Hskipped]; [|done|].
  2:{ intros time [(x & Hx & Hox & _)%elem_of_due_times _]%Hrem. by exists x. }
  assert (forall k, k <> (due_trigger due, due_generation due, latest) ->
    ti_slots t3 !! k = ti_slots t2 !! k) as Hclaimed.
  { intros k Hk. rewrite (update_slots_lookup _ _ _ _ _ _ Hclaim).
    destruct (ti_slots t2 !! k); [|done]. cbn. unfold slot_is. by rewrite bool_decide_eq_false_2. }
  split; [done| | |].
  - rewrite (update_slots_lookup _ _ _ _ _ _ Hclaim), Hkeep, Hs.
    + cbn. unfold slot_is. rewrite bool_decide_eq_true_2, Ho by done. by eexists.
    + intros time [_ Hne]%Hrem [= <-]. done.
  - intros time x Hx Hox Hlx.
    assert (time ∈ due_times due now_ms t1) as Htime.
    { apply elem_of_due_times. exists x. split_and!; [|done..].
      rewrite (update_slots_lookup _ _ _ _ _ _ Hreopen), Hx. cbn. by rewrite Hox, andb_false_r. }
    destruct (decide (time = latest)) as [->|Hne]; [by left|right].
    split; [specialize (Hmax _ Htime); lia|]. rewrite Hclaimed by congruence.
    apply Hskipped, Hrem. done.
  - intros k Hk. rewrite Hclaimed, Hkeep.
    + rewrite (update_slots_lookup _ _ _ _ _ _ Hreopen). destruct (ti_slots t !! k) as [x|]; [|done].
      cbn. destruct k as [[tr g] time]. cbn in Hk. unfold due_of.
      destruct (String.eqb tr _) eqn:E1; [|done]. destruct (g =? _) eqn:E2; [|done].
      bool_prop. subst. destruct Hk as [[]|Hk]; [done|].
      rewrite (proj2 (Z.leb_gt _ _)) by done. by rewrite andb_false_r.
    + intros time [(y & _ & _ & Hy)%elem_of_due_times _]%Hrem ->. cbn in Hk.
      destruct Hk as [[]|Hk]; [done|]. lia.
    + intros ->. cbn in Hk. destruct Hk as [[]|Hk]; [done|]. lia.
Qed.

Lemma filter_none (l : list Z) : List.filter (fun time => negb (existsb (Z.eqb time) [])) l = l.
Proof. induction l as [|x l IH]; [done|]. cbn. f_equal. exact IH. Qed.

Lemma claim_due_slot_ok now now_ms due t input t' :
  claim_due_slot now now_ms [] due t = Ok (Some input, t') ->
  exists latest v expected, latest_claimed now_ms due latest t t'
    /\ schedule_delivery due v expected latest now_ms = Ok input.
Proof.
  unfold claim_due_slot. rewrite bind_ok. intros (t1 & U1 & Hr). cbv zeta in Hr.
  rewrite filter_none in Hr. destruct (last _) as [latest|] eqn:Hl; [|done]. rewrite bind_ok in Hr.
  destruct Hr as (t2 & U2 & Hr). rewrite bind_ok in Hr. destruct Hr as (t3 & U3 & Hr).
  assert (forall r : result StoreError TriggerDb,
    (t ← r; Ok (None (A := NewTriggerDelivery), t)) = Ok (Some input, t') -> False) as Hskip.
  { intros r. rewrite bind_ok. by intros (? & _ & [=]). }
  destruct (current_version t3 _) as [[d v]|]; [|by destruct (Hskip _ Hr)].
  destruct (negb _); [by destruct (Hskip _ Hr)|]. destruct (negb _); [by destruct (Hskip _ Hr)|].
  rewrite bind_ok in Hr. destruct Hr as (input' & Hi & [= -> <-]). exists latest, v. eexists.
  split; [by eapply claim_latest|exact Hi].
Qed.

Lemma schedule_delivery_ok due v expected latest now_ms input :
  schedule_delivery due v expected latest now_ms = Ok input ->
  nd_trigger input = due_trigger due /\ nd_expected_trigger_generation input = due_generation due
  /\ nd_event_time input = latest
  /\ exists slot, nd_schedule_slot input = Some slot /\ ts_resolved_slot slot = latest.
Proof.
  unfold schedule_delivery. cbv zeta. rewrite bind_ok. intros (identity & _ & Hr).
  rewrite bind_ok in Hr. destruct Hr as (bytes & _ & [= <-]). split_and!; [done..|]. by eexists.
Qed.

(** C25. After downtime a schedule catches up with one delivery. When the runner
    claims the due slots of a trigger that no other controller holds and the
    delivery is accepted, the latest due slot has fired as that delivery, every
    older slot that was open is skipped, and the slots that are not due yet and
    those of other triggers and generations are untouched. *)
Theorem catch_up_fires_latest now now_ms due t input t1 stamp fired_at accepted_at d t2 :
  claim_due_slot now now_ms [] due t = Ok (Some input, t1) ->
  accept_trigger_delivery organization stamp fired_at accepted_at input t1
    = Ok (DeliveryCreated d, t2) ->
  exists latest, latest <= now_ms /\ td_event_time d = latest
  /\ fired_as t2 (due_trigger due, due_generation due, latest) (td_delivery_id d)
  /\ (forall time s, ti_slots t !! (due_trigger due, due_generation due, time) = Some s ->
        sl_outcome s = SlotOpen -> time <= now_ms ->
        time = latest \/ time < latest /\ exists s',
          ti_slots t2 !! (due_trigger due, due_generation due, time) = Some s'
          /\ sl_outcome s' = SlotSkipped)
  /\ (forall k, k.1 <> (due_trigger due, due_generation due) \/ now_ms < k.2 ->
        ti_slots t2 !! k = ti_slots t !! k).
Proof.
  intros (latest & v & expected & Hl & (Et & Eg & Ee & slot & Es & Er)%schedule_delivery_ok)%claim_due_slot_ok.
  intros Ha%accept_ok. cbn in Ha.
  destruct Ha as [w t3 stamp0 a e event_time expires_at _ _ _ Hadm Hslot Htimes _ Hd _ ->].
  unfold admissible in Hadm. rewrite seq_ok, guard_ok in Hadm. destruct Hadm as (_ & Hg & _).
  unfold slot_accepted in Hslot. rewrite Es in Hslot.
  destruct Hslot as (_ & _ & _ & s & mark & _ & _ & _ & ->). bool_prop.
  rewrite Er, Et, Hg, Eg. unfold delivery_times in Htimes. cbv zeta in Htimes.
  rewrite guard_ok, bind_ok in Htimes. destruct Htimes as (_ & x & _ & [= Hev _]).
  exists latest. split_and!; [apply Hl| | | |].
  - subst d. cbn. congruence.
  - subst d. eexists. cbn. rewrite lookup_insert_eq. by split_and!.
  - intros time s0 Hs0 Ho Hle. destruct (lc_older _ _ _ _ _ Hl _ _ Hs0 Ho Hle) as [->|[Hlt Hsk]];
      [by left|right]. split; [done|]. cbn. rewrite lookup_insert_ne; [done|]. intros [= ->]. lia.
  - intros k Hk. cbn. rewrite lookup_insert_ne; [by apply (lc_others _ _ _ _ _ Hl)|].
    intros <-. cbn in Hk. destruct Hk as [[]|Hk]; [done|]. pose proof (lc_due _ _ _ _ _ Hl). lia.
Qed.

End CatchUp.
