(* ===== verification/TriggerAnchor.v ===== *)
(** * What a transfer's audit anchor pins down

    The hash of the hand-off event, kept apart from the snapshot, commits to the
    event, the event's payload to the digest of the ledger, and the digest to
    every row of it: each of the three encodings is injective. *)

From stdpp Require Import base gmap list sorting strings.
From Stdlib Require Import Ascii ZArith Lia.
From S2P Require Import Prelude Text Bytes Domain DagContract DagNormal StoreTables AuditChain.
From S2P Require Import AuditHistory ScheduleCalendar TriggerTables TriggerValidation TriggerSchedule.
From S2P Require Import TriggerIngress TriggerDeliveries TriggerTransfer.

Open Scope Z_scope.

(** ** The JSON of a row determines the row *)

Fixpoint value_eqb_eq (v w : Value) : value_eqb v w = true -> v = w.
Proof.
  destruct v as [|a|s|s|l|l], w as [|b|t|t|k|k]; simpl; try done.
  - by intros ->%eqb_prop.
  - by intros ->%String.eqb_eq.
  - by intros ->%String.eqb_eq.
  - revert k. induction l as [|x l IH]; intros [|y k]; simpl; try done.
    intros [->%value_eqb_eq Hk]%andb_prop. by injection (IH k Hk) as ->.
  - revert k. induction l as [|[n x] l IH]; intros [|[m y] k]; simpl; try done.
    intros [[->%String.eqb_eq ->%value_eqb_eq]%andb_prop Hk]%andb_prop.
    by injection (IH k Hk) as ->.
Qed.

Lemma json_z_inj a b : json_z a = json_z b -> a = b.
Proof. intros [= E]. by apply fmt_z_inj. Qed.

Lemma json_byte_inj (a b : ascii) :
  json_z (Z.of_nat (nat_of_ascii a)) = json_z (Z.of_nat (nat_of_ascii b)) -> a = b.
Proof.
  intros E%json_z_inj%Nat2Z.inj. by rewrite <- (ascii_nat_embedding a), E, ascii_nat_embedding.
Qed.

Lemma map_json_inj {A} (f : A -> Value) l k :
  (forall a b, f a = f b -> a = b) -> map f l = map f k -> l = k.
Proof.
  intros Hf. revert k. induction l as [|a l IH]; intros [|b k]; simpl; try done.
  intros [= ->%Hf ->%IH]. done.
Qed.

Lemma json_bytes_inj s t : json_bytes s = json_bytes t -> s = t.
Proof.
  intros [= E%(map_json_inj _ _ _ json_byte_inj)].
  by rewrite <- (String.string_of_list_ascii_of_string s), E, String.string_of_list_ascii_of_string.
Qed.

Lemma json_option_string_inj o p : json_option_string o = json_option_string p -> o = p.
Proof. destruct o, p; simpl; congruence. Qed.

Lemma json_option_z_inj o p : json_option_z o = json_option_z p -> o = p.
Proof. destruct o, p; simpl; try done. by intros ->%json_z_inj. Qed.

Lemma trigger_kind_str_inj a b : trigger_kind_str a = trigger_kind_str b -> a = b.
Proof. by destruct a, b. Qed.
Lemma trigger_state_str_inj a b : trigger_state_str a = trigger_state_str b -> a = b.
Proof. by destruct a, b. Qed.
Lemma delivery_status_str_inj a b : delivery_status_str a = delivery_status_str b -> a = b.
Proof. by destruct a, b. Qed.

Lemma object_cons_inj k v w l m :
  VObject ((k, v) :: l) = VObject ((k, w) :: m) -> v = w /\ VObject l = VObject m.
Proof. by intros [= -> ->]. Qed.

Lemma text_inj s t : VString s = VString t -> s = t.
Proof. by intros [= ->]. Qed.

Lemma array_inj l m : VArray l = VArray m -> l = m.
Proof. by intros [= ->]. Qed.

(** From an equation of two objects to the equations of their fields. *)
#[local] Ltac json_inj := repeat match goal with
  | E : VObject (_ :: _) = VObject (_ :: _) |- _ => apply object_cons_inj in E as [? E]
  | E : VArray _ = VArray _ |- _ => apply array_inj in E
  | E : VString _ = VString _ |- _ => apply text_inj in E
  | E : json_z _ = json_z _ |- _ => apply json_z_inj in E
  | E : json_bytes _ = json_bytes _ |- _ => apply json_bytes_inj in E
  | E : json_option_z _ = json_option_z _ |- _ => apply json_option_z_inj in E
  | E : json_option_string _ = json_option_string _ |- _ => apply json_option_string_inj in E
  | E : trigger_kind_str _ = trigger_kind_str _ |- _ => apply trigger_kind_str_inj in E
  | E : trigger_state_str _ = trigger_state_str _ |- _ => apply trigger_state_str_inj in E
  | E : delivery_status_str _ = delivery_status_str _ |- _ => apply delivery_status_str_inj in E
  end.

Lemma json_version_inj v w : json_version v = json_version w -> v = w.
Proof. intros E. unfold json_version in E. json_inj. destruct v, w. cbn in *. by subst. Qed.

Lemma json_delivery_inj d e : json_delivery d = json_delivery e -> d = e.
Proof. intros E. unfold json_delivery in E. json_inj. destruct d, e. cbn in *. by subst. Qed.

Lemma json_watermark_inj v w : json_watermark v = json_watermark w -> v = w.
Proof. intros E. unfold json_watermark in E. json_inj. destruct v, w. cbn in *. by subst. Qed.

Lemma json_receipt_inj q r : json_receipt q = json_receipt r -> q = r.
Proof. intros E. unfold json_receipt in E. json_inj. destruct q, r. cbn in *. by subst. Qed.

(** A snapshot is its ledger, its hand-off and its state digest. *)
Lemma snapshot_eq s s' :
  ledger_fields s = ledger_fields s' -> tx_handoff_audit_event s = tx_handoff_audit_event s' ->
  tx_audit_sequence s = tx_audit_sequence s' -> tx_audit_event_hash s = tx_audit_event_hash s' ->
  tx_state_sha256 s = tx_state_sha256 s' -> s = s'.
Proof.
  intros E%(f_equal VObject) ? ? ? ?. unfold ledger_fields in E. json_inj.
  repeat match goal with E : map _ _ = map _ _ |- _ => first
    [apply (map_json_inj _ _ _ json_version_inj) in E
    |apply (map_json_inj _ _ _ json_delivery_inj) in E
    |apply (map_json_inj _ _ _ json_watermark_inj) in E
    |apply (map_json_inj _ _ _ json_receipt_inj) in E] end.
  destruct s, s'. cbn in *. by subst.
Qed.

(** ** The anchor *)

Section Anchor.
Context `{ExternalLaws} `{DagExternal} `{!Md5Hash} `{!TriggerHex} `{!TriggerHexLaws _}.
Context `{!Postgres} `{!CivilTime} `{!AuditJson} `{!AuditJsonLaws _}.

(** The types of the organization and of the hand-off event. *)
Definition snapshot_typed (s : TriggerTransferSnapshot) : Prop :=
  uuid_text (tx_organization s) /\ event_typed (tx_handoff_audit_event s).

Lemma hex_encode_inj s t : hex_encode s = hex_encode t -> s = t.
Proof.
  intros E. pose proof (hex_decode_encode s) as Hs. rewrite E, hex_decode_encode in Hs. congruence.
Qed.

Lemma ok_eq {E A} (a b : A) : Ok (E := E) a = Ok b -> a = b.
Proof. by intros [= ->]. Qed.

Lemma ledger_digest_inj s s' h :
  trigger_transfer_ledger_digest s = Ok h -> trigger_transfer_ledger_digest s' = Ok h ->
  ledger_fields s = ledger_fields s' \/ sha256_collision.
Proof.
  unfold trigger_transfer_ledger_digest, ingress_to_vec. rewrite !bind_ok.
  intros (b & Hb%map_err_ok & <-) (b' & Hb'%map_err_ok & E%ok_eq).
  apply sha256_eq_or_collision in E as [E|]; [left|by right].
  do 2 apply sapp_inj in E. subst b'. pose proof (json_to_vec_inj _ _ _ Hb Hb') as Ev. congruence.
Qed.

(** What an accepted snapshot commits to. *)
Lemma verified_snapshot s anchor :
  verify_trigger_transfer_snapshot s anchor = Ok tt ->
  tx_audit_event_hash s = anchor /\ ae_sequence (tx_handoff_audit_event s) = tx_audit_sequence s /\
  ae_event_hash (tx_handoff_audit_event s) = anchor /\
  hash_event (tx_organization s) (tx_handoff_audit_event s) = Ok anchor /\
  (exists ledger, trigger_transfer_ledger_digest s = Ok ledger /\
     ae_payload (tx_handoff_audit_event s) = handoff_payload s ledger) /\
  compute_trigger_transfer_snapshot_digest s = Ok (tx_state_sha256 s).
Proof.
  unfold verify_trigger_transfer_snapshot, verify_anchor. rewrite !seq_ok, bind_ok.
  intros ((_ & Ha%check_ok & Hh%map_err_ok) & _ & _ & _ & _ & _ & ledger & Hl & Hs).
  rewrite seq_ok, bind_ok in Hs. destruct Hs as (He%check_ok & state & Hs & Hd%check_ok).
  apply verify_hash_ok in Hh. bool_prop. subst.
  repeat match goal with E : value_eqb _ _ = true |- _ => apply value_eqb_eq in E end.
  repeat split; try done; [congruence|by exists ledger].
Qed.

(** C11. The independently kept anchor identifies the transfer: two snapshots
    the verifier accepts against one anchor hash are the same snapshot, of the
    same organization, project, pipeline and trigger, with the same version
    lineage, deliveries, watermarks, receipts, hand-off event and state digest,
    or they exhibit a SHA-256 collision. *)
Theorem transfer_anchor_identifies s s' anchor :
  snapshot_typed s -> snapshot_typed s' ->
  verify_trigger_transfer_snapshot s anchor = Ok tt ->
  verify_trigger_transfer_snapshot s' anchor = Ok tt -> s = s' \/ sha256_collision.
Proof.
  intros [Ho He] [Ho' He'] (A1 & A2 & A3 & A4 & (l & A5 & A6) & A7)%verified_snapshot
    (B1 & B2 & B3 & B4 & (l' & B5 & B6) & B7)%verified_snapshot.
  destruct (hash_event_inj _ _ _ _ anchor Ho Ho' He He' A4 B4) as [[Eo Ee]|]; [congruence| |by right].
  assert (l = l') as <-.
  { assert (handoff_payload s l = handoff_payload s' l') as Ep by congruence.
    injection Ep; intros. by apply hex_encode_inj. }
  destruct (ledger_digest_inj _ _ _ A5 B5) as [El|]; [left|by right].
  apply snapshot_eq; [congruence..|].
  assert (snapshot_fields s = snapshot_fields s') as Ef by (unfold snapshot_fields; congruence).
  unfold compute_trigger_transfer_snapshot_digest in *. rewrite Ef in A7. congruence.
Qed.

End Anchor.
