(* ===== verification/AttemptMoves.v ===== *)
(** * Every operation moves attempts by the rules

    [perform_moves]: whatever an operation does to the attempts table, each row
    goes through a sequence of the moves of Lifecycle for causes the operation
    may have, and a new row starts queued, without owner, at fence zero. The
    statements the controller runs over a build ([control]) come first; a request
    of an agent then changes its own row for its own cause, and what follows it in
    the transaction finds that row settled ([moves_settled]). *)

From stdpp Require Import base gmap sets list strings pretty relations.
From Stdlib Require Import ZArith Lia.
From S2P Require Import Prelude Text Bytes Domain DagContract DagMatrix StoreTables DagRuntime.
From S2P Require Import WorkspaceStore Sequential.
From S2P Require Import Scheduler Attempts Lifecycle StoreFrames.

Open Scope Z_scope.

Lemma kept_moves P db db' : kept db db' -> moves P db db'.
Proof. intros H. apply moves_same, H. Qed.

(** The status of an attempt, case by case, against the guards in the context. *)
Ltac by_status a :=
  let E := fresh "Es" in
  destruct (a_status a) eqn:E; try discriminate; simpl in *; auto.

Ltac update_move :=
  apply moves_update_attempts; [by auto|];
  let i := fresh "i" in let a := fresh "a" in let Hi := fresh "Hi" in let HP := fresh "HP" in
  intros i a Hi HP; bool_prop; try subst.

(** A change for the cause [c], once the operation may have it. *)
Lemma by_cause c (P : Uuid -> cause -> Prop) i a a' : P i c -> move a a' c -> moved P i a a'.
Proof. intros. by exists c. Qed.

Ltac by_control := first [by apply control_lenient | by right; left | by right; right].

Section Moves.
Context `{PG : Postgres} `{DX : DagExternal} `{WT : WorkspaceTransfer}.

Lemma abort_moved i a a' :
  same_identity a a' -> one_status [AQueued; AOffered] (a_status a) = true ->
  a_status a' = AAborted -> a_fence a' = a_fence a -> a_owner a' = a_owner a -> moved control i a a'.
Proof. intros. apply (by_cause Withdrawing); [by_control | by apply move_withdraw]. Qed.

Lemma queued_unstarted s : s = AQueued -> one_status [AQueued; AOffered] s = true.
Proof. by intros ->. Qed.

Lemma stop_moved i a :
  one_status [AOffered; AAccepted; ARunning; AFinalizing] (a_status a) = true ->
  moved control i a (a <| a_status := ACancelling |>).
Proof. intros H. apply (by_cause Stopping); [by_control | by apply move_stop]. Qed.

Lemma moves_skip_pass now build db : moves control db (skip_pass now build db).2.
Proof.
  unfold skip_pass. simpl. eapply moves_trans; [apply moves_update_nodes; auto|].
  destruct (exists_row _ _); [|by apply moves_same].
  update_move. apply abort_moved; try done. by eapply queued_unstarted, bool_decide_eq_true.
Qed.

Lemma moves_ready_pass now build db : moves control db (ready_pass now build db).2.
Proof.
  unfold ready_pass. simpl. eapply moves_trans; [apply moves_update_nodes; auto|].
  destruct (exists_row _ _); [|by apply moves_same].
  eapply (moves_rows _ _ _ (fun _ => stamp_ready _ _)); [intros i; cbn; apply lookup_fmap|].
  intros i a Hi. apply (by_cause Quiet); [by_control|]. unfold stamp_ready.
  destruct (_ !! a_node a); [|apply move_refl]. destruct (_ && _); [by apply move_quiet | apply move_refl].
Qed.

Lemma moves_advance_loop fuel now build db db' :
  advance_loop fuel now build db = Ok db' -> moves control db db'.
Proof.
  revert db. induction fuel as [|fuel IH]; intros db H; cbn [advance_loop] in H; [done|].
  destruct (skip_pass now build db) as [sk d1] eqn:E1.
  destruct (ready_pass now build d1) as [re d2] eqn:E2.
  assert (moves control db d2).
  { eapply moves_trans; [|].
    - pose proof (moves_skip_pass now build db) as Hm. by rewrite E1 in Hm.
    - pose proof (moves_ready_pass now build d1) as Hm. by rewrite E2 in Hm. }
  destruct (negb sk && negb re); [by injection H as <-|].
  eapply moves_trans; [done | by apply IH].
Qed.

Lemma moves_mark_unstarted now build ex db :
  moves control db (mark_unstarted_skipped now build ex db).
Proof.
  unfold mark_unstarted_skipped. eapply moves_trans; [|apply moves_update_nodes; auto].
  update_move. apply abort_moved; try done. by eapply queued_unstarted, bool_decide_eq_true.
Qed.

Lemma moves_set_nodes P f db : moves P db (db <| nodes := f |>).
Proof. by apply moves_same. Qed.

Lemma moves_fence now build node db : moves control db (fence_unstarted_dag_work now build node db).
Proof.
  unfold fence_unstarted_dag_work.
  eapply moves_trans; [|update_move]. 2:{ apply stop_moved. by_status a. }
  eapply moves_trans; [|apply moves_set_nodes].
  eapply moves_trans; [|apply moves_update_nodes; auto].
  update_move. by apply abort_moved.
Qed.

Lemma moves_fail_fast now build node db : moves control db (fail_fast_peers now build node db).
Proof.
  unfold fail_fast_peers. eapply moves_trans; [|apply moves_mark_unstarted].
  eapply moves_trans; [|update_move; by apply stop_moved]. apply moves_set_nodes.
Qed.

Lemma moves_insert P id a db r db' :
  lenient P -> fresh a -> insert_attempt id a db = Ok (r, db') -> moves P db db'.
Proof.
  intros HP Hf H. unfold insert_attempt in H. inv_tx.
  intros i. cbn. destruct (decide (i = id)) as [->|Hne].
  - rewrite lookup_insert_eq.
    match goal with H : attempts db !! id = None |- _ => rewrite H end.
    eexists. split; [done|]. apply rtc_once, (by_cause Quiet); [apply HP|].
    destruct (_ && _); [by apply move_quiet|apply move_refl].
  - rewrite lookup_insert_ne by done. destruct (attempts db !! i); [apply rtc_refl|done].
Qed.

Lemma moves_retry_node P now node attempt retry ordinal db db' :
  lenient P -> retry_node now node attempt retry ordinal db = Ok db' -> moves P db db'.
Proof.
  unfold retry_node. intros HP H. inv_tx.
  eapply moves_trans; [eapply moves_insert; [done| |done]; done | by apply moves_update_nodes].
Qed.

(** What the controller does, the operations that steer other attempts may do. *)
Lemma control_may now op db db' :
  (forall i, steers op i) -> forall i c, control i c -> may now op db db' i c.
Proof. intros H i c [->|[->| ->]]; simpl; auto. Qed.

(** Peel the statements of a state off, last one first. *)
Ltac known_moves :=
  repeat match goal with
  | H : derive_build_outcome _ _ _ = Ok _ |- moves ?P _ _ =>
      apply derive_build_outcome_kept, (kept_moves P) in H
  | H : record_successful_agent _ _ _ _ = Ok _ |- moves ?P _ _ =>
      apply record_successful_agent_kept, (kept_moves P) in H
  | H : record_terminal_notifications _ _ _ _ = Ok _ |- moves ?P _ _ =>
      apply record_terminal_notifications_kept, (kept_moves P) in H
  | H : retry_node _ _ _ _ _ _ = Ok _ |- moves ?P _ _ => apply (moves_retry_node P) in H; [|by auto]
  | H : advance_loop _ _ _ _ = Ok _ |- _ => apply moves_advance_loop in H
  end.
Ltac chain_step :=
  match goal with
  | |- moves _ ?d ?d => by apply moves_same
  | H : moves ?P ?d ?x |- moves ?P _ ?x => eapply moves_trans; [|exact H]; clear H
  | |- moves _ _ (append_event_and_outbox _ _ _ ?d) => apply (moves_trans _ _ d); [|by apply moves_same]
  | |- moves _ _ (update_builds _ _ ?d) => apply (moves_trans _ _ d); [|by apply moves_same]
  | |- moves _ _ (update_effects _ _ ?d) => apply (moves_trans _ _ d); [|by apply moves_same]
  | |- moves _ _ (update_nodes _ _ _ ?d) =>
      apply (moves_trans _ _ d); [|by apply moves_update_nodes; auto]
  | |- moves control _ (fence_unstarted_dag_work _ _ _ ?d) =>
      apply (moves_trans _ _ d); [|by apply moves_fence]
  | |- moves control _ (fail_fast_peers _ _ _ ?d) =>
      apply (moves_trans _ _ d); [|by apply moves_fail_fast]
  | |- moves _ _ (set_node_status _ _ _ ?d) =>
      apply (moves_trans _ _ d); [|by apply moves_update_nodes; auto]
  | |- moves _ _ (update dead_letters _ ?d) => apply (moves_trans _ _ d); [|by apply moves_same]
  | |- moves _ _ (update builds _ ?d) => apply (moves_trans _ _ d); [|by apply moves_same]
  | |- moves _ _ (update nodes _ ?d) => apply (moves_trans _ _ d); [|by apply moves_same]
  | |- moves _ _ (update deps _ ?d) => apply (moves_trans _ _ d); [|by apply moves_same]
  | |- moves _ _ (if ?b then _ else _) => destruct b eqn:?
  end.
Ltac chain := known_moves; repeat chain_step.

Lemma moves_advance_dag now retry build node attempt outcome db r db' :
  advance_dag_after_attempt now retry build node attempt outcome db = Ok (r, db') ->
  moves control db db'.
Proof.
  unfold advance_dag_after_attempt, advance_blocked_nodes. intros H. inv_tx.
  all: chain.
Qed.

Lemma moves_advance_or_settle now retry build node attempt outcome db db' :
  advance_or_settle now retry build node attempt outcome db = Ok db' -> moves control db db'.
Proof.
  unfold advance_or_settle, settle_single, set_node_status. intros H. inv_tx. destruct a as [r d].
  apply moves_advance_dag in Hr. simpl. destruct r; chain.
Qed.

Lemma moves_set_attempt P attempt a f db :
  lenient P -> attempts db !! attempt = Some a -> moved P attempt a (f a) ->
  moves P db (set_attempt attempt f db).
Proof.
  intros HP Ha Hf. unfold set_attempt. update_move. unfold is_row in HP0. bool_prop. by simplify_eq.
Qed.

(** A settled row stays as it is. *)
Lemma terminal_still P i a a' :
  terminal_attempt (a_status a) = true -> rtc (moved P i) a a' ->
  rtc (moved (fun _ c => c = Quiet) i) a a' /\
  a_status a' = a_status a /\ a_fence a' = a_fence a /\ a_owner a' = a_owner a
  /\ a_epoch a' = a_epoch a /\ a_summary a' = a_summary a.
Proof.
  intros Ht H. induction H as [a|a1 a2 a3 (c & _ & H1) _ IH]; [done|].
  destruct H1 as [ Hid E1 E2 E3 E4 E5 | ? _ E1 | ? ? _ E1 | ? ? _ E1 | ? ? _ E1 | _ E1 | _ E1 | _ E1
                 | _ E1 | _ E1 ].
  - rewrite E1 in IH. destruct (IH Ht) as (H3 & ? & ? & ? & ? & ?). split_and!; try congruence.
    eapply rtc_l; [|done]. exists Quiet. split; [done | by apply move_quiet].
  - by rewrite E1 in Ht.
  - by destruct (a_status a1).
  - by destruct (a_status a1).
  - by destruct (a_status a1).
  - by destruct (a_status a1).
  - by destruct (a_status a1).
  - by destruct (a_status a1).
  - by destruct (a_status a1).
  - by rewrite E1 in Ht.
Qed.

(** What the controller does after an attempt has settled leaves its row alone,
    so it needs the permission to steer the other rows only. *)
Lemma moves_settled P attempt a1 d1 db db' :
  lenient P -> (forall i c, i <> attempt -> control i c -> P i c) ->
  attempts d1 !! attempt = Some a1 -> terminal_attempt (a_status a1) = true ->
  moves P db d1 -> moves control d1 db' -> moves P db db'.
Proof.
  intros HP Hc Ha Ht M1 M2. eapply moves_trans; [exact M1|]. intros i. specialize (M2 i).
  destruct (decide (i = attempt)) as [->|Hi].
  - rewrite Ha in *. destruct (attempts db' !! attempt) as [a'|]; [|done].
    apply terminal_still in M2 as [M2 _]; [|done]. eapply moved_mono; [|done].
    intros c ->. apply HP.
  - destruct (attempts d1 !! i), (attempts db' !! i); try done.
    + eapply moved_mono; [intros c; by apply Hc | done].
    + destruct M2 as (a0 & Hf & M2). exists a0. split; [done|].
      eapply moved_mono; [intros c; by apply Hc | done].
Qed.

Lemma moves_cancel_dag now build db r db' :
  cancel_dag_build now build db = Ok (r, db') -> moves control db db'.
Proof.
  unfold cancel_dag_build. intros H. inv_tx; chain.
  eapply moves_trans; [|update_move; by apply stop_moved].
  chain. eapply moves_trans; [|update_move].
  2:{ apply abort_moved; try done. by eapply queued_unstarted, bool_decide_eq_true. }
  chain.
Qed.

Lemma moves_fail_orphan now db row db' : fail_orphan now db row = Ok db' -> moves control db db'.
Proof.
  unfold fail_orphan. destruct row as [build agent]. intros H. chain.
  update_move. by apply abort_moved.
Qed.

Lemma moves_try_fold {A} P (f : Db -> A -> result StoreError Db) l db db' :
  (forall d x d', f d x = Ok d' -> moves P d d') -> try_fold f db l = Ok db' -> moves P db db'.
Proof.
  intros Hf. revert db. induction l as [|x l IH]; intros db H; simpl in H; inv_tx;
    [by apply moves_same|].
  eapply moves_trans; [by eapply Hf | by apply IH].
Qed.

Lemma moves_offer P now req build node attempt a db r db' :
  lenient P -> P attempt (Offering (agent_id req)) ->
  attempts db !! attempt = Some a -> a_status a = AQueued ->
  offer now req build node attempt a db = Ok (r, db') -> moves P db db'.
Proof.
  intros HP Hq Ha Hs. unfold offer. intros H. inv_tx. chain.
  bool_prop. eapply moves_set_attempt; [done|done|]. eapply by_cause; [done | by apply move_offer].
Qed.

(** The candidate of a claim is a queued attempt. *)
Lemma first_row_elem {A} (lt : A -> A -> bool) l x : first_row lt l = Some x -> x ∈ l.
Proof.
  induction l as [|y l IH]; simpl; [done|].
  destruct (first_row lt l) as [z|]; [destruct (lt z y)|]; intros; simplify_eq;
    first [by left | right; by apply IH].
Qed.

Lemma first_row_none {A} (lt : A -> A -> bool) l : first_row lt l = None -> l = [].
Proof. destruct l as [|x l]; [done|]. simpl. destruct (first_row lt l); [by destruct (lt _ _)|done]. Qed.

Lemma candidate_row locked req db node n attempt :
  candidate locked req db = Some (node, n, attempt) ->
  exists a b, attempts db !! attempt = Some a /\ a_node a = node /\ nodes db !! node = Some n
    /\ builds db !! n_build n = Some b /\ a_status a = AQueued
    /\ claimable db req node n b = true.
Proof.
  intros H%first_row_elem. unfold claim_rows in H.
  apply list_elem_of_omap in H as ([i a] & Hin%elem_of_map_to_list & H). inv_tx. bool_prop.
  eexists a, _. split_and!; eauto. by eapply bool_decide_eq_true.
Qed.

Lemma moves_claim now locked req session db r db' :
  claim_next_with_session now locked req session db = Ok (r, db') ->
  moves (may now (Claim locked req session) db db') db db'.
Proof.
  unfold claim_next_with_session. intros H. inv_tx; chain.
  all: destruct (candidate_row _ _ _ _ _ _ Hm) as (a' & b & Ha & _ & _ & _ & Hs & _).
  all: simplify_eq; eapply moves_trans; [|eapply moves_offer; [auto|..]; done].
  - eapply moves_mono; [by apply control_may|].
    unfold fail_orphaned_affinity_builds in Hr0. eapply moves_try_fold; [|done].
    intros d x d'. apply moves_fail_orphan.
  - by apply moves_same.
Qed.

Lemma attempt_rows_lookup db attempt a n b :
  attempt_rows db attempt = Some (a, n, b) ->
  attempts db !! attempt = Some a /\ nodes db !! a_node a = Some n
  /\ builds db !! n_build n = Some b.
Proof. unfold attempt_rows. intros H. inv_tx. done. Qed.

Lemma exact_authority_true agent fence epoch a :
  exact_authority agent fence epoch a = true <->
  a_fence a = fence /\ a_epoch a = epoch /\ a_owner a = Some agent.
Proof.
  unfold exact_authority, owned_by. rewrite !andb_true_iff, !Z.eqb_eq.
  destruct (a_owner a) as [o|]; [|naive_solver]. rewrite String.eqb_eq. naive_solver.
Qed.

Lemma current_authority_true db agent fence epoch a :
  current_authority db agent fence epoch a = true ->
  a_owner a = Some agent /\ a_fence a = fence /\ a_epoch a = epoch /\ restore_epoch db = epoch.
Proof.
  unfold current_authority. rewrite andb_true_iff, exact_authority_true, Z.eqb_eq.
  intros [(? & ? & ?) ?]. split_and!; congruence.
Qed.

(** The owner and the fence behind an authority in the context. *)
Ltac authority :=
  match goal with H : current_authority _ _ _ _ _ = true |- _ =>
    let Eo := fresh "Eo" in let Ef := fresh "Ef" in let Ee := fresh "Ee" in let Er := fresh "Er" in
    destruct (current_authority_true _ _ _ _ _ H) as (Eo & Ef & Ee & Er) end.

(** An agent's own change of the row its request names. *)
Ltac by_request c := eapply moves_set_attempt; [by auto | done |]; apply (by_cause c);
  [try done | constructor; try done].

Lemma moves_accept now attempt fence epoch agent session db r db' :
  accept_offer_with_session now attempt fence epoch agent session db = Ok (r, db') ->
  moves (may now (Accept attempt fence epoch agent session) db db') db db'.
Proof.
  unfold accept_offer_with_session. intros H. inv_tx; chain.
  apply attempt_rows_lookup in Hm as (Ha & _ & _). bool_prop. authority.
  by_request (Working agent fence).
  match goal with H : bool_decide (a_status _ = AOffered) = true |- _ =>
    by rewrite (bool_decide_eq_true_1 _ H) end.
Qed.

Lemma moves_rejection P attempt fence agent cause db :
  moves P db (record_lease_renewal_rejection attempt fence agent cause db).
Proof. apply moves_same. unfold record_lease_renewal_rejection. by repeat case_match. Qed.

Lemma moves_renew now attempt fence epoch agent session lease db r db' :
  renew_attempt_lease_with_session now attempt fence epoch agent session lease db = Ok (r, db') ->
  moves (may now (Renew attempt fence epoch agent session lease) db db') db db'.
Proof.
  unfold renew_attempt_lease_with_session. intros H. inv_tx; chain; try apply moves_rejection.
  all: try (unfold set_attempt; update_move; apply (by_cause Quiet); [done | by apply move_quiet]).
Qed.

Lemma expired_leased now locked db i a :
  (i, a) ∈ expired_rows now locked db ->
  attempts db !! i = Some a /\ leased_attempt (a_status a) = true /\ lease_expired now a = true.
Proof.
  unfold expired_rows. intros [Hin HP]%list_elem_of_In%List.filter_In.
  apply list_elem_of_In, elem_of_map_to_list in Hin. bool_prop. done.
Qed.

Lemma moves_release P now build node attempt a req u c db :
  lenient P -> P attempt Lapsing ->
  attempts db !! attempt = Some a -> leased_attempt (a_status a) = true ->
  moves P db (release_expired now build node attempt a req u c db).
Proof.
  intros HP Hp Ha Hl. unfold release_expired. chain.
  all: by_request Lapsing; destruct req; simpl; auto.
Qed.

Lemma moves_abort_expired P now retry build node attempt a enabled db r db' :
  lenient P -> (forall i c, control i c -> P i c) -> P attempt Lapsing ->
  attempts db !! attempt = Some a -> leased_attempt (a_status a) = true ->
  abort_expired now retry build node attempt a enabled db = Ok (r, db') -> moves P db db'.
Proof.
  intros HP Hc Hp Ha Hl. unfold abort_expired. intros H. inv_tx. chain.
  eapply moves_trans; [|eapply moves_mono; [exact Hc | by eapply moves_advance_or_settle]].
  by_request Lapsing. simpl; auto.
Qed.

Lemma moves_expire now locked retry db r db' :
  requeue_one_expired now locked retry db = Ok (r, db') ->
  moves (may now (Expire locked retry) db db') db db'.
Proof.
  unfold requeue_one_expired. intros H. inv_tx; chain.
  all: apply first_row_elem, expired_leased in Hm as (Ha & Hl & Hx).
  all: apply attempt_rows_lookup in Hm0 as (Ha' & _ & _); simplify_eq.
  - eapply moves_trans; [|eapply moves_abort_expired; [auto|by apply control_may| | | |done]; try done].
    + chain.
    + by eexists.
  - eapply moves_trans; [|apply moves_release; [auto| |done|done]].
    + chain.
    + by eexists.
Qed.

Lemma lookup_set_attempt attempt f db a :
  attempts db !! attempt = Some a -> attempts (set_attempt attempt f db) !! attempt = Some (f a).
Proof.
  intros Ha. unfold set_attempt. rewrite lookup_attempts_update_attempts, Ha. simpl.
  unfold is_row. by rewrite String.eqb_refl.
Qed.

(** An agent whose request cannot end its attempt leaves it for reconciliation. *)
Lemma moves_park P now build node attempt a agent fence keep db :
  lenient P -> P attempt (Parking agent fence) ->
  attempts db !! attempt = Some a -> working (a_status a) = true ->
  a_owner a = Some agent -> a_fence a = fence -> moves P db (park now build node attempt keep db).
Proof.
  intros HP Hp Ha Hl Ho Hf. unfold park. chain. by_request (Parking agent fence).
Qed.

Lemma park_parked now build node attempt a keep db :
  attempts db !! attempt = Some a -> parked (park now build node attempt keep db) attempt.
Proof.
  intros Ha. unfold parked, park, set_node_status.
  change (attempts (update_builds ?W ?f ?d)) with (attempts d).
  rewrite lookup_attempts_update_nodes, (lookup_set_attempt _ _ _ _ Ha). simpl. by eexists.
Qed.

Lemma moves_run now attempt fence epoch agent session db r db' :
  mark_attempt_running_with_session now attempt fence epoch agent session db = Ok (r, db') ->
  moves (may now (Run attempt fence epoch agent session) db db') db db'.
Proof.
  unfold mark_attempt_running_with_session. intros H. inv_tx; chain. bool_prop. authority.
  by_request (Working agent fence).
  match goal with H : one_status _ (a_status ?x) = true |- _ => by_status x end.
Qed.

Lemma working_leased s : working s = true -> leased_attempt s = true.
Proof. by destruct s. Qed.

(** The row a publication writes. *)
Definition published_row (now : Z) (outcome : TerminalOutcome) (summary : Value) (a : Attempt) :
    Attempt :=
  a <| a_status := outcome_attempt outcome |> <| a_summary := Some summary |>
    <| a_completed_at := Some now |> <| a_expires := None |>.

Lemma published_terminal now outcome summary a :
  terminal_attempt (a_status (published_row now outcome summary a)) = true.
Proof. by destruct outcome. Qed.

Lemma moves_after_publish now retry build node attempt agent outcome summary db db' :
  publish now retry build node attempt agent outcome summary db = Ok db' ->
  moves control (set_attempt attempt (published_row now outcome summary) db) db'.
Proof.
  unfold publish. intros H. inv_tx; chain.
  all: eapply moves_trans; [|by eapply moves_advance_or_settle]; chain; by apply moves_same.
Qed.

(** The rows other than the one a request names. *)
Lemma control_others now op db db' attempt :
  (forall i, i <> attempt -> steers op i) ->
  forall i c, i <> attempt -> control i c -> may now op db db' i c.
Proof. intros H i c Hi [->|[->| ->]]; simpl; auto. Qed.

Lemma moves_publish P now retry build node attempt a agent fence outcome summary db db' :
  lenient P -> (forall i c, i <> attempt -> control i c -> P i c) ->
  P attempt (Publishing agent fence) ->
  attempts db !! attempt = Some a -> working (a_status a) = true ->
  a_owner a = Some agent -> a_fence a = fence ->
  publish now retry build node attempt agent outcome summary db = Ok db' -> moves P db db'.
Proof.
  intros HP Hc Hp Ha Hl Ho Hf H%moves_after_publish.
  eapply (moves_settled _ attempt); [done|done|by apply lookup_set_attempt|apply published_terminal| |done].
  by_request (Publishing agent fence). apply published_terminal.
Qed.

Lemma moves_finalize now retry attempt fence epoch agent session outcome summary aware db r db' :
  finalize_attempt_with_session now retry attempt fence epoch agent session outcome summary aware db
    = Ok (r, db') ->
  moves (may now (Finalize retry attempt fence epoch agent session outcome summary aware) db db')
    db db'.
Proof.
  unfold finalize_attempt_with_session. intros H. inv_tx; chain.
  all: bool_prop; match goal with H : attempt_rows _ _ = _ |- _ =>
    apply attempt_rows_lookup in H as (Ha' & _ & _) end; simplify_eq; authority.
  - eapply moves_park; try done. split_and!; [done|done|by eapply park_parked].
  - match goal with H : publish _ _ _ _ _ _ _ _ ?d = Ok _ |- _ =>
      apply (moves_trans _ _ d); [by apply moves_same | eapply moves_publish; [..|exact H]; try done] end.
    apply control_others. simpl. congruence.
Qed.

Lemma moves_recover now attempt fence epoch agent session phase lease db r db' :
  recover_agent_finalization_with_session now attempt fence epoch agent session phase lease db
    = Ok (r, db') ->
  moves (may now (Recover attempt fence epoch agent session phase lease) db db') db db'.
Proof.
  unfold recover_agent_finalization_with_session. intros H. inv_tx; chain.
  all: bool_prop; authority; by_request (Working agent fence); by_status a.
Qed.

Lemma moves_discharge P attempt fence agent reason db :
  moves P db (record_recovered_discharge attempt fence agent reason db).
Proof. apply moves_same. unfold record_recovered_discharge. by repeat case_match. Qed.

(** The statuses left once a cancellation is neither settled nor parked. *)
Lemma cancellation_leased db agent fence epoch session a n :
  cancellation_authority db agent fence epoch session a n = true ->
  a_status a <> AAborted -> a_status a <> AReconciliation ->
  working (a_status a) = true /\ current_authority db agent fence epoch a = true.
Proof. unfold cancellation_authority. intros H ? ?. bool_prop. split; [|done]. by_status a; congruence. Qed.

Lemma moves_complete now retry attempt fence epoch agent session outcome db r db' :
  complete_agent_cancellation now retry attempt fence epoch agent session outcome db = Ok (r, db') ->
  moves (may now (CompleteCancellation retry attempt fence epoch agent session outcome) db db') db db'.
Proof.
  unfold complete_agent_cancellation. intros H. inv_tx; chain; try apply moves_discharge.
  all: bool_prop; match goal with H : attempt_rows _ _ = _ |- _ =>
    apply attempt_rows_lookup in H as (Ha & _ & _) end.
  all: match goal with H : cancellation_authority _ _ _ _ _ _ _ = true |- _ =>
    apply cancellation_leased in H as [Hw Hx]; [|by eapply bool_decide_eq_false..] end; authority.
  - eapply moves_park; try done. split_and!; [done|done|by eapply park_parked].
  - match goal with H : advance_or_settle _ _ _ _ _ _ ?d = Ok _ |- _ =>
      apply moves_advance_or_settle in H; eapply (moves_settled _ attempt _ d);
      [by auto| |by apply lookup_set_attempt|done| |exact H] end.
    + apply control_others. simpl. congruence.
    + by_request (Publishing agent fence).
Qed.

Lemma moves_cancel now project build actor db r db' :
  request_cancellation_decision_as now project build actor db = Ok (r, db') ->
  moves (may now (Cancel project build actor) db db') db db'.
Proof.
  intros H. eapply moves_mono; [by apply control_may|]. revert H.
  unfold request_cancellation_decision_as. intros H. inv_tx; chain.
  all: try (by eapply moves_cancel_dag).
  - eapply moves_trans; [|update_move].
    2:{ apply abort_moved; try done. by eapply queued_unstarted, bool_decide_eq_true. }
    chain.
  - eapply moves_trans; [|update_move; by apply stop_moved]. chain.
Qed.

Lemma moves_reconcile now retry attempt fence actor outcome summary db r db' :
  finalize_reconciled_attempt now retry attempt fence actor outcome summary db = Ok (r, db') ->
  moves (may now (Reconcile retry attempt fence actor outcome summary) db db') db db'.
Proof.
  unfold finalize_reconciled_attempt. intros H. inv_tx; chain.
  all: eapply moves_trans;
    [|eapply moves_mono; [by apply control_may | by eapply moves_advance_or_settle]]; chain.
  all: match goal with H : negb (reconcilable _ _ _ _ _) = false |- _ =>
    unfold reconcilable in H; bool_prop end.
  all: by_request Deciding; [by eapply bool_decide_eq_true | by destruct outcome].
Qed.

Lemma moves_terminalize P now attempt node build reason db db' :
  lenient P -> P attempt Deciding ->
  terminalize_dead_lettered_reconciliation now attempt node build reason db = Ok db' -> moves P db db'.
Proof.
  unfold terminalize_dead_lettered_reconciliation. intros HP Hp H. inv_tx; chain.
  all: bool_prop; by_request Deciding; by eapply bool_decide_eq_true.
Qed.

Lemma moves_dead_letter P now attempt node build ordinal most reason db db' :
  lenient P -> P attempt Deciding ->
  dead_letter now attempt node build ordinal most reason db = Ok db' -> moves P db db'.
Proof.
  unfold dead_letter. intros HP Hp H. inv_tx.
  all: match goal with H : terminalize_dead_lettered_reconciliation _ _ _ _ _ _ = Ok _ |- _ =>
    apply (moves_terminalize P) in H; [|done..] end; chain;
    destruct (dead_letters db !! attempt); chain.
Qed.

Lemma moves_retry_dag P now child ids build node attempt ordinal most db db' :
  lenient P ->
  retry_dag_node now child ids build node attempt ordinal most db = Ok db' -> moves P db db'.
Proof.
  unfold retry_dag_node. intros HP H. inv_tx.
  eapply moves_trans; [eapply moves_insert; [done| |done]; done|].
  eapply moves_trans; [by apply moves_update_nodes|].
  eapply moves_try_fold; [|done]. intros d' [k [p a]] d'' Hd. unfold reopen_skipped in Hd. inv_tx.
  destruct a0 as [? ?]. eapply moves_trans; [eapply moves_insert; [done| |done]; done|].
  by apply moves_update_nodes.
Qed.

Lemma moves_retry_single P now child node attempt ordinal db db' :
  lenient P -> retry_single now child node attempt ordinal db = Ok db' -> moves P db db'.
Proof.
  unfold retry_single. intros HP H. inv_tx. destruct a as [? ?]. chain.
  eapply moves_insert; [done| |done]. done.
Qed.

Lemma moves_retry now child ids attempt most reason actor db r db' :
  schedule_retry_as now child ids attempt most reason actor db = Ok (r, db') ->
  moves (may now (Retry child ids attempt most reason actor) db db') db db'.
Proof.
  unfold schedule_retry_as. intros H. inv_tx; chain.
  - eapply moves_terminalize; [auto|done..].
  - eapply moves_dead_letter; [auto|done..].
  - eapply moves_retry_dag; [auto|done].
  - eapply moves_retry_single; [auto|done].
Qed.

Lemma moves_set_leased P attempt f db :
  lenient P -> (forall a, attempts db !! attempt = Some a -> moved P attempt a (f a)) ->
  moves P db (set_attempt attempt f db).
Proof.
  intros HP Hf. unfold set_attempt. update_move. unfold is_row in HP0. bool_prop. subst. by apply Hf.
Qed.

(** The affected attempts that the loop has still to visit stay leased. *)
Definition leased_row (db : Db) (i : Uuid) : Prop :=
  forall a, attempts db !! i = Some a -> leased_attempt (a_status a) = true.

(** The permission to restore is one for every row. *)
Definition restoring (_ : Uuid) (c : cause) : Prop := c = Quiet \/ c = Restoring.

Lemma restoring_lenient : lenient restoring.
Proof. intros i. by left. Qed.
#[local] Hint Resolve restoring_lenient : core.

Lemma moves_restore_attempt now epoch backup lsn db row :
  leased_row db row.1 -> moves restoring db (restore_attempt now epoch backup lsn db row).
Proof.
  intros H. unfold restore_attempt. destruct row as [i a]. destruct (nodes db !! a_node a); chain.
  unfold park. chain. apply moves_set_leased; [auto|]. intros a' Ha.
  apply (by_cause Restoring); [by right|]. by apply move_restore; [|apply H|..].
Qed.

Lemma restore_attempt_row now epoch backup lsn db row j :
  j <> row.1 -> exists g, attempts (restore_attempt now epoch backup lsn db row) !! j
    = (fun a => readied (g a) a) <$> attempts db !! j.
Proof.
  intros Hj. destruct row as [i a]. simpl in Hj. unfold restore_attempt.
  destruct (nodes db !! a_node a) as [n|].
  - eexists. etrans; [apply lookup_attempts_update_nodes|]. unfold set_attempt.
    rewrite lookup_attempts_update_attempts. unfold is_row.
    rewrite (proj2 (String.eqb_neq j i) Hj). by destruct (attempts db !! j).
  - exists a_ready_at. by destruct (attempts db !! j) as [[]|].
Qed.

Lemma restore_attempt_other now epoch backup lsn db row j :
  j <> row.1 -> leased_row db j -> leased_row (restore_attempt now epoch backup lsn db row) j.
Proof.
  intros Hj Hl a Ha. destruct (restore_attempt_row now epoch backup lsn db row j Hj) as [g Hg].
  rewrite Hg in Ha. destruct (attempts db !! j) as [o|] eqn:Ho; simplify_eq/=. by apply (Hl o).
Qed.

Lemma moves_restore_all now epoch backup lsn l db :
  NoDup l.*1 -> (forall x, x ∈ l -> leased_row db x.1) ->
  moves restoring db (foldl (restore_attempt now epoch backup lsn) db l).
Proof.
  revert db. induction l as [|x l IH]; intros db Hnd Hl; simpl; [by apply moves_same|].
  apply NoDup_cons in Hnd as [Hx Hnd].
  eapply moves_trans; [apply moves_restore_attempt, Hl; by left|].
  apply IH; [done|]. intros y Hy. apply restore_attempt_other; [|apply Hl; by right].
  intros E. apply Hx. rewrite <- E. by apply list_elem_of_fmap_2.
Qed.

(** The rows of [SELECT ... WHERE P ORDER BY lt]. *)
Lemma sorted_rows_nodup {A} lt (P : Uuid * A -> bool) (t : gmap Uuid A) :
  NoDup (sort_by lt (List.filter P (map_to_list t))).*1.
Proof.
  rewrite sort_by_perm. eapply sublist_NoDup; [apply (NoDup_fst_map_to_list t)|].
  apply fmap_sublist. induction (map_to_list t) as [|x l IH]; simpl; [done|].
  by destruct (P x); constructor.
Qed.

Lemma sorted_rows_elem {A} lt (P : Uuid * A -> bool) (t : gmap Uuid A) i x :
  (i, x) ∈ sort_by lt (List.filter P (map_to_list t)) -> t !! i = Some x /\ P (i, x) = true.
Proof.
  intros Hx. eapply elem_of_Permutation_proper in Hx; [|symmetry; apply sort_by_perm].
  apply list_elem_of_In, List.filter_In in Hx as [Hin HP]. split; [|done].
  by apply list_elem_of_In, elem_of_map_to_list in Hin.
Qed.

Lemma moves_restore now others backup reason db r db' :
  activate_restore_epoch now others backup reason db = Ok (r, db') ->
  moves (may now (Restore others backup reason) db db') db db'.
Proof.
  unfold activate_restore_epoch. intros H. inv_tx; chain.
  apply (moves_mono restoring); [by intros i c [->| ->]|].
  eapply moves_trans; [|apply moves_restore_all].
  - by apply moves_same.
  - apply sorted_rows_nodup.
  - intros [i a] [Ha HP]%sorted_rows_elem a' Ha'. cbn in Ha'. simplify_eq.
    apply andb_true_iff in HP as [HP _]. exact HP.
Qed.

Lemma moves_admit_node P now build m db e m' db' :
  lenient P -> admit_node now build (m, db) e = Ok (m', db') -> moves P db db'.
Proof.
  unfold admit_node. destruct e as [node [ni ai]]. intros HP H. inv_tx. destruct a0 as [r d]. simpl.
  eapply moves_trans; [|eapply moves_insert; [done| |done]; done]. chain.
Qed.

Lemma moves_admit_nodes P now build l m db m' db' :
  lenient P -> try_fold (admit_node now build) (m, db) l = Ok (m', db') -> moves P db db'.
Proof.
  intros HP. revert m db. induction l as [|e l IH]; intros m db H; cbn [try_fold] in H; inv_tx;
    [by apply moves_same|].
  destruct a as [m1 d1]. eapply moves_trans; [by eapply moves_admit_node | by eapply IH].
Qed.

Lemma moves_admit_dag P now build ids input contract sequential db r db' :
  lenient P ->
  admit_dag_contract_transaction now build ids input contract sequential db = Ok (r, db') ->
  moves P db db'.
Proof.
  unfold admit_dag_contract_transaction. intros HP H. inv_tx; chain.
  eapply moves_trans; [|by eapply moves_admit_nodes]. chain.
Qed.

Lemma moves_admit_sequential P now build ids namespace input db r db' :
  lenient P -> admit_sequential_dag now build ids namespace input db = Ok (r, db') -> moves P db db'.
Proof.
  intros HP (d & Ha & K)%admit_sequential_kept.
  eapply moves_trans; [by eapply moves_admit_dag|]. apply moves_same, K.
Qed.

Lemma moves_admit_build P now build node attempt input db r db' :
  lenient P -> admit_build now build node attempt input db = Ok (r, db') -> moves P db db'.
Proof.
  unfold admit_build. intros HP H. inv_tx; chain.
  match goal with H : insert_attempt _ _ _ = Ok ?r |- _ => destruct r as [? ?] end.
  eapply moves_trans; [|eapply moves_insert; [done| |done]; done]. chain.
Qed.

Theorem perform_moves now op db db' : perform now op db = Some db' -> moves (may now op db db') db db'.
Proof.
  destruct op; simpl; unfold committed; intros H; inv_tx.
  - eapply moves_admit_dag; [auto|done].
  - eapply moves_admit_sequential; [auto|done].
  - eapply moves_admit_build; [auto|done].
  - by eapply moves_claim.
  - by eapply moves_accept.
  - by eapply moves_renew.
  - by eapply moves_expire.
  - by eapply moves_run.
  - by eapply moves_finalize.
  - by eapply moves_recover.
  - by eapply moves_complete.
  - by eapply moves_cancel.
  - by eapply moves_reconcile.
  - by eapply moves_retry.
  - by eapply moves_restore.
Qed.

Lemma step_moves allowed db db' : step allowed db db' -> moves any_cause db db'.
Proof.
  destruct 1 as [now op db db' _ H|db db' H]; [by eapply moves_any, perform_moves | apply moves_same, H].
Qed.

End Moves.
