(* ===== verification/LeaseRefinement.v ===== *)
(** * The store refines the lease protocol

    [formal/tla/AttemptLease.tla] specifies the life of one attempt: offers,
    acceptance, publication, fencing and requeueing, with an epoch that advances
    on every offer and on every fence. [AttemptLease] is that specification, with
    its actions as labels; the main theorem shows that every transaction of the
    store, seen at any one attempt, is a sequence of the actions the transaction is
    [entitled] to: an agent's request gives [Accept] and [Publish] with the agent
    and the epoch it names, an offer goes to the agent that claims, and a lease is
    fenced by its lapse, by a restore, by its owner or before anyone accepted it.
    The store counts offers only and keeps the fence when a lease lapses: fence
    [f] is epoch [2 f - 1] while the offer stands and [2 f] once it is withdrawn.
    The bound [MaxEpoch] of the specification is twice the largest fence. The
    specification has no cancellation: an attempt the controller stops is where
    it was, offered or running, until its agent settles it. Attempts the
    controller or an operator closes never reach the specification's terminal
    phase, which only the lease owner does. *)

From stdpp Require Import base gmap sets list strings pretty relations.
From Stdlib Require Import ZArith Lia.
From S2P Require Import Prelude Text Bytes Domain DagContract StoreTables DagRuntime Scheduler.
From S2P Require Import WorkspaceStore Sequential.
From S2P Require Import Attempts Lifecycle StoreFrames AttemptMoves.

Open Scope Z_scope.

(** ** The specification *)

Module AttemptLease.

Inductive Phase : Type := Ready | Offered | Running | Reconciliation | Terminal.

(** [NoAgent] is [None], [NoLease] is [(None, 0)]. *)
Definition Lease : Type := option string * Z.
Definition NoLease : Lease := (None, 0).

Record State := MkState {
  phase : Phase;
  leaseAgent : option string;
  leaseEpoch : Z;
  acceptedLease : Lease;
  completion : Lease;
  lastRejected : Lease;
  terminalSeen : bool
}.

Definition MaxEpoch : Z := 2 * i64_max.

Definition Init : State := MkState Ready None 0 NoLease NoLease NoLease false.

Inductive Action : Type :=
| Offer (agent : string)
| Accept (agent : string) (epoch : Z)
| Publish (agent : string) (epoch : Z)
| Fence
| Requeue.

(** [Publish] is the accepted and the rejected disjunct of the specification. *)
Inductive Step (s : State) : Action -> State -> Prop :=
| step_offer agent :
    phase s = Ready \/ phase s = Reconciliation -> leaseEpoch s < MaxEpoch ->
    Step s (Offer agent)
      (MkState Offered (Some agent) (leaseEpoch s + 1) NoLease (completion s)
         (lastRejected s) (terminalSeen s))
| step_accept agent epoch :
    phase s = Offered -> Some agent = leaseAgent s -> epoch = leaseEpoch s ->
    Step s (Accept agent epoch)
      (MkState Running (leaseAgent s) (leaseEpoch s) (Some agent, epoch) (completion s)
         (lastRejected s) (terminalSeen s))
| step_publish agent epoch :
    phase s = Running -> (Some agent, epoch) = acceptedLease s ->
    acceptedLease s = (leaseAgent s, leaseEpoch s) ->
    Step s (Publish agent epoch)
      (MkState Terminal (leaseAgent s) (leaseEpoch s) (acceptedLease s) (Some agent, epoch)
         (lastRejected s) true)
| step_publish_rejected agent epoch :
    ~ (phase s = Running /\ (Some agent, epoch) = acceptedLease s) ->
    Step s (Publish agent epoch)
      (MkState (phase s) (leaseAgent s) (leaseEpoch s) (acceptedLease s) (completion s)
         (Some agent, epoch) (terminalSeen s))
| step_fence :
    phase s = Offered \/ phase s = Running -> leaseEpoch s < MaxEpoch ->
    Step s Fence
      (MkState Reconciliation None (leaseEpoch s + 1) NoLease (completion s) (lastRejected s)
         (terminalSeen s))
| step_requeue :
    phase s = Reconciliation ->
    Step s Requeue
      (MkState Ready (leaseAgent s) (leaseEpoch s) (acceptedLease s) (completion s)
         (lastRejected s) (terminalSeen s)).

Definition Next (s s' : State) : Prop := exists act, Step s act s'.

(** The invariants of the specification. *)
Definition LeaseShape (s : State) : Prop :=
  (phase s = Ready \/ phase s = Reconciliation -> leaseAgent s = None) /\
  (phase s = Offered \/ phase s = Running \/ phase s = Terminal -> is_Some (leaseAgent s)).

Definition RunningLeaseIsCurrent (s : State) : Prop :=
  phase s = Running -> acceptedLease s = (leaseAgent s, leaseEpoch s).

Definition CompletionHasAuthority (s : State) : Prop :=
  completion s <> NoLease ->
  phase s = Terminal /\ terminalSeen s = true /\ completion s = acceptedLease s
  /\ completion s = (leaseAgent s, leaseEpoch s).

Definition TerminalIsConsistent (s : State) : Prop :=
  terminalSeen s = true <-> phase s = Terminal.

End AttemptLease.

Import AttemptLease.

(** ** The refinement relation *)

Definition published (owner : option string) (f : Z) (s : State) : Prop :=
  phase s = Terminal /\ leaseAgent s = owner /\ leaseEpoch s = 2 * f - 1
  /\ acceptedLease s = (owner, 2 * f - 1) /\ completion s = (owner, 2 * f - 1)
  /\ terminalSeen s = true.

Definition withdrawn (f : Z) (s : State) : Prop :=
  leaseAgent s = None /\ leaseEpoch s = 2 * f /\ completion s = NoLease /\ terminalSeen s = false.

Definition held (owner : option string) (f : Z) (s : State) : Prop :=
  leaseAgent s = owner /\ is_Some owner /\ leaseEpoch s = 2 * f - 1 /\ f <= i64_max
  /\ completion s = NoLease /\ terminalSeen s = false.

(** The states of the specification an attempt row may be in. *)
Definition running (owner : option string) (f : Z) (s : State) : Prop :=
  phase s = Running /\ held owner f s /\ acceptedLease s = (owner, 2 * f - 1).

Definition refines (a : Attempt) (s : State) : Prop :=
  match a_status a with
  | AQueued => phase s = Ready /\ withdrawn (a_fence a) s
  | AOffered => phase s = Offered /\ held (a_owner a) (a_fence a) s
  | AAccepted | ARunning | AFinalizing => running (a_owner a) (a_fence a) s
  | ACancelling =>
      phase s = Offered /\ held (a_owner a) (a_fence a) s \/ running (a_owner a) (a_fence a) s
  | AReconciliation => phase s = Reconciliation /\ withdrawn (a_fence a) s
  | ASucceeded | AFailed | AAborted =>
      published (a_owner a) (a_fence a) s
      \/ ((phase s = Ready \/ phase s = Reconciliation) /\ withdrawn (a_fence a) s)
  end.

Definition refines_at (db : Db) (i : Uuid) (s : State) : Prop :=
  match attempts db !! i with Some a => refines a s | None => s = Init end.

(** ** Simulation *)

Lemma refines_still a a' s :
  a_status a' = a_status a -> a_fence a' = a_fence a -> a_owner a' = a_owner a ->
  refines a s -> refines a' s.
Proof. intros E1 E2 E3. unfold refines. by rewrite E1, E2, E3. Qed.

Lemma max_epoch f : f <= i64_max -> 2 * f - 1 < MaxEpoch.
Proof. unfold MaxEpoch. lia. Qed.

(** The actions an operation that takes [db] to [db'] is entitled to at the
    attempt [i], in the state [s] of the specification. *)
Definition entitled (now : Z) (op : operation) (db db' : Db) (i : Uuid) (s : State) (act : Action) :
    Prop :=
  match act with
  | Offer agent => match op with Claim _ req _ => agent_id req = agent | _ => False end
  | Accept agent epoch => exists fence, requested op i agent fence /\ epoch = 2 * fence - 1
  | Publish agent epoch =>
      settles op = true /\ exists fence, requested op i agent fence /\ epoch = 2 * fence - 1
  | Fence =>
      phase s = Offered /\ steers op i \/ lapses now op db i \/ restores op = true
      \/ settles op = true /\ parked db' i
         /\ exists agent fence, requested op i agent fence
            /\ leaseAgent s = Some agent /\ leaseEpoch s = 2 * fence - 1
  | Requeue => lapses now op db i
  end.

(** A step of the specification by an action of which [P] holds. *)
Definition taken (P : State -> Action -> Prop) (s s' : State) : Prop :=
  exists act, P s act /\ Step s act s'.

Lemma taken_next P s s' : rtc (taken P) s s' -> rtc Next s s'.
Proof. induction 1 as [|? ? ? (act & _ & H)]; [done|]. eapply rtc_l; [by exists act | done]. Qed.

(** A leased row is offered or running. *)
Lemma leased_phase a s :
  leased_attempt (a_status a) = true -> refines a s ->
  phase s = Offered /\ held (a_owner a) (a_fence a) s \/ running (a_owner a) (a_fence a) s.
Proof. unfold refines. intros Hl HR. destruct (a_status a); try discriminate; naive_solver. Qed.

(** Its owner can accept the offer, and publish. *)
Lemma accept_steps P a s agent :
  leased_attempt (a_status a) = true -> refines a s -> a_owner a = Some agent ->
  (forall s, P s (Accept agent (2 * a_fence a - 1))) ->
  exists s', rtc (taken P) s s' /\ running (a_owner a) (a_fence a) s'.
Proof.
  intros Hl HR Ho HP.
  destruct (leased_phase a s Hl HR) as [(Hp & Hag & Hs & He & Hm & Hc & Ht)|Hr];
    [|exists s; split; [apply rtc_refl | done]].
  eexists. split; [apply rtc_once; eexists; split; [apply HP|apply step_accept; congruence]|].
  unfold running, held. simpl. rewrite Hag, He, Ho. split_and!; done.
Qed.

Lemma publish_steps P a s agent :
  leased_attempt (a_status a) = true -> refines a s -> a_owner a = Some agent ->
  (forall s, P s (Accept agent (2 * a_fence a - 1))) ->
  (forall s, P s (Publish agent (2 * a_fence a - 1))) ->
  exists s', rtc (taken P) s s' /\ published (a_owner a) (a_fence a) s'.
Proof.
  intros Hl HR Ho H1 H2.
  destruct (accept_steps P a s agent Hl HR Ho H1) as (s1 & Hs & Hp & (Hag & _ & He & _) & Ha).
  eexists. split; [eapply rtc_r; [done|]; eexists; split; [apply H2|apply step_publish]|].
  - done.
  - by rewrite Ha, Ho.
  - by rewrite Ha, Hag, He.
  - unfold published. simpl. rewrite Hag, He, Ha, Ho. done.
Qed.

(** A fence that the state of the specification admits. *)
Lemma fence_steps (P : State -> Action -> Prop) a s :
  leased_attempt (a_status a) = true -> refines a s -> P s Fence ->
  exists s', rtc (taken P) s s' /\ phase s' = Reconciliation /\ withdrawn (a_fence a) s'.
Proof.
  intros Hl HR HP.
  assert ((phase s = Offered \/ phase s = Running) /\ held (a_owner a) (a_fence a) s)
    as [Hp (Ho & _ & He & Hm & Hc & Ht)].
  { destruct (leased_phase a s Hl HR) as [[? ?]|(? & ? & _)]; auto. }
  eexists. split; [apply rtc_once; eexists; split; [done|apply step_fence]; [done|]|].
  - rewrite He. by apply max_epoch.
  - simpl. unfold withdrawn. simpl. split_and!; try done. lia.
Qed.

Lemma refines_closed a s :
  terminal_attempt (a_status a) = true -> phase s = Ready \/ phase s = Reconciliation ->
  withdrawn (a_fence a) s -> refines a s.
Proof. unfold refines. intros Ht Hp Hw. destruct (a_status a); try discriminate; auto. Qed.

(** ** Simulation, cause by cause *)

Section Causes.
Context `{PG : Postgres} `{DX : DagExternal} `{WT : WorkspaceTransfer}.
Context (now : Z) (op : operation) (db db' : Db) (i : Uuid).

#[local] Notation act := (taken (entitled now op db db' i)).
#[local] Notation allowed := (may now op db db' i).

Lemma offer_simulated a a' s agent :
  allowed (Offering agent) -> a_status a = AQueued -> a_status a' = AOffered ->
  a_fence a' = a_fence a + 1 -> a_fence a' <= i64_max -> a_owner a' = Some agent ->
  refines a s -> exists s', rtc act s s' /\ refines a' s'.
Proof.
  intros HP E1 E2 Ef Hm Ho. unfold refines. rewrite E1, E2, Ef. intros (Hp & Ha & He & Hc & Ht).
  eexists. split; [apply rtc_once; exists (Offer agent); split; [done|]|].
  - apply step_offer; [by left | unfold MaxEpoch; lia].
  - simpl. unfold held. simpl. rewrite Ho. split_and!; eauto; lia.
Qed.

Lemma work_simulated a a' s agent fence :
  allowed (Working agent fence) -> leased_attempt (a_status a) = true ->
  a_owner a = Some agent -> a_fence a = fence -> working (a_status a') = true ->
  a_fence a' = a_fence a -> a_owner a' = a_owner a -> refines a s ->
  exists s', rtc act s s' /\ refines a' s'.
Proof.
  intros HP Hl Ho Hf Hw Ef Eo HR.
  destruct (accept_steps (entitled now op db db' i) a s agent Hl HR Ho) as (s' & Hs & Hr).
  { intros s0. exists fence. by rewrite Hf. }
  exists s'. split; [done|]. unfold refines. rewrite Ef, Eo.
  destruct (a_status a'); try discriminate; auto.
Qed.

Lemma publish_simulated a a' s agent fence :
  allowed (Publishing agent fence) -> working (a_status a) = true ->
  a_owner a = Some agent -> a_fence a = fence -> terminal_attempt (a_status a') = true ->
  a_fence a' = a_fence a -> a_owner a' = a_owner a -> refines a s ->
  exists s', rtc act s s' /\ refines a' s'.
Proof.
  intros [Hst HP] Hl Ho Hf Ht Ef Eo HR.
  destruct (publish_steps (entitled now op db db' i) a s agent) as (s' & Hs & Hr); try done.
  - by apply working_leased.
  - intros s0. exists fence. by rewrite Hf.
  - intros s0. split; [done|]. exists fence. by rewrite Hf.
  - exists s'. split; [done|]. unfold refines. rewrite Ef, Eo. destruct (a_status a'); by auto.
Qed.

(** A lease that is fenced leaves the row queued, parked or closed. *)
Lemma release_simulated a a' s :
  leased_attempt (a_status a) = true -> entitled now op db db' i s Fence ->
  a_status a' = AQueued /\ lapses now op db i \/ a_status a' = AReconciliation
  \/ terminal_attempt (a_status a') = true ->
  a_fence a' = a_fence a -> refines a s -> exists s', rtc act s s' /\ refines a' s'.
Proof.
  intros Hl HP Hs Ef HR.
  destruct (fence_steps (entitled now op db db' i) a s Hl HR HP) as (s1 & Hs1 & Hp & Hw).
  rewrite <- Ef in Hw. destruct Hs as [[Eq Hx]|[Er|Ht]].
  - eexists. split; [eapply rtc_r; [done|]; exists Requeue; split; [done | by apply step_requeue]|].
    unfold refines. rewrite Eq. done.
  - exists s1. split; [done|]. unfold refines. by rewrite Er.
  - exists s1. split; [done|]. apply refines_closed; auto.
Qed.

Lemma stop_simulated a a' s :
  one_status [AOffered; AAccepted; ARunning; AFinalizing] (a_status a) = true ->
  a_status a' = ACancelling -> a_fence a' = a_fence a -> a_owner a' = a_owner a ->
  refines a s -> refines a' s.
Proof.
  intros H E Ef Eo HR. unfold refines. rewrite E, Ef, Eo.
  apply (leased_phase a s); [by destruct (a_status a) | done].
Qed.

Lemma withdraw_simulated a a' s :
  allowed Withdrawing -> one_status [AQueued; AOffered] (a_status a) = true ->
  a_status a' = AAborted -> a_fence a' = a_fence a -> refines a s ->
  exists s', rtc act s s' /\ refines a' s'.
Proof.
  intros HP H E Ef HR. destruct (a_status a) eqn:Es; try discriminate.
  - exists s. split; [apply rtc_refl|]. unfold refines in HR. rewrite Es in HR.
    apply refines_closed; [by rewrite E | by left; apply HR | rewrite Ef; apply HR].
  - apply (release_simulated a); [by rewrite Es| |right; right; by rewrite E|done|done].
    left. split; [|exact HP]. unfold refines in HR. rewrite Es in HR. apply HR.
Qed.

Lemma move_simulated a a' c s :
  allowed c -> move a a' c -> refines a s -> exists s', rtc act s s' /\ refines a' s'.
Proof.
  intros HP H HR.
  destruct H as [ _ E1 E2 E3 _ _ | agent _ E1 E2 Ef Hm Ho | agent f _ Hl Ho Hf Hw Ef Eo
                | agent f _ Hw Ho Hf Ht Ef Eo | agent f _ Hw Ho Hf E Ef | _ H E Ef Eo | _ H E Ef _
                | _ Hl H Ef | _ Hl E Ef | _ E Ht Ef _ ].
  - exists s. split; [apply rtc_refl | by eapply refines_still].
  - by apply (offer_simulated a a' s agent).
  - by apply (work_simulated a a' s agent f).
  - by apply (publish_simulated a a' s agent f).
  - apply working_leased in Hw. apply (release_simulated a); auto.
    right. right. right. destruct HP as (? & Hq & ?). split_and!; [done|done|].
    exists agent, f. split; [done|].
    destruct (leased_phase a s Hw HR) as [(_ & -> & _ & -> & _)|(_ & (-> & _ & -> & _) & _)]; by rewrite Hf.
  - exists s. split; [apply rtc_refl | by eapply stop_simulated].
  - by apply (withdraw_simulated a).
  - apply (release_simulated a); auto; [right; by left|].
    destruct H as [[? _]|[?|E]]; auto. right. right. by rewrite E.
  - apply (release_simulated a); auto. right. right. by left.
  - exists s. split; [apply rtc_refl|]. unfold refines in HR. rewrite E in HR.
    apply refines_closed; [done | by right; apply HR | rewrite Ef; apply HR].
Qed.

Lemma moves_simulated a a' s :
  rtc (moved (may now op db db') i) a a' -> refines a s -> exists s', rtc act s s' /\ refines a' s'.
Proof.
  intros H. revert s. induction H as [a|a1 a2 a3 (c & HP & H1) _ IH]; intros s HR.
  - exists s. split; [apply rtc_refl | done].
  - destruct (move_simulated _ _ _ _ HP H1 HR) as (s1 & Hs1 & HR1).
    destruct (IH _ HR1) as (s2 & Hs2 & HR2). exists s2. split; [by etrans | done].
Qed.

(** One committed transaction. *)
Lemma perform_simulated s :
  perform now op db = Some db' -> refines_at db i s -> exists s', rtc act s s' /\ refines_at db' i s'.
Proof.
  intros Hp HR. pose proof (perform_moves _ _ _ _ Hp i) as Hm. unfold refines_at in *.
  destruct (attempts db !! i) as [a|], (attempts db' !! i) as [a'|]; try done.
  - by eapply moves_simulated.
  - destruct Hm as (a0 & (E1 & E2 & E3) & Hm). eapply moves_simulated; [done|].
    unfold refines, withdrawn. rewrite E1, E2, HR. done.
  - exists s. split; [apply rtc_refl | done].
Qed.

End Causes.

(** ** Histories *)

Section Histories.
Context `{PG : Postgres} `{DX : DagExternal} `{WT : WorkspaceTransfer}.

Lemma step_simulated allowed db db' i s :
  step allowed db db' -> refines_at db i s -> exists s', rtc Next s s' /\ refines_at db' i s'.
Proof.
  intros [now op d d' _ Hp|d d' (_ & _ & E & _)] HR.
  - destruct (perform_simulated now op d d' i s Hp HR) as (s' & Hs & HR').
    exists s'. split; [by eapply taken_next | done].
  - exists s. split; [apply rtc_refl|]. unfold refines_at in *. by rewrite E.
Qed.

Lemma history_simulated allowed db db' i s :
  rtc (step allowed) db db' -> refines_at db i s ->
  exists s', rtc Next s s' /\ refines_at db' i s'.
Proof.
  intros H. revert s. induction H as [db|d1 d2 d3 H1 _ IH]; intros s HR.
  - exists s. split; [apply rtc_refl | done].
  - destruct (step_simulated _ _ _ _ _ H1 HR) as (s1 & Hs1 & HR1).
    destruct (IH _ HR1) as (s2 & Hs2 & HR2). exists s2. split; [by etrans | done].
Qed.

Lemma history_moves allowed db db' : rtc (step allowed) db db' -> moves any_cause db db'.
Proof.
  induction 1 as [|d1 d2 d3 H1 _ IH]; [by apply moves_same|].
  eapply moves_trans; [by eapply step_moves | done].
Qed.

(** A terminal row is never written again. *)
Lemma history_terminal allowed db db' i a :
  rtc (step allowed) db db' -> attempts db !! i = Some a -> terminal_attempt (a_status a) = true ->
  exists a', attempts db' !! i = Some a' /\ a_status a' = a_status a /\ a_fence a' = a_fence a
    /\ a_owner a' = a_owner a /\ a_epoch a' = a_epoch a /\ a_summary a' = a_summary a.
Proof.
  intros H%history_moves Ha Ht. specialize (H i). rewrite Ha in H.
  destruct (attempts db' !! i) as [a'|]; [|done]. exists a'. split; [done|]. by apply (terminal_still _ _ _ _ Ht) in H as [_ H].
Qed.

(** What the row of a published attempt holds. *)
Definition publication (agent : string) (fence epoch : Z) (o : TerminalOutcome) (stored : Value)
    (a : Attempt) : Prop :=
  a_status a = outcome_attempt o /\ a_summary a = Some stored /\ a_owner a = Some agent
  /\ a_fence a = fence /\ a_epoch a = epoch.

(** A publication moves the row of its lease owner to the outcome. *)
Lemma finalize_publishes now retry attempt fence epoch agent session outcome summary aware db o db' a :
  finalize_attempt_with_session now retry attempt fence epoch agent session outcome summary aware db
    = Ok (Some o, db') ->
  attempts db !! attempt = Some a -> terminal_attempt (a_status a) = false ->
  exists stored normalized transferred,
    normalize summary = Ok (normalized, transferred)
    /\ (stored = normalized /\ o = outcome
        \/ aware = true /\ o = OAborted /\ stored = substituted_summary outcome normalized)
    /\ leased_attempt (a_status a) = true
    /\ a_fence a = fence /\ a_epoch a = epoch /\ a_owner a = Some agent
    /\ exists a1 a', publication agent fence epoch o stored a1
        /\ attempts db' !! attempt = Some a' /\ rtc (moved control attempt) a1 a'.
Proof.
  intros H Ha Ht. unfold finalize_attempt_with_session in H. inv_tx; [congruence|].
  apply attempt_rows_lookup in Hm0 as (Ha' & _ & _). bool_prop.
  match goal with H : current_authority _ _ _ _ _ = true |- _ =>
    apply andb_true_iff in H as [(Ef & Ee & Eo)%exact_authority_true _] end.
  set (substitute := aware && _) in *.
  exists (if substitute then substituted_summary outcome v else v), v, o0.
  split; [done|]. split; [|split; [by apply working_leased|split_and!; [done..|]]].
  { destruct substitute eqn:Es; [right|by left]. unfold substitute in Es. by bool_prop. }
  match goal with H : publish _ _ _ _ _ _ _ _ _ = Ok _ |- _ => apply moves_after_publish in H;
    rename H into Hm' end.
  specialize (Hm' attempt). unfold set_attempt in Hm'.
  rewrite lookup_attempts_update_attempts in Hm'.
  change (attempts (db <| builds := _ |>)) with (attempts db) in Hm'. rewrite Hm in Hm'.
  simpl in Hm'. unfold is_row in Hm'. rewrite String.eqb_refl in Hm'.
  destruct (attempts a3 !! attempt) as [a'|] eqn:Ea'; [|done].
  eexists _, a'. split; [|split; [exact Ea' | exact Hm']]. done.
Qed.

(** ** Replies to a repeated publication *)

Lemma replayed_same a outcome summary aware :
  a_status a = outcome_attempt outcome -> a_summary a = Some summary ->
  replayed_publication a outcome summary aware = Some outcome.
Proof.
  intros Es Ea. unfold replayed_publication. rewrite Es, Ea.
  destruct (aware && _ && _) eqn:E; bool_prop; [by destruct outcome|].
  rewrite bool_decide_true by done. simpl. by rewrite value_eqb_refl.
Qed.

Lemma replayed_substitution a outcome summary :
  a_status a = AAborted -> a_summary a = Some (substituted_summary outcome summary) ->
  replayed_publication a outcome summary true = Some OAborted.
Proof.
  intros Es Ea. unfold replayed_publication. rewrite Es, Ea. simpl.
  unfold is_substitution, field. simpl. by rewrite String.eqb_refl, value_eqb_refl.
Qed.

(** The row a publication leaves, which answers the same request again. *)
Lemma finalize_leaves now retry attempt fence epoch agent session outcome summary aware db o db' :
  finalize_attempt_with_session now retry attempt fence epoch agent session outcome summary aware db
    = Ok (Some o, db') ->
  exists normalized transferred a',
    normalize summary = Ok (normalized, transferred) /\ attempts db' !! attempt = Some a'
    /\ terminal_attempt (a_status a') = true /\ exact_authority agent fence epoch a' = true
    /\ replayed_publication a' outcome normalized aware = Some o.
Proof.
  intros H. destruct (attempts db !! attempt) as [a|] eqn:Ha;
    [|unfold finalize_attempt_with_session in H; rewrite Ha in H; inv_tx].
  destruct (terminal_attempt (a_status a)) eqn:Ht.
  - unfold finalize_attempt_with_session in H. rewrite Ha, Ht in H. inv_tx.
    apply negb_false_iff, andb_true_iff in Hb0 as [Hx _]. by eexists _, _, a.
  - destruct (finalize_publishes _ _ _ _ _ _ _ _ _ _ _ _ _ _ H Ha Ht) as
      (stored & v & t & Hn & Hcase & _ & _ & _ & _ & a1 & a' & (E1 & E2 & E3 & E4 & E5) & Ha' & Hm).
    assert (Ht1 : terminal_attempt (a_status a1) = true) by (rewrite E1; by destruct o).
    destruct (terminal_still _ _ _ _ Ht1 Hm) as (_ & F1 & F2 & F3 & F4 & F5).
    exists v, t, a'. split_and!; [done|done|congruence| |].
    + apply exact_authority_true. split_and!; congruence.
    + destruct Hcase as [[-> ->]|(-> & -> & ->)]; [apply replayed_same | apply replayed_substitution];
        simpl in *; congruence.
Qed.

End Histories.

(** ** The invariants of the specification *)

Definition lease_invariants (s : State) : Prop :=
  LeaseShape s /\ RunningLeaseIsCurrent s /\ CompletionHasAuthority s /\ TerminalIsConsistent s.

Lemma next_invariants s s' : lease_invariants s -> Next s s' -> lease_invariants s'.
Proof.
  unfold lease_invariants, LeaseShape, RunningLeaseIsCurrent, CompletionHasAuthority,
    TerminalIsConsistent.
  intros ([H1 H1'] & H2 & H3 & H4) [act Hn].
  destruct s as [ph la le acc comp rej seen], Hn; simpl in *; destruct ph; try (by intuition discriminate);
    split_and!; intros; try split; try (intuition congruence); eauto.
Qed.

Lemma reachable_invariants s : rtc Next Init s -> lease_invariants s.
Proof.
  apply (rtc_ind_r lease_invariants Init).
  - unfold lease_invariants, LeaseShape, RunningLeaseIsCurrent, CompletionHasAuthority,
      TerminalIsConsistent. simpl. naive_solver.
  - intros s1 s2 _ Hn IH. by eapply next_invariants.
Qed.

(** ** The theorems *)

Section Theorems.
Context `{PG : Postgres} `{DX : DagExternal} `{WT : WorkspaceTransfer}.

Lemma reachable_refines db i :
  reachable any_operation db -> exists s, rtc Next Init s /\ refines_at db i s.
Proof.
  intros (start & (_ & _ & Ha & _) & H). eapply history_simulated; [done|].
  unfold refines_at. by rewrite Ha.
Qed.

Lemma rejection_attempts attempt fence agent why db :
  attempts (record_lease_renewal_rejection attempt fence agent why db) = attempts db.
Proof. unfold record_lease_renewal_rejection. by repeat case_match. Qed.

Lemma discharge_attempts attempt fence agent reason db :
  attempts (record_recovered_discharge attempt fence agent reason db) = attempts db.
Proof. unfold record_recovered_discharge. by repeat case_match. Qed.

(** The agent owns the row under the fence, in the current restore epoch. *)
Definition lease_owner (db : Db) (i : Uuid) (agent : string) (fence epoch : Z) : Prop :=
  exists a, attempts db !! i = Some a /\ a_owner a = Some agent /\ a_fence a = fence
    /\ a_epoch a = epoch /\ restore_epoch db = epoch.

Lemma authorized_row db agent fence epoch i a :
  attempts db !! i = Some a -> current_authority db agent fence epoch a = true ->
  lease_owner db i agent fence epoch.
Proof. intros Ha H%current_authority_true. by exists a. Qed.

(** A path that leaves the table alone, or that has checked the authority. *)
Ltac authorized_path :=
  bool_prop; try rewrite rejection_attempts in *; try rewrite discharge_attempts in *;
  try match goal with H : attempt_rows _ _ = _ |- _ => apply attempt_rows_lookup in H as (? & _ & _) end;
  try match goal with H : cancellation_authority _ _ _ _ _ _ _ = true |- _ =>
    unfold cancellation_authority in H; bool_prop end;
  first [ done | congruence
        | match goal with H : current_authority _ _ _ _ ?a = true |- _ =>
            by apply (authorized_row _ _ _ _ _ a) end ].

(** An agent's request that changes the row it names holds the row's lease, in
    the restore epoch the store is in. *)
Lemma request_authorized now op db db' i agent fence epoch :
  perform now op db = Some db' -> request op = Some (i, agent, fence, epoch) ->
  attempts db' !! i <> attempts db !! i ->
  lease_owner db i agent fence epoch.
Proof.
  intros Hp Hq Hne.
  destruct op; simpl in Hq; simplify_eq; simpl in Hp; unfold committed in Hp; inv_tx;
    match goal with H : ?t = Ok (_, db') |- _ => rename H into Hop end.
  - unfold accept_offer_with_session in Hop. inv_tx; authorized_path.
  - unfold renew_attempt_lease_with_session in Hop. inv_tx; authorized_path.
  - unfold mark_attempt_running_with_session in Hop. inv_tx; authorized_path.
  - unfold finalize_attempt_with_session in Hop. inv_tx; authorized_path.
  - unfold recover_agent_finalization_with_session in Hop. inv_tx; authorized_path.
  - unfold complete_agent_cancellation in Hop. inv_tx; authorized_path.
Qed.

(** C1. [store_refines_attempt_lease]. The attempts table implements
    [AttemptLease.tla]. Whatever transactions have committed, every attempt is in
    a state the specification reaches, where its invariants hold. From any state
    the attempt may be in, one more committed transaction is a sequence of actions
    the transaction is entitled to, up to a state of the changed row: an offer goes
    to the claiming agent; [Accept] and [Publish] are by the agent and the epoch of
    the request and on the attempt it names, and only the requests that end an
    attempt publish; a lease is fenced when the sweep finds it lapsed, by a
    restore, by its owner when the attempt is left for reconciliation, or before
    anyone accepted it. A request that changes the row it names is by the row's
    owner, under its fence and the current restore epoch. *)
Theorem store_refines_attempt_lease now op db db' i :
  reachable any_operation db -> perform now op db = Some db' ->
  (exists s, rtc Next Init s /\ refines_at db i s /\ lease_invariants s)
  /\ (forall s, refines_at db i s ->
       exists s', rtc (taken (entitled now op db db' i)) s s' /\ refines_at db' i s')
  /\ (forall agent fence epoch, request op = Some (i, agent, fence, epoch) ->
       attempts db' !! i <> attempts db !! i -> lease_owner db i agent fence epoch).
Proof.
  intros Hr Hp. split_and!.
  - destruct (reachable_refines db i Hr) as (s & Hs & HR). eauto using reachable_invariants.
  - intros s. by apply perform_simulated.
  - intros agent fence epoch. by apply (request_authorized now op).
Qed.

(** C5. [publication_has_authority]. A publication the store accepts for an open
    attempt is the specification's [Publish] by the agent and the epoch of the
    fence the caller named: they hold the accepted lease, and the row carries the
    published outcome from then on, whatever commits later. *)
Theorem publication_has_authority now retry attempt fence epoch agent session outcome summary aware
    db o db1 db2 a :
  reachable any_operation db ->
  finalize_attempt_with_session now retry attempt fence epoch agent session outcome summary aware db
    = Ok (Some o, db1) ->
  attempts db !! attempt = Some a -> terminal_attempt (a_status a) = false ->
  rtc (step any_operation) db1 db2 ->
  exists s s' a2,
    rtc Next Init s /\ refines_at db attempt s /\ completion s = NoLease
    /\ rtc Next s s' /\ refines_at db1 attempt s' /\ refines_at db2 attempt s'
    /\ completion s' = (Some agent, 2 * fence - 1) /\ completion s' = acceptedLease s'
    /\ attempts db2 !! attempt = Some a2 /\ a_status a2 = outcome_attempt o.
Proof.
  intros Hr H Ha Ht H2. destruct (reachable_refines db attempt Hr) as (s & Hs & HR).
  pose proof HR as HR0. unfold refines_at in HR. rewrite Ha in HR.
  destruct (finalize_publishes _ _ _ _ _ _ _ _ _ _ _ _ _ _ H Ha Ht) as
    (st & v & t & _ & _ & Hl & E1 & E2 & E3 & a1 & a' & (F1 & _ & F3 & F4 & F5) & Ha' & Hm).
  assert (Ht1 : terminal_attempt (a_status a1) = true) by (rewrite F1; by destruct o).
  destruct (terminal_still _ _ _ _ Ht1 Hm) as (_ & G1 & G2 & G3 & _ & _).
  destruct (history_terminal _ _ _ _ _ H2 Ha') as (a2 & Ha2 & K1 & K2 & K3 & _); [congruence|].
  destruct (publish_steps (fun _ _ => True) a s agent Hl HR E3) as (s' & Hs'%taken_next & Hp); [done..|].
  pose proof Hp as (_ & _ & _ & P4 & P5 & _).
  assert (HR1 : refines a1 s').
  { unfold refines. rewrite F1, F3, F4. rewrite E1, E3 in Hp. destruct o; by left. }
  exists s, s', a2. split_and!; try done; try congruence.
  - unfold refines, running, held in HR. destruct (a_status a); try discriminate; naive_solver.
  - unfold refines_at. rewrite Ha'. by apply (refines_still a1).
  - unfold refines_at. rewrite Ha2. apply (refines_still a1); congruence.
Qed.

(** C36. [finalize_is_idempotent]. A publication that is sent again gets the same
    answer and writes nothing, whatever committed in between, while the session
    and the restore epoch are still the caller's: an agent that lost the reply
    may resend it, also when cancellation had substituted the outcome. *)
Theorem finalize_is_idempotent now now' retry retry' attempt fence epoch agent session outcome summary
    aware db o db1 db2 :
  finalize_attempt_with_session now retry attempt fence epoch agent session outcome summary aware db
    = Ok (Some o, db1) ->
  rtc (step any_operation) db1 db2 -> in_session db2 agent session = Ok true ->
  restore_epoch db2 = epoch ->
  finalize_attempt_with_session now' retry' attempt fence epoch agent session outcome summary aware db2
    = Ok (Some o, db2).
Proof.
  intros H H2 Hsess Hep.
  destruct (finalize_leaves _ _ _ _ _ _ _ _ _ _ _ _ _ H) as (v & t & a1 & Hn & Ha1 & Ht & Hx & Hrep).
  destruct (history_terminal _ _ _ _ _ H2 Ha1 Ht) as (a2 & Ha2 & E1 & E2 & E3 & E4 & E5).
  apply exact_authority_true in Hx as (F1 & F2 & F3).
  unfold finalize_attempt_with_session. rewrite Hn. simpl. rewrite Hsess. simpl. rewrite Ha2.
  assert (current_authority db2 agent fence epoch a2 = true) as ->.
  { unfold current_authority. apply andb_true_iff. rewrite exact_authority_true, Z.eqb_eq.
    split_and!; congruence. }
  simpl. rewrite E1, Ht. unfold replayed_publication in *. by rewrite E1, E5, Hrep.
Qed.

End Theorems.
