(* ===== verification/History.v ===== *)
(** * Nodes and their newest attempts

    What every transaction keeps true between a node and its attempts. The
    attempts of a node are numbered without gaps, and only the newest one can be
    queued or leased; its status and the status of the node agree ([agree]). A
    transaction is a sequence of [tick]s, statements that belong together: each
    node goes through one [turn], and no attempt wakes up. The other two changes
    are a new attempt of a node whose newest one is closed, and new nodes with
    their first attempts. *)

From stdpp Require Import base gmap sets list strings pretty relations.
From Stdlib Require Import ZArith Lia.
From S2P Require Import Prelude Text Bytes Domain DagContract StoreTables DagRuntime Scheduler.
From S2P Require Import WorkspaceStore Sequential.
From S2P Require Import Attempts Lifecycle StoreFrames.

Open Scope Z_scope.

(** ** Nodes and attempts that agree *)

Definition live (s : AttemptStatus) : bool :=
  match s with AQueued => true | _ => leased_attempt s end.

(** Cancellation was requested of the node or of its build. *)
Definition flagged (n : Node) (b : Build) : bool :=
  negb (absent (n_cancelled_at n)) || negb (absent (b_cancelled_at b)).

(** A node of status [s], without an outcome iff [open], against the status of
    its newest attempt. A cancelled node may be aborted before its agent has
    acknowledged the cancellation. *)
Definition agree (s : NodeStatus) (open flag : bool) (a : AttemptStatus) : bool :=
  match a with
  | AQueued => match s with NBlocked | NQueued => open | _ => false end
  | AOffered => match s with NOffered => open | _ => false end
  | AAccepted | ARunning => match s with NRunning => open | _ => false end
  | AFinalizing | ACancelling =>
      match s with
      | NRunning => open
      | NOffered => open && flag
      | NAborted => flag
      | _ => false
      end
  | AReconciliation => match s with NReconciliation => open || flag | _ => false end
  | ASucceeded | AFailed | AAborted =>
      match s with
      | NSucceeded | NFailed | NAborted | NSkipped => true
      | NReconciliation => negb open && flag
      | _ => false
      end
  end.

Definition agrees (n : Node) (b : Build) (a : Attempt) : Prop :=
  agree (n_status n) (absent (n_outcome n)) (flagged n b) (a_status a) = true.

(** Attempt [i] of node [k] has the largest ordinal. *)
Definition newest (db : Db) (k i : Uuid) (a : Attempt) : Prop :=
  attempts db !! i = Some a /\ a_node a = k
  /\ forall j o, attempts db !! j = Some o -> a_node o = k -> a_ordinal o <= a_ordinal a.

Record history (db : Db) : Prop := {
  history_node i a : attempts db !! i = Some a -> is_Some (nodes db !! a_node a);
  history_build k n : nodes db !! k = Some n -> is_Some (builds db !! n_build n);
  history_unique i j a o : attempts db !! i = Some a -> attempts db !! j = Some o ->
    a_node a = a_node o -> a_ordinal a = a_ordinal o -> i = j;
  history_order i a : attempts db !! i = Some a ->
    1 <= a_ordinal a
    /\ (1 < a_ordinal a -> exists j o,
          attempts db !! j = Some o /\ a_node o = a_node a /\ a_ordinal o = a_ordinal a - 1
          /\ a_retry_of a = Some j);
  history_live i a : attempts db !! i = Some a -> live (a_status a) = true ->
    newest db (a_node a) i a;
  history_agrees k n : nodes db !! k = Some n ->
    exists b i a, builds db !! n_build n = Some b /\ newest db k i a /\ agrees n b a;
  history_deps d : d ∈ deps db -> exists n b,
    nodes db !! d_child d = Some n /\ builds db !! n_build n = Some b /\ b_dag_mode b = true;
  history_single k n b : nodes db !! k = Some n -> builds db !! n_build n = Some b ->
    n_status n = NBlocked -> b_dag_mode b = true
}.

(** ** Turns *)

(** A node that may run now or that an agent still holds. *)
Definition active (s : NodeStatus) (a : AttemptStatus) : bool :=
  match s with NQueued | NOffered | NRunning | NReconciliation => true | _ => leased_attempt a end.

Definition is_blocked (s : NodeStatus) : bool := match s with NBlocked => true | _ => false end.

(** What may happen to a node and its newest attempt at once: they agree
    afterwards, success is final, a node becomes active only when its
    dependencies are met, and returns to blocked only when they are not. *)
Definition turn (rdy : bool) (s s' : NodeStatus) (open' flag' : bool) (a a' : AttemptStatus) : bool :=
  agree s' open' flag' a'
  && match s with NSucceeded => match s' with NSucceeded => true | _ => false end | _ => true end
  && implb (active s' a') (active s a || (is_blocked s && rdy))
  && implb (is_blocked s') (is_blocked s || (active s a && negb rdy)).

(** The columns of a node that stay. *)
Definition same_node (n n' : Node) : Prop :=
  n_build n' = n_build n /\ n_kind n' = n_kind n.

(** One change of a build row: a request to cancel stays. *)
Definition same_request (b b' : Build) : Prop :=
  b_dag_mode b' = b_dag_mode b
  /\ (absent (b_cancelled_at b) = false -> absent (b_cancelled_at b') = false).

(** The builds in which nodes may settle, and those in which they may be given
    an outcome. *)
Record scope := Scope { settles : Uuid -> Prop; decides : Uuid -> Prop }.
Definition nowhere : scope := Scope (fun _ => False) (fun _ => False).
Definition within (build : Uuid) : scope := Scope (eq build) (eq build).
Definition alone (build : Uuid) : scope := Scope (eq build) (fun _ => False).

Definition scoped (D : scope) (n n' : Node) : Prop :=
  (settled_node (n_status n) = false -> settled_node (n_status n') = true -> settles D (n_build n))
  /\ (n_outcome n' = n_outcome n \/ n_outcome n' = None \/ decides D (n_build n)).

Record tick (D : scope) (db db' : Db) : Prop := {
  tick_deps : deps db' = deps db;
  tick_build k : option_Forall2 same_request (builds db !! k) (builds db' !! k);
  tick_node k : option_Forall2 same_node (nodes db !! k) (nodes db' !! k);
  tick_attempt i : option_Forall2 (fun a a' => same_identity a a'
    /\ (live (a_status a') = true -> live (a_status a) = true)) (attempts db !! i) (attempts db' !! i);
  tick_turn k n n' b b' i a a' :
    nodes db !! k = Some n -> nodes db' !! k = Some n' ->
    builds db !! n_build n = Some b -> builds db' !! n_build n = Some b' ->
    newest db k i a -> attempts db' !! i = Some a' -> agrees n b a ->
    turn (ready db k) (n_status n) (n_status n') (absent (n_outcome n')) (flagged n' b')
      (a_status a) (a_status a') = true
    /\ scoped D n n'
}.

#[export] Instance same_request_preorder : PreOrder same_request.
Proof. split; [by repeat split|]. intros ??? [] []. split; [congruence | auto]. Qed.
#[export] Instance same_node_preorder : PreOrder same_node.
Proof. split; [by repeat split|]. intros ??? [] []. split; congruence. Qed.

Lemma scoped_same D n n' :
  n_status n' = n_status n -> n_outcome n' = n_outcome n -> scoped D n n'.
Proof. intros Es Eo. split; [congruence | by left]. Qed.

Lemma live_leased s : leased_attempt s = true -> live s = true.
Proof. by destruct s. Qed.

Lemma agree_flag s open flag flag' a :
  (flag = true -> flag' = true) -> agree s open flag a = true -> agree s open flag' a = true.
Proof. intros H. destruct flag; [rewrite H by done; done|]. destruct s, open, flag', a; done. Qed.

Lemma same_request_flag n b b' :
  same_request b b' -> flagged n b = true -> flagged n b' = true.
Proof.
  unfold flagged. intros Hreq [?|?]%orb_true_iff; apply orb_true_iff; [by left|right].
  by apply negb_true_iff, Hreq, negb_true_iff.
Qed.

Lemma newest_unique db k i j a o :
  history db -> newest db k i a -> newest db k j o -> i = j /\ a = o.
Proof.
  intros Hh (Ha & Hk & Hmax) (Ho & Hk' & Hmax').
  assert (i = j) as ->; [|by simplify_eq].
  eapply history_unique; [done|exact Ha|exact Ho|congruence|].
  pose proof (Hmax _ _ Ho Hk'). pose proof (Hmax' _ _ Ha Hk). lia.
Qed.

(** *** A tick keeps the history *)

Lemma tick_newest D db db' k i a a' :
  tick D db db' -> attempts db' !! i = Some a' -> newest db k i a -> newest db' k i a'.
Proof.
  intros Ht Ha' (Ha & Hk & Hmax). pose proof (tick_attempt _ _ _ Ht i) as Hi.
  rewrite Ha, Ha' in Hi. inversion Hi as [? ? [(E1 & E2 & _) _]|]; subst.
  split_and!; [done|done|]. intros j o Ho Hn. pose proof (tick_attempt _ _ _ Ht j) as Hj.
  rewrite Ho in Hj. inversion Hj as [o0 ? [(F1 & F2 & _) _] Eo|]; subst.
  rewrite E2, F2. eapply Hmax; [by rewrite <- Eo|congruence].
Qed.

Lemma turn_agrees rdy s s' open' flag' a a' :
  turn rdy s s' open' flag' a a' = true -> agree s' open' flag' a' = true.
Proof. unfold turn. intros H. by bool_prop. Qed.

(** Rows of the later state come from rows of the earlier one. *)
Lemma forall2_left {A} (R : A -> A -> Prop) (x y : option A) z :
  option_Forall2 R x y -> y = Some z -> exists w, x = Some w /\ R w z.
Proof. intros H ->. inversion H; subst. eauto. Qed.
Lemma forall2_right {A} (R : A -> A -> Prop) (x y : option A) w :
  option_Forall2 R x y -> x = Some w -> exists z, y = Some z /\ R w z.
Proof. intros H ->. inversion H; subst. eauto. Qed.

(** A node that is not ready has a dependency. *)
Lemma not_ready_dep db k :
  ready db k = false -> exists d, d ∈ deps db /\ d_child d = k /\ unsatisfied (nodes db) d = true.
Proof.
  unfold ready. intros H%negb_false_iff%existsb_exists. destruct H as (d & Hd & HP).
  apply andb_true_iff in HP as [Ek%String.eqb_eq Hu]. exists d. by rewrite list_elem_of_In.
Qed.

Lemma dep_dag db k n b d :
  history db -> d ∈ deps db -> d_child d = k -> nodes db !! k = Some n ->
  builds db !! n_build n = Some b -> b_dag_mode b = true.
Proof.
  intros Hh Hd <- Hn Hb. destruct (history_deps _ Hh _ Hd) as (n' & b' & Hn' & Hb' & E). by simplify_eq.
Qed.

Lemma tick_single D db db' k n' b' :
  tick D db db' -> history db -> nodes db' !! k = Some n' -> builds db' !! n_build n' = Some b' ->
  n_status n' = NBlocked -> b_dag_mode b' = true.
Proof.
  intros Ht Hh Hn' Hb' Hbl.
  destruct (forall2_left _ _ _ _ (tick_node _ _ _ Ht _) Hn') as (n & Hn & [E _]).
  destruct (history_agrees _ Hh _ _ Hn) as (b & i & a & Hb & Hi & Hag).
  destruct (forall2_right _ _ _ _ (tick_build _ _ _ Ht _) Hb) as (b2 & Hb2 & Ed & _).
  assert (b2 = b') as -> by congruence. rewrite Ed.
  destruct (forall2_right _ _ _ _ (tick_attempt _ _ _ Ht _) (proj1 Hi)) as (a' & Ha' & _).
  destruct (tick_turn _ _ _ Ht k n n' b b' i a a') as [Hturn _]; try done.
  destruct (ready db k) eqn:Er.
  - eapply history_single; [done..|]. unfold turn in Hturn. rewrite Hbl in Hturn.
    destruct (n_status n); try done; simpl in Hturn; by rewrite ?andb_false_r in Hturn.
  - destruct (not_ready_dep _ _ Er) as (d & Hd & Ek & _). by eapply dep_dag.
Qed.

Lemma tick_history D db db' : tick D db db' -> history db -> history db'.
Proof.
  intros Ht Hh.
  assert (Hback : forall i a', attempts db' !! i = Some a' -> exists a,
    attempts db !! i = Some a /\ same_identity a a'
    /\ (live (a_status a') = true -> live (a_status a) = true))
    by (intros i a' Ha'; eapply (forall2_left _ _ _ _ (tick_attempt _ _ _ Ht i) Ha')).
  split.
  - intros i a' Ha'. destruct (Hback _ _ Ha') as (a & Ha & (E1 & _ & _) & _). rewrite E1.
    destruct (history_node _ Hh _ _ Ha) as [n Hn].
    destruct (forall2_right _ _ _ _ (tick_node _ _ _ Ht _) Hn) as (n' & -> & _). eauto.
  - intros k n' Hn'. destruct (forall2_left _ _ _ _ (tick_node _ _ _ Ht _) Hn') as (n & Hn & [E _]).
    rewrite E. destruct (history_build _ Hh _ _ Hn) as [b Hb].
    destruct (forall2_right _ _ _ _ (tick_build _ _ _ Ht _) Hb) as (b' & -> & _). eauto.
  - intros i j a' o' Ha' Ho' En Eo. destruct (Hback _ _ Ha') as (a & Ha & (E1 & E2 & _) & _).
    destruct (Hback _ _ Ho') as (o & Ho & (F1 & F2 & _) & _).
    eapply (history_unique _ Hh i j); [done|done|congruence|congruence].
  - intros i a' Ha'. destruct (Hback _ _ Ha') as (a & Ha & (E1 & E2 & E3) & _).
    destruct (history_order _ Hh _ _ Ha) as [Hpos Hpred]. rewrite E2. split; [done|].
    intros Hlt. destruct (Hpred Hlt) as (j & o & Ho & Eo & Eord & Er).
    destruct (forall2_right _ _ _ _ (tick_attempt _ _ _ Ht _) Ho) as (o' & Ho' & (F1 & F2 & _) & _).
    exists j, o'. split_and!; congruence.
  - intros i a' Ha' Hl. destruct (Hback _ _ Ha') as (a & Ha & (E1 & E2 & _) & Hlive). rewrite E1.
    eapply tick_newest; [done..|]. by apply (history_live _ Hh), Hlive.
  - intros k n' Hn'. destruct (forall2_left _ _ _ _ (tick_node _ _ _ Ht _) Hn') as (n & Hn & [E _]).
    destruct (history_agrees _ Hh _ _ Hn) as (b & i & a & Hb & Hi & Hag).
    destruct (forall2_right _ _ _ _ (tick_build _ _ _ Ht _) Hb) as (b' & Hb' & _).
    destruct (forall2_right _ _ _ _ (tick_attempt _ _ _ Ht _) (proj1 Hi)) as (a' & Ha' & _).
    exists b', i, a'. split_and!; [by rewrite E | by eapply tick_newest|].
    eapply turn_agrees, (tick_turn _ _ _ Ht k n n' b b' i a a'); done.
  - intros d Hd. rewrite (tick_deps _ _ _ Ht) in Hd.
    destruct (history_deps _ Hh _ Hd) as (n & b & Hn & Hb & Hdag).
    destruct (forall2_right _ _ _ _ (tick_node _ _ _ Ht _) Hn) as (n' & Hn' & E & _).
    destruct (forall2_right _ _ _ _ (tick_build _ _ _ Ht _) Hb) as (b' & Hb' & Ed & _).
    exists n', b'. split_and!; [done|by rewrite E|congruence].
  - intros k n' b' Hn' Hb' Hbl. by eapply tick_single.
Qed.

(** ** New attempts *)

(** Node [k] returns to the queue with a new attempt [id], after its newest one
    was closed or set aside. *)
Record reopened (k id : Uuid) (db db' : Db) : Prop := {
  reopened_deps : deps db' = deps db;
  reopened_build b : option_Forall2 same_request (builds db !! b) (builds db' !! b);
  reopened_others k' : k' <> k -> nodes db' !! k' = nodes db !! k';
  reopened_node : exists n n', nodes db !! k = Some n /\ nodes db' !! k = Some n' /\ same_node n n'
    /\ (n_status n' = NBlocked \/ n_status n' = NQueued) /\ n_outcome n' = None
    /\ (n_status n' = NBlocked -> exists d, d ∈ deps db /\ d_child d = k);
  reopened_attempt i : i <> id -> option_Forall2 (fun a a' => same_identity a a'
    /\ (live (a_status a') = true -> live (a_status a) = true)
    /\ (a_node a <> k -> a_status a' = a_status a)) (attempts db !! i) (attempts db' !! i);
  reopened_new : attempts db !! id = None /\ exists j o o' a,
    attempts db !! j = Some o /\ attempts db' !! j = Some o' /\ live (a_status o') = false
    /\ attempts db' !! id = Some a /\ a_node o = k /\ a_node a = k
    /\ a_ordinal a = a_ordinal o + 1 /\ a_status a = AQueued /\ a_retry_of a = Some j
    /\ forall i e, attempts db !! i = Some e -> a_node e = k -> a_ordinal e <> a_ordinal o + 1
}.

(** Attempts without a successor are the newest of their node. *)
Lemma no_successor_newest db j o :
  history db -> attempts db !! j = Some o ->
  (forall i e, attempts db !! i = Some e -> a_node e = a_node o -> a_ordinal e <> a_ordinal o + 1) ->
  newest db (a_node o) j o.
Proof.
  intros Hh Ho Hno. split_and!; [done..|]. intros i e He Hk.
  destruct (history_order _ Hh _ _ Ho) as [Hpos _].
  assert (forall m : nat, forall i e, attempts db !! i = Some e -> a_node e = a_node o ->
    a_ordinal e = a_ordinal o + 1 + Z.of_nat m -> False) as Hgap.
  { induction m as [|m IH]; intros i' e' He' Hk' Eo; [eapply Hno; [done|done|lia]|].
    destruct (proj2 (history_order _ Hh _ _ He')) as (i2 & e2 & He2 & Hk2 & Eo2); [lia|].
    eapply (IH i2 e2); [done|congruence|lia]. }
  destruct (Z.le_gt_cases (a_ordinal e) (a_ordinal o)) as [?|Hgt]; [done|]. exfalso.
  eapply (Hgap (Z.to_nat (a_ordinal e - a_ordinal o - 1)) i e); [done|done|lia].
Qed.

Section Reopened.
Variables (k id : Uuid) (db db' : Db).
Hypotheses (Hh : history db) (Hr : reopened k id db db').

Lemma reopened_back i a' :
  attempts db' !! i = Some a' -> i <> id -> exists a, attempts db !! i = Some a
    /\ same_identity a a' /\ (live (a_status a') = true -> live (a_status a) = true)
    /\ (a_node a <> k -> a_status a' = a_status a).
Proof. intros Ha Hi. exact (forall2_left _ _ _ _ (reopened_attempt _ _ _ _ Hr i Hi) Ha). Qed.

Lemma reopened_on i a :
  attempts db !! i = Some a -> exists a', attempts db' !! i = Some a'
    /\ same_identity a a' /\ (live (a_status a') = true -> live (a_status a) = true)
    /\ (a_node a <> k -> a_status a' = a_status a).
Proof.
  intros Ha. assert (i <> id).
  { intros ->. destruct (reopened_new _ _ _ _ Hr) as [Hnone _]. congruence. }
  exact (forall2_right _ _ _ _ (reopened_attempt _ _ _ _ Hr i ltac:(done)) Ha).
Qed.

Lemma reopened_newest : exists a, newest db' k id a /\ a_status a = AQueued
  /\ forall i e, attempts db' !! i = Some e -> a_node e = k -> live (a_status e) = true -> i = id.
Proof.
  destruct (reopened_new _ _ _ _ Hr) as (Hnone & j & o & o' & a & Ho & Ho' & Hl & Ha & Eo & Ea & Eord
    & Es & _ & Hno).
  assert (Hnew : newest db k j o).
  { rewrite <- Eo. apply no_successor_newest; [done..|]. rewrite Eo. exact Hno. }
  exists a. split_and!; [split_and!; [done|done|]|done|].
  - intros i e He Hk. destruct (decide (i = id)) as [->|Hi]; [simplify_eq; lia|].
    destruct (reopened_back _ _ He Hi) as (e0 & He0 & (E1 & E2 & _) & _). rewrite E2.
    pose proof (proj2 (proj2 Hnew) _ _ He0 ltac:(congruence)). lia.
  - intros i e He Hk Hlive. destruct (decide (i = id)) as [->|Hi]; [done|].
    destruct (reopened_back _ _ He Hi) as (e0 & He0 & (E1 & E2 & _) & Hl0 & _).
    pose proof (history_live _ Hh _ _ He0 (Hl0 Hlive)) as Hn0. rewrite <- E1, Hk in Hn0.
    destruct (newest_unique _ _ _ _ _ _ Hh Hnew Hn0) as [-> _]. simplify_eq. congruence.
Qed.

Lemma reopened_newest_other k' i a :
  k' <> k -> newest db k' i a -> exists a', newest db' k' i a' /\ a_status a' = a_status a.
Proof.
  intros Hk (Ha & Hn & Hmax). destruct (reopened_on _ _ Ha) as (a' & Ha' & (E1 & E2 & _) & _ & Es).
  destruct reopened_newest as (new & (Hnew & Hkn & _) & _).
  exists a'. split; [split_and!; [done|congruence|]|apply Es; congruence].
  intros j e He Hke. destruct (decide (j = id)) as [->|Hj]; [simplify_eq; congruence|].
  destruct (reopened_back _ _ He Hj) as (e0 & He0 & (F1 & F2 & _) & _). rewrite E2, F2.
  eapply Hmax; [done|congruence].
Qed.

Lemma reopened_builds b : is_Some (builds db !! b) -> is_Some (builds db' !! b).
Proof.
  intros [x Hx]. destruct (forall2_right _ _ _ _ (reopened_build _ _ _ _ Hr b) Hx) as (? & -> & _).
  eauto.
Qed.

Lemma reopened_node_exists i e : attempts db' !! i = Some e -> is_Some (nodes db' !! a_node e).
Proof.
  intros He. destruct (reopened_node _ _ _ _ Hr) as (n & n' & _ & Hn' & _).
  destruct (decide (a_node e = k)) as [->|Hk]; [eauto|].
  rewrite (reopened_others _ _ _ _ Hr _ Hk).
  destruct (reopened_newest) as (new & (Hnew & Hkn & _) & _).
  assert (Hi : i <> id) by (intros ->; simplify_eq; congruence).
  destruct (reopened_back _ _ He Hi) as (e0 & He0 & (-> & _) & _). by eapply history_node.
Qed.

Lemma reopened_unique i1 i2 e1 e2 :
  attempts db' !! i1 = Some e1 -> attempts db' !! i2 = Some e2 ->
  a_node e1 = a_node e2 -> a_ordinal e1 = a_ordinal e2 -> i1 = i2.
Proof.
  destruct (reopened_new _ _ _ _ Hr) as
    (_ & j & o & o' & a & _ & _ & _ & Ha & _ & Ea & Eord & _ & _ & Hno).
  assert (Hold : forall i e, attempts db' !! i = Some e -> i <> id -> a_node e = k ->
    a_ordinal e = a_ordinal a -> False).
  { intros i e He Hi Hk Eo. destruct (reopened_back _ _ He Hi) as (e0 & He0 & (E1 & E2 & _) & _).
    eapply (Hno _ _ He0); congruence. }
  intros He1 He2 En Eo.
  destruct (decide (i1 = id)) as [->|H1], (decide (i2 = id)) as [->|H2]; [done|..].
  - exfalso. eapply (Hold _ _ He2); simplify_eq; congruence.
  - exfalso. eapply (Hold _ _ He1); simplify_eq; congruence.
  - destruct (reopened_back _ _ He1 H1) as (x & Hx & (E1 & E2 & _) & _).
    destruct (reopened_back _ _ He2 H2) as (y & Hy & (F1 & F2 & _) & _).
    eapply (history_unique _ Hh i1 i2); [done|done|congruence|congruence].
Qed.

Lemma reopened_order i e : attempts db' !! i = Some e ->
  1 <= a_ordinal e
  /\ (1 < a_ordinal e -> exists j o,
        attempts db' !! j = Some o /\ a_node o = a_node e /\ a_ordinal o = a_ordinal e - 1
        /\ a_retry_of e = Some j).
Proof.
  destruct (reopened_new _ _ _ _ Hr) as
    (_ & j & o & o' & a & Ho & _ & _ & Ha & Eo & Ea & Eord & _ & Er & _).
  intros He. destruct (decide (i = id)) as [->|Hi].
  - assert (e = a) as -> by congruence. pose proof (proj1 (history_order _ Hh _ _ Ho)).
    split; [lia|]. intros _. destruct (reopened_on _ _ Ho) as (o2 & Ho2 & (E1 & E2 & _) & _).
    exists j, o2. split_and!; [done|congruence|lia|done].
  - destruct (reopened_back _ _ He Hi) as (e0 & He0 & (E1 & E2 & E3) & _).
    destruct (history_order _ Hh _ _ He0) as [Hpos Hpred]. rewrite E2. split; [done|].
    intros Hlt. destruct (Hpred Hlt) as (i2 & e2 & He2 & Ek & Eo2 & Er2).
    destruct (reopened_on _ _ He2) as (e3 & He3 & (F1 & F2 & _) & _).
    exists i2, e3. split_and!; congruence.
Qed.

Lemma reopened_live i e :
  attempts db' !! i = Some e -> live (a_status e) = true -> newest db' (a_node e) i e.
Proof.
  destruct reopened_newest as (new & Hnew & _ & Hlone). intros He Hlive.
  destruct (decide (a_node e = k)) as [Hk|Hk].
  - assert (i = id) as -> by (by eapply Hlone). rewrite Hk. destruct Hnew as (? & ? & ?).
    by simplify_eq.
  - assert (Hi : i <> id) by (intros ->; destruct Hnew as (? & ? & _); simplify_eq; congruence).
    destruct (reopened_back _ _ He Hi) as (e0 & He0 & (E1 & _) & Hl0 & _).
    destruct (reopened_newest_other (a_node e0) i e0) as (e' & He' & _);
      [congruence | by apply (history_live _ Hh), Hl0|].
    rewrite E1. destruct He' as (? & ? & ?). by simplify_eq.
Qed.

Lemma reopened_agrees k' m : nodes db' !! k' = Some m ->
  exists b i a, builds db' !! n_build m = Some b /\ newest db' k' i a /\ agrees m b a.
Proof.
  intros Hm. destruct (decide (k' = k)) as [->|Hk].
  - destruct (reopened_node _ _ _ _ Hr) as (n & n' & Hn & Hn' & [Eb _] & Hst & Hout & _). simplify_eq.
    destruct reopened_newest as (new & Hnew & Hs & _).
    destruct (reopened_builds (n_build m)) as [b Hb]; [rewrite Eb; by eapply history_build|].
    exists b, id, new. split_and!; [done|done|]. unfold agrees. rewrite Hs, Hout.
    by destruct Hst as [-> | ->].
  - rewrite (reopened_others _ _ _ _ Hr _ Hk) in Hm.
    destruct (history_agrees _ Hh _ _ Hm) as (b & i & e & Hb & Hi & Hag).
    destruct (forall2_right _ _ _ _ (reopened_build _ _ _ _ Hr _) Hb) as (b' & Hb' & Hc).
    destruct (reopened_newest_other k' i e) as (e' & He' & Es'); [done|done|].
    exists b', i, e'. split_and!; [done|done|]. unfold agrees in *. rewrite Es'.
    eapply agree_flag; [|done]. by apply same_request_flag.
Qed.

Lemma reopened_row k' n :
  nodes db !! k' = Some n -> exists n', nodes db' !! k' = Some n' /\ n_build n' = n_build n.
Proof.
  intros Hn. destruct (reopened_node _ _ _ _ Hr) as (m & m' & Hm & Hm' & [Eb _] & _).
  destruct (decide (k' = k)) as [->|Hk]; [simplify_eq; eauto|].
  rewrite (reopened_others _ _ _ _ Hr _ Hk). eauto.
Qed.

Lemma reopened_single k' n' b' :
  nodes db' !! k' = Some n' -> builds db' !! n_build n' = Some b' -> n_status n' = NBlocked ->
  b_dag_mode b' = true.
Proof.
  intros Hn' Hb' Hbl.
  destruct (forall2_left _ _ _ _ (reopened_build _ _ _ _ Hr _) Hb') as (b & Hb & -> & _).
  destruct (decide (k' = k)) as [->|Hk].
  - destruct (reopened_node _ _ _ _ Hr) as (m & m' & Hm & Hm' & [Eb _] & _ & _ & Hdep). simplify_eq.
    destruct (Hdep Hbl) as (d & Hd & Ek). eapply dep_dag; try done. congruence.
  - rewrite (reopened_others _ _ _ _ Hr _ Hk) in Hn'. by eapply history_single.
Qed.

Lemma reopened_history : history db'.
Proof.
  split.
  - apply reopened_node_exists.
  - intros k' m Hm. destruct (reopened_agrees _ _ Hm) as (b & _ & _ & -> & _). eauto.
  - apply reopened_unique.
  - apply reopened_order.
  - apply reopened_live.
  - apply reopened_agrees.
  - intros d Hd. rewrite (reopened_deps _ _ _ _ Hr) in Hd.
    destruct (history_deps _ Hh _ Hd) as (n & b & Hn & Hb & Hdag).
    destruct (forall2_right _ _ _ _ (reopened_build _ _ _ _ Hr _) Hb) as (b' & Hb' & Ed & _).
    destruct (reopened_row _ _ Hn) as (n' & Hn' & E). exists n', b'. split_and!; congruence.
  - apply reopened_single.
Qed.

End Reopened.

(** ** New nodes *)

(** A node nobody has seen, with its first attempt. *)
Record first_attempt (k id : Uuid) (n : Node) (a : Attempt) (db db' : Db) : Prop := {
  first_builds : builds db' = builds db;
  first_deps : deps db' = deps db;
  first_fresh : nodes db !! k = None /\ attempts db !! id = None;
  first_nodes : nodes db' = <[k := n]> (nodes db);
  first_attempts : attempts db' = <[id := a]> (attempts db);
  first_in_build : exists b, builds db !! n_build n = Some b
    /\ (n_status n = NBlocked -> b_dag_mode b = true);
  first_row_node : (n_status n = NBlocked \/ n_status n = NQueued) /\ n_outcome n = None;
  first_row_attempt : a_node a = k /\ a_ordinal a = 1 /\ a_status a = AQueued
}.

Section FirstAttempt.
Variables (k id : Uuid) (n : Node) (a : Attempt) (db db' : Db).
Hypotheses (Hh : history db) (Hf : first_attempt k id n a db db').

Lemma first_other i e : attempts db !! i = Some e -> a_node e <> k /\ i <> id.
Proof.
  intros He. destruct (first_fresh _ _ _ _ _ _ Hf) as [Hk Hid]. split; [|congruence].
  intros Ek. destruct (history_node _ Hh _ _ He) as [m Hm]. congruence.
Qed.

Lemma first_newest k' i e : newest db k' i e -> newest db' k' i e.
Proof.
  intros (He & Hk & Hmax). destruct (first_other _ _ He) as [Hne Hi].
  destruct (first_row_attempt _ _ _ _ _ _ Hf) as (Ea & _).
  split_and!; [|done|].
  - rewrite (first_attempts _ _ _ _ _ _ Hf). by rewrite lookup_insert_ne.
  - intros j o Ho Ek. rewrite (first_attempts _ _ _ _ _ _ Hf) in Ho.
    apply lookup_insert_Some in Ho as [[<- <-]|[_ Ho]]; [congruence | by eapply Hmax].
Qed.

Lemma first_newest_own : newest db' k id a.
Proof.
  destruct (first_row_attempt _ _ _ _ _ _ Hf) as (Ea & Eo & _).
  split_and!; [|done|].
  - rewrite (first_attempts _ _ _ _ _ _ Hf). apply lookup_insert_eq.
  - intros j o Ho Ek. rewrite (first_attempts _ _ _ _ _ _ Hf) in Ho.
    apply lookup_insert_Some in Ho as [[<- <-]|[_ Ho]]; [done|]. by apply first_other in Ho as [? _].
Qed.

Lemma first_attempt_history : history db'.
Proof.
  pose proof (first_attempts _ _ _ _ _ _ Hf) as EA. pose proof (first_nodes _ _ _ _ _ _ Hf) as EN.
  pose proof (first_builds _ _ _ _ _ _ Hf) as EB.
  destruct (first_row_attempt _ _ _ _ _ _ Hf) as (Ea & Eo & Es).
  destruct (first_row_node _ _ _ _ _ _ Hf) as [Hst Hout]. split.
  - intros i e He. rewrite EN. rewrite EA in He.
    apply lookup_insert_Some in He as [[<- <-]|[_ He]]; [rewrite Ea, lookup_insert_eq; eauto|].
    destruct (first_other _ _ He) as [Hne _]. rewrite lookup_insert_ne by done. by eapply history_node.
  - intros k' m Hm. rewrite EB. rewrite EN in Hm.
    apply lookup_insert_Some in Hm as [[<- <-]|[_ Hm]]; [|by eapply history_build].
    destruct (first_in_build _ _ _ _ _ _ Hf) as (b & -> & _). eauto.
  - intros i j e o He Ho En Eord. rewrite EA in He, Ho.
    apply lookup_insert_Some in He as [[<- <-]|[? He]], Ho as [[<- <-]|[? Ho]]; [done|..].
    + exfalso. apply first_other in Ho as [? _]. congruence.
    + exfalso. apply first_other in He as [? _]. congruence.
    + by eapply history_unique.
  - intros i e He. rewrite EA in He.
    apply lookup_insert_Some in He as [[<- <-]|[_ He]]; [lia|].
    destruct (history_order _ Hh _ _ He) as [Hpos Hpred]. split; [done|]. intros Hlt.
    destruct (Hpred Hlt) as (j & o & Ho & Hk & Hord & Er). exists j, o. split_and!; try done.
    rewrite EA, lookup_insert_ne; [done|]. by apply first_other in Ho as [_ ?].
  - intros i e He Hl. rewrite EA in He.
    apply lookup_insert_Some in He as [[<- <-]|[_ He]]; [rewrite Ea; apply first_newest_own|].
    by apply first_newest, history_live.
  - intros k' m Hm. rewrite EB. rewrite EN in Hm. apply lookup_insert_Some in Hm as [[<- <-]|[_ Hm]].
    + destruct (first_in_build _ _ _ _ _ _ Hf) as (b & Hb & _). exists b, id, a.
      split_and!; [done|apply first_newest_own|]. unfold agrees. rewrite Es, Hout.
      by destruct Hst as [-> | ->].
    + destruct (history_agrees _ Hh _ _ Hm) as (b & i & e & Hb & Hi & Hag).
      exists b, i, e. split_and!; [done|by apply first_newest|done].
  - intros d Hd. rewrite (first_deps _ _ _ _ _ _ Hf) in Hd. rewrite EB, EN.
    destruct (history_deps _ Hh _ Hd) as (m & b & Hm & Hb & Hdag). exists m, b.
    split_and!; [|done..]. rewrite lookup_insert_ne; [done|].
    destruct (first_fresh _ _ _ _ _ _ Hf). congruence.
  - intros k' m b' Hm Hb' Hbl. rewrite EB in Hb'. rewrite EN in Hm.
    apply lookup_insert_Some in Hm as [[<- <-]|[_ Hm]]; [|by eapply history_single].
    destruct (first_in_build _ _ _ _ _ _ Hf) as (b & Hb & Hdag). simplify_eq. by apply Hdag.
Qed.

End FirstAttempt.

Lemma new_build_history build row db :
  builds db !! build = None -> history db ->
  history (db <| builds := <[build := row]> (builds db) |>).
Proof.
  intros Hb Hh. split; try apply Hh.
  - intros k n Hn. cbn in *. destruct (history_build _ Hh _ _ Hn) as [b Eb].
    rewrite lookup_insert_ne by congruence. eauto.
  - intros k n Hn. cbn in *. destruct (history_agrees _ Hh _ _ Hn) as (b & i & a & Eb & Hi & Hag).
    exists b, i, a. split_and!; [|done..]. rewrite lookup_insert_ne by congruence. done.
  - intros d Hd. cbn in *. destruct (history_deps _ Hh _ Hd) as (m & b & Hm & Eb & Hdag).
    exists m, b. split_and!; [done| |done]. rewrite lookup_insert_ne by congruence. done.
  - intros k m b Hm Eb Hbl. cbn in *. destruct (history_build _ Hh _ _ Hm) as [b' Eb'].
    rewrite lookup_insert_ne in Eb by congruence. by eapply history_single.
Qed.

Lemma new_deps_history edges db :
  (forall d, d ∈ edges -> exists n b,
     nodes db !! d_child d = Some n /\ builds db !! n_build n = Some b /\ b_dag_mode b = true) ->
  history db -> history (db <| deps := deps db ++ edges |>).
Proof.
  intros He Hh. split; try apply Hh. intros d Hd. cbn in *.
  apply elem_of_app in Hd as [Hd|Hd]; [by apply (history_deps _ Hh) | by apply He].
Qed.

(** ** Ticks from statements *)

(** The obligation of a statement that takes node [k] to [n'] and its newest
    attempt to [a']. *)
Definition turns (D : scope) (db : Db) (k : Uuid) (n n' : Node) (b' : Build)
    (a a' : Attempt) : Prop :=
  turn (ready db k) (n_status n) (n_status n') (absent (n_outcome n')) (flagged n' b')
    (a_status a) (a_status a') = true
  /\ scoped D n n'.

Lemma tick_rows D db db' gn ga :
  deps db' = deps db ->
  (forall k, option_Forall2 same_request (builds db !! k) (builds db' !! k)) ->
  (forall k, nodes db' !! k = gn k <$> nodes db !! k) ->
  (forall i, attempts db' !! i = ga i <$> attempts db !! i) ->
  (forall k n, same_node n (gn k n)) ->
  (forall i a, attempts db !! i = Some a -> same_identity a (ga i a)
     /\ (live (a_status (ga i a)) = true -> live (a_status a) = true)) ->
  (forall k n b b' i a, nodes db !! k = Some n -> builds db !! n_build n = Some b ->
     builds db' !! n_build n = Some b' -> newest db k i a -> same_request b b' ->
     agrees n b a -> agrees n b' a -> turns D db k n (gn k n) b' a (ga i a)) ->
  tick D db db'.
Proof.
  intros Hdeps Hb Hn Ha Hsn Hsa Ht. split; [done|done|..].
  - intros k. rewrite Hn. destruct (nodes db !! k); constructor. apply Hsn.
  - intros i. rewrite Ha. destruct (attempts db !! i) eqn:E; constructor. by apply Hsa.
  - intros k n n' b b' i a a' Hk Hk' Eb Eb' Hi Ha' Hag.
    rewrite Hn, Hk in Hk'. rewrite Ha, (proj1 Hi) in Ha'. simplify_eq/=.
    specialize (Hb (n_build n)). rewrite Eb, Eb' in Hb. inversion Hb as [? ? Hreq|]; subst.
    apply (Ht k n b b' i a); try done. unfold agrees in *. eapply agree_flag; [|done].
    by apply same_request_flag.
Qed.

Lemma turns_refl D db k n b a : agrees n b a -> turns D db k n n b a a.
Proof.
  intros H. split; [|by apply scoped_same]. unfold turn. unfold agrees in H. rewrite H.
  by destruct (n_status n), (a_status a).
Qed.

Lemma kept_tick D db db' : kept db db' -> tick D db db'.
Proof.
  intros Hk. apply (tick_rows D db db' (fun _ n => n) (fun _ a => a)).
  - apply Hk.
  - intros b. destruct (kept_builds _ _ Hk b) as [x y (E & Ec & _)|]; constructor.
    split; [done | by rewrite Ec].
  - intros k. rewrite (kept_nodes _ _ Hk). by destruct (nodes db !! k).
  - intros i. rewrite (kept_attempts _ _ Hk). by destruct (attempts db !! i).
  - done.
  - done.
  - intros. by apply turns_refl.
Qed.
