(* ===== verification/NodeTurns.v ===== *)
(** * The statements of the runtime as ticks

    Each group of statements that belongs together takes every node through one
    turn: dropping the work that has not started, asking the work that has to
    stop, skipping and queueing what waits, and the statements that follow one
    attempt. *)

From stdpp Require Import base gmap sets list strings pretty relations.
From Stdlib Require Import ZArith Lia.
From S2P Require Import Prelude Text Bytes Domain DagContract StoreTables DagRuntime Scheduler.
From S2P Require Import WorkspaceStore.
From S2P Require Import Attempts Lifecycle StoreFrames AttemptMoves History.

Open Scope Z_scope.

Lemma stepped_leaves now P f db k n :
  (forall m, one_status [NQueued; NBlocked] (n_status (f m)) = false) ->
  stepped now P f db k n = if P k n then f n else n.
Proof.
  intros H. unfold stepped, translate_readiness, enters_queue. destruct (P k n); [|done].
  by rewrite H, andb_false_r.
Qed.

Lemma no_outcome_absent n : no_outcome n = absent (n_outcome n).
Proof. unfold no_outcome. destruct (n_outcome n); [by apply bool_decide_false | by apply bool_decide_true]. Qed.

Lemma present_absent {A} (x : option A) `{Decision (x <> None)} :
  bool_decide (x <> None) = negb (absent x).
Proof. destruct x; [by apply bool_decide_true | apply bool_decide_false; naive_solver]. Qed.

Lemma stepped_same_node now P f db k n :
  (forall m, same_node m (f m)) -> same_node n (stepped now P f db k n).
Proof.
  intros Hf. unfold stepped, translate_readiness. destruct (P k n); [|done].
  destruct (negb _); [apply Hf|]. by destruct (_ || _); apply Hf.
Qed.

Lemma builds_still (m : gmap Uuid Build) k : option_Forall2 same_request (m !! k) (m !! k).
Proof. destruct (m !! k); by repeat constructor. Qed.

(** An attempt of node [k] sees the row of [k] through a join. *)
Lemma joined_newest db k i a n Q :
  newest db k i a -> nodes db !! k = Some n -> joined db Q a = Q k n.
Proof. intros (_ & E & _) Hn. unfold joined. by rewrite E, Hn. Qed.

(** An update of attempts followed by one of nodes. *)
Lemma tick_pair D now PA FA PN FN db :
  (forall a, same_identity a (FA a)) -> (forall n, same_node n (FN n)) ->
  (forall i a, attempts db !! i = Some a -> PA i a = true -> live (a_status (FA a)) = true ->
     live (a_status a) = true) ->
  (forall k n b i a, nodes db !! k = Some n -> builds db !! n_build n = Some b -> newest db k i a ->
     agrees n b a ->
     turns D db k n (stepped now PN FN db k n) b a (if PA i a then FA a else a)) ->
  tick D db (update_nodes now PN FN (update_attempts PA FA db)).
Proof.
  intros HFA HFN Hlive Ht.
  apply (tick_rows D db _ (stepped now PN FN db) (fun i a =>
    let a := if PA i a then FA a else a in
    readied (readiness now PN FN (update_attempts PA FA db) a) a)).
  - done.
  - intros k. apply builds_still.
  - intros k. apply (lookup_nodes_update_nodes now PN FN (update_attempts PA FA db)).
  - intros i. rewrite lookup_attempts_update_nodes, lookup_attempts_update_attempts.
    by destruct (attempts db !! i).
  - intros k n. by apply stepped_same_node.
  - intros i a Ha. destruct (PA i a) eqn:E; [|done]. split; [apply HFA | by eapply Hlive].
  - intros k n b b' i a Hn Hb Hb' Hi Hreq Hag Hag'. cbn in Hb'. simplify_eq. by eapply Ht.
Qed.

(** An update of attempts alone. *)
Lemma tick_attempts D PA FA db :
  (forall a, same_identity a (FA a)) ->
  (forall i a, attempts db !! i = Some a -> PA i a = true -> live (a_status (FA a)) = true ->
     live (a_status a) = true) ->
  (forall k n b i a, nodes db !! k = Some n -> builds db !! n_build n = Some b -> newest db k i a ->
     agrees n b a -> PA i a = true -> turns D db k n n b a (FA a)) ->
  tick D db (update_attempts PA FA db).
Proof.
  intros HFA Hlive Ht. apply (tick_rows D db _ (fun _ n => n)
    (fun i a => if PA i a then FA a else a)); try done.
  - intros k. cbn. by destruct (nodes db !! k).
  - intros i. apply lookup_attempts_update_attempts.
  - intros i a Ha. destruct (PA i a) eqn:E; [|done]. split; [apply HFA | by eapply Hlive].
  - intros k n b b' i a Hn Hb Hb' Hi Hreq Hag Hag'. cbn in Hb'. simplify_eq.
    destruct (PA i a) eqn:E; [by eapply Ht | by apply turns_refl].
Qed.

(** [SET cancellation_requested_at]. *)
Lemma tick_flag D now P db :
  tick D db (db <| nodes := update_where P (fun n => n <| n_cancelled_at := Some now |>) (nodes db) |>).
Proof.
  apply (tick_rows D db _ (fun k n => if P k n then n <| n_cancelled_at := Some now |> else n)
    (fun _ a => a)); try done.
  - intros k. apply lookup_update_where.
  - intros i. cbn. by destruct (attempts db !! i).
  - intros k n. by destruct (P k n).
  - intros k n b b' i a Hn Hb Hb' Hi Hreq Hag Hag'. destruct (P k n); [|by apply turns_refl].
    split; [|by apply scoped_same]. unfold turn. cbn.
    rewrite (agree_flag _ _ (flagged n b') true); [|done|done]. by destruct (n_status n), (a_status a).
Qed.

#[local] Arguments of_build _ _ : simpl never.

(** Evaluate the predicates on statuses that are constructors. *)
Ltac eval_bool t := let v := eval vm_compute in t in
  lazymatch v with true => idtac | false => idtac end; progress (change t with v in *).
Ltac status_bools :=
  repeat match goal with
  | H : context [one_status ?l ?s] |- _ => is_constructor s; eval_bool (one_status l s)
  | H : context [leased_attempt ?s] |- _ => is_constructor s; eval_bool (leased_attempt s)
  | H : context [bool_decide (?s = ?t)] |- _ =>
      is_constructor s; is_constructor t; eval_bool (bool_decide (s = t))
  | |- context [one_status ?l ?s] => is_constructor s; eval_bool (one_status l s)
  | |- context [leased_attempt ?s] => is_constructor s; eval_bool (leased_attempt s)
  | |- context [settled_node ?s] => is_constructor s; eval_bool (settled_node s)
  | |- context [live ?s] => is_constructor s; eval_bool (live s)
  | |- context [bool_decide (?s = ?t)] =>
      is_constructor s; is_constructor t; eval_bool (bool_decide (s = t))
  end.

(** Guards that hold simplify the guards that do not. *)
Ltac guards :=
  status_bools; cbn in *; try discriminate; bool_prop;
  repeat match goal with
  | H : true = true |- _ => clear H
  | H : ?x = true, H' : context [?x] |- _ =>
      lazymatch x with true => fail | false => fail | _ => idtac end;
      lazymatch type of H' with x = true => fail | _ => rewrite H in H' end
  | H : ?x = true |- context [?x] =>
      lazymatch x with true => fail | false => fail | _ => rewrite H end
  | H : ?x = false |- context [?x] =>
      lazymatch x with true => fail | false => fail | _ => rewrite H end
  end; cbn in *; rewrite ?orb_true_r; cbn; try discriminate.

Ltac turn_scope :=
  unfold scoped; cbn; split;
  [ intros; first [discriminate | congruence | symmetry; by apply String.eqb_eq | done]
  | first [by left | right; left; done | right; right; first [done | symmetry; by apply String.eqb_eq]] ].

(** The cases of a turn: the guards of the statements, then the statuses. *)
Ltac turn_cases n b a :=
  repeat match goal with H : _ = Ok _ |- _ => clear H end;
  unfold turns, turn, agrees, flagged, unstarted in *; rewrite ?no_outcome_absent in *;
  repeat match goal with
  | |- context [if ?c then _ else _] => let E := fresh "C" in destruct c eqn:E
  end;
  cbn;
  let En := fresh "En" in let Ea := fresh "Ea" in
  destruct (n_status n) eqn:En, (a_status a) eqn:Ea; cbn in *; try discriminate;
  repeat match goal with
  | H : context [n_status n] |- _ =>
      lazymatch type of H with n_status n = _ => fail | _ => rewrite En in H end
  | H : context [a_status a] |- _ =>
      lazymatch type of H with a_status a = _ => fail | _ => rewrite Ea in H end
  end;
  guards; try (split; [reflexivity | turn_scope]).

Section Turns.
Context `{PG : Postgres} `{DX : DagExternal} `{WT : WorkspaceTransfer}.

(** ** Work that has not started *)

Lemma tick_mark now build ex db : tick (within build) db (mark_unstarted_skipped now build ex db).
Proof.
  unfold mark_unstarted_skipped. apply tick_pair; try done.
  intros k n b i a Hn Hb Hi Hag. rewrite stepped_leaves by done.
  erewrite joined_newest by done. turn_cases n b a.
Qed.

(** The attempts of active nodes are asked to stop once the nodes are flagged. *)
Lemma tick_stop D S Q db :
  (forall x, S x = true -> one_status [AOffered; AAccepted; ARunning; AFinalizing] x = true) ->
  (forall k n, nodes db !! k = Some n -> Q k n = true -> absent (n_cancelled_at n) = false) ->
  tick D db (update_attempts (fun _ a => S (a_status a) && joined db Q a)
               (fun a => a <| a_status := ACancelling |>) db).
Proof.
  intros HS HQ. apply tick_attempts; [done|..].
  - intros i a _ HP _. bool_prop. apply HS in H. by destruct (a_status a).
  - intros k n b i a Hn Hb Hi Hag HP. erewrite joined_newest in HP by done. bool_prop.
    apply HS in H. specialize (HQ _ _ Hn H0). turn_cases n b a.
Qed.

Lemma flagged_rows now P db k n :
  nodes (db <| nodes := update_where P (fun n => n <| n_cancelled_at := Some now |>) (nodes db) |>) !! k
    = Some n ->
  (forall m, P k (m <| n_cancelled_at := Some now |>) = P k m) ->
  P k n = true -> absent (n_cancelled_at n) = false.
Proof.
  cbn. rewrite lookup_update_where. intros H HP. destruct (nodes db !! k) as [m|]; simplify_eq/=.
  destruct (P k m) eqn:E; [done|]. congruence.
Qed.

Lemma ticks_fence now build node db : rtc (tick (within build)) db (fence_unstarted_dag_work now build node db).
Proof.
  unfold fence_unstarted_dag_work. eapply rtc_r; [|apply (tick_stop _ (one_status _))].
  - eapply rtc_r; [|apply tick_flag]. apply rtc_once, tick_pair; try done.
    intros k n b i a Hn Hb Hi Hag. rewrite stepped_leaves by done.
    erewrite joined_newest by done. turn_cases n b a.
  - intros x Hx. by destruct x.
  - intros k n Hn HQ. by eapply flagged_rows.
Qed.

Lemma ticks_fail_fast now build node db : rtc (tick (within build)) db (fail_fast_peers now build node db).
Proof.
  unfold fail_fast_peers. eapply rtc_r; [|apply tick_mark].
  eapply rtc_r; [|apply (tick_stop _ (one_status _))].
  - apply rtc_once, tick_flag.
  - done.
  - intros k n Hn HQ. by eapply flagged_rows.
Qed.

Lemma tick_update_builds D P f db :
  (forall b, same_request b (f b)) -> tick D db (update_builds P f db).
Proof.
  intros Hf. apply (tick_rows D db _ (fun _ n => n) (fun _ a => a)); try done.
  - intros k. rewrite lookup_builds_update_builds. destruct (builds db !! k) as [b|]; constructor.
    by destruct (P k b).
  - intros k. cbn. by destruct (nodes db !! k).
  - intros i. cbn. by destruct (attempts db !! i).
  - intros. by apply turns_refl.
Qed.

Lemma ticks_kept D db db' : kept db db' -> rtc (tick D) db db'.
Proof. intros H. by apply rtc_once, kept_tick. Qed.

Lemma ticks_cancel_dag now build db r db' :
  cancel_dag_build now build db = Ok (r, db') -> rtc (tick (within build)) db db'.
Proof.
  unfold cancel_dag_build. intros H. inv_tx; try apply rtc_refl.
  etrans; [|by eapply ticks_kept, derive_build_outcome_kept].
  eapply rtc_r; [|apply (tick_stop _ (one_status _))].
  - eapply rtc_r; [|apply tick_flag].
    eapply rtc_r; [apply rtc_once, (tick_update_builds _ (is_row build)
      (fun b => b <| b_cancelled_at := Some now |>)); done|].
    apply tick_pair; try done. intros k n b0 i a0 Hn Hb0 Hi Hag. rewrite stepped_leaves by done.
    erewrite joined_newest by done. turn_cases n b0 a0.
  - done.
  - intros k n Hn HQ. by eapply flagged_rows.
Qed.

Lemma ticks_fail_orphan now db row db' :
  fail_orphan now db row = Ok db' -> rtc (tick (within row.1)) db db'.
Proof.
  unfold fail_orphan. destruct row as [build agent]. intros H. simpl.
  etrans; [|by eapply ticks_kept, record_terminal_notifications_kept].
  etrans; [|apply ticks_kept, kept_event].
  etrans; [|apply ticks_kept, kept_update_builds; by repeat split].
  apply rtc_once, tick_pair; try done.
  intros k n b i a Hn Hb Hi Hag. rewrite stepped_leaves by done.
  erewrite joined_newest by done. unfold in_build. turn_cases n b a.
Qed.

(** ** Blocked nodes *)

Lemma tick_skip_pass now build db : tick (within build) db (skip_pass now build db).2.
Proof.
  unfold skip_pass. simpl. destruct (exists_row (skippable db build) (nodes db)) eqn:Es.
  - set (db1 := update_nodes _ _ _ db).
    apply (tick_rows (within build) db _
      (fun k n => if skippable db build k n then settle_node NSkipped LSkipped n else n)
      (fun i a => let a := readied (readiness now (skippable db build) (settle_node NSkipped LSkipped)
                                      db a) a in
         if bool_decide (a_status a = AQueued) && joined db1 (fun _ n => of_build build n
              && bool_decide (n_status n = NSkipped)) a
         then abort_attempt now "dependency_not_succeeded" a else a)); try done.
    + intros k. unfold db1. cbn. rewrite map_lookup_imap. destruct (nodes db !! k); [|done]. simpl.
      by rewrite stepped_leaves.
    + intros i. rewrite lookup_attempts_update_attempts. unfold db1 at 2.
      rewrite lookup_attempts_update_nodes. by destruct (attempts db !! i).
    + intros k n. by destruct (skippable db build k n).
    + intros i a Ha. simpl. by destruct (_ && _).
    + intros k n b b' i a Hn Hb Hb' Hi Hreq Hag Hag'. cbv zeta.
      assert (Hj : joined db1 (fun _ n => of_build build n && bool_decide (n_status n = NSkipped))
        (readied (readiness now (skippable db build) (settle_node NSkipped LSkipped) db a) a)
        = of_build build n && bool_decide (n_status
            (if skippable db build k n then settle_node NSkipped LSkipped n else n) = NSkipped)).
      { unfold joined. change (a_node (readied _ a)) with (a_node a). rewrite (proj1 (proj2 Hi)).
        unfold db1. rewrite lookup_nodes_update_nodes, Hn. simpl. rewrite stepped_leaves by done.
        by destruct (skippable db build k n). }
      rewrite Hj. clear Hj. destruct (skippable db build k n) eqn:Esk;
        unfold skippable in Esk; turn_cases n b' a.
  - apply (tick_rows (within build) db _ (fun _ n => n)
      (fun i a => readied (readiness now (skippable db build) (settle_node NSkipped LSkipped) db a) a));
      try done.
    + intros k. cbn. rewrite map_lookup_imap. destruct (nodes db !! k) as [n|] eqn:Hn; [|done]. simpl.
      rewrite stepped_leaves by done. by rewrite (proj1 (exists_row_false _ _) Es k n Hn).
    + intros i. apply lookup_attempts_update_nodes.
    + intros k n b b' i a _ _ _ _ _ _ Hag. exact (turns_refl _ db k n b' a Hag).
Qed.

Lemma stamp_ready_same build ns a :
  a_status (stamp_ready build ns a) = a_status a /\ same_identity a (stamp_ready build ns a).
Proof. unfold stamp_ready. destruct (ns !! a_node a); [|done]. by destruct (_ && _). Qed.

Lemma tick_ready_pass D now build db : tick D db (ready_pass now build db).2.
Proof.
  unfold ready_pass. simpl. set (FN := fun n => n <| n_status := NQueued |> <| n_queued_at := now |>).
  set (db1 := update_nodes _ _ _ db).
  apply (tick_rows D db _ (stepped now (readiable db build) FN db)
    (fun i a => let a := readied (readiness now (readiable db build) FN db a) a in
       if exists_row (readiable db build) (nodes db) then stamp_ready build (nodes db1) a else a)).
  - by destruct (exists_row _ _).
  - intros k. destruct (exists_row _ _); apply builds_still.
  - intros k. destruct (exists_row _ _); apply (lookup_nodes_update_nodes now _ FN db).
  - intros i. destruct (exists_row _ _); cbn; rewrite ?lookup_fmap; by destruct (attempts db !! i).
  - intros k n. by apply stepped_same_node.
  - intros i a Ha. cbv zeta. destruct (exists_row _ _); [|done].
    match goal with |- context [stamp_ready ?b ?ns ?a'] =>
      destruct (stamp_ready_same b ns a') as [-> Hid] end. done.
  - intros k n b b' i a Hn Hb Hb' Hi Hreq Hag Hag'. cbv zeta.
    assert (Es : forall x y : Attempt, a_status x = a_status y ->
      turns D db k n (stepped now (readiable db build) FN db k n) b' a y ->
      turns D db k n (stepped now (readiable db build) FN db k n) b' a x)
      by (intros x y E; unfold turns; by rewrite E).
    apply (Es _ a).
    { destruct (exists_row _ _); [|done]. by etrans; [apply stamp_ready_same|]. }
    unfold stepped. destruct (readiable db build k n) eqn:Er; [|by apply turns_refl].
    unfold readiable in Er. bool_prop. unfold translate_readiness, enters_queue, FN. cbn.
    rewrite H0. rewrite (bool_decide_eq_true_1 _ H1). turn_cases n b' a.
Qed.
Lemma ticks_advance_loop fuel now build db db' :
  advance_loop fuel now build db = Ok db' -> rtc (tick (within build)) db db'.
Proof.
  revert db. induction fuel as [|fuel IH]; intros db H; cbn [advance_loop] in H; [done|].
  pose proof (tick_skip_pass now build db) as H1. destruct (skip_pass now build db) as [sk d1].
  pose proof (tick_ready_pass (within build) now build d1) as H2.
  destruct (ready_pass now build d1) as [re d2]. simpl in *.
  eapply rtc_l; [done|]. eapply rtc_l; [done|].
  destruct (negb sk && negb re); [injection H as <-; apply rtc_refl | by apply IH].
Qed.

(** ** Statements that follow one attempt *)

(** The attempt a transaction works on is the newest of its node. *)
Lemma live_newest db i a n b :
  history db -> attempts db !! i = Some a -> live (a_status a) = true ->
  nodes db !! a_node a = Some n -> builds db !! n_build n = Some b ->
  newest db (a_node a) i a /\ agrees n b a.
Proof.
  intros Hh Ha Hl Hn Hb. pose proof (history_live _ Hh _ _ Ha Hl) as Hi. split; [done|].
  destruct (history_agrees _ Hh _ _ Hn) as (b' & j & o & Hb' & Hj & Hag).
  destruct (newest_unique _ _ _ _ _ _ Hh Hi Hj) as [-> ->]. by simplify_eq.
Qed.

(** [dbm] is [db] after an update of attempt [i], with builds and the tables
    outside the lifecycle touched at most. *)
Record beside (i : Uuid) (FA : Attempt -> Attempt) (db dbm : Db) : Prop := {
  beside_nodes : nodes dbm = nodes db;
  beside_deps : deps dbm = deps db;
  beside_builds k : option_Forall2 same_request (builds db !! k) (builds dbm !! k);
  beside_attempts j :
    attempts dbm !! j = (fun a => if String.eqb j i then FA a else a) <$> attempts db !! j
}.

Lemma kept_beside i FA db dbm : kept (set_attempt i FA db) dbm -> beside i FA db dbm.
Proof.
  intros Hk. split.
  - apply Hk.
  - apply Hk.
  - intros k. pose proof (kept_builds _ _ Hk k) as HB.
    change (builds (set_attempt i FA db)) with (builds db) in HB.
    destruct HB as [x y (E & Ec & _)|]; constructor. split; [done | by rewrite Ec].
  - intros j. rewrite (kept_attempts _ _ Hk). apply lookup_attempts_update_attempts.
Qed.

Lemma beside_set i FA db : beside i FA db (set_attempt i FA db).
Proof. by apply kept_beside. Qed.

Lemma ready_ext db dbm k : nodes dbm = nodes db -> deps dbm = deps db -> ready dbm k = ready db k.
Proof. intros En Ed. unfold ready. by rewrite En, Ed. Qed.

Lemma stepped_ext now P f db dbm k n :
  nodes dbm = nodes db -> deps dbm = deps db -> stepped now P f dbm k n = stepped now P f db k n.
Proof. intros En Ed. unfold stepped, translate_readiness. by rewrite (ready_ext db dbm). Qed.

(** An update of the newest attempt of a node and of the node. *)
Lemma tick_one D now db dbm i a n FA PN FN :
  history db -> newest db (a_node a) i a -> nodes db !! a_node a = Some n ->
  beside i FA db dbm ->
  (forall a, same_identity a (FA a)) -> (forall n, same_node n (FN n)) ->
  (live (a_status (FA a)) = true -> live (a_status a) = true) ->
  (forall k m, k <> a_node a -> PN k m = false) ->
  (forall b b', builds db !! n_build n = Some b -> agrees n b a -> agrees n b' a ->
     turns D db (a_node a) n (stepped now PN FN db (a_node a) n) b' a (FA a)) ->
  tick D db (update_nodes now PN FN dbm).
Proof.
  intros Hh Hi Hn Hbe HFA HFN Hl HPN Ht.
  pose proof (beside_nodes _ _ _ _ Hbe) as En. pose proof (beside_deps _ _ _ _ Hbe) as Ed.
  apply (tick_rows D db _ (stepped now PN FN db) (fun j o =>
    let o := if String.eqb j i then FA o else o in readied (readiness now PN FN dbm o) o)).
  - done.
  - apply Hbe.
  - intros k. rewrite lookup_nodes_update_nodes, En. destruct (nodes db !! k); [|done]. simpl.
    by rewrite (stepped_ext now PN FN db dbm).
  - intros j. rewrite lookup_attempts_update_nodes, (beside_attempts _ _ _ _ Hbe).
    by destruct (attempts db !! j).
  - intros k m. by apply stepped_same_node.
  - intros j o Ho. destruct (String.eqb_spec j i) as [->|]; [|done].
    destruct Hi as (Ha & _). simplify_eq. split; [apply HFA | apply Hl].
  - intros k m b b' j o Hk Hb Hb' Hj Hreq Hag Hag'. cbv zeta.
    destruct (String.eqb_spec j i) as [->|Hji].
    + assert (o = a) as -> by (destruct Hj, Hi; congruence).
      assert (k = a_node a) as -> by (by destruct Hj as (_ & <- & _)). simplify_eq.
      by apply (Ht b).
    + assert (Hk' : k <> a_node a).
      { intros ->. by destruct (newest_unique _ _ _ _ _ _ Hh Hi Hj) as [-> _]. }
      unfold stepped. rewrite (HPN _ _ Hk'). by apply (turns_refl D db k m b' o).
Qed.

Lemma tick_beside D db dbm i a n FA :
  history db -> newest db (a_node a) i a -> nodes db !! a_node a = Some n ->
  beside i FA db dbm -> (forall a, same_identity a (FA a)) ->
  (live (a_status (FA a)) = true -> live (a_status a) = true) ->
  (forall b, agrees n b a -> turns D db (a_node a) n n b a (FA a)) ->
  tick D db dbm.
Proof.
  intros Hh Hi Hn Hbe HFA Hl Ht.
  apply (tick_rows D db _ (fun _ n => n) (fun j o => if String.eqb j i then FA o else o)).
  - apply Hbe.
  - apply Hbe.
  - intros k. rewrite (beside_nodes _ _ _ _ Hbe). by destruct (nodes db !! k).
  - apply Hbe.
  - done.
  - intros j o Ho. destruct (String.eqb_spec j i) as [->|]; [|done].
    destruct Hi as (Ha & _). simplify_eq. split; [apply HFA | apply Hl].
  - intros k m b b' j o Hk Hb Hb' Hj Hreq Hag Hag'. destruct (String.eqb_spec j i) as [->|Hji].
    + assert (o = a) as -> by (destruct Hj, Hi; congruence).
      assert (k = a_node a) as -> by (by destruct Hj as (_ & <- & _)). simplify_eq. by apply Ht.
    + by apply turns_refl.
Qed.

(** ** A new attempt of a node *)

Lemma insert_attempt_rows id a db r db' :
  insert_attempt id a db = Ok (r, db') ->
  exists a', attempts db' = <[id := a']> (attempts db) /\ attempts db !! id = None
    /\ same_identity a a' /\ a_status a' = a_status a
    /\ nodes db' = nodes db /\ deps db' = deps db /\ builds db' = builds db
    /\ forall i e, attempts db !! i = Some e -> a_node e = a_node a -> a_ordinal e <> a_ordinal a.
Proof.
  unfold insert_attempt. intros H. inv_tx. eexists. split; [reflexivity|]. cbn.
  split_and!; try done; try (by destruct (_ && _)).
  intros i e He En Eo.
  match goal with H : exists_row _ _ = false |- _ =>
    pose proof (proj1 (exists_row_false _ _) H _ _ He) as Hx end.
  simpl in Hx. by rewrite En, Eo, String.eqb_refl, Z.eqb_refl in Hx.
Qed.

Lemma insert_attempt_ready id a db r db' n :
  insert_attempt id a db = Ok (r, db') -> nodes db !! a_node a = Some n -> n_status n <> NBlocked ->
  r = a_ready_at a.
Proof.
  unfold insert_attempt. intros H Hn Hs. rewrite Hn in H. inv_tx.
  by rewrite (bool_decide_false (n_status n = NBlocked)), andb_false_r by done.
Qed.

Lemma beside_refl i db : beside i (fun a => a) db db.
Proof.
  split; try done. intros j. destruct (attempts db !! j); [|done]. simpl. by destruct (String.eqb j i).
Qed.

Lemma beside_identity i FA db dbm j e :
  beside i FA db dbm -> (forall a, same_identity a (FA a)) -> attempts db !! j = Some e ->
  exists e', attempts dbm !! j = Some e' /\ same_identity e e'.
Proof.
  intros Hbe HFA He. rewrite (beside_attempts _ _ _ _ Hbe), He. eexists. split; [reflexivity|].
  by destruct (String.eqb j i).
Qed.

(** What the trigger makes of a row that enters the queue. *)
Lemma translated_row now db k n n' :
  n_status n' = NQueued \/ n_status n' = NBlocked ->
  same_node n n' -> n_outcome n' = None ->
  let row := translate_readiness now db k n n' in
  same_node n row /\ n_outcome row = None
  /\ (n_status row = NBlocked \/ n_status row = NQueued)
  /\ (n_status n' = NBlocked -> n_status row = NBlocked)
  /\ (n_status n' = NQueued -> enters_queue n n' = true ->
      n_status row = if ready db k then NQueued else NBlocked)
  /\ (n_status row = NBlocked -> n_status n' = NBlocked \/ ready db k = false).
Proof.
  intros Hst Hsn Hout row. unfold row, translate_readiness.
  destruct (enters_queue n n') eqn:E; simpl.
  - destruct Hst as [Eq|Eq]; rewrite Eq.
    + rewrite bool_decide_false by done. simpl. destruct (ready db k); simpl; split_and!; auto;
        try done; congruence.
    + rewrite bool_decide_true by done. simpl. split_and!; auto; done.
  - split_and!; try done; naive_solver.
Qed.

Lemma reopened_insert now k id j o FA PN FN new r db dbm d2 n :
  attempts db !! j = Some o -> a_node o = k -> nodes db !! k = Some n ->
  beside j FA db dbm -> (forall a, same_identity a (FA a)) -> live (a_status (FA o)) = false ->
  insert_attempt id new dbm = Ok (r, d2) ->
  a_node new = k -> a_ordinal new = a_ordinal o + 1 -> a_status new = AQueued ->
  a_retry_of new = Some j ->
  (forall k' m, k' <> k -> PN k' m = false) -> PN k n = true ->
  same_node n (FN n) -> n_outcome (FN n) = None ->
  n_status (FN n) = NQueued \/ n_status (FN n) = NBlocked ->
  (n_status (FN n) = NBlocked -> exists d, d ∈ deps db /\ d_child d = k) ->
  reopened k id db (update_nodes now PN FN d2)
  /\ nodes (update_nodes now PN FN d2) !! k = Some (translate_readiness now db k n (FN n)).
Proof.
  intros Ho Eo Hn Hbe HFA Hdead Hins Enew Eord Es Er HPN HPk Hsn Hout Hst Hdep.
  pose proof (beside_nodes _ _ _ _ Hbe) as En. pose proof (beside_deps _ _ _ _ Hbe) as Ed.
  destruct (insert_attempt_rows _ _ _ _ _ Hins) as
    (new' & EA & Hid & (F1 & F2 & F3) & F4 & F5 & F6 & F7 & Huniq).
  assert (Hrow : nodes (update_nodes now PN FN d2) !! k
    = Some (translate_readiness now db k n (FN n))).
  { rewrite lookup_nodes_update_nodes, F5, En, Hn. simpl.
    rewrite (stepped_ext now PN FN db d2) by congruence. unfold stepped. by rewrite HPk. }
  split; [|done].
  destruct (translated_row now db k n (FN n) Hst Hsn Hout) as (T1 & T2 & T3 & _ & _ & T4).
  split.
  - cbn. congruence.
  - intros b. cbn. rewrite F7. apply Hbe.
  - intros k' Hk'. rewrite lookup_nodes_update_nodes, F5, En. destruct (nodes db !! k'); [|done].
    simpl. unfold stepped. by rewrite HPN.
  - eexists n, _. split_and!; try done. intros [Hb|Hb]%T4; [by apply Hdep|].
    destruct (not_ready_dep _ _ Hb) as (d & Hd & Ek & _). eauto.
  - intros i Hi. rewrite lookup_attempts_update_nodes, EA, lookup_insert_ne by done.
    rewrite (beside_attempts _ _ _ _ Hbe). destruct (attempts db !! i) as [e|] eqn:He; constructor.
    destruct (String.eqb_spec i j) as [->|]; [|done]. simplify_eq.
    split_and!; [apply HFA|cbn; congruence|done].
  - assert (Hji : j <> id).
    { intros ->. rewrite (beside_attempts _ _ _ _ Hbe), Ho in Hid. done. }
    split; [rewrite (beside_attempts _ _ _ _ Hbe) in Hid; by destruct (attempts db !! id)|].
    eexists j, o, _, _. rewrite !lookup_attempts_update_nodes, EA, lookup_insert_eq.
    rewrite lookup_insert_ne by done. rewrite (beside_attempts _ _ _ _ Hbe), Ho. simpl.
    rewrite String.eqb_refl. split_and!; try done; cbn; try congruence.
    intros i e He Ek. destruct (beside_identity _ _ _ _ _ _ Hbe HFA He) as (e' & He' & G1 & G2 & _).
    rewrite <- Eord, <- G2. eapply Huniq; [exact He'|congruence].
Qed.

End Turns.
