(* ===== verification/NodeHistory.v ===== *)
(** * Every operation keeps the history of nodes and attempts

    What follows an attempt that closes is one of four effects: nothing else
    settles; the node settles and no blocked node of its build can move; the one
    node of a build that is not a DAG settles; or the node returns to the queue
    with a new attempt. *)

From stdpp Require Import base gmap sets list strings pretty relations.
From Stdlib Require Import ZArith Lia.
From S2P Require Import Prelude Text Bytes Domain DagContract DagMatrix StoreTables DagRuntime.
From S2P Require Import WorkspaceStore.
From S2P Require Import Scheduler Attempts Lifecycle StoreFrames AttemptMoves History NodeTurns.

Open Scope Z_scope.

(** No blocked node of the build can be skipped or queued. *)
Definition stable (build : Uuid) (db : Db) : Prop :=
  forall k n, nodes db !! k = Some n -> of_build build n = true -> n_status n = NBlocked ->
    ready db k = false /\ (n_kind n = Post \/ impossible db k = false).

Inductive effect (build : Uuid) (dag : bool) (db db' : Db) : Prop :=
| effect_calm : rtc (tick nowhere) db db' -> effect build dag db db'
| effect_settled : rtc (tick (within build)) db db' -> stable build db' -> dag = true ->
    effect build dag db db'
| effect_single : rtc (tick (alone build)) db db' -> dag = false -> effect build dag db db'
| effect_retry k id d n n' : reopened k id db d -> kept d db' ->
    nodes db !! k = Some n -> nodes d !! k = Some n' ->
    (forall i a, newest db k i a -> active (n_status n) (a_status a) = true) ->
    n_status n' = (if ready db k then NQueued else NBlocked) -> effect build dag db db'.

Lemma ticks_history D db db' : rtc (tick D) db db' -> history db -> history db'.
Proof. induction 1; [done|]. intros Hh. by eapply IHrtc, tick_history. Qed.

Lemma kept_history db db' : kept db db' -> history db -> history db'.
Proof. intros H. by eapply tick_history, (kept_tick nowhere). Qed.

Lemma effect_history build dag db db' : effect build dag db db' -> history db -> history db'.
Proof.
  intros [H|H _ _|H _|k id d n n' H Hk _ _ _ _] Hh; try (by eapply ticks_history).
  eapply kept_history; [done|]. by eapply reopened_history.
Qed.

Lemma stable_ext build db db' :
  (forall k, nodes db' !! k = nodes db !! k) -> deps db' = deps db ->
  stable build db -> stable build db'.
Proof.
  intros En Ed Hs k n Hn Hb Hs'. rewrite En in Hn. apply map_eq in En.
  unfold ready, impossible. rewrite En, Ed. by apply Hs.
Qed.

Lemma stable_kept build db db' : kept db db' -> stable build db -> stable build db'.
Proof. intros Hk. apply stable_ext; [intros k; by rewrite (kept_nodes _ _ Hk) | apply Hk]. Qed.

Lemma effect_kept build dag db d db' :
  kept d db' -> effect build dag db d -> effect build dag db db'.
Proof.
  intros Hk [H|H Hs Hd|H Hd|k id d0 n n' H Hk0 Hn Hn' Ha Hs].
  - apply effect_calm. etrans; [done | by apply ticks_kept].
  - apply effect_settled; [etrans; [done | by apply ticks_kept] | by eapply stable_kept | done].
  - apply effect_single; [etrans; [done | by apply ticks_kept] | done].
  - eapply (effect_retry _ _ _ _ k id d0); try done. by etrans.
Qed.

(** ** Advancing *)

Section Operations.
Context `{PG : Postgres} `{DX : DagExternal} `{WT : WorkspaceTransfer}.

Lemma update_nodes_none now P f db k :
  exists_row P (nodes db) = false -> nodes (update_nodes now P f db) !! k = nodes db !! k.
Proof.
  intros H. rewrite lookup_nodes_update_nodes. destruct (nodes db !! k) eqn:E; [|done]. simpl.
  unfold stepped. by rewrite (proj1 (exists_row_false _ _) H _ _ E).
Qed.

Lemma stable_pass now build db :
  (skip_pass now build db).1 = false -> (ready_pass now build (skip_pass now build db).2).1 = false ->
  stable build (ready_pass now build (skip_pass now build db).2).2.
Proof.
  unfold skip_pass, ready_pass. simpl. intros Hs. rewrite Hs. intros Hr. rewrite Hr.
  set (d1 := update_nodes now (skippable db build) _ db) in *.
  assert (E1 : forall k, nodes d1 !! k = nodes db !! k) by (intros; by apply update_nodes_none).
  apply (stable_ext build db).
  - intros k. rewrite update_nodes_none by done. apply E1.
  - done.
  - intros k n Hn Hof Hb. rewrite exists_row_false in Hs, Hr.
    specialize (Hs k n Hn). specialize (Hr k n ltac:(by rewrite E1)).
    unfold skippable in Hs. unfold readiable in Hr.
    assert (ready d1 k = ready db k) as Erd by (apply ready_ext; [by apply map_eq | done]).
    rewrite Hof, Hb, Erd in *. rewrite bool_decide_true in Hs, Hr by done. simpl in *.
    split; [done|]. destruct (decide (n_kind n = Post)) as [|Hp]; [by left|right].
    by rewrite bool_decide_false in Hs.
Qed.

Lemma stable_advance fuel now build db db' :
  advance_loop fuel now build db = Ok db' -> stable build db'.
Proof.
  revert db. induction fuel as [|fuel IH]; intros db H; cbn [advance_loop] in H; [done|].
  pose proof (stable_pass now build db) as Hs.
  destruct (skip_pass now build db) as [sk d1]. cbn [fst snd] in Hs.
  destruct (ready_pass now build d1) as [re d2]. cbn [fst snd] in Hs.
  destruct sk, re; simpl in H; try (by eapply IH). injection H as <-. by apply Hs.
Qed.

(** The status a fenced build leaves a node. *)
Lemma fence_status now build node db k m :
  nodes (fence_unstarted_dag_work now build node db) !! k = Some m ->
  exists m0, nodes db !! k = Some m0 /\ n_build m = n_build m0
    /\ n_status m = if of_build build m0 && other_node node k
         && one_status [NBlocked; NQueued; NOffered] (n_status m0) && no_outcome m0
       then NAborted else n_status m0.
Proof.
  unfold fence_unstarted_dag_work. cbn. rewrite lookup_update_where, map_lookup_imap.
  destruct (nodes db !! k) as [m0|]; [|done]. simpl. rewrite stepped_leaves by done. intros H.
  exists m0. split; [done|]. destruct (_ && no_outcome m0); destruct (_ && bool_decide _) in H;
    by simplify_eq/=.
Qed.

Lemma blocked_open db k n :
  history db -> nodes db !! k = Some n -> n_status n = NBlocked -> n_outcome n = None.
Proof.
  intros Hh Hn Hs. destruct (history_agrees _ Hh _ _ Hn) as (b & i & a & _ & _ & Hag).
  unfold agrees in Hag. rewrite Hs in Hag. destruct (n_outcome n); [|done].
  by destruct (a_status a).
Qed.

Lemma stable_fence now build node db n :
  history db -> nodes db !! node = Some n -> settled_node (n_status n) = true ->
  stable build (fence_unstarted_dag_work now build node db).
Proof.
  intros Hh Hnode Hset k m Hm Hof Hb. exfalso.
  destruct (fence_status _ _ _ _ _ _ Hm) as (m0 & Hm0 & Eb & Es). rewrite Hb in Es.
  unfold other_node in Es. destruct (String.eqb_spec k node) as [->|Hne].
  - simplify_eq. rewrite andb_false_r in Es. simpl in Es. by rewrite <- Es in Hset.
  - unfold of_build in *. rewrite <- Eb, Hof in Es. simpl in Es.
    destruct (_ && _) eqn:E in Es; [done|]. rewrite <- Es in E. simpl in E.
    rewrite no_outcome_absent, (blocked_open db k m0) in E; done.
Qed.

(** An attempt that may be closed: leased, or set aside for reconciliation. *)
Definition closable (s : AttemptStatus) : bool :=
  match s with AReconciliation => true | _ => leased_attempt s end.

Lemma unflagged_open n b a :
  agrees n b a -> flagged n b = false -> closable (a_status a) = true ->
  n_outcome n = None /\ one_status [NOffered; NRunning; NReconciliation] (n_status n) = true.
Proof.
  unfold agrees. intros Hag Hf. rewrite Hf in Hag. revert Hag.
  destruct (a_status a), (n_status n), (n_outcome n); done.
Qed.

Section Closing.
Variables (now : Z) (retry attempt : Uuid) (a : Attempt) (n : Node) (b b' : Build)
  (outcome : TerminalOutcome) (FA : Attempt -> Attempt) (db dbm db' : Db).
Hypotheses (Hh : history db) (Hi : newest db (a_node a) attempt a)
  (Hn : nodes db !! a_node a = Some n) (Hag : agrees n b a) (Hcl : closable (a_status a) = true)
  (HFA : forall x, same_identity x (FA x)) (Hdone : a_status (FA a) = outcome_attempt outcome)
  (Hbe : beside attempt FA db dbm) (Hreq : same_request b b').

Lemma closed_dead : live (a_status (FA a)) = false.
Proof. rewrite Hdone. by destruct outcome. Qed.

Lemma closed_live : live (a_status (FA a)) = true -> live (a_status a) = true.
Proof. by rewrite closed_dead. Qed.

(** The node takes the outcome of its attempt. *)
Lemma closing_settles D FN :
  (forall m, same_node m (FN m)) -> (forall m, n_status (FN m) = outcome_node outcome) ->
  settles D (n_build n) -> (n_outcome (FN n) = n_outcome n \/ decides D (n_build n)) ->
  tick D db (update_nodes now (is_row (a_node a)) FN dbm).
Proof.
  intros HFN Hst HD HO. eapply tick_one; try done.
  - apply closed_live.
  - intros k m Hk. unfold is_row. by apply String.eqb_neq.
  - intros b1 b0 _ _ Hag0. rewrite stepped_leaves.
    + unfold is_row. rewrite String.eqb_refl. unfold turns, turn. rewrite Hst, Hdone.
      split; [|split; [done | naive_solver]]. revert Hag0 Hcl. unfold agrees.
      destruct (a_status a), (n_status n); try done; by destruct outcome.
    + intros m. rewrite Hst. by destruct outcome.
Qed.

Lemma closing_calm : n_outcome n <> None -> tick nowhere db dbm.
Proof.
  intros Ho. eapply tick_beside; try done; [apply closed_live|]. intros b0 Hag0. unfold turns, turn.
  split; [|by apply scoped_same]. rewrite Hdone. revert Hag0 Hcl. unfold agrees.
  destruct (n_outcome n); [|done]. simpl.
  destruct (a_status a), (n_status n); try done; destruct outcome; simpl; try done; intros ->; done.
Qed.

Lemma closing_retries d :
  absent (b_cancelled_at b') = true -> absent (n_cancelled_at n) = true -> outcome = OFailed ->
  retry_node now (a_node a) attempt retry (a_ordinal a) dbm = Ok d ->
  exists n', reopened (a_node a) retry db d /\ nodes d !! a_node a = Some n'
    /\ n_status n' = if ready db (a_node a) then NQueued else NBlocked.
Proof.
  intros Hb Hc -> H. unfold retry_node in H. inv_tx.
  assert (Hfl : flagged n b = false).
  { unfold flagged. rewrite Hc. simpl. destruct (absent (b_cancelled_at b)) eqn:E; [done|].
    by rewrite (proj2 Hreq) in Hb. }
  assert (Hopen : n_outcome n = None /\ one_status [NOffered; NRunning; NReconciliation] (n_status n) = true)
    by (by eapply unflagged_open).
  destruct Hopen as [Hopen Hst].
  match goal with H : insert_attempt _ _ _ = Ok (?r, _) |- _ => rename H into Hins; rename r into ra end.
  assert (Era : ra = if ready db (a_node a) then Some now else None).
  { rewrite <- (ready_ext db dbm) by apply Hbe. eapply (insert_attempt_ready _ _ _ _ _ n Hins).
    - by rewrite (beside_nodes _ _ _ _ Hbe).
    - intros E. by rewrite E in Hst. }
  match goal with |- context [update_nodes now ?PN ?FN d0] =>
    destruct (reopened_insert now (a_node a) retry attempt a FA PN FN
      (queued_attempt now (a_node a) (a_ordinal a + 1) (Some attempt) 1
         (if ready dbm (a_node a) then Some now else None)) ra db dbm d0 n)
      as (Hre & Hn'); try done; pose (N' := FN n) end.
  - apply Hi.
  - by rewrite Hdone.
  - intros k' m Hk. by rewrite (proj2 (String.eqb_neq k' (a_node a)) Hk).
  - rewrite String.eqb_refl, no_outcome_absent. by rewrite Hopen.
  - cbn. destruct ra; auto.
  - cbn. rewrite Era. destruct (ready db (a_node a)) eqn:Erd; [done|]. intros _.
    destruct (not_ready_dep _ _ Erd) as (d & Hd & Ek & _). eauto.
  - eexists. split_and!; [exact Hre | exact Hn'|].
    destruct (translated_row now db (a_node a) n N') as (_ & _ & _ & T1 & T2 & _); try done.
    { cbn. destruct ra; auto. }
    unfold N' in *. cbn in T1, T2. rewrite Era in T1, T2 |- *.
    destruct (ready db (a_node a)); [|by apply T1].
    apply T2; [done|]. unfold enters_queue. cbn. by destruct (n_status n).
Qed.

(** The node as [advance_dag_after_attempt] settles it. *)
Let settled : Db := update_nodes now (is_row (a_node a)) (fun n =>
  settle_node (outcome_node outcome) (outcome_logical outcome) n <| n_cancelled_at := None |>) dbm.

Lemma closing_settled : tick (within (n_build n)) db settled.
Proof. apply closing_settles; try done. by right. Qed.

Lemma closing_fences :
  effect (n_build n) true db (fence_unstarted_dag_work now (n_build n) (a_node a) settled).
Proof.
  apply effect_settled; [| |done].
  - eapply rtc_l; [apply closing_settled | apply ticks_fence].
  - eapply stable_fence; [exact (tick_history _ _ _ closing_settled Hh)|..].
    + unfold settled. rewrite lookup_nodes_update_nodes, (beside_nodes _ _ _ _ Hbe), Hn. simpl.
      rewrite stepped_leaves by (intros; by destruct outcome). unfold is_row.
      rewrite String.eqb_refl. reflexivity.
    + by destruct outcome.
Qed.

Lemma closing_advances (fast : bool) d :
  advance_blocked_nodes now (n_build n)
    (if fast then fail_fast_peers now (n_build n) (a_node a) settled else settled) = Ok d ->
  effect (n_build n) true db d.
Proof.
  unfold advance_blocked_nodes. intros H. apply effect_settled; [|by eapply stable_advance|done].
  eapply rtc_l; [apply closing_settled|].
  etrans; [|by eapply ticks_advance_loop]. destruct fast; [apply ticks_fail_fast | apply rtc_refl].
Qed.

End Closing.

(** What a closed attempt makes of its build. *)
Lemma advance_effect now retry attempt a n b outcome FA db dbm db' :
  history db -> newest db (a_node a) attempt a -> nodes db !! a_node a = Some n ->
  builds db !! n_build n = Some b -> agrees n b a -> closable (a_status a) = true ->
  (forall x, same_identity x (FA x)) -> a_status (FA a) = outcome_attempt outcome ->
  beside attempt FA db dbm ->
  advance_or_settle now retry (n_build n) (a_node a) attempt outcome dbm = Ok db' ->
  effect (n_build n) (b_dag_mode b) db db'.
Proof.
  intros Hh Hi Hn Hb Hag Hcl HFA Hdone Hbe H.
  destruct (forall2_right _ _ _ _ (beside_builds _ _ _ _ Hbe _) Hb) as (b' & Hb' & Hreq).
  unfold advance_or_settle, advance_dag_after_attempt in H.
  rewrite Hb', (beside_nodes _ _ _ _ Hbe), Hn, (beside_attempts _ _ _ _ Hbe), (proj1 Hi) in H.
  simpl in H. rewrite String.eqb_refl in H. inv_tx; simpl.
  - (* not a DAG *)
    apply effect_single; [|rewrite <- (proj1 Hreq); by apply negb_true_iff].
    unfold settle_single. etrans; [|apply ticks_kept, kept_update_builds; by repeat split].
    apply rtc_once. eapply (closing_settles now attempt a n outcome FA); try done. by left.
  - (* retry *)
    unfold node_cancelled in *. bool_prop. rewrite present_absent in *. bool_prop.
    rewrite (proj1 (proj2 (HFA a))) in *.
    destruct (closing_retries now retry attempt a n b b' outcome FA db dbm Hi Hn Hag Hcl HFA Hdone
      Hbe Hreq a2) as (n' & Hre & Hn' & Hst); try done; [by eapply bool_decide_eq_true|].
    eapply (effect_retry _ _ _ _ (a_node a) retry a2); try done.
    + etrans; [apply kept_event | by eapply derive_build_outcome_kept].
    + intros i o Ho. destruct (newest_unique _ _ _ _ _ _ Hh Hi Ho) as [_ <-].
      revert Hag Hcl. unfold agrees. by destruct (a_status a), (n_status n).
  - (* the node has its outcome already *)
    apply effect_calm, rtc_once. eapply (closing_calm attempt a n outcome); try done.
    intros E. unfold no_outcome in *. rewrite E in *. done.
  - (* the pipeline is disabled *)
    rewrite <- (proj1 Hreq). bool_prop. match goal with H : b_dag_mode b' = true |- _ => rewrite H end.
    eapply effect_kept; [apply kept_event|]. eapply effect_kept; [by eapply derive_build_outcome_kept|].
    by eapply closing_fences.
  - (* the build advances *)
    rewrite <- (proj1 Hreq). bool_prop. match goal with H : b_dag_mode b' = true |- _ => rewrite H end.
    eapply effect_kept; [apply kept_event|]. eapply effect_kept; [by eapply derive_build_outcome_kept|].
    by eapply (closing_advances now attempt a n outcome FA db dbm).
Qed.

End Operations.
