(* ===== verification/NodeOperations.v ===== *)
(** * The operations as changes of the node graph

    Every operation but an admission and an operator's retry is a sequence of
    [change]s: ticks that settle nothing, and the effects of NodeHistory. *)

From stdpp Require Import base gmap sets list strings pretty relations.
From Stdlib Require Import ZArith Lia.
From S2P Require Import Prelude Text Bytes Domain DagContract DagMatrix StoreTables DagRuntime.
From S2P Require Import WorkspaceStore Sequential.
From S2P Require Import Scheduler Attempts Lifecycle StoreFrames AttemptMoves History NodeTurns.
From S2P Require Import NodeHistory.

Open Scope Z_scope.

Inductive change (db db' : Db) : Prop :=
| change_calm : tick nowhere db db' -> change db db'
| change_effect build b : builds db !! build = Some b -> effect build (b_dag_mode b) db db' ->
    change db db'.

Lemma change_history db db' : change db db' -> history db -> history db'.
Proof. intros [H|build b _ H]; [by eapply tick_history | by eapply effect_history]. Qed.

Lemma changes_history db db' : rtc change db db' -> history db -> history db'.
Proof. induction 1; [done|]. intros Hh. by eapply IHrtc, change_history. Qed.

Lemma changes_calm db db' : rtc (tick nowhere) db db' -> rtc change db db'.
Proof. apply rtc_congruence with (f := fun d => d). intros x y. apply change_calm. Qed.

Lemma changes_kept db db' : kept db db' -> rtc change db db'.
Proof. intros H. apply changes_calm. by apply ticks_kept. Qed.

(** Tables outside the node graph. *)
Lemma tick_tables D db db' :
  nodes db' = nodes db -> attempts db' = attempts db -> deps db' = deps db ->
  (forall k, option_Forall2 same_request (builds db !! k) (builds db' !! k)) -> tick D db db'.
Proof.
  intros En Ea Ed Hb. apply (tick_rows D db db' (fun _ n => n) (fun _ a => a)); try done.
  - intros k. rewrite En. by destruct (nodes db !! k).
  - intros i. rewrite Ea. by destruct (attempts db !! i).
  - intros. by apply turns_refl.
Qed.

Lemma changes_tables db db' :
  nodes db' = nodes db -> attempts db' = attempts db -> deps db' = deps db ->
  builds db' = builds db -> rtc change db db'.
Proof.
  intros En Ea Ed Eb. apply rtc_once, change_calm, tick_tables; [done..|]. intros k. rewrite Eb.
  apply builds_still.
Qed.

Section Operations.
Context `{PG : Postgres} `{DX : DagExternal} `{WT : WorkspaceTransfer}.

(** ** Claims *)

(** No blocked node is left in a build whose waiting work was dropped. *)
Lemma stable_fail_orphan now db row db' :
  history db -> fail_orphan now db row = Ok db' -> stable row.1 db'.
Proof.
  unfold fail_orphan. destruct row as [build agent]. intros Hh H. simpl.
  eapply stable_kept; [by eapply record_terminal_notifications_kept|].
  eapply stable_kept; [apply kept_event|].
  eapply stable_kept; [apply kept_update_builds; by repeat split|].
  intros k n Hn Hof Hbl. exfalso. rewrite lookup_nodes_update_nodes in Hn.
  change (nodes (update_attempts ?P ?f db)) with (nodes db) in Hn.
  destruct (nodes db !! k) as [m|] eqn:Hm; [|done]. simpl in Hn. injection Hn as <-.
  rewrite stepped_leaves in Hbl, Hof by done. destruct (in_build _ _ _ _) eqn:E; [done|].
  unfold in_build in E. rewrite Hof, Hbl in E. simpl in E.
  rewrite no_outcome_absent, (blocked_open db k m) in E; done.
Qed.

Definition dag_build (db : Db) (build : Uuid) : Prop :=
  exists b, builds db !! build = Some b /\ b_dag_mode b = true.

Lemma ticks_dag_build D db db' build :
  rtc (tick D) db db' -> dag_build db build -> dag_build db' build.
Proof.
  induction 1 as [|d1 d2 d3 Ht _ IH]; [done|]. intros (b & Hb & Hd). apply IH.
  destruct (forall2_right _ _ _ _ (tick_build _ _ _ Ht build) Hb) as (b' & Hb' & E & _).
  exists b'. split; [done|congruence].
Qed.

Lemma changes_fail_orphans now l db db' :
  history db -> (forall row, row ∈ l -> dag_build db row.1) ->
  try_fold (fail_orphan now) db l = Ok db' -> rtc change db db'.
Proof.
  revert db. induction l as [|row l IH]; intros db Hh Hl H; cbn [try_fold] in H; inv_tx; [apply rtc_refl|].
  match goal with H : fail_orphan _ _ _ = Ok ?d |- _ => rename H into Hf; rename d into d1 end.
  pose proof (ticks_fail_orphan _ _ _ _ Hf) as Ht.
  destruct (Hl row ltac:(by left)) as (b & Hb & Hd).
  eapply rtc_l; [eapply (change_effect _ _ row.1 b); [done|]; apply effect_settled;
    [done | by eapply stable_fail_orphan | done]|].
  apply IH; [by eapply ticks_history| |done].
  intros r Hr. eapply ticks_dag_build; [done|]. apply Hl. by right.
Qed.

Lemma changes_offer now req node attempt a n b db r db' :
  history db -> attempts db !! attempt = Some a -> a_node a = node -> nodes db !! node = Some n ->
  builds db !! n_build n = Some b -> a_status a = AQueued -> n_status n = NQueued ->
  offer now req (n_build n) node attempt a db = Ok (r, db') -> rtc change db db'.
Proof.
  intros Hh Ha <- Hn Hb Hs Hns. unfold offer. intros H. inv_tx.
  eapply rtc_r; [|apply change_calm, kept_tick, kept_event].
  eapply rtc_r; [|apply change_calm, kept_tick, kept_update_builds; by repeat split].
  destruct (live_newest db attempt a n b) as [Hi Hag]; try done; [by rewrite Hs|].
  apply rtc_once, change_calm.
  eapply tick_one; [exact Hh|exact Hi|exact Hn|apply (beside_set attempt)|done|done|..].
  - intros _. by rewrite Hs.
  - intros k m Hk. by apply String.eqb_neq.
  - intros b1 b0 Eb1 Hag1 Hag0. rewrite stepped_leaves by done. unfold is_row. rewrite String.eqb_refl.
    turn_cases n b0 a.
Qed.

Lemma changes_claim now locked req session db r db' :
  history db -> claim_next_with_session now locked req session db = Ok (r, db') -> rtc change db db'.
Proof.
  intros Hh. unfold claim_next_with_session. intros H. inv_tx; try apply rtc_refl.
  all: destruct (candidate_row _ _ _ _ _ _ Hm) as (a' & b & Ha & En & Hn & Hb' & Hs & Hcl).
  all: unfold claimable, schedulable in Hcl; bool_prop; simplify_eq.
  all: match goal with H : bool_decide (n_status _ = NQueued) = true |- _ =>
    apply bool_decide_eq_true in H end.
  - match goal with H : fail_orphaned_affinity_builds _ _ = Ok ?d |- _ =>
      rename H into Hf; rename d into d1 end.
    assert (Hc : rtc change db d1).
    { eapply changes_fail_orphans; [done| |exact Hf]. intros [build agent] Hin.
      apply list_elem_of_omap in Hin as ([k x] & Hk%elem_of_map_to_list & E). inv_tx.
      exists x. split; [done|]. unfold orphaned in *. destruct (b_affinity_agent x); [|done].
      by bool_prop. }
    etrans; [exact Hc|]. eapply changes_offer; [by eapply changes_history|..]; done.
  - eapply changes_offer; [by eapply changes_history|..]; done.
Qed.

(** ** Leases *)

Lemma changes_accept now attempt fence epoch agent session db r db' :
  history db -> accept_offer_with_session now attempt fence epoch agent session db = Ok (r, db') ->
  rtc change db db'.
Proof.
  intros Hh. unfold accept_offer_with_session. intros H. inv_tx; try apply rtc_refl.
  apply attempt_rows_lookup in Hm as (Ha & Hn & Hb'). bool_prop.
  match goal with H : bool_decide (a_status _ = AOffered) = true |- _ =>
    apply bool_decide_eq_true in H; rename H into Hs end.
  eapply rtc_r; [|apply change_calm, kept_tick, kept_event].
  destruct (live_newest db attempt a0 n b) as [Hi Hag]; try done; [by rewrite Hs|].
  apply rtc_once, change_calm. unfold set_node_status.
  eapply tick_one; [exact Hh|exact Hi|exact Hn|apply (beside_set attempt)|done|done|..].
  - intros _. by rewrite Hs.
  - intros k m Hk. by apply String.eqb_neq.
  - intros b1 b0 Eb1 Hag1 Hag0. rewrite stepped_leaves by done. unfold is_row. rewrite String.eqb_refl.
    turn_cases n b0 a0.
Qed.

(** A statement that keeps every status. *)
Lemma tick_same_status D PA FA db :
  (forall a, same_identity a (FA a) /\ a_status (FA a) = a_status a) ->
  tick D db (update_attempts PA FA db).
Proof.
  intros HF. apply tick_attempts.
  - intros a. apply HF.
  - intros i a _ _. by rewrite (proj2 (HF a)).
  - intros k n b i a Hn Hb Hi Hag _. pose proof (turns_refl D db k n b a Hag) as Ht.
    unfold turns in *. by rewrite (proj2 (HF a)).
Qed.

Lemma changes_rejection attempt fence agent cause db :
  rtc change db (record_lease_renewal_rejection attempt fence agent cause db).
Proof. apply changes_tables; unfold record_lease_renewal_rejection; by repeat case_match. Qed.

Lemma changes_renew now attempt fence epoch agent session lease db r db' :
  renew_attempt_lease_with_session now attempt fence epoch agent session lease db = Ok (r, db') ->
  rtc change db db'.
Proof.
  unfold renew_attempt_lease_with_session. intros H. inv_tx; try apply changes_rejection;
    try apply rtc_refl.
  all: apply rtc_once, change_calm; by apply tick_same_status.
Qed.

Lemma changes_run now attempt fence epoch agent session db r db' :
  history db -> mark_attempt_running_with_session now attempt fence epoch agent session db = Ok (r, db') ->
  rtc change db db'.
Proof.
  intros Hh. unfold mark_attempt_running_with_session. intros H. inv_tx; try apply rtc_refl. bool_prop.
  match goal with H : one_status _ (a_status a0) = true |- _ => rename H into Hone end.
  assert (Hs : a_status a0 = AAccepted) by (destruct (a_status a0); done). clear Hone.
  eapply rtc_r; [|apply change_calm, kept_tick, kept_event].
  destruct (history_build _ Hh _ _ Hm1) as [b Hb'].
  destruct (live_newest db attempt a0 n b) as [Hi Hag]; try done; [by rewrite Hs|].
  apply rtc_once, change_calm.
  eapply tick_one; [exact Hh|exact Hi|exact Hm1|apply (beside_set attempt)|done|done|..].
  - intros _. by rewrite Hs.
  - intros k m Hk. by rewrite (proj2 (String.eqb_neq k (a_node a0)) Hk).
  - intros b1 b0 Eb1 Hag1 Hag0. rewrite stepped_leaves by done. rewrite String.eqb_refl. turn_cases n b0 a0.
Qed.

(** ** Attempts that close or are set aside *)

(** The rows of a leased attempt. *)
Lemma leased_rows db attempt a n b :
  history db -> attempt_rows db attempt = Some (a, n, b) -> leased_attempt (a_status a) = true ->
  newest db (a_node a) attempt a /\ nodes db !! a_node a = Some n
  /\ builds db !! n_build n = Some b /\ agrees n b a /\ closable (a_status a) = true.
Proof.
  intros Hh Hm Hl. apply attempt_rows_lookup in Hm as (Ha & Hn & Hb).
  destruct (live_newest db attempt a n b) as [Hi Hag]; try done; [by apply live_leased|].
  split_and!; try done. by destruct (a_status a).
Qed.

Lemma changes_close now retry attempt a n b outcome FA db dbm db' :
  beside attempt FA db dbm ->
  advance_or_settle now retry (n_build n) (a_node a) attempt outcome dbm = Ok db' ->
  history db -> newest db (a_node a) attempt a -> nodes db !! a_node a = Some n ->
  builds db !! n_build n = Some b -> agrees n b a -> closable (a_status a) = true ->
  (forall x, same_identity x (FA x)) -> a_status (FA a) = outcome_attempt outcome ->
  rtc change db db'.
Proof.
  intros. apply rtc_once, (change_effect _ _ (n_build n) b); [done|]. by eapply advance_effect.
Qed.

Lemma tick_park now attempt a n keep db :
  history db -> newest db (a_node a) attempt a -> nodes db !! a_node a = Some n ->
  leased_attempt (a_status a) = true ->
  rtc change db (park now (n_build n) (a_node a) attempt keep db).
Proof.
  intros Hh Hi Hn Hl. unfold park.
  eapply rtc_r; [|apply change_calm, kept_tick, kept_update_builds; by repeat split].
  apply rtc_once, change_calm. unfold set_node_status.
  eapply tick_one; [exact Hh|exact Hi|exact Hn|apply (beside_set attempt)|done|done|..].
  - done.
  - intros k m Hk. by apply String.eqb_neq.
  - intros b1 b0 Eb1 Hag1 Hag0. rewrite stepped_leaves by done. unfold is_row. rewrite String.eqb_refl.
    turn_cases n b0 a.
Qed.

Lemma changes_release now attempt a n b req u c db :
  history db -> newest db (a_node a) attempt a -> nodes db !! a_node a = Some n ->
  leased_attempt (a_status a) = true -> agrees n b a -> builds db !! n_build n = Some b ->
  (req = false -> flagged n b = false) ->
  rtc change db (release_expired now (n_build n) (a_node a) attempt a req u c db).
Proof.
  intros Hh Hi Hn Hl Hag Hb Hreq. unfold release_expired.
  eapply rtc_r; [|apply change_calm, kept_tick, kept_event].
  assert (rtc change db (set_node_status now (a_node a) (if req then NReconciliation else NQueued)
    (set_attempt attempt (fun a => a <| a_status := if req then AReconciliation else AQueued |>
       <| a_owner := None |> <| a_expires := None |>) db))) as Hc.
  { apply rtc_once, change_calm. unfold set_node_status.
    eapply tick_one; [exact Hh|exact Hi|exact Hn|apply (beside_set attempt)|done|done|..].
    - intros _. by apply live_leased.
    - intros k m Hk. by apply String.eqb_neq.
    - intros b1 b0 Eb1 Hag1 Hag0. simplify_eq. destruct req.
      + rewrite stepped_leaves by done. unfold is_row. rewrite String.eqb_refl. turn_cases n b0 a.
      + destruct (unflagged_open n b a) as [Ho Hs]; [done | by apply Hreq | by destruct (a_status a)|].
        unfold stepped, is_row. rewrite String.eqb_refl.
        destruct (translated_row now db (a_node a) n (n <| n_status := NQueued |>))
          as (_ & T2 & _ & _ & T5 & _); [by left|done|done|].
        unfold turns, scoped, turn.
        rewrite T2, T5; [|done|unfold enters_queue; by destruct (n_status n)].
        split; [|split; [|by right; left]]; by destruct (ready db (a_node a)), (n_status n). }
  destruct req; (eapply rtc_r; [exact Hc|]); apply change_calm, kept_tick, kept_update_builds;
    by repeat split.
Qed.

Lemma changes_expire now locked retry db r db' :
  history db -> requeue_one_expired now locked retry db = Ok (r, db') -> rtc change db db'.
Proof.
  intros Hh. unfold requeue_one_expired. intros H.
  destruct (first_row expires_before (expired_rows now locked db)) as [[attempt a']|] eqn:Hm;
    [|inv_tx; apply rtc_refl].
  apply first_row_elem, expired_leased in Hm as (Ha & Hl & _).
  destruct (attempt_rows db attempt) as [[[a n] b]|] eqn:Hm0; [|done].
  pose proof (attempt_rows_lookup _ _ _ _ _ Hm0) as (Ha' & _). simplify_eq.
  destruct (leased_rows _ _ _ _ _ Hh Hm0 Hl) as (Hi & Hn & Hb & Hag & Hcl).
  match type of H with context [update_effects ?P ?f db] => set (d1 := update_effects P f db) in * end.
  assert (Hc1 : rtc change db d1) by (by apply changes_tables).
  etrans; [exact Hc1|]. pose proof (changes_history _ _ Hc1 Hh) as Hh1.
  inv_tx.
  - unfold abort_expired in *. inv_tx.
    eapply rtc_r; [|apply change_calm, kept_tick, kept_event].
    eapply (changes_close now retry attempt _ n b OAborted); [apply (beside_set attempt)|done..].
  - apply (changes_release now attempt _ n b); try done. intros Hreq.
    rewrite Hreq, andb_true_r in *. bool_prop. unfold node_cancelled, flagged in *.
    rewrite present_absent in *. bool_prop. by rewrite H1, H3.
Qed.

Lemma changes_publish now retry attempt a n b agent outcome summary db db' :
  history db -> newest db (a_node a) attempt a -> nodes db !! a_node a = Some n ->
  builds db !! n_build n = Some b -> agrees n b a -> closable (a_status a) = true ->
  publish now retry (n_build n) (a_node a) attempt agent outcome summary db = Ok db' ->
  rtc change db db'.
Proof.
  intros Hh Hi Hn Hb Hag Hcl H. unfold publish in H.
  destruct (bool_decide (outcome = OSucceeded)); inv_tx.
  - eapply (changes_close now retry attempt a n b outcome);
      [by eapply (kept_beside attempt), record_successful_agent_kept | done..].
  - eapply (changes_close now retry attempt a n b outcome); [apply (beside_set attempt) | done..].
Qed.

Lemma commit_request id b t o b' : commit id b t o = Ok b' -> same_request b b'.
Proof. intros H%commit_frame. rewrite H. by split. Qed.

Lemma changes_finalize now retry attempt fence epoch agent session outcome summary aware db r db' :
  history db ->
  finalize_attempt_with_session now retry attempt fence epoch agent session outcome summary aware db
    = Ok (r, db') -> rtc change db db'.
Proof.
  intros Hh. unfold finalize_attempt_with_session. intros H. inv_tx; try apply rtc_refl.
  all: match goal with H : attempt_rows _ _ = Some (?a', _, _) |- _ =>
    pose proof (attempt_rows_lookup _ _ _ _ _ H) as (Ha' & _); simplify_eq; rename H into Hrows end.
  all: bool_prop; match goal with H : working (a_status _) = true |- _ => apply working_leased in H;
    destruct (leased_rows _ _ _ _ _ Hh Hrows H) as (Hi & Hn & Hb' & Hag & Hcl) end.
  - eapply rtc_r; [|apply change_calm, kept_tick, kept_event]. by apply tick_park.
  - eapply rtc_r; [|apply change_calm, kept_tick, kept_event].
    match goal with H : publish _ _ _ _ _ _ _ _ ?d = _ |- _ => set (d1 := d) in *; rename H into Hp end.
    match goal with H : commit _ _ _ _ = Ok _ |- _ => apply commit_request in H as Hreq end.
    assert (Hc1 : tick nowhere db d1).
    { apply tick_tables; try done. intros k. unfold d1. cbn.
      destruct (decide (k = n_build n)) as [->|Hk].
      - rewrite lookup_insert_eq, Hb'. by constructor.
      - rewrite lookup_insert_ne by done. apply builds_still. }
    eapply rtc_l; [by apply change_calm|].
    eapply (changes_publish now retry attempt _ n); [by eapply tick_history|done|done| | |done|exact Hp].
    + unfold d1. cbn. apply lookup_insert_eq.
    + unfold agrees in *. eapply agree_flag; [|exact Hag]. by apply same_request_flag.
Qed.

Lemma changes_recover now attempt fence epoch agent session phase lease db r db' :
  history db ->
  recover_agent_finalization_with_session now attempt fence epoch agent session phase lease db
    = Ok (r, db') -> rtc change db db'.
Proof.
  intros Hh. unfold recover_agent_finalization_with_session. intros H. inv_tx; try apply rtc_refl.
  all: match goal with H : recoverable_finalization_status (a_status ?x) = true |- _ =>
    rename H into Hrec; rename x into at0 end.
  all: destruct (history_node _ Hh _ _ Hm) as [n Hn]; destruct (history_build _ Hh _ _ Hn) as [b0 Eb0].
  all: destruct (live_newest db attempt at0 n b0) as [Hi Hag]; try done; [by destruct (a_status at0)|].
  all: apply rtc_once, change_calm; eapply tick_beside;
    [exact Hh | exact Hi | exact Hn | apply (beside_set attempt) | done
    | intros _; by destruct (a_status at0) |].
  all: intros b1 Hag1; turn_cases n b1 at0.
Qed.

Lemma changes_discharge attempt fence agent reason db :
  rtc change db (record_recovered_discharge attempt fence agent reason db).
Proof. apply changes_tables; unfold record_recovered_discharge; by repeat case_match. Qed.

Lemma changes_complete now retry attempt fence epoch agent session outcome db r db' :
  history db ->
  complete_agent_cancellation now retry attempt fence epoch agent session outcome db = Ok (r, db') ->
  rtc change db db'.
Proof.
  intros Hh. unfold complete_agent_cancellation. intros H. inv_tx; try apply changes_discharge;
    try apply rtc_refl.
  all: bool_prop; match goal with H : cancellation_authority _ _ _ _ _ _ _ = true |- _ =>
    apply cancellation_leased in H as [H%working_leased _]; [|by eapply bool_decide_eq_false..];
    match goal with H' : attempt_rows _ _ = _ |- _ =>
      destruct (leased_rows _ _ _ _ _ Hh H' H) as (Hi & Hn & Hb' & Hag & Hcl) end end.
  - eapply rtc_r; [|apply change_calm, kept_tick, kept_event]. by apply tick_park.
  - eapply rtc_r; [|apply change_calm, kept_tick, kept_event].
    eapply (changes_close now retry attempt _ n b OAborted); [apply (beside_set attempt)|done..].
Qed.

(** An attempt in reconciliation that was not retried is the newest. *)
Lemma unretried_newest db attempt a :
  history db -> attempts db !! attempt = Some a ->
  exists_row (fun _ o => bool_decide (a_retry_of o = Some attempt)) (attempts db) = false ->
  newest db (a_node a) attempt a.
Proof.
  intros Hh Ha Hno. apply no_successor_newest; [done..|]. intros i e He En Eo.
  destruct (proj2 (history_order _ Hh _ _ He)) as (j & o & Ho & En' & Eo' & Er).
  { pose proof (proj1 (history_order _ Hh _ _ Ha)). lia. }
  assert (j = attempt) as -> by (eapply (history_unique _ Hh); [done|done|congruence|lia]).
  pose proof (proj1 (exists_row_false _ _) Hno _ _ He) as Hx. simpl in Hx.
  by rewrite bool_decide_true in Hx.
Qed.

Lemma reconcilable_rows db attempt fence outcome a n :
  history db -> attempts db !! attempt = Some a -> nodes db !! a_node a = Some n ->
  reconcilable db attempt fence outcome a = true ->
  newest db (a_node a) attempt a /\ closable (a_status a) = true
  /\ exists b, builds db !! n_build n = Some b /\ agrees n b a.
Proof.
  intros Hh Ha Hn Hr. unfold reconcilable in Hr. bool_prop.
  pose proof (unretried_newest db attempt a Hh Ha ltac:(done)) as Hi.
  destruct (history_agrees _ Hh _ _ Hn) as (b & j & o & Hb & Hj & Hag).
  destruct (newest_unique _ _ _ _ _ _ Hh Hi Hj) as [-> ->]. split; [done|].
  split; [|by exists b].
  match goal with H : bool_decide (a_status o = AReconciliation) = true |- _ =>
    by rewrite (bool_decide_eq_true_1 _ H) end.
Qed.

Lemma changes_reconcile now retry attempt fence actor outcome summary db r db' :
  history db ->
  finalize_reconciled_attempt now retry attempt fence actor outcome summary db = Ok (r, db') ->
  rtc change db db'.
Proof.
  intros Hh. unfold finalize_reconciled_attempt. intros H. inv_tx; try apply rtc_refl.
  all: bool_prop; match goal with
    Ha : attempts _ !! _ = Some _, Hn : nodes _ !! _ = Some _, H : reconcilable _ _ _ _ _ = true |- _ =>
      destruct (reconcilable_rows _ _ _ _ _ _ Hh Ha Hn H) as (Hi & Hcl & b0 & Eb0 & Hag) end.
  all: eapply rtc_r; [|apply change_calm, kept_tick, kept_event].
  - eapply (changes_close now retry attempt _ n b0 outcome);
      [by eapply (kept_beside attempt), record_successful_agent_kept | done..].
  - eapply (changes_close now retry attempt _ n b0 outcome); [apply (beside_set attempt) | done..].
  - eapply (changes_close now retry attempt _ n b0 outcome); [apply (beside_set attempt) | done..].
Qed.

(** ** Cancellation and restoration *)

Lemma stable_cancel_dag now build db r db' :
  history db -> cancel_dag_build now build db = Ok (r, db') ->
  db' = db \/ stable build db'.
Proof.
  intros Hh. unfold cancel_dag_build. intros H. inv_tx; auto. right.
  eapply stable_kept; [by eapply derive_build_outcome_kept|].
  intros k n Hn Hof Hbl. exfalso.
  match type of Hn with nodes (update_attempts ?P ?f ?d) !! k = _ =>
    change (nodes (update_attempts P f d)) with (nodes d) in Hn end.
  cbn in Hn. rewrite lookup_update_where, map_lookup_imap in Hn.
  destruct (nodes db !! k) as [m|] eqn:Hm'; [|done]. simpl in Hn. rewrite stepped_leaves in Hn by done.
  destruct (of_build build m && unstarted m && no_outcome m) eqn:E.
  - destruct (_ && _) in Hn; by simplify_eq/=.
  - assert (of_build build m = true /\ n_status m = NBlocked) as [Hof' Hbl'].
    { destruct (_ && _) in Hn; by simplify_eq/=. }
    unfold unstarted in E. rewrite Hof', Hbl' in E. simpl in E.
    by rewrite no_outcome_absent, (blocked_open db k m) in E.
Qed.

Lemma first_row_most {A} (f : A -> Z) l x :
  first_row (fun l r => f r <? f l) l = Some x -> forall y, y ∈ l -> f y <= f x.
Proof.
  revert x. induction l as [|z l IH]; simpl; intros x H y Hy; [done|].
  destruct (first_row _ l) as [w|] eqn:E.
  - assert (f w <= f x /\ f z <= f x) as [Hw Hz] by (destruct (Z.ltb_spec (f z) (f w)); simplify_eq; lia).
    apply elem_of_cons in Hy as [->|Hy]; [done|]. specialize (IH w eq_refl y Hy). lia.
  - simplify_eq. apply elem_of_cons in Hy as [->|Hy]; [lia|].
    destruct l as [|w l]; [by apply elem_of_nil in Hy|]. simpl in E.
    destruct (first_row _ l) as [w'|]; [destruct (_ <? _)|]; done.
Qed.

(** The newest attempt of a build is the newest of its node. *)
Lemma newest_attempt_rows db build attempt a :
  newest_attempt db build = Some (attempt, a) ->
  exists n, nodes db !! a_node a = Some n /\ n_build n = build /\ newest db (a_node a) attempt a.
Proof.
  intros H. unfold newest_attempt in H. pose proof (first_row_elem _ _ _ H) as Hin.
  apply list_elem_of_In, List.filter_In in Hin as [Hin HP]. simpl in HP.
  apply list_elem_of_In, elem_of_map_to_list in Hin. unfold joined in HP.
  destruct (nodes db !! a_node a) as [n|] eqn:Hn; [|done]. exists n.
  assert (Hb : n_build n = build) by (unfold in_build in HP; bool_prop; by apply String.eqb_eq).
  split_and!; [done|done|]. split_and!; [done|done|]. intros j o Ho Ek.
  apply (first_row_most (fun ka : Uuid * Attempt => a_ordinal (snd ka)) _ _ H (j, o)).
  apply list_elem_of_In, List.filter_In. split; [by apply list_elem_of_In, elem_of_map_to_list|].
  unfold joined, in_build. simpl. rewrite Ek, Hn. unfold of_build. by rewrite Hb, String.eqb_refl.
Qed.

(** A build of one node that has not started. *)
Lemma tick_cancel_queued now build attempt a n b db :
  history db -> newest db (a_node a) attempt a -> nodes db !! a_node a = Some n ->
  n_build n = build -> builds db !! build = Some b -> b_dag_mode b = false ->
  tick (alone build) db
    (update_nodes now (fun id n => String.eqb id (a_node a) && bool_decide (n_status n = NQueued))
       (fun n => n <| n_status := NAborted |>)
       (update_attempts (fun id a => String.eqb id attempt && bool_decide (a_status a = AQueued))
          (abort_attempt now "cancelled_before_execution") db)).
Proof.
  intros Hh Hi Hn <- Hb Hdag. apply tick_pair; try done.
  intros k m b0 i o Hm Hb0 Ho Hag. rewrite stepped_leaves by done.
  destruct (String.eqb_spec k (a_node a)) as [->|Hk]; simpl.
  - destruct (newest_unique _ _ _ _ _ _ Hh Hi Ho) as [<- <-].
    assert (m = n) as -> by congruence. assert (b0 = b) as -> by congruence.
    rewrite String.eqb_refl. simpl. assert (n_status n <> NBlocked) as Hnb.
    { intros E. by rewrite (history_single _ Hh _ _ _ Hn Hb E) in Hdag. }
    turn_cases n b a. by destruct Hnb.
  - assert (i <> attempt) as Hne.
    { intros ->. apply Hk. destruct Hi as (Ha & _), Ho as (Ho & <- & _). congruence. }
    rewrite (proj2 (String.eqb_neq i attempt) Hne). simpl. by apply turns_refl.
Qed.

(** A build of one node that runs. *)
Lemma ticks_cancel_running now build attempt a n b db :
  newest db (a_node a) attempt a -> nodes db !! a_node a = Some n -> n_build n = build ->
  builds db !! build = Some b ->
  rtc (tick nowhere) db
    (update_attempts (fun id a => String.eqb id attempt
         && one_status [AOffered; AAccepted; ARunning; AFinalizing] (a_status a))
       (fun a => a <| a_status := ACancelling |>)
       (update_builds (is_row build) (fun b => b <| b_cancelled_at := Some now |>) db)).
Proof.
  intros Hi Hn <- Hb.
  eapply rtc_l; [apply (tick_update_builds _ (is_row (n_build n))
    (fun b => b <| b_cancelled_at := Some now |>)); done|].
  apply rtc_once, tick_attempts; [done|..].
  - intros i o _ HP _. bool_prop. by destruct (a_status o).
  - intros k m b0 i o Hm Hb0 Ho Hag HP. bool_prop. subst.
    assert (k = a_node a /\ o = a) as [-> ->].
    { destruct Hi as (Ha & _ & _), Ho as (Ho & <- & _). cbn in Ho. split; congruence. }
    cbn in Hm. assert (m = n) as -> by congruence. rewrite lookup_builds_update_builds, Hb in Hb0. simpl in Hb0.
    unfold is_row in Hb0. rewrite String.eqb_refl in Hb0. simplify_eq. turn_cases n b a.
Qed.

Lemma changes_cancel now project build actor db r db' :
  history db -> request_cancellation_decision_as now project build actor db = Ok (r, db') ->
  rtc change db db'.
Proof.
  intros Hh. unfold request_cancellation_decision_as. intros H. inv_tx; try apply rtc_refl.
  - match goal with H : cancel_dag_build _ _ _ = Ok _ |- _ => rename H into Hc end.
    eapply rtc_r; [|apply change_calm, kept_tick, kept_event].
    destruct (stable_cancel_dag _ _ _ _ _ Hh Hc) as [->|Hst]; [apply rtc_refl|].
    apply rtc_once, (change_effect _ _ build b); [done|].
    apply effect_settled; [by eapply ticks_cancel_dag | done | done].
  - match goal with H : newest_attempt _ _ = Some _ |- _ =>
      destruct (newest_attempt_rows _ _ _ _ H) as (n & Hn & Hbn & Hi) end.
    eapply rtc_r; [|apply change_calm, kept_tick, kept_event].
    destruct (bool_decide (b_status b = BQueued)); [|by eapply changes_calm, ticks_cancel_running].
    apply rtc_once, (change_effect _ _ build b); [done|]. apply effect_single; [|done].
    eapply rtc_r; [|apply (tick_update_builds _ (is_row build)); done].
    by eapply rtc_once, tick_cancel_queued.
Qed.

(** A leased row of the node the loop over the affected attempts remembers. *)
Definition still_leased (db : Db) (row : Uuid * Attempt) : Prop :=
  exists a, attempts db !! row.1 = Some a /\ leased_attempt (a_status a) = true
    /\ a_node a = a_node row.2.

Lemma changes_restore_attempt now epoch backup lsn db row :
  history db -> still_leased db row ->
  rtc change db (restore_attempt now epoch backup lsn db row).
Proof.
  intros Hh (a & Ha & Hl & En). unfold restore_attempt. destruct row as [i x]. simpl in *.
  rewrite <- En. destruct (nodes db !! a_node a) as [n|] eqn:Hn; [|apply rtc_refl].
  eapply rtc_r; [|apply change_calm, kept_tick, kept_event].
  transitivity (park now (n_build n) (a_node a) i false db); [|by apply changes_tables].
  apply tick_park; try done. by apply (history_live _ Hh), live_leased.
Qed.

Lemma still_leased_other now epoch backup lsn db row row' :
  row'.1 <> row.1 -> still_leased db row' ->
  still_leased (restore_attempt now epoch backup lsn db row) row'.
Proof.
  intros Hne (a & Ha & Hl & En).
  destruct (restore_attempt_row now epoch backup lsn db row _ Hne) as [g Hg].
  exists (readied (g a) a). by rewrite Hg, Ha.
Qed.

Lemma changes_restore_all now epoch backup lsn l db :
  history db -> NoDup l.*1 -> (forall x, x ∈ l -> still_leased db x) ->
  rtc change db (foldl (restore_attempt now epoch backup lsn) db l).
Proof.
  revert db. induction l as [|x l IH]; intros db Hh Hnd Hl; simpl; [apply rtc_refl|].
  apply NoDup_cons in Hnd as [Hx Hnd].
  assert (Hc : rtc change db (restore_attempt now epoch backup lsn db x))
    by (apply changes_restore_attempt; [done | apply Hl; by left]).
  etrans; [exact Hc|]. apply IH; [by eapply changes_history|done|].
  intros y Hy. apply still_leased_other; [|apply Hl; by right].
  intros E. apply Hx. rewrite <- E. by apply list_elem_of_fmap_2.
Qed.

Lemma changes_restore now others backup reason db r db' :
  history db -> activate_restore_epoch now others backup reason db = Ok (r, db') -> rtc change db db'.
Proof.
  intros Hh. unfold activate_restore_epoch. intros H. inv_tx; try apply rtc_refl.
  match goal with |- rtc change db (foldl _ ?d ?l) => assert (Hc : rtc change db d)
    by (by apply changes_tables); etrans; [exact Hc|] end.
  apply changes_restore_all; [by eapply changes_history|..].
  - apply sorted_rows_nodup.
  - intros [i a] [Ha HP]%sorted_rows_elem. exists a.
    apply andb_true_iff in HP as [HP _]. split_and!; [exact Ha | exact HP | done].
Qed.

End Operations.
