(* ===== verification/NodeReachable.v ===== *)
(** * Reachable states

    The operations left: an operator's retry, which reopens a node and the nodes
    that were skipped behind it, and the two admissions. Every reachable state
    has the history of History, and nodes outside DAGs have no outcome. *)

From stdpp Require Import base gmap sets list strings pretty relations.
From Stdlib Require Import ZArith Lia.
From S2P Require Import Prelude Text Bytes Domain DagContract DagMatrix StoreTables DagRuntime.
From S2P Require Import WorkspaceStore Sequential.
From S2P Require Import Scheduler Attempts Lifecycle StoreFrames AttemptMoves History NodeTurns.
From S2P Require Import NodeHistory NodeOperations.

Open Scope Z_scope.

Definition plain (db : Db) : Prop :=
  forall k n b, nodes db !! k = Some n -> builds db !! n_build n = Some b -> b_dag_mode b = false ->
    n_outcome n = None.

Definition sound (db : Db) : Prop := history db /\ plain db.

Lemma tick_sound D db db' :
  (forall build, decides D build -> dag_build db build) -> tick D db db' -> sound db -> sound db'.
Proof.
  intros HD Ht [Hh Hp]. split; [by eapply tick_history|]. intros k n' b' Hn' Hb' Hd.
  destruct (forall2_left _ _ _ _ (tick_node _ _ _ Ht _) Hn') as (n & Hn & [E _]).
  destruct (history_agrees _ Hh _ _ Hn) as (b & i & a & Hb & Hi & Hag).
  destruct (forall2_right _ _ _ _ (tick_build _ _ _ Ht _) Hb) as (b2 & Hb2 & Ed & _).
  assert (b2 = b') as -> by congruence.
  destruct (forall2_right _ _ _ _ (tick_attempt _ _ _ Ht _) (proj1 Hi)) as (a' & Ha' & _).
  destruct (tick_turn _ _ _ Ht k n n' b b' i a a') as [_ [_ Ho]]; try done.
  destruct Ho as [->|[->|Ho]]; [by eapply Hp; eauto; congruence|done|].
  destruct (HD _ Ho) as (b3 & Hb3 & Hd3). congruence.
Qed.

Lemma ticks_sound D db db' :
  (forall build, decides D build -> dag_build db build) -> rtc (tick D) db db' -> sound db -> sound db'.
Proof.
  intros HD H. revert HD. induction H as [|d1 d2 d3 H _ IH]; [done|]. intros HD Hs.
  apply IH; [|by eapply tick_sound]. intros build Hb. eapply ticks_dag_build; [by apply rtc_once|].
  by apply HD.
Qed.

Lemma calm_sound db db' : rtc (tick nowhere) db db' -> sound db -> sound db'.
Proof. intros H. eapply ticks_sound; [|done]. by intros ? []. Qed.

Lemma alone_sound build db db' : rtc (tick (alone build)) db db' -> sound db -> sound db'.
Proof. intros H. eapply ticks_sound; [|done]. by intros ? []. Qed.

Lemma kept_sound db db' : kept db db' -> sound db -> sound db'.
Proof. intros H. apply calm_sound. by apply ticks_kept. Qed.

Lemma reopened_sound k id db db' : reopened k id db db' -> sound db -> sound db'.
Proof.
  intros Hr [Hh Hp]. split; [by eapply reopened_history|]. intros k' n' b' Hn' Hb' Hd.
  destruct (forall2_left _ _ _ _ (reopened_build _ _ _ _ Hr _) Hb') as (b & Hb & Ed & _).
  destruct (decide (k' = k)) as [->|Hk].
  - destruct (reopened_node _ _ _ _ Hr) as (m & m' & Hm & Hm' & _ & _ & Ho & _). by simplify_eq.
  - rewrite (reopened_others _ _ _ _ Hr _ Hk) in Hn'. eapply Hp; [done..|]. congruence.
Qed.

Lemma change_sound db db' : change db db' -> sound db -> sound db'.
Proof.
  intros [H|build b Hb [H|H _ Hd|H _|k id d n n' H Hk _ _ _ _]] Hs.
  - eapply calm_sound; [by apply rtc_once | done].
  - by eapply calm_sound.
  - eapply ticks_sound; [|done|done]. intros ? <-. by exists b.
  - by eapply alone_sound.
  - eapply kept_sound; [done|]. by eapply reopened_sound.
Qed.

Lemma changes_sound db db' : rtc change db db' -> sound db -> sound db'.
Proof. induction 1; [done|]. intros Hs. by eapply IHrtc, change_sound. Qed.

Section Reachable.
Context `{PG : Postgres} `{DX : DagExternal} `{WT : WorkspaceTransfer}.

(** ** Retries *)

Lemma unretried db attempt (lt : Uuid * Attempt -> Uuid * Attempt -> bool) :
  first_row lt (List.filter (fun ko => bool_decide (a_retry_of (snd ko) = Some attempt))
    (map_to_list (attempts db))) = None ->
  exists_row (fun _ o => bool_decide (a_retry_of o = Some attempt)) (attempts db) = false.
Proof.
  intros H%first_row_none. apply exists_row_false. intros k x Hk.
  destruct (bool_decide _) eqn:E; [|done]. exfalso.
  assert (Hin : (k, x) ∈ List.filter (fun ko : Uuid * Attempt =>
    bool_decide (a_retry_of (snd ko) = Some attempt)) (map_to_list (attempts db))).
  { apply list_elem_of_In, List.filter_In. split; [|done].
    by apply list_elem_of_In, elem_of_map_to_list. }
  rewrite H in Hin. by apply elem_of_nil in Hin.
Qed.

Lemma terminalize_sound now attempt a n reason db db' :
  sound db -> newest db (a_node a) attempt a -> nodes db !! a_node a = Some n ->
  terminalize_dead_lettered_reconciliation now attempt (a_node a) (n_build n) reason db = Ok db' ->
  sound db'.
Proof.
  intros [Hh Hp] Hi Hn H. unfold terminalize_dead_lettered_reconciliation in H.
  rewrite (proj1 Hi) in H. destruct (negb _) eqn:Es in H; [by inv_tx|].
  apply negb_false_iff, bool_decide_eq_true in Es.
  match type of H with (if ?c then _ else Ok ?d) = _ => assert (Hd : sound d); [|
    destruct c; inv_tx; [eapply kept_sound; [by eapply record_terminal_notifications_kept|]|]; done] end.
  eapply kept_sound; [apply kept_update_builds; by repeat split|].
  eapply (alone_sound (n_build n)); [|by split]. apply rtc_once. unfold set_node_status.
  eapply tick_one; [exact Hh|exact Hi|exact Hn|apply (beside_set attempt)|done|done|done|..].
  - intros k m Hk. by apply String.eqb_neq.
  - intros b1 b0 _ _ Hag. rewrite stepped_leaves by done. unfold is_row. rewrite String.eqb_refl.
    turn_cases n b0 a.
Qed.

(** An attempt whose successor can be inserted is the newest of its node. *)
Lemma inserted_newest id new db r d attempt a :
  history db -> attempts db !! attempt = Some a -> insert_attempt id new db = Ok (r, d) ->
  a_node new = a_node a -> a_ordinal new = a_ordinal a + 1 -> newest db (a_node a) attempt a.
Proof.
  intros Hh Ha Hins En Eo. apply no_successor_newest; [done..|]. intros i e He Ek.
  destruct (insert_attempt_rows _ _ _ _ _ Hins) as (_ & _ & _ & _ & _ & _ & _ & _ & Huniq).
  rewrite <- Eo. eapply Huniq; [done|congruence].
Qed.

Lemma newest_agrees db k i a n :
  history db -> newest db k i a -> nodes db !! k = Some n ->
  exists b, builds db !! n_build n = Some b /\ agrees n b a.
Proof.
  intros Hh Hi Hn. destruct (history_agrees _ Hh _ _ Hn) as (b & j & o & Hb & Hj & Hag).
  destruct (newest_unique _ _ _ _ _ _ Hh Hi Hj) as [_ ->]. eauto.
Qed.

Lemma has_dependencies_dep db k :
  has_dependencies db k = true -> exists d, d ∈ deps db /\ d_child d = k.
Proof.
  unfold has_dependencies. intros (d & Hd & Ek%String.eqb_eq)%existsb_exists.
  exists d. by rewrite list_elem_of_In.
Qed.

(** One round of the loop over the skipped nodes. *)
Lemma reopen_skipped_reopened now ids db k prev o a n db' :
  history db -> attempts db !! prev = Some o -> a_node o = k -> a_ordinal o = a_ordinal a ->
  nodes db !! k = Some n -> n_status n = NSkipped -> n_outcome n = Some LSkipped ->
  reopen_skipped now ids db (k, (prev, a)) = Ok db' -> reopened k (ids k) db db'.
Proof.
  intros Hh Ho <- Eo Hn Hs Hout H. unfold reopen_skipped in H. inv_tx.
  match goal with H : insert_attempt _ _ _ = Ok ?p |- _ => destruct p as [r d]; rename H into Hins end.
  assert (Hi : newest db (a_node o) prev o)
    by (eapply inserted_newest; [done|done|exact Hins|done|cbn; lia]).
  destruct (newest_agrees _ _ _ _ _ Hh Hi Hn) as (b & _ & Hag).
  eapply reopened_insert; [exact Ho|done|exact Hn|apply (beside_refl prev)|done| |exact Hins|..]; try done.
  - unfold agrees in Hag. rewrite Hs in Hag. by destruct (a_status o).
  - cbn. lia.
  - intros k' m Hk. by rewrite (proj2 (String.eqb_neq k' (a_node o)) Hk).
  - by rewrite String.eqb_refl, !bool_decide_true.
  - cbn. destruct (has_dependencies db (a_node o)); auto.
  - cbn. destruct (has_dependencies db (a_node o)) eqn:E; [|done]. intros _.
    by apply has_dependencies_dep.
Qed.

(** The rows of the loop that are still to come. *)
Definition skipped_row (db : Db) (row : Uuid * (Uuid * Attempt)) : Prop :=
  exists n o, nodes db !! row.1 = Some n /\ n_status n = NSkipped /\ n_outcome n = Some LSkipped
    /\ attempts db !! row.2.1 = Some o /\ a_node o = row.1 /\ a_ordinal o = a_ordinal row.2.2.

Lemma skipped_row_other k id db db' row :
  reopened k id db db' -> row.1 <> k -> skipped_row db row -> skipped_row db' row.
Proof.
  intros Hr Hk (n & o & Hn & Hs & Ho & Ha & Ek & Eo).
  assert (row.2.1 <> id) as Hne.
  { intros E. rewrite E in Ha. destruct (reopened_new _ _ _ _ Hr) as [Hnone _]. congruence. }
  destruct (forall2_right _ _ _ _ (reopened_attempt _ _ _ _ Hr _ Hne) Ha) as (o' & Ho' & (E1 & E2 & _) & _).
  exists n, o'. rewrite (reopened_others _ _ _ _ Hr _ Hk). split_and!; try done; congruence.
Qed.

Lemma reopen_all_sound now ids l db db' :
  sound db -> NoDup l.*1 -> (forall row, row ∈ l -> skipped_row db row) ->
  try_fold (reopen_skipped now ids) db l = Ok db' -> sound db'.
Proof.
  revert db. induction l as [|[k [prev a]] l IH]; intros db Hs Hnd Hl H; cbn [try_fold] in H; inv_tx; [done|].
  apply NoDup_cons in Hnd as [Hk Hnd].
  destruct (Hl (k, (prev, a)) ltac:(by left)) as (n & o & Hn & Hst & Hout & Ho & Ek & Eo).
  cbn [fst snd] in *.
  match goal with H : reopen_skipped _ _ _ _ = Ok ?d |- _ =>
    apply (reopen_skipped_reopened _ _ _ _ _ o _ n) in H; try done; [|apply Hs]; rename H into Hr end.
  eapply IH; [by eapply reopened_sound|done| |done].
  intros row Hrow. eapply skipped_row_other; [done| |apply Hl; by right].
  intros E. apply Hk. rewrite <- E. by apply list_elem_of_fmap_2.
Qed.

Lemma omap_fst_sublist {A B} (f : Uuid * A -> option (Uuid * B)) l :
  (forall x y, f x = Some y -> y.1 = x.1) -> sublist (omap f l).*1 l.*1.
Proof.
  intros Hf. induction l as [|x l IH]; simpl; [constructor|].
  destruct (f x) as [y|] eqn:E; simpl; [rewrite (Hf _ _ E)|]; by constructor.
Qed.

Lemma skipped_nodes_rows db build node :
  NoDup (skipped_nodes db build node).*1
  /\ forall row, row ∈ skipped_nodes db build node -> skipped_row db row.
Proof.
  unfold skipped_nodes. split.
  - rewrite sort_by_perm. eapply sublist_NoDup; [apply (NoDup_fst_map_to_list (nodes db))|].
    apply omap_fst_sublist. intros [id n] y Hy. inv_tx. done.
  - intros row Hrow. eapply elem_of_Permutation_proper in Hrow; [|symmetry; apply sort_by_perm].
    apply list_elem_of_omap in Hrow as ([id n] & Hin%elem_of_map_to_list & Hy). inv_tx. bool_prop.
    match goal with H : latest_attempt db id = Some ?p |- _ => destruct p as [prev o]; rename H into Hl end.
    unfold latest_attempt in Hl. apply first_row_elem, list_elem_of_In, List.filter_In in Hl as [Hl Ek].
    apply list_elem_of_In, elem_of_map_to_list in Hl. apply String.eqb_eq in Ek.
    exists n, o. cbn [fst snd]. split_and!; try done; by eapply bool_decide_eq_true.
Qed.

(** The node of a retried attempt. *)
Lemma retried_reopened now id j a n new r FN db d :
  history db -> attempts db !! j = Some a -> nodes db !! a_node a = Some n ->
  live (a_status a) = false -> insert_attempt id new db = Ok (r, d) ->
  a_node new = a_node a -> a_ordinal new = a_ordinal a + 1 -> a_status new = AQueued ->
  a_retry_of new = Some j -> same_node n (FN n) -> n_outcome (FN n) = None ->
  n_status (FN n) = NQueued \/ n_status (FN n) = NBlocked ->
  (n_status (FN n) = NBlocked -> exists d, d ∈ deps db /\ d_child d = a_node a) ->
  reopened (a_node a) id db (update_nodes now (is_row (a_node a)) FN d).
Proof.
  intros Hh Ha Hn Hl Hins. intros.
  eapply reopened_insert; [exact Ha|done|exact Hn|apply (beside_refl j)|done|exact Hl|exact Hins|..]; try done.
  - intros k' m Hk. by apply String.eqb_neq.
  - apply String.eqb_refl.
Qed.

Lemma retry_dag_sound now child ids build attempt a n most db db' :
  sound db -> attempts db !! attempt = Some a -> nodes db !! a_node a = Some n ->
  one_status [AFailed; AReconciliation] (a_status a) = true ->
  retry_dag_node now child ids build (a_node a) attempt (a_ordinal a) most db = Ok db' -> sound db'.
Proof.
  intros Hs Ha Hn Hst H. pose proof Hs as [Hh _]. unfold retry_dag_node in H. inv_tx.
  match goal with H : insert_attempt _ _ _ = Ok (?r, ?d) |- _ =>
    rename H into Hins; rename r into ra; rename d into d1 end.
  assert (Hi : newest db (a_node a) attempt a)
    by (eapply inserted_newest; [done|done|exact Hins|done|done]).
  destruct (newest_agrees _ _ _ _ _ Hh Hi Hn) as (b & _ & Hag).
  assert (Hnb : n_status n <> NBlocked).
  { intros E. unfold agrees in Hag. rewrite E in Hag. by destruct (a_status a). }
  pose proof (insert_attempt_ready _ _ _ _ _ n Hins Hn Hnb) as Era. cbn in Era.
  match goal with H : try_fold _ ?d _ = Ok _ |- _ => assert (Hr : reopened (a_node a) child db d) end.
  { eapply retried_reopened; [done|done|done|by destruct (a_status a)|exact Hins|done..| |].
    - cbn. destruct ra; auto.
    - cbn. rewrite Era. destruct (ready db (a_node a)) eqn:E; [done|]. intros _.
      destruct (not_ready_dep _ _ E) as (d & Hd & Ek & _). eauto. }
  eapply reopen_all_sound; [by eapply reopened_sound|apply skipped_nodes_rows|apply skipped_nodes_rows|done].
Qed.

Lemma retry_single_sound now child attempt a n b db db' :
  sound db -> attempts db !! attempt = Some a -> nodes db !! a_node a = Some n ->
  builds db !! n_build n = Some b -> b_dag_mode b = false ->
  one_status [AFailed; AReconciliation] (a_status a) = true ->
  retry_single now child (a_node a) attempt (a_ordinal a) db = Ok db' -> sound db'.
Proof.
  intros Hs Ha Hn Hb Hd Hst H. pose proof Hs as [Hh Hp]. unfold retry_single in H. inv_tx.
  match goal with H : insert_attempt _ _ _ = Ok ?p |- _ => destruct p as [r d1]; rename H into Hins end.
  eapply reopened_sound; [|done].
  eapply retried_reopened; [done|done|done|by destruct (a_status a)|exact Hins|..]; try done.
  - by eapply (Hp (a_node a) n).
  - by left.
Qed.

Lemma insert_builds id a db r db' : insert_attempt id a db = Ok (r, db') -> builds db' = builds db.
Proof. intros H. destruct (insert_attempt_rows _ _ _ _ _ H) as (_ & _ & _ & _ & _ & _ & _ & ? & _). done. Qed.

Lemma reopen_all_builds now ids l db db' :
  try_fold (reopen_skipped now ids) db l = Ok db' -> builds db' = builds db.
Proof.
  revert db. induction l as [|[k [prev a]] l IH]; intros db H; cbn [try_fold] in H; inv_tx; [done|].
  etrans; [by apply IH|]. match goal with H : reopen_skipped _ _ _ _ = _ |- _ =>
    unfold reopen_skipped in H end. inv_tx.
  match goal with H : insert_attempt _ _ _ = Ok ?p |- _ =>
    destruct p; apply insert_builds in H; exact H end.
Qed.

Lemma retry_dag_builds now child ids build node attempt ordinal most db db' :
  retry_dag_node now child ids build node attempt ordinal most db = Ok db' -> builds db' = builds db.
Proof.
  unfold retry_dag_node. intros H. inv_tx.
  match goal with H : insert_attempt _ _ _ = _ |- _ => apply insert_builds in H; rewrite <- H end.
  match goal with H : try_fold _ _ _ = _ |- _ => apply reopen_all_builds in H; exact H end.
Qed.

Lemma retry_single_builds now child node attempt ordinal db db' :
  retry_single now child node attempt ordinal db = Ok db' -> builds db' = builds db.
Proof.
  unfold retry_single. intros H. inv_tx.
  match goal with H : insert_attempt _ _ _ = Ok ?p |- _ => destruct p; apply insert_builds in H; exact H end.
Qed.

(** The build of a retried attempt was not cancelled. *)
Lemma reset_build_sound build b f db :
  builds db !! build = Some b -> b_cancelled_at b = None -> b_dag_mode (f b) = b_dag_mode b ->
  sound db -> sound (update_builds (is_row build) f db).
Proof.
  intros Hb Hc Hd. apply calm_sound, rtc_once, tick_tables; try done. intros k.
  rewrite lookup_builds_update_builds. unfold is_row. destruct (String.eqb_spec k build) as [->|Hk].
  - rewrite Hb. constructor. split; [done|]. by rewrite Hc.
  - destruct (builds db !! k); by repeat constructor.
Qed.

Lemma dead_letter_sound now attempt a n ordinal most reason db db' :
  sound db -> newest db (a_node a) attempt a -> nodes db !! a_node a = Some n ->
  dead_letter now attempt (a_node a) (n_build n) ordinal most reason db = Ok db' -> sound db'.
Proof.
  intros Hs Hi Hn H. unfold dead_letter in H. inv_tx. destruct (dead_letters db !! attempt).
  - by eapply terminalize_sound.
  - match goal with H : terminalize_dead_lettered_reconciliation _ _ _ _ _ ?d = Ok _ |- _ =>
      apply (terminalize_sound now attempt a n reason d db'); [|exact Hi|exact Hn|exact H] end.
    eapply calm_sound; [|exact Hs]. by apply rtc_once, tick_tables.
Qed.

Lemma retry_sound now child ids attempt most reason actor db r db' :
  sound db -> schedule_retry_as now child ids attempt most reason actor db = Ok (r, db') -> sound db'.
Proof.
  intros Hs. unfold schedule_retry_as. intros H. inv_tx; try done.
  all: match goal with H : attempt_rows _ _ = Some _ |- _ =>
    apply attempt_rows_lookup in H as (Ha & Hn & Hbd) end.
  all: match goal with H : first_row _ _ = None |- _ => apply unretried in H;
    pose proof (unretried_newest _ _ _ (proj1 Hs) Ha H) as Hi end.
  all: bool_prop; rewrite present_absent in *; bool_prop.
  all: assert (Hc : b_cancelled_at b = None) by (by destruct (b_cancelled_at b)).
  - by eapply terminalize_sound.
  - match goal with H : dead_letter _ _ _ _ _ _ _ _ = Ok _ |- _ =>
      eapply dead_letter_sound; [exact Hs|exact Hi|exact Hn|exact H] end.
  - eapply kept_sound; [apply kept_event|]. eapply (reset_build_sound _ b); [|done|done|].
    + match goal with H : retry_dag_node _ _ _ _ _ _ _ _ _ = _ |- _ =>
        by rewrite (retry_dag_builds _ _ _ _ _ _ _ _ _ _ H) end.
    + by eapply (retry_dag_sound now child ids _ attempt _ n).
  - eapply kept_sound; [apply kept_event|]. eapply (reset_build_sound _ b); [|done|done|].
    + match goal with H : retry_single _ _ _ _ _ _ = _ |- _ =>
        by rewrite (retry_single_builds _ _ _ _ _ _ _ H) end.
    + by eapply (retry_single_sound now child attempt _ n).
Qed.

(** ** Admissions *)

Lemma new_build_sound build row db :
  builds db !! build = None -> sound db -> sound (db <| builds := <[build := row]> (builds db) |>).
Proof.
  intros Hb [Hh Hp]. split; [by apply new_build_history|]. intros k n b Hn Eb Hd. cbn in *.
  destruct (history_build _ Hh _ _ Hn) as [b' Eb']. rewrite lookup_insert_ne in Eb by congruence.
  exact (Hp _ _ _ Hn Eb Hd).
Qed.

Lemma first_attempt_sound now k id n epoch ra b db r db' :
  nodes db !! k = None -> builds db !! n_build n = Some b ->
  (n_status n = NBlocked -> b_dag_mode b = true) ->
  n_status n = NBlocked \/ n_status n = NQueued -> n_outcome n = None ->
  insert_attempt id (queued_attempt now k 1 None epoch ra) (db <| nodes := <[k := n]> (nodes db) |>)
    = Ok (r, db') -> sound db ->
  sound db' /\ forall k' i a, newest db k' i a -> newest db' k' i a.
Proof.
  intros Hk Hb Hdag Hst Hout H [Hh Hp].
  destruct (insert_attempt_rows _ _ _ _ _ H) as (a & EA & Hid & (E1 & E2 & _) & E3 & E4 & E5 & E6 & _).
  assert (Hf : first_attempt k id n a db db') by (split; try done; eauto).
  split; [|by apply (first_newest k id n a)].
  split; [by eapply first_attempt_history|]. intros k' n' b' Hn' Hb' Hd.
  rewrite (first_nodes _ _ _ _ _ _ Hf) in Hn'. rewrite (first_builds _ _ _ _ _ _ Hf) in Hb'.
  apply lookup_insert_Some in Hn' as [[_ <-]|[_ Hn']]; [done | exact (Hp _ _ _ Hn' Hb' Hd)].
Qed.

Lemma bool_decide_none {A} (x : option A) : bool_decide (is_Some x) = false -> x = None.
Proof. intros H%bool_decide_eq_false. by apply eq_None_not_Some. Qed.

Lemma admit_build_sound now build node attempt input db r db' :
  sound db -> admit_build now build node attempt input db = Ok (r, db') -> sound db'.
Proof.
  intros Hs. unfold admit_build. intros H. inv_tx; try done.
  match goal with H : insert_attempt _ _ _ = Ok ?p |- _ => destruct p as [x d]; rename H into Hins end.
  eapply kept_sound; [apply kept_event|].
  repeat match goal with H : bool_decide (is_Some _) = false |- _ => apply bool_decide_none in H end.
  eapply first_attempt_sound in Hins as [Hd _]; [exact Hd|done| |done|by right|done|by apply new_build_sound].
  cbn. apply lookup_insert_eq.
Qed.

(** What the first loop of an admission leaves: the rows of the nodes [l] under
    the identifiers they were given. *)
Record admitted_rows (now : Z) (build : Uuid) (l : list (NewDagNode * (Uuid * Uuid))) (db db' : Db) :
    Prop := {
  admitted_builds : builds db' = builds db;
  admitted_deps : deps db' = deps db;
  admitted_old k n : nodes db !! k = Some n -> nodes db' !! k = Some n;
  admitted_new node k i : (node, (k, i)) ∈ l ->
    nodes db' !! k = Some (new_node now build node) /\ nodes db !! k = None;
  admitted_only k n : nodes db' !! k = Some n ->
    nodes db !! k = Some n \/ exists node i, (node, (k, i)) ∈ l /\ n = new_node now build node
}.

Lemma admit_node_rows now build m db node k i m' db' :
  admit_node now build (m, db) (node, (k, i)) = Ok (m', db') ->
  admitted_rows now build [(node, (k, i))] db db'
  /\ m' = binsert (node_key node) {| adm_node := k; adm_attempt := i |} m
  /\ (sound db -> dag_build db build ->
      sound db' /\ forall k' j a, newest db k' j a -> newest db' k' j a).
Proof.
  unfold admit_node. intros H. inv_tx. apply bool_decide_none in Hb.
  match goal with H : insert_attempt _ _ _ = Ok ?p |- _ => destruct p as [x d]; rename H into Hins end.
  destruct (insert_attempt_rows _ _ _ _ _ Hins) as (a & _ & _ & _ & _ & En & Ed & Eb & _).
  cbn in En, Ed, Eb. simpl. split_and!; [split|done|].
  - done.
  - done.
  - intros k' n Hn. rewrite En, lookup_insert_ne by congruence. done.
  - intros node' k' i' [=-> -> ->]%list_elem_of_singleton. by rewrite En, lookup_insert_eq.
  - intros k' n Hn. rewrite En in Hn. apply lookup_insert_Some in Hn as [[<- <-]|[_ Hn]]; [|by left].
    right. exists node, i. split; [by apply list_elem_of_singleton | done].
  - intros Hs (b & Hbd & Hdag).
    eapply (first_attempt_sound now k i (new_node now build node)); [done|done|done| |done|exact Hins|done].
    cbn. destruct (dependencies node); auto.
Qed.

Lemma admitted_rows_cons now build e l db d db' :
  admitted_rows now build [e] db d -> admitted_rows now build l d db' ->
  admitted_rows now build (e :: l) db db'.
Proof.
  intros H1 H2. split.
  - by rewrite (admitted_builds _ _ _ _ _ H2), (admitted_builds _ _ _ _ _ H1).
  - by rewrite (admitted_deps _ _ _ _ _ H2), (admitted_deps _ _ _ _ _ H1).
  - intros k n Hn. by eapply admitted_old, admitted_old.
  - intros node k i [<-|Hin]%elem_of_cons.
    + destruct (admitted_new _ _ _ _ _ H1 node k i) as [Hn Hf]; [by apply list_elem_of_singleton|].
      split; [by eapply admitted_old | done].
    + destruct (admitted_new _ _ _ _ _ H2 node k i Hin) as [Hn Hf]. split; [done|].
      destruct (nodes db !! k) eqn:E; [|done]. by rewrite (admitted_old _ _ _ _ _ H1 _ _ E) in Hf.
  - intros k n Hn. destruct (admitted_only _ _ _ _ _ H2 _ _ Hn) as [Hd|(node & i & Hin & ->)].
    + destruct (admitted_only _ _ _ _ _ H1 _ _ Hd) as [?|(node & i & Hin & ->)]; [by left|right].
      apply list_elem_of_singleton in Hin as <-. exists node, i. split; [by left | done].
    + right. exists node, i. split; [by right | done].
Qed.

Lemma admit_nodes_rows now build l m db m' db' :
  bmap_wf m -> try_fold (admit_node now build) (m, db) l = Ok (m', db') ->
  admitted_rows now build l db db'
  /\ (sound db -> dag_build db build ->
      sound db' /\ forall k' j a, newest db k' j a -> newest db' k' j a)
  /\ (forall key, is_Some (bget key m) -> is_Some (bget key m'))
  /\ (forall node k i, (node, (k, i)) ∈ l -> is_Some (bget (node_key node) m'))
  /\ (forall key e, bget key m' = Some e ->
        bget key m = Some e
        \/ exists node i, (node, (adm_node e, i)) ∈ l /\ node_key node = key).
Proof.
  revert m db. induction l as [|[node [k i]] l IH]; intros m db Hwf H; cbn [try_fold] in H; inv_tx.
  { split_and!; auto; [|by intros ? ? ? ?%elem_of_nil].
    split; auto. by intros ? ? ? ?%elem_of_nil. }
  match goal with H : admit_node _ _ _ _ = Ok ?p |- _ => destruct p as [m1 d1]; rename H into Hn end.
  destruct (admit_node_rows _ _ _ _ _ _ _ _ _ Hn) as (Hrow & -> & Hs1).
  destruct (IH _ _ ltac:(by apply binsert_wf) H) as (Hrows & Hs & Hmono & Hkeys & Hmap).
  split_and!.
  - by eapply admitted_rows_cons.
  - intros Hd Hb. destruct (Hs1 Hd Hb) as [Hd1 Hnew1].
    destruct Hs as [Hd2 Hnew2]; [done| |by split; auto].
    unfold dag_build. by rewrite (admitted_builds _ _ _ _ _ Hrow).
  - intros key Hk. apply Hmono. rewrite bget_binsert by done. destruct (String.eqb _ _); [eauto | done].
  - intros node' k' i' [[=-> -> ->]|Hin]%elem_of_cons; [|by eapply Hkeys].
    apply Hmono. rewrite bget_binsert, String.eqb_refl by done. eauto.
  - intros key e He. destruct (Hmap key e He) as [He'|(node' & i' & Hin & Ek)].
    + rewrite bget_binsert in He' by done. destruct (String.eqb_spec (node_key node) key) as [<-|];
        [|by left]. injection He' as <-. right. exists node, i. split; [by left | done].
    + right. exists node', i'. split; [by right | done].
Qed.

(** The dependencies the second loop inserts. *)
Lemma node_edges_elem build m l d :
  d ∈ concat (map (node_edges build m) l) ->
  exists node dep child parent, node ∈ l /\ dep ∈ dependencies node
    /\ bget (node_key node) m = Some child /\ bget (dep_node_key dep) m = Some parent
    /\ d = MkDependency build (adm_node parent) (adm_node child) (dep_condition dep).
Proof.
  rewrite list_elem_of_In, in_concat. intros (edges & Hin%in_map_iff & Hd).
  destruct Hin as (node & <- & Hnode%list_elem_of_In). apply list_elem_of_In in Hd.
  apply list_elem_of_omap in Hd as (dep & Hdep & H). inv_tx. by eexists node, dep, _, _.
Qed.

Lemma admit_dag_sound now build ids input contract sequential db r db' :
  sound db ->
  admit_dag_contract_transaction now build ids input contract sequential db = Ok (r, db') -> sound db'.
Proof.
  intros Hs. unfold admit_dag_contract_transaction. intros H. inv_tx; try done.
  match goal with H : try_fold (admit_node _ _) _ _ = Ok (?m, ?d) |- _ =>
    rename H into Hf; rename m into admitted; rename d into d1 end.
  match goal with H : bool_decide (is_Some _) = false |- _ => apply bool_decide_none in H end.
  apply admit_nodes_rows in Hf as (Hrows & Hsound & _ & _ & Hmap); [|constructor].
  eapply kept_sound; [apply kept_event|].
  assert (Hd1 : sound d1).
  { eapply Hsound; [by apply new_build_sound|]. eexists. cbn. by rewrite lookup_insert_eq. }
  destruct Hd1 as [Hh Hp]. split; [apply new_deps_history; [|done]|exact Hp].
  intros d Hd. apply node_edges_elem in Hd as (node & dep & child & parent & _ & _ & Hc & _ & ->). cbn.
  destruct (Hmap _ _ Hc) as [?|(node' & i & Hin & _)]; [done|].
  destruct (admitted_new _ _ _ _ _ Hrows _ _ _ Hin) as [Hn _].
  exists (new_node now build node'). eexists. split_and!; [done| |].
  - rewrite (admitted_builds _ _ _ _ _ Hrows). cbn. apply lookup_insert_eq.
  - done.
Qed.

Lemma step_sound allowed db db' : step allowed db db' -> sound db -> sound db'.
Proof.
  intros [now op d d' _ H|d d' (E1 & E2 & E3 & E4 & _)] Hs.
  - pose proof Hs as [Hh _]. destruct op; simpl in H; unfold committed in H; inv_tx.
    + by eapply admit_dag_sound.
    + match goal with H : admit_sequential_dag _ _ _ _ _ _ = _ |- _ =>
        apply admit_sequential_kept in H as (d1 & Ha & K) end.
      eapply kept_sound; [done|]. by eapply admit_dag_sound.
    + by eapply admit_build_sound.
    + by eapply changes_sound; [eapply changes_claim|].
    + by eapply changes_sound; [eapply changes_accept|].
    + by eapply changes_sound; [eapply changes_renew|].
    + by eapply changes_sound; [eapply changes_expire|].
    + by eapply changes_sound; [eapply changes_run|].
    + by eapply changes_sound; [eapply changes_finalize|].
    + by eapply changes_sound; [eapply changes_recover|].
    + by eapply changes_sound; [eapply changes_complete|].
    + by eapply changes_sound; [eapply changes_cancel|].
    + by eapply changes_sound; [eapply changes_reconcile|].
    + by eapply retry_sound.
    + by eapply changes_sound; [eapply changes_restore|].
  - by eapply changes_sound; [apply changes_tables|].
Qed.

Lemma initial_sound db : initial db -> sound db.
Proof.
  intros (E1 & E2 & E3 & E4 & _).
  assert (forall i a, attempts db !! i = Some a -> False) as Ha by (intros i a; by rewrite E3).
  assert (forall k n, nodes db !! k = Some n -> False) as Hn by (intros k n; by rewrite E2).
  assert (forall d, d ∈ deps db -> False) as Hd by (intros d; rewrite E4; apply not_elem_of_nil).
  split; [split|intros k n b Hk; by apply Hn in Hk].
  all: intros; exfalso; by eauto.
Qed.

Lemma reachable_sound allowed db : reachable allowed db -> sound db.
Proof.
  intros (start & Hi & H). apply initial_sound in Hi. induction H as [|d1 d2 d3 H _ IH]; [done|].
  by eapply IH, step_sound.
Qed.

End Reachable.
