(* ===== verification/NodeFlow.v ===== *)
(** * Work flows through a DAG

    A blocked node always waits for a node that has not settled, a node that may
    run has every dependency on success met, and the dependencies of a build
    have no cycle. This holds in every history without an operator's retry, and
    with it a build stalls in one known case only: while a node is open, one is
    queued, offered, running or waits for reconciliation. *)

From stdpp Require Import base gmap sets list strings pretty relations.
From Stdlib Require Import ZArith Lia.
From S2P Require Import Prelude Text Bytes Domain DagContract DagGraph StoreTables DagRuntime.
From S2P Require Import WorkspaceStore Sequential.
From S2P Require Import Scheduler Attempts Lifecycle StoreFrames AttemptMoves History NodeTurns.
From S2P Require Import NodeHistory NodeOperations NodeReachable.

Open Scope Z_scope.

(** [k] depends on [p]. *)
Definition edge (ds : list Dependency) (k p : Uuid) : Prop :=
  exists d, d ∈ ds /\ d_child d = k /\ d_parent d = p.

(** A dependency of [k] on a node that has not settled. *)
Definition open_parent (db : Db) (k : Uuid) : Prop :=
  exists d p, d ∈ deps db /\ d_child d = k /\ nodes db !! d_parent d = Some p
    /\ settled_node (n_status p) = false.

(** Blocked nodes of the builds in which nothing settles wait for an open node. *)
Definition waits (D : scope) (db : Db) : Prop :=
  forall k n, nodes db !! k = Some n -> n_status n = NBlocked -> ~ settles D (n_build n) ->
    open_parent db k.

Record flow (db : Db) : Prop := {
  flow_deps d : d ∈ deps db -> exists p c, nodes db !! d_parent d = Some p
    /\ nodes db !! d_child d = Some c /\ n_build p = n_build c;
  flow_acyclic k : ~ tc (edge (deps db)) k k;
  flow_post d c : d ∈ deps db -> nodes db !! d_child d = Some c -> n_kind c = Post ->
    d_condition d = Completed;
  flow_met k n i a d : nodes db !! k = Some n -> newest db k i a ->
    active (n_status n) (a_status a) = true -> d ∈ deps db -> d_child d = k ->
    d_condition d = Succeeded ->
    exists p, nodes db !! d_parent d = Some p /\ n_status p = NSucceeded
}.

Lemma ready_met db k d :
  ready db k = true -> d ∈ deps db -> d_child d = k -> unsatisfied (nodes db) d = false.
Proof.
  unfold ready. intros H%negb_true_iff Hd Ek. apply not_true_iff_false. intros Hu.
  apply not_true_iff_false in H. apply H, existsb_exists. exists d.
  split; [by apply list_elem_of_In|]. by rewrite Ek, String.eqb_refl.
Qed.

(** A node that may run and is not ready waits for a node to complete. *)
Lemma not_ready_open db k n i a :
  flow db -> nodes db !! k = Some n -> newest db k i a -> active (n_status n) (a_status a) = true ->
  ready db k = false -> open_parent db k.
Proof.
  intros Hf Hn Hi Ha Hr. destruct (not_ready_dep _ _ Hr) as (d & Hd & Ek & Hu).
  unfold unsatisfied in Hu. destruct (nodes db !! d_parent d) as [p|] eqn:Hp; [|done].
  exists d, p. split_and!; [done..|]. destruct (d_condition d) eqn:Ec; [|by apply negb_true_iff].
  destruct (flow_met _ Hf k n i a d) as (p' & Hp' & Hs); try done. simplify_eq.
  by rewrite bool_decide_true in Hu.
Qed.

(** Dependencies of a ready node on success are met. *)
Lemma ready_succeeded db k d :
  flow db -> ready db k = true -> d ∈ deps db -> d_child d = k -> d_condition d = Succeeded ->
  exists p, nodes db !! d_parent d = Some p /\ n_status p = NSucceeded.
Proof.
  intros Hf Hr Hd Ek Ec. destruct (flow_deps _ Hf _ Hd) as (p & c & Hp & _). exists p. split; [done|].
  pose proof (ready_met _ _ _ Hr Hd Ek) as Hu. unfold unsatisfied in Hu. rewrite Hp, Ec in Hu.
  by apply negb_false_iff, bool_decide_eq_true in Hu.
Qed.

(** A stable build waits. *)
Lemma stable_waits build db k n :
  flow db -> stable build db -> nodes db !! k = Some n -> n_build n = build ->
  n_status n = NBlocked -> open_parent db k.
Proof.
  intros Hf Hst Hn Hb Hs. destruct (Hst k n Hn) as [Hr Hi]; [by apply String.eqb_eq|done|].
  destruct (not_ready_dep _ _ Hr) as (d & Hd & Ek & Hu).
  unfold unsatisfied in Hu. destruct (nodes db !! d_parent d) as [p|] eqn:Hp; [|done].
  exists d, p. split_and!; [done..|]. destruct (d_condition d) eqn:Ec; [|by apply negb_true_iff].
  destruct Hi as [Hk|Hi].
  - rewrite (flow_post _ Hf d n) in Ec; [done|done|by rewrite Ek|done].
  - assert (Hl : lost_parent (nodes db) d = false).
    { apply not_true_iff_false. intros Hl. apply not_true_iff_false in Hi. apply Hi, existsb_exists.
      exists d. split; [by apply list_elem_of_In|]. by rewrite Ek, String.eqb_refl, bool_decide_true. }
    unfold lost_parent in Hl. rewrite Hp in Hl. by destruct (n_status p).
Qed.

(** ** Ticks *)

Section Tick.
Variables (D : scope) (db db' : Db).
Hypotheses (Hh : history db) (Ht : tick D db db') (Hf : flow db).

(** The turn of a node. *)
Lemma flow_turn k n' :
  nodes db' !! k = Some n' -> exists n i a a',
    nodes db !! k = Some n /\ same_node n n' /\ newest db k i a /\ newest db' k i a'
    /\ scoped D n n' /\ (n_status n = NSucceeded -> n_status n' = NSucceeded)
    /\ (active (n_status n') (a_status a') = true ->
        active (n_status n) (a_status a) = true \/ ready db k = true)
    /\ (n_status n' = NBlocked ->
        n_status n = NBlocked \/ active (n_status n) (a_status a) = true /\ ready db k = false).
Proof.
  intros Hn'. destruct (forall2_left _ _ _ _ (tick_node _ _ _ Ht _) Hn') as (n & Hn & Hsame).
  destruct (history_agrees _ Hh _ _ Hn) as (b & i & a & Hb & Hi & Hag).
  destruct (forall2_right _ _ _ _ (tick_build _ _ _ Ht _) Hb) as (b' & Hb' & _).
  destruct (forall2_right _ _ _ _ (tick_attempt _ _ _ Ht _) (proj1 Hi)) as (a' & Ha' & _).
  destruct (tick_turn _ _ _ Ht k n n' b b' i a a') as [Hturn Hsc]; try done.
  exists n, i, a, a'. split_and!; try done; [by eapply tick_newest|..];
    unfold turn in Hturn; bool_prop.
  - intros E. rewrite E in *. by destruct (n_status n').
  - intros E. match goal with H : implb (active _ _) _ = true |- _ => rewrite E in H; simpl in H;
      apply orb_true_iff in H as [?|?] end; [by left|]. bool_prop. by right.
  - intros E. match goal with H : implb (is_blocked _) _ = true |- _ => rewrite E in H; simpl in H;
      apply orb_true_iff in H as [?|?] end; [left; by destruct (n_status n)|right]. by bool_prop.
Qed.

Lemma tick_row k n : nodes db !! k = Some n -> exists n', nodes db' !! k = Some n' /\ same_node n n'.
Proof. intros Hn. by eapply forall2_right; [apply (tick_node _ _ _ Ht)|]. Qed.

Lemma tick_succeeded k p :
  nodes db !! k = Some p -> n_status p = NSucceeded ->
  exists p', nodes db' !! k = Some p' /\ n_status p' = NSucceeded.
Proof.
  intros Hp Hs. destruct (tick_row _ _ Hp) as (p' & Hp' & _). exists p'. split; [done|].
  destruct (flow_turn _ _ Hp') as (n & i & a & a' & Hn & _ & _ & _ & _ & H & _). simplify_eq. auto.
Qed.

Lemma tick_flow : flow db'.
Proof.
  pose proof (tick_deps _ _ _ Ht) as Ed. split; rewrite ?Ed.
  - intros d Hd. destruct (flow_deps _ Hf _ Hd) as (p & c & Hp & Hc & E).
    destruct (tick_row _ _ Hp) as (p' & Hp' & [E1 _]), (tick_row _ _ Hc) as (c' & Hc' & [E2 _]).
    exists p', c'. split_and!; congruence.
  - apply (flow_acyclic _ Hf).
  - intros d c' Hd Hc' Hk. destruct (flow_turn _ _ Hc') as (c & _ & _ & _ & Hc & [_ E] & _).
    eapply (flow_post _ Hf); [done..|congruence].
  - intros k n' i' o' d Hn' Hi' Hact Hd Ek Ec.
    destruct (flow_turn _ _ Hn') as (n & i & a & a' & Hn & _ & Hi & Hi2 & _ & _ & Ha & _).
    destruct (newest_unique _ _ _ _ _ _ (tick_history _ _ _ Ht Hh) Hi' Hi2) as [_ ->].
    assert (exists p, nodes db !! d_parent d = Some p /\ n_status p = NSucceeded) as (p & Hp & Hs).
    { destruct (Ha Hact) as [Ha'|Hr]; [by eapply (flow_met _ Hf) | by eapply ready_succeeded]. }
    by eapply tick_succeeded.
Qed.

Lemma open_parent_tick k n :
  nodes db !! k = Some n -> ~ settles D (n_build n) -> open_parent db k -> open_parent db' k.
Proof.
  intros Hn HD (d & p & Hd & Ek & Hp & Hop). destruct (flow_deps _ Hf _ Hd) as (p2 & c & Hp2 & Hc & E).
  destruct (tick_row _ _ Hp) as (p' & Hp' & _). exists d, p'.
  rewrite (tick_deps _ _ _ Ht). split_and!; [done..|].
  destruct (flow_turn _ _ Hp') as (m & i & a & a' & Hm & _ & _ & _ & [Hsc _] & _). simplify_eq.
  destruct (settled_node (n_status p')) eqn:Es; [|done]. destruct HD. rewrite <- E. by apply Hsc.
Qed.

Lemma tick_waits : waits D db -> waits D db'.
Proof.
  intros Hw k n' Hn' Hs HD.
  destruct (flow_turn _ _ Hn') as (n & i & a & a' & Hn & [E _] & Hi & _ & _ & _ & _ & Hb).
  rewrite E in HD. apply (open_parent_tick k n); [done..|].
  destruct (Hb Hs) as [Hb'|[Ha Hr]]; [by eapply Hw | by eapply not_ready_open].
Qed.

End Tick.

Lemma ticks_flow D db db' :
  rtc (tick D) db db' -> history db -> flow db -> waits D db -> flow db' /\ waits D db'.
Proof.
  induction 1 as [|d1 d2 d3 H _ IH]; [done|]. intros Hh Hf Hw.
  apply IH; [by eapply tick_history|by eapply tick_flow|by eapply tick_waits].
Qed.

(** ** A node that returns to the queue *)

Section Reopened.
Variables (k id : Uuid) (db db' : Db) (n n' : Node).
Hypotheses (Hh : history db) (Hr : reopened k id db db') (Hf : flow db) (Hw : waits nowhere db)
  (Hn : nodes db !! k = Some n) (Hn' : nodes db' !! k = Some n')
  (Hact : forall i a, newest db k i a -> active (n_status n) (a_status a) = true)
  (Hst : n_status n' = if ready db k then NQueued else NBlocked).

(** The reopened node is open before and after. *)
Lemma reopened_was_open : exists i a, newest db k i a /\ n_status n <> NSucceeded.
Proof.
  destruct (history_agrees _ Hh _ _ Hn) as (b & i & a & _ & Hi & Hag). exists i, a. split; [done|].
  intros E. specialize (Hact _ _ Hi). unfold agrees in Hag. rewrite E in *.
  by destruct (a_status a).
Qed.

Lemma reopened_succeeded p r :
  nodes db !! p = Some r -> n_status r = NSucceeded -> nodes db' !! p = Some r.
Proof.
  intros Hp Hs. destruct (decide (p = k)) as [->|Hk]; [|by rewrite (reopened_others _ _ _ _ Hr _ Hk)].
  destruct reopened_was_open as (_ & _ & _ & Hne). by simplify_eq.
Qed.

Lemma reopened_open_parent k' : open_parent db k' -> open_parent db' k'.
Proof.
  intros (d & p & Hd & Ek & Hp & Hop). destruct (decide (d_parent d = k)) as [E|Hne].
  - exists d, n'. rewrite (reopened_deps _ _ _ _ Hr), E. split_and!; [done..|]. rewrite Hst.
    by destruct (ready db k).
  - exists d, p. rewrite (reopened_deps _ _ _ _ Hr), (reopened_others _ _ _ _ Hr _ Hne).
    by split_and!.
Qed.

Lemma reopened_waits : waits nowhere db'.
Proof.
  intros k' m Hm Hs _. apply reopened_open_parent. destruct (decide (k' = k)) as [->|Hk].
  - simplify_eq. destruct reopened_was_open as (i & a & Hi & _).
    eapply not_ready_open; [done|done|done|by apply Hact with i|].
    rewrite Hs in Hst. by destruct (ready db k).
  - rewrite (reopened_others _ _ _ _ Hr _ Hk) in Hm. by eapply Hw; eauto.
Qed.

Lemma reopened_flow : flow db'.
Proof.
  pose proof (reopened_deps _ _ _ _ Hr) as Ed.
  destruct (reopened_node _ _ _ _ Hr) as (m & m' & Hm & Hm' & Hsame & _). simplify_eq.
  assert (Hrow : forall x r, nodes db !! x = Some r -> exists r', nodes db' !! x = Some r' /\ same_node r r').
  { intros x r Hx. destruct (decide (x = k)) as [->|Hk]; [simplify_eq; eauto|].
    rewrite (reopened_others _ _ _ _ Hr _ Hk). by exists r. }
  split; rewrite ?Ed.
  - intros d Hd. destruct (flow_deps _ Hf _ Hd) as (p & c & Hp & Hc & E).
    destruct (Hrow _ _ Hp) as (p' & Hp' & [E1 _]), (Hrow _ _ Hc) as (c' & Hc' & [E2 _]).
    exists p', c'. split_and!; congruence.
  - apply (flow_acyclic _ Hf).
  - intros d c' Hd Hc' Hk. destruct (flow_deps _ Hf _ Hd) as (_ & c & _ & Hc & _).
    destruct (Hrow _ _ Hc) as (c2 & Hc2 & [_ E]). simplify_eq.
    eapply (flow_post _ Hf); [done..|congruence].
  - intros x r i a d Hx Hi Ha Hd Ek Ec.
    assert (exists p, nodes db !! d_parent d = Some p /\ n_status p = NSucceeded) as (p & Hp & Hs);
      [|exists p; split; [by apply reopened_succeeded | done]].
    destruct (decide (x = k)) as [->|Hk].
    + simplify_eq. destruct (ready db (d_child d)) eqn:Erd; [by eapply ready_succeeded|].
      destruct (reopened_newest _ _ _ _ Hh Hr) as (new & Hnew & Eq & _).
      destruct (newest_unique _ _ _ _ _ _ (reopened_history _ _ _ _ Hh Hr) Hi Hnew) as [_ ->].
      by rewrite Hst, Eq in Ha.
    + rewrite (reopened_others _ _ _ _ Hr _ Hk) in Hx.
      destruct (history_agrees _ Hh _ _ Hx) as (b & j & o & _ & Hj & _).
      destruct (reopened_newest_other _ _ _ _ Hh Hr x j o Hk Hj) as (o' & Ho' & Es).
      destruct (newest_unique _ _ _ _ _ _ (reopened_history _ _ _ _ Hh Hr) Hi Ho') as [_ ->].
      rewrite Es in Ha. by eapply (flow_met _ Hf).
Qed.

End Reopened.

(** ** Changes *)

Lemma waits_nowhere D db : waits nowhere db -> waits D db.
Proof. intros Hw k n Hn Hs _. apply (Hw k n Hn Hs). by intros []. Qed.

Lemma change_flow db db' :
  change db db' -> history db -> flow db -> waits nowhere db -> flow db' /\ waits nowhere db'.
Proof.
  intros Hc Hh Hf Hw. pose proof (change_history _ _ Hc Hh) as Hh'.
  destruct Hc as [H|build b Hb [H|H Hst _|H Hd|k id d n n' H Hk Hn Hn' Ha Hs]].
  - by eapply ticks_flow; [apply rtc_once|..].
  - by eapply ticks_flow.
  - destruct (ticks_flow (within build) db db') as [Hf' Hw']; try done; [by apply waits_nowhere|].
    split; [done|]. intros k n Hn Hs _. destruct (decide (n_build n = build)) as [Eb|Hne].
    + by eapply stable_waits.
    + apply (Hw' k n Hn Hs). simpl. congruence.
  - destruct (ticks_flow (alone build) db db') as [Hf' Hw']; try done; [by apply waits_nowhere|].
    split; [done|]. intros k n Hn Hs _. apply (Hw' k n Hn Hs). simpl. intros ->.
    assert (exists b', builds db' !! n_build n = Some b' /\ b_dag_mode b' = b_dag_mode b) as (b' & Hb' & E).
    { clear -H Hb. revert b Hb. induction H as [|d1 d2 d3 Ht _ IH]; intros b Hb; [eauto|].
      destruct (forall2_right _ _ _ _ (tick_build _ _ _ Ht _) Hb) as (b2 & Hb2 & E & _).
      destruct (IH _ Hb2) as (b3 & Hb3 & E3). exists b3. split; [done|congruence]. }
    pose proof (history_single _ Hh' _ _ _ Hn Hb' Hs). congruence.
  - eapply (ticks_flow nowhere d); [by apply ticks_kept | exact (reopened_history _ _ _ _ Hh H) |..].
    + by apply (reopened_flow k id db d n n').
    + by apply (reopened_waits k id db d n n').
Qed.

Lemma changes_flow db db' :
  rtc change db db' -> history db -> flow db -> waits nowhere db -> flow db' /\ waits nowhere db'.
Proof.
  induction 1 as [|d1 d2 d3 H _ IH]; [done|]. intros Hh Hf Hw.
  destruct (change_flow _ _ H Hh Hf Hw). apply IH; [by eapply change_history|done..].
Qed.

(** ** Admissions *)

(** A chain of dependencies stays among the nodes that were there, or among the
    new ones. *)
Lemma tc_component (old : Uuid -> Prop) (R S T : relation Uuid) :
  (forall x y, T x y -> old x /\ old y /\ R x y \/ ~ old x /\ ~ old y /\ S x y) ->
  forall x y, tc T x y -> old x /\ old y /\ tc R x y \/ ~ old x /\ ~ old y /\ tc S x y.
Proof.
  intros H x y. induction 1 as [x y Hxy|x y z Hxy _ IH].
  - destruct (H _ _ Hxy) as [(? & ? & ?)|(? & ? & ?)]; [left|right]; split_and!; try done; by constructor.
  - destruct (H _ _ Hxy) as [(? & ? & ?)|(? & ? & ?)], IH as [(? & ? & ?)|(? & ? & ?)]; try done;
      [left|right]; split_and!; try done; by eapply tc_l.
Qed.

Lemma post_completed `{DagExternal} node dep :
  validate_node_fields node = Ok tt -> node_kind node = Post -> dep ∈ dependencies node ->
  dep_condition dep = Completed.
Proof.
  unfold validate_node_fields. intros Hv Hk Hd. repeat (apply bind_ok in Hv as (? & _ & Hv)).
  apply refuse_else in Hv as [Hv _]. rewrite bool_decide_true in Hv by done. simpl in Hv.
  apply orb_false_iff in Hv as [_ Hv]. destruct (dep_condition dep) eqn:E; [|done]. exfalso.
  apply not_true_iff_false in Hv. apply Hv, existsb_exists. exists dep.
  split; [by apply list_elem_of_In|]. by rewrite E.
Qed.

Section Admission.
Context `{DX : DagExternal}.
Variables (now : Z) (build : Uuid) (input : NewDagBuild) (m : bmap DagNodeAdmission)
  (l : list (NewDagNode * (Uuid * Uuid))) (db d1 db' : Db).
Hypotheses (Hf : flow db) (Hw : waits nowhere db) (Hh' : history db')
  (Hrows : admitted_rows now build l db d1) (Hnodes : nodes db' = nodes d1)
  (Hdeps : deps db' = deps db ++ concat (map (node_edges build m) (build_nodes input)))
  (Hl : forall node k i, (node, (k, i)) ∈ l -> node ∈ build_nodes input)
  (Hone : forall node k i k' i', (node, (k, i)) ∈ l -> (node, (k', i')) ∈ l -> k = k')
  (Hall : forall node, node ∈ build_nodes input -> exists k i, (node, (k, i)) ∈ l)
  (Hkeys : forall node k i, (node, (k, i)) ∈ l -> is_Some (bget (node_key node) m))
  (Hmap : forall key e, bget key m = Some e ->
     exists node i, (node, (adm_node e, i)) ∈ l /\ node_key node = key)
  (Hbc : bounded_contract input) (Hac : forall k, ~ tc (depends (build_nodes input)) k k)
  (Hnew : forall k i a, newest db k i a -> newest db' k i a)
  (Hhist : history db).

(** The row of a node of the contract. *)
Lemma new_row node k i :
  (node, (k, i)) ∈ l -> nodes db' !! k = Some (new_node now build node) /\ nodes db !! k = None.
Proof. rewrite Hnodes. apply (admitted_new _ _ _ _ _ Hrows). Qed.

Lemma old_row k n : nodes db !! k = Some n -> nodes db' !! k = Some n.
Proof. rewrite Hnodes. apply (admitted_old _ _ _ _ _ Hrows). Qed.

Lemma key_unique n1 n2 :
  n1 ∈ build_nodes input -> n2 ∈ build_nodes input -> node_key n1 = node_key n2 -> n1 = n2.
Proof. apply node_unique. apply (bc_keys _ Hbc). Qed.

(** Both ends of a new dependency are nodes of the contract. *)
Lemma new_edge d :
  d ∈ concat (map (node_edges build m) (build_nodes input)) ->
  exists node dep pnode i j, dep ∈ dependencies node /\ d_condition d = dep_condition dep
    /\ (node, (d_child d, i)) ∈ l /\ (pnode, (d_parent d, j)) ∈ l
    /\ node_key pnode = dep_node_key dep.
Proof.
  intros (node & dep & child & parent & Hnode & Hdep & Hc & Hp & ->)%node_edges_elem. cbn.
  destruct (Hmap _ _ Hc) as (node' & i & Hin & Ek), (Hmap _ _ Hp) as (pnode & j & Hpin & Epk).
  assert (node' = node) as -> by (apply key_unique; [by eapply Hl|done|done]).
  by exists node, dep, pnode, i, j.
Qed.

Definition key_of (k : Uuid) : string :=
  match nodes db' !! k with Some n => n_key n | None => "" end.

Lemma edge_component k p :
  edge (deps db') k p ->
  is_Some (nodes db !! k) /\ is_Some (nodes db !! p) /\ edge (deps db) k p
  \/ ~ is_Some (nodes db !! k) /\ ~ is_Some (nodes db !! p)
     /\ depends (build_nodes input) (key_of k) (key_of p).
Proof.
  intros (d & Hd & <- & <-). rewrite Hdeps in Hd. apply elem_of_app in Hd as [Hd|Hd].
  - left. destruct (flow_deps _ Hf _ Hd) as (p & c & -> & -> & _). split_and!; eauto. by exists d.
  - right. destruct (new_edge _ Hd) as (node & dep & pnode & i & j & Hdep & _ & Hc & Hp & Ek).
    destruct (new_row _ _ _ Hc) as [Hc' ->], (new_row _ _ _ Hp) as [Hp' ->].
    split_and!; [by intros [? ?]..|]. unfold key_of. rewrite Hc', Hp'. cbn.
    exists node. split_and!; [by eapply Hl|done|]. unfold parents. apply list_elem_of_fmap.
    by exists dep.
Qed.

Lemma tc_keys k p :
  tc (fun x y => depends (build_nodes input) (key_of x) (key_of y)) k p ->
  tc (depends (build_nodes input)) (key_of k) (key_of p).
Proof. induction 1; [by constructor | by eapply tc_l]. Qed.

(** A new node that is queued has no dependency, and a new node is open. *)
Lemma new_open node k i :
  (node, (k, i)) ∈ l -> settled_node (n_status (new_node now build node)) = false.
Proof. intros _. cbn. by destruct (dependencies node). Qed.

Lemma admission_flow : flow db'.
Proof.
  split.
  - intros d Hd. rewrite Hdeps in Hd. apply elem_of_app in Hd as [Hd|Hd].
    + destruct (flow_deps _ Hf _ Hd) as (p & c & Hp & Hc & E). exists p, c.
      split_and!; [by apply old_row..|done].
    + destruct (new_edge _ Hd) as (node & dep & pnode & i & j & _ & _ & Hc & Hp & _).
      exists (new_node now build pnode), (new_node now build node).
      split_and!; [by eapply new_row|by eapply new_row|done].
  - intros k Hk. destruct (tc_component _ _ _ _ edge_component _ _ Hk) as [(_ & _ & H)|(_ & _ & H)].
    + by eapply (flow_acyclic _ Hf).
    + by eapply Hac, tc_keys.
  - intros d c Hd Hc Hk. rewrite Hdeps in Hd. apply elem_of_app in Hd as [Hd|Hd].
    + destruct (flow_deps _ Hf _ Hd) as (_ & c0 & _ & Hc0 & _).
      pose proof (old_row _ _ Hc0). simplify_eq. by eapply (flow_post _ Hf).
    + destruct (new_edge _ Hd) as (node & dep & pnode & i & j & Hdep & -> & Hcn & _).
      destruct (new_row _ _ _ Hcn) as [Hc' _]. simplify_eq. cbn in Hk.
      eapply post_completed; [|done|done]. eapply (bc_fields _ Hbc). by eapply Hl.
  - intros k n i a d Hn Hi Ha Hd Ek Ec. rewrite Hdeps in Hd. apply elem_of_app in Hd as [Hd|Hd].
    + destruct (flow_deps _ Hf _ Hd) as (p0 & c & Hp0 & Hc & _). rewrite Ek in Hc.
      assert (n = c) as -> by (pose proof (old_row _ _ Hc); congruence).
      destruct (history_agrees _ Hhist _ _ Hc) as (b & j & o & _ & Hj & _).
      destruct (newest_unique _ _ _ _ _ _ Hh' Hi (Hnew _ _ _ Hj)) as [-> ->].
      destruct (flow_met _ Hf k c j o d) as (p & Hp & Hs); try done.
      exists p. split; [by apply old_row | done].
    + exfalso. destruct (new_edge _ Hd) as (node & dep & pnode & i' & j & Hdep & _ & Hc & _).
      destruct (new_row _ _ _ Hc) as [Hc' _]. rewrite Ek in Hc'.
      assert (n = new_node now build node) as -> by congruence.
      destruct (history_agrees _ Hh' _ _ Hc') as (b & j' & o & _ & Hj & Hag).
      destruct (newest_unique _ _ _ _ _ _ Hh' Hi Hj) as [_ ->]. unfold agrees in Hag.
      cbn in *. destruct (dependencies node); [by apply elem_of_nil in Hdep|].
      by destruct (a_status o).
Qed.

Lemma admission_waits : waits nowhere db'.
Proof.
  intros k n Hn Hs _. rewrite Hnodes in Hn.
  destruct (admitted_only _ _ _ _ _ Hrows _ _ Hn) as [Hold|(node & i & Hin & ->)].
  - destruct (Hw k n Hold Hs) as (d & p & Hd & Ek & Hp & Hop); [by intros []|].
    exists d, p. rewrite Hdeps. split_and!; [by apply elem_of_app; left|done|by apply old_row|done].
  - cbn in Hs. destruct (dependencies node) as [|dep rest] eqn:Edeps; [done|].
    assert (Hdep : dep ∈ dependencies node) by (rewrite Edeps; by left).
    destruct (bc_parents _ Hbc node) as (_ & _ & Hpar); [by eapply Hl|].
    destruct (proj1 (list_elem_of_fmap _ _ _) (Hpar (dep_node_key dep)
      ltac:(apply list_elem_of_fmap; by exists dep))) as (pnode & Epk & Hpn).
    destruct (Hall _ Hpn) as (pk & pi & Hpin). destruct (Hkeys _ _ _ Hpin) as [parent Hparent].
    destruct (Hkeys _ _ _ Hin) as [child Hchild].
    destruct (Hmap _ _ Hparent) as (pnode' & pj & Hpin' & Epk').
    destruct (Hmap _ _ Hchild) as (node' & cj & Hcin & Eck).
    assert (node' = node) as -> by (apply key_unique; [by eapply Hl|by eapply Hl|done]).
    assert (adm_node child = k) as <- by (by eapply Hone).
    eexists (MkDependency build (adm_node parent) (adm_node child) (dep_condition dep)), _. cbn.
    split_and!; [|done|by eapply new_row|by eapply new_open].
    rewrite Hdeps. apply elem_of_app. right. apply list_elem_of_In, in_concat. eexists.
    split; [apply in_map_iff; exists node; split; [done|]; apply list_elem_of_In; by eapply Hl|].
    apply list_elem_of_In, list_elem_of_omap. exists dep. split; [done|].
    rewrite Hchild. simpl. rewrite Epk, Hparent. done.
Qed.

End Admission.

Lemma zip_total {A B} (l : list A) (r : list B) x :
  length l = length r -> x ∈ l -> exists y, (x, y) ∈ zip l r.
Proof.
  revert r. induction l as [|a l IH]; intros [|b r] E Hx; try done; [by apply elem_of_nil in Hx|].
  apply elem_of_cons in Hx as [->|Hx]; [exists b; by left|].
  destruct (IH r) as [y Hy]; [by injection E|done|]. exists y. by right.
Qed.

Lemma zip_functional {A B} (l : list A) (r : list B) x y z :
  NoDup l -> (x, y) ∈ zip l r -> (x, z) ∈ zip l r -> y = z.
Proof.
  revert r. induction l as [|a l IH]; intros [|b r] Hnd Hy Hz; try (by apply elem_of_nil in Hy).
  apply NoDup_cons in Hnd as [Ha Hnd]. simpl in Hy, Hz.
  apply elem_of_cons in Hy as [[=-> ->]|Hy], Hz as [Ez|Hz].
  - congruence.
  - by apply elem_of_zip_l in Hz.
  - injection Ez as -> ->. by apply elem_of_zip_l in Hy.
  - by eapply IH.
Qed.

Lemma new_build_flow build row db :
  flow db -> waits nowhere db ->
  flow (db <| builds := <[build := row]> (builds db) |>)
  /\ waits nowhere (db <| builds := <[build := row]> (builds db) |>).
Proof. intros Hf Hw. split; [split; apply Hf | exact Hw]. Qed.

Lemma kept_flow db db' : kept db db' -> flow db -> waits nowhere db -> flow db' /\ waits nowhere db'.
Proof.
  intros [E1 E2 E3 _ _ _ _ _ _ _] F W. destruct db, db'. cbn in *. subst.
  split; [split; apply F | exact W].
Qed.

(** A new node without dependencies. *)
Lemma one_node_flow k n db db' :
  nodes db !! k = None -> nodes db' = <[k := n]> (nodes db) -> deps db' = deps db ->
  n_status n = NQueued -> (forall k' i a, newest db k' i a -> newest db' k' i a) ->
  history db -> history db' -> flow db -> waits nowhere db -> flow db' /\ waits nowhere db'.
Proof.
  intros Hk En Ed Hq Hnew Hh Hh' Hf Hw.
  assert (Hold : forall k' m, nodes db !! k' = Some m -> nodes db' !! k' = Some m)
    by (intros k' m Hm; rewrite En, lookup_insert_ne by congruence; done).
  assert (Hends : forall d, d ∈ deps db -> exists p c, nodes db !! d_parent d = Some p
    /\ nodes db !! d_child d = Some c /\ n_build p = n_build c) by apply Hf.
  split; [split|].
  - rewrite Ed. intros d Hd. destruct (Hends d Hd) as (p & c & ? & ? & ?). exists p, c. eauto.
  - rewrite Ed. apply Hf.
  - rewrite Ed. intros d c Hd Hc. destruct (Hends d Hd) as (_ & c0 & _ & Hc0 & _).
    rewrite (Hold _ _ Hc0) in Hc. simplify_eq. by eapply flow_post.
  - rewrite Ed. intros k' m i a d Hm Hi Ha Hd Ek Ec. destruct (Hends d Hd) as (p & c & _ & Hc & _).
    rewrite Ek in Hc. rewrite (Hold _ _ Hc) in Hm. simplify_eq.
    destruct (history_agrees _ Hh _ _ Hc) as (b & j & o & _ & Hj & _).
    destruct (newest_unique _ _ _ _ _ _ Hh' Hi (Hnew _ _ _ Hj)) as [-> ->].
    destruct (flow_met _ Hf _ _ _ _ _ Hc Hj Ha Hd eq_refl Ec) as (q & Hp & Hs). exists q. auto.
  - intros k' m Hm Hs Hn. rewrite En in Hm.
    apply lookup_insert_Some in Hm as [[_ <-]|[_ Hm]]; [congruence|].
    destruct (Hw k' m Hm Hs Hn) as (d & p & Hd & Ek & Hp & Hop). exists d, p.
    rewrite Ed. auto.
Qed.

Section Flow.
Context `{PG : Postgres} `{DX : DagExternal} `{WT : WorkspaceTransfer}.

Lemma admit_dag_flow now build ids input contract sequential db r db' :
  sound db -> flow db -> waits nowhere db ->
  admit_dag_contract_transaction now build ids input contract sequential db = Ok (r, db') ->
  flow db' /\ waits nowhere db'.
Proof.
  intros Hs Hf Hw H. pose proof (admit_dag_sound _ _ _ _ _ _ _ _ _ Hs H) as [Hh' _].
  unfold admit_dag_contract_transaction in H. inv_tx; try done.
  match goal with H : invalid_dag _ = Ok ?u |- _ =>
    unfold invalid_dag, map_err in H; destruct (validate_dag_contract input) as [[]|] eqn:Hv; [|done] end.
  destruct (validate_accepts _ Hv) as [Hbc Hac].
  match goal with H : bool_decide (is_Some _) = false |- _ => apply bool_decide_none in H as Hfresh end.
  match goal with H : try_fold (admit_node _ _) (_, ?d) ?l = Ok (?m, ?d') |- _ =>
    rename H into Hfold; set (d0 := d) in *; set (rows := l) in *; rename m into admitted;
    rename d' into d1 end.
  apply admit_nodes_rows in Hfold as (Hrows & Hsound & _ & Hkeys & Hmap); [|constructor].
  assert (Hs0 : sound d0) by (by apply new_build_sound).
  destruct Hsound as [[Hh1 _] Hnew]; [done| |].
  { eexists. unfold d0. cbn. by rewrite lookup_insert_eq. }
  destruct (new_build_flow build (new_build now input contract a0) db Hf Hw) as [Hf0 Hw0].
  assert (Hnd : NoDup (build_nodes input)) by (eapply NoDup_fmap_1, (bc_keys _ Hbc)).
  assert (Hlen : length (build_nodes input)
    = length (map ids (seq 0 (length (build_nodes input))))) by (by rewrite length_map, length_seq).
  assert (Hdeps : deps d1 = deps d0) by apply (admitted_deps _ _ _ _ _ Hrows).
  assert (Hl : forall node k i, (node, (k, i)) ∈ rows -> node ∈ build_nodes input)
    by (intros ??? ?%elem_of_zip_l; done).
  assert (Hone : forall node k i k' i', (node, (k, i)) ∈ rows -> (node, (k', i')) ∈ rows -> k = k').
  { intros ????? H1 H2. by injection (zip_functional _ _ _ _ _ Hnd H1 H2). }
  assert (Hall : forall node, node ∈ build_nodes input -> exists k i, (node, (k, i)) ∈ rows).
  { intros node Hn. destruct (zip_total _ _ _ Hlen Hn) as [[k i] ?]. by exists k, i. }
  assert (Hmap' : forall key e, bget key admitted = Some e ->
    exists node i, (node, (adm_node e, i)) ∈ rows /\ node_key node = key)
    by (intros key e He; by destruct (Hmap key e He)).
  split; [eapply (admission_flow now build input admitted rows d0 d1)
         | eapply (admission_waits now build input admitted rows d0 d1)];
    try done; try (by apply Hs0); cbn; by rewrite Hdeps.
Qed.

Lemma admit_build_flow now build node attempt input db r db' :
  sound db -> flow db -> waits nowhere db ->
  admit_build now build node attempt input db = Ok (r, db') -> flow db' /\ waits nowhere db'.
Proof.
  intros Hs Hf Hw H. pose proof (admit_build_sound _ _ _ _ _ _ _ _ Hs H) as [Hh' _].
  unfold admit_build in H. inv_tx; try done.
  match goal with H : insert_attempt _ _ _ = Ok ?p |- _ => destruct p as [x d]; rename H into Hins end.
  repeat match goal with H : bool_decide (is_Some _) = false |- _ => apply bool_decide_none in H end.
  match type of Hins with insert_attempt _ _ (?d0 <| nodes := _ |>) = _ => set (db0 := d0) in * end.
  destruct (insert_attempt_rows _ _ _ _ _ Hins) as (a' & _ & _ & _ & _ & En & Ed & _).
  assert (Hs0 : sound db0) by (by apply new_build_sound).
  eapply (first_attempt_sound now node attempt (new_single_node now build input)) in Hins
    as [_ Hnew]; [|done|cbn; apply lookup_insert_eq|done|by right|done|done].
  destruct (new_build_flow build (new_single_build now input a) db Hf Hw).
  eapply (one_node_flow node (new_single_node now build input) db0); try done; apply Hs0.
Qed.

Lemma step_flow db db' :
  step no_retry db db' -> sound db -> flow db -> waits nowhere db -> flow db' /\ waits nowhere db'.
Proof.
  intros [now op d d' Hop H|d d' (E1 & E2 & E3 & E4 & _)] Hs Hf Hw.
  - pose proof Hs as [Hh _]. destruct op; simpl in H; unfold committed in H; inv_tx.
    + by eapply admit_dag_flow.
    + match goal with H : admit_sequential_dag _ _ _ _ _ _ = _ |- _ =>
        apply admit_sequential_kept in H as (d1 & Ha & K) end.
      destruct (admit_dag_flow _ _ _ _ _ _ _ _ _ Hs Hf Hw Ha). by eapply kept_flow.
    + by eapply admit_build_flow.
    + by eapply changes_flow; [eapply changes_claim|..].
    + by eapply changes_flow; [eapply changes_accept|..].
    + by eapply changes_flow; [eapply changes_renew|..].
    + by eapply changes_flow; [eapply changes_expire|..].
    + by eapply changes_flow; [eapply changes_run|..].
    + by eapply changes_flow; [eapply changes_finalize|..].
    + by eapply changes_flow; [eapply changes_recover|..].
    + by eapply changes_flow; [eapply changes_complete|..].
    + by eapply changes_flow; [eapply changes_cancel|..].
    + by eapply changes_flow; [eapply changes_reconcile|..].
    + by destruct Hop.
    + by eapply changes_flow; [eapply changes_restore|..].
  - by eapply changes_flow; [apply changes_tables|apply Hs|..].
Qed.

Lemma initial_flow db : initial db -> flow db /\ waits nowhere db.
Proof.
  intros (E1 & E2 & E3 & E4 & _).
  assert (Hn : forall k n, nodes db !! k = Some n -> False) by (intros k n; by rewrite E2).
  assert (Hd : forall d, d ∈ deps db -> False) by (intros d; rewrite E4; apply not_elem_of_nil).
  split; [split|intros k n Hk; by apply Hn in Hk]; try (intros; exfalso; by eauto).
  intros k Hk. destruct Hk as [? ? (d & H & _)|? ? ? (d & H & _) _]; by apply Hd in H.
Qed.

Lemma reachable_flow db : reachable no_retry db -> flow db /\ waits nowhere db.
Proof.
  intros (start & Hi & H). pose proof (initial_sound _ Hi) as Hs.
  apply initial_flow in Hi as [Hf Hw].
  induction H as [|d1 d2 d3 H _ IH]; [done|].
  destruct (step_flow _ _ H Hs Hf Hw). apply IH; [done..|by eapply step_sound].
Qed.

#[export] Instance open_parent_dec db k : Decision (open_parent db k).
Proof.
  refine (cast_if (decide (Exists (fun d => d_child d = k
    /\ from_option (fun p => settled_node (n_status p)) true (nodes db !! d_parent d) = false)
    (deps db)))); rewrite Exists_exists in *; unfold open_parent.
  - destruct e as (d & Hd & Ek & Hs). exists d. destruct (nodes db !! d_parent d) as [p|]; naive_solver.
  - intros (d & p & Hd & Ek & Hp & Hs). apply n. exists d. by rewrite Hp.
Defined.

Lemma edge_sn db k : flow db -> sn (edge (deps db)) k.
Proof.
  intros Hf. apply tc_finite_sn; [intros x; apply Hf|]. exists (map d_parent (deps db)).
  intros p. induction 1 as [x p (d & Hd & _ & <-)|]; [|done]. apply list_elem_of_fmap. by exists d.
Qed.

(** An open node depends on an open node that waits for none. *)
Lemma open_source db k n :
  flow db -> nodes db !! k = Some n -> settled_node (n_status n) = false ->
  exists k' n', rtc (edge (deps db)) k k' /\ nodes db !! k' = Some n'
    /\ n_build n' = n_build n /\ settled_node (n_status n') = false /\ ~ open_parent db k'.
Proof.
  intros Hf. revert n. induction (edge_sn db k Hf) as [k _ IH]. intros n Hn Hs.
  destruct (decide (open_parent db k)) as [(d & p & Hd & Ek & Hp & Hop)|Hno].
  - destruct (flow_deps _ Hf _ Hd) as (p' & c & Hp' & Hc & E). rewrite Ek in Hc. simplify_eq.
    assert (He : edge (deps db) (d_child d) (d_parent d)) by (by exists d).
    destruct (IH _ He _ Hp Hop) as (k' & n' & Hr & Hn' & Eb & Hs' & Hno).
    exists k', n'. split_and!; [by eapply rtc_l|done|congruence|done..].
  - exists k, n. by split_and!; [apply rtc_refl|..].
Qed.

(** ** The theorems *)

(** C3. One lease at a time. Whatever the controllers, agents and operators of
    a tenant do, two attempts of one node that are queued or leased are the same
    attempt, it is the newest attempt of its node, and the status of every node
    agrees with its newest attempt, which exists. *)
Theorem one_live_attempt db :
  reachable any_operation db ->
  (forall i j a o, attempts db !! i = Some a -> attempts db !! j = Some o ->
     live (a_status a) = true -> live (a_status o) = true -> a_node a = a_node o -> i = j)
  /\ (forall i a, attempts db !! i = Some a -> live (a_status a) = true ->
        newest db (a_node a) i a)
  /\ (forall k n, nodes db !! k = Some n ->
        exists b i a, builds db !! n_build n = Some b /\ newest db k i a /\ agrees n b a).
Proof.
  intros [Hh _]%reachable_sound. split_and!; [|apply Hh|apply Hh].
  intros i j a o Hi Hj La Lo E. pose proof (history_live _ Hh _ _ Hi La) as Na.
  pose proof (history_live _ Hh _ _ Hj Lo) as No. rewrite E in Na.
  by destruct (newest_unique _ _ _ _ _ _ Hh Na No).
Qed.

(** C4. Where a build can stall. In a history without an operator's retry, an open
    node of a build is, or transitively depends on, an open node of the same build
    whose dependencies are all satisfied and that is not blocked. Its newest
    attempt is queued for a claim, leased to an agent, or parked for an operator's
    reconciliation; or the attempt is terminal and the node is left in
    reconciliation, which happens only to a node of which cancellation was
    requested and that has an outcome already, since it was settled before its
    agent acknowledged the cancellation. *)
Theorem no_deadlock db k n :
  reachable no_retry db -> nodes db !! k = Some n -> settled_node (n_status n) = false ->
  exists k' n' b i a,
    rtc (edge (deps db)) k k' /\ nodes db !! k' = Some n' /\ n_build n' = n_build n
    /\ builds db !! n_build n = Some b /\ ready db k' = true /\ newest db k' i a
    /\ (n_status n' = NQueued /\ a_status a = AQueued
        \/ (n_status n' = NOffered \/ n_status n' = NRunning) /\ leased_attempt (a_status a) = true
        \/ n_status n' = NReconciliation /\ a_status a = AReconciliation
        \/ n_status n' = NReconciliation /\ terminal_attempt (a_status a) = true
           /\ n_outcome n' <> None /\ flagged n' b = true).
Proof.
  intros Hr Hn Hs. destruct (reachable_sound _ _ Hr) as [Hh _].
  apply reachable_flow in Hr as [Hf Hw].
  destruct (open_source db k n Hf Hn Hs) as (k' & n' & Hrt & Hn' & Eb & Hs' & Hno).
  destruct (history_agrees _ Hh _ _ Hn') as (b & i & a & Hb & Hi & Ha).
  exists k', n', b, i, a. split_and!; try done; [congruence|..].
  - apply not_false_iff_true. intros Hrd. eapply Hno, not_ready_open; try done.
    unfold agrees in Ha. destruct (n_status n') eqn:E; try done.
    by destruct Hno; eapply Hw; [|done|intros []].
  - unfold agrees in Ha. destruct (n_status n') eqn:E; try done.
    + by destruct Hno; eapply Hw; [|done|intros []].
    + left. by destruct (a_status a).
    + right. left. split; [by left|]. by destruct (a_status a).
    + right. left. split; [by right|]. by destruct (a_status a).
    + right. right. destruct (a_status a); try discriminate; first [by left | right];
        apply andb_true_iff in Ha as [Ho Hfl]; by destruct (n_outcome n').
Qed.

End Flow.
