(* ===== verification/DagAdvance.v ===== *)
(** * Advancing the blocked nodes of a build

    [advance_blocked_nodes] repeats two UPDATE statements until neither changes
    a row. A reference definition says what it has to reach: the nodes whose
    success dependencies can no longer be met are skipped, transitively; then
    the nodes whose dependencies are all met are queued; the others stay. The
    loop terminates within its fuel and reaches exactly that. *)

From stdpp Require Import base gmap sets list strings pretty.
From Stdlib Require Import ZArith Lia.
From S2P Require Import Prelude Text Bytes Domain DagContract StoreTables DagRuntime Scheduler.
From S2P Require Import WorkspaceStore.
From S2P Require Import Attempts Lifecycle StoreFrames AttemptMoves History NodeTurns NodeHistory.
From S2P Require Import NodeFlow.

Open Scope Z_scope.

(** ** The reference *)

(** A node waiting in the build. *)
Definition waiting (build : Uuid) (n : Node) : bool :=
  of_build build n && bool_decide (n_status n = NBlocked).

(** A waiting node, not a post node, that needs the success of a parent. *)
Definition needs (build : Uuid) (db : Db) (k : Uuid) (n : Node) (d : Dependency) : Prop :=
  nodes db !! k = Some n /\ waiting build n = true /\ n_kind n <> Post
  /\ d ∈ deps db /\ d_child d = k /\ d_condition d = Succeeded.

(** The nodes that can never run: not a post node, and needs the success of a
    node that failed, was aborted or skipped, or of another such node. *)
Inductive doomed (build : Uuid) (db : Db) : Uuid -> Prop :=
| doomed_lost k n d : needs build db k n d -> lost_parent (nodes db) d = true -> doomed build db k
| doomed_chain k n d : needs build db k n d -> doomed build db (d_parent d) -> doomed build db k.

(** The dependency is met once the doomed nodes are skipped. *)
Definition met (build : Uuid) (db : Db) (d : Dependency) : Prop :=
  forall p, nodes db !! d_parent d = Some p ->
    match d_condition d with
    | Succeeded => n_status p = NSucceeded
    | Completed => settled_node (n_status p) = true \/ doomed build db (d_parent d)
    end.

Definition may_run (build : Uuid) (db : Db) (k : Uuid) : Prop :=
  forall d, d ∈ deps db -> d_child d = k -> met build db d.

Definition queue_node (now : Z) (n : Node) : Node :=
  n <| n_status := NQueued |> <| n_queued_at := now |>.

(** The row a node must be left with. *)
Inductive advanced (now : Z) (build : Uuid) (db : Db) (k : Uuid) (n : Node) : Node -> Prop :=
| advanced_skipped : waiting build n = true -> doomed build db k ->
    advanced now build db k n (settle_node NSkipped LSkipped n)
| advanced_queued : waiting build n = true -> may_run build db k ->
    advanced now build db k n (queue_node now n)
| advanced_still : (waiting build n = true -> ~ doomed build db k /\ ~ may_run build db k) ->
    advanced now build db k n n.

(** ** One round *)

Section Round.
Variables (now : Z) (build : Uuid).

Lemma skip_pass_rows db k :
  nodes (skip_pass now build db).2 !! k
  = (fun n => if skippable db build k n then settle_node NSkipped LSkipped n else n) <$> nodes db !! k.
Proof.
  unfold skip_pass. simpl. transitivity (stepped now (skippable db build)
    (settle_node NSkipped LSkipped) db k <$> nodes db !! k).
  - destruct (exists_row _ _); apply lookup_nodes_update_nodes.
  - destruct (nodes db !! k); [|done]. simpl. by rewrite stepped_leaves.
Qed.

Lemma ready_pass_rows db k :
  nodes (ready_pass now build db).2 !! k
  = (fun n => if readiable db build k n then queue_node now n else n) <$> nodes db !! k.
Proof.
  unfold ready_pass. simpl. transitivity (stepped now (readiable db build)
    (fun n => n <| n_status := NQueued |> <| n_queued_at := now |>) db k <$> nodes db !! k).
  - destruct (exists_row _ _); apply (lookup_nodes_update_nodes now).
  - destruct (nodes db !! k) as [n|]; [|done]. simpl. f_equal. unfold stepped.
    destruct (readiable db build k n) eqn:E; [|done]. unfold readiable in E. bool_prop.
    unfold translate_readiness, enters_queue. cbn. by rewrite H0, (bool_decide_eq_true_1 _ H1).
Qed.

Lemma skip_pass_deps db : deps (skip_pass now build db).2 = deps db.
Proof. unfold skip_pass. simpl. by destruct (exists_row _ _). Qed.
Lemma ready_pass_deps db : deps (ready_pass now build db).2 = deps db.
Proof. unfold ready_pass. simpl. by destruct (exists_row _ _). Qed.

(** ** Towards the reference *)

(** The rows of [d] are rows of [db], some of them already as they must be. *)
Record toward (db d : Db) : Prop := {
  toward_deps : deps d = deps db;
  toward_rows k : option_Forall2 (fun n m => m = n
      \/ waiting build n = true /\ doomed build db k /\ m = settle_node NSkipped LSkipped n
      \/ waiting build n = true /\ may_run build db k /\ m = queue_node now n)
    (nodes db !! k) (nodes d !! k)
}.

Lemma toward_refl db : toward db db.
Proof. split; [done|]. intros k. destruct (nodes db !! k); constructor. by left. Qed.

Lemma toward_row db d k m :
  toward db d -> nodes d !! k = Some m -> exists n, nodes db !! k = Some n /\ (m = n
      \/ waiting build n = true /\ doomed build db k /\ m = settle_node NSkipped LSkipped n
      \/ waiting build n = true /\ may_run build db k /\ m = queue_node now n).
Proof.
  intros H Hm. pose proof (toward_rows _ _ H k) as Hr. rewrite Hm in Hr.
  destruct (nodes db !! k) as [n|]; inversion Hr; subst. eauto.
Qed.

(** A waiting row has not changed yet. *)
Lemma toward_waiting db d k m :
  toward db d -> nodes d !! k = Some m -> waiting build m = true -> nodes db !! k = Some m.
Proof.
  intros H Hm Hw. destruct (toward_row _ _ _ _ H Hm) as (n & Hn & [->|[(_ & _ & ->)|(_ & _ & ->)]]).
  - done.
  - unfold waiting in Hw. cbn in Hw. by rewrite andb_comm in Hw.
  - unfold waiting in Hw. cbn in Hw. by rewrite andb_comm in Hw.
Qed.

Lemma doomed_waiting db k :
  doomed build db k -> exists n, nodes db !! k = Some n /\ waiting build n = true.
Proof. intros [k' n d (Hn & Hw & _) _|k' n d (Hn & Hw & _) _]; eauto. Qed.

Lemma waiting_blocked n : waiting build n = true -> n_status n = NBlocked.
Proof. unfold waiting. intros [_ H]%andb_true_iff. by eapply bool_decide_eq_true. Qed.

Lemma doomed_not_may_run db k : doomed build db k -> ~ may_run build db k.
Proof.
  intros [k' n d (_ & _ & _ & Hd & Ek & Ec) Hl|k' n d (_ & _ & _ & Hd & Ek & Ec) Hl] Hm;
    specialize (Hm d Hd Ek); unfold met in Hm; rewrite Ec in Hm.
  - unfold lost_parent in Hl. destruct (nodes db !! d_parent d) as [p|]; [|done].
    by rewrite (Hm p eq_refl) in Hl.
  - apply doomed_waiting in Hl as (m & Hm' & Hs%waiting_blocked). specialize (Hm _ Hm'). congruence.
Qed.

Lemma skippable_doomed db d k m :
  toward db d -> nodes d !! k = Some m -> skippable d build k m = true ->
  waiting build m = true /\ nodes db !! k = Some m /\ doomed build db k.
Proof.
  intros H Hm Hs. unfold skippable in Hs. bool_prop.
  assert (Hw : waiting build m = true) by (unfold waiting; by rewrite H0, H3).
  pose proof (toward_waiting _ _ _ _ H Hm Hw) as Hn. split_and!; [done..|].
  unfold impossible in H1. apply existsb_exists in H1 as (e & He%list_elem_of_In & H1). bool_prop.
  rewrite (toward_deps _ _ H) in He.
  assert (Hneeds : needs build db k m e).
  { repeat split; try done; [by eapply bool_decide_eq_false_1 | by eapply bool_decide_eq_true_1]. }
  unfold lost_parent in *. destruct (nodes d !! d_parent e) as [p|] eqn:Hp; [|done].
  destruct (toward_row _ _ _ _ H Hp) as (q & Hq & [->|[(_ & Hd & _)|(_ & _ & ->)]]).
  - eapply doomed_lost; [done|]. unfold lost_parent. by rewrite Hq.
  - by eapply doomed_chain.
  - done.
Qed.

Lemma readiable_may_run db d k m :
  toward db d -> nodes d !! k = Some m -> readiable d build k m = true ->
  waiting build m = true /\ nodes db !! k = Some m /\ may_run build db k.
Proof.
  intros H Hm Hs. unfold readiable in Hs. bool_prop.
  assert (Hw : waiting build m = true) by (unfold waiting; by rewrite H0, H2).
  pose proof (toward_waiting _ _ _ _ H Hm Hw) as Hn. split_and!; [done..|].
  intros e He Ek p Hp. pose proof (toward_rows _ _ H (d_parent e)) as Hr. rewrite Hp in Hr.
  destruct (nodes d !! d_parent e) as [q|] eqn:Hq; inversion Hr as [? ? Hrow|]; subst.
  rewrite <- (toward_deps _ _ H) in He.
  pose proof (ready_met _ _ e H1 He eq_refl) as Hu. unfold unsatisfied in Hu. rewrite Hq in Hu.
  destruct (d_condition e); apply negb_false_iff in Hu.
  - apply bool_decide_eq_true in Hu. by destruct Hrow as [->|[(_ & _ & ->)|(_ & _ & ->)]].
  - destruct Hrow as [->|[(_ & Hd & _)|(_ & _ & ->)]]; [by left|by right|done].
Qed.

Lemma toward_skip db d : toward db d -> toward db (skip_pass now build d).2.
Proof.
  intros H. split; [by rewrite skip_pass_deps; apply H|]. intros k. rewrite skip_pass_rows.
  pose proof (toward_rows _ _ H k) as Hr.
  destruct (nodes d !! k) as [m|] eqn:Hm; [|by inversion Hr; constructor].
  simpl. destruct (skippable d build k m) eqn:Hs; [|done].
  destruct (skippable_doomed _ _ _ _ H Hm Hs) as (Hw & -> & Hd). constructor. auto.
Qed.

Lemma toward_ready db d : toward db d -> toward db (ready_pass now build d).2.
Proof.
  intros H. split; [by rewrite ready_pass_deps; apply H|]. intros k. rewrite ready_pass_rows.
  pose proof (toward_rows _ _ H k) as Hr.
  destruct (nodes d !! k) as [m|] eqn:Hm; [|by inversion Hr; constructor].
  simpl. destruct (readiable d build k m) eqn:Hs; [|done].
  destruct (readiable_may_run _ _ _ _ H Hm Hs) as (Hw & -> & Hd). constructor. auto.
Qed.

(** ** Termination *)

(** The rows of the waiting nodes. *)
Definition waiting_rows (db : Db) : gmap Uuid Node :=
  filter (fun kn => waiting build kn.2 = true) (nodes db).

Lemma fewer_waiting (P : Uuid -> Node -> bool) f db db' :
  (forall k, nodes db' !! k = (fun n => if P k n then f n else n) <$> nodes db !! k) ->
  (forall k n, P k n = true -> waiting build n = true /\ waiting build (f n) = false) ->
  (size (waiting_rows db') + (if exists_row P (nodes db) then 1 else 0) <= size (waiting_rows db))%nat.
Proof.
  intros Hr HP.
  assert (Hsub : waiting_rows db' ⊆ waiting_rows db).
  { apply map_subseteq_spec. intros k m. unfold waiting_rows. rewrite !map_lookup_filter_Some, Hr.
    intros [Hm Hw]. destruct (nodes db !! k) as [n|]; [|done]. simpl in *.
    destruct (P k n) eqn:E; simplify_eq; [|done]. by rewrite (proj2 (HP _ _ E)) in Hw. }
  destruct (exists_row P (nodes db)) eqn:Ex; [|rewrite Nat.add_0_r; by apply map_subseteq_size].
  apply exists_row_true in Ex as (k & n & Hn & E). rewrite Nat.add_1_r. apply map_subset_size.
  split; [done|]. intros Hsup. destruct (HP _ _ E) as [Hw Hf].
  assert (Hin : waiting_rows db !! k = Some n) by (by apply map_lookup_filter_Some).
  eapply lookup_weaken in Hin; [|exact Hsup]. unfold waiting_rows in Hin.
  apply map_lookup_filter_Some in Hin as [Hk Hw']. rewrite Hr, Hn in Hk. simpl in Hk.
  rewrite E in Hk. simplify_eq. simpl in Hw'. congruence.
Qed.

Lemma skip_pass_fewer db :
  (size (waiting_rows (skip_pass now build db).2) + (if (skip_pass now build db).1 then 1 else 0)
   <= size (waiting_rows db))%nat.
Proof.
  apply (fewer_waiting (skippable db build) (settle_node NSkipped LSkipped) db); [apply skip_pass_rows|].
  intros k n H. unfold skippable in H. bool_prop. unfold waiting. rewrite H, H2.
  split; [done | apply andb_false_r].
Qed.

Lemma ready_pass_fewer db :
  (size (waiting_rows (ready_pass now build db).2) + (if (ready_pass now build db).1 then 1 else 0)
   <= size (waiting_rows db))%nat.
Proof.
  apply (fewer_waiting (readiable db build) (queue_node now) db); [apply ready_pass_rows|].
  intros k n H. unfold readiable in H. bool_prop. unfold waiting. rewrite H, H1.
  split; [done | apply andb_false_r].
Qed.

(** With more fuel than waiting nodes the loop ends, on its way to the reference. *)
Lemma advance_loop_toward fuel db d :
  (size (waiting_rows d) < fuel)%nat -> toward db d ->
  exists d', advance_loop fuel now build d = Ok d' /\ toward db d'.
Proof.
  revert d. induction fuel as [|fuel IH]; intros d Hf H; [lia|]. cbn [advance_loop].
  pose proof (toward_skip _ _ H) as H1. pose proof (skip_pass_fewer d) as F1.
  destruct (skip_pass now build d) as [sk d1]. cbn [fst snd] in *.
  pose proof (toward_ready _ _ H1) as H2. pose proof (ready_pass_fewer d1) as F2.
  destruct (ready_pass now build d1) as [re d2]. cbn [fst snd] in *.
  destruct sk, re; cbn [negb andb]; [apply IH; [lia|done]..|by exists d2].
Qed.

Lemma waiting_rows_size db : (size (waiting_rows db) <= size (nodes db))%nat.
Proof. apply map_subseteq_size, map_filter_subseteq. Qed.

(** ** The end of the loop *)

(** At the end no waiting node is ready or has a lost parent. *)
Lemma stable_impossible db d k n e :
  toward db d -> stable build d -> needs build db k n e -> lost_parent (nodes d) e = true ->
  nodes d !! k <> Some n.
Proof.
  intros H Hst (Hn & Hw & Hp & He & Ek & Ec) Hl Hd.
  pose proof (waiting_blocked _ Hw) as Hb. unfold waiting in Hw. bool_prop.
  destruct (Hst k n Hd H0 Hb) as [_ [Hpost|Himp]]; [done|].
  apply not_true_iff_false in Himp. apply Himp, existsb_exists. exists e.
  rewrite (toward_deps _ _ H). split; [by apply list_elem_of_In|].
  by rewrite Ek, String.eqb_refl, Ec, Hl.
Qed.

Lemma toward_doomed db d k n :
  toward db d -> doomed build db k -> nodes db !! k = Some n -> nodes d !! k <> Some n ->
  nodes d !! k = Some (settle_node NSkipped LSkipped n).
Proof.
  intros H Hd Hn Hne. pose proof (toward_rows _ _ H k) as Hr. rewrite Hn in Hr.
  inversion Hr as [? m [->|[(_ & _ & ->)|(_ & Hm & _)]] E1 E2|]; subst; [congruence|done|].
  by apply doomed_not_may_run in Hd.
Qed.

Lemma stable_doomed db d k :
  toward db d -> stable build d -> doomed build db k ->
  exists n, nodes db !! k = Some n /\ nodes d !! k = Some (settle_node NSkipped LSkipped n).
Proof.
  intros H Hst Hd. induction Hd as [k n e Hnd Hl|k n e Hnd Hd IH].
  - exists n. pose proof Hnd as (Hn & _). split; [done|]. eapply toward_doomed; try done.
    + by eapply doomed_lost.
    + eapply stable_impossible; try done. unfold lost_parent in *.
      destruct (nodes db !! d_parent e) as [p|] eqn:Hp; [|done].
      pose proof (toward_rows _ _ H (d_parent e)) as Hr. rewrite Hp in Hr.
      inversion Hr as [? m Hrow E1 E2|]; subst. 
      destruct Hrow as [->|[(Hw & _)|(Hw & _)]]; [done|..];
        apply waiting_blocked in Hw; by rewrite Hw in Hl.
  - exists n. pose proof Hnd as (Hn & _). split; [done|]. eapply toward_doomed; try done.
    + by eapply doomed_chain.
    + eapply stable_impossible; try done. destruct IH as (p & _ & Hp). unfold lost_parent. by rewrite Hp.
Qed.

Lemma stable_may_run db d k n :
  toward db d -> stable build d -> may_run build db k -> nodes db !! k = Some n ->
  waiting build n = true -> nodes d !! k = Some (queue_node now n).
Proof.
  intros H Hst Hm Hn Hw. pose proof (toward_rows _ _ H k) as Hr. rewrite Hn in Hr.
  inversion Hr as [? m [->|[(_ & Hd & _)|(_ & _ & ->)]] E1 E2|]; subst; [|by apply doomed_not_may_run in Hd|done].
  exfalso. pose proof (waiting_blocked _ Hw) as Hb. unfold waiting in Hw. bool_prop.
  destruct (Hst k n ltac:(done) H0 Hb) as [Hrd _]. apply not_ready_dep in Hrd as (e & He & Ek & Hu).
  rewrite (toward_deps _ _ H) in He. specialize (Hm e He Ek).
  unfold unsatisfied in Hu. pose proof (toward_rows _ _ H (d_parent e)) as Hp.
  destruct (nodes d !! d_parent e) as [q|] eqn:Hq; [|done].
  inversion Hp as [p ? Hrow E3 E4|]; subst. specialize (Hm p (eq_sym E3)).
  destruct (d_condition e).
  - apply negb_true_iff, bool_decide_eq_false in Hu.
    destruct Hrow as [->|[(Hw & _)|(Hw & _)]]; [done|..]; apply waiting_blocked in Hw; congruence.
  - apply negb_true_iff in Hu. destruct Hm as [Hs|Hd].
    + destruct Hrow as [->|[(Hw & _)|(Hw & _)]]; [congruence|..]; apply waiting_blocked in Hw;
        by rewrite Hw in Hs.
    + destruct (stable_doomed _ _ _ H Hst Hd) as (p' & _ & Hp'). rewrite Hq in Hp'. by simplify_eq.
Qed.

End Round.

(** C6. Advancing a DAG. For every state of the store, the loop over the two
    UPDATE statements ends, and leaves the node table of the reference: the
    waiting nodes of the build that can never run are skipped, those whose
    dependencies are met once they are skipped are queued, every other row is
    untouched, and so are the dependencies. *)
Theorem advance_blocked_exact now build db :
  exists db', advance_blocked_nodes now build db = Ok db' /\ deps db' = deps db
    /\ forall k, option_Forall2 (advanced now build db k) (nodes db !! k) (nodes db' !! k).
Proof.
  destruct (advance_loop_toward now build (S (size (nodes db))) db db) as (db' & Hok & H).
  { pose proof (waiting_rows_size build db). lia. }
  { apply toward_refl. }
  exists db'. split_and!; [done|by apply H|]. pose proof (stable_advance _ _ _ _ _ Hok) as Hst.
  intros k. pose proof (toward_rows _ _ _ _ H k) as Hr.
  destruct (nodes db !! k) as [n|] eqn:Hn; inversion Hr as [? m Hrow E1 E2|]; subst; constructor.
  destruct Hrow as [->|[(Hw & Hd & ->)|(Hw & Hm & ->)]]; [|by constructor..].
  apply advanced_still. intros Hw. pose proof (waiting_blocked _ _ Hw) as Hb. split.
  - intros Hd. destruct (stable_doomed _ _ _ _ _ H Hst Hd) as (p & _ & Hp).
    rewrite <- E2 in Hp. apply (f_equal (fmap n_status)) in Hp. simpl in Hp. congruence.
  - intros Hm. pose proof (stable_may_run _ _ _ _ _ _ H Hst Hm Hn Hw) as Hp.
    rewrite <- E2 in Hp. apply (f_equal (fmap n_status)) in Hp. simpl in Hp. congruence.
Qed.
