(* ===== verification/StoreTyped.v ===== *)
(** * The rows of every reachable store

    Every history leaves well-typed rows: references resolve, attempts are
    numbered, fences stay in range and held leases have owners, and the workspace
    columns of a build describe one checkpoint. The transactions touch the
    workspace columns in four places only: an admission opens them, [commit]
    advances them, the end of a build closes them. *)

From stdpp Require Import base gmap sets list strings pretty relations.
From Stdlib Require Import ZArith Lia.
From S2P Require Import Prelude Text Bytes Domain DagContract WorkspaceSnapshot StoreTables.
From S2P Require Import WorkspaceStore DagRuntime Sequential Scheduler Attempts WorkspaceChain.
From S2P Require Import Lifecycle StoreFrames AttemptMoves History NodeReachable.

Open Scope Z_scope.

(** ** Well-typed rows *)

Section Typed.
Context `{PG : Postgres} `{DX : DagExternal} `{WT : WorkspaceTransfer}.

(** An open checkpoint: its bytes are a valid snapshot, empty at generation
    zero and the one the stored receipt describes afterwards. *)
Definition open_checkpoint (b : Build) : Prop :=
  exists v s d, b_snapshot b = Some v /\ snapshot_from_value v = Ok s /\ snapshot_digest s = Ok d /\
    (b_ws_generation b = 0 -> s = empty_snapshot) /\
    (b_ws_generation b <> 0 -> exists rv r, b_receipt b = Some rv /\
       receipt_from_value rv = Ok r /\ snapshot_receipt s = Ok r).

Definition workspace_typed (b : Build) : Prop :=
  match b_namespace b with
  | None => b_ws_generation b = 0 /\ b_snapshot b = None /\ b_receipt b = None /\ b_closed b = false
  | Some _ =>
      0 <= b_ws_generation b /\ (b_ws_generation b = 0 <-> b_receipt b = None) /\
      (if b_closed b then b_snapshot b = None else open_checkpoint b)
  end.

Record attempt_typed (db : Db) (a : Attempt) : Prop := {
  at_node : is_Some (nodes db !! a_node a);
  at_ordinal : 1 <= a_ordinal a;
  at_fence : 0 <= a_fence a <= i64_max;
  at_owner : leased_attempt (a_status a) = true -> is_Some (a_owner a)
}.

Record store_typed (db : Db) : Prop := {
  st_builds k b : builds db !! k = Some b -> workspace_typed b;
  st_nodes k n : nodes db !! k = Some n -> is_Some (builds db !! n_build n);
  st_attempts i a : attempts db !! i = Some a -> attempt_typed db a;
  st_numbered i j a o : attempts db !! i = Some a -> attempts db !! j = Some o ->
    a_node a = a_node o -> a_ordinal a = a_ordinal o -> i = j;
  st_deps d : d ∈ deps db -> exists n b, nodes db !! d_child d = Some n /\
    builds db !! n_build n = Some b /\ b_dag_mode b = true
}.

(** ** Attempts *)

Definition lease_typed (a : Attempt) : Prop :=
  0 <= a_fence a <= i64_max /\ (leased_attempt (a_status a) = true -> is_Some (a_owner a)).

Lemma move_typed a a' c : move a a' c -> lease_typed a -> lease_typed a'.
Proof.
  unfold lease_typed.
  intros [ _ Es Ef Eo _ _ | ? _ _ _ Ef Hm Ho | ? ? _ _ Ho _ _ Ef Eo | ? ? _ _ _ _ Ht Ef _
         | ? ? _ _ _ _ Es Ef | _ Hs Es Ef Eo | _ _ Es Ef _ | _ _ Hs Ef | _ _ Es Ef | _ _ Ht Ef _ ]
    [Hf Hown]; (split; [lia|]).
  - by rewrite Es, Eo.
  - by rewrite Ho.
  - by rewrite Eo, Ho.
  - by destruct (a_status a').
  - by rewrite Es.
  - intros _. rewrite Eo. apply Hown. by destruct (a_status a).
  - by rewrite Es.
  - by destruct Hs as [[-> _]|[-> | ->]].
  - by rewrite Es.
  - by destruct (a_status a').
Qed.

Lemma moves_typed P db db' :
  moves P db db' -> (forall i a, attempts db !! i = Some a -> lease_typed a) ->
  forall i a, attempts db' !! i = Some a -> lease_typed a.
Proof.
  assert (forall i a a', rtc (moved P i) a a' -> lease_typed a -> lease_typed a') as Hr.
  { intros i a a'. induction 1 as [|x y z (c & _ & H)]; eauto using move_typed. }
  intros M Ht i a' Ha'. specialize (M i). rewrite Ha' in M.
  destruct (attempts db !! i) as [a|] eqn:Ha; [eauto|].
  destruct M as (a0 & (Hs & Hf & Ho) & Hm). apply (Hr i a0 a' Hm). split; [rewrite Hf; by unfold i64_max|].
  by rewrite Hs.
Qed.

(** ** Workspace columns *)

(** A row keeps its workspace, or the end of the build closes it. *)
Definition ws_move (b b' : Build) : Prop :=
  b_namespace b' = b_namespace b /\ b_ws_generation b' = b_ws_generation b /\
  b_receipt b' = b_receipt b /\
  (b_snapshot b' = b_snapshot b /\ b_closed b' = b_closed b \/
   is_Some (b_namespace b) /\ b_snapshot b' = None /\ b_closed b' = true).

#[export] Instance ws_move_preorder : PreOrder ws_move.
Proof.
  split; [intros b; unfold ws_move; tauto|]. unfold ws_move.
  intros b1 b2 b3 (E1 & E2 & E3 & H) (F1 & F2 & F3 & G).
  rewrite F1, F2, F3, E1, E2, E3 in *. split_and!; try done.
  destruct G as [[-> ->]|?]; [done|by right].
Qed.

Lemma ws_move_typed b b' : ws_move b b' -> workspace_typed b -> workspace_typed b'.
Proof.
  unfold workspace_typed, open_checkpoint. intros (E1 & E2 & E3 & H). rewrite E1, E2, E3.
  destruct H as [[-> ->]|([ns ->] & -> & ->)]; [done|]. tauto.
Qed.

Definition wkept (db db' : Db) : Prop :=
  forall k, option_Forall2 ws_move (builds db !! k) (builds db' !! k).

#[export] Instance wkept_preorder : PreOrder wkept.
Proof.
  split; [intros db k; reflexivity|]. intros d1 d2 d3 H1 H2 k. etrans; [apply H1|apply H2].
Qed.

Lemma wkept_same db db' : builds db' = builds db -> wkept db db'.
Proof. intros E k. rewrite E. reflexivity. Qed.

Lemma wkept_update P f db : (forall b, ws_move b (f b)) -> wkept db (update_builds P f db).
Proof.
  intros Hf k. rewrite lookup_builds_update_builds. destruct (builds db !! k) as [b|]; cbn; [|constructor].
  constructor. destruct (P k b); [apply Hf|reflexivity].
Qed.

Lemma wkept_fold {A} (f : Db -> A -> result StoreError Db) l db db' :
  (forall d x d', f d x = Ok d' -> wkept d d') -> try_fold f db l = Ok db' -> wkept db db'.
Proof.
  intros Hf. revert db. induction l as [|x l IH]; intros db H; simpl in H; inv_tx; [done|].
  etrans; [by eapply Hf|by apply IH].
Qed.

Definition ws_typed (db : Db) : Prop := forall k b, builds db !! k = Some b -> workspace_typed b.

Lemma wkept_typed db db' : wkept db db' -> ws_typed db -> ws_typed db'.
Proof.
  intros K T k b' Hb'. specialize (K k). rewrite Hb' in K.
  destruct (builds db !! k) as [b|] eqn:E; inversion K; subst.
  eapply ws_move_typed; [eassumption|]. by apply (T k).
Qed.

Lemma wkept_event build kind payload db : wkept db (append_event_and_outbox build kind payload db).
Proof. by apply wkept_same. Qed.
Lemma wkept_deliveries f db : wkept db (db <| deliveries := f |>).
Proof. by apply wkept_same. Qed.

Lemma wkept_notifications now build status db db' :
  record_terminal_notifications now build status db = Ok db' -> wkept db db'.
Proof.
  unfold record_terminal_notifications. intros H. inv_tx.
  etrans; [|apply wkept_event]. etrans; [|apply wkept_deliveries].
  eapply wkept_fold; [|done]. intros d [index target] d' Hd.
  unfold record_delivery in Hd. inv_tx; by apply wkept_same.
Qed.

Lemma wkept_derive now build db db' : derive_build_outcome now build db = Ok db' -> wkept db db'.
Proof.
  unfold derive_build_outcome. intros H. inv_tx.
  all: try (etrans; [|by eapply wkept_notifications]).
  all: apply wkept_update; intros row; unfold ws_move; cbn; split_and!; try done.
  all: try by left.
  all: destruct (b_namespace row) as [ns|]; cbn; [right; by eauto|by left].
Qed.

Lemma wkept_agent build agent node db db' :
  record_successful_agent build agent node db = Ok db' -> wkept db db'.
Proof.
  unfold record_successful_agent. intros H. inv_tx; try reflexivity.
  apply wkept_update. intros row. unfold ws_move. cbn. tauto.
Qed.
Lemma wkept_skip_pass now build db : wkept db (skip_pass now build db).2.
Proof. apply wkept_same. unfold skip_pass. by repeat case_match. Qed.
Lemma wkept_ready_pass now build db : wkept db (ready_pass now build db).2.
Proof. apply wkept_same. unfold ready_pass. by repeat case_match. Qed.

Lemma wkept_advance_loop fuel now build db db' :
  advance_loop fuel now build db = Ok db' -> wkept db db'.
Proof.
  revert db. induction fuel as [|fuel IH]; intros db H; cbn [advance_loop] in H; [done|].
  pose proof (wkept_skip_pass now build db) as H1. destruct (skip_pass now build db) as [sk d1].
  pose proof (wkept_ready_pass now build d1) as H2. destruct (ready_pass now build d1) as [re d2].
  cbn in H1, H2. destruct (negb sk && negb re); [injection H as <-; by etrans|].
  etrans; [exact H1|]. etrans; [exact H2|]. by apply IH.
Qed.

Lemma wkept_update_nodes now P f db : wkept db (update_nodes now P f db).
Proof. by apply wkept_same. Qed.

Lemma wkept_insert id a db r db' : insert_attempt id a db = Ok (r, db') -> wkept db db'.
Proof. intros H. unfold insert_attempt in H. inv_tx. by apply wkept_same. Qed.

Lemma wkept_retry_node now node attempt retry ordinal db db' :
  retry_node now node attempt retry ordinal db = Ok db' -> wkept db db'.
Proof.
  unfold retry_node. intros H. inv_tx. etrans; [by eapply wkept_insert|by apply wkept_same].
Qed.

(** Peel the statements of a state off, last one first. *)
Ltac known_wkept :=
  repeat match goal with
  | H : derive_build_outcome _ _ _ = Ok _ |- _ => apply wkept_derive in H
  | H : record_successful_agent _ _ _ _ = Ok _ |- _ => apply wkept_agent in H
  | H : record_terminal_notifications _ _ _ _ = Ok _ |- _ => apply wkept_notifications in H
  | H : retry_node _ _ _ _ _ _ = Ok _ |- _ => apply wkept_retry_node in H
  | H : advance_loop _ _ _ _ = Ok _ |- _ => apply wkept_advance_loop in H
  | H : insert_attempt _ _ _ = Ok (_, _) |- _ => apply wkept_insert in H
  end.
Ltac wchain_step :=
  match goal with
  | |- wkept ?d ?d => reflexivity
  | H : wkept ?d ?x |- wkept _ ?x => etrans; [|exact H]; clear H
  | |- wkept _ (append_event_and_outbox _ _ _ ?d) => transitivity d; [|by apply wkept_same]
  | |- wkept _ (update_builds _ _ ?d) =>
      transitivity d; [|apply wkept_update; intros ?; unfold ws_move; cbn; tauto]
  | |- wkept _ (update_effects _ _ ?d) => transitivity d; [|by apply wkept_same]
  | |- wkept _ (update_attempts _ _ ?d) => transitivity d; [|by apply wkept_same]
  | |- wkept _ (set_attempt _ _ ?d) => transitivity d; [|by apply wkept_same]
  | |- wkept _ (update_nodes _ _ _ ?d) => transitivity d; [|by apply wkept_same]
  | |- wkept _ (fence_unstarted_dag_work _ _ _ ?d) => transitivity d; [|by apply wkept_same]
  | |- wkept _ (fail_fast_peers _ _ _ ?d) => transitivity d; [|by apply wkept_same]
  | |- wkept _ (set_node_status _ _ _ ?d) => transitivity d; [|by apply wkept_same]
  | |- wkept _ (update dead_letters _ ?d) => transitivity d; [|by apply wkept_same]
  | |- wkept _ (update attempts _ ?d) => transitivity d; [|by apply wkept_same]
  | |- wkept _ (update nodes _ ?d) => transitivity d; [|by apply wkept_same]
  | |- wkept _ (update deps _ ?d) => transitivity d; [|by apply wkept_same]
  | |- wkept _ (update deliveries _ ?d) => transitivity d; [|by apply wkept_same]
  | |- wkept _ (if ?b then _ else _) => destruct b eqn:?
  end.
Ltac wchain := known_wkept; repeat wchain_step.

Lemma wkept_advance_dag now retry build node attempt outcome db r db' :
  advance_dag_after_attempt now retry build node attempt outcome db = Ok (r, db') -> wkept db db'.
Proof. unfold advance_dag_after_attempt, advance_blocked_nodes. intros H. inv_tx. all: wchain. Qed.

Lemma wkept_advance_or_settle now retry build node attempt outcome db db' :
  advance_or_settle now retry build node attempt outcome db = Ok db' -> wkept db db'.
Proof.
  unfold advance_or_settle, settle_single, set_node_status. intros H. inv_tx. destruct a as [r d].
  apply wkept_advance_dag in Hr. simpl. destruct r; wchain.
Qed.

Lemma wkept_cancel_dag now build db r db' :
  cancel_dag_build now build db = Ok (r, db') -> wkept db db'.
Proof. unfold cancel_dag_build. intros H. inv_tx; wchain. Qed.

Lemma wkept_orphan now db row db' : fail_orphan now db row = Ok db' -> wkept db db'.
Proof. unfold fail_orphan. destruct row as [build agent]. intros H. wchain. Qed.

Lemma wkept_offer now req build node attempt a db r db' :
  offer now req build node attempt a db = Ok (r, db') -> wkept db db'.
Proof. unfold offer. intros H. inv_tx. wchain. Qed.

Lemma wkept_claim now locked req session db r db' :
  claim_next_with_session now locked req session db = Ok (r, db') -> wkept db db'.
Proof.
  unfold claim_next_with_session. intros H. inv_tx; wchain.
  all: etrans; [|by eapply wkept_offer]; wchain.
  unfold fail_orphaned_affinity_builds in Hr0. eapply wkept_fold; [|done]. intros d x d'. apply wkept_orphan.
Qed.
Lemma wkept_accept now attempt fence epoch agent session db r db' :
  accept_offer_with_session now attempt fence epoch agent session db = Ok (r, db') -> wkept db db'.
Proof. unfold accept_offer_with_session. intros H. inv_tx; wchain. Qed.

Lemma wkept_rejection attempt fence agent cause db :
  wkept db (record_lease_renewal_rejection attempt fence agent cause db).
Proof. apply wkept_same. unfold record_lease_renewal_rejection. by repeat case_match. Qed.

Lemma wkept_renew now attempt fence epoch agent session lease db r db' :
  renew_attempt_lease_with_session now attempt fence epoch agent session lease db = Ok (r, db') ->
  wkept db db'.
Proof.
  unfold renew_attempt_lease_with_session. intros H. inv_tx; wchain; apply wkept_rejection.
Qed.

Lemma wkept_abort_expired now retry build node attempt a enabled db r db' :
  abort_expired now retry build node attempt a enabled db = Ok (r, db') -> wkept db db'.
Proof.
  unfold abort_expired. intros H. inv_tx. wchain.
  etrans; [|by eapply wkept_advance_or_settle]. wchain.
Qed.

Lemma wkept_expire now locked retry db r db' :
  requeue_one_expired now locked retry db = Ok (r, db') -> wkept db db'.
Proof.
  unfold requeue_one_expired. intros H. inv_tx; wchain.
  - etrans; [|by eapply wkept_abort_expired]. wchain.
  - unfold release_expired. wchain.
Qed.

Lemma wkept_run now attempt fence epoch agent session db r db' :
  mark_attempt_running_with_session now attempt fence epoch agent session db = Ok (r, db') ->
  wkept db db'.
Proof. unfold mark_attempt_running_with_session. intros H. inv_tx; wchain. Qed.

Lemma wkept_park now build node attempt keep db : wkept db (park now build node attempt keep db).
Proof. unfold park. wchain. Qed.

Lemma wkept_publish now retry build node attempt agent outcome summary db db' :
  publish now retry build node attempt agent outcome summary db = Ok db' -> wkept db db'.
Proof.
  unfold publish. intros H. inv_tx; wchain.
  all: etrans; [|by eapply wkept_advance_or_settle]; wchain.
Qed.

Lemma wkept_recover now attempt fence epoch agent session phase lease db r db' :
  recover_agent_finalization_with_session now attempt fence epoch agent session phase lease db
    = Ok (r, db') -> wkept db db'.
Proof. unfold recover_agent_finalization_with_session. intros H. inv_tx; wchain. Qed.

Lemma wkept_discharge attempt fence agent reason db :
  wkept db (record_recovered_discharge attempt fence agent reason db).
Proof. apply wkept_same. unfold record_recovered_discharge. by repeat case_match. Qed.

Lemma wkept_complete now retry attempt fence epoch agent session outcome db r db' :
  complete_agent_cancellation now retry attempt fence epoch agent session outcome db = Ok (r, db') ->
  wkept db db'.
Proof.
  unfold complete_agent_cancellation. intros H. inv_tx; wchain; try apply wkept_discharge.
  - apply wkept_park.
  - etrans; [|by eapply wkept_advance_or_settle]. wchain.
Qed.

Lemma wkept_cancel now project build actor db r db' :
  request_cancellation_decision_as now project build actor db = Ok (r, db') -> wkept db db'.
Proof.
  unfold request_cancellation_decision_as. intros H. inv_tx; wchain; by eapply wkept_cancel_dag.
Qed.

Lemma wkept_reconcile now retry attempt fence actor outcome summary db r db' :
  finalize_reconciled_attempt now retry attempt fence actor outcome summary db = Ok (r, db') ->
  wkept db db'.
Proof.
  unfold finalize_reconciled_attempt. intros H. inv_tx; wchain.
  all: etrans; [|by eapply wkept_advance_or_settle]; wchain.
Qed.

Lemma wkept_terminalize now attempt node build reason db db' :
  terminalize_dead_lettered_reconciliation now attempt node build reason db = Ok db' -> wkept db db'.
Proof. unfold terminalize_dead_lettered_reconciliation. intros H. inv_tx; wchain. Qed.

Lemma wkept_dead_letter now attempt node build ordinal most reason db db' :
  dead_letter now attempt node build ordinal most reason db = Ok db' -> wkept db db'.
Proof.
  unfold dead_letter. intros H. inv_tx.
  all: match goal with H : terminalize_dead_lettered_reconciliation _ _ _ _ _ _ = Ok _ |- _ =>
    apply wkept_terminalize in H end; wchain; destruct (dead_letters db !! attempt); wchain.
Qed.

Lemma wkept_retry_dag now child ids build node attempt ordinal most db db' :
  retry_dag_node now child ids build node attempt ordinal most db = Ok db' -> wkept db db'.
Proof.
  unfold retry_dag_node. intros H. inv_tx.
  etrans; [by eapply wkept_insert|]. etrans; [apply wkept_update_nodes|].
  eapply wkept_fold; [|done]. intros d' [k [p a]] d'' Hd. unfold reopen_skipped in Hd. inv_tx. destruct a0 as [? ?].
  etrans; [by eapply wkept_insert|]. apply wkept_update_nodes.
Qed.

Lemma wkept_retry_single now child node attempt ordinal db db' :
  retry_single now child node attempt ordinal db = Ok db' -> wkept db db'.
Proof. unfold retry_single. intros H. inv_tx. destruct a as [? ?]. wchain. Qed.

Lemma wkept_retry now child ids attempt most reason actor db r db' :
  schedule_retry_as now child ids attempt most reason actor db = Ok (r, db') -> wkept db db'.
Proof.
  unfold schedule_retry_as. intros H. inv_tx; wchain.
  - by eapply wkept_terminalize.
  - by eapply wkept_dead_letter.
  - by eapply wkept_retry_dag.
  - by eapply wkept_retry_single.
Qed.

Lemma wkept_restore_attempt now epoch backup lsn db row :
  wkept db (restore_attempt now epoch backup lsn db row).
Proof.
  unfold restore_attempt. destruct row as [i a]. destruct (nodes db !! a_node a); wchain.
  unfold park. wchain.
Qed.

Lemma wkept_restore_all now epoch backup lsn l db :
  wkept db (foldl (restore_attempt now epoch backup lsn) db l).
Proof.
  revert db. induction l as [|x l IH]; intros db; cbn; [done|].
  etrans; [apply wkept_restore_attempt|apply IH].
Qed.

Lemma wkept_restore now others backup reason db r db' :
  activate_restore_epoch now others backup reason db = Ok (r, db') -> wkept db db'.
Proof.
  unfold activate_restore_epoch. intros H. inv_tx; wchain.
  etrans; [|apply wkept_restore_all]. by apply wkept_same.
Qed.

(** ** Admissions and publications *)

Lemma ws_typed_insert db build b :
  ws_typed db -> workspace_typed b -> ws_typed (db <| builds := <[build := b]> (builds db) |>).
Proof.
  intros T Hb k b'. cbn. destruct (decide (k = build)) as [->|Hne].
  - rewrite lookup_insert_eq. by intros [= <-].
  - rewrite lookup_insert_ne by done. apply T.
Qed.

Lemma wkept_admit_nodes now build l m db m' db' :
  try_fold (admit_node now build) (m, db) l = Ok (m', db') -> wkept db db'.
Proof.
  revert m db. induction l as [|e l IH]; intros m db H; cbn [try_fold] in H; inv_tx; [done|].
  destruct a as [m1 d1]. etrans; [|by eapply IH]. unfold admit_node in Hr.
  destruct e as [node [ni ai]]. inv_tx.
  match goal with H : insert_attempt _ _ _ = Ok ?p |- _ => destruct p as [r d] end. wchain.
Qed.

Lemma typed_admit_dag now build ids input contract sequential db r db' :
  ws_typed db ->
  admit_dag_contract_transaction now build ids input contract sequential db = Ok (r, db') ->
  ws_typed db'.
Proof.
  intros T. unfold admit_dag_contract_transaction. intros H. inv_tx; [done|].
  eapply wkept_typed; [etrans; [by eapply wkept_admit_nodes|]; by apply wkept_same|].
  by apply ws_typed_insert.
Qed.

Lemma typed_admit_build now build node attempt input db r db' :
  ws_typed db -> admit_build now build node attempt input db = Ok (r, db') -> ws_typed db'.
Proof.
  intros T. unfold admit_build. intros H. inv_tx; try done.
  match goal with H : insert_attempt _ _ _ = Ok ?p |- _ => destruct p as [x d] end.
  match goal with H : insert_attempt _ _ (?d0 <| nodes := _ |>) = _ |- _ =>
    eapply (wkept_typed d0); [wchain|] end.
  by apply ws_typed_insert.
Qed.

Context {LT : WorkspaceTransferLaws WT}.

Lemma initialize_typed namespace b b' :
  initialize namespace b = Ok b' -> workspace_typed b -> workspace_typed b'.
Proof using LT.
  unfold initialize. intros H. apply bind_ok in H as (v & Hv%invalid_json_ok & [= <-]).
  destruct (b_namespace b) as [ns|] eqn:E; [done|]. unfold workspace_typed at 1. rewrite E.
  intros (Hg & Hs & Hr & Hc). unfold workspace_typed. cbn. rewrite Hg, Hr, Hc.
  split; [done|]. split; [done|]. destruct (snapshot_digest_total _ empty_valid) as [d Hd].
  exists v, empty_snapshot, d. cbn. rewrite Hg. split_and!; try done. by apply snapshot_value.
Qed.

Lemma typed_admit_sequential now build ids namespace input db r db' :
  ws_typed db -> admit_sequential_dag now build ids namespace input db = Ok (r, db') -> ws_typed db'.
Proof using LT.
  intros T H. unfold admit_sequential_dag in H. apply bind_ok in H as ([adm d] & Ha & H).
  apply typed_admit_dag in Ha; [|done].
  destruct (adm_created adm && sq_workspace_transfer input); [|by injection H as _ <-].
  apply bind_ok in H as (b & Hb & H). apply bind_ok in H as (b' & Hi & [= _ <-]).
  destruct (builds d !! adm_build adm) as [b0|] eqn:E; [|done]. injection Hb as ->.
  apply ws_typed_insert; [done|]. eapply initialize_typed; [done|]. by eapply Ha.
Qed.

Lemma commit_typed build b transfer outcome b' :
  workspace_typed b -> commit build b transfer outcome = Ok b' -> workspace_typed b'.
Proof using LT.
  intros T H. destruct (b_namespace b) as [ns|] eqn:E.
  2: { unfold commit in H. rewrite E in H. by destruct transfer; inv_ok. }
  pose proof (commit_ok _ ns _ _ _ _ E H) as (v & s & d & [Ho Hv Hs Hd _ _ Hr]).
  destruct (transfer ≫= tr_snapshot) as [s'|]; [|by destruct Hr as [-> _]].
  destruct Hr as (r & sv & rv & Hr & Hsv & Hrv & ->). unfold workspace_typed in *. cbn.
  rewrite E, Ho in *. destruct T as (Hg & _). split; [lia|]. split; [split; [lia|done]|].
  pose proof Hr as (d' & Hd' & _)%snapshot_receipt_ok. exists sv, s', d'. cbn.
  split; [done|]. split; [by apply snapshot_value|]. split; [done|]. split; [lia|]. intros _.
  exists rv, r. split_and!; try done. by apply receipt_value.
Qed.

Lemma typed_finalize now retry attempt fence epoch agent session outcome summary aware db r db' :
  ws_typed db ->
  finalize_attempt_with_session now retry attempt fence epoch agent session outcome summary aware db
    = Ok (r, db') -> ws_typed db'.
Proof using LT.
  intros T. unfold finalize_attempt_with_session. intros H. inv_tx; try done.
  all: match goal with H : attempt_rows _ _ = _ |- _ =>
    apply attempt_rows_lookup in H as (_ & _ & Hrow) end.
  - eapply wkept_typed; [|exact T]. wchain. apply wkept_park.
  - eapply wkept_typed; [etrans; [by eapply wkept_publish|wchain]|].
    apply ws_typed_insert; [done|]. eapply commit_typed; [|done]. by eapply T.
Qed.

Lemma step_typed allowed db db' : step allowed db db' -> ws_typed db -> ws_typed db'.
Proof using LT.
  intros [now op d d' _ H|d d' (E & _)] T.
  2: { eapply wkept_typed; [by apply wkept_same|done]. }
  destruct op; simpl in H; unfold committed in H; inv_tx;
    [by eapply typed_admit_dag|by eapply typed_admit_sequential|by eapply typed_admit_build| | | | |
     |by eapply typed_finalize| | | | | |]; (eapply wkept_typed; [|exact T]).
  - by eapply wkept_claim.
  - by eapply wkept_accept.
  - by eapply wkept_renew.
  - by eapply wkept_expire.
  - by eapply wkept_run.
  - by eapply wkept_recover.
  - by eapply wkept_complete.
  - by eapply wkept_cancel.
  - by eapply wkept_reconcile.
  - by eapply wkept_retry.
  - by eapply wkept_restore.
Qed.

(** C13. Every state a history reaches is well typed: attempts belong to nodes and
    nodes to builds; the attempts of a node are numbered from one without
    repetition; a fence is a non-negative [i64] and a leased attempt has an owner;
    edges lead to nodes of dag builds; and the workspace columns of a build are
    empty or describe one checkpoint, whose stored bytes are a valid snapshot that
    its receipt matches until the build ends and the bytes are dropped. *)
Theorem reachable_store_typed db : reachable any_operation db -> store_typed db.
Proof using LT.
  intros R. pose proof (reachable_sound _ _ R) as [Hh _]. destruct R as (start & Hi & R).
  assert (ws_typed db /\ forall i a, attempts db !! i = Some a -> lease_typed a) as [W A].
  { destruct Hi as (E1 & E2 & E3 & _).
    assert (ws_typed start /\ forall i a, attempts start !! i = Some a -> lease_typed a) as H0.
    { split; intros ? ?; [rewrite E1|rewrite E3]; by rewrite lookup_empty. }
    clear -R H0 LT. induction R as [|d1 d2 d3 H _ IH]; [done|]. destruct H0 as [W A].
    apply IH. split; [by eapply step_typed|]. eapply moves_typed; [by eapply step_moves|done]. }
  split.
  - exact W.
  - intros k n. apply (history_build db Hh).
  - intros i a Ha. destruct (A i a Ha). split; [by apply (history_node db Hh i)|
      by apply (history_order db Hh i)|done|done].
  - apply (history_unique db Hh).
  - apply (history_deps db Hh).
Qed.
End Typed.
