(* ===== verification/Claims.v ===== *)
(** * Claiming work

    What the scheduler's query hands to an agent: the claim takes the first
    queued attempt, in the order of the query, among those the agent may run,
    and finds one whenever there is one; and what [explain_wait] says of an
    agent that gets nothing. *)

From stdpp Require Import base gmap sets list strings pretty.
From Stdlib Require Import ZArith Lia.
From S2P Require Import Prelude Text Bytes Domain DagContract StoreTables DagRuntime Scheduler.
From S2P Require Import WorkspaceStore.
From S2P Require Import Attempts Lifecycle StoreFrames AttemptMoves History NodeTurns.

Open Scope Z_scope.

(** ** Strict weak orders *)

(** The order of an [ORDER BY]: asymmetric, with a transitive complement. *)
Record weak_order {A} (lt : A -> A -> bool) : Prop := {
  weak_asym x y : lt x y = true -> lt y x = false;
  weak_not_lt x y z : lt x y = false -> lt y z = false -> lt x z = false
}.

Lemma weak_key {A} (f : A -> Z) : weak_order (fun l r => f l <? f r).
Proof. split; intros *; rewrite ?Z.ltb_lt, ?Z.ltb_ge; lia. Qed.

Lemma weak_name {A} (f : A -> string) : weak_order (fun l r => str_ltb (f l) (f r)).
Proof.
  split; intros x y.
  - intros H. apply not_true_iff_false. intros H'. pose proof (str_ltb_trans _ _ _ H H') as E.
    by rewrite str_ltb_irrefl in E.
  - intros z H1 H2. apply not_true_iff_false. intros H3.
    destruct (str_ltb (f y) (f x)) eqn:E.
    + by rewrite (str_ltb_trans _ _ _ E H3) in H2.
    + rewrite (str_ltb_total _ _ H1 E) in H3. congruence.
Qed.

(** A column before the rest of the order. *)
Lemma weak_column {A} (f : A -> Z) (lt gt : A -> A -> bool) :
  weak_order lt -> (forall l r, gt l r = (f l <? f r) || ((f l =? f r) && lt l r)) -> weak_order gt.
Proof.
  intros [Ha Hn] E. split.
  - intros x y. rewrite !E, orb_true_iff, orb_false_iff, andb_true_iff, andb_false_iff,
      !Z.ltb_lt, Z.ltb_ge, !Z.eqb_eq, Z.eqb_neq.
    intros [?|[? ?%Ha]]; (split; [lia|]); [left; lia | by right].
  - intros x y z. rewrite !E, !orb_false_iff, !andb_false_iff, !Z.ltb_ge, !Z.eqb_neq.
    intros [? Hxy] [? Hyz]. split; [lia|].
    destruct (decide (f x = f z)); [|by left]. right. apply (Hn x y z); intuition lia.
Qed.


Lemma explain_order pool : weak_order (explain_before pool).
Proof.
  set (own := fun x : Uuid * Node => if String.eqb (n_trust_pool (snd x)) pool then 0 else 1).
  eapply (weak_column own); [eapply (weak_column (fun x => - n_priority (snd x)));
    [eapply (weak_column (fun x => n_queued_at (snd x))); [apply (weak_name fst)|]|]|];
    intros l r; simpl; try done.
  unfold explain_before, own. simpl.
  assert (forall p q, (q <? p) = (- p <? - q)) as <-
    by (intros p q; destruct (Z.ltb_spec q p), (Z.ltb_spec (- p) (- q)); lia).
  assert (forall p q, (p =? q) = (- p =? - q)) as <-
    by (intros p q; destruct (Z.eqb_spec p q), (Z.eqb_spec (- p) (- q)); lia).
  by destruct (String.eqb (n_trust_pool l.2) pool), (String.eqb (n_trust_pool r.2) pool).
Qed.

(** [LIMIT 1] takes a row no other row comes before. *)
Lemma first_row_first {A} (lt : A -> A -> bool) l x :
  weak_order lt -> first_row lt l = Some x -> forall y, y ∈ l -> lt y x = false.
Proof.
  intros [Ha Hn].
  assert (Hr : forall z, lt z z = false)
    by (intros z; destruct (lt z z) eqn:E; [by rewrite (Ha _ _ E) in E|done]).
  revert x. induction l as [|z l IH]; simpl; intros x H y Hy; [done|].
  destruct (first_row lt l) as [w|] eqn:E; [destruct (lt w z) eqn:Ew|]; injection H as <-.
  - apply elem_of_cons in Hy as [->|Hy]; [by apply Ha | by apply (IH w)].
  - apply elem_of_cons in Hy as [->|Hy]; [done|]. apply (Hn y w z); [by apply (IH w)|done].
  - apply first_row_none in E as ->. by apply list_elem_of_singleton in Hy as ->.
Qed.

(** ** The claim *)

Section Claims.
Context `{PG : Postgres} `{DX : DagExternal}.




(** The row of an attempt that was offered. *)
Definition offered (now : Z) (req : ClaimRequest) (epoch : Z) (a : Attempt) : Attempt :=
  a <| a_status := AOffered |> <| a_fence := a_fence a + 1 |> <| a_owner := Some (agent_id req) |>
    <| a_expires := Some (now + seconds (lease_seconds req)) |> <| a_epoch := epoch |>.



Lemma claim_rows_elem locked req db node n attempt :
  (node, n, attempt) ∈ claim_rows locked req db ->
  exists a b, attempts db !! attempt = Some a /\ a_node a = node /\ nodes db !! node = Some n
    /\ builds db !! n_build n = Some b /\ a_status a = AQueued
    /\ claimable db req node n b = true.
Proof.
  unfold claim_rows. intros ([i a] & Hin%elem_of_map_to_list & H)%list_elem_of_omap. inv_tx.
  bool_prop. eexists a, _. split_and!; eauto. by eapply bool_decide_eq_true.
Qed.

(** ** Orphaned builds *)

(** The rows of the builds outside [B] stay, and every row keeps its build. *)
Record beside_builds (B : Uuid -> Prop) (db db' : Db) : Prop := {
  bb_builds k : ~ B k -> builds db' !! k = builds db !! k;
  bb_build id : n_build <$> nodes db' !! id = n_build <$> nodes db !! id;
  bb_nodes id n : nodes db !! id = Some n -> ~ B (n_build n) -> nodes db' !! id = Some n;
  bb_attempts i a n : attempts db !! i = Some a -> nodes db !! a_node a = Some n ->
    ~ B (n_build n) -> attempts db' !! i = Some a;
  bb_deps : deps db' = deps db
}.

#[local] Instance beside_builds_preorder B : PreOrder (beside_builds B).
Proof.
  split; [by split|]. intros d1 d2 d3 [A1 A2 A3 A4 A5] [B1 B2 B3 B4 B5]. split.
  - intros k Hk. by rewrite B1, A1.
  - intros id. by rewrite B2, A2.
  - intros id n Hn Hb. auto.
  - intros i a n Ha Hn Hb. eapply B4; eauto.
  - congruence.
Qed.











(** ** Explanations *)

Lemma explain_rows_elem db k n :
  (k, n) ∈ explain_rows db <->
  nodes db !! k = Some n /\ exists b, builds db !! n_build n = Some b /\ schedulable db k n b = true.
Proof.
  unfold explain_rows. rewrite list_elem_of_In, filter_In, <- list_elem_of_In, elem_of_map_to_list.
  split.
  - intros [Hn H]. split; [done|]. destruct (builds db !! n_build n) as [b|]; [|done]. eauto.
  - intros (Hn & b & -> & H). done.
Qed.

(** No row for an agent that offers [caps] in [pool]. *)
Definition none_ready (db : Db) (caps : list string) (pool : string) : bool :=
  negb (existsb (fun kn => covers caps (n_capabilities (snd kn))
                           && String.eqb (n_trust_pool (snd kn)) pool) (explain_rows db)).

Lemma none_ready_claims db locked req :
  none_ready db (capabilities req) (trust_pool req) = true -> claim_rows locked req db = [].
Proof.
  intros Hn. destruct (claim_rows locked req db) as [|[[node n] attempt] l] eqn:E; [done|exfalso].
  destruct (claim_rows_elem locked req db node n attempt) as (a & b & _ & _ & Hnode & Hb & _ & Hcl);
    [rewrite E; by left|].
  unfold claimable in Hcl. bool_prop. unfold none_ready in Hn. bool_prop.
  apply not_true_iff_false in Hn. apply Hn, existsb_exists. exists (node, n). split.
  - apply list_elem_of_In, explain_rows_elem. eauto.
  - simpl. by rewrite H3, H4, String.eqb_refl.
Qed.

Lemma string_set_keys l : bmap_wf (string_set l) /\ forall c, c ∈ (string_set l).*1 <-> c ∈ l.
Proof.
  induction l as [|x l [Hwf IH]]; simpl; [by split; [constructor|set_solver]|].
  split; [by apply binsert_wf|]. intros c. split.
  - intros [->|H]%binsert_keys; [by left|]. right. by apply IH.
  - intros Hc. destruct (decide (c ∈ (binsert x () (string_set l)).*1)) as [|Hn]; [done|].
    apply bget_None in Hn. rewrite bget_binsert in Hn by done.
    destruct (String.eqb_spec x c); [done|]. apply bget_None in Hn. rewrite IH in Hn. set_solver.
Qed.

Lemma covers_all offered required : covers offered required = true <-> forall c, c ∈ required -> c ∈ offered.
Proof.
  unfold covers. rewrite forallb_forall. setoid_rewrite <- list_elem_of_In.
  setoid_rewrite bool_decide_eq_true. done.
Qed.

(** A node the schedulers would offer to a suitable agent. *)
Definition offerable (db : Db) (k : Uuid) (n : Node) : Prop :=
  nodes db !! k = Some n /\ exists b, builds db !! n_build n = Some b /\ schedulable db k n b = true.

(** What a reason asserts of the store. *)
Definition explains (db : Db) (caps : list string) (pool : string) (r : WaitReason) : Prop :=
  match r with
  | WaitReady => exists k n, offerable db k n /\ n_trust_pool n = pool
      /\ forall c, c ∈ n_capabilities n -> c ∈ caps
  | NoQueuedWork => forall k n, ~ offerable db k n
  | TrustPoolMismatch required own => own = pool /\ required <> pool
      /\ (exists k n, offerable db k n /\ n_trust_pool n = required)
      /\ forall k n, offerable db k n -> n_trust_pool n <> pool
  | CapabilityMismatch required missing => missing <> []
      /\ exists k n, offerable db k n /\ n_trust_pool n = pool
        /\ (forall c, c ∈ required.*1 <-> c ∈ n_capabilities n)
        /\ (forall c, c ∈ missing.*1 <-> c ∈ n_capabilities n /\ c ∉ caps)
        /\ forall k' n', offerable db k' n' -> n_trust_pool n' = pool ->
             n_priority n' <= n_priority n /\ exists c, c ∈ n_capabilities n' /\ c ∉ caps
  end.

Lemma ready_explains db caps pool : none_ready db caps pool = false -> explains db caps pool WaitReady.
Proof.
  unfold none_ready. intros H%negb_false_iff. apply existsb_exists in H as ([k n] & Hin & H). bool_prop.
  apply list_elem_of_In, explain_rows_elem in Hin. exists k, n. simpl in *.
  split_and!; [done..|]. by apply covers_all.
Qed.

Lemma none_ready_missing db caps pool k n :
  none_ready db caps pool = true -> offerable db k n -> n_trust_pool n = pool ->
  exists c, c ∈ n_capabilities n /\ c ∉ caps.
Proof.
  unfold none_ready. intros H%negb_true_iff Ho E. apply not_true_iff_false in H.
  destruct (decide (Exists (fun c => c ∉ caps) (n_capabilities n))) as [He|Hne].
  - apply Exists_exists in He as (c & ? & ?). eauto.
  - destruct H. apply existsb_exists. exists (k, n). split; [by apply list_elem_of_In, explain_rows_elem|].
    simpl. rewrite E, String.eqb_refl, andb_true_r. apply covers_all. intros c Hc.
    destruct (decide (c ∈ caps)); [done|]. destruct Hne. apply Exists_exists. eauto.
Qed.

Lemma explain_first db pool k n :
  first_row (explain_before pool) (explain_rows db) = Some (k, n) ->
  offerable db k n /\ forall k' n', offerable db k' n' -> n_trust_pool n' = pool ->
    n_trust_pool n = pool /\ n_priority n' <= n_priority n.
Proof.
  intros H. split; [by apply explain_rows_elem; eapply first_row_elem|]. intros k' n' Ho Ep.
  pose proof (first_row_first _ _ _ (explain_order pool) H (k', n')) as Hb.
  specialize (Hb ltac:(by apply explain_rows_elem)). unfold explain_before in Hb. simpl in Hb.
  rewrite Ep, String.eqb_refl in Hb. destruct (String.eqb_spec (n_trust_pool n) pool); [|done].
  split; [done|]. simpl in Hb. bool_prop. lia.
Qed.

Lemma mismatch_explains db caps pool k n :
  none_ready db caps pool = true ->
  first_row (explain_before pool) (explain_rows db) = Some (k, n) -> n_trust_pool n = pool ->
  explains db caps pool (CapabilityMismatch (string_set (n_capabilities n))
    (List.filter (fun kv => negb (bool_decide (fst kv ∈ caps))) (string_set (n_capabilities n)))).
Proof.
  intros Hnr Hf Ep. destruct (explain_first _ _ _ _ Hf) as [Ho Hall].
  destruct (string_set_keys (n_capabilities n)) as [_ Hkeys].
  assert (Hm : forall c, c ∈ (List.filter (fun kv => negb (bool_decide (fst kv ∈ caps)))
    (string_set (n_capabilities n))).*1 <-> c ∈ n_capabilities n /\ c ∉ caps).
  { intros c. rewrite list_elem_of_fmap. split.
    - intros ([c' []] & -> & Hin). apply list_elem_of_In, filter_In in Hin as [Hin Hb].
      apply list_elem_of_In in Hin. apply negb_true_iff, bool_decide_eq_false in Hb.
      split; [|done]. apply Hkeys, list_elem_of_fmap. by exists (c', tt).
    - intros [Hc Hn]. apply Hkeys, list_elem_of_fmap in Hc as ([c' []] & -> & Hin).
      exists (c', tt). split; [done|]. apply list_elem_of_In, filter_In.
      split; [by apply list_elem_of_In|]. simpl. by rewrite bool_decide_false. }
  simpl. split.
  - destruct (none_ready_missing _ _ _ _ _ Hnr Ho Ep) as (c & Hc). apply Hm in Hc. intros E.
    rewrite E in Hc. by apply elem_of_nil in Hc.
  - exists k, n. split_and!; try done. intros k' n' Ho' Ep'.
    split; [by eapply Hall | by eapply none_ready_missing].
Qed.

(** Explanations are true. The reason [explain_wait] gives an agent holds
    of the queue: the missing capabilities and the required pool are those of
    the offerable node that comes first; and an agent that is told anything but
    ready gets nothing from a claim with the same capabilities and pool, which
    changes nothing. *)
Theorem explain_wait_exact db caps pool r :
  explain_wait db caps pool = Ok r ->
  explains db caps pool r
  /\ (r <> WaitReady -> forall now locked req,
        capabilities req = caps -> trust_pool req = pool ->
        claim_next_with_session now locked req None db = Ok (None, db)).
Proof.
  unfold explain_wait. intros H. inv_tx.
  set (rdy := existsb _ _) in *. assert (Hrdy : none_ready db caps pool = negb rdy) by done.
  destruct rdy; [by split; [apply ready_explains|]|].
  split.
  - destruct (first_row _ _) as [[k n]|] eqn:Hf.
    + destruct (explain_first _ _ _ _ Hf) as [Ho Hall].
      destruct (String.eqb_spec (n_trust_pool n) pool) as [Ep|Hp]; [by eapply mismatch_explains|].
      simpl. split_and!; [done..|by exists k, n|]. intros k' n' Ho' Ep.
      by destruct (Hall _ _ Ho' Ep).
    + intros k n Ho. apply first_row_none in Hf. apply explain_rows_elem in Ho. rewrite Hf in Ho.
      by apply elem_of_nil in Ho.
  - intros _ now locked req <- <-. unfold claim_next_with_session. simpl.
    destruct ((_ <=? _) || _); [done|].
    assert (candidate locked req db = None) as ->; [|done].
    unfold candidate. by rewrite none_ready_claims.
Qed.

End Claims.
