(* ===== verification/WorkspaceExamples.v ===== *)
(** * Concrete workspace transfers

    Stand-ins for the hashing, UUID and [serde_json] parameters of the workspace
    modules that satisfy their laws, a host that satisfies its laws, and the
    theorems of the workspace modules applied to a small tree. *)

From stdpp Require Import base gmap sets list strings countable.
From Stdlib Require Import Ascii ZArith Lia.
From S2P Require Import Prelude Text Bytes Domain WorkspaceSnapshot WorkspaceFiles.
From S2P Require Import DagContract StoreTables WorkspaceStore.

Open Scope Z_scope.

(** ** An encoding of any countable type as text *)

Fixpoint pos_bits (p : positive) : string :=
  match p with
  | xH => EmptyString
  | xO p => String "0" (pos_bits p)
  | xI p => String "1" (pos_bits p)
  end.
Fixpoint bits_pos (s : string) : positive :=
  match s with
  | EmptyString => xH
  | String c s => if Ascii.eqb c "0" then xO (bits_pos s) else xI (bits_pos s)
  end.

Lemma bits_pos_bits p : bits_pos (pos_bits p) = p.
Proof. induction p as [p IH|p IH|]; cbn; congruence. Qed.

Definition encode_text `{Countable A} (x : A) : string := pos_bits (encode x).
Definition decode_text `{Countable A} (s : string) : option A := decode (bits_pos s).

Lemma decode_encode_text `{Countable A} (x : A) : decode_text (encode_text x) = Some x.
Proof. unfold decode_text, encode_text. by rewrite bits_pos_bits, decode_encode. Qed.

#[local] Instance entry_countable : Countable WorkspaceEntry.
Proof.
  refine (inj_countable'
    (fun e => match e with Directory p => inl p | File p x c => inr (p, x, c) end)
    (fun s => match s with inl p => Directory p | inr (p, x, c) => File p x c end) _).
  by intros [].
Defined.
#[local] Instance snapshot_countable : Countable WorkspaceSnapshot.
Proof.
  refine (inj_countable' (fun s => (sn_version s, sn_entries s))
    (fun s => {| sn_version := fst s; sn_entries := snd s |}) _).
  by intros [].
Defined.
#[local] Instance entry_receipt_countable : Countable WorkspaceEntryReceipt.
Proof.
  refine (inj_countable'
    (fun e => match e with DirectoryReceipt p => inl p | FileReceipt p x z d => inr (p, x, z, d) end)
    (fun s => match s with inl p => DirectoryReceipt p | inr (p, x, z, d) => FileReceipt p x z d end) _).
  by intros [].
Defined.
#[local] Instance receipt_countable : Countable WorkspaceSnapshotReceipt.
Proof.
  refine (inj_countable'
    (fun r => (rc_version r, rc_digest r, rc_total_bytes r, rc_entries r))
    (fun '(v, d, t, e) =>
       {| rc_version := v; rc_digest := d; rc_total_bytes := t; rc_entries := e |}) _).
  by intros [].
Defined.
#[local] Instance transfer_eq_dec : EqDecision WorkspaceTransferResult.
Proof. solve_decision. Defined.
#[local] Instance transfer_countable : Countable WorkspaceTransferResult.
Proof.
  refine (inj_countable'
    (fun t => (tr_version t, tr_organization t, tr_build t, tr_namespace t, tr_generation t,
               tr_input_digest t, tr_snapshot t, tr_error t))
    (fun '(v, o, b, n, g, i, s, e) =>
       {| tr_version := v; tr_organization := o; tr_build := b; tr_namespace := n;
          tr_generation := g; tr_input_digest := i; tr_snapshot := s; tr_error := e |}) _).
  by intros [].
Defined.

Definition encode_value `{Countable A} (x : A) : result string Value := Ok (VString (encode_text x)).
Definition decode_value `{Countable A} (v : Value) : result string A :=
  match v with VString s => ok_or (decode_text s) "decode" | _ => Err "type" end.

Lemma decode_encode_value `{Countable A} (x : A) v : encode_value x = Ok v -> decode_value v = Ok x.
Proof. intros [= <-]. cbn. by rewrite decode_encode_text. Qed.

(** ** The parameters *)

(** Thirty-two bytes for any text. *)
Fixpoint example_hash (acc : Z) (s : string) : string :=
  match s with
  | EmptyString => be_bytes 32 acc
  | String c s => example_hash (Z.land (acc * 257 + byte_val c + 1) (Z.ones 61)) s
  end.

(** The text of a UUID is the sixteen bytes themselves. *)
#[export] Instance example_crates : External := {|
  sha256 := example_hash 0; b64_encode m := m; b64_decode m := Some m;
  uuid_parse s := if Nat.eqb (String.length s) 16 then Some s else None;
  uuid_to_string u := u |}.
#[export] Instance example_json : WorkspaceJson := {|
  snapshot_to_vec s := Some (encode_text s);
  transfer_to_vec t := Some (encode_text t) |}.

Definition read_z (v : option Value) : result string Z :=
  match v with Some (VNumber t) => ok_or (parse_signed t) "number" | _ => Err "number" end.
Definition read_string (v : option Value) : result string string :=
  match v with Some (VString s) => Ok s | _ => Err "string" end.
Definition read_option {A} (f : Value -> result string A) (v : option Value) :
    result string (option A) :=
  match v with
  | None | Some VNull => Ok None
  | Some v => x ← f v; Ok (Some x)
  end.

Definition read_terminal (v : Value) : result string TerminalReceipt :=
  version ← read_z (field v "version");
  org ← read_string (field v "organization_id");
  build ← read_string (field v "build_id");
  namespace ← read_string (field v "namespace_id");
  generation ← read_z (field v "generation");
  digest ← read_string (field v "input_digest");
  receipt ← read_option decode_value (field v "receipt");
  error ← read_option (fun v => read_string (Some v)) (field v "error");
  Ok {| te_version := version; te_organization := org; te_build := build;
        te_namespace := namespace; te_generation := generation; te_input_digest := digest;
        te_receipt := receipt; te_error := error |}.

#[export] Instance example_values : WorkspaceValues := {|
  snapshot_to_value := encode_value;
  snapshot_from_value := decode_value;
  receipt_to_value := encode_value;
  receipt_from_value := decode_value;
  transfer_from_value := decode_value;
  terminal_from_value := read_terminal;
  bytes_value := VString |}.

#[export] Instance example_transfer : WorkspaceTransfer := {|
  wt_external := example_crates; wt_json := example_json; wt_values := example_values;
  organization := "organization-001" |}.

#[export] Instance example_json_laws : WorkspaceJsonLaws example_json.
Proof.
  split. cbn. intros s s' b [= <-] [= E].
  apply (f_equal (decode_text (A:=WorkspaceSnapshot))) in E. rewrite !decode_encode_text in E. congruence.
Qed.

#[export] Instance example_transfer_laws : WorkspaceTransferLaws example_transfer.
Proof.
  split.
  - apply example_json_laws.
  - intros s v. apply decode_encode_value.
  - intros r v. apply decode_encode_value.
  - intros t r rv E. unfold terminal_from_value. cbn [wt_values example_transfer example_values].
    unfold read_terminal, normalized_transfer, json_z. cbn. rewrite !parse_signed_fmt_z. cbn.
    destruct r as [r|], rv as [v|]; try discriminate E.
    + injection E as <-. cbn. rewrite decode_encode_text. cbn. by destruct (tr_error t).
    + cbn. by destruct (tr_error t).
  - eexists. split; [reflexivity|]. by vm_compute.
Qed.

(** The value an agent sends for a transfer. *)
Definition transfer_value (t : WorkspaceTransferResult) : Value := VString (encode_text t).
Definition digest_of (s : WorkspaceSnapshot) : string := sha256 (encode_text s).

(** ** A host and a small tree *)

(** The owner of the files, with the usual creation mask; directories list their
    names as the map does. *)
Definition example_host : Host := {|
  umask := 18;
  grants mode bit := Z.land mode (64 * bit) =? 64 * bit;
  allocate fs := (1, Z.of_nat (size fs) + 1);
  read_order fs directory :=
    (fun p => if is_empty directory then p else sdrop (String.length directory + 1) p) <$>
    List.filter (is_child directory) (map_to_list fs).*1 |}.

Lemma join_drop directory p :
  is_child directory p = true ->
  WorkspaceFiles.join directory
    (if is_empty directory then p else sdrop (String.length directory + 1) p) = p.
Proof.
  unfold is_child, parent_of, WorkspaceFiles.join. intros [_ E]%andb_true_iff.
  apply String.eqb_eq in E. destruct (is_empty directory) eqn:Hd; [done|].
  destruct (rsplit_once "/" p) as [[l r]|] eqn:Er; [|by subst directory].
  subst l. apply rsplit_slash_some in Er as [-> _].
  pose proof (sdrop_app (directory +:+ "/") r) as E.
  rewrite string_length_app, sapp_assoc in E. cbn [String.length] in E. by rewrite E.
Qed.

Lemma example_host_lawful : lawful_host example_host.
Proof.
  split; [|done|].
  - intros fs directory. cbn [example_host read_order]. rewrite <- list_fmap_compose.
    assert (Forall (fun p => is_child directory p = true)
      (List.filter (is_child directory) (map_to_list fs).*1)) as F.
    { apply List.Forall_forall. intros p Hp. apply List.filter_In in Hp as [_ Hp]. exact Hp. }
    induction F as [|p l Hp F IH]; cbn; [done|]. by rewrite join_drop, IH.
  - intros mode bit _ E. cbn. by apply Z.eqb_eq.
Qed.

Definition directory_inode (ino : Z) : Inode :=
  {| i_dev := 1; i_ino := ino; i_mode := 493; i_nlink := 2; i_kind := KDir |}.
Definition example_root : FileSystem :=
  <["" := directory_inode 1]> (<["spool" := directory_inode 2]> ∅).
Definition example_snapshot : WorkspaceSnapshot :=
  {| sn_version := 1;
     sn_entries := [Directory "bin"; File "bin/run" true "echo"; File "note" false "text"] |}.

Lemma example_snapshot_valid : valid_snapshot example_snapshot.
Proof. apply validate_snapshot_valid. by vm_compute. Qed.

Lemma example_root_fresh : fresh_root example_host example_root.
Proof.
  assert (forall p i, example_root !! p = Some i -> p <> "" -> p = "spool") as Hs.
  { intros p i H Hp. unfold example_root in H. rewrite lookup_insert_ne in H by done.
    destruct (decide (p = "spool")); [done|]. by rewrite lookup_insert_ne in H by done. }
  split.
  - split; [by eexists|]. intros p i H Hp. rewrite (Hs p i H Hp). by eexists.
  - intros root bit [= <-] Hb. rewrite !elem_of_cons, elem_of_nil in Hb.
    by destruct Hb as [->|[->|[->|[]]]].
  - intros p i H Hp. by rewrite (Hs p i H Hp).
Qed.

Lemma example_utf8 :
  Forall (fun e => utf8_valid (entry_path e) = true) (sn_entries example_snapshot).
Proof. by repeat constructor. Qed.

(** ** The theorems applied *)

Lemma validate_snapshot_exact_witness :
  exists r, snapshot_receipt example_snapshot = Ok r /\ validate_receipt r = Ok tt.
Proof.
  destruct (proj2 (validate_snapshot_exact example_snapshot) example_snapshot_valid)
    as (r & Hr & Hv & _).
  by exists r.
Defined.

Lemma seed_capture_roundtrip_witness :
  exists fs, seed example_host example_root example_snapshot = Ok fs /\
    capture example_host fs (directory_inode 1) = Ok example_snapshot.
Proof.
  destruct (seed_capture_roundtrip example_host example_root example_snapshot example_host_lawful
    example_root_fresh example_snapshot_valid example_utf8) as (fs & Hs & Hk & Hc).
  exists fs. split; [exact Hs|]. apply Hc. rewrite Hk by (right; reflexivity). reflexivity.
Defined.

Lemma capture_exact_witness :
  exists fs, capture example_host fs (directory_inode 1) = Ok example_snapshot /\
    pictures fs example_snapshot.
Proof.
  destruct (seed_entries_ok example_host example_host_lawful example_root example_root_fresh
    (sn_entries example_snapshot)) as (fs & _ & S).
  { apply entry_listing. by destruct example_snapshot_valid. }
  exists fs.
  pose proof (seeded_tree _ example_host_lawful _ example_root_fresh _ example_snapshot_valid fs S) as T.
  destruct (capture_exact example_host fs (directory_inode 1) example_snapshot
    example_host_lawful T) as [Hsound Hcomplete].
  assert (capture example_host fs (directory_inode 1) = Ok example_snapshot) as Hc.
  { apply Hcomplete; [exact example_snapshot_valid| |exact example_utf8| |].
    - exact (seeded_pictures _ _ example_root_fresh _ example_snapshot_valid fs S).
    - exact (seeded_readable _ example_host_lawful _ example_root_fresh _ example_snapshot_valid fs S).
    - rewrite (seeded_root example_host example_root (sn_entries example_snapshot) fs
        (directory_inode 1) (vs_paths _ example_snapshot_valid) S eq_refl). reflexivity. }
  split; [exact Hc|]. apply (Hsound Hc).
Defined.
