(* ===== verification/AuditExamples.v ===== *)
(** * A concrete audit chain and schedule

    A printer of JSON values that tells them apart and an identity [jsonb], with
    the laws the audit chain relies on, and the theorems on the chain and on
    schedule expressions applied to short histories. *)

From stdpp Require Import base gmap list strings.
From Stdlib Require Import Ascii ZArith Lia.
From S2P Require Import Prelude Text Bytes Domain DagContract StoreTables AuditChain AuditHistory.
From S2P Require Import ScheduleCalendar CronMeaning WorkspaceStore WorkspaceExamples.

Open Scope Z_scope.

(** ** Printing JSON values *)

(** Each character behind a mark, then an end. *)
Fixpoint marked (s : string) : string :=
  match s with
  | EmptyString => "."
  | String c s => String "-" (String c (marked s))
  end.

Fixpoint example_print (v : Value) : string :=
  match v with
  | VNull => "n"
  | VBool true => "t"
  | VBool false => "f"
  | VNumber s => "d" +:+ marked s
  | VString s => "s" +:+ marked s
  | VArray l =>
      "[" +:+ (fix go l := match l with [] => "]" | x :: l => "," +:+ (example_print x +:+ go l) end) l
  | VObject m =>
      "{" +:+ (fix go m := match m with
               | [] => "}"
               | (k, x) :: m => "," +:+ (marked k +:+ (example_print x +:+ go m))
               end) m
  end.

Lemma marked_prefix a b s t : marked a +:+ s = marked b +:+ t -> a = b /\ s = t.
Proof.
  revert b. induction a as [|c a IH]; intros [|d b]; simpl; try done; [by intros [= ->]|].
  intros [= -> E]. destruct (IH b E) as [-> ->]. done.
Qed.

Fixpoint example_print_prefix (v w : Value) : forall s t : string,
  example_print v +:+ s = example_print w +:+ t -> v = w /\ s = t.
Proof.
  destruct v as [|[]|x|x|l|l], w as [|[]|y|y|k|k]; intros s t; cbn [example_print]; try discriminate;
    try (by intros [= ->]).
  - intros [= [-> ->]%marked_prefix]. done.
  - intros [= [-> ->]%marked_prefix]. done.
  - intros [= E]. revert k s t E. induction l as [|x l IH]; intros [|y k] s t; try discriminate.
    + by intros [= ->].
    + intros [= E]. rewrite !sapp_assoc in E.
      apply example_print_prefix in E as [-> E]. destruct (IH k s t E) as [[= ->] ->]. done.
  - intros [= E]. revert k s t E. induction l as [|[n x] l IH]; intros [|[m y] k] s t; try discriminate.
    + by intros [= ->].
    + intros [= E]. rewrite !sapp_assoc in E. apply marked_prefix in E as [-> E].
      apply example_print_prefix in E as [-> E]. destruct (IH k s t E) as [[= ->] ->]. done.
Qed.

(** ** The parameters *)

Definition printing_dag : DagExternal := {|
  json_to_vec v := Ok (example_print v);
  url_parse s := Some (Build_Url "https" (Some "example.org") "" None None);
  debug_assertions := false
|}.
#[export] Existing Instance printing_dag.
#[export] Instance identity_jsonb : AuditJson := {| jsonb v := v |}.

Lemma example_hash_length acc s : String.length (example_hash acc s) = 32%nat.
Proof. revert acc. induction s as [|c s IH]; intros acc; [apply be_bytes_length|apply IH]. Qed.

#[export] Instance example_crates_laws : ExternalLaws example_crates.
Proof.
  split; cbn.
  - intros m. apply example_hash_length.
  - done.
  - intros s u. destruct (Nat.eqb_spec (String.length s) 16); [by intros [= <-]|done].
  - by intros u ->.
Qed.

#[export] Instance identity_jsonb_laws : AuditJsonLaws identity_jsonb.
Proof.
  split; cbn; [done|]. intros v w b [= <-] [= E].
  apply (f_equal (fun s => s +:+ "")) in E. by apply example_print_prefix in E as [-> _].
Qed.

(** ** A chain *)

Definition acme : Uuid := "organization-001".
Definition stamp_at (n : string) (clock : Z) : Stamp := MkStamp ("event-id-0000" +:+ n) clock.

Definition early_calls : list AuditCall :=
  [AppendEvent "admin" "user:ada" "pipeline.saved" "pipeline:1" (VObject [("n", json_z 1)])
     (stamp_at "001" 10);
   ExtendRetention 1000 (stamp_at "002" 20)].
Definition later_calls : list AuditCall :=
  [ExtendRetention 500 (stamp_at "003" 30); SetLegalHold true (stamp_at "004" 40); ReadPage 0 2;
   AppendAudit "" "user:ada" "pipeline.saved" "pipeline:1" VNull (stamp_at "005" 50); ExportAudit].
#[local] Notation example_chain := (audit_history acme (early_calls ++ later_calls)).

(** The append without a category fails, so four events are on the chain. *)
Lemma example_chain_length : length (at_events example_chain) = 4%nat.
Proof. vm_compute. reflexivity. Qed.

Lemma example_chain_short : llen (at_events example_chain) <= MAX_AUDIT_EXPORT.
Proof. unfold llen. rewrite example_chain_length. discriminate. Qed.

Lemma audit_history_verifies_witness :
  verifies acme example_chain /\
  at_events (audit_history acme early_calls) `prefix_of` at_events example_chain.
Proof.
  pose proof (audit_history_verifies acme early_calls later_calls) as Hv. cbv zeta in Hv.
  destruct Hv as (Hv & Hp & _).
  split; [exact (Hv example_chain_short)|exact Hp].
Defined.

Lemma audit_pages_cover_witness :
  read_pages 5 acme 0 3 example_chain = Ok (at_events example_chain).
Proof.
  assert (0 < 3 <= MAX_AUDIT_PAGE) as Hlimit by (split; done).
  pose proof (audit_pages_cover acme (early_calls ++ later_calls) 3 Hlimit) as Hp. cbv zeta in Hp.
  rewrite example_chain_length in Hp. exact Hp.
Defined.

Definition example_export : AuditExport :=
  match export_audit_events acme example_chain with
  | Ok (x, _) => x
  | Err _ => MkAuditExport acme [] 1 ZERO_HASH None
  end.

(** The types of an event, as a test. *)
Definition uuid_sized (u : Uuid) : bool := Nat.eqb (String.length u) 16.
Definition sized (s : string) : bool := slen s <? 2 ^ 64.
Definition event_sized (e : AuditEvent) : bool :=
  in_i64 (ae_sequence e) && uuid_sized (ae_event_id e)
  && forallb sized [ae_category e; ae_actor_subject e; ae_action e; ae_subject e]
  && sized (example_print (ae_payload e)) && in_i64 (ae_occurred_at_unix_ms e).

Lemma uuid_sized_text u : uuid_sized u = true -> uuid_text u.
Proof. intros Hu. exists u. cbn. unfold uuid_sized in Hu. by rewrite Hu. Qed.

Lemma sized_u64 s : sized s = true -> u64_len s.
Proof. apply Z.ltb_lt. Qed.

Lemma event_sized_typed e : event_sized e = true -> event_typed e.
Proof.
  unfold event_sized. rewrite !andb_true_iff. intros [[[[H1 H2] H3] H4] H5].
  split_and!; [done|by apply uuid_sized_text| | |done].
  - apply Forall_forall. intros s Hs. apply sized_u64. apply (proj1 (forallb_forall _ _) H3).
    by apply list_elem_of_In.
  - intros b [= <-]. by apply sized_u64.
Qed.

Lemma sized_events_typed l : forallb event_sized l = true -> Forall event_typed l.
Proof.
  induction l as [|e l IH]; cbn [forallb]; [constructor|].
  rewrite andb_true_iff. intros [He Hl]. constructor; [by apply event_sized_typed|by apply IH].
Qed.

Lemma example_export_typed : export_typed example_export.
Proof.
  split; [apply uuid_sized_text|apply sized_events_typed]; vm_compute; reflexivity.
Qed.

Lemma audit_head_identifies_witness :
  (ax_events example_export = ax_events example_export
   /\ (ax_events example_export = []
       \/ ax_organization example_export = ax_organization example_export)) \/ sha256_collision.
Proof.
  apply (audit_head_identifies example_export example_export example_export_typed
    example_export_typed); [vm_compute; reflexivity..|reflexivity|reflexivity].
Defined.

(** ** A schedule *)

(** [H 9-17/4 1,15 * 7]: one minute of the hour, on Sundays that are a first or
    a fifteenth. *)
Definition example_fields : list (list Part) :=
  [[Hashed None None]; [Span 9 (Some 17) (Some 4)]; [Span 1 None None; Span 15 None None];
   [Every None]; [Span 7 None None]].

Lemma example_fields_print : print_expression example_fields = "H 9-17/4 1,15 * 7".
Proof. vm_compute. reflexivity. Qed.

#[export] Instance short_hash : Md5Hash := {| md5 m := String.substring 0 16 (example_hash 0 m) |}.

Lemma example_fields_ok : fields_ok 0 example_fields.
Proof.
  intros k parts Hk. do 5 (destruct k as [|k]; [injection Hk as <-; split; [done|];
    repeat (apply Forall_cons; split; [|]); try apply Forall_nil; unfold part_ok; cbn;
    split_and?; intros; simplify_eq; vm_compute; intuition discriminate|]).
  done.
Qed.

Lemma cron_meaning_witness : exists bits runs,
  parse_cron_expression "H 9-17/4 1,15 * 7" "example-seed" = Ok bits /\ length runs = 5%nat /\
  (forall k parts rs, example_fields !! k = Some parts -> runs !! k = Some rs -> field_runs k parts rs).
Proof.
  destruct (cron_meaning example_fields "example-seed") as (bits & runs & H1 & H2 & H3 & _);
    [reflexivity|apply example_fields_ok|].
  exists bits, runs. rewrite <- example_fields_print. auto.
Defined.
