(* ===== verification/TriggerExamples.v ===== *)
(** * Concrete trigger histories

    Stand-ins for the remaining parameters of trigger ingress with their laws, a
    remote trigger whose delivery is accepted, claimed twice and admitted, a
    schedule that catches up, the export of the paused trigger, and the theorems
    on trigger histories applied to them; and runs of the schedules that depart
    from what the comments of the source say. *)

From stdpp Require Import base gmap list strings relations.
From Stdlib Require Import Ascii ZArith Lia.
From S2P Require Import Prelude Text Bytes Domain DagContract DagNormal StoreTables AuditChain.
From S2P Require Import AuditHistory ScheduleCalendar TriggerTables TriggerValidation TriggerSchedule.
From S2P Require Import DagRuntime TriggerIngress TriggerDeliveries TriggerTransfer.
From S2P Require Import TriggerMoves TriggerHistory TriggerLedger TriggerSlots TriggerClaims.
From S2P Require Import TriggerReplay TriggerAudit TriggerCatchUp TriggerAnchor.
From S2P Require Import WorkspaceStore WorkspaceExamples AuditExamples.

Open Scope Z_scope.

(** ** The parameters *)

Definition hex_value (c : ascii) : Z :=
  let n := byte_val c in if n <? 58 then n - 48 else n - 87.
Fixpoint hex_bytes (s : string) : option string :=
  match s with
  | EmptyString => Some ""
  | String a (String b s) =>
      t ← hex_bytes s; Some (String (byte_of (hex_value a * 16 + hex_value b)) t)
  | String _ EmptyString => None
  end.

#[export] Instance example_hex : TriggerHex := {| hex_encode := hex_of; hex_decode := hex_bytes |}.
#[export] Instance example_hex_laws : TriggerHexLaws example_hex.
Proof.
  split. cbn. intros s. induction s as [|c s IH]; [done|]. cbn. rewrite IH. cbn. do 2 f_equal.
  clear. by destruct c as [[] [] [] [] [] [] [] []].
Qed.

#[export] Instance example_postgres : Postgres := {| hashtextextended _ _ := 0; jsonb_text := example_print |}.

(** The civil time of every zone is UTC. *)
Definition utc (instant : Z) : Civil :=
  let minutes := instant / 60000 in
  let days := minutes / 1440 in
  let z := days + 719468 in
  let era := z / 146097 in
  let doe := z - era * 146097 in
  let yoe := (doe - doe / 1460 + doe / 36524 - doe / 146096) / 365 in
  let doy := doe - (365 * yoe + yoe / 4 - yoe / 100) in
  let mp := (5 * doy + 2) / 153 in
  MkCivil (minutes mod 60) (minutes / 60 mod 24) (doy - (153 * mp + 2) / 5 + 1)
    (if mp <? 10 then mp + 3 else mp - 9) ((days + 4) mod 7).
#[export] Instance example_zones : CivilTime := {| timezone_civil _ instant := Some (utc instant) |}.

(** ** Playing operations *)

Inductive TriggerCall : Type :=
| CPut (stamp : Stamp) (now : Z) (input : PipelineTriggerWrite)
| CRecord (stamp : Stamp) (now : Z) (input : NewWebhookReceipt)
| CAccept (stamp : Stamp) (now : Z) (input : NewTriggerDelivery) (timing : DeliveryTiming)
| CClaim (stamp : Stamp) (now : Z) (input : TriggerDeliveryClaimRequest)
| CAdmit (clock : AdmissionClock) (ids : AdmissionIds) (input : TriggerDeliveryDagAdmissionRequest)
    (dag : NewDagBuild)
| CFail (stamp : Stamp) (now : Z) (input : TriggerDeliveryFailureRequest)
| CRedrive (stamp : Stamp) (now : Z) (input : TriggerDeliveryRedrive)
| CProcess (limit : Z) (firings : nat -> Firing) (extend_at : Z).

Definition call (c : TriggerCall) (t : TriggerDb) : option TriggerDb :=
  let done {A} (r : result StoreError (A * TriggerDb)) := match r with Ok (_, t') => Some t' | _ => None end in
  match c with
  | CPut stamp now input => done (put_pipeline_trigger acme stamp now now input t)
  | CRecord stamp now input => done (record_unadmitted_webhook_delivery acme stamp now input t)
  | CAccept stamp now input timing =>
      done (accept_trigger_delivery_timed acme stamp now now input timing t)
  | CClaim stamp now input => done (claim_trigger_delivery acme stamp now now input t)
  | CAdmit clock ids input dag => done (admit_trigger_delivery_dag acme clock ids input dag t)
  | CFail stamp now input => done (fail_trigger_delivery acme stamp now input t)
  | CRedrive stamp now input => done (redrive_trigger_delivery acme stamp now input t)
  | CProcess limit firings extend_at =>
      Some (process_due_schedule_slots acme limit firings extend_at t).2
  end.

Fixpoint calls (l : list TriggerCall) (t : TriggerDb) : option TriggerDb :=
  match l with
  | [] => Some t
  | c :: l => t ← call c t; calls l t
  end.

Lemma call_steps c t t' : call c t = Some t' -> rtc (trigger_step acme) t t'.
Proof.
  destruct c; cbn [call]; try (destruct (_ : result _ _) as [[o u]|] eqn:E; [|done]; intros [= <-];
    apply rtc_once).
  - by eapply call_step, step_put.
  - by eapply call_step, step_record.
  - by eapply call_step, step_accept.
  - by eapply call_step, step_claim.
  - by eapply call_step, step_admit.
  - by eapply call_step, step_fail.
  - by eapply call_step, step_redrive.
  - intros [= <-]. apply process_due_steps.
Qed.

Lemma calls_steps l t t' : calls l t = Some t' -> rtc (trigger_step acme) t t'.
Proof.
  revert t. induction l as [|c l IH]; intros t; cbn [calls]; [by intros [= ->]|].
  destruct (call c t) as [u|] eqn:E; [|done]. cbn. intros Hl.
  etrans; [by eapply call_steps|by apply IH].
Qed.

(** ** A remote trigger *)

Definition shop : Uuid := "project-id-00001".
Definition deploy : Uuid := "pipeline-id-0001".
Definition remote : Uuid := "trigger-id-00001".

(** An enabled pipeline of the project, and no trigger. *)
Definition saved_pipeline : Db := {|
  builds := ∅; nodes := ∅; attempts := ∅; deps := []; effects := []; events := [];
  deliveries := ∅; dead_letters := ∅;
  pipelines := {[deploy := MkPipeline shop 1 1]};
  pipeline_states := {[(deploy, 1) := "enabled"]};
  revision_digests := {[(deploy, 1) := "0123456789abcdef0123456789abcdef"]};
  sessions := ∅; restore_points := ∅; restore_epochs := ∅; restore_epoch := 1
|}.
Definition no_trigger_db : TriggerDb := MkTriggerDb saved_pipeline empty_audit ∅ ∅ ∅ ∅ ∅ ∅.

(** Noon of 1 January 2026 in milliseconds, and an instant in microseconds. *)
Definition noon : Z := 1767268800000.
Definition at_second (s : Z) : Z := (noon + s * 1000) * 1000.

Definition json_digest (v : Value) : string := sha256 (example_print v).
Definition no_filter : Value := VObject [].
Definition written (trigger : Uuid) (expected : Z) (kind : TriggerKind) (state : PipelineTriggerState)
    (configuration : Value) (key : string) : PipelineTriggerWrite :=
  MkTriggerWrite shop deploy trigger expected kind state (sha256 "implementation")
    (json_digest configuration) (json_digest no_filter) "caller:ci" "source-1" configuration
    3600 3 600 "user:ada" "set up" key.

Definition remote_configuration : Value :=
  VObject [("audience", VString "acme"); ("filter", no_filter)].
Definition requested (id : string) : NewTriggerDelivery :=
  let payload := VObject [("event_kind", VString "remote_build");
    ("payload", VObject [("audience", VString "acme"); ("request_id", VString ("event-" +:+ id));
                         ("request_method", VString "POST")])] in
  MkNewDelivery shop deploy remote 1 id ("event-" +:+ id) "remote_build" "caller:ci"
    (json_digest payload) payload (VObject []) "linux" "default" noon noon None.
Definition claim_from (worker id : string) : TriggerDeliveryClaimRequest :=
  MkClaimRequest remote id worker noon (noon + 60000).

Definition one_node : NewDagBuild :=
  Build_NewDagBuild acme shop deploy 1 1 "remote-1" "0123456789abcdef0123456789abcdef" 0
    [example_node "a" [] []] (VArray []).
Definition admission_clock (s : Z) : AdmissionClock :=
  MkAdmissionClock (at_second s) (at_second s) (at_second s) (at_second s) (at_second s).
Definition admission_ids : AdmissionIds :=
  MkAdmissionIds "build-id-0000001" (fun _ => ("node-id-00000001", "attempt-id-00001"))
    (stamp_at "020" noon) (fun _ => stamp_at "021" noon).
Definition admission_of (worker : string) (fence : Z) : TriggerDeliveryDagAdmissionRequest :=
  MkAdmissionRequest remote "delivery-1" worker fence.

Definition setup : list TriggerCall :=
  [CPut (stamp_at "001" noon) (at_second 0)
     (written remote 0 RemoteApi TriggerEnabled remote_configuration "create");
   CRecord (stamp_at "002" noon) (at_second 1)
     (MkNewReceipt remote 1 "ping" "ping" (sha256 "{}") "ignored" "not a push" "caller:ci")].
Definition accepting : list TriggerCall :=
  setup ++ [CAccept (stamp_at "003" noon) (at_second 2) (requested "delivery-1") Declared].

Definition reached (l : list TriggerCall) : TriggerDb := default no_trigger_db (calls l no_trigger_db).
Definition row (t : TriggerDb) (id : string) : TriggerDelivery :=
  default (accepted_delivery acme (requested id) 1 0 0 0 (MkAuditEvent 0 "" "" "" "" "" VNull 0 "" ""))
    (ti_deliveries t !! (remote, id)).

Definition t_accepted : TriggerDb := reached accepting.
Definition first_claim : list TriggerCall :=
  accepting ++ [CClaim (stamp_at "004" noon) (at_second 3) (claim_from "worker-1" "delivery-1")].
Definition second_claim : list TriggerCall :=
  first_claim ++ [CClaim (stamp_at "005" noon) (at_second 70) (claim_from "worker-2" "delivery-1")].
Definition admitting : list TriggerCall :=
  second_claim ++ [CAdmit (admission_clock 75) admission_ids (admission_of "worker-2" 2) one_node].
Definition t_claimed : TriggerDb := reached first_claim.
Definition t_reclaimed : TriggerDb := reached second_claim.
Definition t_admitted : TriggerDb := reached admitting.

Lemma calls_app l k t : calls (l ++ k) t = calls l t ≫= calls k.
Proof.
  revert t. induction l as [|c l IH]; intros t; [done|]. cbn [app calls].
  destruct (call c t) as [u|]; [apply IH|done].
Qed.

(** A list of operations that all commit, cut anywhere. *)
Definition commits (l : list TriggerCall) : bool := is_some (calls l no_trigger_db).

Lemma reached_further l k : commits (l ++ k) = true ->
  trigger_reachable acme (reached l) /\ rtc (trigger_step acme) (reached l) (reached (l ++ k)).
Proof.
  unfold commits, reached. rewrite calls_app. destruct (calls l no_trigger_db) as [t|] eqn:E; [|done].
  cbn. destruct (calls k t) as [t'|] eqn:E'; [|done]. intros _. cbn.
  split; [exists no_trigger_db; split; [done|]|]; by eapply calls_steps.
Qed.

Lemma admitting_commits : commits admitting = true.
Proof. vm_compute. reflexivity. Qed.

Lemma accepted_reachable : trigger_reachable acme t_accepted.
Proof. exact (proj1 (reached_further accepting (drop 3 admitting) admitting_commits)). Qed.
Lemma reclaimed_reachable : trigger_reachable acme t_reclaimed.
Proof. exact (proj1 (reached_further second_claim (drop 5 admitting) admitting_commits)). Qed.
Lemma admitted_reachable : trigger_reachable acme t_admitted.
Proof. exact (proj1 (reached_further admitting [] admitting_commits)). Qed.

Lemma accepted_steps : rtc (trigger_step acme) t_accepted t_admitted.
Proof. exact (proj2 (reached_further accepting (drop 3 admitting) admitting_commits)). Qed.
Lemma reclaimed_steps : rtc (trigger_step acme) t_reclaimed t_admitted.
Proof. exact (proj2 (reached_further second_claim (drop 5 admitting) admitting_commits)). Qed.

Lemma claim_granted :
  claim_trigger_delivery acme (stamp_at "004" noon) (at_second 3) (at_second 3)
    (claim_from "worker-1" "delivery-1") t_accepted
  = Ok (DeliveryClaimed (row t_claimed "delivery-1"), t_claimed).
Proof. vm_compute. reflexivity. Qed.
Lemma reclaim_granted :
  claim_trigger_delivery acme (stamp_at "005" noon) (at_second 70) (at_second 70)
    (claim_from "worker-2" "delivery-1") t_claimed
  = Ok (DeliveryClaimed (row t_reclaimed "delivery-1"), t_reclaimed).
Proof. vm_compute. reflexivity. Qed.

Lemma admission_granted : exists admission,
  admit_trigger_delivery_dag acme (admission_clock 75) admission_ids (admission_of "worker-2" 2) one_node
    t_reclaimed = Ok (AdmittedDag (row t_admitted "delivery-1") admission, t_admitted).
Proof. eexists. vm_compute. reflexivity. Qed.

(** ** The theorems at work *)

Definition delivery_1 : Uuid * string := (remote, "delivery-1").

(** A claim, a second one after the first lease has run out, and the admission. *)
Definition claims_and_admission : list delivery_event :=
  [claim_event (at_second 3) (claim_from "worker-1" "delivery-1");
   claim_event (at_second 70) (claim_from "worker-2" "delivery-1");
   admit_event (admission_clock 75) (admission_of "worker-2" 2)].

Lemma accepted_run : trigger_run acme claims_and_admission t_accepted t_admitted.
Proof.
  destruct admission_granted as [admission Ha].
  exact (trigger_run_call _ _ _ _ _ _ (step_claim _ _ _ _ _ _ _ _ claim_granted)
    (trigger_run_call _ _ _ _ _ _ (step_claim _ _ _ _ _ _ _ _ reclaim_granted)
      (trigger_run_call _ _ _ _ _ _ (step_admit _ _ _ _ _ _ _ _ Ha) (trigger_run_end _ _)))).
Qed.

Lemma trigger_deliveries_refine_witness :
  delivery_run (ti_versions t_admitted) delivery_1 claims_and_admission
    (ti_deliveries t_accepted !! delivery_1) (ti_deliveries t_admitted !! delivery_1).
Proof.
  exact (trigger_deliveries_refine acme claims_and_admission t_accepted t_admitted accepted_reachable
           accepted_run delivery_1).
Defined.

Lemma trigger_ledger_well_formed_witness : ledger_ok t_admitted.
Proof. exact (trigger_ledger_well_formed acme t_admitted admitted_reachable). Defined.

Lemma accepted_delivery_settles_witness : exists d',
  ti_deliveries t_admitted !! delivery_1 = Some d'
  /\ identity_of d' = identity_of (row t_accepted "delivery-1").
Proof.
  destruct (accepted_delivery_settles acme t_accepted t_admitted delivery_1 (row t_accepted "delivery-1"))
    as (d' & H1 & H2 & _).
  - exact accepted_reachable.
  - exact accepted_steps.
  - vm_compute. reflexivity.
  - exists d'. split; [exact H1|exact H2].
Defined.

(** The first worker comes back under its old fence after the admission. *)
Lemma stale_worker_fenced_witness :
  is_ok (admit_trigger_delivery_dag acme (admission_clock 90) admission_ids
           (MkAdmissionRequest remote "delivery-1" "worker-1"
              (td_claim_fence (row t_claimed "delivery-1"))) one_node t_admitted) = false.
Proof.
  exact (proj1 (stale_worker_fenced acme t_accepted t_claimed t_claimed t_reclaimed t_admitted
    (stamp_at "004" noon) (at_second 3) (at_second 3) (claim_from "worker-1" "delivery-1")
    (row t_claimed "delivery-1") (stamp_at "005" noon) (at_second 70) (at_second 70)
    (claim_from "worker-2" "delivery-1") (row t_reclaimed "delivery-1") delivery_1
    accepted_reachable eq_refl eq_refl claim_granted (rtc_refl _ _) reclaim_granted reclaimed_steps)
    (admission_clock 90) admission_ids "worker-1" one_node).
Defined.

Lemma admission_is_exclusive_witness :
  ti_deliveries t_admitted !! delivery_1 = Some (row t_admitted "delivery-1").
Proof.
  destruct admission_granted as [admission Ha].
  exact (proj1 (proj2 (proj2 (proj2 (admission_is_exclusive acme (admission_clock 75) admission_ids
    (admission_of "worker-2" 2) one_node t_reclaimed (row t_admitted "delivery-1") admission t_admitted
    t_admitted reclaimed_reachable Ha (rtc_refl _ _)))))).
Defined.


(** ** Due work, the audit chain and a transfer *)

Definition scan_row : TriggerDelivery := row t_accepted "delivery-1".
Definition scan_clock : Z := trigger_database_unix_ms (at_second 3).
Definition scan_lease : Z := scan_clock + (noon + 60000 - noon).
Definition scan_claim : result StoreError (TriggerDeliveryClaimOutcome * TriggerDb) :=
  claim_trigger_delivery acme (stamp_at "004" noon) (at_second 3) (at_second 3)
    (claim_from "worker-1" "delivery-1") t_accepted.

Lemma due_scan_claimable_witness :
  (scan_clock < td_expires_at scan_row /\ exists t', scan_claim = Ok (DeliveryClaimed
     (claimed_by "worker-1" (td_claim_fence scan_row + 1) scan_lease scan_row), t'))
  \/ (td_expires_at scan_row <= scan_clock /\ exists t', scan_claim = Ok (DeliveryTerminal
        (dead_lettered "delivery expired before claim" scan_row), t'))
  \/ (exists action payload e, append_trigger_audit acme "worker-1" action
        (delivery_subject (td_trigger scan_row) (td_delivery_id scan_row)) payload
        (stamp_at "004" noon) (lock_head t_accepted) = Err e /\ scan_claim = Err e)
  \/ (i64_max < scan_lease
      /\ scan_claim = Err (InvalidTriggerIngress "delivery claim lease overflows")).
Proof.
  unfold scan_claim, scan_row, scan_lease, scan_clock.
  apply (due_scan_claimable acme (stamp_at "004" noon) (at_second 3) noon 10 t_accepted
    [row t_accepted "delivery-1"] (row t_accepted "delivery-1") (claim_from "worker-1" "delivery-1")
    accepted_reachable).
  - vm_compute. reflexivity.
  - constructor.
  - vm_compute. reflexivity.
  - vm_compute. reflexivity.
  - split_and!; vm_compute; first [reflexivity|discriminate].
Defined.

Lemma fresh_to_admitted : rtc (trigger_step acme) no_trigger_db t_admitted.
Proof. exact (proj2 (reached_further [] admitting admitting_commits)). Qed.

Lemma trigger_ledger_audited_witness : anchored acme t_admitted /\ verifies acme (ti_audit t_admitted).
Proof.
  destruct (trigger_ledger_audited acme no_trigger_db t_admitted) as [Ha Hv].
  - done.
  - apply empty_audit_ok.
  - exact fresh_to_admitted.
  - split; [exact Ha|]. apply Hv. apply Z.leb_le. vm_compute. reflexivity.
Defined.

(** The value and the state of a transaction that commits. *)
Definition value_or {A} (a : A) (r : result StoreError (A * TriggerDb)) : A :=
  match r with Ok (b, _) => b | Err _ => a end.
Definition state_or (t : TriggerDb) {A} (r : result StoreError (A * TriggerDb)) : TriggerDb :=
  match r with Ok (_, t') => t' | Err _ => t end.

(** The trigger is paused and handed over. *)
Definition pausing : list TriggerCall :=
  admitting ++ [CPut (stamp_at "030" noon) (at_second 80)
    (written remote 1 RemoteApi TriggerIsPaused remote_configuration "pause")].
Definition t_paused : TriggerDb := reached pausing.
Definition handover : TriggerTransferSnapshot :=
  value_or (trigger_ledger acme shop deploy remote 0 no_trigger_db)
    (export_quiesced_trigger_state acme (stamp_at "031" noon) (at_second 90) shop deploy remote
       "user:ada" t_paused).

Lemma handover_holds :
  (length (tx_versions handover), length (tx_deliveries handover), length (tx_webhook_receipts handover))
  = (2, 1, 1)%nat.
Proof. vm_compute. reflexivity. Qed.

Lemma handover_typed : snapshot_typed handover.
Proof. split; [apply uuid_sized_text|apply event_sized_typed]; vm_compute; reflexivity. Qed.

Lemma handover_verifies :
  verify_trigger_transfer_snapshot handover (tx_audit_event_hash handover) = Ok tt.
Proof. vm_compute. reflexivity. Qed.

Lemma transfer_anchor_identifies_witness : handover = handover \/ sha256_collision.
Proof.
  exact (transfer_anchor_identifies handover handover (tx_audit_event_hash handover)
    handover_typed handover_typed handover_verifies handover_verifies).
Defined.

(** ** A schedule *)

Definition nightly : Uuid := "trigger-id-00002".
Definition hex_digest (s : string) : Value := VString (hex_of (sha256 s)).
(** [expression] in UTC, with a horizon of [n] slots. *)
Definition schedule_configuration (expression : string) (n : Z) : Value :=
  VObject [("calendar", VString "gregorian"); ("expression", VString expression);
           ("filter", no_filter); ("horizon_slots", json_z n);
           ("resolver_implementation_sha256", hex_digest "resolver");
           ("schedule_identity_sha256", hex_digest "schedule"); ("timezone", VString "UTC")].
Definition half_hourly : list TriggerCall :=
  [CPut (stamp_at "040" noon) (at_second 0)
     (written nightly 0 Schedule TriggerEnabled (schedule_configuration "*/30 * * * *" 6) "create")].
Definition t_scheduled : TriggerDb := reached half_hourly.

(** The controller is down for two slots and fires at 13:10. *)
Definition late : Z := at_second 4200.
Definition due_now : DueTrigger := MkDue nightly 1 shop deploy.
Definition firing (n : string) : Firing :=
  MkFiring late late late [] late late late (stamp_at n noon).
Definition catching_up : list TriggerCall :=
  half_hourly ++ [CProcess 5 (fun i => firing ("05" +:+ fmt_z (Z.of_nat i))) late].
Definition t_fired : TriggerDb := reached catching_up.

Lemma catching_up_commits : commits catching_up = true.
Proof. vm_compute. reflexivity. Qed.
Lemma fired_reachable : trigger_reachable acme t_fired.
Proof. exact (proj1 (reached_further catching_up [] catching_up_commits)). Qed.

Lemma slots_fire_once_witness : schedule_ok t_fired.
Proof. exact (slots_fire_once acme t_fired fired_reachable). Defined.

Definition claim_late : result StoreError (option NewTriggerDelivery * TriggerDb) :=
  claim_due_slot late (noon + 4200000) [] due_now t_scheduled.
Definition claimed_input : NewTriggerDelivery := default (requested "") (value_or None claim_late).
Definition t_slot_claimed : TriggerDb := state_or t_scheduled claim_late.
Definition accept_late : result StoreError (TriggerDeliveryAdmission * TriggerDb) :=
  accept_trigger_delivery acme (stamp_at "050" noon) late late claimed_input t_slot_claimed.

Lemma slot_was_claimed :
  claim_due_slot late (noon + 4200000) [] due_now t_scheduled = Ok (Some claimed_input, t_slot_claimed).
Proof.
  assert (is_some (value_or None claim_late) = true) as Hc by (vm_compute; reflexivity).
  unfold claimed_input, t_slot_claimed. change (claim_late = Ok (Some (default (requested "")
    (value_or None claim_late)), state_or t_scheduled claim_late)).
  destruct claim_late as [[[i|] t]|]; done.
Qed.

Definition created (a : TriggerDeliveryAdmission) : bool :=
  match a with DeliveryCreated _ => true | DeliveryReplayed _ => false end.

Lemma slot_was_accepted : exists d t, accept_late = Ok (DeliveryCreated d, t).
Proof.
  assert (created (value_or (DeliveryReplayed (row no_trigger_db "")) accept_late) = true) as Ha
    by (vm_compute; reflexivity).
  destruct accept_late as [[[d|d] t]|]; [by exists d, t|done..].
Qed.

Lemma catch_up_fires_latest_witness : exists latest d t,
  latest <= noon + 4200000 /\ td_event_time d = latest
  /\ fired_as t (nightly, 1, latest) (td_delivery_id d).
Proof.
  destruct slot_was_accepted as (d & t & Ha). unfold accept_late in Ha.
  destruct (catch_up_fires_latest acme late (noon + 4200000) due_now t_scheduled claimed_input
    t_slot_claimed (stamp_at "050" noon) late late d t slot_was_claimed Ha)
    as (latest & H1 & H2 & H3 & _).
  exists latest, d, t. split_and!; [exact H1|exact H2|exact H3].
Defined.

(** * Where the runner departs from its comments

    A weekly schedule is refused, a weekly schedule that did get in stops the
    extension of every horizon, and so does the schedule of a disabled pipeline. *)

(** A schedule firing whose payload does not name its schedule is accepted; sent
    again it is refused as a reuse of the delivery for a different input. *)
Definition unnamed_input : NewTriggerDelivery :=
  let payload := VObject [("event_kind", VString "schedule"); ("payload", VObject [])] in
  let i := claimed_input in
  MkNewDelivery (nd_project i) (nd_pipeline i) (nd_trigger i) (nd_expected_trigger_generation i)
    (nd_delivery_id i) (nd_event_id i) (nd_event_kind i) (nd_caller_identity i)
    (json_digest payload) payload (nd_parameters i) (nd_requested_platform i)
    (nd_requested_trust_pool i) (nd_event_time i) (nd_accepted_at i) (nd_schedule_slot i).
Definition accept_unnamed (t : TriggerDb) : result StoreError (TriggerDeliveryAdmission * TriggerDb) :=
  accept_trigger_delivery acme (stamp_at "060" noon) late late unnamed_input t.

Lemma unnamed_schedule_not_replayed :
  created (value_or (DeliveryReplayed (row no_trigger_db "")) (accept_unnamed t_slot_claimed)) = true
  /\ accept_unnamed (state_or t_slot_claimed (accept_unnamed t_slot_claimed))
     = Err (conflict "delivery or event ID was reused for different trigger input").
Proof. split; vm_compute; reflexivity. Qed.

Definition outcome {A} (r : result StoreError (A * TriggerDb)) : result StoreError () :=
  match r with Ok _ => Ok tt | Err e => Err e end.
Definition no_slots : StoreError :=
  InvalidTriggerIngress "native schedule calendar produced no upcoming slots in the search window".

(** Noon of 1 January 2026 is a Thursday: the Monday is four days ahead, and the
    search ends after two. *)
Lemma weekly_schedule_refused :
  outcome (put_pipeline_trigger acme (stamp_at "040" noon) (at_second 0) (at_second 0)
    (written nightly 0 Schedule TriggerEnabled (schedule_configuration "0 9 * * 1" 6) "create") no_trigger_db)
  = Err no_slots.
Proof. vm_compute. reflexivity. Qed.

(** A schedule of Thursdays at 13:00, created at noon, has one slot. It fires,
    and then no horizon can be extended: the half-hourly schedule beside it, with
    no slot left, is not extended either. *)
Definition thursdays : Uuid := "trigger-id-00003".
Definition two_schedules : list TriggerCall :=
  [CPut (stamp_at "060" noon) (at_second 0)
     (written thursdays 0 Schedule TriggerEnabled (schedule_configuration "0 13 * * 4" 1) "create");
   CPut (stamp_at "061" noon) (at_second 0)
     (written nightly 0 Schedule TriggerEnabled (schedule_configuration "*/30 * * * *" 2) "create")].
Definition after_thursday : result StoreError Z * TriggerDb :=
  process_due_schedule_slots acme 5 (fun i => firing ("07" +:+ fmt_z (Z.of_nat i))) late
    (reached two_schedules).
Definition open_slots (t : TriggerDb) : nat :=
  length (List.filter (fun ks => bool_decide (sl_outcome ks.2 = SlotOpen)) (map_to_list (ti_slots t))).

Lemma weekly_schedule_stops_extension :
  after_thursday.1 = Err no_slots /\ length (map_to_list (ti_deliveries after_thursday.2)) = 2%nat
  /\ open_slots after_thursday.2 = O.
Proof. split; [|split]; vm_compute; reflexivity. Qed.

(** A daily schedule of [deploy] and a half-hourly one of another pipeline;
    [deploy] is disabled after they were set up. *)
Definition other : Uuid := "pipeline-id-0002".
Definition frequent : Uuid := "trigger-id-00004".
Definition on_other (w : PipelineTriggerWrite) : PipelineTriggerWrite :=
  MkTriggerWrite (tw_project w) other (tw_trigger w) (tw_expected_generation w) (tw_kind w)
    (tw_state w) (tw_implementation_sha256 w) (tw_configuration_sha256 w) (tw_filter_sha256 w)
    (tw_event_source_identity w) (tw_source_generation w) (tw_configuration w)
    (tw_deduplication_window_seconds w) (tw_max_delivery_attempts w) (tw_delivery_ttl_seconds w)
    (tw_actor_subject w) (tw_reason w) (tw_idempotency_key w).
Definition two_pipelines (state : string) : Db := {|
  builds := ∅; nodes := ∅; attempts := ∅; deps := []; effects := []; events := [];
  deliveries := ∅; dead_letters := ∅;
  pipelines := <[deploy := MkPipeline shop 1 1]> {[other := MkPipeline shop 1 1]};
  pipeline_states := <[(deploy, 1) := state]> {[(other, 1) := "enabled"]};
  revision_digests := ∅; sessions := ∅; restore_points := ∅; restore_epochs := ∅; restore_epoch := 1
|}.
Definition blocked : TriggerDb :=
  default no_trigger_db (calls
    [CPut (stamp_at "060" noon) (at_second 0)
       (written nightly 0 Schedule TriggerEnabled (schedule_configuration "10 12 * * *" 1) "create");
     CPut (stamp_at "061" noon) (at_second 0)
       (on_other (written frequent 0 Schedule TriggerEnabled (schedule_configuration "*/30 * * * *" 2)
          "create"))]
    (no_trigger_db <| ti_store := two_pipelines "enabled" |>))
  <| ti_store := two_pipelines "disabled" |>.
Definition run_blocked (t : TriggerDb) : result StoreError Z * TriggerDb :=
  process_due_schedule_slots acme 5 (fun i => firing ("08" +:+ fmt_z (Z.of_nat i))) late t.
(** The slots of a trigger that can still fire. *)
Definition slots_left (t : TriggerDb) (trigger : Uuid) : nat :=
  length (List.filter (fun ts => bool_decide (sl_outcome ts.2 = SlotOpen)) (slots_of t trigger 1)).

(** The run fires the half-hourly schedule, fails on the disabled pipeline and
    reopens its slot, so that no horizon is extended. Every later run fails on the
    same slot first: the enabled schedule has no slot left and gets none. *)
Definition first_run : result StoreError Z * TriggerDb := run_blocked blocked.
Definition second_run : result StoreError Z * TriggerDb := run_blocked first_run.2.
Lemma disabled_pipeline_stops_schedules :
  (first_run.1, second_run.1) = (Err (PipelineDisabled deploy 1), Err (PipelineDisabled deploy 1))
  /\ (slots_left blocked frequent, slots_left first_run.2 frequent, slots_left second_run.2 frequent)
     = (2, 0, 0)%nat
  /\ (slots_left blocked nightly, slots_left second_run.2 nightly) = (1, 1)%nat
  /\ length (map_to_list (ti_deliveries second_run.2)) = 1%nat.
Proof. split; [|split; [|split]]; vm_compute; reflexivity. Qed.
