(* ===== verification/ComponentExamples.v ===== *)
(** * A component and its dependency

    A package that runs [make] with a typed input, a package that depends on
    it, the catalog of both, and the theorems on components applied to them. *)

From stdpp Require Import base gmap list strings pretty.
From Stdlib Require Import Ascii ZArith Lia.
From S2P Require Import Prelude Text Bytes Expression Domain Artifacts StrictYaml PipelineIr.
From S2P Require Import Canonical Compiler CanonicalParameters CanonicalAccept CanonicalUnique.
From S2P Require Import Components ComponentExpansion ComponentSpec ComponentIdentity.
From S2P Require Import WorkspaceExamples.

Open Scope Z_scope.

Definition make_stage (artifacts : list ArtifactSpec) : Stage := {|
  stage_id := "build"; stage_name := "Build"; stage_image := None;
  stage_steps := [Process (Build_ProcessStep Direct "make" ["all"] [] (Some 600) example_span)];
  stage_artifacts := artifacts; stage_source_span := example_span |}.

(** [make], on a target that defaults to [all]. *)
Definition make_pipeline : PipelineIr := {|
  schema := IR_V1_1; name := "make";
  parameters := [("target", Build_ParameterDefinition TyString (Some (PString "all")) false)];
  parameter_values := [("target", PString "all")];
  expressions := [Build_ExpressionBinding "$.stages[0].steps[0].process.args[0]"
    (EParameter "target")];
  stages := [make_stage []]; notify := [];
  provenance := example_provenance; source_span := example_span |}.

Definition plain_pipeline (artifacts : list ArtifactSpec) : PipelineIr := {|
  schema := if llen artifacts =? 0 then IR_V1 else IR_V1_8; name := "plain";
  parameters := []; parameter_values := []; expressions := [];
  stages := [make_stage artifacts]; notify := [];
  provenance := example_provenance; source_span := example_span |}.

Definition leaf : VersionedComponent := {|
  vc_version := COMPONENT_V1; vc_name := "leaf"; vc_pipeline := make_pipeline;
  vc_outputs := [("report", TyString)]; vc_dependencies := []; vc_provenance := example_provenance |}.

(** The digest of a package the example accepts. *)
Definition digest_of (c : VersionedComponent) : string :=
  match component_semantic_digest c with Ok digest => digest | Err _ => "" end.

Definition trunk : VersionedComponent := {|
  vc_version := COMPONENT_V1; vc_name := "trunk"; vc_pipeline := plain_pipeline [];
  vc_outputs := [];
  vc_dependencies := [Build_ComponentInvocation (digest_of leaf) [("target", PString "tests")];
                      Build_ComponentInvocation (digest_of leaf) []];
  vc_provenance := example_provenance |}.

(** A package whose stage declares artifacts. *)
Definition archiver : VersionedComponent := {|
  vc_version := COMPONENT_V1; vc_name := "archiver";
  vc_pipeline := plain_pipeline [Build_ArtifactSpec "logs" ["out/*.log"]];
  vc_outputs := []; vc_dependencies := []; vc_provenance := example_provenance |}.

Definition catalog_of (cs : list VersionedComponent) : ComponentCatalog :=
  match register_all cs ∅ with Ok catalog => catalog | Err _ => ∅ end.

Definition trunk_invocation : ComponentInvocation := Build_ComponentInvocation (digest_of trunk) [].

Definition trunk_expansion : ExpandedPipeline :=
  match expand_component trunk_invocation (catalog_of [leaf; trunk]) default_expansion_limits with
  | Ok e => e
  | Err _ => Build_ExpandedPipeline "" make_pipeline []
  end.

Lemma default_limits_typed : limits_typed default_expansion_limits.
Proof. by repeat constructor. Qed.

(** The trunk expands to its three invocations and their stages, the
    dependencies' first. *)
Lemma trunk_expands :
  expand_component trunk_invocation (catalog_of [leaf; trunk]) default_expansion_limits
    = Ok trunk_expansion /\
  stage_id <$> stages (ep_pipeline trunk_expansion) = ["c1.build"; "c2.build"; "c0.build"] /\
  cr_path <$> ep_components trunk_expansion = ["$"; "$.dependencies[0]"; "$.dependencies[1]"].
Proof. vm_compute. done. Qed.

Lemma expand_component_exact_witness :
  exists c rs ss, catalog_of [leaf; trunk] !! digest_of trunk = Some c /\
    unfolds (catalog_of [leaf; trunk]) ∅ 8 trunk_invocation "$" 0 rs ss /\
    ep_components trunk_expansion = rs /\ stages (ep_pipeline trunk_expansion) = ss.
Proof.
  destruct (proj1 (expand_component_exact trunk_invocation (catalog_of [leaf; trunk])
    default_expansion_limits trunk_expansion default_limits_typed) (proj1 trunk_expands))
    as (_ & c & rs & ss & Hc & Hu & _ & _ & E & _).
  exists c, rs, ss. rewrite E. split_and!; [exact Hc|exact Hu|reflexivity|reflexivity].
Defined.

(** A catalog in which a package was put under the digest it depends on, so
    that it invokes itself. *)
Definition knot : ComponentCatalog :=
  <[digest_of leaf := trunk]> (catalog_of [leaf; trunk]).
Definition knot_invocation : ComponentInvocation := Build_ComponentInvocation (digest_of leaf) [].

Lemma expand_component_total_witness :
  (exists e, expand_component knot_invocation knot default_expansion_limits = Ok e) \/
  exists error, expand_component knot_invocation knot default_expansion_limits
    = Err (Rejected error).
Proof.
  apply (expand_component_total knot_invocation knot default_expansion_limits default_limits_typed).
Defined.

(** Re-entering the package is what stops it. *)
Lemma knot_is_a_cycle :
  match expand_component knot_invocation knot default_expansion_limits with
  | Err (Rejected e) => ce_code e = Cycle
  | _ => False
  end.
Proof. vm_compute. reflexivity. Qed.

Lemma expansion_immutable_witness :
  expand_component trunk_invocation (catalog_of [leaf; trunk; archiver]) default_expansion_limits
  = Ok trunk_expansion.
Proof.
  apply (expansion_immutable trunk_invocation (catalog_of [leaf; trunk]) default_expansion_limits
    [archiver] (catalog_of [leaf; trunk; archiver]) trunk_expansion default_limits_typed).
  - vm_compute. reflexivity.
  - apply trunk_expands.
Defined.

Lemma artifact_component_never_expands_witness :
  catalog_of [archiver] !! digest_of archiver = Some archiver /\
  forall e, expand_component (Build_ComponentInvocation (digest_of archiver) [])
    (catalog_of [archiver]) default_expansion_limits <> Ok e.
Proof.
  assert (catalog_of [archiver] !! digest_of archiver = Some archiver) as Hc
    by (vm_compute; reflexivity).
  split; [exact Hc|].
  apply (artifact_component_never_expands (catalog_of [archiver]) (digest_of archiver) []
    default_expansion_limits archiver (make_stage [Build_ArtifactSpec "logs" ["out/*.log"]])
    default_limits_typed Hc).
  - by left.
  - done.
Defined.

(** The trunk published from another file. *)
Definition moved_trunk : VersionedComponent :=
  Build_VersionedComponent (vc_version trunk) (vc_name trunk)
    (Build_PipelineIr IR_V1 "plain" [] [] [] [make_stage []] [] no_provenance no_span)
    (vc_outputs trunk) (vc_dependencies trunk) no_provenance.

Lemma trunk_typed : component_typed trunk /\ component_typed moved_trunk.
Proof.
  split; (split; [by repeat constructor|by repeat constructor|by vm_compute|]);
    repeat (apply Forall_cons_2 || apply Forall_nil_2); (split; [by vm_compute|]);
    (split; [by repeat constructor|by vm_compute]).
Qed.

Lemma component_digest_identifies_witness :
  same_component trunk moved_trunk \/ sha256_collision.
Proof.
  apply (component_digest_identifies trunk moved_trunk (digest_of trunk));
    [apply trunk_typed|apply trunk_typed|vm_compute; reflexivity|vm_compute; reflexivity].
Defined.

Definition expansion_digest : string :=
  match expanded_semantic_digest trunk_expansion with Ok digest => digest | Err _ => "" end.

(** The same expansion with every trace of its sources removed. *)
Definition moved_expansion : ExpandedPipeline :=
  Build_ExpandedPipeline (ep_root trunk_expansion) (strip_pipeline (ep_pipeline trunk_expansion))
    (strip_receipt <$> ep_components trunk_expansion).

(** Replace a closed term by its value. *)
Ltac evaluate x :=
  let v := eval vm_compute in x in assert (x = v) as -> by (vm_compute; reflexivity).

Ltac expansion_typed_tac e :=
  split; [by vm_compute| | | |by vm_compute];
  [evaluate (ep_components e);
   repeat (apply Forall_cons_2; [split; [reflexivity|by repeat constructor]|]); constructor
  |evaluate (ep_pipeline e); by repeat constructor..].

Lemma trunk_expansion_typed : expansion_typed trunk_expansion.
Proof. expansion_typed_tac trunk_expansion. Qed.
Lemma moved_expansion_typed : expansion_typed moved_expansion.
Proof. expansion_typed_tac moved_expansion. Qed.

Lemma expansion_digest_identifies_witness :
  same_expansion trunk_expansion moved_expansion \/ sha256_collision.
Proof.
  apply (expansion_digest_identifies trunk_expansion moved_expansion expansion_digest);
    [apply trunk_expansion_typed|apply moved_expansion_typed|vm_compute; reflexivity
    |vm_compute; reflexivity].
Defined.
