(* ===== verification/StoreExamples.v ===== *)
(** * Histories of the store

    Concrete histories, computed by the transactions themselves: they show that
    the theorems on reachable states apply, and what the store does in the
    corners where a comment or a document promises something else. *)

From stdpp Require Import base gmap sets list strings pretty relations.
From Stdlib Require Import ZArith Lia.
From S2P Require Import Prelude Text Bytes Domain DagContract DagNormal StoreTables DagRuntime.
From S2P Require Import WorkspaceStore WorkspaceExamples Sequential.
From S2P Require Import Scheduler Attempts Lifecycle StoreFrames AttemptMoves LeaseRefinement.
From S2P Require Import History NodeFlow DagAdvance Claims WorkspaceSnapshot WorkspaceChain.
From S2P Require Import StoreTyped.

Open Scope Z_scope.

(** ** Playing operations *)

#[export] Instance small_dag : DagExternal := small_external.
#[export] Instance plain_postgres : Postgres :=
  {| hashtextextended _ _ := 0; jsonb_text _ := "" |}.
(** Commits the operations one after the other. *)
Fixpoint play (ops : list (Z * operation)) (db : Db) : option Db :=
  match ops with
  | [] => Some db
  | (now, op) :: ops => match perform now op db with Some db => play ops db | None => None end
  end.

Definition after (ops : list (Z * operation)) (db : Db) : Db := default db (play ops db).
Definition plays (ops : list (Z * operation)) (db : Db) : bool :=
  match play ops db with Some _ => true | None => false end.

Lemma play_steps (allowed : operation -> Prop) ops db :
  Forall (fun x => allowed x.2) ops -> plays ops db = true ->
  rtc (step allowed) db (after ops db).
Proof.
  unfold plays, after. revert db. induction ops as [|[now op] ops IH]; intros db Hall H; simpl in *;
    [apply rtc_refl|].
  apply Forall_cons in Hall as [Hop Hall]. destruct (perform now op db) as [d|] eqn:E; [|done].
  specialize (IH d Hall H). destruct (play ops d) as [d'|]; [|done]. simpl in *.
  eapply rtc_l; [|exact IH]. by eapply step_perform.
Qed.

(** A store with one pipeline and two agents. *)
Definition empty_db : Db := {|
  builds := ∅; nodes := ∅; attempts := ∅; deps := []; effects := []; events := [];
  deliveries := ∅; dead_letters := ∅;
  pipelines := {["pipeline" := MkPipeline "project" 1 1]};
  pipeline_states := {[("pipeline", 1) := "enabled"]};
  revision_digests := {[("pipeline", 1) := "0123456789abcdef0123456789abcdef"]};
  sessions := <["first" := MkSession "default" 1 [WORKSPACE_AFFINITY_FEATURE]
                  ["platform:linux"; WORKSPACE_AFFINITY_CAPABILITY] 0]>
              {["second" := MkSession "default" 1 [WORKSPACE_AFFINITY_FEATURE]
                  ["platform:linux"; WORKSPACE_AFFINITY_CAPABILITY] 0]};
  restore_points := {["backup" := MkRestorePoint 1 (Some "0/1")]}; restore_epochs := ∅; restore_epoch := 1
|}.

Lemma play_reachable allowed ops :
  Forall (fun x => allowed x.2) ops -> plays ops empty_db = true ->
  reachable allowed (after ops empty_db).
Proof. intros Hall H. exists empty_db. split; [done|]. by apply play_steps. Qed.

Definition ids (i : nat) : Uuid * Uuid := ("node" +:+ pretty i, "attempt" +:+ pretty i).
Definition claim_of (agent : string) : ClaimRequest :=
  {| scheduler_id := "scheduler"; agent_id := agent;
     capabilities := ["platform:linux"; WORKSPACE_AFFINITY_CAPABILITY]; trust_pool := "default";
     lease_seconds := 60; fairness_seed := 0 |}.
Definition claim_by (agent : string) : operation := Claim (fun _ => false) (claim_of agent) (Some 1).
Definition admission (input : NewDagBuild) : operation := AdmitDag "build" ids input VNull false.

Definition work (key : string) (deps : list (string * DependencyCondition)) : NewDagNode :=
  Build_NewDagNode key Work (map (fun d => Build_DagDependency d.1 d.2) deps)
    [WORKSPACE_AFFINITY_CAPABILITY] "linux" "default" 0 VNull false 3.

Definition two_stages : NewDagBuild := example_build [work "a" []; work "b" [("a", Succeeded)]].

(** One agent runs an attempt from its claim to its outcome. *)
Definition started (agent attempt : string) (fence : Z) : list (Z * operation) :=
  [(1, claim_by agent); (2, Accept attempt fence 1 agent (Some 1));
   (3, Run attempt fence 1 agent (Some 1))].
Definition finished (agent attempt : string) (fence : Z) (o : TerminalOutcome) :
    list (Z * operation) :=
  [(4, Finalize ("retry " +:+ attempt) attempt fence 1 agent (Some 1) o VNull false)].

(** ** The theorems at work *)

Definition first_running : list (Z * operation) := [(0, admission two_stages)] ++ started "first" "attempt0" 1.
Definition first_done : list (Z * operation) := first_running ++ finished "first" "attempt0" 1 OSucceeded.
Definition running_db : Db := after first_running empty_db.
Definition done_db : Db := after first_done empty_db.
Definition row_of {A} (t : gmap Uuid A) (k : Uuid) (d : A) : A := default d (t !! k).

Lemma running_reachable : reachable no_retry running_db.
Proof. apply play_reachable; [by repeat constructor | vm_compute; reflexivity]. Qed.
Lemma running_reachable_any : reachable any_operation running_db.
Proof. apply play_reachable; [by repeat constructor | vm_compute; reflexivity]. Qed.

Lemma finish_running :
  finalize_attempt_with_session 4 "retry attempt0" "attempt0" 1 1 "first" (Some 1) OSucceeded VNull
    false running_db = Ok (Some OSucceeded, done_db).
Proof. vm_compute. reflexivity. Qed.

Lemma finish_step : step any_operation running_db done_db.
Proof.
  eapply (step_perform _ 4 (Finalize "retry attempt0" "attempt0" 1 1 "first" (Some 1) OSucceeded
    VNull false)); [done|]. unfold perform. by rewrite finish_running.
Qed.

Definition blocked_node : Node := new_node 0 "build" (work "b" [("a", Succeeded)]).
Definition running_attempt : Attempt := row_of (attempts running_db) "attempt0"
  (queued_attempt 0 "node0" 1 None 1 None).

Definition finish_request : operation :=
  Finalize "retry attempt0" "attempt0" 1 1 "first" (Some 1) OSucceeded VNull false.

Lemma store_refines_attempt_lease_witness :
  (exists s, rtc AttemptLease.Next AttemptLease.Init s /\ refines_at running_db "attempt0" s
    /\ lease_invariants s)
  /\ (forall s, refines_at running_db "attempt0" s ->
       exists s', rtc (taken (entitled 4 finish_request running_db done_db "attempt0")) s s'
         /\ refines_at done_db "attempt0" s')
  /\ (forall agent fence epoch, request finish_request = Some ("attempt0", agent, fence, epoch) ->
       attempts done_db !! "attempt0" <> attempts running_db !! "attempt0" ->
       lease_owner running_db "attempt0" agent fence epoch).
Proof.
  apply (store_refines_attempt_lease 4 finish_request running_db done_db "attempt0");
    [apply running_reachable_any|].
  unfold finish_request, perform. by rewrite finish_running.
Defined.

Lemma publication_has_authority_witness : exists s s' a2,
  rtc AttemptLease.Next AttemptLease.Init s /\ refines_at running_db "attempt0" s
  /\ AttemptLease.completion s = AttemptLease.NoLease
  /\ rtc AttemptLease.Next s s' /\ refines_at done_db "attempt0" s' /\ refines_at done_db "attempt0" s'
  /\ AttemptLease.completion s' = (Some "first", 2 * 1 - 1)
  /\ AttemptLease.completion s' = AttemptLease.acceptedLease s'
  /\ attempts done_db !! "attempt0" = Some a2 /\ a_status a2 = outcome_attempt OSucceeded.
Proof.
  apply (publication_has_authority 4 "retry attempt0" "attempt0" 1 1 "first" (Some 1) OSucceeded VNull
    false running_db OSucceeded done_db done_db running_attempt).
  - apply running_reachable_any.
  - apply finish_running.
  - vm_compute. reflexivity.
  - vm_compute. reflexivity.
  - apply rtc_refl.
Defined.

Lemma finalize_is_idempotent_witness :
  finalize_attempt_with_session 9 "later" "attempt0" 1 1 "first" (Some 1) OSucceeded VNull false done_db
  = Ok (Some OSucceeded, done_db).
Proof.
  apply (finalize_is_idempotent 4 9 "retry attempt0" "later" "attempt0" 1 1 "first" (Some 1) OSucceeded
    VNull false running_db OSucceeded done_db done_db);
    [apply finish_running | apply rtc_refl | vm_compute; reflexivity | reflexivity].
Defined.

Lemma one_live_attempt_witness :
  (forall i j a o, attempts running_db !! i = Some a -> attempts running_db !! j = Some o ->
     live (a_status a) = true -> live (a_status o) = true -> a_node a = a_node o -> i = j)
  /\ (forall i a, attempts running_db !! i = Some a -> live (a_status a) = true ->
        newest running_db (a_node a) i a)
  /\ (forall k n, nodes running_db !! k = Some n ->
        exists b i a, builds running_db !! n_build n = Some b /\ newest running_db k i a
          /\ agrees n b a).
Proof. apply (one_live_attempt running_db), running_reachable_any. Defined.

Lemma no_deadlock_witness : exists k' n' b i a,
  rtc (edge (deps running_db)) "node1" k' /\ nodes running_db !! k' = Some n'
  /\ n_build n' = "build" /\ builds running_db !! "build" = Some b
  /\ ready running_db k' = true /\ newest running_db k' i a
  /\ (n_status n' = NQueued /\ a_status a = AQueued
      \/ (n_status n' = NOffered \/ n_status n' = NRunning) /\ leased_attempt (a_status a) = true
      \/ n_status n' = NReconciliation /\ a_status a = AReconciliation
      \/ n_status n' = NReconciliation /\ terminal_attempt (a_status a) = true
         /\ n_outcome n' <> None /\ flagged n' b = true).
Proof.
  apply (no_deadlock running_db "node1" blocked_node);
    [apply running_reachable | vm_compute; reflexivity | vm_compute; reflexivity].
Defined.

Definition admitted_db : Db := after [(0, admission two_stages)] empty_db.


(** An agent without the affinity capability is told what it lacks. *)
Lemma explain_wait_exact_witness :
  let r := CapabilityMismatch [("platform:linux", tt); ("workspace-affinity-v1", tt)]
             [("workspace-affinity-v1", tt)] in
  explains admitted_db ["platform:linux"] "default" r
  /\ (r <> WaitReady -> forall now locked req,
        capabilities req = ["platform:linux"] -> trust_pool req = "default" ->
        claim_next_with_session now locked req None admitted_db = Ok (None, admitted_db)).
Proof. apply (explain_wait_exact admitted_db ["platform:linux"] "default"). vm_compute. reflexivity. Defined.

(** ** A workspace handed from step to step *)

Definition shell_node (key script : string) (previous : list string) : NewDagNode :=
  Build_NewDagNode key Work (map (fun k => Build_DagDependency k Succeeded) previous) [] "linux"
    "migration-deny-authority" 0 (shell_spec script) false 1.
Definition shell_dag : NewDagBuild :=
  Build_NewDagBuild "org" "project" "pipeline" 1 1 "key" "0123456789abcdef0123456789abcdef" 0
    [shell_node "compile" "make" []; shell_node "test" "make check" ["compile"]] (VArray []).
Definition shell_row (key : string) (stage step execution : Z) (name : string) : SequentialStepLayout :=
  {| sl_node_key := key; sl_stage_id := normalized_stage_id name; sl_stage_name := name;
     sl_stage_ordinal := stage; sl_step_ordinal := step; sl_execution_ordinal := execution |}.
Definition shell_layout : list SequentialStepLayout :=
  [shell_row "test" 2 1 2 "Run tests"; shell_row "compile" 1 1 1 "Build"].
Definition shell_build : SequentialDagBuild :=
  {| sq_dag := shell_dag; sq_layout := rev shell_layout; sq_workspace_transfer := false |}.

Lemma sequential_chain_witness :
  new_sequential shell_dag shell_layout = Ok shell_build /\ staged (sq_layout shell_build).
Proof.
  assert (new_sequential shell_dag shell_layout = Ok shell_build) as H by (vm_compute; reflexivity).
  split; [exact H|]. apply (sequential_chain shell_dag shell_layout shell_build H).
Defined.

Definition contained_db : Db := empty_db <| sessions :=
  {["third" := MkSession "migration-deny-authority" 1 [WORKSPACE_TRANSFER_FEATURE]
      ["platform:linux"; WORKSPACE_TRANSFER_CAPABILITY] 0]} |>.
Definition contained_claim : operation := Claim (fun _ => false)
  {| scheduler_id := "scheduler"; agent_id := "third";
     capabilities := ["platform:linux"; WORKSPACE_TRANSFER_CAPABILITY];
     trust_pool := "migration-deny-authority"; lease_seconds := 60; fairness_seed := 0 |} (Some 1).

Definition sequential_row : Build :=
  new_build 0 (two_stages) (VObject [("sequential_layout",
    VObject [("steps", VArray [VNull; VNull; VNull])])]) "digest".
Definition opened_row : Build :=
  match initialize "namespace-000001" sequential_row with Ok b => b | Err _ => sequential_row end.

Definition handed (generation : Z) (input output : WorkspaceSnapshot) : Value :=
  VObject [("workspace_transfer", transfer_value
    {| tr_version := 1; tr_organization := "organization-001"; tr_build := "build-0000000001";
       tr_namespace := "namespace-000001"; tr_generation := generation;
       tr_input_digest := digest_of input; tr_snapshot := Some output; tr_error := None |})].

(** Both steps run and hand their files on; the end of the build drops them. *)
Definition step_run (attempt : string) (summary : Value) : list (Z * operation) :=
  [(1, contained_claim); (2, Accept attempt 1 1 "third" (Some 1));
   (3, Run attempt 1 1 "third" (Some 1));
   (4, Finalize "retry" attempt 1 1 "third" (Some 1) OSucceeded summary false)].
Definition contained_start : list (Z * operation) :=
  [(0, AdmitSequential "build-0000000001" ids "namespace-000001" (with_workspace_transfer shell_build))]
  ++ step_run "attempt0" (handed 0 empty_snapshot example_snapshot).
Definition contained_end : list (Z * operation) :=
  step_run "attempt1" (handed 1 example_snapshot empty_snapshot).

Lemma contained_reachable : reachable any_operation (after contained_start contained_db).
Proof.
  exists contained_db. split; [done|].
  apply play_steps; [by apply Forall_true|vm_compute; reflexivity].
Qed.

Lemma reachable_store_typed_witness :
  store_typed (after contained_start contained_db) /\
  b_ws_generation <$> builds (after contained_start contained_db) !! "build-0000000001" = Some 1 /\
  (fun b => (b_status b, b_closed b)) <$>
    builds (after (contained_start ++ contained_end) contained_db) !! "build-0000000001"
  = Some (BSucceeded, true).
Proof.
  split; [apply (reachable_store_typed (after contained_start contained_db) contained_reachable)|].
  split; vm_compute; reflexivity.
Defined.

Definition two_snapshots : WorkspaceSnapshot :=
  {| sn_version := 1; sn_entries := [File "note" true "later"] |}.

Definition three_endings : list Ending :=
  [Published false OSucceeded (handed 0 empty_snapshot example_snapshot);
   Ended "aborted" None;
   Published true OSucceeded (handed 1 example_snapshot two_snapshots)].

Definition handed_over : Build * list AttemptHistory :=
  match try_fold (ending_step "build-0000000001") (opened_row, []) three_endings with
  | Ok r => r
  | Err _ => (opened_row, [])
  end.

Lemma committed_history_valid_witness :
  b_ws_generation (fst handed_over) = 2 /\
  validate_history (history_of "build-0000000001" (fst handed_over) (snd handed_over)) = Ok tt.
Proof.
  split; [vm_compute; reflexivity|].
  apply (committed_history_valid "build-0000000001" "namespace-000001" sequential_row opened_row
    (fst handed_over) three_endings (snd handed_over)); try (vm_compute; reflexivity).
  apply Forall_cons_2; [intros _; vm_compute; reflexivity|].
  apply Forall_cons_2; [split; [discriminate|reflexivity]|].
  apply Forall_cons_2; [discriminate|apply Forall_nil_2].
Defined.
