(* ===== verification/StoreFindings.v ===== *)
(** * Corners of the store

    Four reachable states in which the store does not do what its documents and
    comments say: an orphaned affinity build that no poll fails, a build that
    succeeds with a failed node, a build that operator retries leave without
    runnable work, and a cancelled build that no later call settles. *)

From stdpp Require Import base gmap sets list strings pretty relations.
From Stdlib Require Import ZArith Lia.
From S2P Require Import Prelude Text Bytes Domain DagContract DagNormal StoreTables DagRuntime.
From S2P Require Import WorkspaceStore WorkspaceExamples Sequential.
From S2P Require Import Scheduler Attempts Lifecycle StoreFrames AttemptMoves LeaseRefinement.
From S2P Require Import History NodeFlow Claims WorkspaceSnapshot WorkspaceChain StoreExamples.

Open Scope Z_scope.

(** ** Histories *)

(** The agent that ran the first stage is silent for five minutes. *)
Definition silence : Z := seconds 301.

Definition step_node (key : string) (deps : list (string * DependencyCondition)) (fail_fast : bool) :
    NewDagNode :=
  Build_NewDagNode key Work (map (fun d => Build_DagDependency d.1 d.2) deps) [] "linux" "default" 0
    VNull fail_fast 1.
Definition parallel : NewDagBuild := example_build [step_node "a" [] false; step_node "b" [] false].

(** Both attempts are under way when a backup is restored; the first is given up. *)
Definition given_up : list (Z * operation) :=
  [(0, admission parallel)] ++ started "first" "attempt0" 1 ++ started "second" "attempt1" 1
  ++ [(5, Restore 0 "backup" "restored");
      (6, Retry "retry" (fun k => k) "attempt0" 1 "give up" "operator")].
Definition flipped : list (Z * operation) :=
  given_up ++ [(7, Reconcile "retry" "attempt1" 1 "operator" OSucceeded VNull)].

(** A chain in which the last node fails fast while an earlier one is retried. *)
Definition chain : NewDagBuild := example_build
  [step_node "s" [] false; step_node "m" [("s", Succeeded)] false;
   step_node "p" [("m", Completed)] false; step_node "n" [("p", Completed)] true].
Definition ran (attempt : string) (o : TerminalOutcome) : list (Z * operation) :=
  started "first" attempt 1 ++ finished "first" attempt 1 o.
Definition retried (attempt new : string) : list (Z * operation) :=
  [(9, Retry new (fun k => "again " +:+ k) attempt 5 "again" "operator")].
Definition stuck : list (Z * operation) :=
  [(0, admission chain)] ++ ran "attempt0" OSucceeded ++ ran "attempt1" OFailed ++ ran "attempt2" OFailed
  ++ started "first" "attempt3" 1 ++ retried "attempt1" "m2" ++ finished "first" "attempt3" 1 OFailed
  ++ retried "attempt3" "n2" ++ retried "attempt2" "p2".

(** A build is cancelled while one node runs and one is offered; its pipeline is
    then disabled, and the offered attempt cannot tell what became of its process. *)
Definition cancelled : list (Z * operation) :=
  [(0, admission parallel)] ++ started "first" "attempt0" 1
  ++ [(4, claim_by "second"); (5, Cancel "project" "build" "operator")].
Definition disabled (db : Db) : Db :=
  MkDb (builds db) (nodes db) (attempts db) (deps db) (effects db) (events db) (deliveries db)
    (dead_letters db) {["pipeline" := MkPipeline "project" 1 2]} {[("pipeline", 2) := "disabled"]}
    (revision_digests db) (sessions db) (restore_points db) (restore_epochs db) (restore_epoch db).
Definition abandoned : list (Z * operation) :=
  [(6, CompleteCancellation "r" "attempt0" 1 1 "first" 1 Terminated);
   (7, CompleteCancellation "r" "attempt1" 1 1 "second" 1 ReconciliationRequired);
   (8, Reconcile "r" "attempt1" 1 "operator" OAborted VNull)].
Definition zombie_db : Db := after abandoned (disabled (after cancelled empty_db)).

Definition build_status (db : Db) (build : Uuid) : option BuildStatus := b_status <$> builds db !! build.
Definition node_status (db : Db) (node : Uuid) : option NodeStatus := n_status <$> nodes db !! node.

Ltac played := apply play_reachable; [by repeat constructor | vm_compute; reflexivity].
Ltac computed := vm_compute; reflexivity.

Lemma disabled_outside db : outside db (disabled db).
Proof. by repeat split. Qed.

(** ** What happens *)

(** The second stage of an affinity build whose agent is gone: the build is one
    that [fail_orphaned_affinity_builds] fails, yet a poll of another agent finds
    no work, rolls the transaction back and leaves the build queued. *)
Theorem orphaned_build_stays_queued :
  reachable any_operation done_db
  /\ (orphaned silence done_db "build" <$> builds done_db !! "build") = Some true
  /\ (exists db', fail_orphaned_affinity_builds silence done_db = Ok db'
        /\ build_status db' "build" = Some BFailed)
  /\ claim_next_with_session silence (fun _ => false) (claim_of "second") (Some 1) done_db
     = Ok (None, done_db)
  /\ build_status done_db "build" = Some BQueued.
Proof.
  split_and!; [played|computed| |computed|computed].
  destruct (fail_orphaned_affinity_builds silence done_db) as [db'|] eqn:E; [|by vm_compute in E].
  exists db'. split; [done|]. vm_compute in E. injection E as <-. computed.
Qed.

(** A dead-lettered node has no logical outcome: the build is reported failed,
    and a later reconciliation of its other node makes it succeed, without a
    second terminal event. *)
Theorem failed_build_succeeds :
  reachable any_operation (after flipped empty_db)
  /\ build_status (after given_up empty_db) "build" = Some BFailed
  /\ build_status (after flipped empty_db) "build" = Some BSucceeded
  /\ node_status (after flipped empty_db) "node0" = Some NFailed
  /\ length (List.filter (fun e => String.eqb (ev_kind e) "dag.build_terminal")
       (events (after flipped empty_db))) = 1%nat.
Proof. split_and!; [played|computed..]. Qed.

(** Retries that leave a queued build with nothing to claim: a node is blocked
    although its dependency succeeded, the node after it waits for it, and the
    queued node waits for that one; no attempt is leased. *)
Theorem retries_deadlock :
  let db := after stuck empty_db in
  reachable any_operation db
  /\ build_status db "build" = Some BQueued
  /\ node_status db "node1" = Some NBlocked /\ ready db "node1" = true
  /\ exists_row (fun _ a => leased_attempt (a_status a)) (attempts db) = false
  /\ forall locked req, claim_rows locked req db = [].
Proof.
  split_and!; [played|computed..|]. intros locked req. apply none_ready_claims. unfold none_ready.
  assert (explain_rows (after stuck empty_db) = []) as -> by computed. done.
Qed.

(** Fencing aborts the offered node of a cancelled build but not its attempt;
    when that attempt is parked and reconciled, node and build stay in
    reconciliation, and neither a retry nor a cancellation changes that. *)
Theorem reconciled_build_stays_open :
  reachable any_operation zombie_db
  /\ build_status (after (take 1 abandoned) (disabled (after cancelled empty_db))) "build"
     = Some BAborted
  /\ build_status zombie_db "build" = Some BReconciliation
  /\ node_status zombie_db "node1" = Some NReconciliation
  /\ exists_row (fun _ a => negb (terminal_attempt (a_status a))) (attempts zombie_db) = false
  /\ schedule_retry_as 9 "r" (fun k => k) "attempt1" 5 "again" "operator" zombie_db
     = Ok (Ineligible, zombie_db)
  /\ request_cancellation_decision_as 9 "project" "build" "operator" zombie_db
     = Ok (NotCancellable (Some BReconciliation), zombie_db).
Proof.
  split_and!; [|computed..]. exists empty_db. split; [done|].
  etrans; [apply (play_steps any_operation cancelled); [by repeat constructor|computed]|].
  apply (rtc_l _ _ (disabled (after cancelled empty_db))); [apply step_outside, disabled_outside|].
  apply (play_steps any_operation abandoned); [by repeat constructor|computed].
Qed.

(** ** A transfer nobody verified *)

(** A failed attempt whose summary nests a transfer below [requested_summary],
    where a cancellation would keep one. *)
Definition nested_transfer : list Ending :=
  [Published false OFailed
     (VObject [("requested_summary", VObject [("workspace_transfer", VNull)])])].

(** [finalize_attempt] publishes the summary, since [normalize] looks for a
    transfer at the top only; [validate_history] then reads the nested value as
    the attempt's receipt, and the build's result can no longer be read. *)
Theorem nested_transfer_breaks_history :
  exists b history,
    try_fold (ending_step "build-0000000001") (opened_row, []) nested_transfer = Ok (b, history) /\
    is_ok (validate_history (history_of "build-0000000001" b history)) = false.
Proof. eexists _, _. split; [vm_compute; reflexivity|vm_compute; reflexivity]. Qed.
